(* ===== verification/_CoqProject ===== *)
-Q . S2P
Overview.v
Prelude.v
Text.v
Timeval.v
Heap.v
EventQueue.v
CppString.v
CppMap.v
CppList.v
CppHashMap.v
Base64.v
Sha1.v
Bloomfilter.v
CountingBloomfilter.v
CList.v
Attribute.v
Metadata.v
MetaTree.v
Interface.v
Node.v
MetadataXml.v
KernelMetadata.v
KernelXml.v
DataObject.v
KernelDataObject.v
KernelPut.v
KernelRetrieve.v
KernelTransfer.v
KernelWire.v
Ipc.v
Utils.v
Platform.v
Daemon.v
Threads.v
Delivery.v
LuckyMe.v
Galois.v
NetworkCoding.v
CodeTorrent.v
Fragmentation.v
Reassembly.v
Knapsack.v
Cache.v
