(* ===== verification/Overview.v ===== *)
(** * ENCODERS / Haggle: a verification of the C core

    Haggle (the [haggle/] tree of the repository) is a data-centric network architecture:
    a daemon stores and exchanges _data objects_, XML documents with weighted attributes
    and perhaps a file, and matches them with the interests of applications.  Applications
    talk to the daemon through the C library [libhaggle], over datagrams on the local
    host.  This development covers that library ([haggle/src/libhaggle]), the C utility
    library below it and the daemon ([haggle/src/utils]), one application on top of it
    ([haggle/src/luckyMe]), and of the daemon, which is C++, the layers that meet the library:
    its containers and event queue ([haggle/src/libcpphaggle]), its metadata and data objects, the
    protocol by which two daemons exchange a data object, and what it does with large objects and
    with many of them: network coding, fragmentation, and the cache ([haggle/src/hagglekernel]).

    ** How the parts fit together

    An application gets a handle ([haggle_handle_get]): libhaggle finds out whether the
    daemon runs, opens a socket, and exchanges two control objects with it.  A request (an
    interest, a published object, a setting) is a data object: its fields are written into
    a tree of metadata, the tree is written as XML, the bytes are one datagram.  In the
    other direction the event loop waits on the socket and on a signal pipe, parses each
    datagram back into a data object, looks at the [Application], [Control] and [Event]
    elements, and calls the application's handler with the decoded contents: a data
    object, a list of neighbors (nodes with their interfaces), a list of interests, or a
    shutdown.  Base64 and SHA-1 encode binary fields and compute identifiers; the Bloom
    filters are the compressed sets that nodes exchange about the objects they have.

    The daemon reads the same document with its own code: [XMLMetadata] parses it into a
    tree of [Metadata], [DataObject] takes attributes, times, file and signature from it and
    computes the identifier again, which has to be the library's since the two programs name
    objects by it.  Between two daemons a data object is a stream: a retriever hands out its metadata
    and then its file, the sender writes them and waits in between for the receiver to ask for
    the file, and the receiver puts the pieces together with [DataObject::putData].  The kernel's managers hand data objects to each other as events with
    a time, which wait in a heap.

    A large object can go out in pieces, each a data object of its own: as fragments, whose
    attributes say which parts of the file they have, or as coded blocks, random combinations of the parts over the
    field of 256 elements, of which any sufficiently many that are independent do.  The cache
    decides with a greedy solution of the knapsack problem, on heaps, which objects stay.

    ** Files

    [Prelude]: machine integers as [Z] with their wrap-around, byte strings, byte orders,
    the state-and-undefined-behaviour monad [M], error codes.  [Text]: the [printf],
    [scanf] and [strtoul] formats in use.

    [Base64] is [base64.c]; [Sha1] is [sha1.c]; [Bloomfilter] and [CountingBloomfilter] are
    [utils/bloomfilter.c] and [utils/counting_bloomfilter.c].

    [CList] is [list.h], [Attribute] is [attribute.c] and [Metadata] is [metadata.c], all
    three in an explicit heap with the pointers of the C code: the theorems there are about
    memory (sharing, dangling pointers, leaks, termination of pointer loops).

    [MetaTree] has the operations of [metadata.c] on trees as values and the lemma that
    relates them to the heap; it also declares the class [MetadataCodec], the interface
    between the library and its wire format.  [MetadataXml] is [metadata_xml.c], the
    instance that is compiled; its [codec_ok] discharges the interface.

    [Interface], [Node] and [DataObject] are [interface.c], [node.c] and [dataobject.c].
    Interfaces live in a store of blocks (their inner pointers matter); nodes and data
    objects are values.

    [Ipc] is [ipc.c] (handles, requests, registration, the event loop) and [Daemon] its
    functions that detect and start the daemon.  [Threads] has the loop and the application
    as two interleaved threads on one handle.  [Delivery] composes publishing: from the object that an
    application passes to the datagram on the socket, and what the library reads in it.

    Of the daemon, [Timeval], [Heap], [CppString], [CppMap], [CppList] and [CppHashMap] are
    [Timeval.cpp], [Heap.cpp], [String.h], [Map.h], [List.h] and [HashMap.h], classes of
    [libcpphaggle]; [EventQueue] is the kernel's [EventQueue.h] on the first two.
    [KernelMetadata] is [Metadata.cpp] and the reading half of [XMLMetadata.cpp], on the map
    and the hash map, [KernelXml] the writing half; [KernelDataObject] is [Attribute.cpp] and
    [DataObject.cpp] on top of them; [KernelPut] is [putData], the state machine that receives an
    object, and [KernelRetrieve] the retriever that reads one out.  [KernelTransfer] is
    [sendDataObjectNow] and [receiveDataObject] of [Protocol.cpp], as two machines that step when
    their sockets answer, and a connection between them.  [KernelWire] composes the three with the
    document: an object of one kernel becomes one of another.

    [Galois] is [networkcoding/galois.h], [NetworkCoding] is [nc.cpp] (the operations [EncodeBlock],
    [ReEncodeBlock], [IncrementalDecode], both overloads of [Decode] and their parts) and [CodeTorrent] is
    [codetorrent.cpp] with its encoders and decoder: generations of a file, in memory or in block
    files.  [Fragmentation] has the positions and attributes of fragments
    ([FragmentationDataObjectUtility.cpp]) and the encoder with its storage
    ([FragmentationEncoderService.cpp], [FragmentationEncoderStorage.cpp]), [Reassembly] the decoder
    ([FragmentationDecoderService.cpp], [FragmentationDecoderStorage.cpp]).  [Knapsack] is
    [CacheKnapsackOptimizer.cpp] and [ReplicationKnapsackOptimizer.cpp], on [Heap]; [Cache] is
    [CacheStrategyUtility.cpp], on [CppMap] and [Knapsack].

    [Utils] is [utils/utils.c] and [utils/prng.c], [Platform] is [libhaggle/platform.c],
    [LuckyMe] is [luckyMe/luckyme.c].

    ** Conventions

    C names are kept.  A result [None] is undefined behaviour (a NULL or dangling pointer,
    an access out of bounds, a NULL string), or a loop that has no input left; a NULL that
    the code returns is an inner [None].  What the code only calls is a parameter: [malloc]
    (an oracle on the number of the allocation), [rand], [random], libm, OpenSSL's SHA-1
    (in the Bloom filters), libxml2, the sockets ([sendto], [select], [recv], [send]), the
    file system (a map from paths to contents), [system], [stat], [getpwuid].  What is
    relied on about them is a hypothesis or a class, and each theorem with hypotheses is
    followed by a [_witness] that instantiates it.  Uninitialised memory is a parameter
    too ([ctx_buf], [uninit_time], [uninit_sha]).  Draws of [rand] are a list or one number, the clock
    is an argument or a function of the turn of a loop.  The host is little-endian with 32-bit
    [int] and 64-bit [long] and pointers.  From [MetaTree] on, allocation is assumed to
    succeed, unless a definition takes the answer as an argument.

    ** What is shown

    - Reference semantics: Base64 computes RFC 3548 and its decoder inverts it for every
      split of the input; SHA-1 computes FIPS 180-1 over any sequence of updates; the
      Internet checksum is the complement of the one's complement sum; the identifier of a
      data object is the digest of a canonical message, independent of the order in which
      attributes were added.
    - Refinement: attribute lists in the heap implement sorted insertion, lookup, removal,
      copy and parsing on sequences; Bloom filters implement sets of bits and vectors of
      16-bit counters; [strtok_r] implements the string function the parser uses.
    - Memory: freeing a metadata tree or a list gives back exactly what it holds; copies
      share nothing; no filter, path, address or hash operation leaves its buffer, and the
      overruns that exist are theorems with the inputs that cause them.
    - Termination and liveness: iteration over metadata, parsing, hashing a file, the search
      for a file name, sending a file, waiting for the daemon, the event loop after a
      timeout or a signal, and the search for fresh values in LuckyMe.
    - Round trips: data objects, interests, filters and documents through their wire
      formats; what is published is what the datagram says ([Delivery.publish_dataobject_spec]).
    - Concurrency: in which order a handle may be started, stopped and freed beside its event
      loop, that a stop returns, and the interleavings that break what the order forbids
      ([Threads.handle_races]).
    - The daemon's containers: maps, hash maps and heaps implement multimaps and sorted
      multisets under any sequence of operations; the event queue delivers the events in the
      order of their times, without those cancelled; time values stay normal, and denote the number of
      microseconds they are built from, from a [double] too.
    - Two programs, one protocol: the kernel reads a document as the library does
      ([KernelMetadata.kernel_reads_as_library]) and computes the identifier the library
      computed ([KernelDataObject.kernel_id_of_library]); its objects keep an identifier that
      is that of their contents, and no signature on a changed object; an object received in
      pieces is the one that was sent.  What the kernel writes, both programs read back
      ([KernelXml.kernel_xml_roundtrip]).  An object sent from one kernel to another arrives,
      or is refused, in a bounded number of steps, and nothing gets stuck on the way
      ([KernelTransfer.transfer_delivers]); and the object that arrives is the one sent
      ([KernelWire.kernel_to_kernel], [KernelWire.kernel_object_roundtrip]).
    - Objects in pieces: multiplication and division by tables are those of the field
      ([Galois.galois_field]); blocks decode exactly when their coefficients have full rank
      ([NetworkCoding.nc_decode_correct], [NetworkCoding.nc_blocks_coded]), also through files whose sizes fit an [int]
      ([CodeTorrent.codetorrent_roundtrip]).  Fragments cover
      their file, and in any order, with repetitions and losses, they give the object back as soon as the last
      is there ([Fragmentation.fragments_cover], [Reassembly.fragmentation_roundtrip]); each round of sending makes
      progress ([Fragmentation.get_all_fragments_spec]).
    - The cache: the optimizers compute the greedy choice in the order of marginal utility
      ([Knapsack.cache_knapsack], [Knapsack.replication_knapsack]); a purge keeps what is worth it
      ([Cache.purge_cache_spec]), and with [allow_db_purging] off no sequence of calls takes the cache to a dangling
      pointer or above its capacity ([Cache.cache_bounded]), while other managers change the objects it
      shares with them.  An object that becomes a duplicate in the cache is no longer purged: with
      purging on insertion the bound is on the others ([Cache.duplicates_stay]).
    - What goes wrong: for each defect that is reported there is a theorem or an example that runs
      into it, such as [Reassembly.expired_object_lost], [Cache.second_round_dangles],
      [CodeTorrent.two_generations_lose_the_first], [CodeTorrent.large_file] or [KernelWire.stale_signature].
    - Protocol behaviour: which handler an event calls and with what, when the loop ends,
      how the daemon's replies to a registration are read.

    ** Fuel

    Loops over pointers or with data-dependent ends take fuel.  Pointer loops run with the
    number of cells of the heap plus one ([loop_fuel], [mfuel]); string scanners with the
    length of the string plus one; the file loops with the number of bytes plus one;
    LuckyMe's search with the number of draws left plus one; the kernel's loops over containers
    with the number of entries plus one, its writer of XML with the depth of the tree, and its hash
    map grows along a list of primes; the loops over a heap with its size plus one, those over the
    start indexes of fragments with their number plus one.  The machines of [KernelTransfer] need none: a step is one
    answer of a socket, and their theorem bounds the steps.  That this is enough is part
    of the theorem about each loop: they state that a result exists.

    ** Assumptions worth knowing

    [MetadataXml] needs of libxml2 that building a document tree gives the tree asked for
    and that dumping and parsing are inverse on the documents of the library.
    For the kernel, that indentation is put only where an element has no text.  [KernelTransfer] needs
    that its connection neither loses nor reorders, that a control message is read whole, and that
    the header the sender writes is understood by the receiver as announcing as much data as the
    sender has.
    Its receiver is not a sending instance of [Protocol].  [KernelWire] needs that libxml2 reads back
    what it dumped, also with the text around elements trimmed.  The files of [CodeTorrent],
    [Fragmentation] and [Reassembly] are a map, whose disk does not fill up.  Floating point is
    binary64 where a result depends on it: in [Fragmentation] as mantissa and exponent, for numbers that
    are not negative, in [Knapsack], [Cache] and [Timeval] as the Standard Library specifies it; it is
    abstract in the dimensioning of Bloom filters and the weights of LuckyMe's interests.  The
    counters of [Cache] do not overflow, its utility function is an argument, and within one of its operations no other
    thread changes an object.  A handler of an event does not free its handle.

    ** Not modelled

    Of the daemon: the managers with their run loops, the connections of the protocols, UDP's sequence
    numbers, nodes and the node store, the data store (SQLite), forwarding and security, which are
    threads, sockets, databases and OpenSSL behind every step, and so what the daemon does with an object between the application that
    publishes it and those it announces it to; of network coding, fragmentation and
    the cache the managers, asynchronous modules and configuration around the services that are modelled, and the
    utility functions; thumbnails, and reference counting.  The kernel's objects are values: outside
    of [Cache] a [DataObjectRef] is not shared between two owners in any theorem.  Elsewhere: the JNI
    bindings, applications other than LuckyMe, the Windows and iPhone branches, [thread.c] and the mutexes (outside
    [Threads] everything is sequential), [debug.c] and the printing functions, tracing, ioctl and
    routing-table queries of [utils.c], LuckyMe's trace reader and command line,
    [haggle_dataobject_free] (data objects are values), Charm and CCB, and all vendored libraries:
    they print, wrap the platform, or belong to other projects. *)

From stdpp Require Import base.
