(* ===== verification/Prelude.v ===== *)
(** * Prelude: the machine integers, byte strings and generic lemmas shared by
    all components.

    A C object of [w] bits is a [Z] with its wrap-around written out
    ([u8], [u16], [u32], [u64] for the unsigned types, [s32] for [int]).  A byte
    buffer is a [list Z] whose elements satisfy [is_byte]; a NUL-terminated C
    string is a stdpp [string], with [bytes_of_string] giving the bytes that
    [strlen]/[memcpy] see.  The little- and big-endian encodings of a 32-bit word
    are [le32]/[be32].  The hint database [words] and the tactics at the end
    automate the range side conditions. *)

From stdpp Require Export base list numbers strings gmap sorting.
From Stdlib Require Export ZArith Lia Ascii.

#[global] Open Scope Z_scope.

(** ** Machine integers *)

Definition u8 (z : Z) : Z := z `mod` 2 ^ 8.
Definition u16 (z : Z) : Z := z `mod` 2 ^ 16.
Definition u32 (z : Z) : Z := z `mod` 2 ^ 32.
Definition u64 (z : Z) : Z := z `mod` 2 ^ 64.

(** Conversion of an unsigned value to the 32-bit [int] with the same bits. *)
Definition s32 (z : Z) : Z := let r := u32 z in if r <? 2 ^ 31 then r else r - 2 ^ 32.

Definition is_byte (b : Z) : Prop := 0 <= b < 256.
Definition is_u32 (w : Z) : Prop := 0 <= w < 2 ^ 32.
Definition is_u16 (w : Z) : Prop := 0 <= w < 2 ^ 16.

Abbreviation bytes := (Forall is_byte).
Abbreviation words := (Forall is_u32).

#[export] Instance is_byte_dec b : Decision (is_byte b).
Proof. unfold is_byte. apply _. Defined.
#[export] Instance is_u32_dec b : Decision (is_u32 b).
Proof. unfold is_u32. apply _. Defined.

(** A word is false in a C condition exactly when it is zero. *)
Definition nz (z : Z) : bool := negb (z =? 0).

Create HintDb words.
Create Rewrite HintDb words.

Lemma u8_byte z : is_byte (u8 z).
Proof. unfold is_byte, u8. apply Z.mod_pos_bound. lia. Qed.
Lemma u32_range z : is_u32 (u32 z).
Proof. unfold is_u32, u32. apply Z.mod_pos_bound. lia. Qed.
Lemma u16_range z : is_u16 (u16 z).
Proof. unfold is_u16, u16. apply Z.mod_pos_bound. lia. Qed.
Lemma u8_small z : is_byte z → u8 z = z.
Proof. intros. apply Z.mod_small. unfold is_byte in *. lia. Qed.
Lemma u32_small z : is_u32 z → u32 z = z.
Proof. intros. apply Z.mod_small. unfold is_u32 in *. lia. Qed.
Lemma u16_small z : is_u16 z → u16 z = z.
Proof. intros. apply Z.mod_small. unfold is_u16 in *. lia. Qed.
Lemma u32_idemp z : u32 (u32 z) = u32 z.
Proof. apply u32_small, u32_range. Qed.
Lemma u32_add_l a b : u32 (u32 a + b) = u32 (a + b).
Proof. unfold u32. by rewrite Zplus_mod_idemp_l. Qed.
Lemma u32_add_r a b : u32 (a + u32 b) = u32 (a + b).
Proof. unfold u32. by rewrite Zplus_mod_idemp_r. Qed.

#[export] Hint Resolve u8_byte u32_range u16_range : words.
#[export] Hint Rewrite u32_idemp u32_add_l u32_add_r : words.

(** ** Bit operations as arithmetic *)

Lemma land_ones_mod a n : 0 <= n → Z.land a (2 ^ n - 1) = a `mod` 2 ^ n.
Proof. intros. rewrite Z.sub_1_r, <- Z.ones_equiv. by apply Z.land_ones. Qed.

Lemma lor_add x y n : 0 <= n → 0 <= y < 2 ^ n → Z.lor (x * 2 ^ n) y = x * 2 ^ n + y.
Proof.
  intros Hn Hy. rewrite <- Z.add_lor_land.
  replace (Z.land (x * 2 ^ n) y) with 0; [lia|].
  symmetry. apply Z.bits_inj'. intros i Hi. rewrite Z.bits_0, Z.land_spec.
  rewrite <- Z.shiftl_mul_pow2 by lia. destruct (decide (i < n)).
  - by rewrite Z.shiftl_spec_low.
  - rewrite <- (Z.mod_small y (2 ^ n)) by lia.
    rewrite Z.mod_pow2_bits_high by lia. apply andb_false_r.
Qed.

Lemma land_shiftl_mask x y n :
  0 <= n → Z.land (Z.shiftl x n) (Z.shiftl y n) = Z.land x y * 2 ^ n.
Proof. intros. rewrite <- Z.shiftl_land, Z.shiftl_mul_pow2; lia. Qed.

(** ** C strings *)

Definition byte_of_ascii (a : ascii) : Z := Z.of_N (N_of_ascii a).

Fixpoint bytes_of_string (s : string) : list Z :=
  match s with
  | EmptyString => []
  | String a s => byte_of_ascii a :: bytes_of_string s
  end.

(** The C string stored in a buffer: the bytes before the first NUL. *)
Fixpoint string_of_bytes (l : list Z) : string :=
  match l with
  | [] => EmptyString
  | b :: l => if u8 b =? 0 then EmptyString
              else String (ascii_of_N (Z.to_N (u8 b))) (string_of_bytes l)
  end.

Definition strlen (s : string) : Z := Z.of_nat (String.length s).

(** ** 32-bit words as bytes *)

Definition le32 (w : Z) : list Z := map (fun k => u8 (Z.shiftr w (8 * k))) [0; 1; 2; 3].
Definition be32 (w : Z) : list Z := map (fun k => u8 (Z.shiftr w (8 * k))) [3; 2; 1; 0].
Definition be16 (w : Z) : list Z := map (fun k => u8 (Z.shiftr w (8 * k))) [1; 0].

(** Reading a word back; [None] when fewer bytes are left. *)
Definition read_le32 (l : list Z) : option (Z * list Z) :=
  match l with
  | a :: b :: c :: d :: l => Some (a + 2 ^ 8 * b + 2 ^ 16 * c + 2 ^ 24 * d, l)
  | _ => None
  end.
Definition read_be32 (l : list Z) : option (Z * list Z) :=
  match l with
  | a :: b :: c :: d :: l => Some (2 ^ 24 * a + 2 ^ 16 * b + 2 ^ 8 * c + d, l)
  | _ => None
  end.
Definition read_be16 (l : list Z) : option (Z * list Z) :=
  match l with a :: b :: l => Some (2 ^ 8 * a + b, l) | _ => None end.

(** [n] consecutive reads. *)
Fixpoint read_many (rd : list Z → option (Z * list Z)) (n : nat) (l : list Z)
  : option (list Z * list Z) :=
  match n with
  | O => Some ([], l)
  | S n =>
    match rd l with
    | None => None
    | Some (w, l) =>
      match read_many rd n l with None => None | Some (ws, l) => Some (w :: ws, l) end
    end
  end.

Ltac bytes_of_word :=
  unfold is_u32, is_u16, u8 in *; simpl map;
  change (8 * 0) with 0; change (8 * 1) with 8; change (8 * 2) with 16; change (8 * 3) with 24;
  rewrite ?Z.shiftr_div_pow2 by lia;
  change (2 ^ 0) with 1 in *; change (2 ^ 8) with 256 in *; change (2 ^ 16) with 65536 in *;
  change (2 ^ 24) with 16777216 in *; change (2 ^ 32) with 4294967296 in *.

Lemma read_be32_be32 w l : is_u32 w → read_be32 (be32 w ++ l) = Some (w, l).
Proof.
  intros H. unfold be32. cbn [map app read_be32]. do 2 f_equal.
  bytes_of_word. Z.to_euclidean_division_equations. lia.
Qed.

Lemma read_be16_be16 w l : is_u16 w → read_be16 (be16 w ++ l) = Some (w, l).
Proof.
  intros H. unfold be16. cbn [map app read_be16]. do 2 f_equal.
  bytes_of_word. Z.to_euclidean_division_equations. lia.
Qed.

Lemma read_many_encode rd (enc : Z → list Z) (ok : Z → Prop) ws l :
  (∀ w l, ok w → rd (enc w ++ l) = Some (w, l)) → Forall ok ws →
  read_many rd (length ws) (concat (map enc ws) ++ l) = Some (ws, l).
Proof.
  intros H. induction 1 as [|w ws Hw _ IH]; [done|]. cbn [length map concat read_many].
  rewrite <- app_assoc, H by done. by rewrite IH.
Qed.

(** Words can be read off any buffer that is long enough. *)
Lemma read_many_total rd n l :
  (∀ l, (4 <= length l)%nat → bytes l →
        ∃ w l', rd l = Some (w, l') ∧ is_u32 w ∧ bytes l' ∧ length l = (4 + length l')%nat) →
  (4 * n <= length l)%nat → bytes l →
  ∃ ws l', read_many rd n l = Some (ws, l') ∧ length ws = n ∧ words ws ∧ bytes l' ∧
           length l = (4 * n + length l')%nat.
Proof.
  intros Hrd. revert l. induction n as [|n IH]; intros l Hl Hb; cbn [read_many].
  - exists [], l. by repeat split.
  - destruct (Hrd l) as (w & l' & -> & Hw & Hb' & Hl'); [lia|done|].
    destruct (IH l') as (ws & l'' & -> & Hn & Hws & Hb'' & Hl''); [lia|done|].
    exists (w :: ws), l''. repeat split; [simpl; lia|by constructor|done|lia].
Qed.

Ltac read_word_total :=
  intros l Hl Hb; destruct l as [|a [|b [|c [|d l]]]]; simpl in Hl; try lia;
  rewrite !Forall_cons in Hb; destruct Hb as (?&?&?&?&?); eexists _, _; split; [reflexivity|];
  unfold is_byte, is_u32 in *; repeat split; try done; lia.

Lemma read_le32_total l : (4 <= length l)%nat → bytes l →
  ∃ w l', read_le32 l = Some (w, l') ∧ is_u32 w ∧ bytes l' ∧ length l = (4 + length l')%nat.
Proof. revert l. read_word_total. Qed.
Lemma read_be32_total l : (4 <= length l)%nat → bytes l →
  ∃ w l', read_be32 l = Some (w, l') ∧ is_u32 w ∧ bytes l' ∧ length l = (4 + length l')%nat.
Proof. revert l. read_word_total. Qed.

(** Bitwise operations stay within a width. *)
Lemma lor_range a b n : 0 <= n → 0 <= a < 2 ^ n → 0 <= b < 2 ^ n → 0 <= Z.lor a b < 2 ^ n.
Proof.
  intros Hn Ha Hb.
  assert (E : Z.lor a b = Z.lor a b `mod` 2 ^ n).
  { rewrite <- Z.land_ones, Z.land_lor_distr_l, !Z.land_ones, !Z.mod_small by lia. done. }
  rewrite E. apply Z.mod_pos_bound. lia.
Qed.

Lemma lxor_range a b n : 0 <= n → 0 <= a < 2 ^ n → 0 <= b < 2 ^ n → 0 <= Z.lxor a b < 2 ^ n.
Proof.
  intros Hn Ha Hb.
  assert (E : Z.lxor a b = Z.lxor a b `mod` 2 ^ n).
  { apply Z.bits_inj'. intros i Hi. destruct (decide (i < n)).
    - by rewrite Z.mod_pow2_bits_low.
    - rewrite Z.mod_pow2_bits_high, Z.lxor_spec by lia.
      rewrite <- (Z.mod_small a (2 ^ n)), <- (Z.mod_small b (2 ^ n)) by lia.
      by rewrite !Z.mod_pow2_bits_high by lia. }
  rewrite E. apply Z.mod_pos_bound. lia.
Qed.

Lemma length_be32 w : length (be32 w) = 4%nat.
Proof. done. Qed.
Lemma length_le32 w : length (le32 w) = 4%nat.
Proof. done. Qed.
Lemma length_be16 w : length (be16 w) = 2%nat.
Proof. done. Qed.
Lemma bytes_be32 w : bytes (be32 w).
Proof. repeat constructor; apply u8_byte. Qed.
Lemma bytes_le32 w : bytes (le32 w).
Proof. repeat constructor; apply u8_byte. Qed.
Lemma bytes_be16 w : bytes (be16 w).
Proof. repeat constructor; apply u8_byte. Qed.

Lemma length_concat_map {A} (f : A → list Z) n (l : list A) :
  (∀ x, length (f x) = n) → length (concat (map f l)) = (n * length l)%nat.
Proof. intros H. induction l; simpl; [lia|]. rewrite length_app, H, IHl. lia. Qed.

Lemma bytes_concat_map {A} (f : A → list Z) (l : list A) :
  (∀ x, bytes (f x)) → bytes (concat (map f l)).
Proof. intros H. induction l; simpl; [constructor|]. apply Forall_app. auto. Qed.

#[export] Hint Resolve bytes_be32 bytes_le32 bytes_be16 : words.

(** ** Stateful code

    A computation on a state [S] answers [None] when the C code has undefined
    behaviour: a NULL or dangling pointer, an access out of bounds. *)

Definition M (S A : Type) : Type := S → option (A * S).

#[export] Instance M_ret {S} : MRet (M S) := fun A a s => Some (a, s).
#[export] Instance M_bind {S} : MBind (M S) := fun A B k m s =>
  match m s with Some (a, s) => k a s | None => None end.

Definition undefined {S A} : M S A := fun _ => None.
Definition gets {S A} (f : S → option A) : M S A := fun s => a ← f s; Some (a, s).
Definition modify {S} (f : S → option S) : M S unit := fun s => s ← f s; Some (tt, s).

Lemma bind_run {S A B} (m : M S A) (k : A → M S B) s a s' :
  m s = Some (a, s') → (m ≫= k) s = k a s'.
Proof. intros E. unfold mbind, M_bind. by rewrite E. Qed.

Lemma bind_some {S B D} (m : M S B) (k : B → M S D) s r :
  (m ≫= k) s = Some r → ∃ b s1, m s = Some (b, s1) ∧ k b s1 = Some r.
Proof. unfold mbind, M_bind. destruct (m s) as [[b s1]|]; [eauto|done]. Qed.

Lemma gets_some {S B} (f : S → option B) s b s' : gets f s = Some (b, s') → f s = Some b ∧ s' = s.
Proof. unfold gets. destruct (f s); [|done]. cbn [mbind option_bind]. by intros [= <- <-]. Qed.

(** [strcmp], as the sign of its result. *)
Fixpoint strcmp (s t : string) : Z :=
  match s, t with
  | EmptyString, EmptyString => 0
  | EmptyString, String _ _ => -1
  | String _ _, EmptyString => 1
  | String a s, String b t =>
    if byte_of_ascii a <? byte_of_ascii b then -1
    else if byte_of_ascii b <? byte_of_ascii a then 1 else strcmp s t
  end.

Lemma byte_of_ascii_inj a b : byte_of_ascii a = byte_of_ascii b → a = b.
Proof.
  unfold byte_of_ascii. intros H%N2Z.inj. apply (f_equal ascii_of_N) in H.
  by rewrite !ascii_N_embedding in H.
Qed.

Lemma strcmp_eq s t : strcmp s t = 0 ↔ s = t.
Proof.
  revert t. induction s as [|a s IH]; intros [|b t]; simpl; try (split; intros; congruence).
  destruct (Z.ltb_spec (byte_of_ascii a) (byte_of_ascii b)); [split; [lia|intros [= -> ->]; lia]|].
  destruct (Z.ltb_spec (byte_of_ascii b) (byte_of_ascii a)); [split; [lia|intros [= -> ->]; lia]|].
  rewrite IH. split; [intros ->|congruence]. f_equal. apply byte_of_ascii_inj. lia.
Qed.

Lemma strcmp_antisym s t : strcmp t s = - strcmp s t.
Proof.
  revert t. induction s as [|a s IH]; intros [|b t]; simpl; try done.
  destruct (Z.ltb_spec (byte_of_ascii a) (byte_of_ascii b)), (Z.ltb_spec (byte_of_ascii b) (byte_of_ascii a));
    try done; lia.
Qed.

Lemma strcmp_trans s t u : strcmp s t < 0 → strcmp t u < 0 → strcmp s u < 0.
Proof.
  revert t u. induction s as [|a s IH]; intros [|b t] [|c u]; simpl; try lia; try done.
  repeat match goal with |- context [?x <? ?y] => destruct (Z.ltb_spec x y) end; try lia. apply IH.
Qed.

Lemma strcmp_range s t : strcmp s t = -1 ∨ strcmp s t = 0 ∨ strcmp s t = 1.
Proof. revert t. induction s as [|a s IH]; intros [|b t]; simpl; try tauto. repeat case_match; auto. Qed.

(** ** Error codes ([include/libhaggle/error.h]) *)

Definition HAGGLE_ERROR : Z := -100.
Definition HAGGLE_ALLOC_ERROR : Z := -99.
Definition HAGGLE_SOCKET_ERROR : Z := -98.
Definition HAGGLE_REGISTRATION_ERROR : Z := -97.
Definition HAGGLE_BUSY_ERROR : Z := -96.
Definition HAGGLE_PARAM_ERROR : Z := -95.
Definition HAGGLE_INTERNAL_ERROR : Z := -94.
Definition HAGGLE_EVENT_LOOP_ERROR : Z := -93.
Definition HAGGLE_EVENT_HANDLER_ERROR : Z := -92.
Definition HAGGLE_FILE_ERROR : Z := -91.
Definition HAGGLE_DATAOBJECT_ERROR : Z := -90.
Definition HAGGLE_WSA_ERROR : Z := -89.
Definition HAGGLE_HANDLE_ERROR : Z := -88.
Definition HAGGLE_METADATA_ERROR : Z := -87.
Definition HAGGLE_TIMEOUT_ERROR : Z := -86.
Definition HAGGLE_NO_ERROR : Z := 0.

(** ** Hash functions

    What a client of a 160-bit digest relies on.  [sha1.c] discharges it in [Sha1];
    the Bloom filters of [utils/] call OpenSSL's and are proved against the class. *)

Class HashFunction (sha : list Z → list Z) : Prop :=
  { hash_length : ∀ m, length (sha m) = 20%nat;
    hash_bytes : ∀ m, bytes (sha m) }.

(** ** Sorted lists *)

Lemma StronglySorted_weaken {A} (R R' : A → A → Prop) l :
  (∀ x y, R x y → R' x y) → StronglySorted R l → StronglySorted R' l.
Proof.
  intros H. induction 1 as [|x l _ IH Hx]; constructor; [done|]. eapply Forall_impl; eauto.
Qed.
