(* ===== verification/Text.v ===== *)
(** * Text: the parts of [printf], [sscanf], [strtoul] and [atoi] that libhaggle uses.

    Decimal printing of non-negative numbers, [%0nd] padding, hexadecimal bytes, and
    the parsing functions with their conventions: leading blanks, a sign, the longest
    run of digits, and saturation at the limits of the type. *)

From S2P Require Import Prelude.

(** ** Printing *)

Definition digit_char (d : Z) : ascii := ascii_of_N (Z.to_N (48 + d)).

(** Digits, least significant first. *)
Fixpoint dec_digits (fuel : nat) (n : Z) : list Z :=
  match fuel with
  | O => []
  | S fuel => if n <? 10 then [n] else n `mod` 10 :: dec_digits fuel (n / 10)
  end.

Fixpoint of_digits (l : list Z) (s : string) : string :=
  match l with [] => s | d :: l => of_digits l (String (digit_char d) s) end.

(** [%lu], [%zu] and, for a non-negative number, [%ld]. *)
Definition dec (n : Z) : string := of_digits (dec_digits (S (Z.to_nat (Z.log2 n))) n) "".

(** [%0wd] for a non-negative number. *)
Fixpoint zeros (n : nat) (s : string) : string :=
  match n with O => s | S n => String "0" (zeros n s) end.
Definition dec_pad (w : nat) (n : Z) : string := zeros (w - String.length (dec n)) (dec n).

(** [%ld]. *)
Definition fmt_ld (n : Z) : string := if n <? 0 then String "-" (dec (- n)) else dec n.

(** [%06ld]. *)
Definition fmt_06ld (n : Z) : string := if n <? 0 then String "-" (dec_pad 5 (- n)) else dec_pad 6 n.

Definition hex_char (upper : bool) (d : Z) : ascii :=
  ascii_of_N (Z.to_N (if d <? 10 then 48 + d else (if upper then 55 else 87) + d)).
(** [%02x] and [%02hhX] of a byte. *)
Definition hex2 (upper : bool) (b : Z) : string :=
  String (hex_char upper (b / 16)) (String (hex_char upper (b `mod` 16)) "").

(** The digits of a byte, as bytes; [sprintf (s, "%02x", b)] without its NUL. *)
Definition hex_digit (d : Z) : Z := if d <? 10 then 48 + d else 87 + d.
Definition sprintf_02x (b : Z) : list Z := [hex_digit (b / 16); hex_digit (b `mod` 16)].

(** [snprintf (buf, n, ...)]: at most [n - 1] characters. *)
Definition snprintf (n : nat) (s : string) : string := String.substring 0 (n - 1) s.

(** ** Parsing *)

Definition digit_val (a : ascii) : option Z :=
  let c := byte_of_ascii a in if (48 <=? c) && (c <=? 57) then Some (c - 48) else None.
Definition is_blank (a : ascii) : bool :=
  let c := byte_of_ascii a in (c =? 32) || ((9 <=? c) && (c <=? 13)).

Fixpoint skip_blanks (s : string) : string :=
  match s with String a s' => if is_blank a then skip_blanks s' else s | EmptyString => s end.

(** The longest run of digits: its value from [acc], whether there was a digit, the rest. *)
Fixpoint digits_run (acc : Z) (seen : bool) (s : string) : Z * bool * string :=
  match s with
  | EmptyString => (acc, seen, s)
  | String a s' =>
    match digit_val a with
    | Some d => digits_run (acc * 10 + d) true s'
    | None => (acc, seen, s)
    end
  end.

(** Blanks, a sign and digits: the number, or [None] when there is no digit. *)
Definition scan_number (s : string) : option Z * string :=
  let s := skip_blanks s in
  let '(neg, s') := match s with
                    | String "-" s' => (true, s') | String "+" s' => (false, s') | _ => (false, s)
                    end in
  match digits_run 0 false s' with
  | (n, true, r) => (Some (if neg : bool then - n else n), r)
  | (_, false, _) => (None, s)
  end.

Definition clamp (lo hi n : Z) : Z := Z.max lo (Z.min hi n).

(** [strtol]: 0 without digits, saturated at [LONG_MIN] and [LONG_MAX]. *)
Definition strtol (s : string) : Z := clamp (- 2 ^ 63) (2 ^ 63 - 1) (default 0 (scan_number s).1).
(** [strtoul (s, NULL, 10)]: a negative number is negated as an unsigned one. *)
Definition strtoul (s : string) : Z :=
  let n := default 0 (scan_number s).1 in
  if 2 ^ 64 <=? Z.abs n then 2 ^ 64 - 1 else u64 n.
(** [atoi (s)] is [(int) strtol (s, NULL, 10)]. *)
Definition atoi (s : string) : Z := s32 (strtol s).

(** [sscanf (s, "%ld.%ld", &a, &b)]: the conversions made, [None] where one fails and
    leaves its variable as it was. *)
Definition sscanf_ld_ld (s : string) : option Z * option Z :=
  let '(a, r) := scan_number s in
  match a with
  | None => (None, None)
  | Some a =>
    let a := clamp (- 2 ^ 63) (2 ^ 63 - 1) a in
    match r with
    | String "." r => (Some a, clamp (- 2 ^ 63) (2 ^ 63 - 1) <$> (scan_number r).1)
    | _ => (Some a, None)
    end
  end.

(** ** Printing and parsing are inverse *)

Lemma byte_of_digit_char d : 0 <= d < 10 → byte_of_ascii (digit_char d) = 48 + d.
Proof.
  intros. unfold byte_of_ascii, digit_char. rewrite N_ascii_embedding by lia. lia.
Qed.

Lemma digit_val_char d : 0 <= d < 10 → digit_val (digit_char d) = Some d.
Proof.
  intros. unfold digit_val. rewrite byte_of_digit_char by done.
  destruct (Z.leb_spec 48 (48 + d)), (Z.leb_spec (48 + d) 57); try lia. simpl. f_equal. lia.
Qed.

(** A character that ends a number. *)
Definition no_digit (s : string) : Prop := match s with String a _ => digit_val a = None | "" => True end.

Lemma digits_run_end acc seen s : no_digit s → digits_run acc seen s = (acc, seen, s).
Proof. destruct s; simpl; [done|]. by intros ->. Qed.

Lemma dec_digits_run fuel n seen s acc :
  0 <= n → (Z.to_nat (Z.log2 n) < fuel)%nat → no_digit s →
  ∃ m, digits_run acc seen (of_digits (dec_digits fuel n) s) = digits_run m true s ∧
       (acc = 0 → m = n).
Proof.
  intros Hn Hf _. revert n s Hn Hf.
  cut (∀ n s, 0 <= n → (Z.to_nat (Z.log2 n) < fuel)%nat →
         ∃ k, 0 <= k ∧ digits_run acc seen (of_digits (dec_digits fuel n) s) = digits_run (acc * 10 ^ k + n) true s).
  { intros H n s Hn Hf. destruct (H n s Hn Hf) as (k & _ & ->). eexists. split; [reflexivity|]. intros ->. lia. }
  revert acc seen. induction fuel as [|fuel IH]; intros acc seen n s Hn Hf; [lia|].
  cbn [dec_digits]. destruct (Z.ltb_spec n 10).
  - exists 1. split; [lia|]. cbn. rewrite digit_val_char by lia. f_equal.
  - cbn [of_digits]. destruct (IH acc seen (n / 10) (String (digit_char (n `mod` 10)) s)) as (k & Hk & E).
    + apply Z.div_pos; lia.
    + assert (Z.log2 (n / 10) < Z.log2 n); [|pose proof (Z.log2_nonneg (n / 10)); lia].
      apply Z.log2_lt_pow2; [apply Z.div_str_pos; lia|].
      assert (Hlog : n < 2 ^ Z.succ (Z.log2 n)) by (apply Z.log2_spec; lia).
      rewrite Z.pow_succ_r in Hlog by apply Z.log2_nonneg.
      Z.to_euclidean_division_equations. lia.
    + exists (Z.succ k). split; [lia|]. rewrite E. cbn [digits_run].
      pose proof (Z.mod_pos_bound n 10 ltac:(lia)). rewrite digit_val_char by lia.
      assert (Ee : (acc * 10 ^ k + n / 10) * 10 + n `mod` 10 = acc * 10 ^ Z.succ k + n); [|by rewrite Ee].
      rewrite Z.pow_succ_r by lia. replace (acc * (10 * 10 ^ k)) with (10 * (acc * 10 ^ k)) by ring.
      pose proof (Z.div_mod n 10). lia.
Qed.

(** The first character of a printed number. *)
Lemma of_digits_head l s : l ≠ [] → Forall (fun d => 0 <= d < 10) l →
  ∃ d r, of_digits l s = String (digit_char d) r ∧ 0 <= d < 10.
Proof.
  revert s. induction l as [|d l IH]; intros s Hne Hl; [done|]. apply Forall_cons in Hl as [Hd Hl].
  destruct l as [|e l]; [exists d, s; done|]. by apply IH.
Qed.

Lemma dec_digits_range fuel n : 0 <= n → Forall (fun d => 0 <= d < 10) (dec_digits fuel n).
Proof.
  revert n. induction fuel as [|fuel IH]; intros n Hn; simpl; [constructor|].
  destruct (Z.ltb_spec n 10); constructor; [lia|constructor|apply Z.mod_pos_bound; lia|apply IH, Z.div_pos; lia].
Qed.

Lemma dec_head n : 0 <= n → ∃ d r, dec n = String (digit_char d) r ∧ 0 <= d < 10.
Proof.
  intros Hn. apply of_digits_head; [|by apply dec_digits_range]. simpl. by case_match.
Qed.

Lemma digit_not_blank d : 0 <= d < 10 → is_blank (digit_char d) = false.
Proof.
  intros. unfold is_blank. rewrite byte_of_digit_char by done.
  destruct (Z.eqb_spec (48 + d) 32), (Z.leb_spec 9 (48 + d)), (Z.leb_spec (48 + d) 13); try lia; done.
Qed.

Lemma of_digits_app l s t : of_digits l (s +:+ t) = of_digits l s +:+ t.
Proof. revert s. induction l as [|d l IH]; intros s; simpl; [done|]. by rewrite <- IH. Qed.

(** Reading back a printed number followed by anything that is not a digit. *)
Lemma scan_dec n s : 0 <= n → no_digit s → scan_number (dec n +:+ s) = (Some n, s).
Proof.
  intros Hn Hs. destruct (dec_head n Hn) as (d & r & E & Hd).
  assert (Hsk : skip_blanks (dec n +:+ s) = dec n +:+ s).
  { rewrite E. simpl. by rewrite digit_not_blank. }
  unfold scan_number. rewrite Hsk.
  assert (Hsg : match dec n +:+ s with
                | String "-" s' => (true, s') | String "+" s' => (false, s') | _ => (false, dec n +:+ s)
                end = (false, dec n +:+ s)).
  { rewrite E. assert (Hc : d = 0 ∨ d = 1 ∨ d = 2 ∨ d = 3 ∨ d = 4 ∨ d = 5 ∨ d = 6 ∨ d = 7 ∨ d = 8 ∨ d = 9) by lia.
    repeat (destruct Hc as [->|Hc]; [reflexivity|]). subst. reflexivity. }
  rewrite Hsg. unfold dec. rewrite <- of_digits_app. change ("" +:+ s) with s.
  destruct (dec_digits_run (S (Z.to_nat (Z.log2 n))) n false s 0 Hn) as (m & -> & Hm); [lia|done|].
  rewrite digits_run_end by done. by rewrite Hm.
Qed.

Lemma app_empty_r (s : string) : s +:+ "" = s.
Proof. induction s as [|a s IH]; [done|]. change (String a (s +:+ "") = String a s). by rewrite IH. Qed.

Lemma strtoul_dec n : 0 <= n < 2 ^ 64 → strtoul (dec n) = n.
Proof.
  intros Hn. unfold strtoul. rewrite <- (app_empty_r (dec n)), scan_dec by (done || lia). cbn [fst default from_option id].
  destruct (Z.leb_spec (2 ^ 64) (Z.abs n)); [lia|]. apply Z.mod_small. lia.
Qed.

Lemma atoi_dec n : 0 <= n < 2 ^ 31 → atoi (dec n) = n.
Proof.
  intros Hn. unfold atoi, strtol. rewrite <- (app_empty_r (dec n)), scan_dec by (done || lia). cbn [fst default from_option id].
  unfold clamp. replace (Z.max _ _) with n by lia. unfold s32. rewrite u32_small by (unfold is_u32; lia).
  destruct (Z.ltb_spec n (2 ^ 31)); lia.
Qed.

(** ** How long a printed number is *)

Lemma length_of_digits l s : String.length (of_digits l s) = (length l + String.length s)%nat.
Proof. revert s. induction l as [|d l IH]; intros s; [done|]. simpl. rewrite IH. simpl. lia. Qed.

Lemma log2_div10 n fuel : 10 <= n → (Z.to_nat (Z.log2 n) < S fuel)%nat → (Z.to_nat (Z.log2 (n / 10)) < fuel)%nat.
Proof.
  intros Hn Hf. assert (Z.log2 (n / 10) < Z.log2 n); [|pose proof (Z.log2_nonneg (n / 10)); lia].
  apply Z.log2_lt_pow2; [apply Z.div_str_pos; lia|].
  assert (Hlog : n < 2 ^ Z.succ (Z.log2 n)) by (apply Z.log2_spec; lia).
  rewrite Z.pow_succ_r in Hlog by apply Z.log2_nonneg. Z.to_euclidean_division_equations. lia.
Qed.

Lemma length_dec_digits fuel n k :
  0 <= n → (Z.to_nat (Z.log2 n) < fuel)%nat → (1 <= k)%nat →
  (length (dec_digits fuel n) <= k)%nat ↔ n < 10 ^ Z.of_nat k.
Proof.
  revert n k. induction fuel as [|fuel IH]; intros n k Hn Hf Hk; [lia|]. cbn [dec_digits].
  destruct (Z.ltb_spec n 10).
  - simpl. split; [|lia]. intros _. destruct k; [lia|]. rewrite Nat2Z.inj_succ, Z.pow_succ_r by lia.
    pose proof (Z.pow_pos_nonneg 10 (Z.of_nat k)). lia.
  - simpl. destruct k as [|[|k]]; [lia|change (10 ^ Z.of_nat 1) with 10; split; [|lia]|].
    + destruct fuel; [pose proof (log2_div10 n 0); lia|]. simpl. case_match; simpl; lia.
    + rewrite <- Nat.succ_le_mono, IH by (lia || (apply Z.div_pos; lia) || by apply log2_div10).
      rewrite (Nat2Z.inj_succ (S k)), Z.pow_succ_r by lia. Z.to_euclidean_division_equations. lia.
Qed.

Lemma length_dec n k : 0 <= n → (1 <= k)%nat → (String.length (dec n) <= k)%nat ↔ n < 10 ^ Z.of_nat k.
Proof.
  intros Hn Hk. unfold dec. rewrite length_of_digits. simpl String.length. rewrite Nat.add_0_r. apply length_dec_digits; lia.
Qed.

Lemma snprintf_id n s : (String.length s < n)%nat → snprintf n s = s.
Proof.
  unfold snprintf. intros H. assert (Hn : (String.length s <= n - 1)%nat) by lia. revert Hn. generalize (n - 1)%nat. clear.
  induction s as [|a s IH]; intros n Hn; destruct n as [|n]; simpl in *; try done; [lia|]. f_equal. apply IH. lia.
Qed.

(** Leading zeros do not change a number. *)
Lemma digits_run_zeros k s : (0 < k)%nat → digits_run 0 false (zeros k s) = digits_run 0 true s.
Proof.
  intros Hk. assert (H : ∀ seen, digits_run 0 seen (zeros k s) = digits_run 0 (if (k =? 0)%nat then seen else true) s).
  { clear. induction k as [|k IH]; intros seen; [done|]. change (digits_run 0 seen (zeros (S k) s)) with (digits_run 0 true (zeros k s)).
    rewrite IH. by destruct k. }
  rewrite H. destruct k; [lia|done].
Qed.

Lemma scan_dec_pad w n : 0 <= n → scan_number (dec_pad w n) = (Some n, "").
Proof.
  intros Hn. unfold dec_pad. destruct (w - String.length (dec n))%nat as [|k] eqn:Ek.
  - cbn [zeros]. rewrite <- (app_empty_r (dec n)). by apply scan_dec.
  - unfold scan_number. change (skip_blanks (zeros (S k) (dec n))) with (zeros (S k) (dec n)). cbn [zeros].
    change (String "0" (zeros k (dec n))) with (zeros (S k) (dec n)). rewrite digits_run_zeros by lia.
    destruct (dec_digits_run (S (Z.to_nat (Z.log2 n))) n true "" 0 Hn) as (m & E & Hm); [lia|done|].
    unfold dec. rewrite E, digits_run_end by done. by rewrite Hm.
Qed.

Lemma length_zeros k s : String.length (zeros k s) = (k + String.length s)%nat.
Proof. induction k; simpl; auto. Qed.

Lemma length_app_string s t : String.length (s +:+ t) = (String.length s + String.length t)%nat.
Proof. induction s as [|a s IH]; [done|]. change (S (String.length (s +:+ t)) = S (String.length s + String.length t)). by rewrite IH. Qed.

Lemma app_string_inj_l (s t u : string) : s +:+ t = s +:+ u → t = u.
Proof. induction s as [|a s IH]; [done|]. change (String a (s +:+ t) = String a (s +:+ u) → t = u). intros [= E]. by apply IH. Qed.

Lemma dec_inj n m : 0 <= n → 0 <= m → dec n = dec m → n = m.
Proof.
  intros Hn Hm E. pose proof (scan_dec n "" Hn I) as E1. pose proof (scan_dec m "" Hm I) as E2. rewrite E in E1. congruence.
Qed.

Lemma sscanf_dec_dec n w m :
  0 <= n < 2 ^ 63 → 0 <= m < 2 ^ 63 → sscanf_ld_ld (dec n +:+ "." +:+ dec_pad w m) = (Some n, Some m).
Proof.
  intros Hn Hm. unfold sscanf_ld_ld. rewrite scan_dec by (done || lia).
  change ("." +:+ dec_pad w m) with (String "." (dec_pad w m)). cbv iota beta zeta.
  rewrite scan_dec_pad by lia. unfold clamp. do 2 f_equal; [|cbn; f_equal]; lia.
Qed.

(** ** Strings and their bytes *)

Lemma byte_of_ascii_byte a : is_byte (byte_of_ascii a).
Proof. unfold is_byte, byte_of_ascii. pose proof (N_ascii_bounded a). lia. Qed.

Lemma bytes_of_string_bytes s : bytes (bytes_of_string s).
Proof. induction s; constructor; auto using byte_of_ascii_byte. Qed.

Lemma length_bytes_of_string s : length (bytes_of_string s) = String.length s.
Proof. induction s; simpl; auto. Qed.

Lemma bytes_of_string_of_bytes l rest :
  Forall (fun c => is_byte c ∧ c ≠ 0) l → bytes_of_string (string_of_bytes (l ++ 0 :: rest)) = l.
Proof.
  induction 1 as [|c l [Hc H0] _ IH]; [done|]. cbn [app string_of_bytes]. rewrite u8_small by done.
  destruct (Z.eqb_spec c 0); [done|]. cbn [bytes_of_string]. rewrite IH. f_equal.
  unfold byte_of_ascii, is_byte in *. rewrite N_ascii_embedding by lia. lia.
Qed.

(** ** Strings without a NUL inside *)

(** The strings a C program can hold. *)
Fixpoint no_nul (s : string) : Prop :=
  match s with EmptyString => True | String a s => byte_of_ascii a ≠ 0 ∧ no_nul s end.

Lemma hex_char_no_nul up d : 0 <= d < 16 → byte_of_ascii (hex_char up d) ≠ 0.
Proof.
  intros Hd. unfold byte_of_ascii, hex_char. destruct (Z.ltb_spec d 10), up; rewrite N_ascii_embedding by lia; lia.
Qed.

Lemma no_nul_app s t : no_nul s → no_nul t → no_nul (s +:+ t).
Proof. induction s as [|a s IH]; simpl; [done|]. intros [Ha Hs] Ht. split; [done|by apply IH]. Qed.

Lemma hex2_no_nul up b : is_byte b → no_nul (hex2 up b).
Proof.
  unfold is_byte. intros Hb. simpl. split_and!; [apply hex_char_no_nul|apply hex_char_no_nul|done];
    Z.to_euclidean_division_equations; lia.
Qed.

Lemma no_nul_bytes s : no_nul s ↔ Forall (.≠ 0) (bytes_of_string s).
Proof. induction s as [|a s IH]; cbn [no_nul bytes_of_string]; [done|]. by rewrite Forall_cons, IH. Qed.

Lemma no_nul_dec n : 0 <= n → no_nul (dec n).
Proof.
  intros Hn. unfold dec. pose proof (dec_digits_range (S (Z.to_nat (Z.log2 n))) n Hn) as H.
  assert (Hg : ∀ l s, Forall (fun d => 0 <= d < 10) l → no_nul s → no_nul (of_digits l s)); [|by apply Hg].
  intros l. induction l as [|d l IH]; intros s Hl Hs; [done|]. apply Forall_cons in Hl as [Hd Hl]. cbn [of_digits].
  apply IH; [done|]. split; [rewrite byte_of_digit_char by done; lia|done].
Qed.

Lemma bytes_of_string_app s t : bytes_of_string (s +:+ t) = bytes_of_string s ++ bytes_of_string t.
Proof.
  induction s as [|a s IH]; [done|]. change (String a s +:+ t) with (String a (s +:+ t)).
  cbn [bytes_of_string app]. by rewrite IH.
Qed.
