(* ===== verification/Timeval.v ===== *)
(** * Timeval: the kernel's time values ([libcpphaggle/Timeval.cpp]).

    A [Timeval] wraps a [struct timeval], two 64-bit [long]s.  Signed overflow is undefined
    behaviour, so an operation that can overflow answers an [option].  The constructors end in
    [adjust], which carries whole seconds out of the microseconds; [set] does not.  A [double] is a
    binary64 number of the Standard Library's [SpecFloat]. *)

From Stdlib Require Import SpecFloat.
From S2P Require Import Prelude Text.

Record Timeval := TV { tv_sec : Z; tv_usec : Z }.

#[export] Instance Timeval_eq_dec : EqDecision Timeval.
Proof. solve_decision. Defined.

(** A [long] result: [None] on overflow. *)
Definition long (z : Z) : option Z := if (- 2 ^ 63 <=? z) && (z <? 2 ^ 63) then Some z else None.
Definition is_long (z : Z) : Prop := - 2 ^ 63 <= z < 2 ^ 63.

(** The two loops of [adjust]. *)
Fixpoint adjust_neg (fuel : nat) (t : Timeval) : option Timeval :=
  match fuel with
  | O => None
  | S fuel =>
    if tv_usec t <? 0 then
      s ← long (tv_sec t - 1); u ← long (tv_usec t + 1000000); adjust_neg fuel (TV s u)
    else Some t
  end.
Fixpoint adjust_pos (fuel : nat) (t : Timeval) : option Timeval :=
  match fuel with
  | O => None
  | S fuel =>
    if 1000000 <=? tv_usec t then
      s ← long (tv_sec t + 1); u ← long (tv_usec t - 1000000); adjust_pos fuel (TV s u)
    else Some t
  end.
Definition adjust_fuel (u : Z) : nat := S (Z.to_nat (Z.abs u / 1000000 + 1)).
Definition adjust (t : Timeval) : option Timeval :=
  t ← adjust_neg (adjust_fuel (tv_usec t)) t; adjust_pos (adjust_fuel (tv_usec t)) t.

(** ** Constructors and assignments *)

Definition Timeval_default : Timeval := TV 0 0.
Definition Timeval_timeval (t : Timeval) : option Timeval := adjust t.
Definition Timeval_long (seconds microseconds : Z) : option Timeval := adjust (TV seconds microseconds).

(** [ASSTRING_FORMAT], ["%ld.%06ld"]: [sscanf] reads the 6 as a field width. *)
Definition sscanf_ld_06ld (s : string) : option Z * option Z :=
  let '(a, r) := scan_number s in
  match a with
  | None => (None, None)
  | Some a =>
    let a := clamp (- 2 ^ 63) (2 ^ 63 - 1) a in
    match r with
    | String "." r => (Some a, (scan_number (String.substring 0 6 (skip_blanks r))).1)
    | _ => (Some a, None)
    end
  end.
(** [uninit]: what the locals [sec] and [usec] hold before the call. *)
Definition Timeval_string (uninit : Timeval) (str : string) : option Timeval :=
  let '(sec, usec) := sscanf_ld_06ld str in
  adjust (TV (default (tv_sec uninit) sec) (default (tv_usec uninit) usec)).

(** A [double] as a [long]: cut off towards zero, undefined where that does not fit. *)
Definition long_of_double (d : spec_float) : option Z :=
  match d with
  | S754_zero _ => Some 0
  | S754_finite neg m e => long (cond_Zopp neg (if 0 <=? e then Zpos m * 2 ^ e else Zpos m / 2 ^ (- e)))
  | S754_infinity _ | S754_nan => None
  end.
Definition double_of_long (n : Z) : spec_float := binary_normalize 53 1024 n 0 false.
(** The two [long]s that the constructor from a number of seconds and [set] compute. *)
Definition double_parts (d : spec_float) : option (Z * Z) :=
  s ← long_of_double d;
  u ← long_of_double (SFmul 53 1024 (SFsub 53 1024 d (double_of_long s)) (double_of_long 1000000));
  Some (s, u).
Definition Timeval_double (d : spec_float) : option Timeval := '(s, u) ← double_parts d; adjust (TV s u).

Definition zero : Timeval := TV 0 0.
Definition set (seconds microseconds : Z) : Timeval := TV seconds microseconds.
Definition set_double (seconds : spec_float) : option Timeval := '(s, u) ← double_parts seconds; Some (TV s u).

(** ** Observers *)

Definition isValid (t : Timeval) : bool :=
  (0 <=? tv_sec t) && (0 <=? tv_usec t) && (tv_usec t <? 1000000).

Definition getTimeAsMilliSeconds (t : Timeval) : option Z :=
  s ← long (tv_sec t * 1000); long (s + Z.quot (tv_usec t) 1000).

(** [ASSTRING_FORMAT] with its two arguments. *)
Definition asstring (sec usec : Z) : string := fmt_ld sec +:+ "." +:+ fmt_06ld usec.

Definition getAsString (t : Timeval) : option string :=
  if tv_sec t <? 0 then
    s ← long (tv_sec t - 1); s ← long (- s); u ← long (1000000 - tv_usec t);
    Some (snprintf 20 ("-" +:+ asstring s u))
  else Some (snprintf 20 (asstring (tv_sec t) (tv_usec t))).

(** ** Operators *)

Definition tv_lt (t1 t2 : Timeval) : bool :=
  (tv_sec t1 <? tv_sec t2) || ((tv_sec t1 =? tv_sec t2) && (tv_usec t1 <? tv_usec t2)).
Definition tv_le (t1 t2 : Timeval) : bool :=
  (tv_sec t1 <? tv_sec t2) || ((tv_sec t1 =? tv_sec t2) && (tv_usec t1 <=? tv_usec t2)).
Definition tv_eq (t1 t2 : Timeval) : bool := (tv_sec t1 =? tv_sec t2) && (tv_usec t1 =? tv_usec t2).
Definition tv_ge (t1 t2 : Timeval) : bool :=
  (tv_sec t2 <? tv_sec t1) || ((tv_sec t1 =? tv_sec t2) && (tv_usec t2 <=? tv_usec t1)).
Definition tv_gt (t1 t2 : Timeval) : bool :=
  (tv_sec t2 <? tv_sec t1) || ((tv_sec t1 =? tv_sec t2) && (tv_usec t2 <? tv_usec t1)).

(** The carry that ends [+=] and [-=]: at most one step each way. *)
Definition carry (t : Timeval) : option Timeval :=
  t ← (if tv_usec t <? 0 then s ← long (tv_sec t - 1); Some (TV s (tv_usec t + 1000000)) else Some t);
  if 1000000 <=? tv_usec t then s ← long (tv_sec t + 1); Some (TV s (tv_usec t - 1000000)) else Some t.
Definition plus_assign (t tv : Timeval) : option Timeval :=
  s ← long (tv_sec t + tv_sec tv); u ← long (tv_usec t + tv_usec tv); carry (TV s u).
Definition minus_assign (t tv : Timeval) : option Timeval :=
  s ← long (tv_sec t - tv_sec tv); u ← long (tv_usec t - tv_usec tv); carry (TV s u).

(** The binary operators copy their first argument with the adjusting copy constructor. *)
Definition tv_plus (t1 t2 : Timeval) : option Timeval := tv ← Timeval_timeval t1; plus_assign tv t2.
Definition tv_minus (t1 t2 : Timeval) : option Timeval := tv ← Timeval_timeval t1; minus_assign tv t2.

(** ** What they compute *)

(** The time in microseconds, and the form the class comment promises. *)
Definition micros (t : Timeval) : Z := tv_sec t * 1000000 + tv_usec t.
Definition normalised (t : Timeval) : Prop := is_long (tv_sec t) ∧ 0 <= tv_usec t < 1000000.

Lemma long_some z : is_long z → long z = Some z.
Proof.
  unfold is_long, long. intros H.
  destruct (Z.leb_spec (- 2 ^ 63) z), (Z.ltb_spec z (2 ^ 63)); try lia. done.
Qed.
Lemma long_none z : ¬ is_long z → long z = None.
Proof.
  unfold is_long, long. intros H.
  destruct (Z.leb_spec (- 2 ^ 63) z), (Z.ltb_spec z (2 ^ 63)); cbn; try done. lia.
Qed.
Lemma long_inv z r : long z = Some r → r = z ∧ is_long z.
Proof.
  unfold is_long, long.
  destruct (Z.leb_spec (- 2 ^ 63) z), (Z.ltb_spec z (2 ^ 63)); cbn; try done. intros [= ->]. lia.
Qed.

(** Opens the [long]s of a computation that succeeded. *)
Ltac longs :=
  repeat match goal with
  | H : (_ ≫= _) = Some _ |- _ => apply bind_Some in H; destruct H as (? & ? & H)
  | H : long _ = Some _ |- _ => apply long_inv in H as [-> ?]
  end.

Lemma micros_inj t1 t2 : normalised t1 → normalised t2 → micros t1 = micros t2 → t1 = t2.
Proof.
  destruct t1 as [s1 u1], t2 as [s2 u2]. unfold normalised, micros. cbn. intros [_ H1] [_ H2] E.
  f_equal; lia.
Qed.

Lemma adjust_neg_spec fuel t :
  is_long (tv_sec t) → is_long (tv_usec t) → - tv_usec t < 1000000 * (Z.of_nat fuel - 1) →
  tv_usec t < 0 → is_long (tv_sec t + tv_usec t / 1000000) →
  adjust_neg fuel t = Some (TV (tv_sec t + tv_usec t / 1000000) (tv_usec t `mod` 1000000)).
Proof.
  revert t. induction fuel as [|fuel IH]; intros [s u] Hs Hu Hf Hn Hr; cbn [tv_sec tv_usec] in *; [lia|].
  cbn [adjust_neg tv_sec tv_usec]. destruct (Z.ltb_spec u 0); [|lia]. unfold is_long in *.
  rewrite (long_some (s - 1)) by (unfold is_long; Z.to_euclidean_division_equations; lia).
  cbn [mbind option_bind]. rewrite (long_some (u + 1000000)) by (unfold is_long; lia).
  cbn [mbind option_bind].
  assert (Hd : (u + 1000000) / 1000000 = u / 1000000 + 1) by (Z.to_euclidean_division_equations; lia).
  assert (Hm : (u + 1000000) `mod` 1000000 = u `mod` 1000000) by (Z.to_euclidean_division_equations; lia).
  destruct (decide (u + 1000000 < 0)).
  - rewrite IH by (cbn [tv_sec tv_usec]; rewrite ?Hd; unfold is_long; Z.to_euclidean_division_equations; lia). cbn [tv_sec tv_usec]. rewrite Hd, Hm.
    do 2 f_equal. lia.
  - destruct fuel as [|fuel]; [lia|]. cbn [adjust_neg tv_usec].
    destruct (Z.ltb_spec (u + 1000000) 0); [lia|]. do 2 f_equal; Z.to_euclidean_division_equations; lia.
Qed.

Lemma adjust_pos_spec fuel t :
  is_long (tv_sec t) → is_long (tv_usec t) → tv_usec t < 1000000 * Z.of_nat fuel →
  0 <= tv_usec t → is_long (tv_sec t + tv_usec t / 1000000) →
  adjust_pos fuel t = Some (TV (tv_sec t + tv_usec t / 1000000) (tv_usec t `mod` 1000000)).
Proof.
  revert t. induction fuel as [|fuel IH]; intros [s u] Hs Hu Hf Hn Hr; cbn [tv_sec tv_usec] in *; [lia|].
  cbn [adjust_pos tv_sec tv_usec]. unfold is_long in *. destruct (Z.leb_spec 1000000 u).
  - rewrite (long_some (s + 1)) by (unfold is_long; Z.to_euclidean_division_equations; lia).
    cbn [mbind option_bind]. rewrite (long_some (u - 1000000)) by (unfold is_long; lia).
    cbn [mbind option_bind].
    assert (Hd : (u - 1000000) / 1000000 = u / 1000000 - 1) by (Z.to_euclidean_division_equations; lia).
    assert (Hm : (u - 1000000) `mod` 1000000 = u `mod` 1000000) by (Z.to_euclidean_division_equations; lia).
    rewrite IH by (cbn [tv_sec tv_usec]; rewrite ?Hd; unfold is_long; Z.to_euclidean_division_equations; lia).
    cbn [tv_sec tv_usec]. rewrite Hd, Hm. do 2 f_equal. lia.
  - rewrite Z.div_small, Z.mod_small by lia. do 2 f_equal. lia.
Qed.

(** [adjust] is division with remainder, for whatever microseconds, when the seconds fit. *)
Lemma adjust_spec t :
  is_long (tv_sec t) → is_long (tv_usec t) → is_long (tv_sec t + tv_usec t / 1000000) →
  adjust t = Some (TV (tv_sec t + tv_usec t / 1000000) (tv_usec t `mod` 1000000)).
Proof.
  intros Hs Hu Hr. unfold adjust, adjust_fuel. destruct (decide (tv_usec t < 0)).
  - rewrite adjust_neg_spec by (try done; Z.to_euclidean_division_equations; lia).
    cbn [mbind option_bind tv_usec]. pose proof (Z.mod_pos_bound (tv_usec t) 1000000).
    rewrite adjust_pos_spec; cbn [tv_sec tv_usec].
    + rewrite (Z.div_small (_ `mod` _)), Z.mod_mod by lia. do 2 f_equal. lia.
    + done.
    + unfold is_long. lia.
    + rewrite Nat2Z.inj_succ, Z2Nat.id by (Z.to_euclidean_division_equations; lia).
      Z.to_euclidean_division_equations. lia.
    + lia.
    + rewrite (Z.div_small (_ `mod` _)) by lia. by rewrite Z.add_0_r.
  - cbn [adjust_neg]. destruct (Z.ltb_spec (tv_usec t) 0); [lia|]. cbn [mbind option_bind].
    apply adjust_pos_spec; try done.
    rewrite Nat2Z.inj_succ, Z2Nat.id by (Z.to_euclidean_division_equations; lia).
    Z.to_euclidean_division_equations. lia.
Qed.

(** Whatever [adjust] answers is normalised and the same time; it answers nothing only on overflow. *)
Lemma adjust_neg_inv fuel t t' :
  is_long (tv_sec t) → adjust_neg fuel t = Some t' →
  is_long (tv_sec t') ∧ micros t' = micros t ∧ 0 <= tv_usec t' ∧ (tv_usec t < 1000000 → tv_usec t' < 1000000).
Proof.
  revert t. induction fuel as [|fuel IH]; intros t Hs E; [done|]. cbn [adjust_neg] in E.
  destruct (Z.ltb_spec (tv_usec t) 0); [|by injection E as <-].
  longs. apply IH in E as (H1' & H2' & H3' & H4'); [|done]. unfold micros in *. cbn [tv_sec tv_usec] in *.
  split_and!; [done|lia|lia|lia].
Qed.

Lemma adjust_pos_inv fuel t t' :
  is_long (tv_sec t) → 0 <= tv_usec t → adjust_pos fuel t = Some t' →
  normalised t' ∧ micros t' = micros t.
Proof.
  revert t. induction fuel as [|fuel IH]; intros t Hs Hu E; [done|]. cbn [adjust_pos] in E.
  destruct (Z.leb_spec 1000000 (tv_usec t)); [|injection E as <-; unfold normalised; by split_and!].
  longs. apply IH in E as (H1' & H2'); [|done|cbn; lia]. split; [done|]. unfold micros in *.
  cbn [tv_sec tv_usec] in *. lia.
Qed.

Lemma adjust_inv t t' :
  is_long (tv_sec t) → adjust t = Some t' → normalised t' ∧ micros t' = micros t.
Proof.
  unfold adjust. intros Hs E. apply bind_Some in E as (t1 & E1 & E2).
  apply adjust_neg_inv in E1 as (H1 & H2 & H3 & _); [|done].
  apply adjust_pos_inv in E2 as (H4 & H5); [|done|done]. split; [done|congruence].
Qed.

Lemma adjust_normalised t : normalised t → adjust t = Some t.
Proof.
  intros [Hs Hu]. rewrite adjust_spec, Z.div_small, Z.mod_small, Z.add_0_r.
  1: by destruct t. all: unfold is_long in *; rewrite ?Z.div_small; lia.
Qed.

Lemma carry_inv t t' :
  is_long (tv_sec t) → -1000000 <= tv_usec t < 2000000 → carry t = Some t' →
  normalised t' ∧ micros t' = micros t.
Proof.
  unfold carry, normalised, micros. intros Hs Hu E. apply bind_Some in E as (t1 & E1 & E2).
  destruct (Z.ltb_spec (tv_usec t) 0).
  - longs. injection E1 as <-. cbn [tv_sec tv_usec] in E2.
    destruct (Z.leb_spec 1000000 (tv_usec t + 1000000)); [lia|]. injection E2 as <-. cbn. split_and!; try done; lia.
  - injection E1 as <-. destruct (Z.leb_spec 1000000 (tv_usec t)).
    + longs. injection E2 as <-. cbn. split_and!; try done; lia.
    + injection E2 as <-. split_and!; try done; lia.
Qed.

Lemma plus_inv t1 t2 t :
  normalised t1 → normalised t2 → tv_plus t1 t2 = Some t → normalised t ∧ micros t = micros t1 + micros t2.
Proof.
  unfold tv_plus, Timeval_timeval, plus_assign. intros Hn1 [Hs2 Hu2] E. rewrite adjust_normalised in E by done.
  destruct Hn1 as [Hs1 Hu1]. cbn [mbind option_bind] in E. longs.
  apply carry_inv in E as [Hn ->]; [|done|cbn; lia]. split; [done|]. unfold micros. cbn. lia.
Qed.

Lemma minus_inv t1 t2 t :
  normalised t1 → normalised t2 → tv_minus t1 t2 = Some t → normalised t ∧ micros t = micros t1 - micros t2.
Proof.
  unfold tv_minus, Timeval_timeval, minus_assign. intros Hn1 [Hs2 Hu2] E. rewrite adjust_normalised in E by done.
  destruct Hn1 as [Hs1 Hu1]. cbn [mbind option_bind] in E. longs.
  apply carry_inv in E as [Hn ->]; [|done|cbn; lia]. split; [done|]. unfold micros. cbn. lia.
Qed.

(** Comparison of normalised times. *)
Lemma tv_lt_micros t1 t2 : normalised t1 → normalised t2 → tv_lt t1 t2 = (micros t1 <? micros t2).
Proof.
  unfold normalised, tv_lt, micros. intros [_ H1] [_ H2]. apply eq_true_iff_eq.
  rewrite orb_true_iff, andb_true_iff, !Z.ltb_lt, Z.eqb_eq. lia.
Qed.
Lemma tv_le_micros t1 t2 : normalised t1 → normalised t2 → tv_le t1 t2 = (micros t1 <=? micros t2).
Proof.
  unfold normalised, tv_le, micros. intros [_ H1] [_ H2]. apply eq_true_iff_eq.
  rewrite orb_true_iff, andb_true_iff, Z.ltb_lt, !Z.leb_le, Z.eqb_eq. lia.
Qed.
Lemma tv_gt_flip t1 t2 : tv_gt t1 t2 = tv_lt t2 t1.
Proof. unfold tv_gt, tv_lt. by rewrite (Z.eqb_sym (tv_sec t1)). Qed.
Lemma tv_ge_flip t1 t2 : tv_ge t1 t2 = tv_le t2 t1.
Proof. unfold tv_ge, tv_le. by rewrite (Z.eqb_sym (tv_sec t1)). Qed.
Lemma tv_eq_eq t1 t2 : tv_eq t1 t2 = true ↔ t1 = t2.
Proof.
  destruct t1, t2. unfold tv_eq. cbn. rewrite andb_true_iff, !Z.eqb_eq. split; [intros [-> ->]|intros [= -> ->]]; done.
Qed.
Lemma tv_lt_le t1 t2 : tv_le t1 t2 = negb (tv_lt t2 t1).
Proof.
  unfold tv_lt, tv_le. apply eq_true_iff_eq.
  rewrite negb_true_iff, orb_true_iff, andb_true_iff, orb_false_iff, andb_false_iff, !Z.ltb_lt, Z.ltb_ge, Z.leb_le, !Z.eqb_eq, Z.eqb_neq, Z.ltb_ge. lia.
Qed.

(** ** Well-formedness of every time the kernel computes *)

(** What constructors and operators can build, with the number of microseconds that was asked for. *)
Inductive built : Z → Timeval → Prop :=
  | built_default : built 0 Timeval_default
  | built_timeval t t' : is_long (tv_sec t) → Timeval_timeval t = Some t' → built (tv_sec t * 1000000 + tv_usec t) t'
  | built_long s u t : is_long s → Timeval_long s u = Some t → built (s * 1000000 + u) t
  | built_string un str t :
      is_long (tv_sec un) → Timeval_string un str = Some t →
      built (default (tv_sec un) (sscanf_ld_06ld str).1 * 1000000 + default (tv_usec un) (sscanf_ld_06ld str).2) t
  | built_double d s u t : double_parts d = Some (s, u) → Timeval_double d = Some t → built (s * 1000000 + u) t
  | built_plus n1 t1 n2 t2 t : built n1 t1 → built n2 t2 → tv_plus t1 t2 = Some t → built (n1 + n2) t
  | built_minus n1 t1 n2 t2 t : built n1 t1 → built n2 t2 → tv_minus t1 t2 = Some t → built (n1 - n2) t.

Lemma clamp_long n : is_long (clamp (- 2 ^ 63) (2 ^ 63 - 1) n).
Proof. unfold is_long, clamp. lia. Qed.

Lemma sscanf_sec_long s a : (sscanf_ld_06ld s).1 = Some a → is_long a.
Proof.
  unfold sscanf_ld_06ld. destruct (scan_number s) as [[n|] r]; [|done].
  assert (H : ∀ (o : option Z), (Some (clamp (- 2 ^ 63) (2 ^ 63 - 1) n), o).1 = Some a → is_long a).
  { intros o [= <-]. apply clamp_long. }
  destruct r as [|c r]; [apply H|]. repeat (case_match; try apply H).
Qed.

Lemma long_of_double_long d n : long_of_double d = Some n → is_long n.
Proof. destruct d; cbn; try done; [intros [= <-]; unfold is_long; lia|]. by intros [-> ?]%long_inv. Qed.
Lemma double_parts_long d s u : double_parts d = Some (s, u) → is_long s ∧ is_long u.
Proof.
  unfold double_parts. intros E. apply bind_Some in E as (s' & E1%long_of_double_long & E). apply bind_Some in E as (u' & E2%long_of_double_long & [= -> ->]). done.
Qed.

Lemma built_micros n t : built n t → normalised t ∧ micros t = n.
Proof.
  induction 1 as [|t t' Hs E|s u t Hs E|un str t Hs E|d s u t Ed E|n1 t1 n2 t2 t _ [H1 M1] _ [H2 M2] E|n1 t1 n2 t2 t _ [H1 M1] _ [H2 M2] E].
  - unfold normalised, is_long, micros. cbn. lia.
  - apply (adjust_inv _ _ Hs E).
  - apply (adjust_inv (TV s u) _ Hs E).
  - unfold Timeval_string in E. destruct (sscanf_ld_06ld str) as [sec usec] eqn:Ep.
    apply adjust_inv in E; [exact E|]. cbn [tv_sec]. destruct sec as [a|]; [|done].
    apply (sscanf_sec_long str). by rewrite Ep.
  - unfold Timeval_double in E. rewrite Ed in E. apply double_parts_long in Ed as [Hs _]. apply (adjust_inv (TV s u) _ Hs E).
  - rewrite <- M1, <- M2. apply (plus_inv _ _ _ H1 H2 E).
  - rewrite <- M1, <- M2. apply (minus_inv _ _ _ H1 H2 E).
Qed.


(** Half a second before zero, and a tenth of a second, which is not a [double]: the microseconds are cut off. *)
Example timeval_of_double : Timeval_double (SFdiv 53 1024 (double_of_long (-1)) (double_of_long 2)) = Some (TV (-1) 500000).
Proof. vm_compute. reflexivity. Qed.
Example timeval_of_a_fraction :
  Timeval_double (SFdiv 53 1024 (double_of_long 1001) (double_of_long 1000)) = Some (TV 1 999).
Proof. vm_compute. reflexivity. Qed.

(** [set] stores what it is given: the normal form is the caller's business. *)
Lemma set_not_normalised : ¬ normalised (set 0 1000000).
Proof. unfold normalised, set. cbn. lia. Qed.

(** ** Times as text *)

Lemma length_dec_pad w n : 0 <= n < 10 ^ Z.of_nat w → (1 <= w)%nat → String.length (dec_pad w n) = w.
Proof.
  intros Hn Hw. unfold dec_pad. rewrite length_zeros. assert (String.length (dec n) <= w)%nat; [|lia].
  apply length_dec; lia.
Qed.

(** A number printed with [%0wd] starts with a digit. *)
Lemma skip_blanks_dec_pad w n : 0 <= n → skip_blanks (dec_pad w n) = dec_pad w n.
Proof.
  intros Hn. unfold dec_pad. destruct (w - String.length (dec n))%nat; cbn [zeros]; [|done].
  destruct (dec_head n Hn) as (d & r & -> & Hd). cbn [skip_blanks]. by rewrite digit_not_blank.
Qed.

Lemma substring_id n s : (String.length s <= n)%nat → String.substring 0 n s = s.
Proof. intros H. pose proof (snprintf_id (S n) s) as E. unfold snprintf in E. rewrite Nat.sub_1_r in E. apply E. lia. Qed.

Lemma sscanf_asstring s u :
  0 <= s < 2 ^ 63 → 0 <= u < 1000000 → sscanf_ld_06ld (asstring s u) = (Some s, Some u).
Proof.
  intros Hs Hu. unfold asstring, fmt_ld, fmt_06ld.
  destruct (Z.ltb_spec s 0), (Z.ltb_spec u 0); try lia. unfold sscanf_ld_06ld.
  change ("." +:+ dec_pad 6 u) with (String "." (dec_pad 6 u)).
  rewrite scan_dec by (done || lia). cbv iota beta zeta.
  rewrite skip_blanks_dec_pad, substring_id, scan_dec_pad by (try (rewrite length_dec_pad; simpl); lia).
  unfold clamp. do 2 f_equal. lia.
Qed.

Lemma length_asstring s u :
  0 <= s < 10 ^ 12 → 0 <= u < 1000000 → (String.length (asstring s u) < 20)%nat.
Proof.
  intros Hs Hu. unfold asstring, fmt_ld, fmt_06ld.
  destruct (Z.ltb_spec s 0), (Z.ltb_spec u 0); try lia.
  change ("." +:+ dec_pad 6 u) with (String "." (dec_pad 6 u)).
  rewrite length_app_string. cbn [String.length]. rewrite length_dec_pad by (simpl; lia).
  assert (String.length (dec s) <= 12)%nat by (apply length_dec; lia). lia.
Qed.

(** A valid time is printed without loss as long as its seconds have at most twelve digits (the
    buffer holds twenty characters): the constructor from a string gives the same time back,
    whatever was in its uninitialised variables. *)
Theorem timeval_string_roundtrip t uninit :
  isValid t = true → tv_sec t < 10 ^ 12 →
  ∃ s, getAsString t = Some s ∧ s = fmt_ld (tv_sec t) +:+ "." +:+ dec_pad 6 (tv_usec t) ∧
       Timeval_string uninit s = Some t.
Proof.
  unfold isValid. rewrite !andb_true_iff, !Z.leb_le, Z.ltb_lt. intros [[Hs Hu] Hu'] Hb.
  exists (asstring (tv_sec t) (tv_usec t)). split_and!.
  - unfold getAsString. destruct (Z.ltb_spec (tv_sec t) 0); [lia|]. by rewrite snprintf_id by (apply length_asstring; lia).
  - unfold asstring, fmt_06ld. by destruct (Z.ltb_spec (tv_usec t) 0); [lia|].
  - unfold Timeval_string. rewrite sscanf_asstring by lia. cbn [default from_option id].
    destruct t as [s u]. apply adjust_normalised. unfold normalised, is_long. cbn in *. lia.
Qed.
Lemma timeval_string_roundtrip_witness :
  isValid (TV 1234567890 42) = true ∧ getAsString (TV 1234567890 42) = Some "1234567890.000042" ∧
  Timeval_string (TV 7 7) "1234567890.000042" = Some (TV 1234567890 42).
Proof.
  destruct (timeval_string_roundtrip (TV 1234567890 42) (TV 7 7)) as (s & E1 & E2 & E3); [reflexivity|reflexivity|].
  split; [reflexivity|]. split; [vm_compute; reflexivity|]. rewrite E2 in E3.
  assert (E : "1234567890.000042" = fmt_ld (tv_sec (TV 1234567890 42)) +:+ "." +:+ dec_pad 6 (tv_usec (TV 1234567890 42)))
    by (vm_compute; reflexivity).
  rewrite E. exact E3.
Defined.

(** Half a second before the epoch is printed as two and a half seconds before it, and a whole
    number of seconds gets seven digits after the point; neither is read back as it was. *)
Lemma getAsString_negative :
  getAsString (TV (-1) 500000) = Some "-2.500000" ∧
  Timeval_string (TV 0 0) "-2.500000" = Some (TV (-2) 500000) ∧
  getAsString (TV (-1) 0) = Some "-2.1000000" ∧
  Timeval_string (TV 0 0) "-2.1000000" = Some (TV (-2) 100000).
Proof. repeat split; vm_compute; reflexivity. Qed.
