(* ===== verification/Heap.v ===== *)
(** * Heap: the binary heap of the kernel's event queue ([libcpphaggle/Heap.cpp], [Heap.h]).

    The heap is an array of pointers to items.  An item is known to the heap by two virtual
    functions, [compare_less] and [compare_greater], and by the [index] field that the heap
    writes; the comparison is a parameter of the development, with what an order must satisfy
    as the class [HeapOrder].  A slot that was never written is [None]; reading it, or a slot
    outside the array, has no result. *)

From S2P Require Import Prelude.

#[local] Open Scope nat_scope.

Abbreviation item := nat (only parsing).

(** What the heap needs of the two comparison functions of its items: a strict weak order, and
    that one is the other reversed. *)
Class HeapOrder (compare_less compare_greater : item → item → bool) : Prop :=
  { ho_asym : ∀ a b, compare_less a b = true → compare_less b a = false;
    ho_trans : ∀ a b c, compare_less b a = false → compare_less c b = false → compare_less c a = false;
    ho_greater : ∀ a b, compare_greater a b = compare_less b a }.

Definition HEAP_DEFAULT_SIZE : nat := 200.
Definition HEAP_DEFAULT_INCREASE_SIZE : nat := 100.
(** [npos], the index of an item that is in no heap: [(unsigned long) -1]. *)
Definition npos : Z := 2 ^ 64 - 1.

(** [index]: the [index] fields of the items that a heap has written. *)
Record heap_t := HeapT
  { _max_size : nat; _size : nat; h_heap : list (option item); h_index : gmap item Z }.

(** The constructor, over items whose fields are [index]. *)
Definition heap_new (max_size : nat) (index : gmap item Z) : heap_t :=
  HeapT max_size 0 (replicate max_size None) index.

Definition empty (s : heap_t) : bool := _size s =? 0.
Definition full (s : heap_t) : bool := _max_size s <=? _size s.
Definition size (s : heap_t) : nat := _size s.

(** [heap[i]], [heap[i] = p] and [p->index = i]. *)
Definition get (s : heap_t) (i : nat) : option item := mjoin (h_heap s !! i).
Definition put (s : heap_t) (i : nat) (p : item) : option heap_t :=
  if i <? length (h_heap s)
  then Some (HeapT (_max_size s) (_size s) (<[i := Some p]> (h_heap s)) (h_index s)) else None.
Definition set_index (s : heap_t) (p : item) (i : nat) : heap_t :=
  HeapT (_max_size s) (_size s) (h_heap s) (<[p := Z.of_nat i]> (h_index s)).
Definition put_indexed (s : heap_t) (i : nat) (p : item) : option heap_t :=
  s ← put s i p; Some (set_index s p i).
Definition set_size (s : heap_t) (n : nat) : heap_t := HeapT (_max_size s) n (h_heap s) (h_index s).

Definition front (s : heap_t) : option item := get s 0.

(** [(i - 1) / 2]; for [i = 0] the C++ value is not used. *)
Definition parent (i : nat) : nat := (i - 1) / 2.

Section Operations.
Context (compare_less compare_greater : item → item → bool).

(** Which of [i] and its children is the smallest. *)
Definition smallest_of (s : heap_t) (i : nat) : option nat :=
  let l := 2 * i + 1 in
  let r := l + 1 in
  smallest ← (if l <? _size s
              then hl ← get s l; hi ← get s i; Some (if compare_less hl hi then l else i)
              else Some i);
  if r <? _size s
  then hr ← get s r; hs ← get s smallest; Some (if compare_less hr hs then r else smallest)
  else Some smallest.

Fixpoint heapify (fuel : nat) (s : heap_t) (i : nat) : option heap_t :=
  match fuel with
  | O => None
  | S fuel =>
    smallest ← smallest_of s i;
    if smallest =? i then Some s
    else
      tmp ← get s smallest; x ← get s i;
      s ← put_indexed s smallest x; s ← put_indexed s i tmp;
      heapify fuel s smallest
  end.

(** [new_ok]: whether the allocation succeeds.  [memcpy] copies the slots in use. *)
Definition increaseSize (new_ok : bool) (s : heap_t) (increase_size : nat) : bool * heap_t :=
  if new_ok then
    (true, HeapT (_max_size s + increase_size) (_size s)
             (take (_size s) (h_heap s) ++ replicate (_max_size s + increase_size - _size s) None) (h_index s))
  else (false, s).

(** The loop that looks for the place of [item], from slot [i] upwards. *)
Fixpoint sift_up (fuel : nat) (s : heap_t) (i : nat) (item : item) : option (nat * heap_t) :=
  match fuel with
  | O => None
  | S fuel =>
    if 0 <? i then
      p ← get s (parent i);
      if compare_greater p item then s ← put_indexed s i p; sift_up fuel s (parent i) item
      else Some (i, s)
    else Some (i, s)
  end.

Definition insert (new_ok : bool) (s : heap_t) (item : item) : option (bool * heap_t) :=
  let '(ok, s) := if full s then increaseSize new_ok s HEAP_DEFAULT_INCREASE_SIZE else (true, s) in
  if ok : bool then
    '(i, s) ← sift_up (S (_size s)) s (_size s) item;
    s ← put_indexed s i item;
    Some (true, set_size s (S (_size s)))
  else Some (false, s).

Definition extractFirst (s : heap_t) : option (option item * heap_t) :=
  if empty s then Some (None, s)
  else
    max ← get s 0;
    let s := set_size s (_size s - 1) in
    last ← get s (_size s);
    s ← put_indexed s 0 last;
    s ← heapify (S (_size s)) s 0;
    Some (Some max, s).

Definition pop_front (s : heap_t) : option heap_t :=
  '(_, s) ← extractFirst s; Some s.

(** [getHeapItems]: the copy, of the allocated length. *)
Fixpoint copy_items (n : nat) (s : heap_t) (i : nat) : option (list item) :=
  match n with
  | O => Some []
  | S n => p ← get s i; rest ← copy_items n s (S i); Some (p :: rest)
  end.
Definition getHeapItems (s : heap_t) : option (list item) := copy_items (_size s) s 0.

(** Emptying a heap, as the destructor of the event queue does. *)
Fixpoint drain (fuel : nat) (s : heap_t) : option (list item * heap_t) :=
  match fuel with
  | O => None
  | S fuel =>
    '(e, s) ← extractFirst s;
    match e with
    | None => Some ([], s)
    | Some e => '(es, s) ← drain fuel s; Some (e :: es, s)
    end
  end.
End Operations.

(** ** Order *)

Section Order.
Context {compare_less compare_greater : item → item → bool}.
Context `{!HeapOrder compare_less compare_greater}.

Definition le (a b : item) : Prop := compare_less b a = false.

Lemma le_trans a b c : le a b → le b c → le a c.
Proof. unfold le. intros H1 H2. by apply (ho_trans _ b). Qed.
Lemma lt_le a b : compare_less a b = true → le a b.
Proof. unfold le. apply ho_asym. Qed.
Lemma le_refl a : le a a.
Proof. unfold le. destruct (compare_less a a) eqn:E; [|done]. pose proof (ho_asym _ _ E). congruence. Qed.
Lemma le_total a b : le a b ∨ le b a.
Proof. unfold le. destruct (compare_less b a) eqn:E; [right; by apply ho_asym|by left]. Qed.

Lemma parent_lt i : 0 < i → parent i < i.
Proof. unfold parent. intros. pose proof (Nat.div_lt (i - 1) 2). destruct (decide (i = 1)) as [->|]; [done|]. lia. Qed.
Lemma parent_cases i j : 0 < j → parent j = i ↔ j = 2 * i + 1 ∨ j = 2 * i + 2.
Proof.
  unfold parent. intros Hj. pose proof (Nat.div_mod_eq (j - 1) 2). pose proof (Nat.mod_upper_bound (j - 1) 2). lia.
Qed.

(** The heap property of an array, and the two forms it has while one element is out of place:
    too small for where it is ([up_ok]), or too large ([down_ok]). *)
Definition ordered_at (l : list item) (j : nat) : Prop :=
  ∀ a b, 0 < j → l !! j = Some a → l !! parent j = Some b → le b a.
Definition skips_ok (l : list item) (i : nat) : Prop :=
  ∀ j a b, 0 < j → 0 < i → parent j = i → l !! j = Some a → l !! parent i = Some b → le b a.
Definition ordered (l : list item) : Prop := ∀ j, ordered_at l j.
Definition up_ok (l : list item) (i : nat) : Prop := (∀ j, j ≠ i → ordered_at l j) ∧ skips_ok l i.
Definition down_ok (l : list item) (i : nat) : Prop := (∀ j, parent j ≠ i → ordered_at l j) ∧ skips_ok l i.

(** Exchanging two elements. *)
Definition swap (l : list item) (i j : nat) (a b : item) : list item := <[j := a]> (<[i := b]> l).

Lemma lookup_swap l i j a b k :
  l !! i = Some a → l !! j = Some b → i ≠ j →
  swap l i j a b !! k = if decide (k = i) then Some b else if decide (k = j) then Some a else l !! k.
Proof.
  intros Hi Hj Hne. apply lookup_lt_Some in Hi as Hli, Hj as Hlj. unfold swap.
  destruct (decide (k = i)) as [->|]; [|destruct (decide (k = j)) as [->|]].
  - rewrite list_lookup_insert_ne by done. by apply list_lookup_insert_eq.
  - apply list_lookup_insert_eq. by rewrite length_insert.
  - by rewrite !list_lookup_insert_ne.
Qed.

Lemma swap_perm l i j a b : l !! i = Some a → l !! j = Some b → i ≠ j → swap l i j a b ≡ₚ l.
Proof. intros Hi Hj _. by apply Permutation_insert_swap. Qed.

(** The value of an exchanged list at an index, by cases on the index. *)
Ltac at_swap Hi Hj :=
  repeat match goal with
  | H : swap _ _ _ _ _ !! _ = Some _ |- _ => rewrite (lookup_swap _ _ _ _ _ _ Hi Hj) in H by lia
  end;
  repeat case_decide; try lia; simplify_eq.

Lemma up_step l i x p :
  up_ok l i → 0 < i → l !! i = Some x → l !! parent i = Some p → compare_less x p = true →
  up_ok (swap l i (parent i) x p) (parent i).
Proof.
  intros [Ho Hs] Hi Hx Hp Hlt. pose proof (parent_lt i Hi) as Hpi. split.
  - intros j Hj a b Hj0 Ha Hb. pose proof (parent_lt j Hj0). at_swap Hx Hp.
    + by apply (Hs j).
    + by apply lt_le.
    + apply (le_trans _ p); [by apply lt_le|]. apply (Ho j); try done. congruence.
    + by apply (Ho j).
  - intros j a b Hj0 Hp0 Hjp Ha Hb. pose proof (parent_lt (parent i) Hp0). at_swap Hx Hp.
    + by apply (Ho (parent i)); [lia|..].
    + apply (le_trans _ p); [by apply (Ho (parent i)); [lia|..]|].
      apply (Ho j); [done|done|done|]. congruence.
Qed.

Lemma up_done l i :
  up_ok l i → (i = 0 ∨ ∃ x p, l !! i = Some x ∧ l !! parent i = Some p ∧ le p x) → ordered l.
Proof.
  intros [Ho _] H j. destruct (decide (j = i)) as [->|Hne]; [|by apply Ho].
  intros a b Hi Ha Hb. destruct H as [->|(x & p & Hx & Hp & Hle)]; [lia|]. by simplify_eq.
Qed.

Lemma down_step l i m x c :
  down_ok l i → l !! i = Some x → l !! m = Some c → 0 < m → parent m = i →
  compare_less c x = true → (∀ j y, 0 < j → parent j = i → l !! j = Some y → le c y) →
  down_ok (swap l m i c x) m.
Proof.
  intros [Ho Hs] Hx Hc Hm Hmi Hlt Hmin. pose proof (parent_lt m Hm) as Hpm. split.
  - intros j Hj a b Hj0 Ha Hb. pose proof (parent_lt j Hj0). at_swap Hc Hx;
      first [by apply lt_le | by apply (Hs m) | by apply (Hmin j) | by apply (Ho j)].
  - intros j a b Hj0 Hm0 Hjp Ha Hb. pose proof (parent_lt j Hj0). at_swap Hc Hx.
    apply (Ho j); [lia|done|done|]. congruence.
Qed.

Lemma down_done l i :
  down_ok l i → (∀ x j y, 0 < j → parent j = i → l !! i = Some x → l !! j = Some y → le x y) → ordered l.
Proof.
  intros [Ho _] H j. destruct (decide (parent j = i)) as [Hp|Hne]; [|by apply Ho].
  intros a b Hj Ha Hb. apply (H b j); congruence.
Qed.

(** The first element of an ordered array is below all others. *)
Lemma ordered_first l x j y : ordered l → l !! 0 = Some x → l !! j = Some y → le x y.
Proof.
  intros Ho Hx. revert y. induction (Nat.lt_wf_0 j) as [j _ IH]. intros y Hy.
  destruct (decide (j = 0)) as [->|]; [simplify_eq; apply le_refl|].
  pose proof (parent_lt j ltac:(lia)) as Hp.
  destruct (lookup_lt_is_Some_2 l (parent j)) as [z Hz]; [apply lookup_lt_Some in Hy; lia|].
  apply (le_trans _ z); [by apply (IH (parent j))|]. by apply (Ho j); [lia|..].
Qed.

Lemma ordered_up_ok l i : ordered l → up_ok l i.
Proof.
  intros Ho. split; [intros j _; apply Ho|]. intros j a b Hj Hi Hp Ha Hb.
  pose proof (parent_lt i Hi). destruct (lookup_lt_is_Some_2 l i) as [z Hz]; [apply lookup_lt_Some in Ha; pose proof (parent_lt j Hj); lia|].
  apply (le_trans _ z); [by apply (Ho i)|]. apply (Ho j); [done|done|by rewrite Hp].
Qed.
End Order.

(** ** The array *)

Abbreviation all_slots := (λ _ : nat, True).
Abbreviation but i := (λ k, k ≠ i).

Section Array.
(** Whether the items of the heap are distinct: only then do their [index] fields make sense. *)
Context (distinct : Prop).

(** The first slots of the array hold [l] and distinct items know their slots; [filled P] claims
    this for the slots in [P]. *)
Record filled (P : nat → Prop) (s : heap_t) (l : list item) : Prop := Filled
  { fl_alloc : length (h_heap s) = _max_size s;
    fl_fits : length l <= _max_size s;
    fl_slots : ∀ k p, P k → l !! k = Some p → h_heap s !! k = Some (Some p);
    fl_index : distinct → NoDup l ∧ ∀ k p, P k → l !! k = Some p → h_index s !! p = Some (Z.of_nat k) }.

Lemma filled_mono (P Q : nat → Prop) s l : (∀ k, Q k → P k) → filled P s l → filled Q s l.
Proof. intros H [Ha Hf Hs Hn]. split; eauto. intros Hd. destruct (Hn Hd). split; eauto. Qed.

Lemma filled_get P s l k p : filled P s l → P k → l !! k = Some p → get s k = Some p.
Proof. intros H Hk Hp. unfold get. by rewrite (fl_slots _ _ _ H k p). Qed.

Lemma put_indexed_spec P s l i x :
  filled P s l → i < length l →
  ∃ s', put_indexed s i x = Some s' ∧ _size s' = _size s ∧ _max_size s' = _max_size s ∧
        h_heap s' = <[i := Some x]> (h_heap s) ∧ h_index s' = <[x := Z.of_nat i]> (h_index s).
Proof.
  intros [Ha Hf _ _] Hi. unfold put_indexed, put.
  destruct (Nat.ltb_spec i (length (h_heap s))); [|lia]. by eexists.
Qed.

(** Writing the element that is missing. *)
Lemma filled_put P s l i x :
  filled P s l → l !! i = Some x →
  ∃ s', put_indexed s i x = Some s' ∧ filled (λ k, P k ∨ k = i) s' l ∧
        _size s' = _size s ∧ _max_size s' = _max_size s.
Proof.
  intros Hfl Hx. apply lookup_lt_Some in Hx as Hi.
  destruct (put_indexed_spec P s l i x Hfl Hi) as (s' & E & E1 & E2 & E3 & E4).
  exists s'. split; [done|]. split; [|done]. destruct Hfl as [Ha Hf Hs Hn]. split; rewrite ?E2, ?E3, ?E4.
  - by rewrite length_insert.
  - done.
  - intros k p Hk Hp. destruct (decide (k = i)) as [->|Hne].
    + simplify_eq. apply list_lookup_insert_eq. lia.
    + rewrite list_lookup_insert_ne by done. apply Hs; tauto.
  - intros Hd. destruct (Hn Hd) as [Hnd Hi']. split; [done|]. intros k p Hk Hp. destruct (decide (k = i)) as [->|Hne].
    + simplify_eq. apply lookup_insert_eq.
    + rewrite lookup_insert_ne; [apply Hi'; tauto|]. intros ->. apply Hne. by apply (NoDup_lookup l k i p).
Qed.

(** Moving an element over a place that is free. *)
Lemma filled_move s l i j x p :
  filled (but i) s l → l !! i = Some x → l !! j = Some p → i ≠ j →
  ∃ s', put_indexed s i p = Some s' ∧ filled (but j) s' (swap l i j x p) ∧
        _size s' = _size s ∧ _max_size s' = _max_size s.
Proof.
  intros Hfl Hx Hp Hij. apply lookup_lt_Some in Hx as Hi.
  destruct (put_indexed_spec _ s l i p Hfl Hi) as (s' & E & E1 & E2 & E3 & E4).
  exists s'. split; [done|]. split; [|done]. destruct Hfl as [Ha Hf Hs Hn]. split; rewrite ?E2, ?E3, ?E4.
  - by rewrite length_insert.
  - unfold swap. by rewrite !length_insert.
  - intros k q Hk Hq. rewrite (lookup_swap _ _ _ _ _ _ Hx Hp Hij) in Hq. repeat case_decide; simplify_eq.
    + apply list_lookup_insert_eq. lia.
    + rewrite list_lookup_insert_ne by done. by apply Hs.
  - intros Hd. destruct (Hn Hd) as [Hnd Hi']. split; [by rewrite (swap_perm _ _ _ _ _ Hx Hp Hij)|]. intros k q Hk Hq.
    rewrite (lookup_swap _ _ _ _ _ _ Hx Hp Hij) in Hq. repeat case_decide; simplify_eq.
    + apply lookup_insert_eq.
    + rewrite lookup_insert_ne; [by apply Hi'|]. intros ->. by pose proof (NoDup_lookup l j k q Hnd Hp Hq).
Qed.
End Array.

Section Spec.
Context (distinct : Prop) {compare_less compare_greater : item → item → bool}.
Context `{!HeapOrder compare_less compare_greater}.

#[local] Abbreviation ordered := (@ordered compare_less).
#[local] Abbreviation up_ok := (@up_ok compare_less).
#[local] Abbreviation down_ok := (@down_ok compare_less).
#[local] Abbreviation le := (@le compare_less).

Lemma sift_up_spec fuel s l i x :
  i < fuel → filled distinct (but i) s l → l !! i = Some x → up_ok l i →
  ∃ j s' l', sift_up compare_greater fuel s i x = Some (j, s') ∧
    filled distinct (but j) s' l' ∧ l' !! j = Some x ∧ ordered l' ∧ l' ≡ₚ l ∧
    _size s' = _size s ∧ _max_size s' = _max_size s.
Proof.
  revert s l i. induction fuel as [|fuel IH]; intros s l i Hf Hfl Hx Hup; [lia|]. cbn [sift_up].
  destruct (Nat.ltb_spec 0 i) as [Hi|Hi].
  - pose proof (parent_lt i Hi) as Hpi.
    destruct (lookup_lt_is_Some_2 l (parent i)) as [p Hp]; [apply lookup_lt_Some in Hx; lia|].
    rewrite (filled_get _ _ _ _ _ p Hfl) by (done || lia). cbn [mbind option_bind].
    rewrite (ho_greater p x). destruct (compare_less x p) eqn:Elt.
    + destruct (filled_move distinct s l i (parent i) x p Hfl Hx Hp ltac:(lia)) as (s1 & -> & Hfl1 & E1 & E2).
      cbn [mbind option_bind].
      destruct (IH s1 (swap l i (parent i) x p) (parent i)) as (j & s' & l' & ? & ? & ? & ? & Hperm & ? & ?); [lia|done| | |].
      * rewrite (lookup_swap _ _ _ _ _ _ Hx Hp) by lia. repeat case_decide; (lia || done).
      * by apply up_step.
      * exists j, s', l'. split_and!; try done; try congruence. by rewrite Hperm, swap_perm by (done || lia).
    + exists i, s, l. split_and!; try done. apply (up_done _ _ Hup). right. by exists x, p.
  - exists i, s, l. split_and!; try done. apply (up_done _ _ Hup). left. lia.
Qed.

(** Each of the two tests of [heapify] keeps the smaller element. *)
Lemma choose_spec s l k cur c :
  filled distinct all_slots s l → _size s = length l → l !! cur = Some c →
  ∃ m d, (if k <? _size s then hk ← get s k; hs ← get s cur; Some (if compare_less hk hs then k else cur)
          else Some cur) = Some m ∧
    l !! m = Some d ∧ (m = cur ∧ d = c ∨ m = k ∧ compare_less d c = true) ∧ le d c ∧
    (∀ y, l !! k = Some y → le d y).
Proof.
  intros Hfl Hn Hc. rewrite Hn. destruct (Nat.ltb_spec k (length l)) as [Hlt|Hge].
  - destruct (lookup_lt_is_Some_2 l k Hlt) as [y Hy].
    rewrite (filled_get _ _ _ _ _ _ Hfl I Hy), (filled_get _ _ _ _ _ _ Hfl I Hc). cbn [mbind option_bind].
    destruct (compare_less y c) eqn:E.
    + exists k, y. split_and!; try done; [by right|by apply lt_le|]. intros z Hz. simplify_eq. apply le_refl.
    + exists cur, c. split_and!; try done; [by left|apply le_refl|]. intros z Hz. by simplify_eq.
  - exists cur, c. split_and!; try done; [by left|apply le_refl|]. intros z Hz. apply lookup_lt_Some in Hz. lia.
Qed.

Lemma smallest_of_spec s l i x :
  filled distinct all_slots s l → _size s = length l → l !! i = Some x →
  ∃ m c, smallest_of compare_less s i = Some m ∧ l !! m = Some c ∧
    (m = i ∨ 0 < m ∧ parent m = i ∧ compare_less c x = true) ∧
    (∀ j y, 0 < j → parent j = i → l !! j = Some y → le c y).
Proof.
  intros Hfl Hn Hx. unfold smallest_of.
  destruct (choose_spec s l (2 * i + 1) i x Hfl Hn Hx) as (m & c & -> & Hc & Hm & Hcx & Hleft).
  cbn [mbind option_bind].
  destruct (choose_spec s l (2 * i + 1 + 1) m c Hfl Hn Hc) as (m' & d & -> & Hd & Hm' & Hdc & Hright).
  exists m', d. split_and!; [done|done| |].
  - assert (Hlt : m' ≠ i → compare_less d x = true).
    { intros Hne. destruct (compare_less d x) eqn:E; [done|].
      destruct Hm' as [[-> ->]|[-> Hdc']], Hm as [[-> ->]|[-> Hcx']]; try congruence.
      pose proof (le_trans x d c E Hdc) as H. unfold Heap.le in H. congruence. }
    assert (Hc' : m' = i ∨ m' = 2 * i + 1 ∨ m' = 2 * i + 2) by lia.
    destruct (decide (m' = i)); [by left|]. right. split_and!; [lia|apply parent_cases; lia|by apply Hlt].
  - intros j y Hj Hp Hy. apply parent_cases in Hp; [|done]. destruct Hp as [->| ->].
    + apply (le_trans _ c); [done|by apply Hleft].
    + apply Hright. by rewrite <- Nat.add_assoc.
Qed.

Lemma heapify_spec fuel s l i x :
  length l - i < fuel → filled distinct all_slots s l → _size s = length l → l !! i = Some x → down_ok l i →
  ∃ s' l', heapify compare_less fuel s i = Some s' ∧ filled distinct all_slots s' l' ∧ ordered l' ∧ l' ≡ₚ l ∧
    _size s' = _size s ∧ _max_size s' = _max_size s.
Proof.
  revert s l i x. induction fuel as [|fuel IH]; intros s l i x Hf Hfl Hn Hx Hd; [lia|]. cbn [heapify].
  destruct (smallest_of_spec s l i x Hfl Hn Hx) as (m & c & -> & Hc & Hm & Hmin). cbn [mbind option_bind].
  destruct (Nat.eqb_spec m i) as [->|Hne].
  - simplify_eq. exists s, l. split_and!; try done. apply (down_done l i Hd). intros y j z Hj Hp Hy Hz. simplify_eq. by apply (Hmin j).
  - destruct Hm as [|(Hm0 & Hp & Hlt)]; [done|]. pose proof (parent_lt m Hm0).
    rewrite (filled_get _ _ _ _ _ _ Hfl I Hc), (filled_get _ _ _ _ _ _ Hfl I Hx). cbn [mbind option_bind].
    destruct (filled_move distinct s l m i c x) as (s1 & -> & Hfl1 & E1 & E2); [by apply (filled_mono _ all_slots)|done|done|done|].
    cbn [mbind option_bind].
    assert (Hsw : swap l m i c x !! i = Some c ∧ swap l m i c x !! m = Some x).
    { rewrite !(lookup_swap _ _ _ _ _ _ Hc Hx) by done. split; by repeat case_decide. }
    destruct (filled_put distinct _ s1 _ i c Hfl1 (proj1 Hsw)) as (s2 & -> & Hfl2 & E3 & E4). cbn [mbind option_bind].
    destruct (IH s2 (swap l m i c x) m x) as (s' & l' & ? & ? & ? & Hperm & ? & ?).
    + unfold swap. rewrite !length_insert. apply lookup_lt_Some in Hc. lia.
    + apply (filled_mono _ (λ k, k ≠ i ∨ k = i)); [lia|done].
    + unfold swap. rewrite !length_insert. congruence.
    + apply Hsw.
    + by apply down_step.
    + exists s', l'. split_and!; try done; try congruence. by rewrite Hperm, swap_perm.
Qed.

(** ** The operations *)

(** A heap that holds the items of [l]. *)
Record heap_wf (s : heap_t) (l : list item) : Prop := HeapWf
  { wf_filled : filled distinct all_slots s l; wf_size : _size s = length l; wf_ordered : ordered l }.

Lemma heap_new_wf max_size index : heap_wf (heap_new max_size index) [].
Proof.
  split; [split| |]; simpl; try done.
  - by rewrite length_replicate.
  - lia.
  - intros _. split; [constructor|done].
Qed.

Lemma increaseSize_wf s l n :
  heap_wf s l → heap_wf (increaseSize true s n).2 l ∧ _max_size (increaseSize true s n).2 = _max_size s + n.
Proof.
  intros [[Ha Hf Hs Hi] Hn Ho]. split; [|done]. split; [split| |]; cbn [increaseSize snd _max_size _size h_heap h_index]; try done.
  - rewrite length_app, length_take, length_replicate. lia.
  - lia.
  - intros k p Hk Hp. rewrite lookup_app_l.
    + rewrite lookup_take_lt; [by apply Hs|]. apply lookup_lt_Some in Hp. lia.
    + rewrite length_take. apply lookup_lt_Some in Hp. lia.
Qed.

Lemma insert_room s l x :
  heap_wf s l → length l < _max_size s → (distinct → x ∉ l) →
  ∃ s' l', ('(i, s) ← sift_up compare_greater (S (_size s)) s (_size s) x;
            s ← put_indexed s i x; Some (true, set_size s (S (_size s)))) = Some (true, s') ∧
           heap_wf s' l' ∧ l' ≡ₚ x :: l.
Proof.
  intros [[Ha Hf Hs Hi] Hn Ho] Hr Hd. rewrite Hn.
  assert (Hx : (l ++ [x]) !! length l = Some x) by (by apply list_lookup_middle).
  assert (Hold : ∀ k p, k ≠ length l → (l ++ [x]) !! k = Some p → l !! k = Some p).
  { intros k p Hk Hp. apply lookup_lt_Some in Hp as Hl. rewrite length_app in Hl. cbn in Hl.
    rewrite lookup_app_l in Hp by lia. done. }
  destruct (sift_up_spec (S (length l)) s (l ++ [x]) (length l) x) as (j & s1 & l1 & -> & Hfl & Hj & Ho1 & Hp & E1 & E2);
    [lia| |done| |].
  - split; [done|rewrite length_app; cbn; lia|eauto|].
    intros H. destruct (Hi H) as [Hnd Hix]. split; [|eauto]. rewrite Permutation_app_comm. by constructor; [apply Hd|].
  - split.
    + intros k Hk a b Hk0 Hka Hkb. apply Hold in Hka; [|done]. apply lookup_lt_Some in Hka as Hl. pose proof (parent_lt k Hk0).
      apply Hold in Hkb; [|lia]. by apply (Ho k).
    + intros k a b Hk0 Hi0 Hpk Hka Hkb. apply lookup_lt_Some in Hka. rewrite length_app in Hka. cbn in Hka.
      pose proof (parent_lt k Hk0). lia.
  - cbn [mbind option_bind].
    destruct (filled_put _ _ s1 l1 j x Hfl Hj) as (s2 & -> & Hfl2 & E3 & E4). cbn [mbind option_bind].
    exists (set_size s2 (S (_size s2))), l1. split; [done|]. split.
    + split; [|cbn; rewrite Hp, length_app; cbn; lia|done].
      destruct Hfl2 as [? ? Hs2 Hi2]. split; cbn; try done.
      * intros k p _. apply Hs2. destruct (decide (k = j)); tauto.
      * intros H. destruct (Hi2 H) as [? Hi3]. split; [done|]. intros k p _. apply Hi3. destruct (decide (k = j)); tauto.
    + by rewrite Hp, Permutation_app_comm.
Qed.

(** Inserting fails only when the array is full and cannot grow; nothing has changed then. *)
Lemma insert_spec new_ok s l x :
  heap_wf s l → (distinct → x ∉ l) →
  if full s && negb new_ok then insert compare_greater new_ok s x = Some (false, s)
  else ∃ s' l', insert compare_greater new_ok s x = Some (true, s') ∧ heap_wf s' l' ∧ l' ≡ₚ x :: l.
Proof.
  intros Hwf Hd. unfold insert. destruct (full s) eqn:Ef; cbn [andb].
  - destruct new_ok; cbn [negb].
    + destruct (increaseSize_wf s l HEAP_DEFAULT_INCREASE_SIZE Hwf) as [Hwf' Hmax].
      destruct (increaseSize true s _) as [ok s1] eqn:E. injection E as <- E1. cbn [snd] in *.
      apply insert_room; [done| |done]. destruct Hwf as [[]]. unfold HEAP_DEFAULT_INCREASE_SIZE in *. lia.
    + done.
  - apply insert_room; [done| |done]. unfold full in Ef. apply Nat.leb_gt in Ef. rewrite (wf_size _ _ Hwf) in Ef. done.
Qed.

Lemma front_spec s x l : heap_wf s (x :: l) → front s = Some x ∧ ∀ y, y ∈ l → le x y.
Proof.
  intros [Hf _ Ho]. split; [by apply (filled_get _ _ _ _ 0 x Hf)|].
  intros y [j Hj]%list_elem_of_lookup. by apply (ordered_first _ x (S j) y Ho).
Qed.

(** [extractFirst] on a heap that is not empty, and what is left. *)
Lemma extractFirst_cons s x l :
  heap_wf s (x :: l) → ∃ s' l', extractFirst compare_less s = Some (Some x, s') ∧ heap_wf s' l' ∧ l' ≡ₚ l.
Proof.
  intros [Hf Hn Ho]. unfold extractFirst, empty. rewrite Hn. cbn [length Nat.eqb].
  rewrite (filled_get _ _ _ _ 0 x Hf) by done. cbn [mbind option_bind]. cbn [set_size _size].
  replace (S (length l) - 1) with (length l) by lia.
  destruct (lookup_lt_is_Some_2 (x :: l) (length l)) as [z Hz]; [cbn; lia|].
  change (get (set_size s (length l)) (length l)) with (get s (length l)).
  rewrite (filled_get _ _ _ _ _ z Hf) by done. cbn [mbind option_bind].
  destruct Hf as [Ha Hm Hs Hi]. cbn [length] in Hm.
  destruct l as [|y r _] using rev_ind.
  - destruct (put_indexed_spec False (λ _, False) (set_size s 0) [x] 0 z) as (s1 & E & E1 & E2 & E3 & E4); [by split|cbn; lia|].
    cbn [length] in *. rewrite E. cbn [mbind option_bind]. cbn [heapify]. unfold smallest_of. rewrite E1. cbn.
    exists s1, []. split; [done|]. split; [|done]. split; [split|by rewrite E1|by intros ? ? ? ? ?]; try done.
    + rewrite E3, E2, length_insert. done.
    + cbn. lia.
    + intros _. split; [constructor|done].
  - rewrite length_app in *. cbn [length] in *. replace (length r + 1) with (S (length r)) in * by lia.
    assert (z = y) as ->. { change ((r ++ [y]) !! length r = Some z) in Hz. rewrite list_lookup_middle in Hz by done. by injection Hz. }
    assert (Hold : ∀ k p, k ≠ 0 → (y :: r) !! k = Some p → (x :: r ++ [y]) !! k = Some p).
    { intros [|k] p Hk Hp; [done|]. change (r !! k = Some p) in Hp.
      change ((r ++ [y]) !! k = Some p). rewrite lookup_app_l; [done|]. by apply lookup_lt_Some in Hp. }
    destruct (filled_put distinct (but 0) (set_size s (S (length r))) (y :: r) 0 y) as (s1 & -> & Hf1 & E1 & E2); [|done|].
    { split; cbn; [done|lia|eauto|]. intros H. destruct (Hi H) as [Hnd Hix]. split; [|eauto].
      apply NoDup_cons in Hnd as [_ Hnd]. by rewrite Permutation_app_comm in Hnd. }
    cbn [mbind option_bind].
    destruct (heapify_spec (S (_size s1)) s1 (y :: r) 0 y) as (s2 & l2 & -> & Hf2 & Ho2 & Hp2 & E3 & E4).
    + rewrite E1. cbn. lia.
    + apply (filled_mono _ (λ k, k ≠ 0 ∨ k = 0)); [lia|done].
    + by rewrite E1.
    + done.
    + split.
      * intros j Hj a b Hj0 Hja Hjb. pose proof (parent_lt j Hj0).
        apply (Ho j); [done|apply Hold; [lia|done]|apply Hold; [done|done]].
      * intros j a b _ H0. lia.
    + exists s2, l2. split; [done|]. split; [split; [done|rewrite E3, E1, Hp2; done|done]|].
      by rewrite Hp2, Permutation_app_comm.
Qed.

Lemma extractFirst_nil s : heap_wf s [] → extractFirst compare_less s = Some (None, s).
Proof. intros [_ Hn _]. unfold extractFirst, empty. by rewrite Hn. Qed.

Lemma getHeapItems_spec s l : heap_wf s l → getHeapItems s = Some l.
Proof.
  intros [Hf Hn _]. unfold getHeapItems. rewrite Hn.
  cut (∀ n i, i + n = length l → copy_items n s i = Some (drop i l)); [intros H; by rewrite H|].
  induction n as [|n IH]; intros i Hi; cbn [copy_items].
  - by rewrite drop_ge by lia.
  - destruct (lookup_lt_is_Some_2 l i) as [p Hp]; [lia|]. rewrite (filled_get _ _ _ _ _ p Hf) by done.
    cbn [mbind option_bind]. rewrite IH by lia. cbn [mbind option_bind]. by rewrite (drop_S _ _ _ Hp).
Qed.

(** Emptying the heap takes one extraction per item and one more, and delivers the items in
    order. *)
Lemma drain_spec s l :
  heap_wf s l →
  ∃ es s', drain compare_less (S (length l)) s = Some (es, s') ∧ es ≡ₚ l ∧
           StronglySorted le es ∧ heap_wf s' [].
Proof.
  remember (length l) as n eqn:Hn. revert s l Hn. induction n as [|n IH]; intros s l Hn Hwf.
  - destruct l; [|done]. cbn [drain]. rewrite extractFirst_nil by done. cbn [mbind option_bind].
    exists [], s. split_and!; try done. constructor.
  - destruct l as [|x l]; [done|]. injection Hn as Hn. destruct (extractFirst_cons s x l Hwf) as (s1 & l1 & E & Hwf1 & Hp).
    destruct (IH s1 l1) as (es & s' & Ed & Hes & Hso & Hwf'); [by rewrite Hp|done|].
    exists (x :: es), s'. cbn [drain] in *. rewrite E. cbn [mbind option_bind]. rewrite Ed. cbn [mbind option_bind].
    split_and!; [done|by rewrite Hes, Hp| |done]. constructor; [done|]. apply Forall_forall. intros y Hy.
    apply (front_spec s x l Hwf). by rewrite <- Hp, <- Hes.
Qed.
End Spec.

(** ** The heap implements a priority queue *)

Inductive heap_op := OpInsert (new_ok : bool) (x : item) | OpExtract | OpSize | OpEmpty | OpItems.
Inductive heap_result := RBool (b : bool) | RItem (i : option item) | RSize (n : nat) | RItems (l : list item).

Section Refinement.
Context (compare_less compare_greater : item → item → bool).

(** One call on the heap of the code. *)
Definition heap_call (s : heap_t) (o : heap_op) : option (heap_result * heap_t) :=
  match o with
  | OpInsert new_ok x => '(b, s) ← insert compare_greater new_ok s x; Some (RBool b, s)
  | OpExtract => '(i, s) ← extractFirst compare_less s; Some (RItem i, s)
  | OpSize => Some (RSize (size s), s)
  | OpEmpty => Some (RBool (empty s), s)
  | OpItems => l ← getHeapItems s; Some (RItems l, s)
  end.
Fixpoint heap_calls (s : heap_t) (ops : list heap_op) : option (list heap_result * heap_t) :=
  match ops with
  | [] => Some ([], s)
  | o :: ops => '(r, s) ← heap_call s o; '(rs, s) ← heap_calls s ops; Some (r :: rs, s)
  end.

(** The specification: a multiset of items, as a list up to permutation. *)
Inductive queue_step : list item → heap_op → heap_result → list item → Prop :=
  | queue_insert q ok x : queue_step q (OpInsert ok x) (RBool true) (x :: q)
  | queue_no_memory q x : queue_step q (OpInsert false x) (RBool false) q
  | queue_extract q x q' : q ≡ₚ x :: q' → (∀ y, y ∈ q' → compare_less y x = false) →
      queue_step q OpExtract (RItem (Some x)) q'
  | queue_extract_none : queue_step [] OpExtract (RItem None) []
  | queue_size q : queue_step q OpSize (RSize (length q)) q
  | queue_empty q : queue_step q OpEmpty (RBool (bool_decide (q = []))) q
  | queue_items q l : l ≡ₚ q → queue_step q OpItems (RItems l) q.
Inductive queue_steps : list item → list heap_op → list heap_result → list item → Prop :=
  | queue_done q : queue_steps q [] [] q
  | queue_more q o r q1 os rs q2 : queue_step q o r q1 → queue_steps q1 os rs q2 →
      queue_steps q (o :: os) (r :: rs) q2.

Context `{!HeapOrder compare_less compare_greater}.

Lemma heap_call_simulation s l q o :
  heap_wf (compare_less := compare_less) False s l → l ≡ₚ q →
  ∃ r s' l' q', heap_call s o = Some (r, s') ∧ queue_step q o r q' ∧
    heap_wf (compare_less := compare_less) False s' l' ∧ l' ≡ₚ q'.
Proof.
  intros Hwf Hq. destruct o as [ok x| | | |]; cbn [heap_call].
  - pose proof (insert_spec False ok s l x Hwf ltac:(done)) as H. destruct (full s && negb ok) eqn:Ef.
    + rewrite H. cbn [mbind option_bind]. apply andb_true_iff in Ef as [_ Ef]. destruct ok; [done|].
      eexists _, _, l, q. split_and!; try done. constructor.
    + destruct H as (s' & l' & -> & Hwf' & Hp). cbn [mbind option_bind].
      eexists _, _, l', (x :: q). split_and!; try done; [constructor|by rewrite Hp, Hq].
  - destruct l as [|x l].
    + rewrite (extractFirst_nil False s Hwf). assert (q = []) as -> by (symmetry in Hq; by apply Permutation_nil_r in Hq). cbn [mbind option_bind].
      eexists _, _, [], []. split_and!; try done. constructor.
    + destruct (extractFirst_cons False s x l Hwf) as (s' & l' & -> & Hwf' & Hp). cbn [mbind option_bind].
      eexists _, _, l', l. split_and!; try done. constructor; [done|]. intros y Hy.
      by apply (front_spec False s x l Hwf).
  - eexists _, _, l, q. split_and!; try done. unfold size. rewrite (wf_size _ _ _ Hwf), Hq. constructor.
  - eexists _, _, l, q. split_and!; try done. unfold empty. rewrite (wf_size _ _ _ Hwf), Hq.
    replace (length q =? 0) with (bool_decide (q = [])) by (by destruct q). constructor.
  - rewrite (getHeapItems_spec False s l Hwf). cbn [mbind option_bind]. eexists _, _, l, q. split_and!; try done. by constructor.
Qed.

(** C26: whatever is called on a new heap, of whatever capacity, no call fails to return or leaves
    the array, and the answers are those of a priority queue: an insertion is refused only when
    memory is, an extraction delivers an item that no other item is below, [NULL] exactly when the
    queue is empty; and the heap that is left can be emptied, in order. *)
Theorem heap_refines max_size index ops :
  ∃ rs s q, heap_calls (heap_new max_size index) ops = Some (rs, s) ∧ queue_steps [] ops rs q ∧
    ∃ es s', drain compare_less (S (length q)) s = Some (es, s') ∧ es ≡ₚ q ∧
             StronglySorted (λ a b, compare_less b a = false) es ∧ empty s' = true.
Proof.
  cut (∀ s l q, heap_wf (compare_less := compare_less) False s l → l ≡ₚ q →
        ∃ rs s' l' q', heap_calls s ops = Some (rs, s') ∧ queue_steps q ops rs q' ∧
        heap_wf (compare_less := compare_less) False s' l' ∧ l' ≡ₚ q').
  { intros H. destruct (H _ [] [] (heap_new_wf False max_size index)) as (rs & s & l & q & E & Hq & Hwf & Hp); [done|].
    destruct (drain_spec False s l Hwf) as (es & s' & Ed & Hes & Hso & Hwf').
    exists rs, s, q. split_and!; [done|done|]. exists es, s'. rewrite <- Hp at 1. split_and!; [done|by rewrite Hes|done|].
    unfold empty. by rewrite (wf_size _ _ _ Hwf'). }
  induction ops as [|o ops IH]; intros s l q Hwf Hq; cbn [heap_calls].
  - exists [], s, l, q. split_and!; try done. constructor.
  - destruct (heap_call_simulation s l q o Hwf Hq) as (r & s1 & l1 & q1 & -> & Hst & Hwf1 & Hq1). cbn [mbind option_bind].
    destruct (IH s1 l1 q1 Hwf1 Hq1) as (rs & s2 & l2 & q2 & -> & Hsts & Hwf2 & Hq2). cbn [mbind option_bind].
    exists (r :: rs), s2, l2, q2. split_and!; try done. by econstructor.
Qed.
End Refinement.

(** While no item is put into the heap twice, every item knows its slot: after every insertion
    and extraction the [index] of each item in the heap is its position in the array, the array is
    a heap, and what is left are the items inserted and not extracted. *)
Theorem heap_invariant (compare_less compare_greater : item → item → bool)
    `{!HeapOrder compare_less compare_greater} s l x :
  heap_wf (compare_less := compare_less) True s l → x ∉ l →
  (∃ s' l', insert compare_greater true s x = Some (true, s') ∧
     heap_wf (compare_less := compare_less) True s' l' ∧ l' ≡ₚ x :: l) ∧
  match l with
  | [] => extractFirst compare_less s = Some (None, s)
  | y :: l => ∃ s' l', extractFirst compare_less s = Some (Some y, s') ∧
     heap_wf (compare_less := compare_less) True s' l' ∧ l' ≡ₚ l
  end ∧
  (∀ k p, l !! k = Some p → h_heap s !! k = Some (Some p) ∧ h_index s !! p = Some (Z.of_nat k)).
Proof.
  intros Hwf Hx. split_and!.
  - pose proof (insert_spec True true s l x Hwf ltac:(done)) as H. by rewrite andb_false_r in H.
  - destruct l as [|y l]; [by apply (extractFirst_nil True)|by apply (extractFirst_cons True (compare_greater := compare_greater))].
  - intros k p Hp. destruct Hwf as [Hf _ _]. split; [by apply (fl_slots _ _ _ _ Hf)|].
    by apply (fl_index _ _ _ _ Hf).
Qed.

(** Items ordered by their number. *)
#[local] Instance ltb_order : HeapOrder Nat.ltb (λ a b, b <? a).
Proof.
  split; [intros a b|intros a b c|done].
  - rewrite Nat.ltb_lt, Nat.ltb_ge. lia.
  - rewrite !Nat.ltb_ge. lia.
Qed.

Lemma heap_invariant_witness :
  ∃ s, heap_calls Nat.ltb (λ a b, b <? a) (heap_new 2 ∅) [OpInsert true 3; OpInsert true 1]
       = Some ([RBool true; RBool true], s) ∧
  ∃ s' l', insert (λ a b, b <? a) true s 2 = Some (true, s') ∧
     heap_wf (compare_less := Nat.ltb) True s' l' ∧ l' ≡ₚ [2; 1; 3].
Proof.
  destruct (heap_invariant Nat.ltb (λ a b, b <? a)
    (HeapT 2 2 [Some 1; Some 3] (<[1 := 0%Z]> (<[3 := 1%Z]> (<[3 := 0%Z]> ∅)))) [1; 3] 2) as ((s' & l' & E & Hwf & Hp) & _ & _).
  { split; [split| |].
    - reflexivity.
    - cbn. lia.
    - intros [|[|k]] p _ Hp; cbn in *; try done; by injection Hp as <-.
    - intros _. split; [apply (bool_decide_unpack (NoDup [1; 3])); vm_compute; exact I|].
      intros [|[|k]] p _ Hp; cbn in Hp; try done; injection Hp as <-; vm_compute; reflexivity.
    - reflexivity.
    - intros [|[|k]] a b H1 Ha Hb; cbn in *; try done; try lia; injection Ha as <-; injection Hb as <-; reflexivity. }
  { apply (bool_decide_unpack (2 ∉ [1; 3])). vm_compute. exact I. }
  eexists. split; [vm_compute; reflexivity|]. exists s', l'. split; [|split; [exact Hwf|exact Hp]].
  rewrite <- E. vm_compute. reflexivity.
Defined.

Lemma heap_refines_witness :
  ∃ rs s q, heap_calls Nat.ltb (λ a b, b <? a) (heap_new 2 ∅) [OpInsert true 3; OpInsert true 1; OpInsert true 2; OpExtract]
            = Some (rs, s) ∧
    queue_steps Nat.ltb [] [OpInsert true 3; OpInsert true 1; OpInsert true 2; OpExtract] rs q ∧
    rs = [RBool true; RBool true; RBool true; RItem (Some 1)].
Proof.
  destruct (heap_refines Nat.ltb (λ a b, b <? a) 2 ∅ [OpInsert true 3; OpInsert true 1; OpInsert true 2; OpExtract])
    as (rs & s & q & E & Hq & _).
  exists rs, s, q. split; [exact E|]. split; [exact Hq|].
  assert (E' := E). vm_compute in E'. injection E' as <- _. reflexivity.
Defined.
