(* ===== verification/EventQueue.v ===== *)
(** * EventQueue: the kernel's queue of timed events ([hagglekernel/EventQueue.h], the comparison
    and flags of [Event.cpp]).

    Events are the items of a [Heap], ordered by their timeouts.  Requests to cancel events are
    collected in a list and carried out by [clearCanceledEvents], which the queue calls before it
    looks at its front.  Each method runs under the queue's mutex and is one function here; the
    time of day is an argument. *)

From S2P Require Import Prelude Timeval Heap.

Section EventQueue.
(** Data objects and nodes, and the equality that their references compare with. *)
Context {D N : Type} (same_dobj : D → D → bool) (same_node : N → N → bool).

Record event := Event
  { ev_type : Z; ev_timeout : Timeval; ev_dObj : option D; ev_node : option N;
    ev_scheduled : bool; ev_canceled : bool }.

(** [EventCancellationRequest]; [rq_after] is [None] when [after] is not positive. *)
Record request := Request
  { rq_etype : Z; rq_dObj : option D; rq_node : option N; rq_after : option Timeval }.

Record equeue := EQueue
  { q_heap : heap_t; q_events : gmap nat event; q_cancellations : list request;
    q_shutdownEvent : bool; q_signal : bool }.

Inductive EQEvent_t := EQ_ERROR | EQ_TIMEOUT | EQ_EVENT | EQ_EMPTY | EQ_EVENT_SHUTDOWN.

Definition set_heap (q : equeue) h := EQueue h (q_events q) (q_cancellations q) (q_shutdownEvent q) (q_signal q).
Definition set_events (q : equeue) es := EQueue (q_heap q) es (q_cancellations q) (q_shutdownEvent q) (q_signal q).
Definition set_cancellations (q : equeue) c := EQueue (q_heap q) (q_events q) c (q_shutdownEvent q) (q_signal q).
Definition set_shutdown (q : equeue) b := EQueue (q_heap q) (q_events q) (q_cancellations q) b (q_signal q).
Definition set_signal (q : equeue) b := EQueue (q_heap q) (q_events q) (q_cancellations q) (q_shutdownEvent q) b.

Definition setScheduled (e : event) (b : bool) : event :=
  Event (ev_type e) (ev_timeout e) (ev_dObj e) (ev_node e) b (ev_canceled e).
Definition setCanceled (e : event) : event :=
  Event (ev_type e) (ev_timeout e) (ev_dObj e) (ev_node e) (ev_scheduled e) true.

(** [Event::compare_less] and [compare_greater] on the events that items point to. *)
Definition timeout_of (es : gmap nat event) (p : nat) : Timeval := from_option ev_timeout Timeval_default (es !! p).
Definition compare_less (es : gmap nat event) (p1 p2 : nat) : bool := tv_lt (timeout_of es p1) (timeout_of es p2).
Definition compare_greater (es : gmap nat event) (p1 p2 : nat) : bool := tv_gt (timeout_of es p1) (timeout_of es p2).

(** Whether a request applies to an event: the four [continue]s of the loop. *)
Definition applies (now : Timeval) (req : request) (e : event) : option bool :=
  if negb (rq_etype req =? -1) && negb (ev_type e =? rq_etype req) then Some false
  else if match rq_dObj req, ev_dObj e with Some d, Some d' => negb (same_dobj d d') | _, _ => false end then Some false
  else if match rq_node req, ev_node e with Some n, Some n' => negb (same_node n n') | _, _ => false end then Some false
  else match rq_after req with
       | Some after => t ← tv_plus now after; Some (negb (tv_le (ev_timeout e) t))
       | None => Some true
       end.
Fixpoint canceled_by (now : Timeval) (reqs : list request) (e : event) : option bool :=
  match reqs with
  | [] => Some false
  | req :: reqs => b ← applies now req e; if b : bool then Some true else canceled_by now reqs e
  end.

(** The loop over the heap's array, from slot [i]. *)
Fixpoint mark_loop (n : nat) (now : Timeval) (q : equeue) (i : nat) : option equeue :=
  match n with
  | O => Some q
  | S n =>
    p ← get (q_heap q) i;
    e ← q_events q !! p;
    b ← canceled_by now (q_cancellations q) e;
    mark_loop n now (if b : bool then set_events q (<[p := setCanceled e]> (q_events q)) else q) (S i)
  end.

(** Dropping canceled events from the front; the events themselves are not deleted. *)
Fixpoint pop_canceled (fuel : nat) (q : equeue) : option equeue :=
  match fuel with
  | O => None
  | S fuel =>
    if empty (q_heap q) then Some q
    else
      p ← front (q_heap q);
      e ← q_events q !! p;
      if ev_canceled e then h ← pop_front (compare_less (q_events q)) (q_heap q); pop_canceled fuel (set_heap q h)
      else Some q
  end.

Definition clearCanceledEvents (now : Timeval) (q : equeue) : option (bool * equeue) :=
  if empty (q_heap q) then Some (false, q)
  else
    q ← mark_loop (size (q_heap q)) now q 0;
    let q := set_cancellations q [] in
    q ← pop_canceled (S (size (q_heap q))) q;
    Some (true, q).

Definition hasNextEvent (now : Timeval) (q : equeue) : option (EQEvent_t * equeue) :=
  if q_shutdownEvent q then Some (EQ_EVENT_SHUTDOWN, q)
  else
    '(b, q) ← clearCanceledEvents now q;
    Some (if b && empty (q_heap q) then EQ_EMPTY else EQ_EVENT, q).

(** [tv]: the caller's variable, written through the pointer. *)
Definition getNextEventTime (now : Timeval) (tv : option Timeval) (q : equeue)
  : option (EQEvent_t * option Timeval * equeue) :=
  match tv with
  | None => Some (EQ_ERROR, None, q)
  | Some tv =>
    let q := set_signal q false in
    if q_shutdownEvent q then Some (EQ_EVENT_SHUTDOWN, Some zero, q)
    else
      '(b, q) ← clearCanceledEvents now q;
      if b && negb (empty (q_heap q)) then
        p ← front (q_heap q); e ← q_events q !! p;
        Some (EQ_EVENT, Some (ev_timeout e), q)
      else Some (EQ_EMPTY, Some tv, q)
  end.

(** What [getNextEvent] returns: an event of the queue or a new one of type [EVENT_TYPE_SHUTDOWN]. *)
Inductive next_event := NextEvent (p : nat) | ShutdownEvent.

Definition getNextEvent (now : Timeval) (q : equeue) : option (next_event * equeue) :=
  if q_shutdownEvent q then Some (ShutdownEvent, set_signal (set_shutdown q false) false)
  else
    '(_, q) ← clearCanceledEvents now q;
    '(p, h) ← extractFirst (compare_less (q_events q)) (q_heap q);
    let q := set_heap q h in
    (* [e->setScheduled(false)] on what was extracted, [NULL] included *)
    p ← p; e ← q_events q !! p;
    Some (NextEvent p, set_events q (<[p := setScheduled e false]> (q_events q))).

Definition enableShutdownEvent (q : equeue) : equeue := set_signal (set_shutdown q true) true.

Definition addEvent (new_ok : bool) (e : option nat) (q : equeue) : option equeue :=
  match e with
  | None => Some q
  | Some p =>
    '(ok, h) ← insert (compare_greater (q_events q)) new_ok (q_heap q) p;
    let q := set_heap q h in
    if ok : bool then
      e ← q_events q !! p;
      Some (set_signal (set_events q (<[p := setScheduled e true]> (q_events q))) true)
    else Some q
  end.

(** The seven overloads differ in the fields of the request they push. *)
Definition cancelEvents (req : request) (q : equeue) : equeue :=
  set_cancellations q (q_cancellations q ++ [req]).

(** [getEventList]: copies of the events, in the order of the array. *)
Definition getEventList (q : equeue) : option (list event) :=
  ps ← getHeapItems (q_heap q); mapM (λ p, q_events q !! p) ps.

Definition equeue_new (es : gmap nat event) : equeue := EQueue (heap_new HEAP_DEFAULT_SIZE ∅) es [] false false.

(** ** The queue in terms of the events in it *)

#[export] Instance event_order es : HeapOrder (compare_less es) (compare_greater es).
Proof.
  unfold compare_less, compare_greater. split.
  - intros a b. unfold tv_lt. rewrite orb_true_iff, andb_true_iff, orb_false_iff, andb_false_iff, !Z.ltb_lt, !Z.ltb_ge, Z.eqb_eq, Z.eqb_neq. lia.
  - intros a b c. unfold tv_lt. rewrite !orb_false_iff, !andb_false_iff, !Z.ltb_ge, !Z.eqb_neq. lia.
  - intros a b. apply tv_gt_flip.
Qed.

(** [l]: the items in the heap, each an event that exists. *)
Record queue_wf (q : equeue) (l : list nat) : Prop := QueueWf
  { qw_heap : heap_wf (compare_less := compare_less (q_events q)) True (q_heap q) l;
    qw_events : ∀ p, p ∈ l → is_Some (q_events q !! p) }.

(** The requests can be evaluated: the sums of times do not overflow. *)
Definition requests_ok (now : Timeval) (reqs : list request) : Prop :=
  ∀ req after, req ∈ reqs → rq_after req = Some after → is_Some (tv_plus now after).

Definition matched (now : Timeval) (reqs : list request) (e : event) : bool := default false (canceled_by now reqs e).
Definition mark (now : Timeval) (reqs : list request) (e : event) : event :=
  if matched now reqs e then setCanceled e else e.

(** The events that are in the heap and will not be dropped. *)
Definition is_live (es : gmap nat event) (p : nat) : Prop := from_option ev_canceled true (es !! p) = false.
Definition is_pending (now : Timeval) (q : equeue) (p : nat) : bool :=
  match q_events q !! p with
  | Some e => negb (ev_canceled e) && negb (matched now (q_cancellations q) e)
  | None => false
  end.
Definition pending (now : Timeval) (q : equeue) (l : list nat) : list nat :=
  filter (λ p, is_pending now q p = true) l.

Lemma heap_wf_ext (lt1 lt2 : nat → nat → bool) P h l :
  (∀ a b, lt1 a b = lt2 a b) → heap_wf (compare_less := lt1) P h l → heap_wf (compare_less := lt2) P h l.
Proof.
  intros E [Hf Hn Ho]. split; [done|done|]. intros j a b Hj Ha Hb. unfold le. rewrite <- E. exact (Ho j a b Hj Ha Hb).
Qed.

Lemma compare_less_ext es1 es2 :
  (∀ p, ev_timeout <$> es1 !! p = ev_timeout <$> es2 !! p) → ∀ a b, compare_less es1 a b = compare_less es2 a b.
Proof.
  intros H a b. unfold compare_less, timeout_of.
  pose proof (H a) as Ha. pose proof (H b) as Hb.
  destruct (es1 !! a), (es2 !! a), (es1 !! b), (es2 !! b); simplify_eq/=; congruence.
Qed.

(** Changing flags of events keeps the queue well-formed. *)
Lemma queue_wf_events q es l :
  queue_wf q l → (∀ p, ev_timeout <$> es !! p = ev_timeout <$> q_events q !! p) → queue_wf (set_events q es) l.
Proof.
  intros [Hh He] Hes. split; cbn [q_heap q_events set_events].
  - apply (heap_wf_ext (compare_less (q_events q))); [|done]. intros a b. symmetry. by apply compare_less_ext.
  - intros p Hp. apply He in Hp as [e E]. pose proof (Hes p) as H. rewrite E in H. destruct (es !! p); [eauto|done].
Qed.

Lemma canceled_by_matched now reqs e :
  requests_ok now reqs → canceled_by now reqs e = Some (matched now reqs e).
Proof.
  unfold matched. intros H. induction reqs as [|req reqs IH]; [done|]. cbn [canceled_by].
  assert (Ha : is_Some (applies now req e)).
  { unfold applies. repeat match goal with |- is_Some (if ?b then _ else _) => destruct b; [by eexists|] end.
    destruct (rq_after req) as [t|] eqn:Et; [|by eexists]. destruct (H req t) as [s ->]; [left|done|by eexists]. }
  destruct Ha as [b ->]. cbn [mbind option_bind]. destruct b; [done|]. apply IH. intros r a Hr. apply H. by right.
Qed.

Lemma mark_loop_spec now n : ∀ i q l,
  (i + n)%nat = length l → requests_ok now (q_cancellations q) → queue_wf q l →
  ∃ es, mark_loop n now q i = Some (set_events q es) ∧
    ∀ p, es !! p = (if decide (p ∈ drop i l) then mark now (q_cancellations q) else id) <$> q_events q !! p.
Proof.
  induction n as [|n IH]; intros i q l Hi Hr Hwf; cbn [mark_loop].
  - exists (q_events q). split; [by destruct q|]. intros p. rewrite drop_ge by lia.
    rewrite decide_False by (by intros ?%elem_of_nil). by rewrite option_fmap_id.
  - destruct (lookup_lt_is_Some_2 l i) as [p Hp]; [lia|].
    pose proof (fl_index _ _ _ _ (wf_filled _ _ _ (qw_heap _ _ Hwf)) I) as [Hnd _].
    rewrite (filled_get _ _ _ _ _ p (wf_filled _ _ _ (qw_heap _ _ Hwf))) by done. cbn [mbind option_bind].
    destruct (qw_events _ _ Hwf p) as [e He]; [by apply list_elem_of_lookup_2 in Hp|]. rewrite He. cbn [mbind option_bind].
    rewrite canceled_by_matched by done. cbn [mbind option_bind].
    set (q1 := if matched now (q_cancellations q) e then _ else q).
    assert (E1 : q1 = set_events q (<[p := mark now (q_cancellations q) e]> (q_events q))).
    { unfold q1, mark. destruct (matched _ _ e); [done|]. rewrite insert_id by done. by destruct q. }
    rewrite E1. clear q1 E1. set (es1 := <[p := mark now (q_cancellations q) e]> (q_events q)).
    destruct (IH (S i) (set_events q es1) l) as (es & E & Hes); [lia|done| |].
    + apply queue_wf_events; [done|]. intros p'. unfold es1. destruct (decide (p' = p)) as [->|].
      * rewrite lookup_insert_eq, He. cbn. unfold mark. by destruct (matched _ _ e).
      * by rewrite lookup_insert_ne.
    + exists es. split; [exact E|]. intros p'. rewrite Hes. cbn [set_events q_events q_cancellations].
      rewrite (drop_S _ _ _ Hp). unfold es1. destruct (decide (p' = p)) as [->|Hne].
      * rewrite (decide_True (P := p ∈ p :: _)) by left. rewrite lookup_insert_eq, He. rewrite decide_False; [done|].
        intros Hin. apply list_elem_of_lookup in Hin as [j Hj]. rewrite lookup_drop in Hj.
        pose proof (NoDup_lookup _ _ _ _ Hnd Hp Hj). lia.
      * rewrite lookup_insert_ne by done. destruct (decide (p' ∈ drop (S i) l)).
        -- by rewrite decide_True by by right.
        -- rewrite decide_False; [done|]. rewrite elem_of_cons. tauto.
Qed.

Lemma pop_canceled_spec fuel : ∀ q l,
  (length l < fuel)%nat → queue_wf q l →
  ∃ h l' dropped, pop_canceled fuel q = Some (set_heap q h) ∧ queue_wf (set_heap q h) l' ∧ l ≡ₚ dropped ++ l' ∧
    (∀ p, p ∈ dropped → ¬ is_live (q_events q) p) ∧
    match l' with [] => True | p :: _ => is_live (q_events q) p end.
Proof.
  induction fuel as [|fuel IH]; intros q l Hf Hwf; [lia|]. cbn [pop_canceled].
  assert (Eq : set_heap q (q_heap q) = q) by (by destruct q).
  unfold empty. rewrite (wf_size _ _ _ (qw_heap _ _ Hwf)). destruct l as [|p l]; cbn [length Nat.eqb].
  - exists (q_heap q), [], []. rewrite Eq. split_and!; try done. by intros ? ?%elem_of_nil.
  - destruct (front_spec True _ p l (qw_heap _ _ Hwf)) as [-> _]. cbn [mbind option_bind].
    destruct (qw_events _ _ Hwf p) as [e He]; [left|]. rewrite He. cbn [mbind option_bind].
    destruct (ev_canceled e) eqn:Ec.
    + destruct (extractFirst_cons True (compare_greater := compare_greater (q_events q)) _ p l (qw_heap _ _ Hwf)) as (h & l1 & E & Hwf1 & Hp).
      unfold pop_front. rewrite E. cbn [mbind option_bind].
      destruct (IH (set_heap q h) l1) as (h' & l' & dr & E' & Hwf' & Hp' & Hdr & Hhd).
      * rewrite Hp. cbn in Hf. lia.
      * split; [done|]. intros p' Hp'. apply (qw_events _ _ Hwf). right. by rewrite <- Hp.
      * exists h', l', (p :: dr). split_and!; [exact E'|exact Hwf'|by rewrite <- Hp, Hp'| |exact Hhd].
        intros p' [->|Hin]%elem_of_cons; [|by apply Hdr]. unfold is_live. rewrite He. cbn. congruence.
    + exists (q_heap q), (p :: l), []. rewrite Eq. split_and!; try done; [by intros ? ?%elem_of_nil|].
      unfold is_live. by rewrite He.
Qed.

Lemma filter_none (P : nat → Prop) `{∀ x, Decision (P x)} l : Forall (λ x, ¬ P x) l → filter P l = [].
Proof. induction 1 as [|x l Hx _ IH]; [done|]. by rewrite filter_cons_False. Qed.

Lemma pending_perm now q l l' : l ≡ₚ l' → pending now q l ≡ₚ pending now q l'.
Proof. unfold pending. by intros ->. Qed.

Lemma pending_ext now now' q q' l :
  (∀ p, p ∈ l → is_pending now q p = is_pending now' q' p) → pending now q l = pending now' q' l.
Proof.
  intros H. unfold pending. induction l as [|p l IH]; [done|]. rewrite !filter_cons, IH by (intros; apply H; by right).
  by rewrite H by left.
Qed.

(** What [clearCanceledEvents] leaves: the pending events with some canceled ones behind the
    front, and no requests. *)
Lemma clearCanceledEvents_spec now q l :
  queue_wf q l → requests_ok now (q_cancellations q) →
  ∃ q' l', clearCanceledEvents now q = Some (bool_decide (l ≠ []), q') ∧ queue_wf q' l' ∧ l' ⊆ l ∧
    pending now q' l' ≡ₚ pending now q l ∧
    (l = [] → q' = q) ∧ (l ≠ [] → q_cancellations q' = []) ∧
    q_shutdownEvent q' = q_shutdownEvent q ∧ q_signal q' = q_signal q ∧
    (∀ p, ev_timeout <$> q_events q' !! p = ev_timeout <$> q_events q !! p) ∧
    match l' with [] => True | p :: _ => is_pending now q' p = true end.
Proof.
  intros Hwf Hr. unfold clearCanceledEvents, size, empty. rewrite (wf_size _ _ _ (qw_heap _ _ Hwf)).
  destruct l as [|p0 l0]; [exists q, []; by split_and!|]. set (l := p0 :: l0) in *. cbn [l length Nat.eqb].
  destruct (mark_loop_spec now (length l) 0 q l) as (es & E & Hes); [done|done|done|]. cbn [length l] in E. rewrite E.
  cbn [mbind option_bind]. cbn [drop] in Hes. set (q1 := set_cancellations (set_events q es) []).
  assert (Htime : ∀ p, ev_timeout <$> es !! p = ev_timeout <$> q_events q !! p).
  { intros p. rewrite Hes. unfold mark. destruct (q_events q !! p); [|by destruct (decide _)]. cbn.
    destruct (decide _); [|done]. by destruct (matched _ _ _). }
  assert (Hwf1 : queue_wf q1 l) by (apply (queue_wf_events q es l Hwf) in Htime as [H1 H2]; by split).
  destruct (pop_canceled_spec (S (size (q_heap q1))) q1 l) as (h & l' & dr & E2 & Hwf2 & Hp & Hdr & Hhd); [|done|].
  { unfold size. cbn [q1 q_heap set_cancellations set_events]. rewrite (wf_size _ _ _ (qw_heap _ _ Hwf)). lia. }
  unfold size in E2. cbv zeta. fold q1. rewrite E2. cbn [mbind option_bind]. exists (set_heap q1 h), l'.
  assert (Hsub : l' ⊆ l) by (intros x Hx; rewrite Hp; apply elem_of_app; by right).
  assert (Hlive : ∀ p, p ∈ l → is_pending now q p = true ↔ is_live es p).
  { intros p Hin. unfold is_pending, is_live. rewrite Hes, decide_True by done.
    destruct (qw_events _ _ Hwf p Hin) as [e ->]. cbn. unfold mark. destruct (matched _ _ e); cbn; [rewrite andb_false_r; done|].
    rewrite andb_true_r. by destruct (ev_canceled e). }
  assert (Hnew : ∀ p, is_pending now (set_heap q1 h) p = true ↔ is_live es p).
  { intros p. unfold is_pending, is_live. cbn. destruct (es !! p); cbn; [|done]. rewrite andb_true_r. by destruct (ev_canceled _). }
  split_and!; try done.
  - rewrite (pending_perm _ _ _ _ Hp). unfold pending at 2. rewrite filter_app.
    replace (filter _ dr) with (@nil nat); [cbn [app]; fold (pending now q l')|].
    + erewrite pending_ext; [done|]. intros p Hin. apply eq_true_iff_eq. rewrite Hnew, Hlive; [done|by apply Hsub].
    + symmetry. apply filter_none. apply Forall_forall. intros p Hin. rewrite Hlive; [by apply Hdr|].
      rewrite Hp. apply elem_of_app. by left.
  - destruct l' as [|p l']; [done|]. apply Hnew, Hhd.
Qed.

Lemma pending_nil now q l :
  match l with [] => True | p :: _ => is_pending now q p = true end → pending now q l = [] → l = [].
Proof. destruct l as [|p l]; [done|]. intros H. unfold pending. by rewrite filter_cons_True. Qed.

(** Events with earlier timeouts are below, with the head of the heap below all. *)
Lemma front_earliest q p l p' :
  queue_wf q (p :: l) → p' ∈ p :: l → tv_le (timeout_of (q_events q) p) (timeout_of (q_events q) p') = true.
Proof.
  intros Hwf Hin. rewrite tv_lt_le. apply negb_true_iff.
  apply elem_of_cons in Hin as [->|Hin];
    [exact (le_refl (compare_less := compare_less (q_events q)) (compare_greater := compare_greater (q_events q)) p)|].
  by apply (front_spec (compare_greater := compare_greater (q_events q)) True _ p l (qw_heap _ _ Hwf)).
Qed.

Lemma timeout_of_ext es1 es2 p :
  ev_timeout <$> es1 !! p = ev_timeout <$> es2 !! p → timeout_of es1 p = timeout_of es2 p.
Proof. unfold timeout_of. destruct (es1 !! p), (es2 !! p); cbn; congruence. Qed.

(** [getNextEvent] takes out a pending event (one that no request applies to and that was not
    canceled before) with the earliest timeout of all pending events, marks it as no longer
    scheduled, and leaves the other pending events in the queue; when no event is pending it
    dereferences the [NULL] that the heap answers. *)
Lemma getNextEvent_spec now q l :
  queue_wf q l → requests_ok now (q_cancellations q) → q_shutdownEvent q = false →
  match pending now q l with
  | [] => getNextEvent now q = None
  | _ =>
    ∃ p q' l', getNextEvent now q = Some (NextEvent p, q') ∧ queue_wf q' l' ∧ q_cancellations q' = [] ∧
      pending now q l ≡ₚ p :: pending now q' l' ∧
      (∀ p', p' ∈ pending now q l → tv_le (timeout_of (q_events q) p) (timeout_of (q_events q) p') = true) ∧
      ev_scheduled <$> q_events q' !! p = Some false ∧ q_shutdownEvent q' = false ∧
      (∀ p', timeout_of (q_events q') p' = timeout_of (q_events q) p')
  end.
Proof.
  intros Hwf Hr Hs. unfold getNextEvent. rewrite Hs.
  destruct (clearCanceledEvents_spec now q l Hwf Hr) as (q1 & l1 & -> & Hwf1 & Hsub & Hp & Hnil & Hne & Es & _ & Et & Hhd).
  cbn [mbind option_bind]. destruct l1 as [|p l1].
  - rewrite (extractFirst_nil True _ (qw_heap _ _ Hwf1)). apply Permutation_nil_l in Hp. by rewrite <- Hp.
  - assert (Hpe : pending now q1 (p :: l1) = p :: pending now q1 l1) by (unfold pending; by rewrite filter_cons_True).
    rewrite Hpe in Hp.
    destruct (extractFirst_cons True (compare_greater := compare_greater (q_events q1)) _ p l1 (qw_heap _ _ Hwf1)) as (h & l2 & -> & Hwf2 & Hp2).
    cbn [mbind option_bind]. destruct (qw_events _ _ Hwf1 p) as [e He]; [left|].
    change (q_events (set_heap q1 h)) with (q_events q1). rewrite He. cbn [mbind option_bind].
    destruct (pending now q l) as [|p0 pl] eqn:El; [by apply Permutation_nil_r in Hp|].
    set (es := <[p := setScheduled e false]> (q_events q1)).
    assert (Et' : ∀ p', ev_timeout <$> es !! p' = ev_timeout <$> q_events q1 !! p').
    { intros p'. unfold es. destruct (decide (p' = p)) as [->|]; [by rewrite lookup_insert_eq, He|by rewrite lookup_insert_ne]. }
    pose proof (fl_index _ _ _ _ (wf_filled _ _ _ (qw_heap _ _ Hwf1)) I) as [Hnd _]. apply NoDup_cons in Hnd as [Hpl _].
    exists p, (set_events (set_heap q1 h) es), l2. split_and!.
    + done.
    + apply (queue_wf_events (set_heap q1 h)); [|done]. split; [done|]. intros p' Hp'.
      apply (qw_events _ _ Hwf1). right. by rewrite <- Hp2.
    + apply Hne. intros ->. rewrite (Hnil eq_refl) in *. pose proof (Hsub p ltac:(left)) as Hx. by apply elem_of_nil in Hx.
    + rewrite <- Hp. f_equiv. rewrite (pending_perm _ _ _ _ Hp2). erewrite pending_ext; [done|]. intros p' Hp'.
      unfold is_pending. cbn. unfold es. rewrite lookup_insert_ne; [done|]. by intros <-.
    + intros p' Hp'. rewrite <- !(timeout_of_ext (q_events q1) (q_events q)) by done.
      apply (front_earliest _ _ l1 _ Hwf1). rewrite <- Hp in Hp'. apply elem_of_cons in Hp' as [->|Hp']; [left|].
      right. unfold pending in Hp'. by apply list_elem_of_filter in Hp' as [_ ?].
    + cbn. unfold es. by rewrite lookup_insert_eq.
    + cbn. congruence.
    + intros p'. apply timeout_of_ext. cbn. by rewrite Et', Et.
Qed.

(** The time the kernel waits for: that of an earliest pending event. *)
Lemma getNextEventTime_spec now tv q l :
  queue_wf q l → requests_ok now (q_cancellations q) → q_shutdownEvent q = false →
  ∃ q' l', queue_wf q' l' ∧ pending now q' l' ≡ₚ pending now q l ∧ q_signal q' = false ∧
    match pending now q l with
    | [] => getNextEventTime now (Some tv) q = Some (EQ_EMPTY, Some tv, q')
    | _ => ∃ p, p ∈ pending now q l ∧
        getNextEventTime now (Some tv) q = Some (EQ_EVENT, Some (timeout_of (q_events q) p), q') ∧
        ∀ p', p' ∈ pending now q l → tv_le (timeout_of (q_events q) p) (timeout_of (q_events q) p') = true
    end.
Proof.
  intros Hwf Hr Hs. cbn [getNextEventTime]. change (q_shutdownEvent (set_signal q false)) with (q_shutdownEvent q). rewrite Hs.
  assert (Hwf0 : queue_wf (set_signal q false) l) by (destruct Hwf; by split).
  destruct (clearCanceledEvents_spec now (set_signal q false) l Hwf0 Hr) as (q1 & l1 & -> & Hwf1 & Hsub & Hp & Hnil & Hne & Es & Esg & Et & Hhd).
  change (pending now (set_signal q false) l) with (pending now q l) in *. cbn [mbind option_bind].
  exists q1, l1. split_and!; [done|done|done|]. unfold empty. rewrite (wf_size _ _ _ (qw_heap _ _ Hwf1)).
  destruct l1 as [|p l1].
  - apply Permutation_nil_l in Hp. rewrite <- Hp. cbn [length Nat.eqb negb]. by rewrite andb_false_r.
  - destruct (pending now q l) as [|p0 pl] eqn:El.
    { apply Permutation_nil_r in Hp. unfold pending in Hp. by rewrite filter_cons_True in Hp. }
    exists p. assert (Hin : p ∈ p0 :: pl).
    { rewrite <- Hp. unfold pending. apply list_elem_of_filter. split; [done|left]. }
    split; [done|]. split.
    + destruct (front_spec True _ p l1 (qw_heap _ _ Hwf1)) as [Hfr _]. cbn [length Nat.eqb negb].
      rewrite bool_decide_eq_true_2 by (intros ->; pose proof (Hsub p ltac:(left)) as Hx; by apply elem_of_nil in Hx).
      cbn [andb]. rewrite Hfr. cbn [mbind option_bind]. destruct (qw_events _ _ Hwf1 p) as [e He]; [left|]. rewrite He.
      cbn [mbind option_bind]. do 3 f_equal. rewrite <- (timeout_of_ext (q_events q1) (q_events q)) by done.
      unfold timeout_of. by rewrite He.
    + intros p' Hp'. rewrite <- !(timeout_of_ext (q_events q1) (q_events q)) by done.
      apply (front_earliest _ _ l1 _ Hwf1). rewrite <- Hp in Hp'. unfold pending in Hp'. by apply list_elem_of_filter in Hp' as [_ ?].
Qed.

(** Taking out [n] events in a row. *)
Fixpoint next_events (n : nat) (now : Timeval) (q : equeue) : option (list nat * equeue) :=
  match n with
  | O => Some ([], q)
  | S n =>
    '(e, q) ← getNextEvent now q;
    '(es, q) ← next_events n now q;
    Some (match e with NextEvent p => p :: es | ShutdownEvent => es end, q)
  end.

(** C28: the queue delivers the pending events, those no request to cancel applies to, and no
    others, each once and in the order of their timeouts; the time the kernel is told to wait for
    is that of the event it gets next, or none when nothing is pending; and asking for one event
    more dereferences the [NULL] pointer that the empty heap answers. *)
Theorem event_queue_delivers now tv q l :
  queue_wf q l → requests_ok now (q_cancellations q) → q_shutdownEvent q = false →
  (∃ r q1, getNextEventTime now (Some tv) q = Some (r, q1) ∧
     r = match pending now q l with [] => (EQ_EMPTY, Some tv) | _ => r end ∧
     ∀ p, p ∈ pending now q l → ∃ t, r = (EQ_EVENT, Some t) ∧ tv_le t (timeout_of (q_events q) p) = true) ∧
  ∃ ps q2, next_events (length (pending now q l)) now q = Some (ps, q2) ∧ ps ≡ₚ pending now q l ∧
    StronglySorted (λ p p', tv_le (timeout_of (q_events q) p) (timeout_of (q_events q) p') = true) ps ∧
    getNextEvent now q2 = None.
Proof.
  intros Hwf Hr Hs. split.
  - destruct (getNextEventTime_spec now tv q l Hwf Hr Hs) as (q1 & l1 & _ & _ & _ & H).
    destruct (pending now q l) as [|p0 pl].
    + eexists _, q1. split_and!; [exact H|done|by intros p ?%elem_of_nil].
    + destruct H as (p & Hp & E & Hmin). eexists _, q1. split_and!; [exact E|done|]. intros p' Hp'. eexists. split; [done|]. by apply Hmin.
  - remember (length (pending now q l)) as n eqn:Hn. revert q l Hn Hwf Hr Hs.
    induction n as [|n IH]; intros q l Hn Hwf Hr Hs; pose proof (getNextEvent_spec now q l Hwf Hr Hs) as H; cbn [next_events].
    + destruct (pending now q l); [|done]. exists [], q. split_and!; try done. constructor.
    + destruct (pending now q l) as [|p0 pl] eqn:El; [done|]. rewrite <- El in *. clear El p0 pl.
      destruct H as (p & q' & l' & E & Hwf' & Hc & Hp & Hmin & _ & Hs' & Ht). rewrite E. cbn [mbind option_bind].
      destruct (IH q' l') as (ps & q2 & E2 & Hps & Hso & Hend); [by rewrite Hp in Hn; injection Hn|done| |done|].
      { rewrite Hc. by intros req after ?%elem_of_nil. }
      rewrite E2. cbn [mbind option_bind]. exists (p :: ps), q2. split_and!; [done|by rewrite Hps, Hp| |done]. constructor.
      * apply (StronglySorted_weaken (λ p p', tv_le (timeout_of (q_events q') p) (timeout_of (q_events q') p') = true)); [|done].
        intros x y. by rewrite !Ht.
      * apply Forall_forall. intros p' Hp'. apply Hmin. rewrite Hp. right. by rewrite <- Hps.
Qed.

(** Adding an event: it joins the others, is marked as scheduled, and the kernel is woken. *)
Lemma addEvent_spec q l p e :
  queue_wf q l → p ∉ l → q_events q !! p = Some e →
  ∃ q' l', addEvent true (Some p) q = Some q' ∧ queue_wf q' l' ∧ l' ≡ₚ p :: l ∧ q_signal q' = true ∧
    q_events q' = <[p := setScheduled e true]> (q_events q) ∧ q_cancellations q' = q_cancellations q.
Proof.
  intros Hwf Hp He. cbn [addEvent].
  pose proof (insert_spec True (compare_greater := compare_greater (q_events q)) true _ l p (qw_heap _ _ Hwf) ltac:(done)) as H.
  rewrite andb_false_r in H. destruct H as (h & l' & -> & Hwf' & Hl). cbn [mbind option_bind]. cbv zeta.
  change (q_events (set_heap q h)) with (q_events q). rewrite He. cbn [mbind option_bind].
  eexists _, l'. split_and!; try done. set (es := <[p := _]> _).
  assert (Hwf1 : queue_wf (set_events (set_heap q h) es) l').
  { apply queue_wf_events.
    - split; [done|]. intros p' Hp'. cbn. rewrite Hl in Hp'. apply elem_of_cons in Hp' as [->|Hp']; [by eexists|]. by apply (qw_events _ _ Hwf).
    - intros p'. unfold es. cbn. destruct (decide (p' = p)) as [->|]; [by rewrite lookup_insert_eq, He|by rewrite lookup_insert_ne]. }
  destruct Hwf1 as [? ?]. by split.
Qed.

(** ** Where the queue surprises *)

(** An empty queue is reported to have an event, unless [clearCanceledEvents] has just emptied it. *)
Lemma hasNextEvent_empty now q :
  queue_wf q [] → q_shutdownEvent q = false → hasNextEvent now q = Some (EQ_EVENT, q).
Proof.
  intros Hwf Hs. unfold hasNextEvent. rewrite Hs. unfold clearCanceledEvents, empty.
  by rewrite (wf_size _ _ _ (qw_heap _ _ Hwf)).
Qed.

(** A request for a data object or a node applies to every event that carries none. *)
Lemma cancel_dataobject_applies_without now d n e :
  ev_dObj e = None → ev_node e = None →
  applies now (Request (-1) (Some d) None None) e = Some true ∧
  applies now (Request (-1) None (Some n) None) e = Some true.
Proof. intros E1 E2. unfold applies. cbn. by rewrite E1, E2. Qed.

(** The last event canceled between the answer "there is an event" and the call that fetches it. *)
Lemma getNextEvent_canceled now q p e :
  queue_wf q [p] → requests_ok now (q_cancellations q) → q_shutdownEvent q = false →
  q_events q !! p = Some e →
  getNextEvent now (cancelEvents (Request (ev_type e) None None None) q) = None.
Proof.
  intros Hwf Hr Hs He. set (q1 := cancelEvents _ q).
  assert (Hwf1 : queue_wf q1 [p]) by (destruct Hwf; by split).
  assert (Hr1 : requests_ok now (q_cancellations q1)).
  { intros req a. cbn. rewrite elem_of_app, list_elem_of_singleton. intros [Hin| ->]; [by apply Hr|done]. }
  pose proof (getNextEvent_spec now q1 [p] Hwf1 Hr1 Hs) as H.
  replace (pending now q1 [p]) with (@nil nat) in H; [done|]. symmetry. unfold pending. apply filter_none.
  constructor; [|constructor]. unfold is_pending. cbn [q1 cancelEvents set_cancellations q_events q_cancellations]. rewrite He.
  replace (matched now _ e) with true; [by rewrite andb_false_r|]. symmetry. unfold matched.
  assert (Hc : ∀ reqs, requests_ok now reqs → canceled_by now (reqs ++ [Request (ev_type e) None None None]) e = Some true).
  { induction reqs as [|r reqs IH]; intros Hreq; cbn [canceled_by app].
    - unfold applies. cbn. by rewrite Z.eqb_refl, andb_false_r.
    - destruct (applies now r e) as [b|] eqn:Ea.
      + cbn [mbind option_bind]. destruct b; [done|]. apply IH. intros r' a Hr'. apply Hreq. by right.
      + assert (Hn : canceled_by now (r :: reqs) e = None) by (cbn [canceled_by]; by rewrite Ea).
        by rewrite canceled_by_matched in Hn. }
  by rewrite Hc.
Qed.
End EventQueue.

(** Two events, one of them canceled by its type. *)
Definition ex_events : gmap nat (event (D := nat) (N := nat)) :=
  <[0%nat := Event 7 (TV 1 0) None None true false]> (<[1%nat := Event 8 (TV 2 0) (Some 5%nat) None true false]> ∅).
Definition ex_queue : equeue :=
  EQueue (HeapT 2 2 [Some 0%nat; Some 1%nat] (<[0%nat := 0]> (<[1%nat := 1]> ∅))) ex_events
    [Request 7 None None (Some (TV 0 1))] false true.

Lemma ex_queue_wf : queue_wf ex_queue [0%nat; 1%nat].
Proof.
  split; [split; [split| |]|].
  - reflexivity.
  - cbn. lia.
  - intros [|[|k]] p _ Hp; cbn in *; try done; by injection Hp as <-.
  - intros _. split; [apply (bool_decide_unpack (NoDup [0%nat; 1%nat])); vm_compute; exact I|].
    intros [|[|k]] p _ Hp; cbn in Hp; try done; injection Hp as <-; vm_compute; reflexivity.
  - reflexivity.
  - intros [|[|k]] a b H1 Ha Hb; cbn in *; try done; try lia. injection Ha as <-; injection Hb as <-. vm_compute. reflexivity.
  - intros p Hp. rewrite !elem_of_cons in Hp. destruct Hp as [->|[->|Hp]]; [by eexists|by eexists|]. by apply elem_of_nil in Hp.
Qed.

Lemma event_queue_delivers_witness :
  pending Nat.eqb Nat.eqb (TV 0 0) ex_queue [0%nat; 1%nat] = [1%nat] ∧
  ∃ ps q2, next_events Nat.eqb Nat.eqb 1 (TV 0 0) ex_queue = Some (ps, q2) ∧ ps ≡ₚ [1%nat] ∧
    getNextEvent Nat.eqb Nat.eqb (TV 0 0) q2 = None.
Proof.
  split; [vm_compute; reflexivity|].
  destruct (event_queue_delivers Nat.eqb Nat.eqb (TV 0 0) (TV 9 9) ex_queue [0%nat; 1%nat] ex_queue_wf) as (_ & ps & q2 & E & Hp & _ & Hend).
  - intros req after Hin Ha. apply list_elem_of_singleton in Hin as ->. injection Ha as <-. by eexists.
  - reflexivity.
  - exists ps, q2. split; [exact E|]. split; [exact Hp|exact Hend].
Defined.
