(* ===== verification/CppString.v ===== *)
(** * CppString: the string class of the kernel ([libcpphaggle/String.cpp]).

    A [String] is a NUL-terminated buffer with its length, so a [string] value here; the buffer
    never holds a NUL inside.  A position is a [nat], and [npos] is [None] where a function can
    answer or receive it; allocation succeeds. *)

From S2P Require Import Prelude Text.

#[local] Open Scope nat_scope.

Definition slen (s : string) : nat := String.length s.

(** The character at an index; reading at the length gives the terminator, beyond it nothing. *)
Definition char_at (s : string) (pos : nat) : option ascii :=
  if pos =? slen s then Some (ascii_of_N 0) else String.get pos s.

(** [s + pos]. *)
Fixpoint from (s : string) (pos : nat) {struct pos} : string :=
  match pos with
  | O => s
  | S pos => match s with String _ s => from s pos | EmptyString => EmptyString end
  end.

(** [strncmp], as the sign of its result. *)
Fixpoint strncmp (s t : string) (n : nat) : Z :=
  match n with
  | O => 0
  | S n =>
    match s, t with
    | EmptyString, EmptyString => 0
    | EmptyString, String _ _ => -1
    | String _ _, EmptyString => 1
    | String a s, String b t =>
      if (byte_of_ascii a <? byte_of_ascii b)%Z then -1
      else if (byte_of_ascii b <? byte_of_ascii a)%Z then 1 else strncmp s t n
    end
  end.

(** [_compare]; a NULL pointer is [None].  [str2_len - 1] wraps around for an empty second string,
    so that the last test of [pos2] only applies to one that is not. *)
Definition _compare (str1 : option string) (pos1 n1 : nat) (str2 : option string) (pos2 n2 : nat) : Z :=
  match str1, str2 with
  | None, _ => -1
  | Some _, None => 1
  | Some s1, Some s2 =>
    if (slen s1 =? 0) && (slen s2 =? 0) then 0%Z
    else if slen s1 =? 0 then -1
    else if (n1 =? 0) || (slen s1 - 1 <? pos1) || (negb (slen s2 =? 0) && (slen s2 - 1 <? pos2)) then -1
    else strncmp (from s1 pos1) (from s2 pos2) (if n2 <? n1 then n1 else n2)
  end.

Definition compare (s str : string) : Z := _compare (Some s) 0 (slen s) (Some str) 0 (slen str).
Definition compare_part (s : string) (pos1 n1 : nat) (str : string) (pos2 n2 : nat) : Z :=
  _compare (Some s) pos1 n1 (Some str) pos2 n2.

Definition string_eq (l r : string) : bool := (compare l r =? 0)%Z.
Definition string_ne (l r : string) : bool := negb (compare l r =? 0)%Z.
Definition string_lt (l r : string) : bool := (compare l r <? 0)%Z.
Definition string_gt (l r : string) : bool := (0 <? compare l r)%Z.
Definition string_le (l r : string) : bool := (compare l r <=? 0)%Z.
Definition string_ge (l r : string) : bool := (0 <=? compare l r)%Z.

(** The two [at]s, up to what they refer to: the shared [nullchar] or an element of the buffer. *)
Definition at_const (s : string) (pos : nat) : option ascii :=
  if negb (slen s =? 0) && (slen s <=? pos) then char_at s pos else Some (ascii_of_N 0).

Definition substr (s : string) (pos : nat) (n : option nat) : string :=
  if slen s <=? pos then EmptyString
  else
    let n := match n with None => slen s - pos | Some n => if slen s - pos <? n then slen s - pos else n end in
    if pos + n <=? slen s then String.substring pos n s else EmptyString.

Definition append (s str : string) : string := if slen str =? 0 then s else s +:+ str.
Definition append_part (s str : string) (pos n : nat) : string :=
  if (n =? 0) || (slen str =? 0) || (slen str <=? pos + n) then s else s +:+ String.substring pos n str.
Definition append_n (s _s : string) (n : nat) : string :=
  if (n =? 0) || (slen _s <? n) then s else s +:+ String.substring 0 n _s.

Fixpoint find_loop (fuel : nat) (s _s : string) (n pos : nat) : option nat :=
  match fuel with
  | O => None
  | S fuel =>
    if pos <=? slen s - n then
      if (strncmp (from s pos) _s n =? 0)%Z then Some pos else find_loop fuel s _s n (S pos)
    else None
  end.
Definition find_n (s _s : string) (pos n : nat) : option nat :=
  if (slen _s <? n) || (slen s <? n) || (slen s - n <=? pos) then None
  else find_loop (S (slen s)) s _s n pos.
Definition find (s str : string) (pos : nat) : option nat := find_n s str pos (slen str).

Fixpoint find_char_loop (fuel : nat) (s : string) (c : ascii) (pos : nat) : option nat :=
  match fuel with
  | O => None
  | S fuel =>
    if pos <? slen s then
      match char_at s pos with
      | Some a => if Ascii.eqb a c then Some pos else find_char_loop fuel s c (S pos)
      | None => None
      end
    else None
  end.
Definition find_char (s : string) (c : ascii) (pos : nat) : option nat :=
  if slen s <=? pos then None else find_char_loop (S (slen s)) s c pos.

Definition erase (s : string) (pos : nat) (n : option nat) : string :=
  if (pos =? 0) && bool_decide (n = None) then EmptyString
  else if slen s <=? pos then s
  else match n with
       | None => String.substring 0 pos s
       | Some n => if slen s <? pos + n then String.substring 0 pos s
                   else String.substring 0 pos s +:+ from s (pos + n)
       end.

Fixpoint count_loop (fuel : nat) (s : string) (c : ascii) (pos count : nat) : nat :=
  match fuel with
  | O => count
  | S fuel =>
    if pos <? slen s then
      count_loop fuel s c (S pos) (if bool_decide (char_at s pos = Some c) then S count else count)
    else count
  end.
Definition count_delimiter (s : string) (c : ascii) : nat := count_loop (S (slen s)) s c 0 0.

(** [find_last_of (_s, pos, n)]: downwards, until the position wraps round to [npos]. *)
Fixpoint char_in (c : ascii) (_s : string) (n : nat) : bool :=
  match n, _s with
  | S n, String a _s => bool_decide (c = a) || char_in c _s n
  | _, _ => false
  end.
Fixpoint find_last_loop (s _s : string) (n pos : nat) : option (option nat) :=
  c ← char_at s pos;
  if char_in c _s n then Some (Some pos)
  else match pos with O => Some None | S pos => find_last_loop s _s n pos end.
Definition find_last_of (s _s : string) (pos : option nat) (n : nat) : option (option nat) :=
  let pos := match pos with None => match slen s with O => None | S p => Some p end | Some _ => pos end in
  match pos with
  | None => Some None
  | Some pos => if (slen s <? pos) || (slen _s <? n) then Some None else find_last_loop s _s n pos
  end.
(** The overload for one character takes its address for a string. *)
Definition find_last_of_char (s : string) (c : ascii) : option (option nat) := find_last_of s (String c EmptyString) None 1.

(** [filepath.substr (filepath.find_last_of ('/') + 1)]: [npos + 1] is zero. *)
Definition after_last (s : string) (c : ascii) : option string :=
  p ← find_last_of_char s c; Some (substr s (match p with Some p => S p | None => 0 end) None).

(** ** The relational operators are the order of the bytes *)

Lemma strncmp_strcmp s t n : slen s <= n → slen t <= n → strncmp s t n = strcmp s t.
Proof.
  revert s t. induction n as [|n IH]; intros s t Hs Ht.
  - by destruct s, t; simpl in *; try lia.
  - destruct s as [|a s], t as [|b t]; simpl in *; try done. by rewrite IH by lia.
Qed.

Lemma slen_zero s : slen s = 0 → s = EmptyString.
Proof. by destruct s. Qed.

Lemma compare_strcmp s t : compare s t = strcmp s t.
Proof.
  unfold compare, _compare. destruct (Nat.eqb_spec (slen s) 0) as [Es|Es].
  - apply slen_zero in Es as ->. destruct (Nat.eqb_spec (slen t) 0) as [Et|Et]; cbn [andb].
    + by apply slen_zero in Et as ->.
    + by destruct t.
  - cbn [andb orb]. destruct (Nat.ltb_spec (slen s - 1) 0); [lia|]. cbn [orb].
    replace (negb (slen t =? 0) && (slen t - 1 <? 0)) with false
      by (destruct (Nat.ltb_spec (slen t - 1) 0); [lia|by rewrite andb_false_r]).
    apply strncmp_strcmp; destruct (Nat.ltb_spec (slen t) (slen s)); lia.
Qed.

(** A strict total order whose equality is that of strings, in the form [Map] uses it. *)
Class KeyOrder {K} (klt keq : K → K → bool) : Prop :=
  { ko_eq : ∀ a b, keq a b = true ↔ a = b;
    ko_irrefl : ∀ a, klt a a = false;
    ko_trans : ∀ a b c, klt a b = true → klt b c = true → klt a c = true;
    ko_total : ∀ a b, klt a b = false → klt b a = false → a = b }.

#[export] Instance string_order : KeyOrder string_lt string_eq.
Proof.
  unfold string_lt, string_eq. split.
  - intros a b. by rewrite Z.eqb_eq, compare_strcmp, strcmp_eq.
  - intros a. rewrite compare_strcmp. assert (E : strcmp a a = 0%Z) by by apply strcmp_eq. by rewrite E.
  - intros a b c. rewrite !compare_strcmp, !Z.ltb_lt. apply strcmp_trans.
  - intros a b. rewrite !compare_strcmp, !Z.ltb_ge, (strcmp_antisym a b). intros. apply strcmp_eq. lia.
Qed.

(** The comparisons of [String] are those of [strcmp], the empty string and the buffers of
    different lengths included: a strict total order, with the six operators consistent with
    each other and [==] true only of equal strings. *)
Theorem string_compare_spec s t :
  compare s t = strcmp s t ∧ compare t s = (- compare s t)%Z ∧
  (string_eq s t = true ↔ s = t) ∧ string_ne s t = negb (string_eq s t) ∧
  string_gt s t = string_lt t s ∧ string_le s t = negb (string_lt t s) ∧ string_ge s t = negb (string_lt s t) ∧
  (∀ u, string_lt s t = true → string_lt t u = true → string_lt s u = true) ∧
  (string_lt s t = false → string_lt t s = false → s = t).
Proof.
  assert (Ha : compare t s = (- compare s t)%Z) by (rewrite !compare_strcmp; apply strcmp_antisym).
  split; [apply compare_strcmp|]. split; [done|]. split; [apply ko_eq|]. split; [done|].
  unfold string_gt, string_le, string_ge. split_and!.
  - unfold string_lt. rewrite Ha. apply eq_true_iff_eq. rewrite !Z.ltb_lt. lia.
  - unfold string_lt. rewrite Ha. apply eq_true_iff_eq. rewrite negb_true_iff, Z.leb_le, Z.ltb_ge. lia.
  - unfold string_lt. apply eq_true_iff_eq. rewrite negb_true_iff, Z.leb_le, Z.ltb_ge. lia.
  - intros u. apply ko_trans.
  - apply ko_total.
Qed.

(** ** Searching *)

(** [t] stands in [s] at position [i]. *)
Definition occurs (s t : string) (i : nat) : Prop := ∃ u, from s i = t +:+ u.

Lemma strncmp_prefix s t : strncmp s t (slen t) = 0%Z ↔ ∃ u, s = t +:+ u.
Proof.
  revert s. induction t as [|b t IH]; intros s; [split; [intros _; by exists s|intros _; by destruct s]|]. destruct s as [|a s]; cbn.
  - split; [done|]. by intros [u ?].
  - destruct (Z.ltb_spec (byte_of_ascii a) (byte_of_ascii b)), (Z.ltb_spec (byte_of_ascii b) (byte_of_ascii a)).
    1-3: split; [done|]; intros [u E]; injection E as -> _; lia.
    rewrite IH. split; intros [u E].
    + exists u. rewrite E. assert (a = b) as ->; [apply byte_of_ascii_inj; lia|done].
    + exists u. by injection E.
Qed.

Lemma find_loop_spec fuel s t : ∀ pos,
  slen s - slen t < pos + fuel → slen t <= slen s →
  match find_loop fuel s t (slen t) pos with
  | Some i => pos <= i <= slen s - slen t ∧ occurs s t i ∧ ∀ j, pos <= j < i → ¬ occurs s t j
  | None => ∀ j, pos <= j <= slen s - slen t → ¬ occurs s t j
  end.
Proof.
  induction fuel as [|fuel IH]; intros pos Hf Ht; cbn [find_loop]; [lia|].
  destruct (Nat.leb_spec pos (slen s - slen t)); [|lia].
  destruct (Z.eqb_spec (strncmp (from s pos) t (slen t)) 0) as [E|E].
  - apply strncmp_prefix in E. split_and!; [lia|lia|done|lia].
  - assert (Hn : ¬ occurs s t pos) by (intros Ho; apply E, strncmp_prefix, Ho).
    specialize (IH (S pos) ltac:(lia) Ht). destruct (find_loop fuel s t (slen t) (S pos)) as [i|].
    + destruct IH as (H1 & H2 & H3). split_and!; [lia|lia|done|]. intros j Hj. destruct (decide (j = pos)) as [->|]; [done|]. apply H3. lia.
    + intros j Hj. destruct (decide (j = pos)) as [->|]; [done|]. apply IH. lia.
Qed.

(** [find] answers the first occurrence from [pos] on, provided that there would be room for
    another one behind [pos]: it does not look when [pos] is the last possible place. *)
Lemma string_find_spec s t pos :
  match find s t pos with
  | Some i => pos <= i ∧ occurs s t i ∧ ∀ j, pos <= j < i → ¬ occurs s t j
  | None => slen s <= pos + slen t ∨ ∀ j, pos <= j → j + slen t <= slen s → ¬ occurs s t j
  end.
Proof.
  unfold find, find_n. destruct (Nat.ltb_spec (slen t) (slen t)); [lia|].
  destruct (Nat.ltb_spec (slen s) (slen t)); [left; lia|].
  destruct (Nat.leb_spec (slen s - slen t) pos); cbn [orb]; [left; lia|].
  pose proof (find_loop_spec (S (slen s)) s t pos ltac:(lia) ltac:(lia)) as H'.
  destruct (find_loop _ s t _ pos) as [i|].
  - destruct H' as (? & ? & ?). split_and!; [lia|done|done].
  - right. intros j Hj Hjl. apply H'. lia.
Qed.

(** So no string is found in itself. *)
Lemma find_self s : find s s 0 = None.
Proof.
  unfold find, find_n. replace (slen s - slen s) with 0 by lia. cbn [Nat.leb]. by rewrite orb_true_r.
Qed.

(** [at] answers the null character at every position that is in range. *)
Lemma at_const_wrong s pos : pos < slen s → at_const s pos = Some (ascii_of_N 0).
Proof.
  intros H. unfold at_const. destruct (Nat.leb_spec (slen s) pos); [lia|]. by rewrite andb_false_r.
Qed.

(** A part that reaches the end of its string is not appended. *)
Lemma append_part_end s str pos n : slen str = pos + n → append_part s str pos n = s.
Proof.
  intros H. unfold append_part. rewrite H, Nat.leb_refl. by rewrite orb_true_r.
Qed.

(** ** Parts of strings *)

Lemma app_assoc_string s t u : (s +:+ t) +:+ u = s +:+ t +:+ u.
Proof. induction s as [|a s IH]; [done|]. change (String a ((s +:+ t) +:+ u) = String a (s +:+ t +:+ u)). by rewrite IH. Qed.

Lemma from_app s t : from (s +:+ t) (slen s) = t.
Proof. induction s as [|a s IH]; [done|exact IH]. Qed.

Lemma substring_prefix s t : String.substring 0 (slen s) (s +:+ t) = s.
Proof. induction s as [|a s IH]; [by destruct t|]. change (String a (String.substring 0 (slen s) (s +:+ t)) = String a s). by rewrite IH. Qed.

Lemma substring_app s t n : String.substring (slen s) n (s +:+ t) = String.substring 0 n t.
Proof. induction s as [|a s IH]; [done|exact IH]. Qed.

Lemma erase_spec s t u :
  u ≠ EmptyString ∨ t ≠ EmptyString →
  erase (s +:+ t +:+ u) (slen s) (Some (slen t)) = s +:+ u.
Proof.
  intros Hu. unfold erase. rewrite bool_decide_eq_false_2 by done. rewrite andb_false_r.
  assert (Hl : slen (s +:+ t +:+ u) = slen s + (slen t + slen u)) by (unfold slen; by rewrite !length_app_string).
  assert (slen t + slen u ≠ 0).
  { destruct Hu as [Hu|Hu]; [destruct u|destruct t]; cbn; done || lia. }
  rewrite Hl. destruct (Nat.leb_spec (slen s + (slen t + slen u)) (slen s)); [lia|].
  destruct (Nat.ltb_spec (slen s + (slen t + slen u)) (slen s + slen t)); [lia|].
  rewrite substring_prefix. f_equal.
  replace (s +:+ t +:+ u) with ((s +:+ t) +:+ u) by apply app_assoc_string.
  replace (slen s + slen t) with (slen (s +:+ t)) by (unfold slen; by rewrite length_app_string). apply from_app.
Qed.

Lemma substr_spec s t u :
  substr (s +:+ t +:+ u) (slen s) (Some (slen t)) = t.
Proof.
  unfold substr.
  assert (Hl : slen (s +:+ t +:+ u) = slen s + (slen t + slen u)) by (unfold slen; by rewrite !length_app_string).
  rewrite Hl. destruct (Nat.leb_spec (slen s + (slen t + slen u)) (slen s)).
  { destruct t; [done|]. cbn in *. lia. }
  destruct (Nat.ltb_spec (slen s + (slen t + slen u) - slen s) (slen t)); [lia|].
  destruct (Nat.leb_spec (slen s + slen t) (slen s + (slen t + slen u))); [|lia].
  by rewrite substring_app, substring_prefix.
Qed.
