(* ===== verification/CppMap.v ===== *)
(** * CppMap: the sorted-array maps of the kernel ([libcpphaggle/Map.h], the classes that are
    compiled when the standard containers are not used).

    A [BasicMap] is an array of pointers to key-value pairs, sorted by key, with the number of
    entries in use and the size it believes the array has; [Map] uses it with one entry per key,
    the attribute container with several.  The array is a list of slots: [None] is a slot that was
    not written, or whose pair was deleted; reading one, or outside the array, has no result.  A
    slot behind the entries is only looked at by [erase] with a key, right after the entries moved
    down, so it still holds the last one.

    Positions are [nat]s.  [npos], the largest value of the type, is [None]: it is what [0 - 1]
    gives, and what an iterator at the end holds. *)

From S2P Require Import Prelude CppString.

#[local] Open Scope nat_scope.

Section BasicMap.
Context {K V : Type} (klt keq : K → K → bool) (vlt : V → V → bool) (default_value : V).

Abbreviation member := (K * V)%type.

Record BasicMap := BMap
  { the_map : list (option member); number_of_entries : nat; map_size : nat }.

Definition bm_new : BasicMap := BMap [] 0 0.
Definition bm_empty (m : BasicMap) : bool := number_of_entries m =? 0.
Definition bm_size (m : BasicMap) : nat := number_of_entries m.
Definition clear (m : BasicMap) : BasicMap := BMap [] 0 0.

(** [the_map[i]], and what it points to. *)
Definition slot (a : list (option member)) (i : nat) : option member := mjoin (a !! i).
Definition write (a : list (option member)) (i : nat) (x : option member) : option (list (option member)) :=
  if i <? length a then Some (<[i := x]> a) else None.

(** [size_type]'s [i - 1]. *)
Definition minus_one (i : nat) : option nat := match i with O => None | S i => Some i end.

(** ** Iterators: [None] is [end()] *)

Definition iterator : Type := option nat.
Definition begin (m : BasicMap) : iterator := if 0 <? number_of_entries m then Some 0 else None.
Definition next (m : BasicMap) (it : iterator) : iterator :=
  match it with
  | Some i => if number_of_entries m <=? S i then None else Some (S i)
  | None => None
  end.
Definition deref (m : BasicMap) (it : iterator) : option member := i ← it; slot (the_map m) i.

(** ** Searching *)

(** The loop of [_find] that goes back to the first entry with the key. *)
Fixpoint backtrack (m : BasicMap) (k : K) (pos : nat) : option nat :=
  match pos with
  | O => Some O
  | S p => x ← slot (the_map m) p; if keq x.1 k then backtrack m k p else Some (S p)
  end.

Fixpoint _find (fuel : nat) (m : BasicMap) (k : K) (left_min : nat) (right_max : option nat)
    (before : nat) (find_first : bool) : option (nat * bool) :=
  match fuel with
  | O => None
  | S fuel =>
    match right_max with
    | None => Some (before, false)
    | Some right_max =>
      if right_max <? left_min then Some (before, false)
      else
        let pos := (right_max - left_min + 1) / 2 + left_min in
        let left_max := minus_one pos in
        let right_min := S pos in
        x ← slot (the_map m) pos;
        if klt x.1 k then _find fuel m k right_min (Some right_max) right_min find_first
        else if klt k x.1 then _find fuel m k left_min left_max pos find_first
        else if find_first then p ← backtrack m k pos; Some (p, true)
        else Some (pos, true)
    end
  end.
Definition _find_key (m : BasicMap) (k : K) (find_first : bool) : option (nat * bool) :=
  _find (S (number_of_entries m)) m k 0 (minus_one (number_of_entries m)) 0 find_first.

Definition find (m : BasicMap) (k : K) : option iterator :=
  '(pos, found) ← _find_key m k true; Some (if found : bool then Some pos else None).
Definition lower_bound (m : BasicMap) (k : K) : option iterator := find m k.

(** The loop of [upper_bound] and [equal_range]. *)
Fixpoint past_key (fuel : nat) (m : BasicMap) (k : K) (it : iterator) : option iterator :=
  match fuel with
  | O => None
  | S fuel =>
    match it with
    | None => Some None
    | Some i => x ← slot (the_map m) i; if keq k x.1 then past_key fuel m k (next m it) else Some it
    end
  end.
Definition upper_bound (m : BasicMap) (k : K) : option iterator :=
  it ← find m k; past_key (S (number_of_entries m)) m k it.
Definition equal_range (m : BasicMap) (k : K) : option (iterator * iterator) :=
  it_low ← find m k; it_high ← past_key (S (number_of_entries m)) m k it_low; Some (it_low, it_high).

(** ** Inserting *)

(** [for (i = n; i > pos; i--) the_map[i] = the_map[i-1];] with [cnt = n - pos]. *)
Fixpoint shift_up (cnt : nat) (a : list (option member)) (i : nat) : option (list (option member)) :=
  match cnt with
  | O => Some a
  | S cnt => v ← a !! (i - 1); a ← write a i v; shift_up cnt a (i - 1)
  end.
(** [new_map[i + d] = the_map[i]] for [cnt] consecutive [i]. *)
Fixpoint copy_slots (cnt : nat) (a new : list (option member)) (i d : nat) : option (list (option member)) :=
  match cnt with
  | O => Some new
  | S cnt => v ← a !! i; new ← write new (i + d) v; copy_slots cnt a new (S i) d
  end.

Definition _insert (m : BasicMap) (pos : iterator) (x : member) : option (iterator * BasicMap) :=
  let n := number_of_entries m in
  i ← pos;
  if n <? map_size m then
    a ← shift_up (n - i) (the_map m) n;
    a ← write a i (Some x);
    Some (pos, BMap a (S n) (map_size m))
  else
    let new_map := replicate (S n) None in
    new_map ← copy_slots i (the_map m) new_map 0 0;
    new_map ← write new_map i (Some x);
    new_map ← copy_slots (n - i) (the_map m) new_map i 1;
    Some (pos, BMap new_map (S n) (S (map_size m))).

Definition insert (m : BasicMap) (x : member) : option (iterator * BasicMap) :=
  '(pos, _) ← _find_key m x.1 true; _insert m (Some pos) x.
Definition insert_unique (m : BasicMap) (x : member) : option (iterator * bool * BasicMap) :=
  '(pos, found) ← _find_key m x.1 false;
  if found : bool then Some (Some pos, false, m)
  else '(it, m) ← _insert m (Some pos) x; Some (it, true, m).
(** The overload with a position. *)
Definition insert_unique_at (m : BasicMap) (pos : iterator) (x : member) : option (iterator * BasicMap) :=
  match pos with
  | Some i =>
    if i <? number_of_entries m then
      y ← slot (the_map m) i; if keq y.1 x.1 then Some (pos, m) else _insert m pos x
    else _insert m pos x
  | None => _insert m pos x
  end.

(** The loop of [insert_sorted]. *)
Fixpoint past_smaller (fuel : nat) (m : BasicMap) (x : member) (it : iterator) : option iterator :=
  match fuel with
  | O => None
  | S fuel =>
    match it with
    | None => Some None
    | Some i =>
      y ← slot (the_map m) i;
      if keq y.1 x.1 && vlt y.2 x.2 then past_smaller fuel m x (next m it) else Some it
    end
  end.
Definition insert_sorted (m : BasicMap) (x : member) : option (iterator * BasicMap) :=
  '(pos, found) ← _find_key m x.1 true;
  it ← (if found : bool then past_smaller (S (number_of_entries m)) m x (Some pos) else Some (Some pos));
  match it with
  | None => _insert m (Some (number_of_entries m)) x
  | Some _ => _insert m it x
  end.

(** ** Erasing *)

(** [for (i = pos + 1; i < n; i++) the_map[i-1] = the_map[i];] with [cnt = n - (pos + 1)]. *)
Fixpoint shift_down (cnt : nat) (a : list (option member)) (i : nat) : option (list (option member)) :=
  match cnt with
  | O => Some a
  | S cnt => v ← a !! i; a ← write a (i - 1) v; shift_down cnt a (S i)
  end.
(** Deleting the pair leaves a dangling pointer in its slot. *)
Definition erase_at (m : BasicMap) (pos : iterator) : option BasicMap :=
  match pos with
  | None => Some m
  | Some i =>
    if number_of_entries m <=? i then Some m
    else
      _ ← slot (the_map m) i;
      a ← write (the_map m) i None;
      a ← shift_down (number_of_entries m - S i) a (S i);
      Some (BMap a (number_of_entries m - 1) (map_size m))
  end.
Fixpoint erase_loop (fuel : nat) (m : BasicMap) (k : K) (it : iterator) (n : nat) : option (nat * BasicMap) :=
  match fuel with
  | O => None
  | S fuel =>
    match it with
    | None => Some (n, m)
    | Some i =>
      x ← slot (the_map m) i;
      if keq x.1 k then
        let tmp := it in
        let it := next m it in
        m ← erase_at m tmp; erase_loop fuel m k it (S n)
      else Some (n, m)
    end
  end.
Definition erase (m : BasicMap) (k : K) : option (nat * BasicMap) :=
  it ← find m k; erase_loop (S (number_of_entries m)) m k it 0.

(** ** The rest *)

(** [operator[]]: the position whose value the reference is to. *)
Definition index (m : BasicMap) (k : K) : option (nat * BasicMap) :=
  '(pos, found) ← _find_key m k false;
  if found : bool then Some (pos, m)
  else '(it, m) ← insert_unique_at m (Some pos) (k, default_value); i ← it; Some (i, m).
(** [m[k] = v]. *)
Definition assign (m : BasicMap) (k : K) (v : V) : option BasicMap :=
  '(i, m) ← index m k;
  x ← slot (the_map m) i; a ← write (the_map m) i (Some (x.1, v)); Some (BMap a (number_of_entries m) (map_size m)).

Definition copy_constructor (m : BasicMap) : option BasicMap :=
  a ← copy_slots (number_of_entries m) (the_map m) (replicate (number_of_entries m) None) 0 0;
  Some (BMap a (number_of_entries m) (number_of_entries m)).
Definition operator_assign (m : BasicMap) : option BasicMap :=
  a ← copy_slots (number_of_entries m) (the_map m) (replicate (number_of_entries m) None) 0 0;
  Some (BMap a (number_of_entries m) (map_size m)).

(** Walking a map from [begin] to [end]. *)
Fixpoint entries_from (fuel : nat) (m : BasicMap) (it : iterator) : option (list member) :=
  match fuel with
  | O => None
  | S fuel =>
    match it with
    | None => Some []
    | Some i => x ← slot (the_map m) i; xs ← entries_from fuel m (next m it); Some (x :: xs)
    end
  end.
Definition entries (m : BasicMap) : option (list member) := entries_from (S (number_of_entries m)) m (begin m).

(** ** Representation *)

(** The map holds the entries [l], and knows the size of its array. *)
Record bm_rep (m : BasicMap) (l : list member) : Prop := BmRep
  { rep_size : number_of_entries m = length l;
    rep_fits : length l <= map_size m;
    rep_honest : map_size m = length (the_map m);
    rep_slots : ∀ i x, l !! i = Some x → the_map m !! i = Some (Some x) }.

(** Keys in order. *)
Definition kle (x y : member) : Prop := klt y.1 x.1 = false.
Definition ksorted (l : list member) : Prop := StronglySorted kle l.

Context `{!KeyOrder klt keq}.

Lemma klt_asym a b : klt a b = true → klt b a = false.
Proof.
  intros H. destruct (klt b a) eqn:E; [|done]. pose proof (ko_trans _ _ _ H E) as H'. by rewrite ko_irrefl in H'.
Qed.
Lemma kle_lt_trans a b c : klt b a = false → klt b c = true → klt a c = true.
Proof.
  intros H1 H2. destruct (klt a b) eqn:E; [by apply (ko_trans _ b)|]. by rewrite (ko_total a b E H1).
Qed.
Lemma klt_le_trans a b c : klt a b = true → klt c b = false → klt a c = true.
Proof.
  intros H1 H2. destruct (klt b c) eqn:E; [by apply (ko_trans _ b)|]. by rewrite <- (ko_total b c E H2).
Qed.
Lemma keq_refl a : keq a a = true.
Proof. by apply ko_eq. Qed.
Lemma keq_false a b : keq a b = false ↔ a ≠ b.
Proof. rewrite <- not_true_iff_false, ko_eq. done. Qed.

Lemma StronglySorted_lookup (R : member → member → Prop) l i j x y :
  StronglySorted R l → i < j → l !! i = Some x → l !! j = Some y → R x y.
Proof.
  intros Hs. revert i j. induction Hs as [|z l _ IH Hz]; intros i j Hij Hi Hj; [done|].
  destruct i as [|i], j as [|j]; try lia; cbn in *; simplify_eq.
  - rewrite Forall_lookup in Hz. by apply (Hz j).
  - by apply (IH i j); [lia|..].
Qed.

Lemma ksorted_lookup l i j x y :
  ksorted l → i <= j → l !! i = Some x → l !! j = Some y → klt y.1 x.1 = false.
Proof.
  intros Hs Hij Hi Hj. destruct (decide (i = j)) as [->|]; [simplify_eq; apply ko_irrefl|].
  by apply (StronglySorted_lookup kle l i j); [|lia|..].
Qed.

Lemma rep_slot m l i x : bm_rep m l → l !! i = Some x → slot (the_map m) i = Some x.
Proof. intros H Hx. unfold slot. by rewrite (rep_slots _ _ H i x). Qed.

(** ** Searching *)

(** Where [_find] says that a key is, or would have to go. *)
Definition before_key (l : list member) (k : K) (p : nat) : Prop := ∀ i x, i < p → l !! i = Some x → klt x.1 k = true.
Definition behind_key (l : list member) (k : K) (p : nat) : Prop := ∀ i x, p <= i → l !! i = Some x → klt k x.1 = true.
Definition found_at (l : list member) (k : K) (find_first : bool) (r : nat * bool) : Prop :=
  if r.2 then (∃ x, l !! r.1 = Some x ∧ x.1 = k) ∧ (find_first = true → before_key l k r.1)
  else r.1 <= length l ∧ before_key l k r.1 ∧ behind_key l k r.1.

Lemma backtrack_spec m l k pos :
  bm_rep m l → ksorted l → (∃ x, l !! pos = Some x ∧ x.1 = k) →
  ∃ p, backtrack m k pos = Some p ∧ (∃ x, l !! p = Some x ∧ x.1 = k) ∧ before_key l k p.
Proof.
  intros Hr Hs. induction pos as [|pos IH]; intros (x & Hx & Hk); cbn [backtrack].
  - exists 0. split_and!; [done|by exists x|]. intros i y Hi. lia.
  - destruct (lookup_lt_is_Some_2 l pos) as [y Hy]; [apply lookup_lt_Some in Hx; lia|].
    rewrite (rep_slot _ _ _ _ Hr Hy). cbn [mbind option_bind]. destruct (keq y.1 k) eqn:E.
    + apply IH. exists y. split; [done|by apply ko_eq].
    + exists (S pos). split_and!; [done|by exists x|]. intros i z Hi Hz. apply keq_false in E.
      pose proof (ksorted_lookup l i pos z y Hs ltac:(lia) Hz Hy) as H1.
      pose proof (ksorted_lookup l pos (S pos) y x Hs ltac:(lia) Hy Hx) as H2. subst k.
      apply (kle_lt_trans _ _ _ H1). destruct (klt y.1 x.1) eqn:E2; [done|]. destruct E. by apply ko_total.
Qed.

(** The number of entries left of the end of the interval that is searched. *)
Definition bound (right_max : option nat) : nat := match right_max with Some r => S r | None => 0 end.

Lemma bound_minus_one p : bound (minus_one p) = p.
Proof. by destruct p. Qed.

Lemma _find_spec m l k ff fuel left_min right_max before :
  bm_rep m l → ksorted l → bound right_max - left_min < fuel → left_min <= bound right_max <= length l →
  before = left_min ∨ before = bound right_max →
  before_key l k left_min → behind_key l k (bound right_max) →
  ∃ r, _find fuel m k left_min right_max before ff = Some r ∧ found_at l k ff r.
Proof.
  intros Hr Hs. revert left_min right_max before.
  induction fuel as [|fuel IH]; intros left_min right_max before Hf Hb Hbe Hlo Hhi; [lia|]. cbn [_find].
  assert (Hempty : bound right_max <= left_min → found_at l k ff (before, false)).
  { intros H. assert (before = left_min ∧ bound right_max = left_min) as [-> E] by lia. unfold found_at. cbn.
    split_and!; [lia|done|]. by rewrite <- E. }
  destruct right_max as [right_max|]; [|eexists; split; [done|apply Hempty; cbn; lia]].
  cbn [bound] in *. destruct (Nat.ltb_spec right_max left_min); [eexists; split; [done|apply Hempty; lia]|].
  set (pos := (right_max - left_min + 1) / 2 + left_min).
  assert (Hpos : left_min <= pos <= right_max).
  { unfold pos. pose proof (Nat.div_mod_eq (right_max - left_min + 1) 2). pose proof (Nat.mod_upper_bound (right_max - left_min + 1) 2). lia. }
  destruct (lookup_lt_is_Some_2 l pos) as [x Hx]; [lia|].
  rewrite (rep_slot _ _ _ _ Hr Hx). cbn [mbind option_bind]. destruct (klt x.1 k) eqn:E1; [|destruct (klt k x.1) eqn:E2].
  - apply IH; cbn [bound]; [lia|lia|by left| |done]. intros i y Hi Hy.
    apply (kle_lt_trans _ x.1); [|done]. by apply (ksorted_lookup l i pos); [done|lia|..].
  - apply IH; rewrite ?bound_minus_one; [lia|lia|by right|done|]. intros i y Hi Hy.
    apply (klt_le_trans _ x.1); [done|]. by apply (ksorted_lookup l pos i).
  - assert (Hk : ∃ y, l !! pos = Some y ∧ y.1 = k) by (exists x; split; [done|by apply ko_total]).
    destruct ff; [|eexists; split; [done|by split]].
    destruct (backtrack_spec m l k pos Hr Hs Hk) as (p & -> & Hp & Hbef). eexists. split; [done|]. by split.
Qed.

Lemma _find_key_spec m l k ff :
  bm_rep m l → ksorted l → ∃ r, _find_key m k ff = Some r ∧ found_at l k ff r.
Proof.
  intros Hr Hs. unfold _find_key. rewrite (rep_size _ _ Hr). apply _find_spec; rewrite ?bound_minus_one; try done.
  - lia.
  - lia.
  - by left.
  - intros i x Hi. lia.
  - intros i x Hi Hx. apply lookup_lt_Some in Hx. lia.
Qed.

(** A key that was not found is not there; one that was is. *)
Lemma found_at_false l k ff p : found_at l k ff (p, false) → ∀ x, x ∈ l → x.1 ≠ k.
Proof.
  intros (_ & H1 & H2) x [i Hi]%list_elem_of_lookup <-. cbn in *. destruct (decide (i < p)).
  - pose proof (H1 i x ltac:(done) Hi) as H. by rewrite ko_irrefl in H.
  - pose proof (H2 i x ltac:(lia) Hi) as H. by rewrite ko_irrefl in H.
Qed.

(** ** Moving slots *)

Lemma write_spec a i v : i < length a → write a i v = Some (<[i := v]> a).
Proof. intros H. unfold write. by destruct (Nat.ltb_spec i (length a)); [|lia]. Qed.

Lemma shift_up_spec cnt a i :
  cnt <= i < length a →
  ∃ a', shift_up cnt a i = Some a' ∧ length a' = length a ∧
    ∀ j, a' !! j = if decide (i - cnt < j <= i) then a !! (j - 1) else a !! j.
Proof.
  revert a i. induction cnt as [|cnt IH]; intros a i Hi; cbn [shift_up].
  - exists a. split_and!; [done|done|]. intros j. by rewrite decide_False by lia.
  - destruct (lookup_lt_is_Some_2 a (i - 1)) as [v Hv]; [lia|]. rewrite Hv. cbn [mbind option_bind].
    rewrite write_spec by lia. cbn [mbind option_bind].
    destruct (IH (<[i := v]> a) (i - 1)) as (a' & -> & Hl & Hj); [rewrite length_insert; lia|].
    exists a'. split_and!; [done|by rewrite Hl, length_insert|]. intros j. rewrite Hj.
    destruct (decide (j = i)) as [->|].
    + rewrite (decide_False (P := i - 1 - cnt < i <= i - 1)), decide_True by lia. by rewrite list_lookup_insert_eq by lia.
    + destruct (decide (i - 1 - cnt < j <= i - 1)).
      * rewrite decide_True by lia. by rewrite list_lookup_insert_ne by lia.
      * rewrite decide_False by lia. by rewrite list_lookup_insert_ne by lia.
Qed.

Lemma copy_slots_spec cnt a new i d :
  i + cnt <= length a → i + d + cnt <= length new →
  ∃ new', copy_slots cnt a new i d = Some new' ∧ length new' = length new ∧
    ∀ j, new' !! j = if decide (i + d <= j < i + d + cnt) then a !! (j - d) else new !! j.
Proof.
  revert new i. induction cnt as [|cnt IH]; intros new i Ha Hn; cbn [copy_slots].
  - exists new. split_and!; [done|done|]. intros j. by rewrite decide_False by lia.
  - destruct (lookup_lt_is_Some_2 a i) as [v Hv]; [lia|]. rewrite Hv. cbn [mbind option_bind].
    rewrite write_spec by lia. cbn [mbind option_bind].
    destruct (IH (<[i + d := v]> new) (S i)) as (new' & -> & Hl & Hj); [lia|rewrite length_insert; lia|].
    exists new'. split_and!; [done|by rewrite Hl, length_insert|]. intros j. rewrite Hj.
    destruct (decide (j = i + d)) as [->|].
    + rewrite (decide_False (P := S i + d <= i + d < S i + d + cnt)), decide_True by lia.
      rewrite list_lookup_insert_eq by lia. rewrite <- Hv. f_equal. lia.
    + rewrite list_lookup_insert_ne by lia.
      destruct (decide (S i + d <= j < S i + d + cnt)); [by rewrite decide_True by lia|by rewrite decide_False by lia].
Qed.

Lemma shift_down_spec cnt a i :
  1 <= i → i + cnt <= length a →
  ∃ a', shift_down cnt a i = Some a' ∧ length a' = length a ∧
    ∀ j, a' !! j = if decide (i - 1 <= j < i - 1 + cnt) then a !! S j else a !! j.
Proof.
  revert a i. induction cnt as [|cnt IH]; intros a i Hi Ha; cbn [shift_down].
  - exists a. split_and!; [done|done|]. intros j. by rewrite decide_False by lia.
  - destruct (lookup_lt_is_Some_2 a i) as [v Hv]; [lia|]. rewrite Hv. cbn [mbind option_bind].
    rewrite write_spec by lia. cbn [mbind option_bind].
    destruct (IH (<[i - 1 := v]> a) (S i)) as (a' & -> & Hl & Hj); [lia|rewrite length_insert; lia|].
    exists a'. split_and!; [done|by rewrite Hl, length_insert|]. intros j. rewrite Hj.
    destruct (decide (j = i - 1)) as [->|].
    + rewrite decide_False, decide_True by lia. rewrite list_lookup_insert_eq by lia. rewrite <- Hv. f_equal. lia.
    + destruct (decide (S i - 1 <= j < S i - 1 + cnt)).
      * rewrite decide_True by lia. by rewrite list_lookup_insert_ne by lia.
      * rewrite decide_False by lia. by rewrite list_lookup_insert_ne by lia.
Qed.

(** ** Inserting and erasing as operations on the entries *)

Definition insert_at (l : list member) (p : nat) (x : member) : list member := take p l ++ x :: drop p l.

Lemma lookup_insert_at l p x j :
  p <= length l → insert_at l p x !! j = if decide (j < p) then l !! j else if decide (j = p) then Some x else l !! (j - 1).
Proof.
  intros Hp. unfold insert_at. destruct (decide (j < p)); [|destruct (decide (j = p)) as [->|]].
  - rewrite lookup_app_l by (rewrite length_take; lia). by rewrite lookup_take_lt.
  - rewrite lookup_app_r by (rewrite length_take; lia). rewrite length_take. by replace (p - p `min` length l) with 0 by lia.
  - rewrite lookup_app_r by (rewrite length_take; lia). rewrite length_take.
    replace (j - p `min` length l) with (S (j - 1 - p)) by lia. change ((x :: drop p l) !! S (j - 1 - p)) with (drop p l !! (j - 1 - p)).
    rewrite lookup_drop. f_equal. lia.
Qed.
Lemma length_insert_at l p x : p <= length l → length (insert_at l p x) = S (length l).
Proof. intros. unfold insert_at. rewrite length_app, length_take. cbn. rewrite length_drop. lia. Qed.
Lemma insert_at_perm l p x : insert_at l p x ≡ₚ x :: l.
Proof. unfold insert_at. by rewrite <- Permutation_middle, take_drop. Qed.

Lemma _insert_spec m l p x :
  bm_rep m l → p <= length l → ∃ m', _insert m (Some p) x = Some (Some p, m') ∧ bm_rep m' (insert_at l p x).
Proof.
  intros [Hn Hf Hh Hs] Hp. unfold _insert. cbn [mbind option_bind]. rewrite Hn.
  assert (Hold : ∀ j y, j < length l → l !! j = Some y → the_map m !! j = Some (Some y)) by (intros; by apply Hs).
  destruct (Nat.ltb_spec (length l) (map_size m)) as [Hlt|Hge].
  - destruct (shift_up_spec (length l - p) (the_map m) (length l)) as (a & -> & Hl & Hj); [lia|]. cbn [mbind option_bind].
    rewrite write_spec by lia. cbn [mbind option_bind]. eexists. split; [done|].
    split; cbn; rewrite ?length_insert_at, ?length_insert by done; [done|lia|lia|].
    intros j y. rewrite lookup_insert_at by done. intros Hy. destruct (decide (j = p)) as [->|].
    + rewrite list_lookup_insert_eq by lia. destruct (decide (p < p)); [lia|]. by injection Hy as ->.
    + rewrite list_lookup_insert_ne by done. rewrite Hj. destruct (decide (j < p)).
      * rewrite decide_False by lia. by apply Hs.
      * apply lookup_lt_Some in Hy as Hlt'. rewrite decide_True by lia. by apply Hs.
  - destruct (copy_slots_spec p (the_map m) (replicate (S (length l)) None) 0 0) as (a1 & -> & Hl1 & Hj1);
      [lia|rewrite length_replicate; lia|]. cbn [mbind option_bind].
    rewrite length_replicate in Hl1. rewrite write_spec by lia. cbn [mbind option_bind].
    destruct (copy_slots_spec (length l - p) (the_map m) (<[p := Some x]> a1) p 1) as (a2 & -> & Hl2 & Hj2);
      [lia|rewrite length_insert; lia|]. cbn [mbind option_bind]. rewrite length_insert in Hl2.
    eexists. split; [done|]. split; cbn; rewrite ?length_insert_at by done; [done|lia|lia|].
    intros j y. rewrite lookup_insert_at by done. intros Hy. rewrite Hj2. destruct (decide (j < p)).
    + rewrite decide_False, list_lookup_insert_ne, Hj1, decide_True by lia. replace (j - 0) with j by lia. by apply Hs.
    + destruct (decide (j = p)) as [->|].
      * rewrite decide_False by lia. rewrite list_lookup_insert_eq by lia. by injection Hy as ->.
      * apply lookup_lt_Some in Hy as Hlt'. rewrite decide_True by lia. by apply Hs.
Qed.

Lemma erase_at_spec m l p x :
  bm_rep m l → l !! p = Some x →
  ∃ m', erase_at m (Some p) = Some m' ∧ bm_rep m' (delete p l) ∧
    (S p < length l → the_map m' !! (length l - 1) = the_map m !! (length l - 1)).
Proof.
  intros [Hn Hf Hh Hs] Hx. apply lookup_lt_Some in Hx as Hp. unfold erase_at. rewrite Hn.
  destruct (Nat.leb_spec (length l) p); [lia|]. unfold slot. rewrite (Hs _ _ Hx). cbn [mbind option_bind mjoin option_join].
  rewrite write_spec by lia. cbn [mbind option_bind].
  destruct (shift_down_spec (length l - S p) (<[p := None]> (the_map m)) (S p)) as (a & -> & Hl & Hj);
    [lia|rewrite length_insert; lia|]. rewrite length_insert in Hl. cbn [mbind option_bind].
  eexists. split; [done|]. cbn [the_map]. replace (S p - 1) with p in Hj by lia. split; [split; cbn|].
  - by rewrite length_delete.
  - rewrite length_delete by done. lia.
  - lia.
  - intros j y Hy. rewrite Hj. destruct (decide (j < p)).
    + rewrite list_lookup_delete_lt in Hy by done. rewrite decide_False by lia. rewrite list_lookup_insert_ne by lia. by apply Hs.
    + rewrite list_lookup_delete_ge in Hy by lia. apply lookup_lt_Some in Hy as Hlt. rewrite decide_True by lia.
      rewrite list_lookup_insert_ne by lia. by apply Hs.
  - intros Hlt. rewrite Hj, decide_False by lia. by rewrite list_lookup_insert_ne by lia.
Qed.

(** ** Sorted insertion *)

Lemma StronglySorted_insert_at (R : member → member → Prop) l p x :
  p <= length l → StronglySorted R l →
  (∀ i y, i < p → l !! i = Some y → R y x) → (∀ i y, p <= i → l !! i = Some y → R x y) →
  StronglySorted R (insert_at l p x).
Proof.
  intros Hp Hs Hlo Hhi. unfold insert_at.
  rewrite <- (take_drop p l) in Hs. apply StronglySorted_app in Hs as (Hc & Ht & Hd).
  assert (Htake : ∀ y, y ∈ take p l → R y x).
  { intros y [i Hi]%list_elem_of_lookup. apply lookup_take_Some in Hi as [Hi Hlt]. by apply (Hlo i). }
  assert (Hdrop : ∀ y, y ∈ drop p l → R x y).
  { intros y [i Hi]%list_elem_of_lookup. rewrite lookup_drop in Hi. by apply (Hhi (p + i)); [lia|]. }
  apply StronglySorted_app. split_and!; [|done|].
  - intros y z Hy [->|Hz]%elem_of_cons; [by apply Htake|by apply Hc].
  - constructor; [done|]. by apply Forall_forall.
Qed.

Lemma find_spec m l k :
  bm_rep m l → ksorted l →
  ∃ it, find m k = Some it ∧
    match it with
    | Some p => (∃ x, l !! p = Some x ∧ x.1 = k) ∧ before_key l k p
    | None => ∀ x, x ∈ l → x.1 ≠ k
    end.
Proof.
  intros Hr Hs. unfold find. destruct (_find_key_spec m l k true Hr Hs) as ([p b] & -> & Hf). cbn [mbind option_bind].
  destruct b; eexists; (split; [done|]).
  - destruct Hf as [Hx Hb]. split; [done|by apply Hb].
  - exact (found_at_false l k true p Hf).
Qed.

(** [insert_unique]: nothing happens to a map that has the key. *)
Lemma insert_unique_spec m l x :
  bm_rep m l → ksorted l →
  ∃ p b m', insert_unique m x = Some (Some p, b, m') ∧
    if b then (∀ y, y ∈ l → y.1 ≠ x.1) ∧ bm_rep m' (insert_at l p x) ∧ p <= length l ∧ ksorted (insert_at l p x)
    else m' = m ∧ ∃ y, l !! p = Some y ∧ y.1 = x.1.
Proof.
  intros Hr Hs. unfold insert_unique. destruct (_find_key_spec m l x.1 false Hr Hs) as ([p b] & -> & Hf).
  cbn [mbind option_bind]. destruct b.
  - exists p, false, m. destruct Hf as [Hx _]. by split_and!.
  - pose proof (found_at_false _ _ _ _ Hf) as Hno. destruct Hf as (Hp & Hlo & Hhi). cbn in Hp, Hlo, Hhi.
    destruct (_insert_spec m l p x Hr Hp) as (m' & -> & Hr'). cbn [mbind option_bind].
    exists p, true, m'. split_and!; try done. apply StronglySorted_insert_at; try done.
    + intros i y Hi Hy. apply klt_asym. by apply (Hlo i).
    + intros i y Hi Hy. apply klt_asym. by apply (Hhi i).
Qed.

(** The order of the pairs: by key, then by value. *)
Class ValueOrder : Prop :=
  { vo_asym : ∀ a b, vlt a b = true → vlt b a = false;
    vo_trans : ∀ a b c, vlt b a = false → vlt c b = false → vlt c a = false }.
Definition ple (x y : member) : Prop := klt x.1 y.1 = true ∨ x.1 = y.1 ∧ vlt y.2 x.2 = false.

Lemma ple_kle x y : ple x y → kle x y.
Proof. unfold ple, kle. intros [H|[H _]]; [by apply klt_asym|]. rewrite H. apply ko_irrefl. Qed.

Lemma ple_trans `{!ValueOrder} x y z : ple x y → ple y z → ple x z.
Proof.
  unfold ple. intros [H1|[E1 H1]] [H2|[E2 H2]].
  - left. by apply (ko_trans _ y.1).
  - left. by rewrite <- E2.
  - left. by rewrite E1.
  - right. split; [congruence|]. by apply (vo_trans _ y.2).
Qed.

Lemma next_spec m l i : bm_rep m l → next m (Some i) = if decide (S i < length l) then Some (S i) else None.
Proof.
  intros Hr. cbn [next]. rewrite (rep_size _ _ Hr). destruct (Nat.leb_spec (length l) (S i)); [by rewrite decide_False by lia|by rewrite decide_True by lia].
Qed.

Lemma past_smaller_spec m l x fuel i :
  bm_rep m l → length l - i < fuel → i < length l →
  ∃ it, past_smaller fuel m x (Some i) = Some it ∧
    let q := from_option id (length l) it in
    i <= q <= length l ∧ (∀ j y, i <= j < q → l !! j = Some y → y.1 = x.1 ∧ vlt y.2 x.2 = true) ∧
    (∀ y, l !! q = Some y → it = Some q ∧ ¬ (y.1 = x.1 ∧ vlt y.2 x.2 = true)).
Proof.
  intros Hr. revert i. induction fuel as [|fuel IH]; intros i Hf Hi; [lia|]. cbn [past_smaller].
  destruct (lookup_lt_is_Some_2 l i Hi) as [y Hy]. rewrite (rep_slot _ _ _ _ Hr Hy). cbn [mbind option_bind].
  destruct (keq y.1 x.1 && vlt y.2 x.2) eqn:E.
  - apply andb_true_iff in E as [E1 E2]. apply ko_eq in E1. rewrite (next_spec _ _ _ Hr).
    destruct (decide (S i < length l)).
    + destruct (IH (S i)) as (it & -> & Hq & Hlo & Hhi); [lia|done|]. exists it. cbv zeta. split_and!; [done|lia|lia| |done].
      intros j z Hj Hz. destruct (decide (j = i)) as [->|]; [by simplify_eq|]. by apply (Hlo j); [lia|].
    + destruct fuel; [lia|]. exists None. cbv zeta. cbn. split_and!; [done|lia|lia| |].
      * intros j z Hj Hz. assert (j = i) as -> by lia. by simplify_eq.
      * intros z Hz. apply lookup_lt_Some in Hz. lia.
  - exists (Some i). cbv zeta. cbn. split_and!; [done|lia|lia| |].
    + intros j z Hj. lia.
    + intros z Hz. split; [done|]. simplify_eq. apply not_true_iff_false in E. by rewrite andb_true_iff, ko_eq in E.
Qed.

(** [insert_sorted] keeps the pairs in order and drops none. *)
Lemma insert_sorted_spec `{!ValueOrder} m l x :
  bm_rep m l → StronglySorted ple l →
  ∃ p m' l', insert_sorted m x = Some (Some p, m') ∧ bm_rep m' l' ∧ l' ≡ₚ x :: l ∧ StronglySorted ple l'.
Proof.
  intros Hr Hs. assert (Hks : ksorted l) by (apply (StronglySorted_weaken ple); [apply ple_kle|done]).
  unfold insert_sorted. destruct (_find_key_spec m l x.1 true Hr Hks) as ([p b] & -> & Hf). cbn [mbind option_bind].
  assert (Hins : ∀ q, q <= length l → (∀ i y, i < q → l !! i = Some y → ple y x) → (∀ i y, q <= i → l !! i = Some y → ple x y) →
    ∃ p m' l', _insert m (Some q) x = Some (Some p, m') ∧ bm_rep m' l' ∧ l' ≡ₚ x :: l ∧ StronglySorted ple l').
  { intros q Hq Hlo Hhi. destruct (_insert_spec m l q x Hr Hq) as (m' & E & Hr').
    exists q, m', (insert_at l q x). split_and!; [done|done|apply insert_at_perm|by apply StronglySorted_insert_at]. }
  destruct b.
  - destruct Hf as [(x0 & Hx0 & Hk0) Hbef]. cbn in Hx0, Hbef. specialize (Hbef eq_refl). apply lookup_lt_Some in Hx0 as Hlt.
    rewrite (rep_size _ _ Hr).
    destruct (past_smaller_spec m l x (S (length l)) p Hr ltac:(lia) Hlt) as (it & -> & Hq & Hlo & Hhi). cbn [mbind option_bind].
    set (q := from_option id (length l) it) in *.
    assert (Hlow : ∀ i y, i < q → l !! i = Some y → ple y x).
    { intros i y Hi Hy. destruct (decide (i < p)); [left; by apply (Hbef i)|]. destruct (Hlo i y ltac:(lia) Hy). right. split; [done|by apply vo_asym]. }
    assert (Hhigh : ∀ i y, q <= i → l !! i = Some y → ple x y).
    { intros i y Hi Hy. destruct (lookup_lt_is_Some_2 l q) as [z Hz]; [apply lookup_lt_Some in Hy; lia|].
      destruct (Hhi z Hz) as [_ Hn].
      assert (Hxz : ple x z).
      { pose proof (ksorted_lookup l p q x0 z Hks ltac:(lia) Hx0 Hz) as Hle. rewrite Hk0 in Hle. unfold ple.
        destruct (klt x.1 z.1) eqn:E; [by left|]. right. pose proof (ko_total _ _ E Hle). split; [done|].
        destruct (vlt z.2 x.2) eqn:E2; [|done]. by destruct Hn. }
      destruct (decide (i = q)) as [->|]; [by simplify_eq|]. apply (ple_trans _ z); [done|].
      by apply (StronglySorted_lookup ple l q i); [|lia|..]. }
    destruct it as [q'|]; cbn in q; subst q; [by apply Hins; [lia|..]|by apply Hins].
  - destruct Hf as (Hp & Hlo & Hhi). cbn in Hp, Hlo, Hhi. cbn [mbind option_bind]. apply Hins; [done| |].
    + intros i y Hi Hy. left. by apply (Hlo i).
    + intros i y Hi Hy. left. by apply (Hhi i).
Qed.

(** ** Ranges, erasing and walking *)

Lemma past_key_spec m l k fuel i :
  bm_rep m l → length l - i < fuel → i < length l →
  ∃ it, past_key fuel m k (Some i) = Some it ∧
    let q := from_option id (length l) it in
    i <= q <= length l ∧ (∀ j y, i <= j < q → l !! j = Some y → y.1 = k) ∧
    (∀ y, l !! q = Some y → y.1 ≠ k) ∧ it = (if decide (q < length l) then Some q else None).
Proof.
  intros Hr. revert i. induction fuel as [|fuel IH]; intros i Hf Hi; [lia|]. cbn [past_key].
  destruct (lookup_lt_is_Some_2 l i Hi) as [y Hy]. rewrite (rep_slot _ _ _ _ Hr Hy). cbn [mbind option_bind].
  destruct (keq k y.1) eqn:E.
  - apply ko_eq in E. rewrite (next_spec _ _ _ Hr). destruct (decide (S i < length l)).
    + destruct (IH (S i)) as (it & -> & Hq & Hlo & Hhi & Hend); [lia|done|]. exists it. cbv zeta. split_and!; [done|lia|lia| |done|done].
      intros j z Hj Hz. destruct (decide (j = i)) as [->|]; [by simplify_eq|]. by apply (Hlo j); [lia|].
    + destruct fuel; [lia|]. exists None. cbv zeta. cbn. split_and!; [done|lia|lia| | |by rewrite decide_False by lia].
      * intros j z Hj Hz. assert (j = i) as -> by lia. by simplify_eq.
      * intros z Hz. apply lookup_lt_Some in Hz. lia.
  - exists (Some i). cbv zeta. cbn. split_and!; [done|lia|lia| | |by rewrite decide_True by lia].
    + intros j z Hj. lia.
    + intros z Hz. simplify_eq. apply keq_false in E. congruence.
Qed.

(** [equal_range]: exactly the entries with the key lie between the two iterators. *)
Lemma equal_range_spec m l k :
  bm_rep m l → ksorted l →
  ∃ lo hi, equal_range m k = Some (lo, hi) ∧
    match lo with
    | Some p => let q := from_option id (length l) hi in
        p < q <= length l ∧ (∀ j y, l !! j = Some y → y.1 = k ↔ p <= j < q) ∧ hi = (if decide (q < length l) then Some q else None)
    | None => hi = None ∧ ∀ x, x ∈ l → x.1 ≠ k
    end.
Proof.
  intros Hr Hs. unfold equal_range. destruct (find_spec m l k Hr Hs) as (lo & -> & Hlo). cbn [mbind option_bind].
  destruct lo as [p|]; [|by eexists _, _].
  destruct Hlo as [(x & Hx & Hk) Hbef]. apply lookup_lt_Some in Hx as Hlt. rewrite (rep_size _ _ Hr).
  destruct (past_key_spec m l k (S (length l)) p Hr ltac:(lia) Hlt) as (hi & -> & Hq & Hin & Hend & Hhi). cbn [mbind option_bind].
  exists (Some p), hi. cbv zeta in *. set (q := from_option id (length l) hi) in *.
  assert (p ≠ q) by (intros Epq; destruct (Hend x); [by rewrite <- Epq|done]).
  split_and!; [done|lia|lia| |done].
  - intros j y Hy. split.
    + intros Hyk. destruct (decide (j < p)) as [Hjp|].
      { pose proof (Hbef j y Hjp Hy) as H'. by rewrite Hyk, ko_irrefl in H'. }
      destruct (decide (q <= j)); [|lia]. destruct (lookup_lt_is_Some_2 l q) as [z Hz]; [apply lookup_lt_Some in Hy; lia|].
      destruct (Hend z Hz). pose proof (ksorted_lookup l q j z y Hs ltac:(lia) Hz Hy) as H1.
      pose proof (ksorted_lookup l p q x z Hs ltac:(lia) Hx Hz) as H2. apply ko_total; congruence.
    + intros Hj. by apply (Hin j).
Qed.

Lemma entries_spec m l : bm_rep m l → entries m = Some l.
Proof.
  intros Hr. unfold entries, begin. rewrite (rep_size _ _ Hr).
  cut (∀ fuel i, length l - i < fuel → i <= length l →
    entries_from fuel m (if decide (i < length l) then Some i else None) = Some (drop i l)).
  { intros H. specialize (H (S (length l)) 0 ltac:(lia) ltac:(lia)). rewrite drop_0 in H.
    destruct (Nat.ltb_spec 0 (length l)); [by rewrite decide_True in H by lia|by rewrite decide_False in H by lia]. }
  induction fuel as [|fuel IH]; intros i Hf Hi; [lia|]. cbn [entries_from]. destruct (decide (i < length l)) as [Hlt|].
  - destruct (lookup_lt_is_Some_2 l i Hlt) as [x Hx]. rewrite (rep_slot _ _ _ _ Hr Hx). cbn [mbind option_bind].
    rewrite (next_spec _ _ _ Hr), IH by lia. cbn [mbind option_bind]. by rewrite (drop_S _ _ _ Hx).
  - by rewrite drop_ge by lia.
Qed.

(** Erasing a key that occurs once. *)
Lemma erase_loop_unique m l k p x :
  bm_rep m l → l !! p = Some x → x.1 = k → (∀ j y, l !! j = Some y → y.1 = k → j = p) →
  ∃ m', erase_loop (S (length l)) m k (Some p) 0 = Some (1, m') ∧ bm_rep m' (delete p l).
Proof.
  intros Hr Hx Hk Hu. apply lookup_lt_Some in Hx as Hp. destruct (length l) as [|n] eqn:Hn; [lia|].
  cbn [erase_loop]. rewrite (rep_slot _ _ _ _ Hr Hx). cbn [mbind option_bind]. rewrite (proj2 (ko_eq _ _) Hk). cbv zeta.
  destruct (erase_at_spec m l p x Hr Hx) as (m' & -> & Hr' & Hstale). cbn [mbind option_bind].
  exists m'. split; [|done]. rewrite (next_spec _ _ _ Hr). destruct (decide (S p < length l)); [|done].
  destruct (lookup_lt_is_Some_2 l (S p)) as [y Hy]; [done|].
  assert (Hslot : ∃ j z, slot (the_map m') (S p) = Some z ∧ l !! j = Some z ∧ j ≠ p).
  { destruct (decide (S (S p) < length l)) as [Hlt|].
    - destruct (lookup_lt_is_Some_2 l (S (S p)) Hlt) as [z Hz]. exists (S (S p)), z. split_and!; [|done|lia].
      apply (rep_slot _ (delete p l)); [done|]. rewrite list_lookup_delete_ge by lia. done.
    - exists (S p), y. split_and!; [|done|lia]. unfold slot. assert (Hlen : S p = length l - 1) by lia.
      rewrite Hlen, Hstale by done. rewrite <- Hlen. by rewrite (rep_slots _ _ Hr _ _ Hy). }
  destruct Hslot as (j & z & -> & Hz & Hne). cbn [mbind option_bind].
  assert (Ef : keq z.1 k = false) by (apply keq_false; intros Ez; by apply Hne, (Hu j z)).
  by rewrite Ef.
Qed.

Lemma copy_constructor_spec m l : bm_rep m l → ∃ m', copy_constructor m = Some m' ∧ bm_rep m' l.
Proof.
  intros [Hn Hf Hh Hs]. unfold copy_constructor. rewrite Hn.
  destruct (copy_slots_spec (length l) (the_map m) (replicate (length l) None) 0 0) as (a & -> & Hl & Hj);
    [lia|rewrite length_replicate; lia|]. cbn [mbind option_bind]. rewrite length_replicate in Hl.
  eexists. split; [done|]. split; cbn; [done|done|done|]. intros i x Hx. rewrite Hj. apply lookup_lt_Some in Hx as Hi.
  rewrite decide_True by lia. rewrite Nat.sub_0_r. by apply Hs.
Qed.
End BasicMap.

(** ** [Map] is a finite map *)

Inductive map_op {K V : Type} := MInsert (k : K) (v : V) | MErase (k : K) | MFind (k : K)
  | MAssign (k : K) (v : V) | MSize | MClear | MEntries.
Inductive map_result {K V : Type} := MBool (b : bool) | MCount (n : nat) | MValue (v : option V)
  | MPairs (l : list (K * V)) | MUnit.
Arguments map_op : clear implicits.
Arguments map_result : clear implicits.

Section Map.
Context {K V : Type} (klt keq : K → K → bool) (default_value : V).
Context `{!KeyOrder klt keq, Countable K}.

(** One call of a [Map], whose [insert] is [insert_unique]. *)
Definition map_call (m : @BasicMap K V) (o : map_op K V) : option (map_result K V * BasicMap) :=
  match o with
  | MInsert k v => '(_, b, m) ← insert_unique klt keq m (k, v); Some (MBool b, m)
  | MErase k => '(n, m) ← erase klt keq m k; Some (MCount n, m)
  | MFind k =>
    it ← find klt keq m k;
    match it with
    | None => Some (MValue None, m)
    | Some _ => x ← deref m it; Some (MValue (Some x.2), m)
    end
  | MAssign k v => m ← assign klt keq default_value m k v; Some (MUnit, m)
  | MSize => Some (MCount (bm_size m), m)
  | MClear => Some (MUnit, clear m)
  | MEntries => l ← entries m; Some (MPairs l, m)
  end.
Fixpoint map_calls (m : @BasicMap K V) (ops : list (map_op K V)) : option (list (map_result K V) * BasicMap) :=
  match ops with
  | [] => Some ([], m)
  | o :: ops => '(r, m) ← map_call m o; '(rs, m) ← map_calls m ops; Some (r :: rs, m)
  end.

(** The specification. *)
Definition map_spec (M : gmap K V) (o : map_op K V) (r : map_result K V) (M' : gmap K V) : Prop :=
  match o with
  | MInsert k v => r = MBool (bool_decide (M !! k = None)) ∧ M' = match M !! k with None => <[k := v]> M | _ => M end
  | MErase k => r = MCount (match M !! k with None => 0 | _ => 1 end) ∧ M' = delete k M
  | MFind k => r = MValue (M !! k) ∧ M' = M
  | MAssign k v => r = MUnit ∧ M' = <[k := v]> M
  | MSize => r = MCount (base.size M) ∧ M' = M
  | MClear => r = MUnit ∧ M' = ∅
  | MEntries => M' = M ∧ ∃ l, r = MPairs l ∧ l ≡ₚ map_to_list M ∧ StronglySorted (λ x y, klt x.1 y.1 = true) l
  end.
Inductive map_specs : gmap K V → list (map_op K V) → list (map_result K V) → Prop :=
  | map_specs_nil M : map_specs M [] []
  | map_specs_cons M o r M' os rs : map_spec M o r M' → map_specs M' os rs → map_specs M (o :: os) (r :: rs).

Record map_wf (m : @BasicMap K V) (l : list (K * V)) (M : gmap K V) : Prop := MapWf
  { mw_rep : bm_rep m l; mw_sorted : ksorted klt l; mw_nodup : NoDup l.*1; mw_map : list_to_map l = M }.

Lemma map_wf_lookup m l M k v : map_wf m l M → M !! k = Some v ↔ (k, v) ∈ l.
Proof. intros [_ _ Hnd <-]. by rewrite elem_of_list_to_map. Qed.

Lemma map_wf_absent m l M k : map_wf m l M → (∀ x, x ∈ l → x.1 ≠ k) → M !! k = None.
Proof.
  intros Hwf Hno. destruct (M !! k) as [v|] eqn:E; [|done]. apply (map_wf_lookup _ _ _ _ _ Hwf) in E.
  by destruct (Hno _ E).
Qed.

Lemma map_wf_found m l M k p x : map_wf m l M → l !! p = Some x → x.1 = k → M !! k = Some x.2.
Proof.
  intros Hwf Hx <-. apply (map_wf_lookup _ _ _ _ _ Hwf). destruct x. by apply list_elem_of_lookup_2 in Hx.
Qed.

(** A list with the same pairs represents the same map. *)
Lemma map_wf_perm m l l' : bm_rep m l' → ksorted klt l' → NoDup l.*1 → l' ≡ₚ l → map_wf m l' (list_to_map l).
Proof.
  intros Hr Hs Hnd Hp. split; [done|done|by rewrite Hp|]. apply list_to_map_proper; [by rewrite Hp|done].
Qed.

Lemma map_wf_insert m l M p k v :
  map_wf m l M → (∀ x, x ∈ l → x.1 ≠ k) → ∀ m', bm_rep m' (insert_at l p (k, v)) → ksorted klt (insert_at l p (k, v)) →
  map_wf m' (insert_at l p (k, v)) (<[k := v]> M).
Proof.
  intros [_ _ Hnd <-] Hno m' Hr Hs. apply (map_wf_perm m' ((k, v) :: l)); [done|done| |apply insert_at_perm].
  constructor; [|done]. intros (x & E & Hx)%list_elem_of_fmap. by apply (Hno x Hx).
Qed.

Lemma map_insert_call m l M k v :
  map_wf m l M → ∃ r m' l' M', map_call m (MInsert k v) = Some (r, m') ∧ map_wf m' l' M' ∧ map_spec M (MInsert k v) r M'.
Proof.
  intros Hwf. cbn [map_call map_spec].
  destruct (insert_unique_spec klt keq m l (k, v) (mw_rep _ _ _ Hwf) (mw_sorted _ _ _ Hwf)) as (p & b & m' & -> & Hb).
  cbn [mbind option_bind]. destruct b.
  - destruct Hb as (Hno & Hr & Hp & Hs). rewrite (map_wf_absent _ _ _ k Hwf Hno).
    eexists _, m', _, _. split_and!; [done|by apply (map_wf_insert m)|done|done].
  - destruct Hb as (-> & y & Hy & Hk). rewrite (map_wf_found _ _ _ k _ _ Hwf Hy Hk). by eexists _, m, l, M.
Qed.

Lemma map_erase_call m l M k :
  map_wf m l M → ∃ r m' l' M', map_call m (MErase k) = Some (r, m') ∧ map_wf m' l' M' ∧ map_spec M (MErase k) r M'.
Proof.
  intros Hwf. cbn [map_call map_spec]. unfold erase.
  destruct (find_spec klt keq m l k (mw_rep _ _ _ Hwf) (mw_sorted _ _ _ Hwf)) as (it & -> & Hit). cbn [mbind option_bind].
  rewrite (rep_size _ _ (mw_rep _ _ _ Hwf)). destruct it as [p|].
  - destruct Hit as [(x & Hx & Hk) _]. rewrite (map_wf_found _ _ _ k _ _ Hwf Hx Hk).
    destruct (erase_loop_unique klt keq m l k p x (mw_rep _ _ _ Hwf) Hx Hk) as (m' & -> & Hr').
    { intros j y Hj Hyk. apply (NoDup_lookup l.*1 j p k); [apply (mw_nodup _ _ _ Hwf)|..];
        rewrite list_lookup_fmap; [rewrite Hj|rewrite Hx]; cbn; congruence. }
    cbn [mbind option_bind]. pose proof (delete_Permutation l p x Hx) as Hp.
    assert (Hnd : NoDup ((x :: delete p l).*1)) by (rewrite <- Hp; apply (mw_nodup _ _ _ Hwf)).
    cbn [fmap list_fmap] in Hnd. apply NoDup_cons in Hnd as [Hnx Hnd].
    eexists _, m', (delete p l), _. split_and!; [done| |done|done]. split; [done| |done|].
    + unfold ksorted. pose proof (mw_sorted _ _ _ Hwf) as Hs. unfold ksorted in Hs.
      rewrite <- (take_drop_middle l p x Hx) in Hs. rewrite delete_take_drop.
      apply StronglySorted_app in Hs as (Hc & Ht & Hd). apply StronglySorted_cons in Hd as [_ Hd].
      apply StronglySorted_app. split_and!; [|done|done]. intros a b Ha Hb. apply Hc; [done|by right].
    + rewrite <- (mw_map _ _ _ Hwf). rewrite (list_to_map_proper l (x :: delete p l)) by (apply (mw_nodup _ _ _ Hwf) || done).
      destruct x as [k' v]. cbn in Hk. subst k'. rewrite list_to_map_cons, delete_insert_id; [done|]. by apply not_elem_of_list_to_map_1.
  - rewrite (map_wf_absent _ _ _ k Hwf Hit). cbn [erase_loop mbind option_bind].
    eexists _, m, l, _. split_and!; [done|exact Hwf|done|]. symmetry. apply delete_id. by apply (map_wf_absent m l).
Qed.

(** Writing the value of an entry. *)
Lemma write_entry (m : @BasicMap K V) l p x y :
  bm_rep m l → l !! p = Some x →
  ∃ a, write (the_map m) p (Some y) = Some a ∧ bm_rep (BMap a (number_of_entries m) (map_size m)) (<[p := y]> l).
Proof.
  intros [Hn Hf Hh Hs] Hx. apply lookup_lt_Some in Hx as Hp. rewrite write_spec by lia. eexists. split; [done|].
  split; cbn; rewrite ?length_insert; try done. intros i z Hz. destruct (decide (i = p)) as [->|].
  - rewrite list_lookup_insert_eq in Hz by done. rewrite list_lookup_insert_eq by lia. by injection Hz as ->.
  - rewrite list_lookup_insert_ne in Hz by done. rewrite list_lookup_insert_ne by done. by apply Hs.
Qed.

Lemma insert_same_keys (l : list (K * V)) p x y : l !! p = Some x → x.1 = y.1 → (<[p := y]> l).*1 = l.*1.
Proof.
  intros Hx Hk. rewrite list_fmap_insert, <- Hk. apply list_insert_id. by rewrite list_lookup_fmap, Hx.
Qed.

(** Being sorted is a matter of the keys. *)
Lemma ksorted_keys (l l' : list (K * V)) : l.*1 = l'.*1 → ksorted klt l → ksorted klt l'.
Proof.
  intros E Hs. revert l' E. unfold ksorted. induction Hs as [|x l _ IH Hx]; intros [|y l'] E; try done; [constructor|].
  injection E as E1 E2. change (l.*1 = l'.*1) in E2. constructor; [by apply IH|]. apply Forall_forall. intros z Hz. rewrite Forall_forall in Hx.
  assert (Hzk : z.1 ∈ l.*1) by (rewrite E2; apply list_elem_of_fmap; by exists z).
  apply list_elem_of_fmap in Hzk as (w & Hw & Hwl). pose proof (Hx w Hwl) as H'. unfold kle in *. congruence.
Qed.

Lemma map_wf_assign (m : @BasicMap K V) l M p k v x m' :
  map_wf m l M → l !! p = Some x → x.1 = k → bm_rep m' (<[p := (k, v)]> l) → map_wf m' (<[p := (k, v)]> l) (<[k := v]> M).
Proof.
  intros [Hr Hs Hnd <-] Hx Hk Hr'. assert (Hkeys : (<[p := (k, v)]> l).*1 = l.*1) by (by apply (insert_same_keys _ _ x)).
  split; [done|by apply (ksorted_keys l)|by rewrite Hkeys|]. clear Hr Hs Hr' Hkeys.
  destruct (list_elem_of_split_length _ _ _ Hx) as (l1 & l2 & -> & ->). destruct x as [k' v']. cbn in Hk. subst k'.
  rewrite insert_app_r_alt, Nat.sub_diag by done.
  assert (Hsame : ∀ w, list_to_map (M := gmap K V) (l1 ++ (k, w) :: l2) = <[k := w]> (list_to_map (l1 ++ l2))).
  { intros w. rewrite (list_to_map_proper _ ((k, w) :: l1 ++ l2)); [done| |by rewrite Permutation_middle].
    rewrite fmap_app, fmap_cons in *. exact Hnd. }
  change (<[0 := (k, v)]> ((k, v') :: l2)) with ((k, v) :: l2). by rewrite !Hsame, insert_insert_eq.
Qed.

Lemma map_assign_call m l M k v :
  map_wf m l M → ∃ m' l', assign klt keq default_value m k v = Some m' ∧ map_wf m' l' (<[k := v]> M).
Proof.
  intros Hwf. unfold assign, index.
  destruct (_find_key_spec klt keq m l k false (mw_rep _ _ _ Hwf) (mw_sorted _ _ _ Hwf)) as ([p b] & -> & Hf). cbn [mbind option_bind].
  destruct b.
  - destruct Hf as [(x & Hx & Hk) _]. cbn in Hx. cbn [mbind option_bind]. rewrite (rep_slot _ _ _ _ (mw_rep _ _ _ Hwf) Hx). cbn [mbind option_bind].
    destruct (write_entry m l p x (x.1, v) (mw_rep _ _ _ Hwf) Hx) as (a & -> & Hr'). cbn [mbind option_bind].
    eexists _, _. split; [done|]. rewrite Hk in Hr'. by apply (map_wf_assign m l M p k v x).
  - pose proof (found_at_false klt keq l k false p Hf) as Hno. destruct Hf as (Hp & Hlo & Hhi). cbn in Hp, Hlo, Hhi.
    assert (Hins : insert_unique_at keq m (Some p) (k, default_value) = _insert m (Some p) (k, default_value)).
    { cbn [insert_unique_at]. rewrite (rep_size _ _ (mw_rep _ _ _ Hwf)). destruct (Nat.ltb_spec p (length l)) as [Hlt|]; [|done].
      destruct (lookup_lt_is_Some_2 l p Hlt) as [y Hy]. rewrite (rep_slot _ _ _ _ (mw_rep _ _ _ Hwf) Hy). cbn [mbind option_bind].
      assert (Ef : keq y.1 k = false) by (apply (keq_false klt keq), Hno; by apply list_elem_of_lookup_2 in Hy).
      cbn [fst]. by rewrite Ef. }
    rewrite Hins. destruct (_insert_spec m l p (k, default_value) (mw_rep _ _ _ Hwf) Hp) as (m1 & -> & Hr1). cbn [mbind option_bind].
    assert (Hx1 : insert_at l p (k, default_value) !! p = Some (k, default_value)).
    { rewrite lookup_insert_at by done. rewrite decide_False by lia. by rewrite decide_True. }
    rewrite (rep_slot _ _ _ _ Hr1 Hx1). cbn [mbind option_bind fst].
    destruct (write_entry m1 _ p _ (k, v) Hr1 Hx1) as (a & -> & Hr'). cbn [mbind option_bind].
    assert (Hwf1 : map_wf m1 (insert_at l p (k, default_value)) (<[k := default_value]> M)).
    { apply (map_wf_insert m l); [done|done|done|]. apply StronglySorted_insert_at; [done|apply (mw_sorted _ _ _ Hwf)|..].
      - intros i y Hi Hy. apply (klt_asym klt keq). by apply (Hlo i).
      - intros i y Hi Hy. apply (klt_asym klt keq). by apply (Hhi i). }
    eexists _, _. split; [done|]. rewrite <- (insert_insert_eq M k v default_value).
    by apply (map_wf_assign m1 (insert_at l p (k, default_value)) _ p k v (k, default_value)).
Qed.

(** C23: [Map] is a finite map: starting from an empty one, any sequence of insertions, erasures,
    lookups, assignments through [operator[]], walks and clearings returns, stays inside the array,
    and gives the answers of the mathematical map (an insertion keeps the value of a key that is
    there, an erasure counts what it removes); a walk visits every pair once, in the order of the
    keys. *)
Theorem map_refines ops : ∃ rs m, map_calls bm_new ops = Some (rs, m) ∧ map_specs ∅ ops rs.
Proof.
  assert (H0 : map_wf bm_new [] ∅).
  { split; [split; cbn; try done; lia|constructor|constructor|done]. }
  revert H0. generalize (@bm_new K V) ([] : list (K * V)) (∅ : gmap K V).
  induction ops as [|o ops IH]; intros m l M Hwf; cbn [map_calls]; [exists [], m; split; [done|constructor]|].
  assert (Hstep : ∃ r m' l' M', map_call m o = Some (r, m') ∧ map_wf m' l' M' ∧ map_spec M o r M').
  { pose proof (mw_rep _ _ _ Hwf) as Hr. pose proof (mw_sorted _ _ _ Hwf) as Hs. pose proof (mw_nodup _ _ _ Hwf) as Hnd.
    destruct o as [k v|k|k|k v| | |].
    - by apply map_insert_call with l.
    - by apply map_erase_call with l.
    - cbn [map_call map_spec]. destruct (find_spec klt keq m l k Hr Hs) as (it & -> & Hit). cbn [mbind option_bind].
      destruct it as [p|].
      + destruct Hit as [(x & Hx & Hk) _]. cbn [deref mbind option_bind]. rewrite (rep_slot _ _ _ _ Hr Hx). cbn [mbind option_bind].
        rewrite (map_wf_found _ _ _ k _ _ Hwf Hx Hk). by eexists _, m, l, M.
      + rewrite (map_wf_absent _ _ _ k Hwf Hit). by eexists _, m, l, M.
    - cbn [map_call map_spec]. destruct (map_assign_call m l M k v Hwf) as (m' & l' & -> & Hwf'). cbn [mbind option_bind].
      by eexists _, m', l', _.
    - cbn [map_call map_spec]. eexists _, m, l, M. split_and!; try done. f_equal. unfold bm_size.
      by rewrite (rep_size _ _ Hr), <- (mw_map _ _ _ Hwf), map_size_list_to_map.
    - cbn [map_call map_spec]. eexists _, _, [], ∅. split_and!; try done. split; [split; cbn; try done; lia|constructor|constructor|done].
    - cbn [map_call map_spec]. rewrite (entries_spec m l Hr). cbn [mbind option_bind]. eexists _, m, l, M. split_and!; try done.
      exists l. split_and!; [done| |].
      + rewrite <- (mw_map _ _ _ Hwf). symmetry. by apply map_to_list_to_map.
      + clear -Hs Hnd KeyOrder0. unfold ksorted in Hs. induction Hs as [|x l _ IH Hx]; [constructor|]. apply NoDup_cons in Hnd as [Hnx Hnd].
        constructor; [by apply IH|]. rewrite Forall_forall in *. intros y Hy. pose proof (Hx y Hy) as Hle. unfold kle in Hle.
        destruct (klt x.1 y.1) eqn:E; [done|]. destruct Hnx. rewrite (ko_total _ _ E Hle). apply list_elem_of_fmap. by exists y. }
  destruct Hstep as (r & m' & l' & M' & -> & Hwf' & Hsp). cbn [mbind option_bind].
  destruct (IH m' l' M' Hwf') as (rs & m'' & -> & Hsps). cbn [mbind option_bind]. exists (r :: rs), m''.
  split; [done|]. by econstructor.
Qed.
End Map.

(** ** Where the containers surprise *)

(** With two entries of a key, [erase] removes one and answers two: the iterator is moved on before
    the entries move down. *)
Lemma erase_duplicates :
  ∃ m m', map_calls Nat.ltb Nat.eqb 0 bm_new [MInsert 1 10] = Some ([MBool true], m) ∧
  ∃ it m2, insert Nat.ltb Nat.eqb m (1, 11) = Some (it, m2) ∧
  erase Nat.ltb Nat.eqb m2 1 = Some (2, m') ∧ entries m' = Some [(1, 10)].
Proof. eexists _, _. split; [vm_compute; reflexivity|]. eexists _, _. split; [vm_compute; reflexivity|]. split; vm_compute; reflexivity. Qed.

(** [operator=] copies the size of the other array but allocates only its entries: after an erasure
    the copy takes the next insertion for one that fits, and writes behind its array. *)
Lemma operator_assign_overflow :
  ∃ m, map_calls Nat.ltb Nat.eqb 0 bm_new [MInsert 1 10; MInsert 2 20; MErase 1] = Some ([MBool true; MBool true; MCount 1], m) ∧
  ∃ m', operator_assign m = Some m' ∧ map_call Nat.ltb Nat.eqb 0 m' (MInsert 3 30) = None ∧
  map_call Nat.ltb Nat.eqb 0 m (MInsert 3 30) ≠ None.
Proof.
  eexists. split; [vm_compute; reflexivity|]. eexists. split; [vm_compute; reflexivity|].
  split; [vm_compute; reflexivity|]. vm_compute. discriminate.
Qed.

(** ** Witness *)

(** A map from strings, as the parameters of a metadata node are kept. *)
Lemma map_refines_witness :
  ∃ m : @BasicMap string string,
    map_calls string_lt string_eq "" bm_new
      [MInsert "name" "Picture"; MInsert "id" "7"; MInsert "name" "Film"; MAssign "id" "8"; MFind "id"; MErase "name"; MEntries]
    = Some ([MBool true; MBool true; MBool false; MUnit; MValue (Some "8"%string); MCount 1; MPairs [("id", "8")%string]], m) ∧
  ∃ rs, map_specs string_lt (∅ : gmap string string)
          [MInsert "name" "Picture"; MInsert "id" "7"; MInsert "name" "Film"; MAssign "id" "8"; MFind "id"; MErase "name"; MEntries]%string rs.
Proof.
  destruct (map_refines string_lt string_eq ""%string
    [MInsert "name" "Picture"; MInsert "id" "7"; MInsert "name" "Film"; MAssign "id" "8"; MFind "id"; MErase "name"; MEntries]%string)
    as (rs & m & E & H).
  eexists. split; [vm_compute; reflexivity|]. exists rs. exact H.
Defined.
