(* ===== verification/CppList.v ===== *)
(** * CppList: the doubly linked list of the kernel ([List.h]).

    A [List] is its counter and the objects in its ring of nodes; the counter is what [empty]
    and [clear] go by.  Deleting the head of the ring as if it were a node has no result. *)

From S2P Require Import Prelude.

#[local] Open Scope nat_scope.

Section CppList.
Context {T : Type}.

Record List := CList { l_size : nat; l_items : list T }.

Definition l_new : List := CList 0 [].
Definition empty (l : List) : bool := l_size l =? 0.
Definition size (l : List) : nat := l_size l.

(** Iterators are positions in the ring; the head, [end ()], is at the end. *)
Definition end_ (l : List) : nat := length (l_items l).

Definition insert (l : List) (it : nat) (obj : T) : nat * List :=
  (it, CList (S (l_size l)) (take it (l_items l) ++ obj :: drop it (l_items l))).
Definition push_front (l : List) (obj : T) : List := CList (S (l_size l)) (obj :: l_items l).
Definition push_back (l : List) (obj : T) : List := CList (S (l_size l)) (l_items l ++ [obj]).

(** [delete head.next] and [delete head.prev] *)
Definition pop_front (l : List) : option List :=
  if empty l then Some l
  else match l_items l with [] => None | _ :: items => Some (CList (l_size l - 1) items) end.
Definition pop_back (l : List) : option List :=
  if empty l then Some l
  else match l_items l with [] => None | items => Some (CList (l_size l - 1) (take (length items - 1) items)) end.

(** The iterator that [erase] answers is the one after the node deleted. *)
Definition erase (l : List) (it : nat) : nat * List :=
  if negb (empty l) && negb (it =? end_ l)
  then (it, CList (l_size l - 1) (take it (l_items l) ++ drop (S it) (l_items l)))
  else (end_ l, l).

(** [remove], over the operator [==] of the objects. *)
Fixpoint remove_loop (eq : T → T → bool) (val : T) (size : nat) (items : list T) : nat * list T :=
  match items with
  | [] => (size, [])
  | x :: items =>
    if eq x val then remove_loop eq val (size - 1) items
    else let '(size, items) := remove_loop eq val size items in (size, x :: items)
  end.
Definition remove (eq : T → T → bool) (l : List) (value : T) : List :=
  let '(size, items) := remove_loop eq value (l_size l) (l_items l) in CList size items.

Fixpoint clear_loop (fuel : nat) (l : List) : option List :=
  match fuel with
  | O => None
  | S fuel => if empty l then Some l else l ← pop_front l; clear_loop fuel l
  end.
Definition clear (l : List) : option List := clear_loop (S (l_size l)) l.

(** The copy constructor starts with the size of the original, and then appends. *)
Definition copy_constructor (l : List) : List := fold_left push_back (l_items l) (CList (l_size l) []).
Definition operator_assign (this l : List) : option List :=
  this ← clear this; Some (fold_left push_back (l_items l) this).
Definition destructor (l : List) : option List := clear l.

(** ** The counter is the length *)

Definition counted (l : List) : Prop := l_size l = length (l_items l).

Lemma push_all_run xs l : fold_left push_back xs l = CList (l_size l + length xs) (l_items l ++ xs).
Proof.
  revert l. induction xs as [|x xs IH]; intros [n items]; cbn; [by rewrite Nat.add_0_r, app_nil_r|].
  rewrite IH. cbn. f_equal; [lia|]. by rewrite <- app_assoc.
Qed.

Lemma clear_run l : counted l → clear l = Some l_new.
Proof.
  unfold counted, clear. destruct l as [n items]. cbn [l_size l_items]. intros ->.
  induction items as [|x items IH]; [done|]. cbn [length]. rewrite <- IH. cbn. by rewrite Nat.sub_0_r.
Qed.

Lemma remove_loop_run eq val n items :
  remove_loop eq val n items =
    (n - length (List.filter (λ x, eq x val) items), List.filter (λ x, negb (eq x val)) items).
Proof.
  revert n. induction items as [|x items IH]; intros n; cbn [remove_loop List.filter]; [by rewrite Nat.sub_0_r|].
  rewrite !IH. destruct (eq x val); cbn [negb length]; [|done]. f_equal. lia.
Qed.

Lemma filter_lengths (f : T → bool) items :
  length (List.filter f items) + length (List.filter (λ x, negb (f x)) items) = length items.
Proof. induction items as [|x items IH]; [done|]. cbn. destruct (f x); cbn; lia. Qed.

(** Every operation but the copy constructor keeps the counter right, and does on the sequence
    what its name says. *)
Lemma list_operations eq l x it :
  counted l → it <= length (l_items l) →
  counted (push_front l x) ∧ counted (push_back l x) ∧ counted (insert l it x).2 ∧ counted (erase l it).2 ∧
  (it < length (l_items l) → l_items (erase l it).2 = delete it (l_items l)) ∧
  (∃ l', pop_front l = Some l' ∧ counted l' ∧ l_items l' = tail (l_items l)) ∧
  (∃ l', pop_back l = Some l' ∧ counted l' ∧ l_items l' = take (length (l_items l) - 1) (l_items l)) ∧
  (counted (remove eq l x) ∧ l_items (remove eq l x) = List.filter (λ y, negb (eq y x)) (l_items l)).
Proof.
  destruct l as [n items]. unfold counted. cbn [l_size l_items]. intros -> Hit. split_and!.
  - done.
  - cbn. rewrite length_app. cbn. lia.
  - cbn. rewrite length_app, length_take. cbn. rewrite length_drop. lia.
  - unfold erase, empty, end_. cbn [l_size l_items].
    destruct (Nat.eqb_spec (length items) 0), (Nat.eqb_spec it (length items)); try done.
    cbn [negb andb snd l_size l_items]. rewrite length_app, length_take, length_drop. lia.
  - unfold erase, empty, end_. cbn [l_size l_items]. intros Hlt.
    destruct (Nat.eqb_spec (length items) 0), (Nat.eqb_spec it (length items)); try lia.
    cbn [negb andb snd l_items]. by rewrite delete_take_drop.
  - destruct items as [|y items]; cbn; [by eexists|]. eexists. split_and!; [done| |done]. cbn. lia.
  - destruct items as [|y items]; cbn [pop_back empty l_size length Nat.eqb]; [by eexists|]. eexists. split_and!; [done| |done].
    cbn [l_size l_items]. rewrite length_take. cbn. lia.
  - unfold remove. rewrite remove_loop_run. cbn [l_size l_items]. pose proof (filter_lengths (λ y, eq y x) items). cbn beta in *. lia.
  - unfold remove. by rewrite remove_loop_run.
Qed.

Lemma operator_assign_run this l : counted this → operator_assign this l = Some (CList (length (l_items l)) (l_items l)).
Proof. intros H. unfold operator_assign. rewrite (clear_run _ H). cbn [mbind option_bind]. by rewrite push_all_run. Qed.

(** The copy of a list with elements counts them twice: destroying it (or popping it empty)
    deletes the head inside the list object itself. *)
Lemma list_copy_destroyed l :
  counted l → l_items l ≠ [] →
  l_items (copy_constructor l) = l_items l ∧ l_size (copy_constructor l) = 2 * length (l_items l) ∧
  destructor (copy_constructor l) = None.
Proof.
  destruct l as [n items]. unfold counted, copy_constructor, destructor, clear. cbn [l_size l_items]. intros -> Hne.
  rewrite push_all_run. cbn [l_size l_items app]. split_and!; [done|lia|].
  assert (H : ∀ fuel k, length items < k → clear_loop fuel (CList k items) = None).
  { clear Hne. induction items as [|x items IH]; intros [|fuel] k Hk; cbn [length] in Hk; try done; cbn [clear_loop];
      unfold empty; cbn [l_size]; destruct (Nat.eqb_spec k 0); try lia.
    - unfold pop_front, empty. cbn [l_size l_items]. by destruct (Nat.eqb_spec k 0).
    - unfold pop_front, empty. cbn [l_size l_items]. destruct (Nat.eqb_spec k 0); [lia|]. cbn [mbind option_bind]. apply IH. lia. }
  apply H. destruct items; [done|]. cbn. lia.
Qed.
End CppList.
#[global] Arguments List : clear implicits.
