(* ===== verification/CppHashMap.v ===== *)
(** * CppHashMap: the hash table of the kernel ([HashMap.h]), which keeps the children of metadata.

    A table of buckets, each a [List] of pairs, kept here as its sequence; an iterator names a
    bucket and a position in it, and carries the index of the bucket it believes to be in, as in
    the code.  The hash function of the keys is a parameter of the table; [Hash_string] is the one
    for strings.  A read outside the table has no result. *)

From S2P Require Import Prelude CppString.

(** ** Hashing *)

(** [unsigned int] arithmetic; [*start] is a [char], which is signed. *)
Definition BITS_IN_int : Z := 32.
Definition THREE_QUARTERS : Z := BITS_IN_int * 3 / 4.
Definition ONE_EIGHTH : Z := BITS_IN_int / 8.
Definition HIGH_BITS : Z := u32 (Z.lnot (Z.shiftr (2 ^ 32 - 1) ONE_EIGHTH)).
Definition s8 (c : ascii) : Z := let n := Z.of_nat (nat_of_ascii c) in if n <? 128 then n else n - 256.

Definition hash_step (hash_value : Z) (c : Z) : Z :=
  let hash_value := u32 (u32 (Z.shiftl hash_value ONE_EIGHTH) + c) in
  let i := Z.land hash_value HIGH_BITS in
  if negb (i =? 0)
  then Z.land (Z.lxor hash_value (Z.shiftr i THREE_QUARTERS)) (u32 (Z.lnot HIGH_BITS)) else hash_value.
(** [generic_hash] with an [end], over the characters between. *)
Fixpoint generic_hash (hash_value : Z) (s : string) : Z :=
  match s with EmptyString => hash_value | String c s => generic_hash (hash_step hash_value (s8 c)) s end.
Definition Hash_string (k : string) : Z := generic_hash 0 k.

Definition ms_primes : list Z :=
  [7; 13; 29; 53; 97; 193; 389; 769; 1543; 3079; 6151; 12289; 24593; 49157; 98317; 196613; 393241; 786433;
   1572869; 3145739; 6291469; 12582917; 25165843; 50331653; 100663319; 201326611; 402653189; 805306457;
   1610612741; 3221225473; 4294967291].
Fixpoint first_above (n : Z) (primes : list Z) : Z :=
  match primes with [] => 0 | p :: primes => if n <? p then p else first_above n primes end.
Definition getPrime (n : Z) : Z := first_above n ms_primes.

(** ** The table *)

Record HashMap {K V : Type} := HMap { hm_size : Z; table_size : Z; table : list (list (K * V)) }.
#[global] Arguments HashMap : clear implicits.
#[global] Arguments HMap {K V}.

(** The iterator [iterator (m, table_index, it)]; the list iterator is a bucket and a position,
    the end of the bucket's list being its length. *)
Record hm_iterator := HIt { table_index : nat; it_bucket : nat; it_pos : nat }.

Section HashMap.
Context {K V : Type} (hash : K → Z) (keq : K → K → bool).
Abbreviation map := (HashMap K V).

(** [new ListType[table_size]] *)
Definition hm_sized (tsize : Z) : map :=
  let n := getPrime tsize in HMap 0 n (replicate (Z.to_nat n) []).
Definition hm_new : map := HMap 0 7 (replicate 7 []).
Definition hm_empty (m : map) : bool := hm_size m =? 0.

Definition getIndex (m : map) (k : K) : nat := Z.to_nat (hash k mod table_size m).

(** [operator==] compares the list iterators only. *)
Definition it_eq (it1 it2 : hm_iterator) : bool :=
  (it_bucket it1 =? it_bucket it2)%nat && (it_pos it1 =? it_pos it2)%nat.

(** [it++] of a list iterator: the ring leads from the head to the first node. *)
Definition list_next (b : list (K * V)) (p : nat) : nat := if (p =? length b)%nat then O else S p.

Fixpoint next_bucket (fuel : nat) (m : map) (it : hm_iterator) : option hm_iterator :=
  match fuel with
  | O => None
  | S fuel =>
    let ti := S (table_index it) in
    if Z.of_nat ti <? table_size m then
      b ← table m !! ti;
      let it := HIt ti ti O in
      if negb (length b =? 0)%nat then Some it else next_bucket fuel m it
    else Some (HIt ti (it_bucket it) (it_pos it))
  end.
Definition find_next_filled_bucket (m : map) (it : hm_iterator) : option hm_iterator :=
  if Z.of_nat (table_index it) <? table_size m then
    b ← table m !! it_bucket it;
    let it := HIt (table_index it) (it_bucket it) (list_next b (it_pos it)) in
    t ← table m !! table_index it;
    if it_eq it (HIt 0 (table_index it) (length t)) then next_bucket (S (length (table m))) m it else Some it
  else Some it.
Definition hm_begin (m : map) : option hm_iterator :=
  b ← table m !! O;
  if (length b =? 0)%nat then find_next_filled_bucket m (HIt 0 0 0) else Some (HIt 0 0 0).
Definition hm_end (m : map) : option hm_iterator :=
  let ti := Z.to_nat (table_size m - 1) in
  b ← table m !! ti; Some (HIt ti ti (length b)).
Definition hm_deref (m : map) (it : hm_iterator) : option (K * V) :=
  b ← table m !! it_bucket it; b !! it_pos it.

(** A walk from [it] to [last]. *)
Fixpoint hm_walk (fuel : nat) (m : map) (it last : hm_iterator) : option (list (K * V)) :=
  match fuel with
  | O => None
  | S fuel =>
    if it_eq it last then Some []
    else
      x ← hm_deref m it; it ← find_next_filled_bucket m it;
      l ← hm_walk fuel m it last; Some (x :: l)
  end.
Definition hm_entries (m : map) : option (list (K * V)) :=
  first ← hm_begin m; last ← hm_end m; hm_walk (S (Z.to_nat (hm_size m))) m first last.

(** ** Inserting *)

(** The two loops over the bucket of [k]: past the last entry with the key, else the end. *)
Fixpoint run_end (k : K) (b : list (K * V)) : nat :=
  match b with [] => O | x :: b => if keq k x.1 then S (run_end k b) else O end.
Fixpoint insert_pos (k : K) (b : list (K * V)) : nat :=
  match b with [] => O | x :: b' => if keq k x.1 then run_end k b else S (insert_pos k b') end.

Definition set_bucket (m : map) (i : nat) (b : list (K * V)) (size : Z) : option map :=
  if (i <? length (table m))%nat then Some (HMap size (table_size m) (<[i := b]> (table m))) else None.
Definition put_entry (m : map) (x : K * V) : option (hm_iterator * map) :=
  let i := getIndex m x.1 in
  b ← table m !! i;
  let p := insert_pos x.1 b in
  m ← set_bucket m i (take p b ++ x :: drop p b) (hm_size m + 1);
  Some (HIt i i p, m).

(** [insert] and [grow] call each other; the fuel counts the nesting. *)
Fixpoint insert_all (ins : map → K * V → option (hm_iterator * map)) (m : map) (l : list (K * V)) : option map :=
  match l with
  | [] => Some m
  | x :: l => '(_, m) ← ins m x; insert_all ins m l
  end.
Definition grow_with (ins : map → K * V → option (hm_iterator * map)) (m : map) : option map :=
  let new_size := getPrime (table_size m + 1) in
  if (new_size =? 0) || (new_size <=? table_size m) then Some m
  else l ← hm_entries m; insert_all ins (hm_sized new_size) l.
Fixpoint hm_insert (fuel : nat) (m : map) (x : K * V) : option (hm_iterator * map) :=
  m ← (if table_size m <? hm_size m + 1
       then match fuel with O => None | S fuel => grow_with (hm_insert fuel) m end
       else Some m);
  put_entry m x.
Definition insert (m : map) (x : K * V) : option (hm_iterator * map) := hm_insert 1 m x.

(** ** Searching *)

Fixpoint key_pos (k : K) (b : list (K * V)) : option nat :=
  match b with [] => None | x :: b => if keq k x.1 then Some O else S <$> key_pos k b end.
Definition find (m : map) (k : K) : option hm_iterator :=
  let i := getIndex m k in
  b ← table m !! i;
  match key_pos k b with Some p => Some (HIt i i p) | None => hm_end m end.
Definition lower_bound (m : map) (k : K) : option hm_iterator := find m k.

(** The loop of [upper_bound] and [equal_range]. *)
Fixpoint past_key (fuel : nat) (m : map) (k : K) (it : hm_iterator) : option hm_iterator :=
  match fuel with
  | O => None
  | S fuel =>
    last ← hm_end m;
    if it_eq it last then Some it
    else
      x ← hm_deref m it;
      if keq k x.1 then it ← find_next_filled_bucket m it; past_key fuel m k it else Some it
  end.
Definition upper_bound (m : map) (k : K) : option hm_iterator :=
  it ← find m k; past_key (S (Z.to_nat (hm_size m))) m k it.
Definition equal_range (m : map) (k : K) : option (hm_iterator * hm_iterator) :=
  it_low ← find m k; it_high ← past_key (S (Z.to_nat (hm_size m))) m k it_low; Some (it_low, it_high).

(** ** Removing *)

Definition erase_at (m : map) (pos : hm_iterator) : option map :=
  b ← table m !! table_index pos;
  set_bucket m (table_index pos) (delete (it_pos pos) b) (hm_size m - 1).
Fixpoint erase_loop (k : K) (b : list (K * V)) : nat * list (K * V) :=
  match b with
  | [] => (O, [])
  | x :: b => let '(n, b) := erase_loop k b in if keq x.1 k then (S n, b) else (n, x :: b)
  end.
Definition erase (m : map) (k : K) : option (nat * map) :=
  let i := getIndex m k in
  b ← table m !! i;
  let '(n, b) := erase_loop k b in
  m ← set_bucket m i b (hm_size m - Z.of_nat n); Some (n, m).
Definition clear (m : map) : map := HMap 0 (table_size m) (replicate (length (table m)) []).
End HashMap.

(** ** Walking *)

#[local] Open Scope nat_scope.

Section Walk.
Context {K V : Type}.
Abbreviation map := (HashMap K V).

(** The table is as long as it says, and not empty. *)
Definition sized (m : map) : Prop := Z.of_nat (length (table m)) = table_size m ∧ 0 < length (table m).

(** The iterator has the entries [r] before it. *)
Definition points (m : map) (it : hm_iterator) (r : list (K * V)) : Prop :=
  (r = [] ∧ ∃ b, table m !! (length (table m) - 1) = Some b ∧ it_bucket it = length (table m) - 1 ∧ it_pos it = length b) ∨
  (∃ i p b, it = HIt i i p ∧ table m !! i = Some b ∧ p < length b ∧ r = drop p b ++ concat (drop (S i) (table m))).

Lemma concat_drop (t : list (list (K * V))) i b : t !! i = Some b → concat (drop i t) = b ++ concat (drop (S i) t).
Proof. intros H. by rewrite (drop_S _ _ _ H). Qed.

Lemma sized_get m i : sized m → i < length (table m) → ∃ b, table m !! i = Some b.
Proof. intros _ H. by apply lookup_lt_is_Some. Qed.

Lemma index_lt m i : sized m → (Z.of_nat i <? table_size m)%Z = (i <? length (table m)).
Proof. intros [H _]. destruct (Nat.ltb_spec i (length (table m))); lia. Qed.

Lemma next_bucket_points m fuel i it b :
  sized m → table m !! i = Some b → it = HIt i i (length b) → length (table m) - i <= fuel →
  ∃ it', next_bucket fuel m it = Some it' ∧ points m it' (concat (drop (S i) (table m))).
Proof.
  intros Hs. revert i it b. induction fuel as [|fuel IH]; intros i it b Hb -> Hf; apply lookup_lt_Some in Hb as Hi; [lia|].
  cbn [next_bucket table_index]. rewrite index_lt by done. destruct (Nat.ltb_spec (S i) (length (table m))) as [Hlt|Hge].
  - destruct (sized_get m (S i) Hs Hlt) as [b' Hb']. rewrite Hb'. cbn [mbind option_bind].
    rewrite (concat_drop _ _ _ Hb'). destruct (Nat.eqb_spec (length b') 0) as [E|E]; cbn [negb].
    + apply nil_length_inv in E as ->. apply (IH (S i) _ []); [done|done|lia].
    + eexists. split; [done|]. right. exists (S i), 0, b'. split_and!; [done|done|lia|by rewrite drop_0].
  - eexists. split; [done|]. left. rewrite drop_ge by lia. split; [done|]. exists b. cbn.
    replace (length (table m) - 1) with i by lia. done.
Qed.

Lemma next_points m it x r :
  sized m → points m it (x :: r) →
  hm_deref m it = Some x ∧ ∃ it', find_next_filled_bucket m it = Some it' ∧ points m it' r.
Proof.
  intros Hs [[? _]|(i & p & b & -> & Hb & Hp & Hr)]; [done|].
  destruct (lookup_lt_is_Some_2 b p Hp) as [y Hy]. rewrite (drop_S _ _ _ Hy) in Hr. cbn in Hr. injection Hr as -> ->.
  unfold hm_deref. cbn [it_bucket it_pos]. rewrite Hb. cbn [mbind option_bind]. split; [done|].
  unfold find_next_filled_bucket. cbn [table_index it_bucket it_pos]. apply lookup_lt_Some in Hb as Hi.
  rewrite index_lt by done. rewrite (proj2 (Nat.ltb_lt _ _) Hi), Hb. cbn [mbind option_bind].
  unfold list_next. destruct (Nat.eqb_spec p (length b)); [lia|]. unfold it_eq. cbn [it_bucket it_pos].
  rewrite Nat.eqb_refl. cbn [andb]. destruct (Nat.eqb_spec (S p) (length b)) as [E|E].
  - rewrite (drop_ge b) by lia. rewrite E. apply (next_bucket_points m _ i _ b); [done|done|done|lia].
  - eexists. split; [done|]. right. exists i, (S p), b. split_and!; [done|done|lia|done].
Qed.

Lemma begin_points m : sized m → ∃ it, hm_begin m = Some it ∧ points m it (concat (table m)).
Proof.
  intros Hs. destruct (sized_get m 0 Hs ltac:(apply Hs)) as [b Hb]. unfold hm_begin. rewrite Hb. cbn [mbind option_bind].
  destruct (Nat.eqb_spec (length b) 0) as [E|E].
  - apply nil_length_inv in E as ->. unfold find_next_filled_bucket. cbn [table_index it_bucket it_pos].
    rewrite index_lt by done. rewrite (proj2 (Nat.ltb_lt _ _)) by apply Hs. rewrite Hb. cbn [mbind option_bind list_next length Nat.eqb it_eq it_bucket it_pos andb].
    replace (concat (table m)) with (concat (drop 1 (table m))) by (symmetry; exact (concat_drop _ _ _ Hb)). apply (next_bucket_points m _ 0 _ []); [done|done|done|lia].
  - eexists. split; [done|]. right. exists 0, 0, b. split_and!; [done|done|lia|].
    rewrite drop_0. exact (concat_drop (table m) 0 b Hb).
Qed.

Lemma end_points m : sized m → ∃ last, hm_end m = Some last ∧ points m last [] ∧
  ∀ it r, points m it r → it_eq it last = bool_decide (r = []).
Proof.
  intros Hs. destruct (sized_get m (length (table m) - 1) Hs) as [b Hb]; [destruct Hs; lia|].
  unfold hm_end. replace (Z.to_nat (table_size m - 1)) with (length (table m) - 1) by (destruct Hs; lia).
  rewrite Hb. cbn [mbind option_bind]. eexists. split; [done|]. split; [by left; eauto|]. intros it r Hp. unfold it_eq. cbn [it_bucket it_pos].
  destruct Hp as [(-> & b' & Hb' & E1 & E2)|(i & p & b' & -> & Hb' & Hp & ->)].
  - rewrite E1, E2. simplify_eq. by rewrite !Nat.eqb_refl.
  - cbn [it_bucket it_pos]. rewrite bool_decide_false.
    + destruct (Nat.eqb_spec i (length (table m) - 1)) as [->|]; [|done]. simplify_eq. cbn. destruct (Nat.eqb_spec p (length b)); [lia|done].
    + intros E%(f_equal length). rewrite length_app, length_drop in E. cbn in E. lia.
Qed.

Lemma walk_points m fuel it r last :
  sized m → points m it r → hm_end m = Some last → length r < fuel → hm_walk fuel m it last = Some r.
Proof.
  intros Hs Hp Hl. destruct (end_points m Hs) as (last' & Hl' & _ & He). simplify_eq.
  revert it r Hp. induction fuel as [|fuel IH]; intros it r Hp Hf; [lia|]. cbn [hm_walk]. rewrite (He it r Hp).
  destruct r as [|x r]; [done|]. rewrite bool_decide_false by done.
  destruct (next_points m it x r Hs Hp) as (-> & it' & -> & Hp'). cbn [mbind option_bind].
  rewrite (IH it' r Hp' ltac:(cbn in Hf; lia)). done.
Qed.

Lemma entries_run m : sized m → hm_size m = Z.of_nat (length (concat (table m))) → hm_entries m = Some (concat (table m)).
Proof.
  intros Hs Hn. unfold hm_entries. destruct (begin_points m Hs) as (it & -> & Hp). destruct (end_points m Hs) as (last & El & _).
  rewrite El. cbn [mbind option_bind]. apply walk_points; [done..|]. lia.
Qed.
End Walk.

(** ** Buckets *)

Section Buckets.
Context {K V : Type} `{!EqDecision K} (keq : K → K → bool).
Context (keq_spec : ∀ a b, keq a b = true ↔ a = b).

(** The values of a key, in order. *)
Definition values (k : K) (l : list (K * V)) : list V := (filter (λ x, x.1 = k) l).*2.
Definition with_key (k : K) (vs : list V) : list (K * V) := pair k <$> vs.

Lemma values_app k l l' : values k (l ++ l') = values k l ++ values k l'.
Proof. unfold values. by rewrite filter_app, fmap_app. Qed.
Lemma values_with_key k k' vs : values k (with_key k' vs) = if decide (k' = k) then vs else [].
Proof.
  unfold values, with_key. induction vs as [|v vs IH]; cbn [fmap list_fmap]; [by case_decide|].
  rewrite filter_cons. cbn [fst]. case_decide; [|done]. rewrite fmap_cons. by rewrite IH.
Qed.
Lemma values_none k l : k ∉ l.*1 → values k l = [].
Proof.
  unfold values. induction l as [|x l IH]; [done|]. rewrite fmap_cons, not_elem_of_cons. intros [H1 H2].
  rewrite filter_cons, decide_False by congruence. by apply IH.
Qed.
Lemma values_nil k l : values k l = [] → k ∉ l.*1.
Proof.
  unfold values. intros H%fmap_nil_inv (x & -> & Hx)%list_elem_of_fmap.
  assert (Hf : x ∈ filter (λ y, y.1 = x.1) l) by by apply list_elem_of_filter. rewrite H in Hf. by apply elem_of_nil in Hf.
Qed.

(** The values of every key decide the entries up to their order. *)
Lemma values_split k v vs l : values k l = v :: vs → ∃ l1 l2, l = l1 ++ (k, v) :: l2 ∧ values k l1 = [] ∧ values k l2 = vs.
Proof.
  induction l as [|x l IH]; [done|]. destruct (decide (x.1 = k)) as [E|E].
  - unfold values at 1. rewrite filter_cons, decide_True by done. rewrite fmap_cons. intros [= <- <-]. exists [], l.
    destruct x. cbn in *. by subst.
  - unfold values at 1. rewrite filter_cons, decide_False by done. intros (l1 & l2 & -> & H1 & H2)%IH.
    exists (x :: l1), l2. split_and!; [done| |done]. unfold values. rewrite filter_cons, decide_False by done. done.
Qed.
Lemma values_perm l l' : (∀ k, values k l = values k l') → l ≡ₚ l'.
Proof.
  revert l'. induction l as [|[k v] l IH]; intros l' H.
  - destruct l' as [|[k v] l']; [done|]. specialize (H k). unfold values in H. rewrite filter_cons, decide_True in H by done. done.
  - pose proof (H k) as Hk. change ((k, v) :: l) with ([(k, v)] ++ l) in Hk. rewrite values_app in Hk.
    unfold values at 1 in Hk. rewrite filter_cons, decide_True in Hk by done. cbn in Hk.
    destruct (values_split k v (values k l) l') as (l1 & l2 & -> & H1 & H2); [done|].
    rewrite <- Permutation_middle. constructor. apply IH. intros k'. specialize (H k').
    change ((k, v) :: l) with ([(k, v)] ++ l) in H. change ((k, v) :: l2) with ([(k, v)] ++ l2) in H. rewrite !values_app in *.
    destruct (decide (k' = k)) as [->|Hne]; [by rewrite H1, H2|].
    replace (values k' [(k, v)]) with (@nil V) in H; [done|].
    unfold values. rewrite filter_cons, decide_False by (cbn; congruence). done.
Qed.

(** A bucket is a sequence of runs of one key each, with different keys. *)
Definition flatten (gs : list (K * list V)) : list (K * V) := concat ((λ g, with_key g.1 g.2) <$> gs).
Definition bucket_ok (b : list (K * V)) : Prop :=
  ∃ gs : list (K * list V), b = flatten gs ∧ NoDup gs.*1 ∧ Forall (λ g, g.2 ≠ []) gs.

Lemma flatten_app gs gs' : flatten (gs ++ gs') = flatten gs ++ flatten gs'.
Proof. unfold flatten. by rewrite fmap_app, concat_app. Qed.
Lemma flatten_keys k gs : k ∈ (flatten gs).*1 → k ∈ gs.*1.
Proof.
  induction gs as [|g gs IH]; [done|]. unfold flatten in *. cbn [fmap list_fmap concat]. rewrite fmap_app, elem_of_app, elem_of_cons.
  intros [H|H]; [left|right; by apply IH]. unfold with_key in H.
  apply list_elem_of_fmap in H as (x & -> & (v & -> & _)%list_elem_of_fmap). done.
Qed.

(** What a bucket is to the operations on one key. *)
Lemma bucket_split k b :
  bucket_ok b → ∃ b1 vs b2, b = b1 ++ with_key k vs ++ b2 ∧ k ∉ b1.*1 ∧ k ∉ b2.*1 ∧ values k b = vs ∧ (vs = [] → b2 = []) ∧
    ∀ vs', bucket_ok (b1 ++ with_key k vs' ++ b2).
Proof.
  intros (gs & -> & Hnd & Hne). destruct (decide (k ∈ gs.*1)) as [Hk|Hk].
  - apply list_elem_of_fmap in Hk as ([k' vs] & E & Hg). cbn in E. subst k'. apply list_elem_of_split in Hg as (g1 & g2 & ->).
    rewrite fmap_app, fmap_cons in Hnd. cbn [fst] in Hnd. apply NoDup_app in Hnd as (Hn1 & Hn & Hn2).
    apply NoDup_cons in Hn2 as [Hk2 Hn2]. apply Forall_app in Hne as [He1 He2]. apply Forall_cons in He2 as [Hvs He2].
    assert (Hk1 : k ∉ g1.*1) by (intros H; apply (Hn k H); by left).
    exists (flatten g1), vs, (flatten g2). split_and!.
    + by rewrite flatten_app.
    + intros H%flatten_keys. done.
    + intros H%flatten_keys. done.
    + rewrite flatten_app, values_app. change (flatten ((k, vs) :: g2)) with (with_key k vs ++ flatten g2).
      rewrite values_app, values_with_key, decide_True by done.
      rewrite !values_none; [by rewrite app_nil_r|..]; by intros H%flatten_keys.
    + done.
    + intros vs'. destruct vs' as [|v vs'].
      * exists (g1 ++ g2). split_and!; [by rewrite flatten_app| |by apply Forall_app]. rewrite fmap_app. apply NoDup_app. split_and!; [done| |done].
        intros x Hx Hx2. apply (Hn x Hx). by right.
      * exists (g1 ++ (k, v :: vs') :: g2). split_and!; [by rewrite flatten_app| |by apply Forall_app; split; [|constructor]].
        rewrite fmap_app, fmap_cons. apply NoDup_app. split_and!; [done|done|by constructor].
  - exists (flatten gs), [], []. cbn. rewrite app_nil_r. split_and!; try done.
    + by intros H%flatten_keys.
    + apply not_elem_of_nil.
    + apply values_none. by intros H%flatten_keys.
    + intros [|v vs']; cbn; rewrite ?app_nil_r; [by exists gs|]. exists (gs ++ [(k, v :: vs')]). split_and!.
      * rewrite flatten_app. unfold flatten at 3. cbn. by rewrite app_nil_r.
      * rewrite fmap_app. apply NoDup_app. split_and!; [done| |apply NoDup_singleton]. intros x Hx ->%list_elem_of_singleton. done.
      * apply Forall_app. split; [done|]. by constructor.
Qed.

Lemma keq_ne k (x : K * V) (l : list (K * V)) : x ∈ l → k ∉ l.*1 → keq k x.1 = false.
Proof.
  intros Hx Hk. destruct (keq k x.1) eqn:E; [|done]. apply keq_spec in E as ->. exfalso. apply Hk. by apply list_elem_of_fmap_2.
Qed.
Lemma keq_same k : keq k k = true.
Proof. by apply keq_spec. Qed.

Lemma insert_pos_spec k b1 vs b2 :
  k ∉ b1.*1 → k ∉ b2.*1 → (vs = [] → b2 = []) →
  insert_pos keq k (b1 ++ with_key k vs ++ b2) = length b1 + length vs.
Proof.
  intros H1 H2 Hb. induction b1 as [|x b1 IH].
  - clear H1. cbn [app]. destruct vs as [|v vs]; [by rewrite Hb|]. change (with_key k (v :: vs)) with ((k, v) :: with_key k vs).
    cbn [app insert_pos fst]. rewrite keq_same. clear Hb. revert v. induction vs as [|w vs IH]; intros v; cbn [run_end fst]; rewrite keq_same.
    + destruct b2 as [|y b2]; [done|]. cbn. rewrite (keq_ne k y (y :: b2)); [done|by left|done].
    + exact (f_equal S (IH w)).
  - cbn [app insert_pos length]. rewrite (keq_ne k x (x :: b1)); [|by left|done].
    rewrite fmap_cons, not_elem_of_cons in H1. by rewrite IH by tauto.
Qed.

Lemma key_pos_spec k b1 vs b2 :
  k ∉ b1.*1 → k ∉ b2.*1 →
  key_pos keq k (b1 ++ with_key k vs ++ b2) = match vs with [] => None | _ => Some (length b1) end.
Proof.
  intros H1 H2. induction b1 as [|x b1 IH].
  - cbn [app]. destruct vs as [|v vs]; [|cbn; by rewrite keq_same]. cbn [with_key fmap list_fmap app].
    induction b2 as [|x b2 IH]; [done|]. cbn. rewrite (keq_ne k x (x :: b2)); [|by left|done].
    rewrite IH; [done|]. rewrite fmap_cons, not_elem_of_cons in H2. tauto.
  - cbn [app key_pos]. rewrite (keq_ne k x (x :: b1)); [|by left|done]. rewrite fmap_cons, not_elem_of_cons in H1.
    rewrite IH by tauto. by destruct vs.
Qed.

Lemma erase_loop_app k (b b' : list (K * V)) :
  erase_loop keq k (b ++ b') = let '(n, r) := erase_loop keq k b in let '(n', r') := erase_loop keq k b' in (n + n', r ++ r').
Proof.
  induction b as [|x b IH]; cbn [app erase_loop]; [by destruct (erase_loop keq k b')|]. rewrite IH.
  destruct (erase_loop keq k b), (erase_loop keq k b'). by destruct (keq x.1 k).
Qed.
Lemma erase_loop_none k (b : list (K * V)) : k ∉ b.*1 → erase_loop keq k b = (0, b).
Proof.
  induction b as [|x b IH]; [done|]. rewrite fmap_cons, not_elem_of_cons. intros [H1 H2]. cbn. rewrite (IH H2).
  destruct (keq x.1 k) eqn:E; [|done]. apply keq_spec in E. congruence.
Qed.
Lemma erase_loop_key k (vs : list V) : erase_loop keq k (with_key k vs) = (length vs, []).
Proof. induction vs as [|v vs IH]; [done|]. cbn. rewrite keq_same. change (pair k <$> vs) with (with_key k vs). by rewrite IH. Qed.
Lemma erase_loop_spec k b1 (vs : list V) b2 :
  k ∉ b1.*1 → k ∉ b2.*1 → erase_loop keq k (b1 ++ with_key k vs ++ b2) = (length vs, b1 ++ b2).
Proof. intros H1 H2. rewrite !erase_loop_app, (erase_loop_none k b1), (erase_loop_none k b2), erase_loop_key by done. cbn. by rewrite Nat.add_0_r. Qed.
End Buckets.

(** ** The table holds a sequence *)

Section Rep.
Context {K V : Type} `{!EqDecision K} (hash : K → Z) (keq : K → K → bool).
Context (keq_spec : ∀ a b, keq a b = true ↔ a = b).
Abbreviation map := (HashMap K V).
Abbreviation index m k := (getIndex (V := V) hash m k).

(** The table has the pairs [l], for every key in their order. *)
Record hm_rep (m : map) (l : list (K * V)) : Prop := HmRep
  { hr_sized : sized m;
    hr_size : hm_size m = Z.of_nat (length l);
    hr_buckets : ∀ i b, table m !! i = Some b → bucket_ok b ∧ ∀ x, x ∈ b → index m x.1 = i;
    hr_values : ∀ k, values k (concat (table m)) = values k l }.

Lemma index_range m k : sized m → index m k < length (table m).
Proof. intros [H1 H2]. unfold getIndex. pose proof (Z.mod_pos_bound (hash k) (table_size m)). lia. Qed.

Lemma elsewhere m l t k :
  hm_rep m l → (∀ b, b ∈ t → ∃ i, table m !! i = Some b ∧ i ≠ index m k) → k ∉ (concat t).*1.
Proof.
  intros H Ht (x & -> & Hx)%list_elem_of_fmap. apply list_elem_of_In, in_concat in Hx as (b & Hb & Hx).
  apply list_elem_of_In in Hb, Hx. destruct (Ht b Hb) as (i & Hi & Hne). apply Hne. symmetry. by apply (hr_buckets _ _ H i b).
Qed.

(** The bucket of a key holds all of its values. *)
Lemma bucket_of m l k : hm_rep m l → ∃ b, table m !! index m k = Some b ∧ bucket_ok b ∧ values k b = values k l ∧
  k ∉ (concat (take (index m k) (table m))).*1 ∧ k ∉ (concat (drop (S (index m k)) (table m))).*1.
Proof.
  intros H. destruct (sized_get m (index m k) (hr_sized _ _ H) (index_range m k (hr_sized _ _ H))) as [b Hb].
  assert (H1 : k ∉ (concat (take (index m k) (table m))).*1).
  { apply (elsewhere m l); [done|]. intros b' [i Hi]%list_elem_of_lookup. exists i. apply lookup_take_Some in Hi as [Hi Hlt]. split; [done|lia]. }
  assert (H2 : k ∉ (concat (drop (S (index m k)) (table m))).*1).
  { apply (elsewhere m l); [done|]. intros b' [i Hi]%list_elem_of_lookup. rewrite lookup_drop in Hi. eexists. split; [done|lia]. }
  exists b. split_and!; [done|exact (proj1 (hr_buckets _ _ H _ b Hb))| |done|done].
  rewrite <- (hr_values _ _ H k). rewrite <- (take_drop_middle _ _ _ Hb). rewrite concat_app, values_app. cbn [concat].
  rewrite values_app, (values_none _ _ H1), (values_none _ _ H2). by rewrite app_nil_r.
Qed.

(** Replacing the bucket of [k] by one that differs in the values of [k] only. *)
Lemma set_bucket_rep m l k b b' l' n :
  hm_rep m l → table m !! index m k = Some b → bucket_ok b' → n = Z.of_nat (length l') →
  (∀ x, x ∈ b' → x ∈ b ∨ x.1 = k) → (∀ k', k' ≠ k → values k' b' = values k' b ∧ values k' l' = values k' l) →
  values k b' = values k l' →
  ∃ m', set_bucket m (index m k) b' n = Some m' ∧ hm_rep m' l' ∧ table_size m' = table_size m.
Proof.
  intros H Hb Hok -> Hin Hoth Hk. destruct (bucket_of m l k H) as (b0 & Hb0 & _ & _ & H1 & H2). simplify_eq.
  unfold set_bucket. apply lookup_lt_Some in Hb as Hi. rewrite (proj2 (Nat.ltb_lt _ _) Hi). eexists. split; [done|]. split; [|done].
  split; cbn [table hm_size table_size].
  - destruct (hr_sized _ _ H). split; cbn [table table_size]; by rewrite length_insert.
  - done.
  - intros i c Hc. change (getIndex hash _ ?x) with (index m x). destruct (decide (i = index m k)) as [->|Hne].
    + rewrite list_lookup_insert_eq in Hc by done. simplify_eq. split; [done|]. intros x [Hx| ->]%Hin; [|done].
      by apply (hr_buckets _ _ H _ b).
    + rewrite list_lookup_insert_ne in Hc by done. by apply (hr_buckets _ _ H).
  - intros k'. rewrite insert_take_drop by done. rewrite concat_app, values_app. cbn [concat]. rewrite values_app.
    destruct (decide (k' = k)) as [->|Hne].
    + rewrite (values_none _ _ H1), (values_none _ _ H2). by rewrite app_nil_r.
    + destruct (Hoth k' Hne) as [-> ->]. rewrite <- (hr_values _ _ H k'). rewrite <- (take_drop_middle _ _ _ Hb) at 3.
      rewrite concat_app, values_app. cbn [concat]. by rewrite values_app.
Qed.

Lemma values_middle (k k' : K) b1 vs b2 :
  k' ≠ k → values k' (b1 ++ with_key k vs ++ b2) = values (V := V) k' b1 ++ values k' b2.
Proof. intros Hne. by rewrite !values_app, values_with_key, decide_False by congruence. Qed.
Lemma values_run (k : K) b1 vs b2 : k ∉ b1.*1 → k ∉ b2.*1 → values (V := V) k (b1 ++ with_key k vs ++ b2) = vs.
Proof. intros H1 H2. rewrite !values_app, values_with_key, decide_True, !values_none by done. by rewrite app_nil_r. Qed.
Lemma in_middle k b1 vs vs' b2 (x : K * V) : x ∈ b1 ++ with_key k vs' ++ b2 → x ∈ b1 ++ with_key k vs ++ b2 ∨ x.1 = k.
Proof.
  rewrite !elem_of_app. intros [?|[H|?]]; [tauto| |tauto]. right. by apply list_elem_of_fmap in H as (v & -> & _).
Qed.

Lemma put_entry_rep m l x :
  hm_rep m l → ∃ it m', put_entry hash keq m x = Some (it, m') ∧ hm_rep m' (l ++ [x]) ∧ table_size m' = table_size m.
Proof.
  intros H. destruct x as [k v]. destruct (bucket_of m l k H) as (b & Hb & Hok & Hv & _).
  destruct (bucket_split k b Hok) as (b1 & vs & b2 & -> & H1 & H2 & Hvs & Hnil & Hre).
  unfold put_entry. cbn [fst]. rewrite Hb. cbn [mbind option_bind]. rewrite (insert_pos_spec keq keq_spec) by done.
  assert (E : take (length b1 + length vs) (b1 ++ with_key k vs ++ b2) ++ (k, v) :: drop (length b1 + length vs) (b1 ++ with_key k vs ++ b2)
            = b1 ++ with_key k (vs ++ [v]) ++ b2).
  { assert (length (with_key k vs) = length vs) as <- by (unfold with_key; apply length_fmap).
    rewrite app_assoc, <- length_app, take_app_length, drop_app_length. unfold with_key. rewrite fmap_app. by rewrite <- !app_assoc. }
  rewrite E.
  destruct (set_bucket_rep m l k _ (b1 ++ with_key k (vs ++ [v]) ++ b2) (l ++ [(k, v)]) (hm_size m + 1) H Hb (Hre _)) as (m' & -> & Hm' & Ht).
  - rewrite (hr_size _ _ H), length_app. cbn. lia.
  - intros x. apply in_middle.
  - intros k' Hne. rewrite !values_middle by done. split; [done|]. rewrite values_app. unfold values at 2.
    rewrite filter_cons, decide_False by (cbn; congruence). cbn. by rewrite app_nil_r.
  - rewrite values_run by done. rewrite values_app, <- Hv, Hvs. unfold values. rewrite filter_cons, decide_True by done. done.
  - cbn [mbind option_bind]. by eexists _, _.
Qed.

Lemma erase_rep m l k :
  hm_rep m l → ∃ m', erase hash keq m k = Some (length (values k l), m') ∧
    hm_rep m' (filter (λ x, x.1 ≠ k) l) ∧ table_size m' = table_size m.
Proof.
  intros H. destruct (bucket_of m l k H) as (b & Hb & Hok & Hv & _).
  destruct (bucket_split k b Hok) as (b1 & vs & b2 & -> & H1 & H2 & Hvs & Hnil & Hre).
  unfold erase. rewrite Hb. cbn [mbind option_bind]. rewrite (erase_loop_spec keq keq_spec) by done.
  assert (Hlen : ∀ l : list (K * V), length l = length (values k l) + length (filter (λ x, x.1 ≠ k) l)).
  { intros l0. induction l0 as [|x l0 IH]; [done|]. unfold values in *. rewrite !filter_cons.
    destruct (decide (x.1 = k)) as [E|E]; [rewrite decide_False by tauto|rewrite decide_True by done]; cbn; lia. }
  assert (Ho : ∀ k' l, k' ≠ k → values k' (filter (λ x : K * V, x.1 ≠ k) l) = values k' l).
  { intros k' l0 Hne. unfold values. f_equal. rewrite list_filter_filter. apply list_filter_iff. intros x. split; [tauto|]. intros <-. done. }
  destruct (set_bucket_rep m l k _ (b1 ++ with_key k [] ++ b2) (filter (λ x, x.1 ≠ k) l) (hm_size m - Z.of_nat (length vs)) H Hb (Hre _))
    as (m' & E & Hm' & Ht).
  - rewrite (hr_size _ _ H), (Hlen l), <- Hv, Hvs. lia.
  - intros x. apply in_middle.
  - intros k' Hne. rewrite !values_middle by done. split; [done|]. by apply Ho.
  - rewrite values_run by done. symmetry. apply values_none. intros (x & -> & [Hx _]%list_elem_of_filter)%list_elem_of_fmap. done.
  - cbn [with_key fmap list_fmap app] in E. rewrite E. cbn [mbind option_bind]. exists m'. rewrite <- Hv, Hvs. done.
Qed.

(** ** Iterators over one key *)

Lemma points_length m it r it' r' :
  points (K := K) (V := V) m it r → points m it' r' → it_eq it it' = bool_decide (length r = length r').
Proof.
  assert (Hlt : ∀ i j p q (b b' : list (K * V)), i < j → table m !! i = Some b → table m !! j = Some b' → p < length b →
    length (drop q b' ++ concat (drop (S j) (table m))) < length (drop p b ++ concat (drop (S i) (table m)))).
  { intros i j p q b b' Hij Hb Hb' Hp.
    assert (length (concat (drop j (table m))) <= length (concat (drop (S i) (table m)))) as Hle.
    { replace j with (S i + (j - S i)) by lia. rewrite <- drop_drop.
      generalize (drop (S i) (table m)) (j - S i). intros t n. rewrite <- (take_drop n t) at 2. rewrite concat_app, length_app. lia. }
    rewrite (concat_drop _ _ _ Hb') in Hle. rewrite length_app in Hle. rewrite !length_app, !length_drop. lia. }
  assert (Hend : ∀ i p (b : list (K * V)), table m !! i = Some b → p < length b →
    0 < length (drop p b ++ concat (drop (S i) (table m)))) by (intros; rewrite length_app, length_drop; lia).
  unfold it_eq.
  intros [(-> & b & Hb & E1 & E2)|(i & p & b & -> & Hb & Hp & ->)] [(-> & b' & Hb' & E1' & E2')|(j & q & b' & -> & Hb' & Hq & ->)];
    cbn [it_bucket it_pos].
  - simplify_eq. rewrite E1, E1', E2, E2'. by rewrite !Nat.eqb_refl.
  - rewrite bool_decide_false by (specialize (Hend _ _ _ Hb' Hq); cbn; lia). rewrite E1, E2.
    destruct (Nat.eqb_spec (length (table m) - 1) j) as [<-|]; [|done]. simplify_eq. cbn. destruct (Nat.eqb_spec (length b) q); [lia|done].
  - rewrite bool_decide_false by (specialize (Hend _ _ _ Hb Hp); cbn; lia). rewrite E1', E2'.
    destruct (Nat.eqb_spec i (length (table m) - 1)) as [->|]; [|done]. simplify_eq. cbn.
    match goal with |- Nat.eqb p ?n = _ => destruct (Nat.eqb_spec p n); [lia|done] end.
  - destruct (Nat.eqb_spec i j) as [<-|Hne]; cbn [andb].
    + simplify_eq. rewrite !length_app, !length_drop. destruct (Nat.eqb_spec p q) as [<-|]; [by rewrite bool_decide_true|].
      rewrite bool_decide_false; [done|lia].
    + rewrite bool_decide_false; [done|]. destruct (decide (i < j)).
      * pose proof (Hlt i j p q b b' ltac:(done) Hb Hb' Hp). lia.
      * pose proof (Hlt j i q p b' b ltac:(lia) Hb' Hb Hq). lia.
Qed.

Lemma walk_between m fuel it l r last :
  sized m → points (K := K) (V := V) m it (l ++ r) → points m last r → length l < fuel → hm_walk fuel m it last = Some l.
Proof.
  intros Hs Hp Hl. revert it l Hp. induction fuel as [|fuel IH]; intros it l Hp Hf; [lia|]. cbn [hm_walk].
  rewrite (points_length m it _ last r Hp Hl), length_app. destruct l as [|x l].
  - by rewrite bool_decide_true.
  - rewrite bool_decide_false by (cbn; lia). destruct (next_points m it x (l ++ r) Hs Hp) as (-> & it' & -> & Hp').
    cbn [mbind option_bind]. rewrite (IH it' l Hp' ltac:(cbn in Hf; lia)). done.
Qed.

Lemma find_points m l k :
  hm_rep m l → ∃ it rest, find hash keq m k = Some it ∧ points m it (with_key k (values k l) ++ rest) ∧
    k ∉ rest.*1 ∧ (values k l = [] → rest = []).
Proof.
  intros H. destruct (bucket_of m l k H) as (b & Hb & Hok & Hv & Ht & Hd).
  destruct (bucket_split k b Hok) as (b1 & vs & b2 & Eb & H1 & H2 & Hvs & _). unfold find. rewrite Hb. cbn [mbind option_bind].
  rewrite Eb, (key_pos_spec keq keq_spec), <- Hv, Hvs by done. destruct vs as [|v vs].
  - destruct (end_points m (hr_sized _ _ H)) as (last & -> & Hl & _). exists last, []. split_and!; [done|done|apply not_elem_of_nil|done].
  - eexists _, (b2 ++ concat (drop (S (index m k)) (table m))). split_and!; [done| | |done].
    + right. exists (index m k), (length b1), b. subst b. split_and!; [done|done| |].
      * rewrite !length_app. cbn. lia.
      * by rewrite drop_app_length, <- app_assoc.
    + rewrite fmap_app, elem_of_app. tauto.
Qed.

Lemma past_key_points m l k fuel it vs rest :
  hm_rep m l → points m it (with_key k vs ++ rest) → k ∉ rest.*1 → length vs < fuel →
  ∃ it', past_key keq fuel m k it = Some it' ∧ points m it' rest.
Proof.
  intros H. destruct (end_points m (hr_sized _ _ H)) as (last & El & _ & He).
  revert it vs. induction fuel as [|fuel IH]; intros it vs Hp Hr Hf; [lia|]. cbn [past_key]. rewrite El. cbn [mbind option_bind].
  rewrite (He _ _ Hp). destruct vs as [|v vs]; cbn [with_key fmap list_fmap app] in *.
  - destruct rest as [|x rest]; [by eexists|]. rewrite bool_decide_false by done.
    destruct (next_points m it x rest (hr_sized _ _ H) Hp) as (-> & _). cbn [mbind option_bind].
    rewrite (keq_ne keq keq_spec k x (x :: rest)); [by eexists|by left|done].
  - rewrite bool_decide_false by done. destruct (next_points m it _ _ (hr_sized _ _ H) Hp) as (-> & it' & -> & Hp').
    cbn [mbind option_bind fst]. rewrite (proj2 (keq_spec k k)) by done. apply (IH it' vs); [done|done|cbn in Hf; lia].
Qed.

Lemma values_length k (l : list (K * V)) : length (values k l) <= length l.
Proof. unfold values. rewrite length_fmap. apply length_filter. Qed.

Lemma equal_range_points m l k :
  hm_rep m l → ∃ lo hi rest, equal_range hash keq m k = Some (lo, hi) ∧ find hash keq m k = Some lo ∧
    points m lo (with_key k (values k l) ++ rest) ∧ points m hi rest ∧ k ∉ rest.*1.
Proof.
  intros H. destruct (find_points m l k H) as (lo & rest & E & Hlo & Hr & _). unfold equal_range. rewrite E. cbn [mbind option_bind].
  destruct (past_key_points m l k (S (Z.to_nat (hm_size m))) lo (values k l) rest H Hlo Hr) as (hi & -> & Hhi).
  { rewrite (hr_size _ _ H). pose proof (values_length k l). lia. }
  exists lo, hi, rest. done.
Qed.

(** The entry at the iterator is taken out of its bucket. *)
Fixpoint erase_first (k : K) (l : list (K * V)) : list (K * V) :=
  match l with [] => [] | x :: l => if decide (x.1 = k) then l else x :: erase_first k l end.

Lemma values_erase_first k k' l : values k' (erase_first k l) = if decide (k' = k) then tail (values k' l) else values k' l.
Proof.
  induction l as [|x l IH]; cbn [erase_first]; [by case_decide|]. unfold values in *.
  destruct (decide (x.1 = k)) as [E|E]; rewrite !filter_cons.
  - destruct (decide (k' = k)) as [->|Hne]; [by rewrite decide_True|]. by rewrite decide_False by congruence.
  - destruct (decide (x.1 = k')) as [E'|E'].
    + rewrite !fmap_cons, IH. rewrite decide_False by congruence. by rewrite decide_False by congruence.
    + rewrite IH. done.
Qed.
Lemma length_erase_first k l : values k l ≠ [] → length l = S (length (erase_first k l)).
Proof.
  induction l as [|x l IH]; cbn [erase_first]; [done|]. unfold values in *. rewrite filter_cons.
  destruct (decide (x.1 = k)); [done|]. intros H%IH. cbn. lia.
Qed.

Lemma delete_middle (b1 b2 : list (K * V)) x : delete (length b1) (b1 ++ x :: b2) = b1 ++ b2.
Proof. by rewrite delete_middle. Qed.

Lemma erase_at_rep m l k v vs :
  hm_rep m l → values k l = v :: vs →
  ∃ i p b m', find hash keq m k = Some (HIt i i p) ∧ table m !! i = Some b ∧ p < length b ∧
    erase_at m (HIt i i p) = Some m' ∧ hm_rep m' (erase_first k l) ∧
    table m' = <[i := delete p b]> (table m) ∧ table_size m' = table_size m.
Proof.
  intros H Hv. destruct (bucket_of m l k H) as (b & Hb & Hok & Hvb & _).
  destruct (bucket_split k b Hok) as (b1 & vs' & b2 & Eb & H1 & H2 & Hvs & _ & Hre).
  assert (vs' = v :: vs) as -> by congruence. exists (index m k), (length b1), b.
  assert (Ed : delete (length b1) b = b1 ++ with_key k vs ++ b2) by (subst b; apply delete_middle).
  unfold find, erase_at. cbn [table_index it_pos]. rewrite Hb. cbn [mbind option_bind]. rewrite Ed.
  assert (key_pos keq k b = Some (length b1)) as -> by (rewrite Eb; by rewrite (key_pos_spec keq keq_spec)).
  destruct (set_bucket_rep m l k b (b1 ++ with_key k vs ++ b2) (erase_first k l) (hm_size m - 1) H Hb (Hre _)) as (m' & E & Hm' & Ht).
  - rewrite (hr_size _ _ H), (length_erase_first k l); [lia|congruence].
  - intros x Hx. rewrite Eb. by apply (in_middle k b1 (v :: vs) vs).
  - intros k' Hne. rewrite Eb, !values_middle, values_erase_first, decide_False by done. done.
  - by rewrite values_run, values_erase_first, decide_True, Hv by done.
  - exists m'. split_and!; try done.
    + rewrite Eb, !length_app. cbn. lia.
    + unfold set_bucket in E. case_match; [|done]. by injection E as <-.
Qed.

(** An iterator at the first of the entries of a key is the one that [find] answers. *)
Lemma points_suffix m it r : points (K := K) (V := V) m it r → ∃ pre, concat (table m) = pre ++ r.
Proof.
  intros [(-> & _)|(i & p & b & -> & Hb & _ & ->)]; [exists (concat (table m)); by rewrite app_nil_r|].
  exists (concat (take i (table m)) ++ take p b). rewrite <- (take_drop_middle _ _ _ Hb) at 1. rewrite concat_app. cbn [concat].
  rewrite <- (take_drop p b) at 1. by rewrite <- !app_assoc.
Qed.

Lemma points_unique m it it' r : points (K := K) (V := V) m it r → points m it' r → r ≠ [] → it = it'.
Proof.
  intros H H' Hr. pose proof (points_length m it r it' r H H') as E. rewrite bool_decide_true in E by done.
  destruct H as [[? _]|(i & p & b & -> & _)]; [done|]. destruct H' as [[? _]|(j & q & b' & -> & _)]; [done|].
  unfold it_eq in E. cbn in E. apply andb_prop in E as [->%Nat.eqb_eq ->%Nat.eqb_eq]. done.
Qed.

Lemma suffix_unique k v vs (rest rest' pre pre' : list (K * V)) :
  pre ++ with_key k (v :: vs) ++ rest = pre' ++ with_key k (v :: vs) ++ rest' → k ∉ rest.*1 → k ∉ rest'.*1 →
  length pre <= length pre' → with_key k (v :: vs) ++ rest = with_key k (v :: vs) ++ rest'.
Proof.
  intros E H1 H2 Hl. destruct (app_eq_inv _ _ _ _ E) as [(w & E1 & E2)|(w & -> & E2)].
  - rewrite E1, length_app in Hl. destruct w; [|cbn in Hl; lia]. by rewrite E2.
  - destruct w as [|y w]; [done|]. exfalso. pose proof (f_equal (values k) E2) as Ev.
    rewrite values_app, values_with_key, decide_True, (values_none _ _ H1), !values_app, values_with_key, decide_True, (values_none _ _ H2) in Ev by done.
    rewrite !app_nil_r in Ev. apply (f_equal length) in Ev. rewrite length_app in Ev.
    cbn [with_key fmap list_fmap app] in E2. injection E2 as <- _.
    unfold values in Ev. rewrite filter_cons, decide_True in Ev by done. cbn [fmap list_fmap length] in Ev. lia.
Qed.

Lemma points_find m l k v vs it rest :
  hm_rep m l → values k l = v :: vs → points m it (with_key k (v :: vs) ++ rest) → k ∉ rest.*1 →
  find hash keq m k = Some it.
Proof.
  intros H Hv Hp Hr. destruct (find_points m l k H) as (it' & rest' & Ef & Hp' & Hr' & _). rewrite Hv in Hp'.
  destruct (points_suffix _ _ _ Hp) as [pre E], (points_suffix _ _ _ Hp') as [pre' E'].
  assert (with_key k (v :: vs) ++ rest = with_key k (v :: vs) ++ rest') as Es.
  { destruct (decide (length pre <= length pre')).
    - apply (suffix_unique k v vs rest rest' pre pre'); [congruence|done..].
    - symmetry. apply (suffix_unique k v vs rest' rest pre' pre); [congruence|done|done|lia]. }
  rewrite Es in Hp. rewrite Ef. f_equal. by apply (points_unique m _ _ _ Hp' Hp).
Qed.

(** An iterator keeps its node when an earlier entry is erased. *)
Definition shift (erased it : hm_iterator) : hm_iterator :=
  if (it_bucket it =? it_bucket erased) && (it_pos erased <? it_pos it)
  then HIt (table_index it) (it_bucket it) (it_pos it - 1) else it.

Lemma shift_points m m' i p b x r it r2 :
  table m !! i = Some b → p < length b → table m' = <[i := delete p b]> (table m) →
  points (K := K) (V := V) m (HIt i i p) (x :: r) → points m it r2 → length r2 <= length r →
  points m' (shift (HIt i i p) it) r2.
Proof.
  intros Hb Hp Ht Hx Hr Hle. apply lookup_lt_Some in Hb as Hi.
  assert (Hlen : length (table m') = length (table m)) by by rewrite Ht, length_insert.
  assert (Hd : length (delete p b) = length b - 1) by by apply length_delete, lookup_lt_is_Some.
  pose proof (points_length m (HIt i i p) _ it r2 Hx Hr) as Hneq. rewrite bool_decide_false in Hneq by (cbn; lia).
  unfold it_eq in Hneq. cbn [it_bucket it_pos] in Hneq. unfold shift. cbn [it_bucket it_pos].
  destruct Hr as [(-> & c & Hc & E1 & E2)|(j & q & c & -> & Hc & Hq & ->)].
  - left. split; [done|]. rewrite Hlen. destruct (Nat.eqb_spec (it_bucket it) i) as [E|E]; cbn [andb].
    + assert (Hil : i = length (table m) - 1) by congruence. rewrite <- Hil in *. simplify_eq. rewrite E2, (proj2 (Nat.ltb_lt _ _) Hp).
      exists (delete p b). cbn [it_bucket it_pos]. rewrite Ht, list_lookup_insert_eq by done. split; [done|]. split; [done|lia].
    + exists c. rewrite Ht, list_lookup_insert_ne by congruence. done.
  - cbn [it_bucket it_pos table_index]. right. destruct (Nat.eqb_spec j i) as [->|E]; cbn [andb].
    + simplify_eq. rewrite Nat.eqb_refl in Hneq. cbn [andb] in Hneq. apply Nat.eqb_neq in Hneq.
      destruct Hx as [[? _]|(i' & p' & b' & [= <- _ <-] & Hb' & _ & Ex)]; [done|]. simplify_eq.
      apply (f_equal length) in Ex. rewrite length_app, length_drop in Ex. rewrite length_app, length_drop in Hle. cbn [length] in Ex.
      destruct (Nat.ltb_spec p q); [|lia]. exists i, (q - 1), (delete p b). split_and!; [done| |lia|].
      * by rewrite Ht, list_lookup_insert_eq.
      * rewrite Ht, drop_insert_lt by lia. f_equal. rewrite (delete_take_drop b p), drop_app_ge, drop_drop by (rewrite length_take; lia).
        f_equal. rewrite length_take. lia.
    + exists j, q, c. split_and!; [done|by rewrite Ht, list_lookup_insert_ne by congruence|done|].
      rewrite Ht. destruct (decide (i < S j)); [by rewrite drop_insert_lt|]. exfalso.
      destruct Hx as [[? _]|(i' & p' & b' & [= <- _ <-] & Hb' & _ & Ex)]; [done|]. simplify_eq.
      apply (f_equal length) in Ex. rewrite length_app, length_drop in Ex. rewrite length_app, length_drop in Hle. cbn [length] in Ex.
      assert (length (concat (drop i (table m))) <= length (concat (drop (S j) (table m)))) as Hle2.
      { replace i with (S j + (i - S j)) by lia. rewrite <- drop_drop.
        generalize (drop (S j) (table m)) (i - S j). intros t n'. rewrite <- (take_drop n' t) at 2. rewrite concat_app, length_app. lia. }
      rewrite (concat_drop _ _ _ Hb), length_app in Hle2. lia.
Qed.
End Rep.

(** ** Growing *)

(** The sizes a table can have, starting from seven: the table with a given minimum size takes the
    next prime again, so every other prime of [ms_primes] is skipped. *)
Definition hm_sizes : list Z :=
  [7; 29; 97; 389; 1543; 6151; 24593; 98317; 393241; 1572869; 6291469; 25165843; 100663319; 402653189;
   1610612741; 4294967291]%Z.

Lemma getPrime_sizes p :
  p ∈ hm_sizes →
  getPrime (p + 1) = 0%Z ∨ (p < getPrime (p + 1) ∧ p < getPrime (getPrime (p + 1)))%Z ∧ getPrime (getPrime (p + 1)) ∈ hm_sizes.
Proof.
  revert p. apply Forall_forall. unfold hm_sizes.
  repeat (apply Forall_cons_2; [first [left; reflexivity | right; split; [split; vm_compute; reflexivity|];
    apply (bool_decide_unpack (_ ∈ _)); vm_compute; exact I]|]). apply Forall_nil_2.
Qed.

Section Grow.
Context {K V : Type} `{!EqDecision K} (hash : K → Z) (keq : K → K → bool).
Context (keq_spec : ∀ a b, keq a b = true ↔ a = b).
Abbreviation map := (HashMap K V).
Abbreviation rep := (hm_rep (V := V) hash).

(** A table as its operations leave it. *)
Record hm_wf (m : map) (l : list (K * V)) : Prop := HmWf
  { hw_rep : rep m l; hw_size : table_size m ∈ hm_sizes;
    hw_room : (Z.of_nat (length l) <= table_size m)%Z ∨ getPrime (table_size m + 1) = 0%Z }.

Lemma empty_table_rep n : (0 < n)%Z → rep (HMap 0 n (replicate (Z.to_nat n) [])) [].
Proof.
  intros Hn. split; cbn [table table_size hm_size].
  - split; cbn [table table_size]; rewrite length_replicate; lia.
  - done.
  - intros i b [-> Hi]%lookup_replicate. split; [|by intros x ?%elem_of_nil]. exists []. split_and!; [done|constructor|constructor].
  - intros k. f_equal. by induction (Z.to_nat n).
Qed.

Lemma hm_rep_ext m l l' : rep m l → (∀ k, values k l = values k l') → rep m l'.
Proof.
  intros [H1 H2 H3 H4] H. split; [done| |done|intros k; by rewrite H4].
  by rewrite H2, (Permutation_length (values_perm l l' H)).
Qed.

Lemma insert_fits fuel m l x :
  rep m l → (Z.of_nat (length l) + 1 <= table_size m)%Z →
  ∃ it m', hm_insert hash keq fuel m x = Some (it, m') ∧ rep m' (l ++ [x]) ∧ table_size m' = table_size m.
Proof.
  intros H Hf. destruct fuel; cbn [hm_insert]; rewrite (hr_size _ _ _ H);
    destruct (Z.ltb_spec (table_size m) (Z.of_nat (length l) + 1)); try lia; by apply put_entry_rep.
Qed.

Lemma insert_all_fits fuel m l0 l :
  rep m l0 → (Z.of_nat (length l0 + length l) <= table_size m)%Z →
  ∃ m', insert_all (hm_insert hash keq fuel) m l = Some m' ∧ rep m' (l0 ++ l) ∧ table_size m' = table_size m.
Proof.
  revert m l0. induction l as [|x l IH]; intros m l0 H Hf; cbn [insert_all]; [exists m; by rewrite app_nil_r|].
  cbn [length] in Hf. destruct (insert_fits fuel m l0 x H ltac:(lia)) as (it & m1 & -> & H1 & Ht). cbn [mbind option_bind].
  destruct (IH m1 (l0 ++ [x]) H1) as (m2 & -> & H2 & Ht2); [rewrite length_app, Ht; cbn; lia|].
  exists m2. split_and!; [done|by rewrite <- app_assoc in H2|congruence].
Qed.

Lemma grow_rep m l :
  hm_wf m l → ∃ m', grow_with (hm_insert hash keq 0) m = Some m' ∧ hm_wf m' l ∧
    ((Z.of_nat (length l) + 1 <= table_size m')%Z ∨ getPrime (table_size m' + 1) = 0%Z).
Proof.
  intros [H Hs Hr]. unfold grow_with. destruct (getPrime_sizes _ Hs) as [E|[[H1 H2] H3]].
  - rewrite E. cbn [Z.eqb orb]. exists m. split_and!; [done|by split|by right].
  - set (p := getPrime (table_size m + 1)) in *. set (q := getPrime p) in *.
    destruct (hr_sized _ _ _ H) as [Hl Hl0]. destruct Hr as [Hr|Hr]; [|fold p in Hr; lia].
    destruct (Z.eqb_spec p 0); [lia|]. destruct (Z.leb_spec p (table_size m)); [lia|]. cbn [orb].
    pose proof (values_perm _ _ (hr_values _ _ _ H)) as Hp. rewrite entries_run; [|apply H|by rewrite (hr_size _ _ _ H), Hp]. cbn [mbind option_bind].
    destruct (insert_all_fits 0 (hm_sized p) [] (concat (table m))) as (m' & -> & Hm' & Ht).
    + apply empty_table_rep. fold q. lia.
    + cbn [length Nat.add hm_sized table_size]. fold q. rewrite (Permutation_length Hp). lia.
    + change (table_size (hm_sized p)) with q in Ht. exists m'. split_and!; [done| |rewrite Ht; left; lia].
      split; [by apply (hm_rep_ext m' ([] ++ concat (table m))); [|apply H]|by rewrite Ht|rewrite Ht; left; lia].
Qed.

Lemma insert_wf m l x : hm_wf m l → ∃ it m', insert hash keq m x = Some (it, m') ∧ hm_wf m' (l ++ [x]).
Proof.
  intros Hwf. change (insert hash keq m x) with
    (m ← (if (table_size m <? hm_size m + 1)%Z then grow_with (hm_insert hash keq 0) m else Some m); put_entry hash keq m x).
  assert (∃ m1, (if (table_size m <? hm_size m + 1)%Z then grow_with (hm_insert hash keq 0) m else Some m) = Some m1 ∧ hm_wf m1 l ∧
     ((Z.of_nat (length l) + 1 <= table_size m1)%Z ∨ getPrime (table_size m1 + 1) = 0%Z)) as (m1 & E & [H1 Hs1 _] & Hr).
  { destruct (Z.ltb_spec (table_size m) (hm_size m + 1)) as [Hlt|Hge]; [by apply grow_rep|].
    exists m. split_and!; [done|done|]. left. by rewrite (hr_size _ _ _ (hw_rep _ _ Hwf)) in Hge. }
  rewrite E. cbn [mbind option_bind]. destruct (put_entry_rep hash keq keq_spec m1 l x H1) as (it & m' & -> & H' & Ht).
  exists it, m'. split; [done|]. split; rewrite ?Ht; [done|done|]. rewrite length_app. cbn. destruct Hr; [left; lia|by right].
Qed.

Lemma wf_smaller m l m' l' :
  hm_wf m l → rep m' l' → table_size m' = table_size m → length l' <= length l → hm_wf m' l'.
Proof. intros [H Hs Hr] H' Ht Hl. split; rewrite ?Ht; [done|done|]. destruct Hr; [left; lia|by right]. Qed.
End Grow.

(** ** The table as an insertion-ordered multimap *)

Inductive hm_op {K V : Type} := HInsert (k : K) (v : V) | HErase (k : K) | HEraseOne (k : K) | HFind (k : K)
  | HRange (k : K) | HSize | HEntries | HClear.
Inductive hm_result {K V : Type} := HCount (n : nat) | HBool (b : bool) | HValue (v : option V)
  | HPairs (l : list (K * V)) | HUnit.
Arguments hm_op : clear implicits.
Arguments hm_result : clear implicits.

Section MultiMap.
Context {K V : Type} `{!EqDecision K} (hash : K → Z) (keq : K → K → bool).
Abbreviation map := (HashMap K V).

(** One call.  [HEraseOne] is the caller's [it = find (k); if (it != end ()) erase (it)], [HRange] a
    walk between the two iterators of [equal_range]. *)
Definition hm_call (m : map) (o : hm_op K V) : option (hm_result K V * map) :=
  match o with
  | HInsert k v => '(_, m) ← insert hash keq m (k, v); Some (HUnit, m)
  | HErase k => '(n, m) ← erase hash keq m k; Some (HCount n, m)
  | HEraseOne k =>
    it ← find hash keq m k; last ← hm_end m;
    if it_eq it last then Some (HBool false, m) else m ← erase_at m it; Some (HBool true, m)
  | HFind k =>
    it ← find hash keq m k; last ← hm_end m;
    if it_eq it last then Some (HValue None, m) else x ← hm_deref m it; Some (HValue (Some x.2), m)
  | HRange k =>
    '(lo, hi) ← equal_range hash keq m k;
    l ← hm_walk (S (Z.to_nat (hm_size m))) m lo hi; Some (HPairs l, m)
  | HSize => Some (HCount (Z.to_nat (hm_size m)), m)
  | HEntries => l ← hm_entries m; Some (HPairs l, m)
  | HClear => Some (HUnit, clear m)
  end.
Fixpoint hm_calls (m : map) (ops : list (hm_op K V)) : option (list (hm_result K V) * map) :=
  match ops with
  | [] => Some ([], m)
  | o :: ops => '(r, m) ← hm_call m o; '(rs, m) ← hm_calls m ops; Some (r :: rs, m)
  end.

(** The specification, over the sequence of the pairs inserted. *)
Definition hm_spec (l : list (K * V)) (o : hm_op K V) (r : hm_result K V) (l' : list (K * V)) : Prop :=
  match o with
  | HInsert k v => r = HUnit ∧ l' = l ++ [(k, v)]
  | HErase k => r = HCount (length (values k l)) ∧ l' = filter (λ x, x.1 ≠ k) l
  | HEraseOne k => r = HBool (bool_decide (values k l ≠ [])) ∧ l' = erase_first k l
  | HFind k => r = HValue (head (values k l)) ∧ l' = l
  | HRange k => r = HPairs (with_key k (values k l)) ∧ l' = l
  | HSize => r = HCount (length l) ∧ l' = l
  | HEntries => l' = l ∧ ∃ p, r = HPairs p ∧ p ≡ₚ l ∧ ∀ k, values k p = values k l
  | HClear => r = HUnit ∧ l' = []
  end.
Inductive hm_specs : list (K * V) → list (hm_op K V) → list (hm_result K V) → Prop :=
  | hm_specs_nil l : hm_specs l [] []
  | hm_specs_cons l o r l' os rs : hm_spec l o r l' → hm_specs l' os rs → hm_specs l (o :: os) (r :: rs).

Context (keq_spec : ∀ a b, keq a b = true ↔ a = b).

Lemma erase_first_none k (l : list (K * V)) : values k l = [] → erase_first k l = l.
Proof.
  unfold values. induction l as [|x l IH]; [done|]. cbn [erase_first]. rewrite filter_cons. destruct (decide (x.1 = k)); [done|].
  intros H. by rewrite IH.
Qed.

Lemma hm_call_simulation m l o :
  hm_wf hash m l → ∃ r m' l', hm_call m o = Some (r, m') ∧ hm_wf hash m' l' ∧ hm_spec l o r l'.
Proof.
  intros Hwf. pose proof (hw_rep _ _ _ Hwf) as H. pose proof (hr_sized _ _ _ H) as Hs.
  destruct (end_points m Hs) as (last & El & _ & He).
  destruct o as [k v|k|k|k|k| | |]; cbn [hm_call hm_spec].
  - destruct (insert_wf hash keq keq_spec m l (k, v) Hwf) as (it & m' & -> & Hm'). by eexists _, _, _.
  - destruct (erase_rep hash keq keq_spec m l k H) as (m' & -> & Hm' & Ht). eexists _, _, _. split; [done|]. split; [|done].
    apply (wf_smaller hash m l); [done|done|done|]. apply length_filter.
  - destruct (find_points hash keq keq_spec m l k H) as (it & rest & Ef & Hp & _ & Hn). rewrite Ef, El. cbn [mbind option_bind].
    rewrite (He _ _ Hp). destruct (values k l) as [|v vs] eqn:Ev.
    + rewrite (Hn eq_refl). rewrite bool_decide_true by done. eexists _, _, l. split_and!; [done|done|done|]. by rewrite erase_first_none.
    + rewrite bool_decide_false by done.
      destruct (erase_at_rep hash keq keq_spec m l k v vs H Ev) as (i & p & b & m' & Ef' & _ & _ & E & Hm' & _ & Ht).
      assert (it = HIt i i p) as -> by congruence. rewrite E. cbn [mbind option_bind]. eexists _, _, _. split; [done|]. split; [|done].
      apply (wf_smaller hash m l); [done|done|done|]. rewrite (length_erase_first k l) by congruence. lia.
  - destruct (find_points hash keq keq_spec m l k H) as (it & rest & Ef & Hp & _ & Hn). rewrite Ef, El. cbn [mbind option_bind].
    rewrite (He _ _ Hp). destruct (values k l) as [|v vs] eqn:Ev.
    + rewrite (Hn eq_refl), bool_decide_true by done. by eexists _, _, l.
    + rewrite bool_decide_false by done. destruct (next_points m it _ _ Hs Hp) as (-> & _). by eexists _, _, l.
  - destruct (equal_range_points hash keq keq_spec m l k H) as (lo & hi & rest & -> & _ & Hlo & Hhi & _). cbn [mbind option_bind].
    rewrite (walk_between m _ lo _ rest hi Hs Hlo Hhi).
    + by eexists _, _, l.
    + unfold with_key. rewrite length_fmap, (hr_size _ _ _ H). pose proof (values_length k l). lia.
  - eexists _, _, l. split_and!; [done|done| |done]. by rewrite (hr_size _ _ _ H), Nat2Z.id.
  - pose proof (values_perm _ _ (hr_values _ _ _ H)) as Hp. rewrite entries_run; [|done|by rewrite (hr_size _ _ _ H), Hp].
    eexists _, _, l. split_and!; [done|done|done|]. eexists. split_and!; [done|done|apply H].
  - eexists _, _, []. split_and!; [done| |done|done]. apply (wf_smaller hash m l); [done| |done|cbn; lia].
    unfold clear. destruct Hs as [Hs1 Hs2]. replace (length (table m)) with (Z.to_nat (table_size m)) by lia. apply empty_table_rep. lia.
Qed.

(** C21: the hash table is a multimap that keeps the values of a key in the order in which they
    were inserted: whatever the hash function, any sequence of insertions (with the growth of the
    table they cause), erasures, lookups, ranges and walks returns, stays inside the table, and
    answers as the sequence of the inserted pairs does; a walk visits every pair once. *)
Theorem hash_map_refines ops : ∃ rs m, hm_calls hm_new ops = Some (rs, m) ∧ hm_specs [] ops rs.
Proof.
  assert (H0 : hm_wf hash (@hm_new K V) []).
  { split; [apply (empty_table_rep hash 7); lia|by left|left; cbn; lia]. }
  revert H0. generalize (@hm_new K V) ([] : list (K * V)).
  induction ops as [|o ops IH]; intros m l Hwf; cbn [hm_calls]; [exists [], m; split; [done|constructor]|].
  destruct (hm_call_simulation m l o Hwf) as (r & m1 & l1 & -> & Hwf1 & Hr). cbn [mbind option_bind].
  destruct (IH m1 l1 Hwf1) as (rs & m2 & -> & Hrs). cbn [mbind option_bind]. eexists _, _. split; [done|]. by apply hm_specs_cons with l1.
Qed.
End MultiMap.

(** The children of a metadata element, by name. *)
Lemma string_key_eq (a b : string) : string_eq a b = true ↔ a = b.
Proof. apply (ko_eq (klt := string_lt)). Qed.

Definition ex_children : list (hm_op string nat) :=
  [HInsert "Attr" 1; HInsert "Data" 2; HInsert "Attr" 3; HInsert "Node" 4; HInsert "Interface" 5; HInsert "Attr" 6;
   HInsert "Signature" 7; HInsert "ABE" 8; HRange "Attr"; HFind "Data"; HErase "Attr"; HEraseOne "Node"; HSize; HRange "Attr"]%string.
Definition ex_answers : list (hm_result string nat) :=
  [HUnit; HUnit; HUnit; HUnit; HUnit; HUnit; HUnit; HUnit; HPairs [("Attr", 1); ("Attr", 3); ("Attr", 6)]; HValue (Some 2);
   HCount 3; HBool true; HCount 4; HPairs []]%string.

Lemma hash_map_refines_witness :
  ∃ m, hm_calls Hash_string string_eq hm_new ex_children = Some (ex_answers, m) ∧ table_size m = 29%Z ∧
       hm_specs [] ex_children ex_answers.
Proof.
  destruct (hash_map_refines Hash_string string_eq string_key_eq ex_children) as (rs & m & E & H).
  assert (E' := E). vm_compute in E'. injection E' as <- <-. eexists. split; [vm_compute; reflexivity|]. split; [reflexivity|].
  exact H.
Defined.
