(* ===== verification/Base64.v ===== *)
(** * Base64: the encoder and the streaming decoder of [libhaggle/base64.c].

    [utils/base64.c] is the same text (its parameters lack [restrict]).  The
    encoder is the [while (inlen && outlen)] loop, the decoder the context-carrying
    [get_4] / [decode_4] / [base64_decode] trio.  An output pointer is the list of
    bytes stored before it, so "rewinding OUT" is [take]; [outleft] is the room
    that remains.  Reference definitions: [b64_enc] (RFC 3548 encoding by groups of
    three) and [b64_dec] (decoding by groups of four). *)

From S2P Require Import Prelude.

(** ** The alphabet *)

Definition b64str : list Z :=
  bytes_of_string "ABCDEFGHIJKLMNOPQRSTUVWXYZabcdefghijklmnopqrstuvwxyz0123456789+/".

Definition b64chr (i : Z) : Z := nth (Z.to_nat i) b64str 0.

Definition to_uchar (ch : Z) : Z := u8 ch.

(** The macro [B64(_)]. *)
Definition B64 (c : Z) : Z :=
  if c =? 65 then 0 else if c =? 66 then 1 else if c =? 67 then 2 else if c =? 68 then 3 else
  if c =? 69 then 4 else if c =? 70 then 5 else if c =? 71 then 6 else if c =? 72 then 7 else
  if c =? 73 then 8 else if c =? 74 then 9 else if c =? 75 then 10 else if c =? 76 then 11 else
  if c =? 77 then 12 else if c =? 78 then 13 else if c =? 79 then 14 else if c =? 80 then 15 else
  if c =? 81 then 16 else if c =? 82 then 17 else if c =? 83 then 18 else if c =? 84 then 19 else
  if c =? 85 then 20 else if c =? 86 then 21 else if c =? 87 then 22 else if c =? 88 then 23 else
  if c =? 89 then 24 else if c =? 90 then 25 else if c =? 97 then 26 else if c =? 98 then 27 else
  if c =? 99 then 28 else if c =? 100 then 29 else if c =? 101 then 30 else if c =? 102 then 31 else
  if c =? 103 then 32 else if c =? 104 then 33 else if c =? 105 then 34 else if c =? 106 then 35 else
  if c =? 107 then 36 else if c =? 108 then 37 else if c =? 109 then 38 else if c =? 110 then 39 else
  if c =? 111 then 40 else if c =? 112 then 41 else if c =? 113 then 42 else if c =? 114 then 43 else
  if c =? 115 then 44 else if c =? 116 then 45 else if c =? 117 then 46 else if c =? 118 then 47 else
  if c =? 119 then 48 else if c =? 120 then 49 else if c =? 121 then 50 else if c =? 122 then 51 else
  if c =? 48 then 52 else if c =? 49 then 53 else if c =? 50 then 54 else if c =? 51 then 55 else
  if c =? 52 then 56 else if c =? 53 then 57 else if c =? 54 then 58 else if c =? 55 then 59 else
  if c =? 56 then 60 else if c =? 57 then 61 else if c =? 43 then 62 else if c =? 47 then 63 else -1.

(** The table [b64[0x100]]. *)
Definition b64_table : list Z := map B64 (seqZ 0 256).
Definition b64 (c : Z) : Z := nth (Z.to_nat (to_uchar c)) b64_table (-1).

Definition isbase64 (ch : Z) : bool := 0 <=? b64 ch.

Definition PAD : Z := 61.     (* '=' *)
Definition NL : Z := 10.      (* '\n' *)

(** ** Encoder *)

Definition BASE64_LENGTH (inlen : Z) : Z := (inlen + 2) / 3 * 4.

(** One run of the loop of [base64_encode]; [inp] is the buffer at [in].  The
    result is the list of characters stored at [out], the terminating NUL included
    when there is room for it. *)
Fixpoint base64_encode_loop (fuel : nat) (inp : list Z) (inlen outlen : nat) : list Z :=
  match fuel with
  | O => []
  | S fuel =>
    if (inlen =? 0)%nat || (outlen =? 0)%nat then
      if (outlen =? 0)%nat then [] else [0]
    else
      let in0 := to_uchar (nth 0 inp 0) in
      let in1 := to_uchar (nth 1 inp 0) in
      let in2 := to_uchar (nth 2 inp 0) in
      let c0 := b64chr (Z.land (Z.shiftr in0 2) 0x3f) in
      let outlen := pred outlen in
      if (outlen =? 0)%nat then [c0] else
      let inlen := pred inlen in
      let c1 := b64chr (Z.land (Z.shiftl in0 4 +
                  (if (inlen =? 0)%nat then 0 else Z.shiftr in1 4)) 0x3f) in
      let outlen := pred outlen in
      if (outlen =? 0)%nat then [c0; c1] else
      let '(c2, inlen) :=
        if (inlen =? 0)%nat then (PAD, inlen) else
        let inlen := pred inlen in
        (b64chr (Z.land (Z.shiftl in1 2 +
                  (if (inlen =? 0)%nat then 0 else Z.shiftr in2 6)) 0x3f), inlen) in
      let outlen := pred outlen in
      if (outlen =? 0)%nat then [c0; c1; c2] else
      let c3 := if (inlen =? 0)%nat then PAD else b64chr (Z.land in2 0x3f) in
      let outlen := pred outlen in
      if (outlen =? 0)%nat then [c0; c1; c2; c3] else
      let inlen := if (inlen =? 0)%nat then inlen else pred inlen in
      let inp := if (inlen =? 0)%nat then inp else drop 3 inp in
      [c0; c1; c2; c3] ++ base64_encode_loop fuel inp inlen outlen
  end.

Definition base64_encode (inp : list Z) (outlen : nat) : list Z :=
  base64_encode_loop (S (length inp)) inp (length inp) outlen.

(** [base64_encode_alloc]: the value returned and the buffer left in [*out].
    [malloc_ok] tells whether [malloc (outlen)] succeeds; [inlen] is
    [length inp], a 64-bit [size_t]. *)
Definition base64_encode_alloc (malloc_ok : Z → bool) (inp : list Z) : Z * option (list Z) :=
  let inlen := Z.of_nat (length inp) in
  let outlen := u64 (1 + u64 (u64 (inlen + 2) / 3 * 4)) in
  if outlen <? inlen then (0, None) else
  if negb (malloc_ok outlen) then (outlen, None) else
  (u64 (outlen - 1), Some (base64_encode inp (Z.to_nat outlen))).

(** ** Decoder *)

Record base64_decode_context := Ctx { ctx_i : nat; ctx_buf : list Z }.

Definition base64_decode_ctx_init (buf : list Z) : base64_decode_context :=
  {| ctx_i := 0; ctx_buf := buf |}.

(** The loop of [get_4] that copies non-newline bytes into [ctx->buf]. *)
Fixpoint get_4_copy (i : nat) (buf p : list Z) : nat * list Z * list Z :=
  match p with
  | [] => (i, buf, [])
  | c :: p =>
    if c =? NL then get_4_copy i buf p else
    let buf := <[i := c]> buf in
    let i := S i in
    if (i =? 4)%nat then (i, buf, p) else get_4_copy i buf p
  end.

(** The bytes behind the returned pointer ([*n_non_newline] of them), the context
    and the advanced input. *)
Definition get_4 (ctx : base64_decode_context) (inp : list Z)
  : list Z * base64_decode_context * list Z :=
  let i := if (ctx_i ctx =? 4)%nat then 0%nat else ctx_i ctx in
  if (i =? 0)%nat && (4 <=? length inp)%nat && forallb (fun c => negb (c =? NL)) (take 4 inp)
  then (take 4 inp, {| ctx_i := i; ctx_buf := ctx_buf ctx |}, drop 4 inp)
  else
    let '(i, buf, p) := get_4_copy i (ctx_buf ctx) inp in
    (take i buf, {| ctx_i := i; ctx_buf := buf |}, p).

(** [if ( *outleft) { *out++ = b; --*outleft; }] *)
Definition put (b : Z) (st : list Z * nat) : list Z * nat :=
  let '(out, room) := st in
  match room with O => (out, room) | S room => (out ++ [u8 b], room) end.

(** [decode_4 (in, inlen, &out, &outleft)]. *)
Definition decode_4 (inp : list Z) (inlen : nat) (st : list Z * nat) : bool * (list Z * nat) :=
  let in0 := nth 0 inp 0 in
  let in1 := nth 1 inp 0 in
  let in2 := nth 2 inp 0 in
  let in3 := nth 3 inp 0 in
  if (inlen <? 2)%nat then (false, st) else
  if negb (isbase64 in0) || negb (isbase64 in1) then (false, st) else
  let st := put (Z.lor (Z.shiftl (b64 in0) 2) (Z.shiftr (b64 in1) 4)) st in
  if (inlen =? 2)%nat then (false, st) else
  if in2 =? PAD then
    if negb (inlen =? 4)%nat then (false, st) else
    if negb (in3 =? PAD) then (false, st) else (true, st)
  else
    if negb (isbase64 in2) then (false, st) else
    let st := put (Z.lor (Z.land (Z.shiftl (b64 in1) 4) 0xf0) (Z.shiftr (b64 in2) 2)) st in
    if (inlen =? 3)%nat then (false, st) else
    if in3 =? PAD then
      if negb (inlen =? 4)%nat then (false, st) else (true, st)
    else
      if negb (isbase64 in3) then (false, st) else
      (true, put (Z.lor (Z.land (Z.shiftl (b64 in2) 6) 0xc0) (b64 in3)) st).

(** The inner [while (true)] of [base64_decode]: decode four bytes at a time
    straight from the input.  Returns the remaining input, the output state at the
    last successful call ([outleft_save]) and the one after the failing call. *)
Fixpoint decode_run (fuel : nat) (inp : list Z) (st : list Z * nat)
  : list Z * (list Z * nat) * (list Z * nat) :=
  match fuel with
  | O => (inp, st, st)
  | S fuel =>
    let '(ok, st') := decode_4 inp (length inp) st in
    if ok then decode_run fuel (drop 4 inp) st' else (inp, st, st')
  end.

Record decode_result := DR
  { dr_ok : bool; dr_ctx : base64_decode_context; dr_out : list Z; dr_left : nat }.

(** The outer loop.  [None] stands for running out of fuel. *)
Fixpoint base64_decode_loop (fuel : nat) (ctx : base64_decode_context) (flush_ctx : bool)
    (inp : list Z) (st : list Z * nat) : option decode_result :=
  match fuel with
  | O => None
  | S fuel =>
    let '(inp, save, st) :=
      if (ctx_i ctx =? 0)%nat && negb flush_ctx
      then decode_run (S (length inp)) inp st else (inp, st, st) in
    if (length inp =? 0)%nat && negb flush_ctx
    then Some (DR true ctx st.1 st.2) else
    if (negb (length inp =? 0)%nat) && (nth 0 inp 0 =? NL)
    then base64_decode_loop fuel ctx flush_ctx (drop 1 inp) st else
    (* Restore OUT and OUTLEFT. *)
    let st := (take (length st.1 - (save.2 - st.2)) st.1, save.2) in
    let '(non_nl, ctx, inp) := get_4 ctx inp in
    let inlen := length non_nl in
    if (inlen =? 0)%nat || ((inlen <? 4)%nat && negb flush_ctx)
    then Some (DR true ctx st.1 st.2) else
    let '(ok, st) := decode_4 non_nl inlen st in
    if negb ok then Some (DR (inlen =? 0)%nat ctx st.1 st.2) else
    base64_decode_loop fuel ctx flush_ctx inp st
  end.

(** [base64_decode (ctx, in, inlen, out, outlen)]: the result, the context, the
    bytes decoded to [out] and their number ([*outlen] on return). *)
Definition base64_decode (ctx : base64_decode_context) (inp : list Z) (outlen : nat)
  : option decode_result :=
  base64_decode_loop (S (length inp)) ctx (length inp =? 0)%nat inp ([], outlen).

(** [base64_decode_alloc]: [None] = out of fuel (excluded below); [Some (ok, out)]
    where [out] is the buffer left in [*out], [None] for NULL. *)
Definition base64_decode_alloc (malloc_ok : Z → bool) (ctx : base64_decode_context)
    (inp : list Z) : option (bool * option (list Z)) :=
  let needlen := 3 * (Z.of_nat (length inp) / 4) + 2 in
  if negb (malloc_ok needlen) then Some (true, None) else
  match base64_decode ctx inp (Z.to_nat needlen) with
  | None => None
  | Some r => if dr_ok r then Some (true, Some (dr_out r)) else Some (false, None)
  end.

(** ** Reference definitions *)

Definition enc_quad (a b c : Z) : list Z :=
  [b64chr (a / 4); b64chr (a `mod` 4 * 16 + b / 16);
   b64chr (b `mod` 16 * 4 + c / 64); b64chr (c `mod` 64)].

(** RFC 3548: groups of three bytes, [=] padding at the end. *)
Fixpoint b64_enc (l : list Z) : list Z :=
  match l with
  | [] => []
  | [a] => take 2 (enc_quad a 0 0) ++ [PAD; PAD]
  | [a; b] => take 3 (enc_quad a b 0) ++ [PAD]
  | a :: b :: c :: l => enc_quad a b c ++ b64_enc l
  end.

(** One group of four characters. *)
Definition dec_quad (w x y z : Z) : option (list Z) :=
  if negb (isbase64 w && isbase64 x) then None else
  let o0 := u8 (Z.lor (Z.shiftl (b64 w) 2) (Z.shiftr (b64 x) 4)) in
  if y =? PAD then (if z =? PAD then Some [o0] else None) else
  if negb (isbase64 y) then None else
  let o1 := u8 (Z.lor (Z.land (Z.shiftl (b64 x) 4) 0xf0) (Z.shiftr (b64 y) 2)) in
  if z =? PAD then Some [o0; o1] else
  if negb (isbase64 z) then None else
  Some [o0; o1; u8 (Z.lor (Z.land (Z.shiftl (b64 y) 6) 0xc0) (b64 z))].

Fixpoint b64_dec (s : list Z) : option (list Z) :=
  match s with
  | w :: x :: y :: z :: s =>
    match dec_quad w x y z, b64_dec s with
    | Some l, Some l' => Some (l ++ l')
    | _, _ => None
    end
  | _ => Some []
  end.

(** The characters after the last complete group. *)
Fixpoint b64_rest (s : list Z) : list Z :=
  match s with
  | _ :: _ :: _ :: _ :: s => b64_rest s
  | s => s
  end.

Definition non_newlines (s : list Z) : list Z := List.filter (fun c => negb (c =? NL)) s.

#[global] Arguments non_newlines : simpl never.

(** The characters a context holds for the next call. *)
Definition pending (ctx : base64_decode_context) : list Z :=
  if (ctx_i ctx =? 4)%nat then [] else take (ctx_i ctx) (ctx_buf ctx).

Definition ctx_wf (ctx : base64_decode_context) : Prop :=
  (ctx_i ctx <= 4)%nat ∧ length (ctx_buf ctx) = 4%nat.

(** Storing a whole list at the output pointer, as far as there is room. *)
Definition put_all (l : list Z) (st : list Z * nat) : list Z * nat :=
  (st.1 ++ take st.2 l, (st.2 - length l)%nat).

(** Induction over groups of four. *)
Lemma quad_ind (P : list Z → Prop) :
  (∀ s, (length s < 4)%nat → P s) →
  (∀ w x y z s, P s → P (w :: x :: y :: z :: s)) → ∀ s, P s.
Proof.
  intros Hs Hq s. remember (length s) as n. revert s Heqn.
  induction (lt_wf n) as [n _ IH]. intros s ->.
  destruct s as [|w [|x [|y [|z s]]]]; try (apply Hs; simpl; lia).
  apply Hq, (IH (length s)); simpl; auto with lia.
Qed.

Lemma triple_ind (P : list Z → Prop) :
  P [] → (∀ a, P [a]) → (∀ a b, P [a; b]) →
  (∀ a b c s, P s → P (a :: b :: c :: s)) → ∀ s, P s.
Proof.
  intros H0 H1 H2 Hq s. remember (length s) as n. revert s Heqn.
  induction (lt_wf n) as [n _ IH]. intros s ->.
  destruct s as [|a [|b [|c s]]]; auto.
  apply Hq, (IH (length s)); simpl; auto with lia.
Qed.

(** ** The output pointer *)

Lemma put_put_all b st : put b st = put_all [u8 b] st.
Proof.
  destruct st as [out [|n]]; unfold put, put_all; simpl;
    rewrite ?take_nil, ?app_nil_r, ?Nat.sub_0_r; done.
Qed.

Lemma put_all_app l l' st : put_all l' (put_all l st) = put_all (l ++ l') st.
Proof.
  destruct st as [out n]. unfold put_all; simpl. f_equal.
  - rewrite <- app_assoc, take_app. done.
  - rewrite length_app. lia.
Qed.

Lemma put_all_nil st : put_all [] st = st.
Proof. destruct st as [out n]. unfold put_all. simpl. by rewrite take_nil, app_nil_r, Nat.sub_0_r. Qed.

(** Taking [outleft_save - outleft] bytes back undoes what a failed [decode_4] stored. *)
Lemma put_all_restore l st :
  take (length (put_all l st).1 - (st.2 - (put_all l st).2)) (put_all l st).1 = st.1.
Proof.
  destruct st as [out n]. unfold put_all; simpl.
  rewrite length_app, length_take.
  replace (length out + n `min` length l - (n - (n - length l)))%nat
    with (length out) by lia.
  by rewrite take_app_length.
Qed.

(** ** [decode_4] *)

Lemma isbase64_NL : isbase64 NL = false.
Proof. done. Qed.
Lemma isbase64_PAD : isbase64 PAD = false.
Proof. done. Qed.

(** Whatever [decode_4] answers, it has only stored bytes at the output pointer. *)
Lemma decode_4_stores inp n st : ∃ l, (decode_4 inp n st).2 = put_all l st.
Proof.
  unfold decode_4. rewrite !put_put_all, !put_all_app.
  repeat (case_match; simpl); first [by eexists | exists []; by rewrite put_all_nil].
Qed.

(** With [inlen = 4] it decodes exactly one group. *)
Lemma decode_4_quad w x y z s st :
  match dec_quad w x y z with
  | Some l => decode_4 (w :: x :: y :: z :: s) 4 st = (true, put_all l st)
  | None => (decode_4 (w :: x :: y :: z :: s) 4 st).1 = false
  end.
Proof.
  unfold decode_4, dec_quad. simpl. rewrite !put_put_all, !put_all_app.
  destruct (isbase64 w), (isbase64 x); simpl; try done.
  destruct (y =? PAD), (z =? PAD), (isbase64 y), (isbase64 z); simpl; done.
Qed.

(** With more input left it accepts a group exactly when it has no padding. *)
Lemma decode_4_true inp st st' :
  decode_4 inp (length inp) st = (true, st') →
  ∃ w x y z s l, inp = w :: x :: y :: z :: s ∧ dec_quad w x y z = Some l ∧
    st' = put_all l st ∧ Forall (fun c => c ≠ NL) [w; x; y; z].
Proof.
  intros H.
  destruct inp as [|w [|x [|y [|z s]]]].
  1-4: exfalso; revert H; unfold decode_4; simpl; repeat case_match; simpl; congruence.
  exists w, x, y, z, s. unfold decode_4, dec_quad in *. simpl in *.
  rewrite !put_put_all, !put_all_app in H.
  assert (HN : ∀ c, isbase64 c = true → c ≠ NL) by (intros c Hc ->; done).
  assert (HP : ∀ c, (c =? PAD) = true → c ≠ NL) by (intros c ->%Z.eqb_eq; done).
  destruct (isbase64 w) eqn:?, (isbase64 x) eqn:?; simpl in *; try congruence.
  destruct (y =? PAD) eqn:?, (z =? PAD) eqn:?, (isbase64 y) eqn:?, (isbase64 z) eqn:?,
    (length s); simpl in *; try congruence;
    simplify_eq; eexists; (split; [done|]); (split; [done|]); (split; [done|]);
    rewrite ?Forall_cons; auto 10.
Qed.

Lemma decode_4_NL s n st : (decode_4 (NL :: s) n st) = (false, st).
Proof. unfold decode_4. simpl. by destruct (n <? 2)%nat. Qed.

(** ** Algebra of the reference decoder *)

Lemma b64_dec_app s s' l :
  b64_dec s = Some l → b64_rest s = [] →
  b64_dec (s ++ s') = option_map (app l) (b64_dec s') ∧ b64_rest (s ++ s') = b64_rest s'.
Proof.
  revert l. induction s as [s Hs|w x y z s IH] using quad_ind; intros l.
  - destruct s as [|? [|? [|? [|]]]]; simpl in *; try lia; try done.
    intros [= <-] _. by destruct (b64_dec s').
  - simpl. destruct (dec_quad w x y z) as [lq|]; [|done].
    destruct (b64_dec s) as [l'|]; [|done]. intros [= <-] Hr.
    destruct (IH l' eq_refl Hr) as [-> ->]. split; [|done].
    destruct (b64_dec s'); simpl; by rewrite ?app_assoc.
Qed.

Lemma b64_short s : (length s < 4)%nat → b64_dec s = Some [] ∧ b64_rest s = s.
Proof. intros. destruct s as [|? [|? [|? [|]]]]; simpl in *; auto; lia. Qed.

(** Decoding in two pieces: what the first leaves over goes in front of the second. *)
Lemma b64_dec_rest s s' l :
  b64_dec s = Some l →
  b64_dec (s ++ s') = option_map (app l) (b64_dec (b64_rest s ++ s')) ∧
  b64_rest (s ++ s') = b64_rest (b64_rest s ++ s').
Proof.
  revert l. induction s as [s Hs|w x y z s IH] using quad_ind; intros l.
  - destruct (b64_short s Hs) as [-> ->]. intros [= <-]. split; [|done].
    by destruct (b64_dec (s ++ s')).
  - simpl. destruct (dec_quad w x y z) as [lq|]; [|done].
    destruct (b64_dec s) as [l'|]; [|done]. intros [= <-].
    destruct (IH l' eq_refl) as [-> ->]. split; [|done].
    destruct (b64_dec (b64_rest s ++ s')); simpl; by rewrite ?app_assoc.
Qed.

Lemma b64_rest_short s : (length (b64_rest s) < 4)%nat.
Proof.
  induction s as [s Hs|w x y z s IH] using quad_ind; [|done].
  by destruct (b64_short s Hs) as [_ ->].
Qed.

Lemma non_newlines_app s s' : non_newlines (s ++ s') = non_newlines s ++ non_newlines s'.
Proof. apply List.filter_app. Qed.

Lemma non_newlines_cons c s :
  non_newlines (c :: s) = if c =? NL then non_newlines s else c :: non_newlines s.
Proof. unfold non_newlines. simpl. by destruct (c =? NL). Qed.

Lemma non_newlines_id s : Forall (fun c => c ≠ NL) s → non_newlines s = s.
Proof.
  induction 1 as [|c s Hc _ IH]; [done|]. rewrite non_newlines_cons, IH.
  by destruct (Z.eqb_spec c NL).
Qed.

(** ** The loops *)

(** What the decoder owes its caller on the newline-free input [s]. *)
Definition decodes (s : list Z) (st : list Z * nat) (r : decode_result) : Prop :=
  match b64_dec s with
  | Some l => dr_ok r = true ∧ (dr_out r, dr_left r) = put_all l st ∧
              pending (dr_ctx r) = b64_rest s ∧ ctx_wf (dr_ctx r)
  | None => dr_ok r = false
  end.

Lemma decodes_app s s' l st r :
  b64_dec s = Some l → b64_rest s = [] →
  decodes s' (put_all l st) r → decodes (s ++ s') st r.
Proof.
  intros Hs Hr. destruct (b64_dec_app s s' l Hs Hr) as [E1 E2].
  unfold decodes. rewrite E1, E2. destruct (b64_dec s') as [l'|]; simpl; [|done].
  by rewrite put_all_app.
Qed.

Lemma decode_run_spec fuel inp st inp' save st' :
  decode_run fuel inp st = (inp', save, st') →
  (∃ s l, inp = s ++ inp' ∧ Forall (fun c => c ≠ NL) s ∧ b64_dec s = Some l ∧
     b64_rest s = [] ∧ save = put_all l st) ∧
  (st' = save ∨ st' = (decode_4 inp' (length inp') save).2).
Proof.
  revert inp st. induction fuel as [|fuel IH]; intros inp st; simpl.
  - intros [= <- <- <-]. split; [|by left]. exists [], []. by rewrite put_all_nil.
  - destruct (decode_4 inp (length inp) st) as [ok st1] eqn:E. destruct ok.
    + intros H. destruct (decode_4_true _ _ _ E) as (w & x & y & z & s & lq & -> & Hq & -> & Hn).
      simpl in H. rewrite drop_0 in H.
      destruct (IH _ _ H) as [(s1 & l1 & -> & Hn1 & Hd & Hr & ->) Hst]. split; [|done].
      exists ([w; x; y; z] ++ s1), (lq ++ l1). simpl. rewrite Hq, Hd, put_all_app.
      rewrite !Forall_cons in *. intuition.
    + intros [= <- <- <-]. split; [|right; by rewrite E].
      exists [], []. by rewrite put_all_nil.
Qed.

Lemma get_4_copy_spec i buf p :
  (i < 4)%nat → length buf = 4%nat →
  let '(i', buf', p') := get_4_copy i buf p in
  length buf' = 4%nat ∧ (i <= i' <= 4)%nat ∧
  take i buf ++ non_newlines p = take i' buf' ++ non_newlines p' ∧
  (length p' <= length p)%nat ∧
  ((i' = 4%nat ∧ (length p' < length p)%nat) ∨ ((i' < 4)%nat ∧ p' = [])).
Proof.
  revert i buf. induction p as [|c p IH]; intros i buf Hi Hb; simpl.
  - repeat split; try lia; auto.
  - rewrite non_newlines_cons. destruct (Z.eqb_spec c NL) as [->|Hc]; simpl.
    + specialize (IH i buf Hi Hb). destruct (get_4_copy i buf p) as [[i' b'] p'].
      destruct IH as (? & ? & E & ? & ?).
      repeat split; try done; try lia. destruct H2 as [[? ?]|?]; [left|right]; auto with lia.
    + assert (Ht : take (S i) (<[i:=c]> buf) = take i buf ++ [c]).
      { rewrite (take_S_r _ _ c) by (apply list_lookup_insert_eq; lia).
        by rewrite take_insert_ge by lia. }
      destruct (Nat.eqb_spec i 3) as [E|E].
      * cbv beta iota. rewrite length_insert, Ht, <- app_assoc. repeat split; try lia; auto.
      * specialize (IH (S i) (<[i:=c]> buf) ltac:(lia)). rewrite length_insert in IH.
        specialize (IH Hb). destruct (get_4_copy _ _ p) as [[i' b'] p'].
        destruct IH as (? & ? & E' & ? & ?). rewrite Ht, <- app_assoc in E'.
        repeat split; try done; try lia. destruct H2 as [[? ?]|?]; [left|right]; auto with lia.
Qed.

Lemma get_4_spec ctx inp :
  ctx_wf ctx →
  let '(q, ctx', inp') := get_4 ctx inp in
  ctx_wf ctx' ∧
  pending ctx ++ non_newlines inp = q ++ non_newlines inp' ∧
  ((length q = 4%nat ∧ pending ctx' = [] ∧ (length inp' < length inp)%nat) ∨
   ((length q < 4)%nat ∧ inp' = [] ∧ pending ctx' = q)).
Proof.
  intros [Hi Hb]. unfold get_4.
  set (i := if (ctx_i ctx =? 4)%nat then 0%nat else ctx_i ctx).
  assert (Hp : pending ctx = take i (ctx_buf ctx) ∧ (i < 4)%nat).
  { unfold pending, i. destruct (Nat.eqb_spec (ctx_i ctx) 4); split; try done; lia. }
  destruct Hp as [-> Hi']. clearbody i.
  destruct ((i =? 0)%nat && _ && _) eqn:E.
  - apply andb_true_iff in E as [[->%Nat.eqb_eq Hl%Nat.leb_le]%andb_true_iff Hn].
    assert (Hq : Forall (fun c => c ≠ NL) (take 4 inp)).
    { rewrite Forall_forall. intros c Hc. rewrite List.forallb_forall in Hn.
      apply list_elem_of_In, Hn in Hc. by destruct (Z.eqb_spec c NL). }
    split; [split; simpl; lia|]. split.
    + rewrite <- (take_drop 4 inp) at 1. rewrite non_newlines_app, (non_newlines_id _ Hq). done.
    + left. rewrite length_take, length_drop. split_and!; [lia|done|lia].
  - pose proof (get_4_copy_spec i (ctx_buf ctx) inp Hi' Hb) as H.
    destruct (get_4_copy i (ctx_buf ctx) inp) as [[i' b'] p'].
    destruct H as (Hb' & Hi2 & Hs & _ & Hcase). split; [split; simpl; lia|].
    split; [done|]. rewrite length_take, Hb'. unfold pending; simpl.
    destruct Hcase as [[-> ?]|[? ->]]; [left|right]; split_and!; try done; try lia.
    destruct (Nat.eqb_spec i' 4); [lia|done].
Qed.

(** The first phase of an iteration: whole groups taken straight from the input. *)
Lemma decode_phase_spec ctx inp st :
  ctx_wf ctx →
  let '(inp1, save, st1) :=
    if (ctx_i ctx =? 0)%nat && negb false
    then decode_run (S (length inp)) inp st else (inp, st, st) in
  (length inp1 <= length inp)%nat ∧
  (∀ r, decodes (pending ctx ++ non_newlines inp1) save r →
        decodes (pending ctx ++ non_newlines inp) st r) ∧
  (st1 = save ∨ st1 = (decode_4 inp1 (length inp1) save).2).
Proof.
  intros Hwf. destruct (Nat.eqb_spec (ctx_i ctx) 0) as [E|E]; cbn [negb andb]; [|by auto].
  destruct (decode_run _ inp st) as [[inp1 save] st1] eqn:R.
  destruct (decode_run_spec _ _ _ _ _ _ R) as [(s & l & -> & Hn & Hd & Hr & ->) Hst].
  unfold pending. rewrite E. simpl. rewrite length_app. split; [lia|]. split; [|done].
  intros r. rewrite non_newlines_app, (non_newlines_id s) by done. by apply decodes_app.
Qed.

(** "Restore OUT and OUTLEFT" recovers the state before the failing [decode_4]. *)
Lemma restore_spec inp save st1 :
  st1 = save ∨ st1 = (decode_4 inp (length inp) save).2 →
  (take (length st1.1 - (save.2 - st1.2)) st1.1, save.2) = save.
Proof.
  destruct (decode_4_stores inp (length inp) save) as [l Hl]. intros [->| ->].
  - rewrite Nat.sub_diag, Nat.sub_0_r, firstn_all. by destruct save.
  - rewrite Hl, put_all_restore. by destruct save.
Qed.

(** Input exhausted: what is pending stays pending. *)
Lemma decodes_short s st ctx :
  (length s < 4)%nat → ctx_wf ctx → pending ctx = s → decodes s st (DR true ctx st.1 st.2).
Proof.
  intros Hs Hwf Hp. unfold decodes. destruct (b64_short s Hs) as [-> ->].
  rewrite put_all_nil. simpl. by destruct st.
Qed.

Lemma pending_short ctx : ctx_wf ctx → (length (pending ctx) < 4)%nat.
Proof.
  intros [Hi Hb]. unfold pending. destruct (Nat.eqb_spec (ctx_i ctx) 4); simpl; [lia|].
  rewrite length_take. lia.
Qed.

(** The outer loop, not flushing: with fuel above the input length it terminates
    and does what the reference decoder says on the pending characters followed by
    the input without its newlines. *)
Lemma base64_decode_loop_spec fuel ctx inp st :
  (length inp < fuel)%nat → ctx_wf ctx →
  ∃ r, base64_decode_loop fuel ctx false inp st = Some r ∧
       decodes (pending ctx ++ non_newlines inp) st r.
Proof.
  revert ctx inp st. induction fuel as [|fuel IH]; intros ctx inp st Hf Hwf; [lia|].
  cbn [base64_decode_loop]. pose proof (decode_phase_spec ctx inp st Hwf) as Hph.
  destruct (if _ : bool then decode_run _ _ _ else _) as [[inp1 save] st1].
  destruct Hph as (Hlen & Hdec & Hst1).
  destruct (Nat.eqb_spec (length inp1) 0) as [E|E].
  { destruct inp1; [|done]. eexists. split; [reflexivity|]. apply Hdec.
    assert (st1 = save) as -> by (destruct Hst1 as [->| ->]; done).
    rewrite app_nil_r. by apply decodes_short; [apply pending_short| |]. }
  cbn [negb andb]. destruct (Z.eqb_spec (nth 0 inp1 0) NL) as [E'|E'].
  { destruct inp1 as [|c inp1]; [done|]. simpl in E'. subst c.
    assert (st1 = save) as ->. { destruct Hst1 as [->| ->]; [done|by rewrite decode_4_NL]. }
    simpl. rewrite drop_0. destruct (IH ctx inp1 save) as (r & -> & Hr); [simpl in *; lia|done|].
    exists r. split; [done|]. apply Hdec. by rewrite non_newlines_cons. }
  rewrite (restore_spec _ _ _ Hst1).
  pose proof (get_4_spec ctx inp1 Hwf) as G.
  destruct (get_4 ctx inp1) as [[q ctx'] inp2]. destruct G as (Hwf' & Heq & G).
  destruct G as [(Hq & Hp & Hl)|(Hq & -> & Hp)].
  - rewrite Hq. simpl.
    destruct q as [|w [|x [|y [|z [|]]]]]; simpl in Hq; try lia.
    pose proof (decode_4_quad w x y z [] save) as D. destruct (dec_quad w x y z) as [l|] eqn:Q.
    + rewrite D. cbn [negb]. cbv iota beta.
      destruct (IH ctx' inp2 (put_all l save)) as (r & -> & Hr); [lia|done|].
      exists r. split; [done|]. apply Hdec. rewrite Heq.
      apply decodes_app with l; [by simpl; rewrite Q, app_nil_r|done|]. by rewrite Hp in Hr.
    + destruct (decode_4 [w; x; y; z] 4 save) as [ok st2]. simpl in D. subst ok.
      eexists. split; [reflexivity|]. apply Hdec. rewrite Heq. unfold decodes. simpl. by rewrite Q.
  - assert (Htest : (length q =? 0)%nat || ((length q <? 4)%nat && true) = true).
    { destruct (Nat.ltb_spec (length q) 4); [by destruct (_ =? _)%nat|lia]. }
    change (negb false) with true. rewrite Htest.
    eexists. split; [reflexivity|]. apply Hdec. rewrite Heq, app_nil_r. by apply decodes_short.
Qed.

(** ** The encoder against its reference *)

(** The index expressions of the loop body are the six-bit digits of a group. *)
Lemma enc_digits a b c :
  is_byte a → is_byte b → is_byte c →
  Z.land (Z.shiftr a 2) 0x3f = a / 4 ∧
  Z.land (Z.shiftl a 4 + Z.shiftr b 4) 0x3f = a `mod` 4 * 16 + b / 16 ∧
  Z.land (Z.shiftl b 2 + Z.shiftr c 6) 0x3f = b `mod` 16 * 4 + c / 64 ∧
  Z.land c 0x3f = c `mod` 64.
Proof.
  unfold is_byte. intros Ha Hb Hc.
  rewrite !Z.shiftr_div_pow2, !Z.shiftl_mul_pow2 by lia.
  change 0x3f with (2 ^ 6 - 1). rewrite !land_ones_mod by lia.
  change (2 ^ 6) with 64. change (2 ^ 4) with 16. change (2 ^ 2) with 4.
  repeat split; Z.to_euclidean_division_equations; lia.
Qed.

Lemma base64_encode_loop_done fuel inp outlen :
  base64_encode_loop (S fuel) inp 0 outlen = take outlen [0].
Proof. by destruct outlen as [|[|]]. Qed.

Lemma base64_encode_loop_spec inp fuel outlen :
  bytes inp → (length inp < fuel)%nat →
  base64_encode_loop fuel inp (length inp) outlen = take outlen (b64_enc inp ++ [0]).
Proof.
  revert fuel outlen.
  induction inp as [|a|a b|a b c l IH] using triple_ind; intros fuel outlen Hb Hf;
    (destruct fuel as [|fuel]; [simpl in Hf; lia|]).
  - by rewrite base64_encode_loop_done.
  - inversion_clear Hb. destruct (enc_digits a 0 0) as (E0 & E1 & _); [done..|].
    destruct outlen as [|[|[|[|[|outlen]]]]]; simpl; unfold to_uchar; rewrite ?u8_small by done;
      rewrite ?E0; try done; change (Z.shiftr 0 4) with 0 in E1; rewrite E1; try done.
    simpl in Hf. destruct fuel; [lia|]. by rewrite base64_encode_loop_done.
  - rewrite !Forall_cons in Hb. destruct Hb as (Ha & Hb & _).
    destruct (enc_digits a b 0) as (E0 & E1 & E2 & _); [done..|].
    change (Z.shiftr 0 6) with 0 in E2.
    destruct outlen as [|[|[|[|[|outlen]]]]]; simpl; unfold to_uchar; rewrite ?u8_small by done;
      rewrite ?E0, ?E1, ?E2; try done.
    simpl in Hf. destruct fuel; [lia|]. by rewrite base64_encode_loop_done.
  - rewrite !Forall_cons in Hb. destruct Hb as (Ha & Hb & Hc & Hl).
    destruct (enc_digits a b c) as (E0 & E1 & E2 & E3); [done..|].
    destruct outlen as [|[|[|[|[|outlen]]]]]; simpl; unfold to_uchar; rewrite ?u8_small by done;
      rewrite ?E0, ?E1, ?E2, ?E3; try done.
    do 4 f_equal. simpl in Hf.
    destruct (Nat.eqb_spec (length l) 0) as [E|E].
    + destruct l; [|done]. simpl. destruct fuel; [lia|]. by rewrite base64_encode_loop_done.
    + rewrite drop_0. apply IH; [done|lia].
Qed.

Lemma length_b64_enc l : Z.of_nat (length (b64_enc l)) = BASE64_LENGTH (Z.of_nat (length l)).
Proof.
  unfold BASE64_LENGTH.
  induction l as [|a|a b|a b c l IH] using triple_ind; try done.
  simpl length. rewrite !Nat2Z.inj_succ, IH. Z.to_euclidean_division_equations. lia.
Qed.

(** ** Encoding and decoding are inverse *)

Lemma b64chr_inv i :
  0 <= i < 64 → b64 (b64chr i) = i ∧ isbase64 (b64chr i) = true ∧
                (b64chr i =? PAD) = false ∧ b64chr i ≠ NL.
Proof.
  intros Hi.
  assert (H : Forall (fun i => b64 (b64chr i) = i ∧ isbase64 (b64chr i) = true ∧
    (b64chr i =? PAD) = false ∧ b64chr i ≠ NL) (seqZ 0 64)) by (vm_compute; repeat constructor; discriminate).
  rewrite Forall_forall in H. apply H, elem_of_seqZ. lia.
Qed.

(** The three output expressions of [decode_4] rebuild the bytes of a group. *)
Lemma dec_bytes a b c :
  is_byte a → is_byte b → is_byte c →
  let y := a `mod` 4 * 16 + b / 16 in
  let z := b `mod` 16 * 4 + c / 64 in
  u8 (Z.lor (Z.shiftl (a / 4) 2) (Z.shiftr y 4)) = a ∧
  u8 (Z.lor (Z.land (Z.shiftl y 4) 0xf0) (Z.shiftr z 2)) = b ∧
  u8 (Z.lor (Z.land (Z.shiftl z 6) 0xc0) (c `mod` 64)) = c.
Proof.
  intros Ha Hb Hc y z. unfold is_byte in *.
  assert (Hy : y `mod` 16 = b / 16 ∧ y / 16 = a `mod` 4)
    by (subst y z; Z.to_euclidean_division_equations; lia).
  assert (Hz : z / 4 = b `mod` 16 ∧ z `mod` 4 = c / 64)
    by (subst y z; Z.to_euclidean_division_equations; lia).
  destruct Hy as [Hy1 Hy2], Hz as [Hz1 Hz2].
  change 0xf0 with (Z.shiftl (2 ^ 4 - 1) 4). change 0xc0 with (Z.shiftl (2 ^ 2 - 1) 6).
  rewrite !land_shiftl_mask, !land_ones_mod by lia.
  rewrite Z.shiftl_mul_pow2, !Z.shiftr_div_pow2 by lia.
  change (2 ^ 4) with 16. change (2 ^ 2) with 4.
  rewrite Hy1, Hy2, Hz1, Hz2. change 16 with (2 ^ 4) at 2. change 4 with (2 ^ 2) at 2.
  assert (Hm : ∀ n k, 0 < k → 0 <= n `mod` k < k) by (intros; apply Z.mod_pos_bound; lia).
  pose proof (Hm a 4). pose proof (Hm b 16). pose proof (Hm c 64).
  rewrite !lor_add by (change (2 ^ 2) with 4; change (2 ^ 4) with 16; change (2 ^ 6) with 64; lia).
  change (2 ^ 2) with 4; change (2 ^ 4) with 16; change (2 ^ 6) with 64.
  unfold u8. change (2 ^ 8) with 256.
  repeat split; Z.to_euclidean_division_equations; lia.
Qed.

Lemma enc_quad_digits a b c :
  is_byte a → is_byte b → is_byte c →
  0 <= a / 4 < 64 ∧ 0 <= a `mod` 4 * 16 + b / 16 < 64 ∧
  0 <= b `mod` 16 * 4 + c / 64 < 64 ∧ 0 <= c `mod` 64 < 64.
Proof. unfold is_byte. intros. repeat split; Z.to_euclidean_division_equations; lia. Qed.

Lemma dec_enc_quad a b c :
  is_byte a → is_byte b → is_byte c →
  ∀ w x y z, enc_quad a b c = [w; x; y; z] →
  dec_quad w x y z = Some [a; b; c] ∧
  (c = 0 → dec_quad w x y PAD = Some [a; b]) ∧
  (b = 0 → dec_quad w x PAD PAD = Some [a]) ∧
  Forall (fun c => c ≠ NL) [w; x; y; z].
Proof.
  intros Ha Hb Hc w x y z [= <- <- <- <-].
  destruct (enc_quad_digits a b c) as (D0 & D1 & D2 & D3); [done..|].
  destruct (dec_bytes a b c) as (E0 & E1 & E2); [done..|].
  destruct (b64chr_inv _ D0) as (B0 & I0 & P0 & N0), (b64chr_inv _ D1) as (B1 & I1 & P1 & N1),
    (b64chr_inv _ D2) as (B2 & I2 & P2 & N2), (b64chr_inv _ D3) as (B3 & I3 & P3 & N3).
  unfold dec_quad. rewrite I0, I1, P2, I2, P3, I3, B0, B1, B2, B3. cbn [negb andb].
  change (PAD =? PAD) with true. cbv iota. rewrite E0, E1, E2.
  rewrite !Forall_cons. split_and!; done.
Qed.

Lemma byte_0 : is_byte 0.
Proof. unfold is_byte. lia. Qed.

#[local] Arguments dec_quad : simpl never.
#[local] Arguments b64chr : simpl never.

Lemma b64_dec_enc l :
  bytes l → b64_dec (b64_enc l) = Some l ∧ b64_rest (b64_enc l) = [] ∧
            Forall (fun c => c ≠ NL) (b64_enc l).
Proof.
  induction l as [|a|a b|a b c l IH] using triple_ind; rewrite ?Forall_cons; intros H.
  - done.
  - destruct H as (Ha & _).
    destruct (dec_enc_quad a 0 0 Ha byte_0 byte_0 _ _ _ _ eq_refl) as (_ & _ & E & N).
    rewrite !Forall_cons in N. simpl. rewrite E, !Forall_cons by done. destruct_and?. split_and!; try done; by constructor.
  - destruct H as (Ha & Hb & _).
    destruct (dec_enc_quad a b 0 Ha Hb byte_0 _ _ _ _ eq_refl) as (_ & E & _ & N).
    rewrite !Forall_cons in N. simpl. rewrite E, !Forall_cons by done. destruct_and?. split_and!; try done; by constructor.
  - destruct H as (Ha & Hb & Hc & Hl). destruct (IH Hl) as (D & R & N).
    destruct (dec_enc_quad a b c Ha Hb Hc _ _ _ _ eq_refl) as (E & _ & _ & N').
    rewrite !Forall_cons in N'. simpl. rewrite E, D, !Forall_cons. destruct_and?. by split_and!.
Qed.

(** The encoding is text: bytes, none of them NUL. *)
Definition text_byte (c : Z) : Prop := is_byte c ∧ c ≠ 0.

Lemma b64chr_text i : 0 <= i < 64 → text_byte (b64chr i).
Proof.
  intros Hi. assert (H : Forall text_byte (map (fun k => b64chr (Z.of_nat k)) (seq 0 64))).
  { vm_compute. repeat constructor; discriminate. }
  rewrite Forall_map, Forall_forall in H. specialize (H (Z.to_nat i)). cbn beta in H. rewrite Z2Nat.id in H by lia.
  apply H. apply elem_of_seq. lia.
Qed.

Lemma b64_enc_text l : bytes l → Forall text_byte (b64_enc l).
Proof.
  assert (Hq : ∀ a b c, is_byte a → is_byte b → is_byte c → Forall text_byte (enc_quad a b c)).
  { intros a b c Ha Hb Hc. destruct (enc_quad_digits a b c Ha Hb Hc) as (?&?&?&?).
    unfold enc_quad. repeat constructor; by apply b64chr_text. }
  assert (Hp : text_byte PAD) by (unfold text_byte, is_byte, PAD; lia).
  induction l as [|a|a b|a b c l IH] using triple_ind; rewrite ?Forall_cons; intros H; cbn [b64_enc].
  - constructor.
  - apply Forall_app. split; [apply Forall_take, Hq; tauto || apply byte_0|by repeat constructor].
  - apply Forall_app. split; [apply Forall_take, Hq; tauto || apply byte_0|by repeat constructor].
  - apply Forall_app. split; [apply Hq; tauto|apply IH; tauto].
Qed.

Lemma length_b64_dec s l :
  b64_dec s = Some l → (length l <= 3 * (length s / 4))%nat.
Proof.
  revert l. induction s as [s Hs|w x y z s IH] using quad_ind; intros l.
  - destruct (b64_short s Hs) as [-> _]. intros [= <-]. simpl. lia.
  - simpl b64_dec. destruct (dec_quad w x y z) as [lq|] eqn:Q; [|done].
    destruct (b64_dec s) as [l'|]; [|done]. intros [= <-]. specialize (IH _ eq_refl).
    assert (length lq <= 3)%nat
      by (unfold dec_quad in Q; repeat case_match; simplify_eq; simpl; lia).
    rewrite length_app. change (length (w :: x :: y :: z :: s)) with (4 + length s)%nat.
    replace (4 + length s)%nat with (length s + 1 * 4)%nat by lia. rewrite Nat.div_add by lia. lia.
Qed.

Lemma length_non_newlines s : (length (non_newlines s) <= length s)%nat.
Proof. apply List.filter_length_le. Qed.

(** ** Properties *)

(** [decode] with enough room for everything decoded. *)
Lemma base64_decode_ref ctx inp cap :
  ctx_wf ctx → inp ≠ [] →
  ∃ r, base64_decode ctx inp cap = Some r ∧
       decodes (pending ctx ++ non_newlines inp) ([], cap) r.
Proof.
  intros Hwf Hne. unfold base64_decode.
  destruct (Nat.eqb_spec (length inp) 0); [by destruct inp|].
  apply base64_decode_loop_spec; [lia|done].
Qed.

(** Decoding an encoding into a buffer that is large enough. *)
Lemma base64_decode_enc buf l cap :
  length buf = 4%nat → bytes l → (length l <= cap)%nat →
  ∃ r, base64_decode (base64_decode_ctx_init buf) (b64_enc l) cap = Some r ∧ dr_ok r = true ∧ dr_out r = l.
Proof.
  intros Hb Hl Hc. destruct l as [|x l]; [by eexists|].
  destruct (base64_decode_ref (base64_decode_ctx_init buf) (b64_enc (x :: l)) cap) as (r & -> & Hr);
    [split; simpl; lia|destruct l as [|? [|? ?]]; done|].
  exists r. split; [done|]. destruct (b64_dec_enc (x :: l) Hl) as (D & _ & N).
  rewrite (non_newlines_id _ N) in Hr. unfold decodes in Hr.
  change (pending (base64_decode_ctx_init buf)) with (@nil Z) in Hr. cbn [app] in Hr. rewrite D in Hr. destruct Hr as (-> & Ho & _). split; [done|].
  injection Ho as -> _. by rewrite firstn_all2.
Qed.

(** Without room nothing is stored, whatever the answer. *)
Lemma put_all_no_room l : put_all l ([], 0%nat) = ([], 0%nat).
Proof. unfold put_all. cbn. by rewrite take_0. Qed.

Lemma decode_run_no_room fuel inp : ∃ inp', decode_run fuel inp ([], 0%nat) = (inp', ([], 0%nat), ([], 0%nat)).
Proof.
  revert inp. induction fuel as [|fuel IH]; intros inp; cbn [decode_run]; [by eexists|].
  destruct (decode_4_stores inp (length inp) ([], 0%nat)) as [l Hl]. rewrite put_all_no_room in Hl.
  destruct (decode_4 inp (length inp) ([], 0%nat)) as [[] st]; simpl in Hl; subst st; [apply IH|by eexists].
Qed.

Lemma base64_decode_loop_no_room fuel ctx flush inp r :
  base64_decode_loop fuel ctx flush inp ([], 0%nat) = Some r → dr_out r = [].
Proof.
  revert ctx inp. induction fuel as [|fuel IH]; intros ctx inp; [done|]. cbn [base64_decode_loop].
  assert (∃ inp', (if (ctx_i ctx =? 0)%nat && negb flush then decode_run (S (length inp)) inp ([], 0%nat)
                   else (inp, ([], 0%nat), ([], 0%nat))) = (inp', ([], 0%nat), ([], 0%nat))) as [inp' ->].
  { case_match; [apply decode_run_no_room|by eexists]. }
  repeat (case_match; try (by intros [= <-]); try by apply IH); simpl in *.
  - intros [= <-]. destruct (decode_4_stores l0 (length l0) ([], 0%nat)) as [l' Hl]. rewrite put_all_no_room in Hl.
    match goal with E : decode_4 _ _ _ = _ |- _ => rewrite E in Hl end. simpl in *. by subst.
  - destruct (decode_4_stores l0 (length l0) ([], 0%nat)) as [l' Hl]. rewrite put_all_no_room in Hl.
    match goal with E : decode_4 _ _ _ = _ |- _ => rewrite E in Hl end. simpl in *. subst. apply IH.
Qed.

Lemma base64_decode_no_room ctx inp r : base64_decode ctx inp 0 = Some r → dr_out r = [].
Proof. apply base64_decode_loop_no_room. Qed.

Lemma base64_decode_nil buf cap :
  base64_decode (base64_decode_ctx_init buf) [] cap =
  Some (DR true {| ctx_i := 0; ctx_buf := buf |} [] cap).
Proof. done. Qed.

Definition malloc_succeeds (_ : Z) : bool := true.

(** The allocating decoder on any input. *)
Lemma decode_alloc_ref (buf inp : list Z) :
  length buf = 4%nat →
  base64_decode_alloc malloc_succeeds (base64_decode_ctx_init buf) inp =
  Some (match b64_dec (non_newlines inp) with
        | Some l => (true, Some l)
        | None => (false, None)
        end).
Proof.
  intros Hb. unfold base64_decode_alloc. simpl negb. cbv iota.
  destruct inp as [|c inp]; [done|]. set (cap := Z.to_nat _).
  destruct (base64_decode_ref (base64_decode_ctx_init buf) (c :: inp) cap) as (r & -> & Hr);
    [split; simpl; lia|done|].
  unfold decodes in Hr. change (pending (base64_decode_ctx_init buf)) with (@nil Z) in Hr. simpl app in Hr.
  destruct (b64_dec (non_newlines (c :: inp))) as [l|] eqn:D; [|by rewrite Hr].
  destruct Hr as (-> & Hout & _). injection Hout as -> _. simpl app.
  rewrite firstn_all2; [done|].
  apply length_b64_dec in D. pose proof (length_non_newlines (c :: inp)).
  assert (length (non_newlines (c :: inp)) / 4 <= length (c :: inp) / 4)%nat by (by apply Nat.Div0.div_le_mono).
  unfold cap. change 4 with (Z.of_nat 4). rewrite <- Nat2Z.inj_div. lia.
Qed.

(** C9: the allocating decoder, on any input, answers [true] exactly when every
    complete group of four non-newline characters is valid base64, and then returns
    exactly the bytes of the complete groups: its buffer of [3 * (inlen / 4) + 2]
    bytes is never too small, and it always terminates. *)
Theorem base64_decode_alloc_spec (buf inp : list Z) :
  length buf = 4%nat →
  base64_decode_alloc malloc_succeeds (base64_decode_ctx_init buf) inp =
  Some (match b64_dec (non_newlines inp) with
        | Some l => (true, Some l)
        | None => (false, None)
        end).
Proof. apply decode_alloc_ref. Qed.

Lemma base64_decode_alloc_spec_witness :
  length [0; 0; 0; 0] = 4%nat ∧
  base64_decode_alloc malloc_succeeds (base64_decode_ctx_init [0; 0; 0; 0])
    (bytes_of_string "SGkh") = Some (true, Some [72; 105; 33]).
Proof. split; [done|]. rewrite base64_decode_alloc_spec; [vm_compute; reflexivity|done]. Defined.

(** [base64_encode] writes the RFC 3548 encoding followed by a NUL, cut to the
    [outlen] bytes of the output buffer: never more, and the NUL only when there is
    room for it. *)
Theorem base64_encode_spec (inp : list Z) (outlen : nat) :
  bytes inp → base64_encode inp outlen = take outlen (b64_enc inp ++ [0]).
Proof. intros. apply base64_encode_loop_spec; [done|lia]. Qed.

Lemma base64_encode_spec_witness :
  bytes [72; 105] ∧ base64_encode [72; 105] 3 = bytes_of_string "SGk".
Proof.
  assert (bytes [72; 105]) by (repeat constructor; done). split; [done|].
  rewrite base64_encode_spec; [vm_compute; reflexivity|done].
Defined.

(** The length test of [base64_encode_alloc] catches every overflow. *)
Lemma encode_alloc_test inlen :
  0 <= inlen < 2 ^ 64 →
  let outlen := u64 (1 + u64 (u64 (inlen + 2) / 3 * 4)) in
  (outlen < inlen ↔ 2 ^ 64 <= 1 + BASE64_LENGTH inlen) ∧
  (1 + BASE64_LENGTH inlen < 2 ^ 64 → outlen = 1 + BASE64_LENGTH inlen).
Proof.
  intros H outlen. subst outlen. unfold u64, BASE64_LENGTH.
  change (2 ^ 64) with 18446744073709551616 in *.
  split; [split|]; intros; Z.to_euclidean_division_equations; nia.
Qed.

(** What the encoder returns decodes to its input. *)
Lemma encode_alloc_ok (inp : list Z) :
  bytes inp → 1 + BASE64_LENGTH (Z.of_nat (length inp)) < 2 ^ 64 →
  base64_encode_alloc malloc_succeeds inp = (BASE64_LENGTH (Z.of_nat (length inp)), Some (b64_enc inp ++ [0])).
Proof.
  intros Hi Hl. destruct (encode_alloc_test (Z.of_nat (length inp))) as [T1 T2].
  { revert Hl. unfold BASE64_LENGTH. Z.to_euclidean_division_equations. lia. }
  unfold base64_encode_alloc. rewrite T2 by done. simpl negb. cbv iota.
  destruct (Z.ltb_spec (1 + BASE64_LENGTH (Z.of_nat (length inp))) (Z.of_nat (length inp))) as [E|E].
  { rewrite T2 in T1 by done. lia. }
  unfold base64_encode. rewrite base64_encode_loop_spec by (done || lia).
  rewrite firstn_all2; rewrite ?length_app; rewrite <- length_b64_enc in *; simpl length; [|lia].
  f_equal. unfold u64. rewrite Z.mod_small; lia.
Qed.

Lemma decode_alloc_enc (buf inp : list Z) :
  length buf = 4%nat → bytes inp →
  base64_decode_alloc malloc_succeeds (base64_decode_ctx_init buf) (b64_enc inp) = Some (true, Some inp).
Proof.
  intros Hb Hi. rewrite decode_alloc_ref by done.
  destruct (b64_dec_enc inp Hi) as (D & _ & N). by rewrite (non_newlines_id _ N), D.
Qed.

(** Decoding what the encoder produced gives the bytes back, whatever they are:
    [base64_encode_alloc] returns [BASE64_LENGTH(inlen)] and a NUL-terminated buffer,
    and [base64_decode_alloc] on its characters returns the original buffer. *)
Theorem base64_roundtrip (buf inp : list Z) :
  length buf = 4%nat → bytes inp → 1 + BASE64_LENGTH (Z.of_nat (length inp)) < 2 ^ 64 →
  ∃ s, base64_encode_alloc malloc_succeeds inp = (Z.of_nat (length s), Some (s ++ [0])) ∧
       Z.of_nat (length s) = BASE64_LENGTH (Z.of_nat (length inp)) ∧
       base64_decode_alloc malloc_succeeds (base64_decode_ctx_init buf) s = Some (true, Some inp).
Proof.
  intros Hb Hi Hl. exists (b64_enc inp).
  by rewrite encode_alloc_ok, decode_alloc_enc, length_b64_enc.
Qed.

Lemma base64_roundtrip_witness :
  ∃ s, base64_encode_alloc malloc_succeeds [0; 255; 7; 200] = (Z.of_nat (length s), Some (s ++ [0])) ∧
       Z.of_nat (length s) = BASE64_LENGTH 4 ∧
       base64_decode_alloc malloc_succeeds (base64_decode_ctx_init [0; 0; 0; 0]) s =
       Some (true, Some [0; 255; 7; 200]).
Proof.
  apply (base64_roundtrip [0; 0; 0; 0] [0; 255; 7; 200]);
    [done|repeat constructor; done|vm_compute; done].
Defined.

(** The encoder refuses exactly the inputs whose encoding does not fit in a
    [size_t]: the single test [inlen > outlen], made after the wrap-around, misses
    none and refuses no other. *)
Theorem base64_encode_alloc_overflow (inp : list Z) :
  Z.of_nat (length inp) < 2 ^ 64 →
  (base64_encode_alloc malloc_succeeds inp = (0, None) ↔
   2 ^ 64 <= 1 + BASE64_LENGTH (Z.of_nat (length inp))).
Proof.
  intros Hl. destruct (encode_alloc_test (Z.of_nat (length inp))) as [T1 _]; [lia|].
  unfold base64_encode_alloc. simpl negb. cbv iota.
  rewrite <- T1. destruct (Z.ltb_spec (u64 (1 + u64 (u64 (Z.of_nat (length inp) + 2) / 3 * 4)))
    (Z.of_nat (length inp))) as [E|E]; [tauto|].
  split; [intros [=]|lia].
Qed.

Lemma base64_encode_alloc_overflow_witness :
  base64_encode_alloc malloc_succeeds [1; 2] ≠ (0, None).
Proof.
  intros H. apply (base64_encode_alloc_overflow [1; 2]) in H; [|vm_compute; done].
  vm_compute in H. congruence.
Defined.

(** The context makes decoding insensitive to how the input is cut: decoding
    [a] and then [b] with the context [a] left gives the result, the bytes and the
    context of decoding [a ++ b] in one call, also when a group of four characters
    spans the two buffers. *)
Theorem base64_decode_streaming (buf a b : list Z) (cap : nat) r1 r2 :
  length buf = 4%nat → a ≠ [] → b ≠ [] →
  base64_decode (base64_decode_ctx_init buf) a cap = Some r1 → dr_ok r1 = true →
  base64_decode (dr_ctx r1) b (dr_left r1) = Some r2 → dr_ok r2 = true →
  ∃ r, base64_decode (base64_decode_ctx_init buf) (a ++ b) cap = Some r ∧
       dr_ok r = true ∧ dr_out r = dr_out r1 ++ dr_out r2 ∧ dr_left r = dr_left r2 ∧
       pending (dr_ctx r) = pending (dr_ctx r2).
Proof.
  intros Hb Ha Hbne E1 O1 E2 O2.
  assert (Hwf : ctx_wf (base64_decode_ctx_init buf)) by (split; simpl; lia).
  destruct (base64_decode_ref _ a cap Hwf Ha) as (r1' & E1' & D1).
  rewrite E1 in E1'. injection E1' as <-.
  destruct (base64_decode_ref _ (a ++ b) cap Hwf) as (r & E & D); [by destruct a|].
  exists r. split; [done|]. change (pending (base64_decode_ctx_init buf)) with (@nil Z) in *.
  simpl app in D1, D. rewrite non_newlines_app in D.
  unfold decodes in D1. destruct (b64_dec (non_newlines a)) as [la|] eqn:La; [|congruence].
  destruct D1 as (_ & Hout1 & Hp1 & Hwf1).
  destruct (base64_decode_ref _ b (dr_left r1) Hwf1 Hbne) as (r2' & E2' & D2).
  rewrite E2 in E2'. injection E2' as <-. rewrite Hp1 in D2.
  destruct (b64_dec_rest (non_newlines a) (non_newlines b) la La) as [Hd Hr].
  unfold decodes in D, D2. rewrite Hd, Hr in D.
  destruct (b64_dec (b64_rest (non_newlines a) ++ non_newlines b)) as [lb|]; [|congruence].
  simpl in D. destruct D as (-> & Hout & -> & _), D2 as (_ & Hout2 & -> & _).
  split; [done|]. unfold put_all in *. simpl in *.
  injection Hout as -> ->. injection Hout1 as -> Hl1. injection Hout2 as -> ->.
  rewrite Hl1, take_app, length_app. split_and!; [done|lia|done].
Qed.

Lemma base64_decode_streaming_witness :
  ∃ r, base64_decode (base64_decode_ctx_init [0; 0; 0; 0]) (bytes_of_string "SG" ++ bytes_of_string "kh") 9
       = Some r ∧ dr_ok r = true ∧ dr_out r = [] ++ [72; 105; 33] ∧ dr_left r = 6%nat ∧
       pending (dr_ctx r) = [].
Proof.
  apply (base64_decode_streaming [0; 0; 0; 0] (bytes_of_string "SG") (bytes_of_string "kh") 9
    (DR true (Ctx 2 [83; 71; 0; 0]) [] 9) (DR true (Ctx 4 [83; 71; 107; 104]) [72; 105; 33] 6));
    done.
Defined.

(** A truncated encoding is accepted: when up to three characters are left
    after the last complete group, [base64_decode_alloc] drops them and still
    answers [true] (it never makes the flushing call with [inlen = 0]), although its
    comment promises [false] on invalid input. *)
Theorem base64_decode_alloc_truncated (buf inp tail : list Z) :
  length buf = 4%nat → bytes inp → (length tail < 4)%nat → Forall (fun c => c ≠ NL) tail →
  base64_decode_alloc malloc_succeeds (base64_decode_ctx_init buf) (b64_enc inp ++ tail) =
  Some (true, Some inp).
Proof.
  intros Hb Hi Ht Hn. rewrite decode_alloc_ref by done.
  destruct (b64_dec_enc inp Hi) as (D & R & N).
  rewrite non_newlines_app, (non_newlines_id _ N), (non_newlines_id _ Hn).
  destruct (b64_dec_app _ tail _ D R) as [-> _]. destruct (b64_short tail Ht) as [-> _].
  simpl. by rewrite app_nil_r.
Qed.

Lemma base64_decode_alloc_truncated_witness :
  base64_decode_alloc malloc_succeeds (base64_decode_ctx_init [0; 0; 0; 0])
    (b64_enc [72; 105; 33] ++ [63; 63; 63]) = Some (true, Some [72; 105; 33]).
Proof.
  apply (base64_decode_alloc_truncated [0; 0; 0; 0] [72; 105; 33] [63; 63; 63]);
    [done|repeat constructor; done|simpl; lia|repeat constructor; done].
Defined.
