(* ===== verification/Sha1.v ===== *)
(** * Sha1: the SHA-1 implementation of [libhaggle/sha1.c].

    The branch compiled is [SHA1_USE_ALTERNATIVE_IMPLEMENTATION] (the other one is
    switched off in [sha1_private.h]).  [SHA1Context] is the struct, the functions
    are the C functions with the context passed and returned; the loops over [t] are
    [fold_left] over the index range.  The reference is [fips_sha1], FIPS 180-1 as
    written: one 80-step loop with [f_t] and [K_t], over the padded message. *)

From S2P Require Import Prelude.

(** ** Data *)

Definition shaSuccess : Z := 0.
Definition shaNull : Z := 1.
Definition shaInputTooLong : Z := 2.
Definition shaStateError : Z := 3.

Record SHA1Context := MkSHA1
  { Intermediate_Hash : list Z;
    Length_Low : Z;
    Length_High : Z;
    Message_Block_Index : nat;
    Message_Block : list Z;
    Computed : bool;
    Corrupted : Z }.

Definition set_block (i : nat) (b : Z) (c : SHA1Context) : SHA1Context :=
  {| Intermediate_Hash := Intermediate_Hash c; Length_Low := Length_Low c;
     Length_High := Length_High c; Message_Block_Index := Message_Block_Index c;
     Message_Block := <[i := u8 b]> (Message_Block c);
     Computed := Computed c; Corrupted := Corrupted c |}.

Definition set_index (i : nat) (c : SHA1Context) : SHA1Context :=
  {| Intermediate_Hash := Intermediate_Hash c; Length_Low := Length_Low c;
     Length_High := Length_High c; Message_Block_Index := i;
     Message_Block := Message_Block c; Computed := Computed c; Corrupted := Corrupted c |}.

(** [context->Message_Block[context->Message_Block_Index++] = b] *)
Definition push_block (b : Z) (c : SHA1Context) : SHA1Context :=
  set_index (S (Message_Block_Index c)) (set_block (Message_Block_Index c) b c).

Definition set_corrupted (e : Z) (c : SHA1Context) : SHA1Context :=
  {| Intermediate_Hash := Intermediate_Hash c; Length_Low := Length_Low c;
     Length_High := Length_High c; Message_Block_Index := Message_Block_Index c;
     Message_Block := Message_Block c; Computed := Computed c; Corrupted := e |}.

(** ** The compression function *)

Definition SHA1CircularShift (bits word : Z) : Z :=
  Z.lor (u32 (Z.shiftl word bits)) (Z.shiftr word (32 - bits)).

Definition K : list Z := [0x5A827999; 0x6ED9EBA1; 0x8F1BBCDC; 0xCA62C1D6].

Definition at_ (l : list Z) (i : nat) : Z := nth i l 0.

(** [W[t]] for [t < 16]. *)
Definition W_word (block : list Z) (t : nat) : Z :=
  Z.lor (Z.lor (Z.lor (u32 (Z.shiftl (at_ block (t * 4)) 24))
                      (Z.shiftl (at_ block (t * 4 + 1)) 16))
               (Z.shiftl (at_ block (t * 4 + 2)) 8))
        (at_ block (t * 4 + 3)).

Definition W_step (W : list Z) (t : nat) : list Z :=
  W ++ [SHA1CircularShift 1
          (Z.lxor (Z.lxor (Z.lxor (at_ W (t - 3)) (at_ W (t - 8))) (at_ W (t - 14))) (at_ W (t - 16)))].

Definition W_schedule (block : list Z) : list Z :=
  fold_left W_step (seq 16 64) (map (W_word block) (seq 0 16)).

Definition regs : Type := Z * Z * Z * Z * Z.

(** One pass through the body of a round loop: [f] is the loop's boolean function. *)
Definition round (f : Z → Z → Z → Z) (k : Z) (W : list Z) (r : regs) (t : nat) : regs :=
  let '(A, B, C, D, E) := r in
  let temp := u32 (SHA1CircularShift 5 A + f B C D + E + at_ W t + k) in
  (temp, A, SHA1CircularShift 30 B, C, D).

Definition f0 (B C D : Z) : Z := Z.lor (Z.land B C) (Z.land (u32 (Z.lnot B)) D).
Definition f1 (B C D : Z) : Z := Z.lxor (Z.lxor B C) D.
Definition f2 (B C D : Z) : Z := Z.lor (Z.lor (Z.land B C) (Z.land B D)) (Z.land C D).

(** The state update of [SHA1ProcessMessageBlock]. *)
Definition compress (H block : list Z) : list Z :=
  let W := W_schedule block in
  let r := (at_ H 0, at_ H 1, at_ H 2, at_ H 3, at_ H 4) in
  let r := fold_left (round f0 (at_ K 0) W) (seq 0 20) r in
  let r := fold_left (round f1 (at_ K 1) W) (seq 20 20) r in
  let r := fold_left (round f2 (at_ K 2) W) (seq 40 20) r in
  let '(A, B, C, D, E) := fold_left (round f1 (at_ K 3) W) (seq 60 20) r in
  [u32 (at_ H 0 + A); u32 (at_ H 1 + B); u32 (at_ H 2 + C); u32 (at_ H 3 + D); u32 (at_ H 4 + E)].

Definition SHA1ProcessMessageBlock (c : SHA1Context) : SHA1Context :=
  {| Intermediate_Hash := compress (Intermediate_Hash c) (Message_Block c);
     Length_Low := Length_Low c; Length_High := Length_High c; Message_Block_Index := 0;
     Message_Block := Message_Block c; Computed := Computed c; Corrupted := Corrupted c |}.

(** ** The interface functions *)

Definition H_init : list Z := [0x67452301; 0xEFCDAB89; 0x98BADCFE; 0x10325476; 0xC3D2E1F0].

(** [Message_Block] keeps its (uninitialised) contents. *)
Definition SHA1Reset (context : option SHA1Context) : Z * option SHA1Context :=
  match context with
  | None => (shaNull, None)
  | Some c =>
    (shaSuccess,
     Some {| Intermediate_Hash := H_init; Length_Low := 0; Length_High := 0;
             Message_Block_Index := 0; Message_Block := Message_Block c;
             Computed := false; Corrupted := 0 |})
  end.

(** The body of the [while] loop of [SHA1Input]. *)
Definition SHA1Input_byte (c : SHA1Context) (b : Z) : SHA1Context :=
  let c := push_block (Z.land b 0xFF) c in
  let low := u32 (Length_Low c + 8) in
  let high := if low =? 0 then u32 (Length_High c + 1) else Length_High c in
  let corrupted := if (low =? 0) && (high =? 0) then 1 else Corrupted c in
  let c := {| Intermediate_Hash := Intermediate_Hash c; Length_Low := low; Length_High := high;
              Message_Block_Index := Message_Block_Index c; Message_Block := Message_Block c;
              Computed := Computed c; Corrupted := corrupted |} in
  if (Message_Block_Index c =? 64)%nat then SHA1ProcessMessageBlock c else c.

(** [while (length-- && !context->Corrupted)] *)
Fixpoint SHA1Input_loop (c : SHA1Context) (message : list Z) : SHA1Context :=
  match message with
  | [] => c
  | b :: message =>
    if nz (Corrupted c) then c else SHA1Input_loop (SHA1Input_byte c b) message
  end.

Definition SHA1Input (context : option SHA1Context) (message_array : option (list Z))
    (length : nat) : Z * option SHA1Context :=
  if (length =? 0)%nat then (shaSuccess, context) else
  match context, message_array with
  | Some c, Some m =>
    if Computed c then (shaStateError, Some (set_corrupted shaStateError c)) else
    if nz (Corrupted c) then (Corrupted c, Some c) else
    (shaSuccess, Some (SHA1Input_loop c (take length m)))
  | _, _ => (shaNull, context)
  end.

(** [while (context->Message_Block_Index < limit)
       context->Message_Block[context->Message_Block_Index++] = 0;] *)
Fixpoint pad_zeros (fuel limit : nat) (c : SHA1Context) : SHA1Context :=
  match fuel with
  | O => c
  | S fuel => if (Message_Block_Index c <? limit)%nat
              then pad_zeros fuel limit (push_block 0 c) else c
  end.

Definition store_length (c : SHA1Context) : SHA1Context :=
  let c' := set_block 56 (Z.shiftr (Length_High c) 24) c in
  let c' := set_block 57 (Z.shiftr (Length_High c) 16) c' in
  let c' := set_block 58 (Z.shiftr (Length_High c) 8) c' in
  let c' := set_block 59 (Length_High c) c' in
  let c' := set_block 60 (Z.shiftr (Length_Low c) 24) c' in
  let c' := set_block 61 (Z.shiftr (Length_Low c) 16) c' in
  let c' := set_block 62 (Z.shiftr (Length_Low c) 8) c' in
  set_block 63 (Length_Low c) c'.

Definition SHA1PadMessage (c : SHA1Context) : SHA1Context :=
  let c :=
    if (55 <? Message_Block_Index c)%nat then
      let c := pad_zeros 64 64 (push_block 0x80 c) in
      pad_zeros 64 56 (SHA1ProcessMessageBlock c)
    else pad_zeros 64 56 (push_block 0x80 c) in
  SHA1ProcessMessageBlock (store_length c).

(** [Message_Digest[i] = Intermediate_Hash[i>>2] >> 8 * (3 - (i & 0x03))] *)
Definition digest_byte (H : list Z) (i : nat) : Z :=
  u8 (Z.shiftr (at_ H (i / 4)) (8 * (3 - Z.of_nat (i mod 4)))).
Definition digest_bytes (H : list Z) : list Z := map (digest_byte H) (seq 0 20).

(** The code returned, the context, and what was stored in [Message_Digest]
    ([None] when it is left untouched). *)
Definition SHA1Result (context : option SHA1Context) (digest_nonnull : bool)
  : Z * option SHA1Context * option (list Z) :=
  match context with
  | None => (shaNull, None, None)
  | Some c =>
    if negb digest_nonnull then (shaNull, context, None) else
    if nz (Corrupted c) then (Corrupted c, context, None) else
    let c :=
      if Computed c then c else
      let c := SHA1PadMessage c in
      {| Intermediate_Hash := Intermediate_Hash c; Length_Low := 0; Length_High := 0;
         Message_Block_Index := Message_Block_Index c; Message_Block := replicate 64 0;
         Computed := true; Corrupted := Corrupted c |} in
    (shaSuccess, Some c, Some (digest_bytes (Intermediate_Hash c)))
  end.

(** The three wrappers, on a valid context; they drop the result codes. *)
Definition SHA1_Init (c : SHA1Context) : SHA1Context := default c (SHA1Reset (Some c)).2.
Definition SHA1_Update (c : SHA1Context) (data : list Z) : SHA1Context :=
  default c (SHA1Input (Some c) (Some data) (length data)).2.
(** The digest buffer before the call is [digest]. *)
Definition SHA1_Final (digest : list Z) (c : SHA1Context) : list Z * SHA1Context :=
  let '(_, c', d) := SHA1Result (Some c) true in (default digest d, default c c').

(** ** Reference: FIPS 180-1 *)

Definition Ch (x y z : Z) : Z := Z.lxor (Z.land x y) (Z.land (u32 (Z.lnot x)) z).
Definition Parity (x y z : Z) : Z := Z.lxor (Z.lxor x y) z.
Definition Maj (x y z : Z) : Z := Z.lxor (Z.lxor (Z.land x y) (Z.land x z)) (Z.land y z).

Definition f_t (t : nat) : Z → Z → Z → Z :=
  if (t <? 20)%nat then Ch else if (t <? 40)%nat then Parity
  else if (t <? 60)%nat then Maj else Parity.
Definition K_t (t : nat) : Z :=
  if (t <? 20)%nat then 0x5A827999 else if (t <? 40)%nat then 0x6ED9EBA1
  else if (t <? 60)%nat then 0x8F1BBCDC else 0xCA62C1D6.

Definition fips_step (W : list Z) (r : regs) (t : nat) : regs := round (f_t t) (K_t t) W r t.

Definition fips_compress (H block : list Z) : list Z :=
  let '(A, B, C, D, E) :=
    fold_left (fips_step (W_schedule block)) (seq 0 80)
      (at_ H 0, at_ H 1, at_ H 2, at_ H 3, at_ H 4) in
  [u32 (at_ H 0 + A); u32 (at_ H 1 + B); u32 (at_ H 2 + C); u32 (at_ H 3 + D); u32 (at_ H 4 + E)].

(** The first [n] blocks of 64 bytes of [m], hashed from [H]. *)
Fixpoint hash_blocks (n : nat) (H m : list Z) : list Z :=
  match n with
  | O => H
  | S n => hash_blocks n (fips_compress H (take 64 m)) (drop 64 m)
  end.

(** The 64-bit big-endian message length. *)
Definition be64 (v : Z) : list Z :=
  map (fun k => u8 (Z.shiftr v (8 * k))) [7; 6; 5; 4; 3; 2; 1; 0].

Definition sha1_zeros (len : nat) : nat := ((119 - len mod 64) mod 64)%nat.

Definition sha1_padding (len : nat) : list Z :=
  [0x80] ++ replicate (sha1_zeros len) 0 ++ be64 (8 * Z.of_nat len).

Definition fips_sha1 (m : list Z) : list Z :=
  let padded := m ++ sha1_padding (length m) in
  digest_bytes (hash_blocks (length padded / 64) H_init padded).

(** ** The compression function is the standard's *)

Lemma f0_Ch B C D : f0 B C D = Ch B C D.
Proof.
  unfold f0, Ch. apply Z.bits_inj'. intros i Hi.
  rewrite Z.lor_spec, Z.lxor_spec, !Z.land_spec. unfold u32.
  destruct (decide (i < 32)).
  - rewrite Z.mod_pow2_bits_low, Z.lnot_spec by lia. by destruct (Z.testbit B i), (Z.testbit C i), (Z.testbit D i).
  - rewrite Z.mod_pow2_bits_high by lia. by destruct (Z.testbit B i), (Z.testbit C i).
Qed.

Lemma f2_Maj B C D : f2 B C D = Maj B C D.
Proof.
  unfold f2, Maj. apply Z.bits_inj'. intros i Hi.
  rewrite !Z.lor_spec, !Z.lxor_spec, !Z.land_spec.
  by destruct (Z.testbit B i), (Z.testbit C i), (Z.testbit D i).
Qed.

Lemma round_ext f g k W r t : (∀ B C D, f B C D = g B C D) → round f k W r t = round g k W r t.
Proof. intros E. unfold round. destruct r as [[[[A B] C] D] E']. by rewrite E. Qed.

(** A run of rounds with one function is a segment of the standard's loop. *)
Lemma fips_segment f k W r n len :
  (∀ t, (n <= t < n + len)%nat → K_t t = k ∧ ∀ B C D, f B C D = f_t t B C D) →
  fold_left (round f k W) (seq n len) r = fold_left (fips_step W) (seq n len) r.
Proof.
  revert n r. induction len as [|len IH]; intros n r H; simpl; [done|].
  destruct (H n) as [<- E]; [lia|]. unfold fips_step at 2. rewrite (round_ext _ _ _ _ _ _ E).
  apply IH. intros t Ht. apply H. lia.
Qed.

Ltac fips_range :=
  intros t Ht; unfold K_t, f_t;
  repeat match goal with
  | |- context [(?a <? ?b)%nat] => destruct (Nat.ltb_spec a b); try lia
  end; split; try done; intros; try apply f0_Ch; try apply f2_Maj.

Lemma compress_fips H block : compress H block = fips_compress H block.
Proof.
  unfold compress, fips_compress.
  rewrite (fips_segment f0), (fips_segment f1 (at_ K 1)), (fips_segment f2),
    (fips_segment f1 (at_ K 3)) by fips_range.
  rewrite <- !fold_left_app. done.
Qed.

(** ** Blocks *)

#[local] Opaque fips_compress compress.

Lemma hash_blocks_app n H m x :
  (64 * n <= length m)%nat → hash_blocks n H (m ++ x) = hash_blocks n H m.
Proof.
  revert H m. induction n as [|n IH]; intros H m Hl; simpl; [done|].
  rewrite take_app_le, drop_app_le by lia. apply IH. rewrite length_drop. lia.
Qed.

Lemma hash_blocks_S n H m :
  hash_blocks (S n) H m = fips_compress (hash_blocks n H m) (take 64 (drop (64 * n) m)).
Proof.
  revert H m. induction n as [|n IH]; intros H m.
  { rewrite Nat.mul_0_r, drop_0. reflexivity. }
  change (hash_blocks (S (S n)) H m) with (hash_blocks (S n) (fips_compress H (take 64 m)) (drop 64 m)).
  rewrite IH, drop_drop. replace (64 * S n)%nat with (64 + 64 * n)%nat by lia. reflexivity.
Qed.

(** ** The context and the message it has absorbed *)

Record represents (c : SHA1Context) (m : list Z) : Prop := Rep
  { rep_hash : Intermediate_Hash c = hash_blocks (length m / 64) H_init m;
    rep_index : Message_Block_Index c = (length m mod 64)%nat;
    rep_len : length (Message_Block c) = 64%nat;
    rep_block : take (Message_Block_Index c) (Message_Block c) = drop (64 * (length m / 64)) m;
    rep_low : is_u32 (Length_Low c);
    rep_high : is_u32 (Length_High c);
    rep_count : Length_Low c + 2 ^ 32 * Length_High c = 8 * Z.of_nat (length m);
    rep_computed : Computed c = false;
    rep_ok : Corrupted c = 0 }.

Lemma SHA1_Init_represents c : length (Message_Block c) = 64%nat → represents (SHA1_Init c) [].
Proof. intros H. split; unfold is_u32; try reflexivity; [exact H|simpl; lia..]. Qed.

Lemma count_step low high n :
  is_u32 low → is_u32 high → low + 2 ^ 32 * high = 8 * n → 8 * (n + 1) < 2 ^ 64 →
  let low' := u32 (low + 8) in
  let high' := if low' =? 0 then u32 (high + 1) else high in
  is_u32 low' ∧ is_u32 high' ∧ low' + 2 ^ 32 * high' = 8 * (n + 1) ∧
  (low' =? 0) && (high' =? 0) = false.
Proof.
  intros Hl Hh Hc Hn low' high'. unfold is_u32 in *.
  assert (E : (low' = low + 8 ∧ low' ≠ 0) ∨ (low' = 0 ∧ low + 8 = 2 ^ 32)).
  { unfold low', u32. change (2 ^ 32) with 4294967296 in *. change (2 ^ 64) with 18446744073709551616 in *.
    Z.to_euclidean_division_equations. lia. }
  pose proof (u32_range (low + 8)) as Hr. fold low' in Hr. unfold is_u32 in Hr.
  unfold high'. destruct E as [[E1 E2]|[E1 E2]]; clearbody low'; destruct (Z.eqb_spec low' 0); try (exfalso; lia).
  - change (2 ^ 64) with (2 ^ 32 * 2 ^ 32) in Hn. split_and!; try done; lia.
  - unfold u32. change (2 ^ 64) with (2 ^ 32 * 2 ^ 32) in Hn.
    rewrite Z.mod_small by lia. split_and!; lia.
Qed.

Lemma land_FF b : is_byte b → u8 (Z.land b 0xFF) = b.
Proof.
  intros. change 0xFF with (2 ^ 8 - 1). rewrite land_ones_mod by lia.
  fold (u8 b). by rewrite (u8_small b), u8_small.
Qed.

#[local] Arguments hash_blocks : simpl never.

(** Reduce the field accesses of an updated context, and nothing else. *)
Ltac sha_simpl :=
  cbn [Message_Block_Index Length_Low Length_High Message_Block Computed Corrupted
       Intermediate_Hash push_block set_index set_block SHA1ProcessMessageBlock] in *.

(** One byte: the index, the block and the hash follow the message. *)
Lemma SHA1Input_byte_represents c m b :
  represents c m → is_byte b → 8 * Z.of_nat (S (length m)) < 2 ^ 64 →
  represents (SHA1Input_byte c b) (m ++ [b]).
Proof.
  intros R Hb Hn. destruct R as [Hh Hi Hl Hbl Hlow Hhigh Hc Hcomp Hok].
  destruct (count_step (Length_Low c) (Length_High c) (Z.of_nat (length m))) as (L1 & L2 & L3 & L4);
    [done..|lia|].
  pose proof (Nat.mod_upper_bound (length m) 64 ltac:(lia)) as Hub.
  pose proof (Nat.div_mod_eq (length m) 64) as Hdm.
  assert (Hlen : length (m ++ [b]) = S (length m)) by (rewrite length_app; simpl; lia).
  assert (Hdl : length (drop (64 * (length m / 64)) m) = (length m mod 64)%nat)
    by (rewrite length_drop; lia).
  assert (Hblk : take (S (Message_Block_Index c)) (<[Message_Block_Index c := b]> (Message_Block c))
                 = drop (64 * (length m / 64)) m ++ [b]).
  { rewrite (take_S_r _ _ b) by (apply list_lookup_insert_eq; lia).
    by rewrite take_insert_ge, Hbl by lia. }
  unfold SHA1Input_byte. sha_simpl.
  rewrite land_FF, L4 by done.
  destruct (Nat.eqb_spec (S (Message_Block_Index c)) 64) as [E|E].
  - assert (Hd : (S (length m) / 64 = S (length m / 64))%nat ∧ (S (length m) mod 64 = 0)%nat).
    { rewrite Hi in E. replace (S (length m)) with (0 + S (length m / 64) * 64)%nat by lia.
      rewrite Nat.div_add, Nat.Div0.mod_add by lia. done. }
    destruct Hd as [Hd1 Hd2].
    split; sha_simpl; rewrite ?Hlen, ?Hd1, ?Hd2; try done.
    + rewrite hash_blocks_S, hash_blocks_app, <- Hh, compress_fips by lia. f_equal.
      rewrite drop_app_le, <- Hblk, E by lia. rewrite take_take. symmetry.
      apply firstn_all2. rewrite length_insert. lia.
    + by rewrite length_insert.
    + rewrite drop_ge; [done|]. lia.
    + rewrite L3. lia.
  - assert (Hd : (S (length m) / 64 = length m / 64)%nat ∧ (S (length m) mod 64 = S (length m mod 64))%nat).
    { replace (S (length m)) with (S (length m mod 64) + (length m / 64) * 64)%nat by lia.
      rewrite Nat.div_add, Nat.Div0.mod_add, Nat.div_small, Nat.mod_small by lia. done. }
    destruct Hd as [Hd1 Hd2].
    split; sha_simpl; rewrite ?Hlen, ?Hd1, ?Hd2; try done.
    + rewrite hash_blocks_app by lia. done.
    + by rewrite Hi.
    + by rewrite length_insert.
    + rewrite Hblk, drop_app_le by lia. done.
    + rewrite L3. lia.
Qed.

(** ** Padding *)

(** Everything but the index and the contents of the block is unchanged. *)
Definition same_state (c c' : SHA1Context) : Prop :=
  Intermediate_Hash c' = Intermediate_Hash c ∧ Length_Low c' = Length_Low c ∧
  Length_High c' = Length_High c ∧ Computed c' = Computed c ∧ Corrupted c' = Corrupted c ∧
  length (Message_Block c') = length (Message_Block c).

#[export] Instance same_state_trans : Transitive same_state.
Proof. unfold same_state. intros ???. intuition congruence. Qed.

Lemma push_block_spec b c :
  (Message_Block_Index c < length (Message_Block c))%nat →
  same_state c (push_block b c) ∧ Message_Block_Index (push_block b c) = S (Message_Block_Index c) ∧
  take (S (Message_Block_Index c)) (Message_Block (push_block b c)) =
  take (Message_Block_Index c) (Message_Block c) ++ [u8 b].
Proof.
  intros Hi. unfold same_state. sha_simpl. rewrite length_insert.
  split; [done|]. split; [done|].
  rewrite (take_S_r _ _ (u8 b)) by (apply list_lookup_insert_eq; lia).
  by rewrite take_insert_ge by lia.
Qed.

Lemma pad_zeros_spec fuel limit c :
  (Message_Block_Index c <= limit <= length (Message_Block c))%nat →
  (limit - Message_Block_Index c <= fuel)%nat →
  same_state c (pad_zeros fuel limit c) ∧ Message_Block_Index (pad_zeros fuel limit c) = limit ∧
  take limit (Message_Block (pad_zeros fuel limit c)) =
  take (Message_Block_Index c) (Message_Block c) ++ replicate (limit - Message_Block_Index c) 0.
Proof.
  revert c. induction fuel as [|fuel IH]; intros c Hi Hf; simpl.
  - replace limit with (Message_Block_Index c) by lia. rewrite Nat.sub_diag. simpl.
    rewrite app_nil_r. done.
  - destruct (Nat.ltb_spec (Message_Block_Index c) limit) as [E|E].
    + destruct (push_block_spec 0 c) as (S1 & I1 & T1); [lia|].
      destruct (IH (push_block 0 c)) as (S2 & I2 & T2).
      { rewrite I1. destruct S1 as (_ & _ & _ & _ & _ & ->). lia. }
      { rewrite I1. lia. }
      split; [by etrans|]. split; [done|]. rewrite T2, I1, T1, <- app_assoc. f_equal.
      replace (limit - Message_Block_Index c)%nat with (S (limit - S (Message_Block_Index c))) by lia.
      done.
    + replace limit with (Message_Block_Index c) by lia. rewrite Nat.sub_diag. simpl.
      rewrite app_nil_r. done.
Qed.

Lemma be64_words low high :
  is_u32 low → is_u32 high →
  be64 (low + 2 ^ 32 * high) =
  [u8 (Z.shiftr high 24); u8 (Z.shiftr high 16); u8 (Z.shiftr high 8); u8 high;
   u8 (Z.shiftr low 24); u8 (Z.shiftr low 16); u8 (Z.shiftr low 8); u8 low].
Proof.
  unfold is_u32. intros Hl Hh. unfold be64. cbn [map]. unfold u8.
  assert (Hhi : ∀ k, 0 <= k → Z.shiftr (low + 2 ^ 32 * high) (32 + k) = Z.shiftr high k).
  { intros k Hk. rewrite !Z.shiftr_div_pow2, Z.pow_add_r, <- Z.div_div by lia. f_equal.
    rewrite Z.mul_comm, Z.div_add by lia. rewrite Z.div_small by lia. lia. }
  assert (Hlo : ∀ k, 0 <= k <= 24 →
    Z.shiftr (low + 2 ^ 32 * high) k `mod` 2 ^ 8 = Z.shiftr low k `mod` 2 ^ 8).
  { intros k Hk. rewrite !Z.shiftr_div_pow2 by lia.
    replace (2 ^ 32 * high) with (2 ^ (24 - k) * high * 2 ^ 8 * 2 ^ k).
    - rewrite Z.div_add by lia. by rewrite Z.mod_add by lia.
    - replace (2 ^ 32) with (2 ^ (24 - k) * 2 ^ 8 * 2 ^ k); [ring|].
      rewrite <- !Z.pow_add_r by lia. f_equal. lia. }
  change (8 * 7) with (32 + 24). change (8 * 6) with (32 + 16). change (8 * 5) with (32 + 8).
  change (8 * 4) with (32 + 0). rewrite (Hhi 24), (Hhi 16), (Hhi 8), (Hhi 0) by lia.
  rewrite (Hlo (8 * 3)), (Hlo (8 * 2)), (Hlo (8 * 1)), (Hlo (8 * 0)) by lia.
  change (8 * 0) with 0. by rewrite !Z.shiftr_0_r.
Qed.

Lemma store_length_block c :
  length (Message_Block c) = 64%nat → is_u32 (Length_Low c) → is_u32 (Length_High c) →
  Message_Block (store_length c) =
  take 56 (Message_Block c) ++ be64 (Length_Low c + 2 ^ 32 * Length_High c).
Proof.
  intros Hl Hlo Hhi. rewrite be64_words by done. unfold store_length. sha_simpl.
  assert (Ht : length (take 56 (Message_Block c)) = 56%nat) by (rewrite length_take; lia).
  assert (Hd : length (drop 56 (Message_Block c)) = 8%nat) by (rewrite length_drop; lia).
  rewrite <- (take_drop 56 (Message_Block c)) at 1.
  set (t := take 56 _) in *. set (d := drop 56 _) in *. clearbody t d.
  destruct d as [|d0 [|d1 [|d2 [|d3 [|d4 [|d5 [|d6 [|d7 [|]]]]]]]]]; simpl in Hd; try lia.
  rewrite !insert_app_r_alt by lia. rewrite Ht. reflexivity.
Qed.

Lemma take_eq_block (n : nat) (l : list Z) : length l = n → take n l = l.
Proof. intros <-. apply firstn_all. Qed.

(** Hashing a message whose last, partial block is completed by [x]. *)
Lemma hash_blocks_complete H m x :
  length (drop (64 * (length m / 64)) m ++ x) = 64%nat →
  (length (m ++ x) / 64)%nat = S (length m / 64) ∧
  hash_blocks (S (length m / 64)) H (m ++ x) =
  fips_compress (hash_blocks (length m / 64) H m) (drop (64 * (length m / 64)) m ++ x).
Proof.
  intros Hl. pose proof (Nat.div_mod_eq (length m) 64) as Hdm. revert Hl Hdm.
  generalize (length m / 64)%nat as q, (length m mod 64)%nat as r. intros q r Hl Hdm.
  rewrite hash_blocks_S, hash_blocks_app, drop_app_le by lia.
  rewrite (take_eq_block 64) by done. split; [|done].
  rewrite length_app, length_drop in Hl. rewrite length_app.
  replace (length m + length x)%nat with (S q * 64)%nat by lia. by rewrite Nat.div_mul.
Qed.

Lemma hash_blocks_complete2 H m x y :
  length (drop (64 * (length m / 64)) m ++ x) = 64%nat → length y = 64%nat →
  hash_blocks (length (m ++ x ++ y) / 64) H (m ++ x ++ y) =
  fips_compress (fips_compress (hash_blocks (length m / 64) H m)
                               (drop (64 * (length m / 64)) m ++ x)) y.
Proof.
  intros Hx Hy. destruct (hash_blocks_complete H m x Hx) as [Hn <-].
  rewrite app_assoc. rewrite <- Hn.
  assert (Hd : drop (64 * (length (m ++ x) / 64)) (m ++ x) = []).
  { apply drop_ge. rewrite Hn. rewrite length_app, length_drop in *.
    pose proof (Nat.div_mod_eq (length m) 64). pose proof (Nat.mod_upper_bound (length m) 64). lia. }
  destruct (hash_blocks_complete H (m ++ x) y) as [-> ->]; rewrite Hd; done.
Qed.

Lemma sha1_padding_long n :
  (55 < n mod 64)%nat →
  sha1_padding n = ([0x80] ++ replicate (63 - n mod 64) 0) ++ replicate 56 0 ++ be64 (8 * Z.of_nat n).
Proof.
  intros H. pose proof (Nat.mod_upper_bound n 64 ltac:(lia)). unfold sha1_padding, sha1_zeros.
  rewrite (Nat.mod_small (119 - n mod 64)) by lia.
  replace (119 - n mod 64)%nat with (63 - n mod 64 + 56)%nat by lia.
  by rewrite replicate_add, <- !app_assoc.
Qed.

Lemma sha1_padding_short n :
  (n mod 64 <= 55)%nat →
  sha1_padding n = [0x80] ++ replicate (55 - n mod 64) 0 ++ be64 (8 * Z.of_nat n).
Proof.
  intros H. unfold sha1_padding, sha1_zeros.
  replace (119 - n mod 64)%nat with (55 - n mod 64 + 1 * 64)%nat by lia.
  by rewrite Nat.Div0.mod_add, Nat.mod_small by lia.
Qed.

Lemma iter2_ext (f g : list Z → list Z → list Z) h a b a' b' :
  (∀ x y, f x y = g x y) → a = a' → b = b' → f (f h a) b = g (g h a') b'.
Proof. intros E -> ->. by rewrite !E. Qed.

(** Padding leaves the hash of the padded message. *)
Lemma SHA1PadMessage_represents c m :
  represents c m →
  Intermediate_Hash (SHA1PadMessage c) =
  hash_blocks (length (m ++ sha1_padding (length m)) / 64) H_init (m ++ sha1_padding (length m)).
Proof.
  intros [Hh Hi Hl Hbl Hlow Hhigh Hc _ _].
  pose proof (Nat.mod_upper_bound (length m) 64 ltac:(lia)) as Hub.
  pose proof (Nat.div_mod_eq (length m) 64) as Hdm.
  assert (Hdl : length (drop (64 * (length m / 64)) m) = (length m mod 64)%nat)
    by (rewrite length_drop; lia).
  destruct (push_block_spec 0x80 c) as (S1 & I1 & T1); [lia|].
  pose proof S1 as (H1 & L1 & G1 & _ & _ & N1). change (u8 0x80) with 0x80 in T1.
  unfold SHA1PadMessage. destruct (Nat.ltb_spec 55 (Message_Block_Index c)) as [E|E].
  - destruct (pad_zeros_spec 64 64 (push_block 0x80 c)) as (S2 & I2 & T2); [lia|lia|].
    pose proof S2 as (H2 & L2 & G2 & _ & _ & N2).
    set (c2 := pad_zeros 64 64 _) in *.
    destruct (pad_zeros_spec 64 56 (SHA1ProcessMessageBlock c2)) as (S3 & I3 & T3); [sha_simpl; lia..|].
    pose proof S3 as (H3 & L3 & G3 & _ & _ & N3).
    set (c3 := pad_zeros 64 56 _) in *.
    cbn [Intermediate_Hash SHA1ProcessMessageBlock Length_Low Length_High Message_Block_Index Message_Block] in *.
    rewrite store_length_block, T3, L3, G3, L2, G2, L1, G1, Hc by congruence.
    change (Intermediate_Hash (store_length c3)) with (Intermediate_Hash c3).
    rewrite take_eq_block, I1, T1, Hbl in T2 by congruence.
    rewrite sha1_padding_long, hash_blocks_complete2 by
      (rewrite ?length_app, ?length_replicate, ?Hdl, <- ?Hi; simpl length; lia).
    rewrite H3, H2, H1, Hh, T2.
    apply (iter2_ext compress fips_compress); [apply compress_fips| |]; by rewrite Hi, <- ?app_assoc.
  - destruct (pad_zeros_spec 64 56 (push_block 0x80 c)) as (S2 & I2 & T2); [lia|lia|].
    pose proof S2 as (H2 & L2 & G2 & _ & _ & N2).
    set (c2 := pad_zeros 64 56 _) in *.
    cbn [Intermediate_Hash SHA1ProcessMessageBlock] in *.
    rewrite store_length_block, L2, G2, L1, G1, Hc by congruence.
    change (Intermediate_Hash (store_length c2)) with (Intermediate_Hash c2).
    rewrite T2, I1, T1, Hbl, sha1_padding_short by lia.
    destruct (hash_blocks_complete H_init m
      ([0x80] ++ replicate (55 - length m mod 64) 0 ++ be64 (8 * Z.of_nat (length m)))) as [-> ->].
    { rewrite !length_app, length_replicate, Hdl. simpl length. lia. }
    rewrite H2, H1, Hh, compress_fips, Hi, <- !app_assoc. reflexivity.
Qed.

Lemma digest_bytes_wf H : length (digest_bytes H) = 20%nat ∧ bytes (digest_bytes H).
Proof.
  split; [reflexivity|]. apply Forall_forall. intros b Hb. unfold digest_bytes in Hb.
  apply list_elem_of_In, in_map_iff in Hb as (i & <- & _). apply u8_byte.
Qed.

(** ** Feeding and finishing *)

#[local] Opaque SHA1PadMessage digest_bytes SHA1ProcessMessageBlock.

Lemma SHA1_Update_eq c data :
  SHA1_Update c data =
  match data with
  | [] => c
  | _ => if Computed c then set_corrupted shaStateError c else
         if nz (Corrupted c) then c else SHA1Input_loop c data
  end.
Proof.
  unfold SHA1_Update, SHA1Input. destruct data as [|b data]; [done|].
  destruct (Nat.eqb_spec (length (b :: data)) 0) as [E|_]; [done|].
  rewrite firstn_all. by destruct (Computed c), (nz (Corrupted c)).
Qed.

Lemma SHA1Input_byte_computed c b : Computed (SHA1Input_byte c b) = Computed c.
Proof. unfold SHA1Input_byte. by case_match. Qed.

Lemma SHA1Input_loop_computed c m : Computed (SHA1Input_loop c m) = Computed c.
Proof.
  revert c. induction m as [|b m IH]; intros c; [done|]. cbn [SHA1Input_loop].
  destruct (nz (Corrupted c)); [done|]. by rewrite IH, SHA1Input_byte_computed.
Qed.

Lemma SHA1Input_loop_corrupted c m : nz (Corrupted c) = true → SHA1Input_loop c m = c.
Proof. destruct m; [done|]. cbn [SHA1Input_loop]. by intros ->. Qed.

Lemma SHA1Input_loop_app c a b :
  SHA1Input_loop c (a ++ b) = SHA1Input_loop (SHA1Input_loop c a) b.
Proof.
  revert c. induction a as [|x a IH]; intros c; [done|]. simpl app. cbn [SHA1Input_loop].
  destruct (nz (Corrupted c)) eqn:E; [by rewrite SHA1Input_loop_corrupted|apply IH].
Qed.

Lemma SHA1Input_loop_represents c m x :
  represents c m → bytes x → 8 * Z.of_nat (length (m ++ x)) < 2 ^ 64 →
  represents (SHA1Input_loop c x) (m ++ x).
Proof.
  revert c m. induction x as [|b x IH]; intros c m R Hx Hl; [by rewrite app_nil_r|].
  inversion_clear Hx. cbn [SHA1Input_loop]. rewrite (rep_ok _ _ R). change (nz 0) with false. cbv iota.
  replace (m ++ b :: x) with ((m ++ [b]) ++ x) in * by (by rewrite <- app_assoc).
  apply IH; [|done|done]. apply SHA1Input_byte_represents; [done|done|].
  rewrite !length_app in Hl. simpl in Hl. lia.
Qed.

Lemma SHA1_Update_represents c m x :
  represents c m → bytes x → 8 * Z.of_nat (length (m ++ x)) < 2 ^ 64 →
  represents (SHA1_Update c x) (m ++ x).
Proof.
  intros R Hx Hl. rewrite SHA1_Update_eq, (rep_computed _ _ R), (rep_ok _ _ R). change (nz 0) with false. cbv iota.
  destruct x; [by rewrite app_nil_r|]. by apply SHA1Input_loop_represents.
Qed.

Lemma SHA1_Final_eq digest c :
  Corrupted c = 0 → Computed c = false →
  (SHA1_Final digest c).1 = digest_bytes (Intermediate_Hash (SHA1PadMessage c)).
Proof.
  unfold SHA1_Final, SHA1Result. generalize (SHA1PadMessage c) as p. intros p.
  generalize digest_bytes as dg. intros dg -> ->. reflexivity.
Qed.

Lemma SHA1_Final_corrupted digest c : nz (Corrupted c) = true → (SHA1_Final digest c).1 = digest.
Proof. unfold SHA1_Final, SHA1Result. by intros ->. Qed.

Lemma SHA1_Final_represents digest c m :
  represents c m → (SHA1_Final digest c).1 = fips_sha1 m.
Proof.
  intros R. rewrite SHA1_Final_eq by apply R. unfold fips_sha1.
  rewrite (SHA1PadMessage_represents c m R).
  generalize (hash_blocks (length (m ++ sha1_padding (length m)) / 64) H_init
                (m ++ sha1_padding (length m))). reflexivity.
Qed.

(** The digest function promised by [HashFunction]. *)
#[export] Instance fips_sha1_hash : HashFunction fips_sha1.
Proof. split; intros m; unfold fips_sha1; apply digest_bytes_wf. Qed.

Definition uninit_ctx : SHA1Context := MkSHA1 (replicate 5 0) 0 0 0 (replicate 64 0) true 7.

(** C15: the three-call interface computes FIPS 180-1: after [SHA1_Init], any sequence
    of [SHA1_Update] calls and [SHA1_Final], the digest is the standard's hash of the
    concatenation of the pieces, for every message shorter than 2^61 bytes and
    whatever the context held before. *)
Theorem SHA1_correct (c : SHA1Context) (pieces : list (list Z)) (digest : list Z) :
  length (Message_Block c) = 64%nat → Forall bytes pieces →
  8 * Z.of_nat (length (concat pieces)) < 2 ^ 64 →
  (SHA1_Final digest (fold_left SHA1_Update pieces (SHA1_Init c))).1 = fips_sha1 (concat pieces).
Proof.
  intros Hb Hp Hl. apply SHA1_Final_represents.
  assert (H : ∀ m c', represents c' m → 8 * Z.of_nat (length (m ++ concat pieces)) < 2 ^ 64 →
    represents (fold_left SHA1_Update pieces c') (m ++ concat pieces)).
  { clear Hl. induction Hp as [|x pieces Hx _ IH]; intros m c' R Hl; simpl in *.
    - by rewrite app_nil_r.
    - rewrite app_assoc in *. apply IH; [|done]. apply SHA1_Update_represents; [done|done|].
      rewrite length_app in Hl. lia. }
  apply (H []); [by apply SHA1_Init_represents|done].
Qed.

Lemma SHA1_correct_witness :
  (SHA1_Final [] (fold_left SHA1_Update [bytes_of_string "a"; bytes_of_string "bc"]
                    (SHA1_Init uninit_ctx))).1 = fips_sha1 (bytes_of_string "abc") ∧
  fips_sha1 (bytes_of_string "abc") =
    [0xa9; 0x99; 0x3e; 0x36; 0x47; 0x06; 0x81; 0x6a; 0xba; 0x3e;
     0x25; 0x71; 0x78; 0x50; 0xc2; 0x6c; 0x9c; 0xd0; 0xd8; 0x9d].
Proof.
  split; [|vm_compute; reflexivity].
  apply (SHA1_correct uninit_ctx [bytes_of_string "a"; bytes_of_string "bc"] []);
    [reflexivity|repeat constructor; done|vm_compute; reflexivity].
Defined.

(** Two updates are one. *)
Lemma update_app (c : SHA1Context) (a b : list Z) :
  SHA1_Update (SHA1_Update c a) b = SHA1_Update c (a ++ b).
Proof.
  rewrite !SHA1_Update_eq.
  destruct a as [|x a]; [done|]. destruct b as [|y b]; [by rewrite app_nil_r|].
  simpl app. destruct (Computed c) eqn:Ec.
  - change (Computed (set_corrupted shaStateError c)) with (Computed c). rewrite Ec. done.
  - destruct (nz (Corrupted c)) eqn:E; [by rewrite Ec, E|].
    rewrite SHA1Input_loop_computed, Ec.
    change (x :: a ++ y :: b) with ((x :: a) ++ (y :: b)). rewrite SHA1Input_loop_app.
    destruct (nz (Corrupted (SHA1Input_loop c (x :: a)))) eqn:E'; [|done].
    symmetry. by apply SHA1Input_loop_corrupted.
Qed.

(** Cutting the input does not matter, whatever the state of the context
    (errors included): the equation that [sha1.h] documents for [SHA1_Update]. *)
Theorem SHA1_Update_app (c : SHA1Context) (a b : list Z) :
  SHA1_Update (SHA1_Update c a) b = SHA1_Update c (a ++ b).
Proof. apply update_app. Qed.

Lemma SHA1Input_byte_overflow c m b :
  represents c m → 8 * Z.of_nat (S (length m)) = 2 ^ 64 → Corrupted (SHA1Input_byte c b) = 1.
Proof.
  intros R Hn. pose proof (rep_low _ _ R). pose proof (rep_high _ _ R). pose proof (rep_count _ _ R).
  unfold is_u32 in *. assert (E : Length_Low c = 2 ^ 32 - 8 ∧ Length_High c = 2 ^ 32 - 1).
  { change (2 ^ 32) with 4294967296 in *. change (2 ^ 64) with (4294967296 * 4294967296) in *. lia. }
  destruct E as [E1 E2]. unfold SHA1Input_byte. sha_simpl. rewrite E1, E2.
  change (u32 (2 ^ 32 - 8 + 8) =? 0) with true. change (u32 (2 ^ 32 - 1 + 1) =? 0) with true.
  by case_match.
Qed.

(** A message of 2^61 bytes or more is refused: the context becomes corrupted at
    the byte that makes the 64-bit bit count wrap, and [SHA1_Final] leaves the digest
    buffer as it was (the wrapper drops the error code, so the caller cannot tell). *)
Theorem SHA1_too_long (c : SHA1Context) (m digest : list Z) :
  length (Message_Block c) = 64%nat → bytes m → 2 ^ 61 <= Z.of_nat (length m) →
  (SHA1_Final digest (SHA1_Update (SHA1_Init c) m)).1 = digest.
Proof.
  intros Hb Hm Hl. set (n := Z.to_nat (2 ^ 61 - 1)).
  rewrite <- (take_drop n m), <- update_app.
  assert (Hn : length (take n m) = n) by (rewrite length_take; subst n; lia).
  pose proof (SHA1_Update_represents (SHA1_Init c) [] (take n m)) as R. simpl app in R.
  rewrite Hn in R. specialize (R (SHA1_Init_represents c Hb) (Forall_take _ _ _ Hm)).
  assert (R' : represents (SHA1_Update (SHA1_Init c) (take n m)) (take n m)).
  { apply R. subst n. change (2 ^ 64) with (8 * 2 ^ 61). lia. }
  clear R. revert R'. generalize (SHA1_Update (SHA1_Init c) (take n m)) as c1. intros c1 R.
  destruct (drop n m) as [|b rest] eqn:Ed.
  { apply (f_equal length) in Ed. rewrite length_drop in Ed. simpl in Ed. subst n. lia. }
  rewrite SHA1_Update_eq, (rep_computed _ _ R), (rep_ok _ _ R). change (nz 0) with false. cbv iota.
  cbn [SHA1Input_loop]. rewrite (rep_ok _ _ R). change (nz 0) with false. cbv iota.
  assert (Hc : Corrupted (SHA1Input_byte c1 b) = 1).
  { apply SHA1Input_byte_overflow with (take n m); [done|]. rewrite Hn. subst n.
    change (2 ^ 64) with (8 * 2 ^ 61). lia. }
  rewrite SHA1Input_loop_corrupted by (by rewrite Hc).
  apply SHA1_Final_corrupted. by rewrite Hc.
Qed.

Lemma SHA1_too_long_witness :
  (SHA1_Final [9] (SHA1_Update (SHA1_Init uninit_ctx) (replicate (Z.to_nat (2 ^ 61)) 0))).1 = [9].
Proof.
  apply SHA1_too_long; [reflexivity| |].
  - apply Forall_replicate. unfold is_byte. lia.
  - rewrite length_replicate, Z2Nat.id; lia.
Defined.
