(* ===== verification/Bloomfilter.v ===== *)
(** * Bloomfilter: [utils/bloomfilter.c] and [utils/bloomfilter.h].

    [struct bloomfilter] is the record of its three header words, the salts and the
    bins that follow it in memory.  An out-of-bounds access, a NULL dereference or a
    division by zero is [None].  OpenSSL's SHA-1, [malloc], [rand] and the floating
    point functions of libm are parameters.  The abstract view of a filter is the
    finite set [bit_set] of the bits that are one; [add], [check] and [merge] are
    proved to be union, inclusion and union. *)

From S2P Require Import Prelude Text Base64 Sha1.

(** ** Data *)

Record bloomfilter := BF
  { bf_k : Z; bf_m : Z; bf_n : Z; bf_salts : list Z; bf_bins : list Z }.

Definition VALUES_PER_BIN : Z := 8.
Definition BF_OP_CHECK : Z := 0.
Definition BF_OP_ADD : Z := 1.
Definition BF_OP_MAX : Z := 2.

Definition FILTER_LEN (bf : bloomfilter) : Z := bf_m bf / VALUES_PER_BIN * 1.
Definition SALTS_LEN (bf : bloomfilter) : Z := bf_k bf * 4.
Definition BLOOMFILTER_TOT_LEN (bf : bloomfilter) : Z := 12 + SALTS_LEN bf + FILTER_LEN bf.

Definition MERGE_RESULT_ERROR : Z := -3.
Definition MERGE_RESULT_SALTS_ERROR : Z := -2.
Definition MERGE_RESULT_PARAM_ERROR : Z := -1.
Definition MERGE_RESULT_OK : Z := 0.

(** ** Dimensioning: [bloomfilter_calculate_length] over abstract doubles *)

Class Doubles (D : Type) :=
  { d_of_Z : Z → D;
    d_mul : D → D → D; d_div : D → D → D; d_sub : D → D → D; d_add : D → D → D;
    d_pow : D → D → D; d_log : D → D;
    d_lt : D → D → bool;
    d_to_uint : D → Z }.

Definition MAX_NUM_HASH_FUNCS : Z := 100.

Section Dimension.
Context {D : Type} `{Doubles D}.

(** [(-1 * k * num_keys) / log (1 - pow (error_rate, 1/k))] *)
Definition filter_size (num_keys : Z) (error_rate : D) (k : Z) : D :=
  d_div (d_mul (d_mul (d_of_Z (-1)) (d_of_Z k)) (d_of_Z num_keys))
        (d_log (d_sub (d_of_Z 1) (d_pow error_rate (d_div (d_of_Z 1) (d_of_Z k))))).

Definition length_step (num_keys : Z) (error_rate : D) (st : D * Z) (k : Z) : D * Z :=
  let '(m_tmp, best_k) := st in
  let m := filter_size num_keys error_rate k in
  if d_lt m_tmp (d_of_Z 0) || d_lt m m_tmp then (m, k) else (m_tmp, best_k).

Definition length_search (num_keys : Z) (error_rate : D) : D * Z :=
  fold_left (length_step num_keys error_rate) (seqZ 1 MAX_NUM_HASH_FUNCS) (d_of_Z (-1), 1).

(** "m must be evenly divisible by eight" *)
Definition round_to_8 (m : Z) : Z :=
  if negb (m `mod` 8 =? 0) then u32 (m + (8 - m `mod` 8)) else m.

(** Returns [( *lowest_m, *best_k)]. *)
Definition bloomfilter_calculate_length (num_keys : Z) (error_rate : D) : Z * Z :=
  let '(m_tmp, best_k) := length_search num_keys error_rate in
  (round_to_8 (u32 (d_to_uint (d_add m_tmp (d_of_Z 1)))), best_k).

(** [rand] is the stream of values [rand()] returns after [srand]. *)
Definition bloomfilter_new (malloc_ok : Z → bool) (rand : nat → Z)
    (error_rate : D) (capacity : Z) : option bloomfilter :=
  let '(m, k) := bloomfilter_calculate_length capacity error_rate in
  let bflen := 12 + (k * 4 + m / VALUES_PER_BIN * 1) in
  if negb (malloc_ok bflen) then None else
  Some {| bf_k := k; bf_m := m; bf_n := 0;
          bf_salts := map (fun i => u32 (rand i)) (seq 0 (Z.to_nat k));
          bf_bins := replicate (Z.to_nat (m / VALUES_PER_BIN)) 0 |}.
End Dimension.

(** ** Membership *)

Section Operation.
Context (SHA1 : list Z → list Z).

(** The digest read as five [unsigned int] of the (little-endian) host, xored. *)
Definition hash_of (buf : list Z) : option Z :=
  '(md, _) ← read_many read_le32 5 (SHA1 buf); Some (fold_left Z.lxor md 0).

(** [index = hash % bf->m], an [int] then divided as a [size_t]. *)
Definition bf_index (m : Z) (key : list Z) (salt : Z) : option Z :=
  hash ← hash_of (key ++ le32 salt);
  if m =? 0 then None else Some (u64 (s32 (hash `mod` m))).

Definition bit_mask (index : Z) : Z := Z.shiftl 1 (index `mod` VALUES_PER_BIN).
Definition bin_of (index : Z) : nat := Z.to_nat (index / VALUES_PER_BIN).

(** The loop over the salts: the filter bytes and [res]. *)
Fixpoint bf_loop (op m : Z) (key salts bins : list Z) : option (Z * list Z) :=
  match salts with
  | [] => Some (1, bins)
  | salt :: salts =>
    index ← bf_index m key salt;
    b ← bins !! bin_of index;
    if op =? BF_OP_CHECK then
      if negb (nz (Z.land b (bit_mask index))) then Some (0, bins)
      else bf_loop op m key salts bins
    else bf_loop op m key salts (<[bin_of index := u8 (Z.lor b (bit_mask index))]> bins)
  end.

Definition bloomfilter_operation (malloc_ok : Z → bool) (bf : option bloomfilter)
    (key : option (list Z)) (op : Z) : option (Z * option bloomfilter) :=
  match bf, key with
  | Some f, Some key =>
    if BF_OP_MAX <=? op then Some (-1, bf) else
    if negb (malloc_ok (Z.of_nat (length key) + SALTS_LEN f)) then Some (-1, bf) else
    '(res, bins) ← bf_loop op (bf_m f) key (bf_salts f) (bf_bins f);
    Some (res, Some {| bf_k := bf_k f; bf_m := bf_m f;
                       bf_n := if op =? BF_OP_ADD then u32 (bf_n f + 1) else bf_n f;
                       bf_salts := bf_salts f; bf_bins := bins |})
  | _, _ => Some (-1, bf)
  end.

Definition bloomfilter_check (malloc_ok : Z → bool) bf key :=
  bloomfilter_operation malloc_ok bf key BF_OP_CHECK.
Definition bloomfilter_add (malloc_ok : Z → bool) bf key :=
  bloomfilter_operation malloc_ok bf key BF_OP_ADD.
End Operation.

#[global] Arguments bloomfilter_add : simpl never.
#[global] Arguments bloomfilter_check : simpl never.

Definition bloomfilter_get_n (bf : bloomfilter) : Z := bf_n bf.

Definition bloomfilter_copy (malloc_ok : Z → bool) (bf : option bloomfilter) : option bloomfilter :=
  match bf with
  | None => None
  | Some f => if malloc_ok (BLOOMFILTER_TOT_LEN f) then Some f else None
  end.

(** Returns the result code and the filter [bf] afterwards. *)
Definition bloomfilter_merge (bf bf_merge : option bloomfilter) : Z * option bloomfilter :=
  match bf, bf_merge with
  | Some a, Some b =>
    if negb (bf_m a =? bf_m b) || negb (bf_k a =? bf_k b) then (MERGE_RESULT_PARAM_ERROR, bf) else
    if negb (bool_decide (bf_salts a = bf_salts b)) then (MERGE_RESULT_SALTS_ERROR, bf) else
    (MERGE_RESULT_OK,
     Some {| bf_k := bf_k a; bf_m := bf_m a; bf_n := u32 (bf_n a + bf_n b);
             bf_salts := bf_salts a; bf_bins := zip_with Z.lor (bf_bins a) (bf_bins b) |})
  | _, _ => (MERGE_RESULT_ERROR, bf)
  end.

(** ** Transport *)

(** The filter in network byte order. *)
Definition bf_net_bytes (bf : bloomfilter) : list Z :=
  be32 (bf_k bf) ++ be32 (bf_m bf) ++ be32 (bf_n bf) ++ concat (map be32 (bf_salts bf)) ++ bf_bins bf.

(** [BLOOMFILTER_TOT_LEN (bf)] is computed before [bf] is tested, so a NULL argument
    is dereferenced: [None].  [Some NULL] is [Some None]. *)
Definition bloomfilter_to_base64 (malloc_ok : Z → bool) (bf : option bloomfilter)
  : option (option (list Z)) :=
  match bf with
  | None => None
  | Some f =>
    if negb (malloc_ok (BLOOMFILTER_TOT_LEN f)) then Some None else
    let '(len, b64str) := base64_encode_alloc malloc_ok (bf_net_bytes f) in
    match b64str with
    | None => Some None
    | Some s => if s32 len <? 0 then Some None else Some (Some s)
    end
  end.

Definition parse_net_bytes (l : list Z) : option bloomfilter :=
  '(k, l) ← read_be32 l;
  '(m, l) ← read_be32 l;
  '(n, l) ← read_be32 l;
  '(salts, bins) ← read_many read_be32 (Z.to_nat k) l;
  Some {| bf_k := k; bf_m := m; bf_n := n; bf_salts := salts; bf_bins := bins |}.

(** Converting the header and the salts in place, without looking at the length
    decoded: [None] when the buffer is too short (or NULL after a failed [malloc]). *)
Definition base64_to_bloomfilter (malloc_ok : Z → bool) (ctx_buf b64str : list Z)
  : option (option bloomfilter) :=
  match base64_decode_alloc malloc_ok (base64_decode_ctx_init ctx_buf) b64str with
  | Some (true, Some l) => Some <$> parse_net_bytes l
  | Some (true, None) => None
  | Some (false, _) => Some None
  | None => None
  end.

(** ** Printing *)

(** The struct as it lies in the (little-endian) host's memory. *)
Definition bf_host_bytes (bf : bloomfilter) : list Z :=
  le32 (bf_k bf) ++ le32 (bf_m bf) ++ le32 (bf_n bf) ++ concat (map le32 (bf_salts bf)) ++ bf_bins bf.

(** [len += sprintf (str+len, "%02x", ptr[i] & 0xff)] into a buffer of [cap] bytes:
    two digits and a NUL are stored at [str+len]; [None] when they do not fit. *)
Fixpoint hex_into (cap : nat) (str : list Z) (l : list Z) : option (list Z) :=
  match l with
  | [] => Some str
  | b :: l => if (cap <? length str + 3)%nat then None
              else hex_into cap (str ++ sprintf_02x (Z.land b 0xff)) l
  end.

Definition bloomfilter_to_str (malloc_ok : Z → bool) (bf : option bloomfilter)
  : option (option (list Z)) :=
  match bf with
  | None => Some None
  | Some f =>
    let cap := BLOOMFILTER_TOT_LEN f + 1 in
    if negb (malloc_ok cap) then Some None else
    Some <$> hex_into (Z.to_nat cap) [] (bf_host_bytes f)
  end.

(** The digits [bloomfilter_print] prints: [bins[i] & (1 << (i % VALUES_PER_BIN))]. *)
Definition print_bin (i : nat) (b : Z) : list Z :=
  map (fun _ : nat => if nz (Z.land b (Z.shiftl 1 (Z.of_nat i `mod` VALUES_PER_BIN))) then 49 else 48)
      (seq 0 8).
Definition bloomfilter_print_digits (bf : bloomfilter) : list Z := concat (imap print_bin (bf_bins bf)).

(** ** Well-formed filters and their bit sets *)

Record bf_wf (bf : bloomfilter) : Prop := BFWF
  { wf_k : is_u32 (bf_k bf);
    wf_n : is_u32 (bf_n bf);
    wf_m : 0 < bf_m bf <= 2 ^ 31;
    wf_m8 : bf_m bf `mod` 8 = 0;
    wf_salts : Z.of_nat (length (bf_salts bf)) = bf_k bf;
    wf_salts32 : words (bf_salts bf);
    wf_bins : Z.of_nat (length (bf_bins bf)) = bf_m bf / 8;
    wf_bytes : bytes (bf_bins bf) }.

Definition bit (bins : list Z) (i : Z) : bool :=
  match bins !! bin_of i with Some b => nz (Z.land b (bit_mask i)) | None => false end.

Definition bit_set (bins : list Z) : gset Z :=
  list_to_set (filter (fun i => bit bins i = true) (seqZ 0 (8 * Z.of_nat (length bins)))).

Lemma nz_land_bit b j : 0 <= j → nz (Z.land b (Z.shiftl 1 j)) = Z.testbit b j.
Proof.
  intros Hj. unfold nz. rewrite Z.shiftl_1_l.
  destruct (Z.testbit b j) eqn:E.
  - destruct (Z.eqb_spec (Z.land b (2 ^ j)) 0) as [E'|]; [|done].
    apply (f_equal (fun z => Z.testbit z j)) in E'.
    rewrite Z.land_spec, Z.bits_0, Z.pow2_bits_true, E in E' by lia. done.
  - destruct (Z.eqb_spec (Z.land b (2 ^ j)) 0) as [|E']; [done|]. exfalso. apply E'.
    apply Z.bits_inj'. intros i Hi. rewrite Z.land_spec, Z.bits_0, Z.pow2_bits_eqb by lia.
    destruct (Z.eqb_spec j i); [subst; by rewrite E|apply andb_false_r].
Qed.

Lemma bit_testbit bins i b :
  bins !! bin_of i = Some b → 0 <= i → bit bins i = Z.testbit b (i `mod` 8).
Proof. intros E Hi. unfold bit. rewrite E. apply nz_land_bit, Z.mod_pos_bound. lia. Qed.

Lemma elem_of_bit_set bins i : i ∈ bit_set bins ↔ 0 <= i ∧ bit bins i = true.
Proof.
  unfold bit_set. rewrite elem_of_list_to_set, list_elem_of_filter, elem_of_seqZ.
  split; [naive_solver lia|]. intros [Hi Hb]. split; [done|]. unfold bit in Hb.
  destruct (bins !! bin_of i) as [b|] eqn:E; [|done]. apply lookup_lt_Some in E.
  unfold bin_of, VALUES_PER_BIN in E. Z.to_euclidean_division_equations. lia.
Qed.

Lemma bin_of_inj i j : 0 <= i → 0 <= j → bin_of i = bin_of j → i `mod` 8 = j `mod` 8 → i = j.
Proof.
  unfold bin_of, VALUES_PER_BIN. intros Hi Hj E. apply Z2Nat.inj in E; [|apply Z.div_pos; lia..].
  intros. rewrite (Z.div_mod i 8), (Z.div_mod j 8) by lia. lia.
Qed.

(** Setting one bit. *)
Lemma bit_set_insert bins i b :
  0 <= i → bins !! bin_of i = Some b →
  bit_set (<[bin_of i := u8 (Z.lor b (bit_mask i))]> bins) = {[i]} ∪ bit_set bins.
Proof.
  intros Hi E. apply set_eq. intros j.
  rewrite elem_of_union, elem_of_singleton, !elem_of_bit_set.
  destruct (decide (0 <= j)) as [Hj|]; [|naive_solver].
  pose proof (lookup_lt_Some _ _ _ E) as Hlt.
  pose proof (Z.mod_pos_bound j 8 ltac:(lia)) as Hjm. pose proof (Z.mod_pos_bound i 8 ltac:(lia)) as Him.
  destruct (decide (bin_of i = bin_of j)) as [Eb|Nb].
  - assert (E' : <[bin_of i := u8 (Z.lor b (bit_mask i))]> bins !! bin_of j = Some (u8 (Z.lor b (bit_mask i))))
      by (rewrite <- Eb; by apply list_lookup_insert_eq).
    rewrite (bit_testbit _ j _ E' Hj), (bit_testbit bins j b) by congruence.
    unfold u8, bit_mask, VALUES_PER_BIN.
    rewrite Z.mod_pow2_bits_low, Z.lor_spec, Z.shiftl_1_l, Z.pow2_bits_eqb by lia.
    rewrite orb_true_iff, Z.eqb_eq. split.
    + intros [_ [Hb|Hb]]; [tauto|]. left. symmetry. by apply bin_of_inj.
    + naive_solver.
  - assert (Hbit : bit (<[bin_of i := u8 (Z.lor b (bit_mask i))]> bins) j = bit bins j)
      by (unfold bit; by rewrite list_lookup_insert_ne).
    rewrite Hbit. naive_solver.
Qed.

(** Adding the same filters byte by byte. *)
Lemma bit_set_zip a b :
  length a = length b → bit_set (zip_with Z.lor a b) = bit_set a ∪ bit_set b.
Proof.
  intros Hl. apply set_eq. intros i. rewrite elem_of_union, !elem_of_bit_set.
  destruct (decide (0 <= i)) as [Hi|]; [|naive_solver].
  assert (Hb : bit (zip_with Z.lor a b) i = bit a i || bit b i); [|by rewrite Hb, orb_true_iff; naive_solver].
  unfold bit. rewrite lookup_zip_with. destruct (a !! bin_of i) as [x|] eqn:Ea.
  - destruct (lookup_lt_is_Some_2 b (bin_of i)) as [y Ey]; [rewrite <- Hl; by eapply lookup_lt_Some|].
    rewrite Ey. cbn. unfold bit_mask. pose proof (Z.mod_pos_bound i VALUES_PER_BIN ltac:(done)).
    by rewrite !nz_land_bit, Z.lor_spec by lia.
  - apply lookup_ge_None in Ea. rewrite (lookup_ge_None_2 b) by lia. done.
Qed.

(** ** The operations on bit sets *)

Section Refinement.
Context (SHA1 : list Z → list Z) `{HF : !HashFunction SHA1}.

Lemma hash_of_total buf : ∃ h, hash_of SHA1 buf = Some h ∧ is_u32 h.
Proof.
  unfold hash_of. destruct (read_many_total read_le32 5 (SHA1 buf)) as (ws & l & -> & _ & Hws & _).
  { apply read_le32_total. } { rewrite hash_length. lia. } { apply hash_bytes. }
  eexists. split; [reflexivity|]. assert (H0 : is_u32 0) by done. revert H0. generalize 0.
  induction Hws; intros z Hz; [done|]. apply IHHws. by apply lxor_range.
Qed.

Lemma bf_index_total m key salt :
  0 < m <= 2 ^ 31 → ∃ i, bf_index SHA1 m key salt = Some i ∧ 0 <= i < m.
Proof.
  intros Hm. unfold bf_index. destruct (hash_of_total (key ++ le32 salt)) as (h & -> & Hh).
  cbn. destruct (Z.eqb_spec m 0); [lia|]. eexists. split; [reflexivity|].
  pose proof (Z.mod_pos_bound h m ltac:(lia)).
  unfold s32, u64. rewrite u32_small by (unfold is_u32; lia).
  destruct (Z.ltb_spec (h `mod` m) (2 ^ 31)); [|lia]. rewrite Z.mod_small by lia. done.
Qed.

(** The bit positions of a key. *)
Definition key_index (m : Z) (key : list Z) (salt : Z) : Z := default 0 (bf_index SHA1 m key salt).
Definition key_bits (m : Z) (key salts : list Z) : gset Z := list_to_set (key_index m key <$> salts).

Lemma bf_index_key m key salt :
  0 < m <= 2 ^ 31 → bf_index SHA1 m key salt = Some (key_index m key salt) ∧ 0 <= key_index m key salt < m.
Proof. intros Hm. unfold key_index. by destruct (bf_index_total m key salt Hm) as (i & -> & ?). Qed.

Lemma bin_of_lt m i (bins : list Z) :
  0 <= i < m → m `mod` 8 = 0 → Z.of_nat (length bins) = m / 8 → is_Some (bins !! bin_of i).
Proof.
  intros. apply lookup_lt_is_Some_2. unfold bin_of, VALUES_PER_BIN.
  Z.to_euclidean_division_equations. lia.
Qed.

Section Loop.
Context (m : Z) (key : list Z) (Hm : 0 < m <= 2 ^ 31) (Hm8 : m `mod` 8 = 0).

Lemma bf_loop_add salts bins :
  Z.of_nat (length bins) = m / 8 → bytes bins →
  ∃ bins', bf_loop SHA1 BF_OP_ADD m key salts bins = Some (1, bins') ∧ bytes bins' ∧
           length bins' = length bins ∧ bit_set bins' = key_bits m key salts ∪ bit_set bins.
Proof.
  revert bins. induction salts as [|salt salts IH]; intros bins Hl Hb; cbn [bf_loop].
  { exists bins. repeat split; [done|]. unfold key_bits. cbn. set_solver. }
  destruct (bf_index_key m key salt Hm) as [-> Hi]. cbn [mbind option_bind].
  destruct (bin_of_lt m _ bins Hi Hm8 Hl) as [b Eb]. rewrite Eb. cbn [mbind option_bind].
  destruct (IH (<[bin_of (key_index m key salt) := u8 (Z.lor b (bit_mask (key_index m key salt)))]> bins))
    as (bins' & E & Hb' & Hl' & Hs'); [by rewrite length_insert|apply Forall_insert; auto with words|].
  exists bins'. rewrite length_insert in Hl'. repeat split; [exact E|done|done|].
  rewrite Hs', bit_set_insert by (done || lia). unfold key_bits. cbn. set_solver.
Qed.

Lemma bf_loop_check salts bins :
  Z.of_nat (length bins) = m / 8 →
  bf_loop SHA1 BF_OP_CHECK m key salts bins =
  Some (if decide (key_bits m key salts ⊆ bit_set bins) then 1 else 0, bins).
Proof.
  intros Hl. induction salts as [|salt salts IH]; cbn [bf_loop].
  { by rewrite decide_True by set_solver. }
  destruct (bf_index_key m key salt Hm) as [-> Hi]. cbn [mbind option_bind].
  destruct (bin_of_lt m _ bins Hi Hm8 Hl) as [b Eb]. rewrite Eb. cbn [mbind option_bind].
  assert (Hbit : key_index m key salt ∈ bit_set bins ↔ nz (Z.land b (bit_mask (key_index m key salt))) = true).
  { rewrite elem_of_bit_set. unfold bit. rewrite Eb. naive_solver lia. }
  destruct (nz _); cbn.
  - rewrite IH. do 2 f_equal. apply decide_ext. unfold key_bits. cbn. set_solver.
  - rewrite decide_False; [done|]. unfold key_bits. cbn. set_solver.
Qed.
End Loop.

Section Correct.
Context (malloc_ok : Z → bool).

(** On a well-formed filter [bloomfilter_add] answers 1, sets exactly the bits of
    the key on top of those that were set, counts the insertion (modulo 2^32) and
    keeps the filter well formed, with no access out of bounds; when the scratch
    buffer cannot be allocated it answers -1 and the filter is unchanged. *)
Lemma add_wf f key :
  bf_wf f →
  if malloc_ok (Z.of_nat (length key) + SALTS_LEN f) then
    ∃ f', bloomfilter_add SHA1 malloc_ok (Some f) (Some key) = Some (1, Some f') ∧ bf_wf f' ∧
          bf_m f' = bf_m f ∧ bf_salts f' = bf_salts f ∧ bf_n f' = u32 (bf_n f + 1) ∧
          bit_set (bf_bins f') = key_bits (bf_m f) key (bf_salts f) ∪ bit_set (bf_bins f)
  else bloomfilter_add SHA1 malloc_ok (Some f) (Some key) = Some (-1, Some f).
Proof.
  intros Hf. unfold bloomfilter_add, bloomfilter_operation. cbn [Z.leb Z.compare BF_OP_ADD BF_OP_MAX].
  destruct (malloc_ok _); [|done]. cbn [negb].
  destruct (bf_loop_add (bf_m f) key (wf_m f Hf) (wf_m8 f Hf) (bf_salts f) (bf_bins f))
    as (bins' & -> & Hb & Hl & Hs); [apply Hf..|].
  eexists. split; [reflexivity|]. cbn. repeat split; try done; try apply Hf; cbn; auto with words.
  - apply u32_range.
  - apply u32_range.
  - rewrite Hl. apply Hf.
Qed.

(** On a well-formed filter [bloomfilter_check] answers 1 exactly when every bit
    of the key is set, 0 otherwise, and leaves the filter as it is. *)
Lemma check_wf f key :
  bf_wf f →
  bloomfilter_check SHA1 malloc_ok (Some f) (Some key) =
  Some (if malloc_ok (Z.of_nat (length key) + SALTS_LEN f)
        then if decide (key_bits (bf_m f) key (bf_salts f) ⊆ bit_set (bf_bins f)) then 1 else 0
        else -1, Some f).
Proof.
  intros Hf. unfold bloomfilter_check, bloomfilter_operation. cbn [Z.leb Z.compare BF_OP_CHECK BF_OP_MAX].
  destruct (malloc_ok _); [|done]. cbn [negb].
  rewrite bf_loop_check; [|apply Hf..]. cbn. by destruct f.
Qed.

(** The abstract machine: its state is the set of bits that are one. *)
Inductive call := CAdd (key : list Z) | CCheck (key : list Z).

Definition spec_call (m : Z) (salts : list Z) (B : gset Z) (c : call) : Z * gset Z :=
  let '(CAdd key | CCheck key) := c in
  if negb (malloc_ok (Z.of_nat (length key) + Z.of_nat (length salts) * 4)) then (-1, B) else
  match c with
  | CAdd _ => (1, key_bits m key salts ∪ B)
  | CCheck _ => (if decide (key_bits m key salts ⊆ B) then 1 else 0, B)
  end.

Fixpoint spec_calls (m : Z) (salts : list Z) (B : gset Z) (cs : list call) : list Z * gset Z :=
  match cs with
  | [] => ([], B)
  | c :: cs => let '(r, B) := spec_call m salts B c in
               let '(rs, B) := spec_calls m salts B cs in (r :: rs, B)
  end.

Definition run_call (f : option bloomfilter) (c : call) : option (Z * option bloomfilter) :=
  match c with
  | CAdd key => bloomfilter_add SHA1 malloc_ok f (Some key)
  | CCheck key => bloomfilter_check SHA1 malloc_ok f (Some key)
  end.

Fixpoint run_calls (f : option bloomfilter) (cs : list call) : option (list Z * option bloomfilter) :=
  match cs with
  | [] => Some ([], f)
  | c :: cs => '(r, f) ← run_call f c; '(rs, f) ← run_calls f cs; Some (r :: rs, f)
  end.

Lemma run_calls_app f cs ds :
  run_calls f (cs ++ ds) =
  '(rs, f) ← run_calls f cs; '(ss, f) ← run_calls f ds; Some (rs ++ ss, f).
Proof.
  revert f. induction cs as [|c cs IH]; intros f; simpl; [by destruct (run_calls f ds) as [[]|]|].
  destruct (run_call f c) as [[r f1]|]; simpl; [|done]. rewrite IH.
  destruct (run_calls f1 cs) as [[rs f2]|]; simpl; [|done].
  by destruct (run_calls f2 ds) as [[ss f3]|].
Qed.

Lemma run_call_refines f c :
  bf_wf f →
  ∃ f', run_call (Some f) c = Some ((spec_call (bf_m f) (bf_salts f) (bit_set (bf_bins f)) c).1, Some f') ∧
        bf_wf f' ∧ bf_m f' = bf_m f ∧ bf_salts f' = bf_salts f ∧
        bit_set (bf_bins f') = (spec_call (bf_m f) (bf_salts f) (bit_set (bf_bins f)) c).2.
Proof.
  intros Hf.
  assert (Hlen : ∀ key, Z.of_nat (length key) + SALTS_LEN f =
                        Z.of_nat (length (key : list Z)) + Z.of_nat (length (bf_salts f)) * 4)
    by (intros; unfold SALTS_LEN; by rewrite (wf_salts f Hf)).
  destruct c as [key|key]; unfold spec_call, run_call.
  - pose proof (add_wf f key Hf) as Ha. rewrite Hlen in Ha.
    destruct (malloc_ok _); simpl; [|by exists f].
    destruct Ha as (f' & -> & ? & ? & ? & _ & ?). by exists f'.
  - rewrite (check_wf f key Hf), Hlen. destruct (malloc_ok _); simpl; by exists f.
Qed.

Lemma run_calls_refines f cs :
  bf_wf f →
  ∃ f', run_calls (Some f) cs = Some ((spec_calls (bf_m f) (bf_salts f) (bit_set (bf_bins f)) cs).1, Some f') ∧
        bf_wf f' ∧ bf_m f' = bf_m f ∧ bf_salts f' = bf_salts f ∧
        bit_set (bf_bins f') = (spec_calls (bf_m f) (bf_salts f) (bit_set (bf_bins f)) cs).2.
Proof.
  revert f. induction cs as [|c cs IH]; intros f Hf; [by exists f|].
  destruct (run_call_refines f c Hf) as (f1 & E1 & Hf1 & Hm & Hs & Hb).
  destruct (IH f1 Hf1) as (f2 & E2 & Hf2 & Hm2 & Hs2 & Hb2). exists f2.
  simpl. rewrite E1. simpl. rewrite E2. simpl. rewrite Hm, Hs, Hb in Hb2 |- *.
  destruct (spec_call _ _ _ c) as [r B]. simpl in *. destruct (spec_calls _ _ B cs). simpl in *.
  split_and!; [done|done|congruence..].
Qed.

(** C12: any sequence of adds and checks on a well-formed filter runs without an
    out-of-bounds access and answers what the abstract machine on sets of bits
    answers (add is union, check is inclusion, -1 when the scratch buffer cannot be
    allocated); the filter stays well formed and its bits are the machine's state. *)
Theorem bloomfilter_refines f cs :
  bf_wf f →
  ∃ f', run_calls (Some f) cs = Some ((spec_calls (bf_m f) (bf_salts f) (bit_set (bf_bins f)) cs).1, Some f') ∧
        bf_wf f' ∧ bf_m f' = bf_m f ∧ bf_salts f' = bf_salts f ∧
        bit_set (bf_bins f') = (spec_calls (bf_m f) (bf_salts f) (bit_set (bf_bins f)) cs).2.
Proof. apply run_calls_refines. Qed.

Lemma spec_calls_mono m salts B cs : B ⊆ (spec_calls m salts B cs).2.
Proof.
  revert B. induction cs as [|c cs IH]; intros B; simpl; [done|].
  assert (B ⊆ (spec_call m salts B c).2) by (unfold spec_call; repeat case_match; simpl; set_solver).
  specialize (IH (spec_call m salts B c).2).
  destruct (spec_call _ _ _ _) as [r B']. simpl in *. destruct (spec_calls _ _ B' cs). simpl in *. set_solver.
Qed.

(** No false negatives: whatever is added or checked before and after, a key that
    was added is reported present. *)
Theorem bloomfilter_no_false_negative f before key after :
  bf_wf f → (∀ n, malloc_ok n = true) →
  ∃ rs f', run_calls (Some f) (before ++ [CAdd key] ++ after ++ [CCheck key]) = Some (rs ++ [1], f').
Proof.
  intros Hf Hmalloc. rewrite run_calls_app.
  destruct (run_calls_refines f before Hf) as (f1 & E1 & Hf1 & Hm1 & Hs1 & _).
  rewrite E1. simpl.
  pose proof (add_wf f1 key Hf1) as Ha. rewrite Hmalloc in Ha.
  destruct Ha as (f2 & -> & Hf2 & Hm2 & Hs2 & _ & Hb2). simpl. rewrite run_calls_app.
  destruct (run_calls_refines f2 after Hf2) as (f3 & E3 & Hf3 & Hm3 & Hs3 & Hb3).
  rewrite E3. simpl. rewrite (check_wf f3 key Hf3), Hmalloc. simpl.
  rewrite decide_True; [eexists (_ ++ 1 :: _), _; by rewrite <- app_assoc|].
  pose proof (spec_calls_mono (bf_m f2) (bf_salts f2) (bit_set (bf_bins f2)) after).
  rewrite Hb3, Hm3, Hs3, Hm2, Hs2. rewrite Hb2, Hm2, Hs2 in *. set_solver.
Qed.
End Correct.
End Refinement.

(** ** Merging *)

Lemma merge_bytes a b : bytes a → bytes b → bytes (zip_with Z.lor a b).
Proof.
  intros Ha. revert b. induction Ha as [|x a Hx _ IH]; intros [|y b] Hb; simpl; try constructor.
  - inversion Hb; subst. unfold is_byte in *. by apply (lor_range _ _ 8).
  - apply IH. by inversion Hb.
Qed.

(** [bloomfilter_merge] answers the code of the first reason the filters cannot
    be merged, in the order NULL, parameters, salts, and then leaves its destination
    as it was; otherwise the destination is well formed and has exactly the bits of
    both filters, so that it reports present every key either of them reported. *)
Theorem bloomfilter_merge_spec (SHA1 : list Z → list Z) `{!HashFunction SHA1} a b key :
  bf_wf a → bf_wf b →
  (bf_m a ≠ bf_m b ∨ bf_k a ≠ bf_k b →
     bloomfilter_merge (Some a) (Some b) = (MERGE_RESULT_PARAM_ERROR, Some a)) ∧
  (bf_m a = bf_m b → bf_k a = bf_k b → bf_salts a ≠ bf_salts b →
     bloomfilter_merge (Some a) (Some b) = (MERGE_RESULT_SALTS_ERROR, Some a)) ∧
  (bf_m a = bf_m b → bf_k a = bf_k b → bf_salts a = bf_salts b →
     ∃ c, bloomfilter_merge (Some a) (Some b) = (MERGE_RESULT_OK, Some c) ∧ bf_wf c ∧
          bf_n c = u32 (bf_n a + bf_n b) ∧
          bit_set (bf_bins c) = bit_set (bf_bins a) ∪ bit_set (bf_bins b) ∧
          (bloomfilter_check SHA1 malloc_succeeds (Some a) (Some key) = Some (1, Some a) ∨
           bloomfilter_check SHA1 malloc_succeeds (Some b) (Some key) = Some (1, Some b) →
           bloomfilter_check SHA1 malloc_succeeds (Some c) (Some key) = Some (1, Some c))).
Proof.
  intros Ha Hb. unfold bloomfilter_merge. split_and!.
  - intros H. destruct (Z.eqb_spec (bf_m a) (bf_m b)), (Z.eqb_spec (bf_k a) (bf_k b)); naive_solver.
  - intros -> ->. rewrite !Z.eqb_refl. intros H. by rewrite bool_decide_eq_false_2.
  - intros Em Ek Es. rewrite Em, Ek, Es, !Z.eqb_refl, bool_decide_eq_true_2 by done. cbn [negb orb].
    eexists. split; [reflexivity|].
    assert (Hlen : length (bf_bins a) = length (bf_bins b)).
    { apply Nat2Z.inj. by rewrite (wf_bins a Ha), (wf_bins b Hb), Em. }
    match goal with |- bf_wf ?c ∧ _ => assert (Hc : bf_wf c) end.
    { split; cbn; try apply Hb; [apply u32_range|rewrite length_zip_with, Hlen, Nat.min_id; apply Hb|].
      apply merge_bytes; [apply Ha|apply Hb]. }
    split_and!; [done|done|by apply bit_set_zip|].
    rewrite !check_wf by done. cbn [malloc_succeeds bf_m bf_salts bf_bins].
    rewrite bit_set_zip, Em, Es by done.
    intros [H|H]; case_decide; try done; rewrite decide_True; set_solver.
Qed.

(** ** Transport *)

Lemma bf_net_bytes_ok f :
  bf_wf f → bytes (bf_net_bytes f) ∧ Z.of_nat (length (bf_net_bytes f)) = BLOOMFILTER_TOT_LEN f.
Proof.
  intros Hf. unfold bf_net_bytes. split.
  - rewrite !Forall_app. split_and!; auto with words; [|apply Hf].
    apply bytes_concat_map. auto with words.
  - rewrite !length_app, !length_be32, (length_concat_map _ 4) by apply length_be32.
    unfold BLOOMFILTER_TOT_LEN, SALTS_LEN, FILTER_LEN, VALUES_PER_BIN.
    pose proof (wf_salts f Hf). pose proof (wf_bins f Hf). lia.
Qed.

Lemma parse_net_bytes_ok f : bf_wf f → parse_net_bytes (bf_net_bytes f) = Some f.
Proof.
  intros Hf. unfold parse_net_bytes, bf_net_bytes. destruct Hf as [Hk Hn Hm Hm8 Hs Hs32 Hb Hbb].
  rewrite read_be32_be32 by done. cbn [mbind option_bind].
  rewrite read_be32_be32 by (unfold is_u32; lia). cbn [mbind option_bind].
  rewrite read_be32_be32 by done. cbn [mbind option_bind].
  rewrite <- Hs, Nat2Z.id.
  rewrite (read_many_encode _ _ is_u32) by (done || apply read_be32_be32). cbn [mbind option_bind].
  destruct f. cbn in *. by rewrite Hs.
Qed.

Lemma BASE64_LENGTH_bound n : 0 <= n < 2 ^ 30 → 0 <= BASE64_LENGTH n < 2 ^ 31.
Proof. unfold BASE64_LENGTH. intros. Z.to_euclidean_division_equations. lia. Qed.

Lemma s32_nonneg n : 0 <= n < 2 ^ 31 → (s32 n <? 0) = false.
Proof.
  intros. unfold s32. rewrite u32_small by (unfold is_u32; lia).
  destruct (Z.ltb_spec n (2 ^ 31)); [|lia]. apply Z.ltb_ge. lia.
Qed.

(** A filter survives its trip over the network: the text [bloomfilter_to_base64]
    makes of a well-formed filter of less than 1 GiB decodes, with
    [base64_to_bloomfilter], to the same filter, whatever the decoder's buffer held. *)
Theorem bloomfilter_transport f ctx_buf :
  bf_wf f → length ctx_buf = 4%nat → BLOOMFILTER_TOT_LEN f < 2 ^ 30 →
  ∃ s, bloomfilter_to_base64 malloc_succeeds (Some f) = Some (Some (s ++ [0])) ∧
       base64_to_bloomfilter malloc_succeeds ctx_buf s = Some (Some f).
Proof.
  intros Hf Hc Hl. destruct (bf_net_bytes_ok f Hf) as [Hb Hn].
  destruct (BASE64_LENGTH_bound (BLOOMFILTER_TOT_LEN f)) as [HL0 HL]; [lia|].
  exists (b64_enc (bf_net_bytes f)).
  unfold bloomfilter_to_base64, base64_to_bloomfilter. rewrite encode_alloc_ok by (done || rewrite Hn; lia).
  rewrite decode_alloc_enc, parse_net_bytes_ok, Hn by done. cbn [negb malloc_succeeds]. split; [|done].
  by rewrite s32_nonneg by lia.
Qed.

(** ** Dimensioning *)

Section DimensionSpec.
Context {D : Type} `{Doubles D} (num_keys : Z) (error_rate : D).
Local Abbreviation size := (filter_size num_keys error_rate).

(** What the search needs of the doubles it compares: a strict weak order in which the
    initial [-1] is negative, and sizes that are not negative (nor NaN). *)
Record sane_sizes : Prop :=
  { lt_trans : ∀ a b c : D, d_lt a b = true → d_lt b c = true → d_lt a c = true;
    lt_irrefl : ∀ a : D, d_lt a a = false;
    minus_one_neg : d_lt (d_of_Z (-1)) (d_of_Z 0) = true;
    size_not_neg : ∀ k, 1 <= k <= MAX_NUM_HASH_FUNCS → d_lt (size k) (d_of_Z 0) = false }.

Definition best_among (ks : list Z) (st : D * Z) : Prop :=
  st.1 = size st.2 ∧ st.2 ∈ ks ∧ ∀ k, k ∈ ks → d_lt (size k) st.1 = false.

Lemma length_step_best ks st k :
  sane_sizes → Forall (fun k => 1 <= k <= MAX_NUM_HASH_FUNCS) (ks ++ [k]) →
  best_among ks st → best_among (ks ++ [k]) (length_step num_keys error_rate st k).
Proof.
  intros HS Hr (E & Hin & Hmin). destruct st as [m best]. simpl in *. subst m.
  rewrite Forall_app, Forall_singleton, Forall_forall in Hr. destruct Hr as [Hr Hk].
  unfold length_step, best_among. rewrite size_not_neg by auto. simpl.
  destruct (d_lt (size k) (size best)) eqn:Hlt; simpl; split_and!; try done.
  - set_solver.
  - intros k' Hk'. apply elem_of_app in Hk' as [Hk'| ->%list_elem_of_singleton]; [|by apply lt_irrefl].
    destruct (d_lt (size k') (size k)) eqn:Hlt'; [|done].
    by rewrite <- (Hmin k' Hk'), (lt_trans HS _ _ _ Hlt' Hlt).
  - set_solver.
  - intros k' Hk'. apply elem_of_app in Hk' as [Hk'| ->%list_elem_of_singleton]; auto.
Qed.

Lemma length_fold_best ks ks' st :
  sane_sizes → Forall (fun k => 1 <= k <= MAX_NUM_HASH_FUNCS) (ks ++ ks') →
  best_among ks st → best_among (ks ++ ks') (fold_left (length_step num_keys error_rate) ks' st).
Proof.
  intros HS. revert ks st. induction ks' as [|k ks' IH]; intros ks st Hr Hb; simpl; [by rewrite app_nil_r|].
  replace (ks ++ k :: ks') with ((ks ++ [k]) ++ ks') in * by (by rewrite <- app_assoc). apply IH; [done|].
  apply length_step_best; [done| |done]. rewrite Forall_app in Hr. tauto.
Qed.

Lemma length_search_best :
  sane_sizes → best_among (seqZ 1 MAX_NUM_HASH_FUNCS) (length_search num_keys error_rate).
Proof.
  intros HS. unfold length_search.
  change (seqZ 1 MAX_NUM_HASH_FUNCS) with ([1] ++ seqZ 2 99). rewrite fold_left_app.
  apply length_fold_best; [done| |].
  - apply Forall_forall. intros k. rewrite elem_of_app, list_elem_of_singleton, elem_of_seqZ.
    unfold MAX_NUM_HASH_FUNCS. lia.
  - simpl. unfold length_step. rewrite (minus_one_neg HS). simpl. unfold best_among. simpl.
    split_and!; [done|set_solver|]. intros k ->%list_elem_of_singleton. by apply lt_irrefl.
Qed.

Lemma round_to_8_spec m : is_u32 m → m <= 2 ^ 32 - 8 → m <= round_to_8 m < m + 8 ∧ round_to_8 m `mod` 8 = 0.
Proof.
  unfold is_u32, round_to_8, u32. intros Hm Hm'. destruct (Z.eqb_spec (m `mod` 8) 0); simpl; [lia|].
  rewrite Z.mod_small; Z.to_euclidean_division_equations; lia.
Qed.

(** [bloomfilter_calculate_length] answers a number of hash functions between 1
    and 100 whose size is least among the hundred candidates, and the first multiple
    of eight that is at least that size plus one (when it fits in 32 bits). *)
Theorem bloomfilter_calculate_length_spec :
  sane_sizes →
  let '(m, k) := bloomfilter_calculate_length num_keys error_rate in
  let raw := u32 (d_to_uint (d_add (size k) (d_of_Z 1))) in
  1 <= k <= MAX_NUM_HASH_FUNCS ∧
  (∀ k', 1 <= k' <= MAX_NUM_HASH_FUNCS → d_lt (size k') (size k) = false) ∧
  (raw <= 2 ^ 32 - 8 → m `mod` 8 = 0 ∧ raw <= m < raw + 8).
Proof.
  intros HS. unfold bloomfilter_calculate_length. pose proof (length_search_best HS) as (E & Hin & Hmin).
  destruct (length_search num_keys error_rate) as [mt k]. simpl in *. subst mt.
  rewrite elem_of_seqZ in Hin. unfold MAX_NUM_HASH_FUNCS in *. split_and!; [lia|lia| |].
  - intros k' Hk'. apply Hmin, elem_of_seqZ. lia.
  - intros Hraw. destruct (round_to_8_spec _ (u32_range _) Hraw). tauto.
Qed.

Lemma length_step_range st k : 1 <= k → 1 <= st.2 → 1 <= (length_step num_keys error_rate st k).2.
Proof. destruct st. unfold length_step. by destruct (_ || _). Qed.

Lemma length_search_range : 1 <= (length_search num_keys error_rate).2.
Proof.
  unfold length_search. assert (Hks : Forall (fun k => 1 <= k) (seqZ 1 MAX_NUM_HASH_FUNCS)).
  { apply Forall_forall. intros k. rewrite elem_of_seqZ. lia. }
  assert (Hst : 1 <= (d_of_Z (-1) : D, 1).2) by done. revert Hst.
  generalize (d_of_Z (-1) : D, 1). induction Hks; intros st Hst; simpl; [done|].
  apply IHHks. by apply length_step_range.
Qed.
End DimensionSpec.

(** A new filter has no bit set. *)
Lemma bit_set_zeros n : bit_set (replicate n 0) = ∅.
Proof.
  apply set_eq. intros i. rewrite elem_of_bit_set. unfold bit.
  destruct (replicate n 0 !! bin_of i) as [b|] eqn:E; [|set_solver].
  apply lookup_replicate in E as [-> _]. rewrite Z.land_0_l. change (nz 0) with false. set_solver.
Qed.

(** When its dimensions are a usable multiple of eight, [bloomfilter_new] answers
    a well-formed filter without a bit set and with at least one hash function,
    in which no key is present; it answers NULL only when the allocation fails. *)
Theorem bloomfilter_new_spec {D} `{Doubles D} (SHA1 : list Z → list Z) `{!HashFunction SHA1}
    (malloc_ok : Z → bool) (rand : nat → Z) (error_rate : D) (capacity : Z) key :
  let m := (bloomfilter_calculate_length capacity error_rate).1 in
  let k := (bloomfilter_calculate_length capacity error_rate).2 in
  0 < m <= 2 ^ 31 → m `mod` 8 = 0 → k < 2 ^ 32 →
  if malloc_ok (12 + (k * 4 + m / 8)) then
    ∃ f, bloomfilter_new malloc_ok rand error_rate capacity = Some f ∧ bf_wf f ∧
         bf_m f = m ∧ bf_k f = k ∧ 1 <= k ∧ bloomfilter_get_n f = 0 ∧ bit_set (bf_bins f) = ∅ ∧
         bloomfilter_check SHA1 malloc_succeeds (Some f) (Some key) = Some (0, Some f)
  else bloomfilter_new malloc_ok rand error_rate capacity = None.
Proof.
  intros m k Hm Hm8 Hk. unfold bloomfilter_new.
  assert (Hk1 : 1 <= k).
  { subst k. unfold bloomfilter_calculate_length. pose proof (length_search_range capacity error_rate).
    by destruct (length_search _ _). }
  subst m k. destruct (bloomfilter_calculate_length capacity error_rate) as [m k]. simpl in *.
  unfold VALUES_PER_BIN. rewrite Z.mul_1_r. destruct (malloc_ok _); [|done]. simpl.
  eexists. split; [reflexivity|].
  match goal with |- bf_wf ?c ∧ _ => assert (Hc : bf_wf c) end.
  { split; simpl; try done; try (unfold is_u32; lia).
    - rewrite length_map, length_seq. lia.
    - apply Forall_forall. intros w (i & -> & _)%list_elem_of_fmap. apply u32_range.
    - rewrite length_replicate, Z2Nat.id; [done|]. apply Z.div_pos; lia.
    - apply Forall_replicate. unfold is_byte. lia. }
  split_and!; try done; [apply bit_set_zeros|].
  rewrite check_wf by done. cbn [malloc_succeeds bf_m bf_salts bf_bins].
  rewrite bit_set_zeros, decide_False; [done|]. unfold key_bits.
  destruct (Z.to_nat k) eqn:E; [lia|]. simpl. set_solver.
Qed.

(** ** Printing *)

Lemma hex_into_overflow cap str l :
  l ≠ [] → (cap < length str + 2 * length l + 1)%nat → hex_into cap str l = None.
Proof.
  revert str. induction l as [|b l IH]; intros str Hne Hc; [done|]. cbn [hex_into length] in *.
  destruct (Nat.ltb_spec cap (length str + 3)) as [|Hle]; [done|].
  apply IH; [intros ->; simpl in Hc; lia|]. rewrite length_app. simpl. lia.
Qed.

(** The hexadecimal dump of a filter overruns its buffer, for every filter: it
    allocates one byte per byte of the filter where it writes two digits. *)
Theorem bloomfilter_to_str_overflow f :
  bf_wf f → bloomfilter_to_str malloc_succeeds (Some f) = None.
Proof.
  intros Hf. unfold bloomfilter_to_str. cbn [negb malloc_succeeds].
  rewrite hex_into_overflow; [done|done|]. unfold bf_host_bytes.
  rewrite !length_app, !length_le32, (length_concat_map _ 4) by apply length_le32.
  unfold BLOOMFILTER_TOT_LEN, SALTS_LEN, FILTER_LEN, VALUES_PER_BIN.
  pose proof (wf_salts f Hf). pose proof (wf_bins f Hf). simpl length. lia.
Qed.

(** [bloomfilter_print] tests bit [i % 8] of bin [i] eight times, where it means bit
    [j]: filters with different bits print the same. *)
Lemma bloomfilter_print_wrong_bit :
  bloomfilter_print_digits (BF 1 8 0 [7] [1]) = bloomfilter_print_digits (BF 1 8 0 [7] [3]).
Proof. reflexivity. Qed.

(** ** Witnesses, with the SHA-1 of [Sha1] *)

Definition ex_filter : bloomfilter := BF 3 64 0 [11; 22; 33] (replicate 8 0).
Definition ex_key : list Z := bytes_of_string "John".

Lemma ex_filter_wf : bf_wf ex_filter.
Proof.
  split; simpl; try done; try (unfold is_u32; lia); repeat constructor; unfold is_u32, is_byte; lia.
Qed.

Lemma bloomfilter_refines_witness :
  ∃ f', run_calls fips_sha1 malloc_succeeds (Some ex_filter) [CCheck ex_key; CAdd ex_key; CCheck ex_key]
        = Some ([0; 1; 1], Some f') ∧ bf_wf f'.
Proof.
  destruct (bloomfilter_refines fips_sha1 malloc_succeeds ex_filter [CCheck ex_key; CAdd ex_key; CCheck ex_key]
              ex_filter_wf) as (f' & E & Hf & _).
  exists f'. split; [|exact Hf]. rewrite E. vm_compute. reflexivity.
Defined.

Lemma bloomfilter_no_false_negative_witness :
  ∃ rs f', run_calls fips_sha1 malloc_succeeds (Some ex_filter)
             ([] ++ [CAdd ex_key] ++ [CAdd [1; 2]] ++ [CCheck ex_key]) = Some (rs ++ [1], f').
Proof. apply (bloomfilter_no_false_negative fips_sha1 malloc_succeeds); [apply ex_filter_wf|reflexivity]. Defined.

Lemma bloomfilter_merge_spec_witness :
  ∃ c, bloomfilter_merge (Some ex_filter) (Some ex_filter) = (MERGE_RESULT_OK, Some c) ∧ bf_wf c.
Proof.
  destruct (bloomfilter_merge_spec fips_sha1 ex_filter ex_filter ex_key ex_filter_wf ex_filter_wf)
    as (_ & _ & H).
  destruct (H eq_refl eq_refl eq_refl) as (c & E & Hc & _). exists c. split; [exact E|exact Hc].
Defined.

Lemma bloomfilter_transport_witness :
  ∃ s, bloomfilter_to_base64 malloc_succeeds (Some ex_filter) = Some (Some (s ++ [0])) ∧
       base64_to_bloomfilter malloc_succeeds [0; 0; 0; 0] s = Some (Some ex_filter).
Proof. apply (bloomfilter_transport ex_filter); [apply ex_filter_wf|reflexivity|reflexivity]. Defined.

Lemma bloomfilter_to_str_overflow_witness : bloomfilter_to_str malloc_succeeds (Some ex_filter) = None.
Proof. apply bloomfilter_to_str_overflow, ex_filter_wf. Defined.

(** Integers in place of the doubles, with [log] constant: sizes grow with [k]. *)
#[local] Instance z_doubles : Doubles Z :=
  {| d_of_Z := id; d_mul := Z.mul; d_div := Z.div; d_sub := Z.sub; d_add := Z.add;
     d_pow := fun a _ => a; d_log := fun _ => -2; d_lt := Z.ltb; d_to_uint := id |}.

Lemma z_sane : sane_sizes 10 (0 : Z).
Proof.
  split; cbn; intros *; rewrite ?Z.ltb_lt, ?Z.ltb_ge; try lia.
  - unfold filter_size. cbn. intros. Z.to_euclidean_division_equations. lia.
Qed.

Lemma bloomfilter_calculate_length_spec_witness :
  bloomfilter_calculate_length 10 (0 : Z) = (8, 1) ∧ 8 `mod` 8 = 0.
Proof.
  pose proof (bloomfilter_calculate_length_spec 10 (0 : Z) z_sane) as H.
  assert (E : bloomfilter_calculate_length 10 (0 : Z) = (8, 1)) by reflexivity. rewrite E in H.
  destruct H as (_ & _ & H). split; [exact E|apply H]. vm_compute. congruence.
Defined.

Lemma bloomfilter_new_spec_witness :
  ∃ f, bloomfilter_new malloc_succeeds Z.of_nat (0 : Z) 10 = Some f ∧ bf_wf f.
Proof.
  destruct (bloomfilter_new_spec fips_sha1 malloc_succeeds Z.of_nat (0 : Z) 10 [])
    as (f & E & Hf & _); [vm_compute; intuition congruence|reflexivity|reflexivity|].
  exists f. split; [exact E|exact Hf].
Defined.
