(* ===== verification/CountingBloomfilter.v ===== *)
(** * CountingBloomfilter: [utils/counting_bloomfilter.c] and [.h].

    A counting Bloom filter has a 16-bit counter per position, so that keys can be
    removed.  The abstract view is the function from positions to counters; a removal
    undoes an addition as long as no counter wraps.  The conversion to a plain filter
    keeps the answer of [check]. *)

From S2P Require Import Prelude Base64 Sha1 Bloomfilter.

(** ** Data *)

Record counting_bloomfilter := CBF
  { cb_k : Z; cb_m : Z; cb_n : Z; cb_salts : list Z; cb_bins : list Z }.

Definition COUNTING_BF_OP_CHECK : Z := 0.
Definition COUNTING_BF_OP_ADD : Z := 1.
Definition COUNTING_BF_OP_REMOVE : Z := 2.
Definition COUNTING_BF_OP_MAX : Z := 3.

Definition CB_FILTER_LEN (bf : counting_bloomfilter) : Z := cb_m bf / 1 * 2.
Definition CB_SALTS_LEN (bf : counting_bloomfilter) : Z := cb_k bf * 4.
Definition COUNTING_BLOOMFILTER_TOT_LEN (bf : counting_bloomfilter) : Z :=
  12 + CB_SALTS_LEN bf + CB_FILTER_LEN bf.

Definition counting_bloomfilter_new {D} `{Doubles D} (malloc_ok : Z → bool) (rand : nat → Z)
    (error_rate : D) (capacity : Z) : option counting_bloomfilter :=
  let '(m, k) := bloomfilter_calculate_length capacity error_rate in
  let bflen := 12 + (k * 4 + m / 1 * 2) in
  if negb (malloc_ok bflen) then None else
  Some {| cb_k := k; cb_m := m; cb_n := 0;
          cb_salts := map (fun i => u32 (rand i)) (seq 0 (Z.to_nat k));
          cb_bins := replicate (Z.to_nat m) 0 |}.

Definition counting_bloomfilter_copy (malloc_ok : Z → bool) (bf : option counting_bloomfilter)
  : option counting_bloomfilter :=
  match bf with
  | None => None
  | Some f => if malloc_ok (COUNTING_BLOOMFILTER_TOT_LEN f) then Some f else None
  end.

Definition counting_bloomfilter_get_n (bf : counting_bloomfilter) : Z := cb_n bf.

(** The struct as it lies in the (little-endian) host's memory. *)
Definition le16 (w : Z) : list Z := [u8 w; u8 (Z.shiftr w 8)].
Definition cb_host_bytes (bf : counting_bloomfilter) : list Z :=
  le32 (cb_k bf) ++ le32 (cb_m bf) ++ le32 (cb_n bf) ++
  concat (map le32 (cb_salts bf)) ++ concat (map le16 (cb_bins bf)).

(** [None] when the digits do not fit in the buffer. *)
Definition counting_bloomfilter_to_str (malloc_ok : Z → bool) (bf : option counting_bloomfilter)
  : option (option (list Z)) :=
  match bf with
  | None => Some None
  | Some f =>
    let cap := COUNTING_BLOOMFILTER_TOT_LEN f + 1 in
    if negb (malloc_ok cap) then Some None else
    Some <$> hex_into (Z.to_nat cap) [] (cb_host_bytes f)
  end.

(** ** Membership *)

Section Operation.
Context (SHA1 : list Z → list Z).

(** [int index = hash % bf->m]. *)
Definition cb_index (m : Z) (key : list Z) (salt : Z) : option Z :=
  hash ← hash_of SHA1 (key ++ le32 salt);
  if m =? 0 then None else Some (s32 (hash `mod` m)).

(** Array accesses with an [int] index. *)
Definition bin_get (bins : list Z) (index : Z) : option Z :=
  if index <? 0 then None else bins !! Z.to_nat index.
Definition bin_set (bins : list Z) (index v : Z) : list Z := <[Z.to_nat index := v]> bins.

(** The loop over the salts: [res], the counters and [removed]. *)
Fixpoint cb_loop (op m : Z) (key salts bins : list Z) (removed : Z) : option (Z * list Z * Z) :=
  match salts with
  | [] => Some (1, bins, removed)
  | salt :: salts =>
    index ← cb_index m key salt;
    c ← bin_get bins index;
    if op =? COUNTING_BF_OP_CHECK then
      if c =? 0 then Some (0, bins, removed) else cb_loop op m key salts bins removed
    else if op =? COUNTING_BF_OP_ADD then
      cb_loop op m key salts (bin_set bins index (u16 (c + 1))) removed
    else if c >? 0 then cb_loop op m key salts (bin_set bins index (u16 (c - 1))) (u16 (removed + 1))
    else cb_loop op m key salts bins removed
  end.

Definition counting_bloomfilter_operation (malloc_ok : Z → bool) (bf : option counting_bloomfilter)
    (key : option (list Z)) (op : Z) : option (Z * option counting_bloomfilter) :=
  match bf, key with
  | Some f, Some key =>
    if COUNTING_BF_OP_MAX <=? op then Some (-1, bf) else
    if negb (malloc_ok (Z.of_nat (length key) + CB_SALTS_LEN f)) then Some (-1, bf) else
    '(res, bins, removed) ← cb_loop op (cb_m f) key (cb_salts f) (cb_bins f) 0;
    Some (res, Some {| cb_k := cb_k f; cb_m := cb_m f;
                       cb_n := if op =? COUNTING_BF_OP_ADD then u32 (cb_n f + 1)
                               else if (op =? COUNTING_BF_OP_REMOVE) && (removed >? 0) then u32 (cb_n f - 1)
                               else cb_n f;
                       cb_salts := cb_salts f; cb_bins := bins |})
  | _, _ => Some (-1, bf)
  end.

Definition counting_bloomfilter_check (malloc_ok : Z → bool) bf key :=
  counting_bloomfilter_operation malloc_ok bf key COUNTING_BF_OP_CHECK.
Definition counting_bloomfilter_add (malloc_ok : Z → bool) bf key :=
  counting_bloomfilter_operation malloc_ok bf key COUNTING_BF_OP_ADD.
Definition counting_bloomfilter_remove (malloc_ok : Z → bool) bf key :=
  counting_bloomfilter_operation malloc_ok bf key COUNTING_BF_OP_REMOVE.
End Operation.

#[global] Arguments counting_bloomfilter_add : simpl never.
#[global] Arguments counting_bloomfilter_check : simpl never.
#[global] Arguments counting_bloomfilter_remove : simpl never.

(** ** Conversion *)

(** The loop over the [m] counters: [i] runs through them and [j] through the bytes of
    the new filter; [None] past the end of either array. *)
Fixpoint nc_loop (n : nat) (i : Z) (j : nat) (bins bins_nc : list Z) : option (list Z) :=
  match n with
  | O => Some bins_nc
  | S n =>
    let bits_to_shift := i `mod` VALUES_PER_BIN in
    c ← bins !! Z.to_nat i;
    bins_nc ← (if nz c then
                 b ← bins_nc !! j;
                 Some (<[j := u8 (Z.lor b (Z.shiftl 1 bits_to_shift))]> bins_nc)
               else Some bins_nc);
    nc_loop n (i + 1) (if bits_to_shift =? VALUES_PER_BIN - 1 then S j else j) bins bins_nc
  end.

(** [None]: undefined behaviour; [Some None]: NULL. *)
Definition counting_bloomfilter_to_noncounting (malloc_ok : Z → bool) (bf : option counting_bloomfilter)
  : option (option bloomfilter) :=
  match bf with
  | None => Some None
  | Some f =>
    let bflen := 12 + (cb_k f * 4 + cb_m f / VALUES_PER_BIN * 1) in
    if negb (malloc_ok bflen) then Some None else
    bins ← nc_loop (Z.to_nat (cb_m f)) 0 0 (cb_bins f) (replicate (Z.to_nat (cb_m f / VALUES_PER_BIN)) 0);
    Some (Some {| bf_k := cb_k f; bf_m := cb_m f; bf_n := cb_n f;
                  bf_salts := cb_salts f; bf_bins := bins |})
  end.

(** ** Transport *)

Definition cb_net_bytes (bf : counting_bloomfilter) : list Z :=
  be32 (cb_k bf) ++ be32 (cb_m bf) ++ be32 (cb_n bf) ++
  concat (map be32 (cb_salts bf)) ++ concat (map be16 (cb_bins bf)).

Definition counting_bloomfilter_to_base64 (malloc_ok : Z → bool) (bf : option counting_bloomfilter)
  : option (list Z) :=
  match bf with
  | None => None
  | Some f =>
    if negb (malloc_ok (COUNTING_BLOOMFILTER_TOT_LEN f)) then None else
    let '(len, b64str) := base64_encode_alloc malloc_ok (cb_net_bytes f) in
    match b64str with
    | None => None
    | Some s => if s32 len <? 0 then None else Some s
    end
  end.

Definition counting_bloomfilter_to_noncounting_base64 (malloc_ok : Z → bool)
    (bf : option counting_bloomfilter) : option (option (list Z)) :=
  match bf with
  | None => Some None
  | Some _ =>
    bf_other ← counting_bloomfilter_to_noncounting malloc_ok bf;
    match bf_other with
    | None => Some None
    | Some f => bloomfilter_to_base64 malloc_ok (Some f)
    end
  end.

(** The header, the salts and the counters, converted in place; bytes after them stay
    in the buffer and are never looked at. *)
Definition parse_counting_net_bytes (l : list Z) : option counting_bloomfilter :=
  '(k, l) ← read_be32 l;
  '(m, l) ← read_be32 l;
  '(n, l) ← read_be32 l;
  '(salts, l) ← read_many read_be32 (Z.to_nat k) l;
  '(bins, _) ← read_many read_be16 (Z.to_nat m) l;
  Some {| cb_k := k; cb_m := m; cb_n := n; cb_salts := salts; cb_bins := bins |}.

Definition base64_to_counting_bloomfilter (malloc_ok : Z → bool) (ctx_buf b64str : list Z)
  : option (option counting_bloomfilter) :=
  match base64_decode_alloc malloc_ok (base64_decode_ctx_init ctx_buf) b64str with
  | Some (true, Some l) => Some <$> parse_counting_net_bytes l
  | Some (true, None) => None
  | Some (false, _) => Some None
  | None => None
  end.

(** ** Well-formed filters and their counters *)

Record cb_wf (f : counting_bloomfilter) : Prop := CBWF
  { cwf_k : is_u32 (cb_k f);
    cwf_n : is_u32 (cb_n f);
    cwf_m : 0 < cb_m f <= 2 ^ 31;
    cwf_salts : Z.of_nat (length (cb_salts f)) = cb_k f;
    cwf_salts32 : words (cb_salts f);
    cwf_bins : Z.of_nat (length (cb_bins f)) = cb_m f;
    cwf_u16 : Forall is_u16 (cb_bins f) }.

(** How often a position occurs among those of a key. *)
Definition occ (idxs : list Z) (i : Z) : Z := Z.of_nat (length (filter (.= i) idxs)).

Definition add_counts (idxs bins : list Z) : list Z :=
  imap (fun i c => u16 (c + occ idxs (Z.of_nat i))) bins.
Definition sub_counts (idxs bins : list Z) : list Z :=
  imap (fun i c => Z.max 0 (c - occ idxs (Z.of_nat i))) bins.
Definition all_counted (idxs bins : list Z) : Prop := Forall (fun i => bin_get bins i ≠ Some 0) idxs.

#[export] Instance all_counted_dec idxs bins : Decision (all_counted idxs bins).
Proof. unfold all_counted. apply _. Defined.

Definition zsum (l : list Z) : Z := foldr Z.add 0 l.

Lemma zsum_insert l i x y : l !! i = Some x → zsum (<[i := y]> l) = zsum l - x + y.
Proof.
  revert i. induction l as [|z l IH]; intros [|i] E; simpl in *; simplify_eq; [lia|].
  rewrite (IH _ E). lia.
Qed.

Lemma occ_cons i idxs j : occ (i :: idxs) j = (if decide (i = j) then 1 else 0) + occ idxs j.
Proof. unfold occ. rewrite filter_cons. case_decide; simpl; lia. Qed.
Lemma occ_nonneg idxs i : 0 <= occ idxs i.
Proof. unfold occ. lia. Qed.
Lemma occ_le idxs i : occ idxs i <= Z.of_nat (length idxs).
Proof. unfold occ. pose proof (length_filter (.= i) idxs). lia. Qed.

Lemma u16_add_l a b : u16 (u16 a + b) = u16 (a + b).
Proof. unfold u16. by rewrite Zplus_mod_idemp_l. Qed.

Lemma bin_get_Some bins i c : 0 <= i → bin_get bins i = Some c ↔ bins !! Z.to_nat i = Some c.
Proof. intros. unfold bin_get. destruct (Z.ltb_spec i 0); [lia|done]. Qed.

Lemma bin_get_lt (bins : list Z) i : 0 <= i < Z.of_nat (length bins) → is_Some (bin_get bins i).
Proof.
  intros. unfold bin_get. destruct (Z.ltb_spec i 0); [lia|]. apply lookup_lt_is_Some_2. lia.
Qed.

Lemma bin_get_set bins i j v c :
  0 <= i → 0 <= j → bin_get bins i = Some c →
  bin_get (bin_set bins i v) j = if decide (i = j) then Some v else bin_get bins j.
Proof.
  intros Hi Hj E. apply bin_get_Some in E; [|done]. unfold bin_get, bin_set.
  destruct (Z.ltb_spec j 0); [lia|]. case_decide as D.
  - subst j. apply list_lookup_insert_eq. by eapply lookup_lt_Some.
  - apply list_lookup_insert_ne. lia.
Qed.

(** Two lists of counters with the same [bin_get]. *)
Lemma bins_eq (a b : list Z) : (∀ i, 0 <= i → bin_get a i = bin_get b i) → a = b.
Proof.
  intros H. apply list_eq. intros i. specialize (H (Z.of_nat i) ltac:(lia)). unfold bin_get in H.
  destruct (Z.ltb_spec (Z.of_nat i) 0); [lia|]. by rewrite Nat2Z.id in H.
Qed.

Lemma bin_get_imap (f : nat → Z → Z) bins i :
  bin_get (imap f bins) i = f (Z.to_nat i) <$> bin_get bins i.
Proof. unfold bin_get. destruct (Z.ltb_spec i 0); [done|]. apply list_lookup_imap. Qed.

Lemma bin_get_add idxs bins i :
  0 <= i → bin_get (add_counts idxs bins) i = (fun c => u16 (c + occ idxs i)) <$> bin_get bins i.
Proof. intros. unfold add_counts. rewrite bin_get_imap. by rewrite Z2Nat.id. Qed.
Lemma bin_get_sub idxs bins i :
  0 <= i → bin_get (sub_counts idxs bins) i = (fun c => Z.max 0 (c - occ idxs i)) <$> bin_get bins i.
Proof. intros. unfold sub_counts. rewrite bin_get_imap. by rewrite Z2Nat.id. Qed.

Lemma bin_get_u16 bins i c : Forall is_u16 bins → bin_get bins i = Some c → is_u16 c.
Proof. intros H E. unfold bin_get in E. case_match; [done|]. by eapply Forall_lookup_1. Qed.

Lemma bin_set_u16 bins i v : Forall is_u16 bins → is_u16 v → Forall is_u16 (bin_set bins i v).
Proof. intros. by apply Forall_insert. Qed.

Lemma length_bin_set bins i v : length (bin_set bins i v) = length bins.
Proof. apply length_insert. Qed.

Lemma add_counts_nil bins : Forall is_u16 bins → add_counts [] bins = bins.
Proof.
  intros H. apply bins_eq. intros i Hi. rewrite bin_get_add by done.
  destruct (bin_get bins i) as [c|] eqn:E; [|done]. cbn. f_equal. rewrite Z.add_0_r.
  apply u16_small. by eapply bin_get_u16.
Qed.

Lemma sub_counts_nil bins : Forall is_u16 bins → sub_counts [] bins = bins.
Proof.
  intros H. apply bins_eq. intros i Hi. rewrite bin_get_sub by done.
  destruct (bin_get bins i) as [c|] eqn:E; [|done]. cbn. f_equal.
  pose proof (bin_get_u16 _ _ _ H E). unfold is_u16, occ in *. simpl. lia.
Qed.

Lemma add_counts_cons i idxs bins c :
  0 <= i → bin_get bins i = Some c →
  add_counts idxs (bin_set bins i (u16 (c + 1))) = add_counts (i :: idxs) bins.
Proof.
  intros Hi E. apply bins_eq. intros j Hj. rewrite !bin_get_add, (bin_get_set bins i j _ c) by done.
  rewrite occ_cons. case_decide; [subst j; rewrite E; cbn; f_equal; rewrite u16_add_l; f_equal; lia|done].
Qed.

Lemma sub_counts_cons i idxs bins c :
  0 <= i → is_u16 c → bin_get bins i = Some c →
  sub_counts (i :: idxs) bins = sub_counts idxs (if c >? 0 then bin_set bins i (u16 (c - 1)) else bins).
Proof.
  intros Hi Hc E. apply bins_eq. intros j Hj. rewrite !bin_get_sub by done. unfold is_u16 in Hc.
  pose proof (occ_nonneg idxs i). rewrite occ_cons.
  destruct (Z.gtb_spec c 0) as [Hc0|Hc0].
  - rewrite (bin_get_set bins i j _ c) by done. case_decide; [|done]. subst j. rewrite E. cbn. f_equal.
    rewrite u16_small by (unfold is_u16; lia). lia.
  - case_decide; [|done]. subst j. rewrite E. cbn. f_equal. lia.
Qed.

(** ** The operations on counters *)

Section Refinement.
Context (SHA1 : list Z → list Z) `{HF : !HashFunction SHA1}.

(** The positions of a key. *)
Definition key_idxs (m : Z) (key salts : list Z) : list Z := key_index SHA1 m key <$> salts.

Lemma cb_index_key m key salt :
  0 < m <= 2 ^ 31 → cb_index SHA1 m key salt = Some (key_index SHA1 m key salt).
Proof.
  intros Hm. destruct (bf_index_key SHA1 m key salt Hm) as [E Hi]. revert E Hi.
  generalize (key_index SHA1 m key salt). intros i. unfold bf_index, cb_index.
  destruct (hash_of SHA1 _) as [h|]; cbn; [|done]. destruct (Z.eqb_spec m 0); [done|]. intros [= <-] Hi.
  pose proof (Z.mod_pos_bound h m ltac:(lia)). f_equal. revert Hi. unfold s32, u64.
  rewrite u32_small by (unfold is_u32; lia).
  destruct (Z.ltb_spec (h `mod` m) (2 ^ 31)); [|lia]. intros. symmetry. apply Z.mod_small. lia.
Qed.

Section Loop.
Context (m : Z) (key : list Z) (Hm : 0 < m <= 2 ^ 31).

Local Ltac step bins :=
  match goal with Hl : Z.of_nat (length bins) = m |- context [cb_index SHA1 m key ?salt] =>
    rewrite (cb_index_key m key salt Hm); cbn [mbind option_bind];
    pose proof (proj2 (bf_index_key SHA1 m key salt Hm)) as Hi;
    let c := fresh "c" in let E := fresh "E" in
    destruct (bin_get_lt bins (key_index SHA1 m key salt) ltac:(lia)) as [c E];
    rewrite E; cbn [mbind option_bind]
  end.

Lemma cb_loop_add salts bins r :
  Z.of_nat (length bins) = m → Forall is_u16 bins →
  cb_loop SHA1 COUNTING_BF_OP_ADD m key salts bins r = Some (1, add_counts (key_idxs m key salts) bins, r).
Proof.
  revert bins. induction salts as [|salt salts IH]; intros bins Hl Hu; cbn [cb_loop].
  { cbn. by rewrite add_counts_nil. }
  step bins. cbn [Z.eqb COUNTING_BF_OP_ADD COUNTING_BF_OP_CHECK Pos.eqb].
  rewrite IH; [|by rewrite length_bin_set|apply bin_set_u16; auto with words].
  by rewrite (add_counts_cons _ _ _ c) by (lia || done).
Qed.

Lemma cb_loop_remove salts bins r :
  Z.of_nat (length bins) = m → Forall is_u16 bins → is_u16 r →
  let bins' := sub_counts (key_idxs m key salts) bins in
  cb_loop SHA1 COUNTING_BF_OP_REMOVE m key salts bins r = Some (1, bins', u16 (r + (zsum bins - zsum bins'))).
Proof.
  revert bins r. induction salts as [|salt salts IH]; intros bins r Hl Hu Hr bins'; subst bins'; cbn [cb_loop].
  { cbn. rewrite sub_counts_nil by done. replace (r + _) with r by lia. by rewrite u16_small. }
  step bins. cbn [Z.eqb COUNTING_BF_OP_REMOVE COUNTING_BF_OP_ADD COUNTING_BF_OP_CHECK Pos.eqb].
  assert (Hc : is_u16 c) by (by eapply bin_get_u16).
  change (key_idxs m key (salt :: salts)) with (key_index SHA1 m key salt :: key_idxs m key salts).
  rewrite (sub_counts_cons _ _ _ c) by (lia || done).
  destruct (Z.gtb_spec c 0) as [Hc0|Hc0].
  - rewrite IH; [|by rewrite length_bin_set|apply bin_set_u16; auto with words|apply u16_range].
    apply bin_get_Some in E; [|lia]. do 2 f_equal. rewrite u16_add_l. f_equal.
    unfold bin_set at 1. rewrite (zsum_insert _ _ _ _ E), u16_small by (unfold is_u16 in *; lia). lia.
  - by rewrite IH.
Qed.

Lemma cb_loop_check salts bins r :
  Z.of_nat (length bins) = m →
  cb_loop SHA1 COUNTING_BF_OP_CHECK m key salts bins r =
  Some (if decide (all_counted (key_idxs m key salts) bins) then 1 else 0, bins, r).
Proof.
  intros Hl. induction salts as [|salt salts IH]; cbn [cb_loop].
  { by rewrite decide_True by constructor. }
  step bins. cbn [Z.eqb COUNTING_BF_OP_CHECK].
  change (key_idxs m key (salt :: salts)) with (key_index SHA1 m key salt :: key_idxs m key salts).
  destruct (Z.eqb_spec c 0) as [->|].
  - rewrite decide_False; [done|]. unfold all_counted. rewrite Forall_cons. tauto.
  - rewrite IH. do 3 f_equal. apply decide_ext. unfold all_counted. rewrite Forall_cons, E. naive_solver.
Qed.
End Loop.

(** The three operations on a filter whose counters are given: the exact new filter. *)
Definition with_counts (f : counting_bloomfilter) (n : Z) (bins : list Z) : counting_bloomfilter :=
  {| cb_k := cb_k f; cb_m := cb_m f; cb_n := n; cb_salts := cb_salts f; cb_bins := bins |}.

Definition idxs_of (f : counting_bloomfilter) (key : list Z) : list Z := key_idxs (cb_m f) key (cb_salts f).

Definition added (f : counting_bloomfilter) (key : list Z) : counting_bloomfilter :=
  with_counts f (u32 (cb_n f + 1)) (add_counts (idxs_of f key) (cb_bins f)).
Definition removed (f : counting_bloomfilter) (key : list Z) : counting_bloomfilter :=
  let bins := sub_counts (idxs_of f key) (cb_bins f) in
  with_counts f (if u16 (zsum (cb_bins f) - zsum bins) >? 0 then u32 (cb_n f - 1) else cb_n f) bins.

Lemma added_wf f key : cb_wf f → cb_wf (added f key).
Proof.
  intros []. split; cbn; auto using u32_range.
  - unfold add_counts. by rewrite length_imap.
  - apply Forall_lookup_2. unfold add_counts. intros i c. rewrite list_lookup_imap.
    intros (c' & _ & ->)%fmap_Some. apply u16_range.
Qed.

Lemma removed_wf f key : cb_wf f → cb_wf (removed f key).
Proof.
  intros [? ? ? ? ? ? Hu]. split; cbn; auto using u32_range.
  - case_match; auto using u32_range.
  - unfold sub_counts. by rewrite length_imap.
  - apply Forall_lookup_2. unfold sub_counts. intros i c. rewrite list_lookup_imap.
    intros (c' & E & ->)%fmap_Some. pose proof (Forall_lookup_1 _ _ _ _ Hu E).
    pose proof (occ_nonneg (idxs_of f key) (Z.of_nat i)). unfold is_u16 in *. lia.
Qed.

Section Correct.
Context (malloc_ok : Z → bool).

Lemma op_add f key :
  cb_wf f → malloc_ok (Z.of_nat (length key) + CB_SALTS_LEN f) = true →
  counting_bloomfilter_add SHA1 malloc_ok (Some f) (Some key) = Some (1, Some (added f key)).
Proof.
  intros Hf Hm. unfold counting_bloomfilter_add, counting_bloomfilter_operation.
  cbn [Z.leb Z.compare COUNTING_BF_OP_ADD COUNTING_BF_OP_MAX Pos.compare Pos.compare_cont].
  rewrite Hm. cbn [negb]. fold COUNTING_BF_OP_ADD. by rewrite cb_loop_add by apply Hf.
Qed.

Lemma op_remove f key :
  cb_wf f → malloc_ok (Z.of_nat (length key) + CB_SALTS_LEN f) = true →
  counting_bloomfilter_remove SHA1 malloc_ok (Some f) (Some key) = Some (1, Some (removed f key)).
Proof.
  intros Hf Hm. unfold counting_bloomfilter_remove, counting_bloomfilter_operation.
  cbn [Z.leb Z.compare COUNTING_BF_OP_REMOVE COUNTING_BF_OP_MAX Pos.compare Pos.compare_cont].
  rewrite Hm. cbn [negb]. fold COUNTING_BF_OP_REMOVE. rewrite cb_loop_remove; [done|apply Hf..|done].
Qed.

Lemma op_check f key :
  cb_wf f → malloc_ok (Z.of_nat (length key) + CB_SALTS_LEN f) = true →
  counting_bloomfilter_check SHA1 malloc_ok (Some f) (Some key) =
  Some (if decide (all_counted (idxs_of f key) (cb_bins f)) then 1 else 0, Some f).
Proof.
  intros Hf Hm. unfold counting_bloomfilter_check, counting_bloomfilter_operation.
  cbn [Z.leb Z.compare COUNTING_BF_OP_CHECK COUNTING_BF_OP_MAX].
  rewrite Hm. cbn [negb]. fold COUNTING_BF_OP_CHECK. rewrite cb_loop_check by apply Hf. cbn. by destruct f.
Qed.

(** The abstract machine: three calls on the vector of counters. *)
Inductive ccall := XAdd (key : list Z) | XRemove (key : list Z) | XCheck (key : list Z).

Definition run_ccall (f : option counting_bloomfilter) (c : ccall) : option (Z * option counting_bloomfilter) :=
  match c with
  | XAdd key => counting_bloomfilter_add SHA1 malloc_ok f (Some key)
  | XRemove key => counting_bloomfilter_remove SHA1 malloc_ok f (Some key)
  | XCheck key => counting_bloomfilter_check SHA1 malloc_ok f (Some key)
  end.

Definition spec_ccall (f : counting_bloomfilter) (c : ccall) : Z * counting_bloomfilter :=
  let '(XAdd key | XRemove key | XCheck key) := c in
  if negb (malloc_ok (Z.of_nat (length key) + CB_SALTS_LEN f)) then (-1, f) else
  match c with
  | XAdd _ => (1, added f key)
  | XRemove _ => (1, removed f key)
  | XCheck _ => (if decide (all_counted (idxs_of f key) (cb_bins f)) then 1 else 0, f)
  end.

Fixpoint run_ccalls (f : option counting_bloomfilter) (cs : list ccall)
  : option (list Z * option counting_bloomfilter) :=
  match cs with
  | [] => Some ([], f)
  | c :: cs => '(r, f) ← run_ccall f c; '(rs, f) ← run_ccalls f cs; Some (r :: rs, f)
  end.

Fixpoint spec_ccalls (f : counting_bloomfilter) (cs : list ccall) : list Z * counting_bloomfilter :=
  match cs with
  | [] => ([], f)
  | c :: cs => let '(r, f) := spec_ccall f c in let '(rs, f) := spec_ccalls f cs in (r :: rs, f)
  end.

Lemma spec_ccall_wf f c : cb_wf f → cb_wf (spec_ccall f c).2.
Proof. intros. destruct c; cbn; case_match; cbn; auto using added_wf, removed_wf. Qed.

Lemma op_nomalloc f key op :
  malloc_ok (Z.of_nat (length key) + CB_SALTS_LEN f) = false →
  counting_bloomfilter_operation SHA1 malloc_ok (Some f) (Some key) op = Some (-1, Some f).
Proof. intros E. unfold counting_bloomfilter_operation. rewrite E. by case_match. Qed.

Lemma run_ccall_refines f c :
  cb_wf f → run_ccall (Some f) c = Some ((spec_ccall f c).1, Some (spec_ccall f c).2).
Proof.
  intros Hf. destruct c as [key|key|key]; cbn [run_ccall spec_ccall];
    destruct (malloc_ok (Z.of_nat (length key) + CB_SALTS_LEN f)) eqn:E; cbn [negb fst snd];
    first [by apply op_nomalloc|by apply op_add|by apply op_remove|by apply op_check].
Qed.

(** C35: any sequence of adds, removals and checks on a well-formed counting filter
    runs without an out-of-bounds access and does on the vector of 16-bit counters
    what its name says: an add adds to each counter how often the key hits it (modulo
    2^16), a removal subtracts that and stops at 0, a check answers whether all the
    counters of the key are nonzero; [n] follows, and the filter stays well formed. *)
Theorem counting_bloomfilter_refines f cs :
  cb_wf f →
  run_ccalls (Some f) cs = Some ((spec_ccalls f cs).1, Some (spec_ccalls f cs).2) ∧
  cb_wf (spec_ccalls f cs).2.
Proof.
  revert f. induction cs as [|c cs IH]; intros f Hf; [done|]. cbn [run_ccalls spec_ccalls].
  rewrite run_ccall_refines by done. cbn [mbind option_bind].
  pose proof (spec_ccall_wf f c Hf) as Hf1. destruct (spec_ccall f c) as [r f1]. cbn [fst snd] in *.
  destruct (IH f1 Hf1) as [-> Hf2]. by destruct (spec_ccalls f1 cs).
Qed.
End Correct.

(** ** Removal undoes addition *)

Lemma sub_add_counts idxs bins :
  (∀ i c, bin_get bins i = Some c → 0 <= c ∧ c + occ idxs i < 2 ^ 16) →
  sub_counts idxs (add_counts idxs bins) = bins.
Proof.
  intros H. apply bins_eq. intros i Hi. rewrite bin_get_sub, bin_get_add by done.
  destruct (bin_get bins i) as [c|] eqn:E; [|done]. cbn. f_equal. destruct (H _ _ E).
  pose proof (occ_nonneg idxs i). rewrite u16_small by (unfold is_u16; lia). lia.
Qed.

Lemma zsum_add_counts idxs bins :
  (∀ i c, bin_get bins i = Some c → 0 <= c ∧ c + occ idxs i < 2 ^ 16) →
  Forall (fun i => 0 <= i < Z.of_nat (length bins)) idxs →
  zsum (add_counts idxs bins) = zsum bins + Z.of_nat (length idxs).
Proof.
  intros H Hidx. revert bins H Hidx. induction idxs as [|i idxs IH]; intros bins H Hidx.
  { rewrite add_counts_nil; [simpl; lia|]. apply Forall_lookup_2. intros i c E.
    destruct (H (Z.of_nat i) c) as [? H']; [apply bin_get_Some; [lia|by rewrite Nat2Z.id]|].
    unfold occ in H'. simpl in H'. unfold is_u16. lia. }
  rewrite Forall_cons in Hidx. destruct Hidx as [Hi Hidx].
  destruct (bin_get_lt bins i) as [c E]; [done|].
  destruct (H _ _ E) as [Hc Hc']. rewrite occ_cons, decide_True in Hc' by done.
  pose proof (occ_nonneg idxs i). rewrite <- (add_counts_cons _ _ _ c) by (lia || done).
  rewrite u16_small by (unfold is_u16; lia).
  rewrite IH.
  - pose proof (proj1 (bin_get_Some _ _ _ (proj1 Hi)) E) as E'. unfold bin_set.
    rewrite (zsum_insert _ _ _ _ E'). cbn [length]. lia.
  - intros j d Hd. destruct (decide (0 <= j)) as [Hj|]; [|unfold bin_get in Hd; by destruct (Z.ltb_spec j 0); [|lia]].
    rewrite (bin_get_set _ _ _ _ c) in Hd by (lia || done). case_decide as D; simplify_eq.
    + lia.
    + apply H in Hd. rewrite occ_cons, decide_False in Hd by done. lia.
  - by rewrite length_bin_set.
Qed.

Lemma key_idxs_range f key :
  cb_wf f → Forall (fun i => 0 <= i < Z.of_nat (length (cb_bins f))) (idxs_of f key).
Proof.
  intros Hf. apply Forall_fmap, Forall_true. intros salt. cbn. rewrite (cwf_bins f Hf).
  apply (bf_index_key SHA1 (cb_m f) key salt (cwf_m f Hf)).
Qed.

Lemma removed_added f key :
  cb_wf f → 0 < cb_k f < 2 ^ 16 →
  (∀ i c, bin_get (cb_bins f) i = Some c → c + occ (idxs_of f key) i < 2 ^ 16) →
  removed (added f key) key = f.
Proof.
  intros Hf Hk H. unfold removed, added. cbn [with_counts cb_m cb_salts cb_bins cb_n].
  change (idxs_of (with_counts f _ _) key) with (idxs_of f key).
  assert (H' : ∀ i c, bin_get (cb_bins f) i = Some c → 0 <= c ∧ c + occ (idxs_of f key) i < 2 ^ 16).
  { intros i c E. split; [|eauto]. apply (bin_get_u16 _ _ _ (cwf_u16 f Hf) E). }
  rewrite sub_add_counts, zsum_add_counts by (done || by apply key_idxs_range).
  replace (zsum (cb_bins f) + _ - _) with (cb_k f)
    by (unfold idxs_of, key_idxs; rewrite length_fmap; pose proof (cwf_salts f Hf); lia).
  rewrite u16_small by (unfold is_u16; lia). destruct (Z.gtb_spec (cb_k f) 0); [|lia].
  pose proof (cwf_n _ Hf). destruct f as [k m n salts bins]. unfold with_counts.
  cbn [cb_k cb_m cb_n cb_salts cb_bins] in *. f_equal. unfold u32. rewrite Zminus_mod_idemp_l.
  replace (n + 1 - 1) with n by lia. by apply Z.mod_small.
Qed.

(** Removing a key right after adding it gives back the very same filter, [n]
    included, when no counter of the key overflows 16 bits. *)
Theorem counting_bloomfilter_add_remove f key :
  cb_wf f → 0 < cb_k f < 2 ^ 16 →
  (∀ i c, bin_get (cb_bins f) i = Some c → c + occ (idxs_of f key) i < 2 ^ 16) →
  ∃ f', counting_bloomfilter_add SHA1 malloc_succeeds (Some f) (Some key) = Some (1, Some f') ∧
        counting_bloomfilter_remove SHA1 malloc_succeeds (Some f') (Some key) = Some (1, Some f).
Proof.
  intros Hf Hk H. exists (added f key). rewrite op_add by done. split; [done|].
  by rewrite op_remove, removed_added by auto using added_wf.
Qed.

(** ** The counters of a multiset of keys *)

Definition total (f : counting_bloomfilter) (keys : list (list Z)) (i : Z) : Z :=
  zsum (map (fun key => occ (idxs_of f key) i) keys).

(** The counters are those of exactly these keys. *)
Definition represents (f : counting_bloomfilter) (keys : list (list Z)) : Prop :=
  ∀ i, 0 <= i < cb_m f → bin_get (cb_bins f) i = Some (total f keys i).

Lemma length_idxs_of f key : cb_wf f → Z.of_nat (length (idxs_of f key)) = cb_k f.
Proof. intros Hf. unfold idxs_of, key_idxs. rewrite length_fmap. apply Hf. Qed.

Lemma total_bounds f keys i :
  cb_wf f → 0 <= total f keys i <= cb_k f * Z.of_nat (length keys).
Proof.
  intros Hf. unfold total. induction keys as [|key keys IH]; cbn [map zsum foldr length]; [lia|].
  fold (zsum (map (fun key => occ (idxs_of f key) i) keys)).
  pose proof (occ_nonneg (idxs_of f key) i). pose proof (occ_le (idxs_of f key) i) as Hle.
  rewrite (length_idxs_of f key Hf) in Hle. lia.
Qed.

Lemma total_perm f keys keys' i : keys ≡ₚ keys' → total f keys i = total f keys' i.
Proof. unfold total, zsum. induction 1; cbn [map foldr] in *; lia. Qed.

Lemma represents_added f key keys :
  cb_wf f → represents f keys → cb_k f * Z.of_nat (S (length keys)) < 2 ^ 16 →
  represents (added f key) (key :: keys).
Proof.
  intros Hf Hr Hb i Hi. change (cb_m (added f key)) with (cb_m f) in Hi.
  change (total (added f key) (key :: keys) i) with (total f (key :: keys) i).
  cbn [added with_counts cb_bins]. rewrite bin_get_add, Hr by lia. cbn [fmap option_fmap option_map].
  pose proof (total_bounds f (key :: keys) i Hf) as Hlt. f_equal.
  rewrite u16_small; unfold total, is_u16 in *; cbn [map zsum foldr length] in *; [unfold zsum; lia|].
  unfold zsum. lia.
Qed.

Lemma represents_removed f key keys rest :
  cb_wf f → represents f keys → keys ≡ₚ key :: rest → represents (removed f key) rest.
Proof.
  intros Hf Hr Hp i Hi. change (cb_m (removed f key)) with (cb_m f) in Hi.
  change (total (removed f key) rest i) with (total f rest i).
  cbn [removed with_counts cb_bins]. rewrite bin_get_sub, Hr, (total_perm _ _ _ _ Hp) by lia.
  cbn [fmap option_fmap option_map]. f_equal. pose proof (total_bounds f rest i Hf).
  unfold total in *. cbn [map zsum foldr]. unfold zsum in *. lia.
Qed.

Lemma represents_check f key keys :
  cb_wf f → represents f keys → key ∈ keys → all_counted (idxs_of f key) (cb_bins f).
Proof.
  intros Hf Hr Hin. apply elem_of_Permutation in Hin as [rest Hp]. unfold all_counted.
  apply Forall_forall. intros i Hi.
  pose proof (proj1 (Forall_forall _ _) (key_idxs_range f key Hf) i Hi) as Hb. cbn in Hb.
  rewrite (cwf_bins f Hf) in Hb. rewrite Hr, (total_perm _ _ _ _ Hp) by done.
  assert (0 < occ (idxs_of f key) i).
  { unfold occ. assert (Hin : i ∈ filter (.= i) (idxs_of f key)) by (by apply list_elem_of_filter).
    destruct (filter (.= i) (idxs_of f key)); [set_solver|simpl; lia]. }
  pose proof (total_bounds f rest i Hf). unfold total in *. cbn [map zsum foldr]. unfold zsum in *.
  intros [= E]. lia.
Qed.

(** Histories that remove only keys that are in the filter and never hold so many
    keys that a counter could overflow. *)
Inductive history (k : Z) : list (list Z) → list ccall → list (list Z) → Prop :=
| history_nil keys : history k keys [] keys
| history_add keys key cs keys' :
    k * Z.of_nat (S (length keys)) < 2 ^ 16 →
    history k (key :: keys) cs keys' → history k keys (XAdd key :: cs) keys'
| history_remove keys key rest cs keys' :
    keys ≡ₚ key :: rest → history k rest cs keys' → history k keys (XRemove key :: cs) keys'
| history_check keys key cs keys' :
    history k keys cs keys' → history k keys (XCheck key :: cs) keys'.

(** Along any history of adds, removals of present keys and checks that does not
    overflow the counters, the filter represents exactly the multiset of the keys that
    are left, and reports each of them present: removing a key never hides another. *)
Theorem counting_bloomfilter_no_false_negative f keys cs keys' :
  cb_wf f → represents f keys → history (cb_k f) keys cs keys' →
  ∃ rs f', run_ccalls malloc_succeeds (Some f) cs = Some (rs, Some f') ∧ represents f' keys' ∧
    ∀ key, key ∈ keys' →
      counting_bloomfilter_check SHA1 malloc_succeeds (Some f') (Some key) = Some (1, Some f').
Proof.
  intros Hf Hr Hh. remember (cb_k f) as k eqn:Ek. revert f Ek Hf Hr.
  induction Hh as [keys|keys key cs keys' Hb Hh IH|keys key rest cs keys' Hp Hh IH|keys key cs keys' Hh IH];
    intros f Ek Hf Hr; cbn [run_ccalls run_ccall].
  - exists [], f. split_and!; [done|done|]. intros key Hin.
    rewrite op_check by done. by rewrite decide_True by (by eapply represents_check).
  - rewrite op_add by done. cbn [mbind option_bind]. subst k.
    destruct (IH (added f key)) as (rs & f' & -> & H);
      [done|by apply added_wf|by apply represents_added|]. by exists (1 :: rs), f'.
  - rewrite op_remove by done. cbn [mbind option_bind].
    destruct (IH (removed f key)) as (rs & f' & -> & H);
      [done|by apply removed_wf|by eapply represents_removed|]. by exists (1 :: rs), f'.
  - rewrite op_check by done. cbn [mbind option_bind].
    destruct (IH f) as (rs & f' & -> & H); [done..|]. by eexists _, f'.
Qed.

(** ** Overflow *)

Lemma iter_add_counts n idxs bins :
  Forall is_u16 bins →
  Nat.iter n (add_counts idxs) bins = imap (fun i c => u16 (c + Z.of_nat n * occ idxs (Z.of_nat i))) bins.
Proof.
  intros Hu. induction n as [|n IH]; cbn [Nat.iter nat_rect].
  - apply bins_eq. intros i Hi. rewrite bin_get_imap. destruct (bin_get bins i) as [c|] eqn:E; [|done].
    cbn. f_equal. rewrite Z.add_0_r. symmetry. apply u16_small. by eapply bin_get_u16.
  - change (nat_rect _ _ _ n) with (Nat.iter n (add_counts idxs) bins). rewrite IH.
    apply bins_eq. intros i Hi. rewrite bin_get_add, !bin_get_imap by done.
    destruct (bin_get bins i) as [c|]; [|done]. cbn [fmap option_fmap option_map]. f_equal.
    rewrite Z2Nat.id, u16_add_l by done. f_equal. lia.
Qed.

Lemma iter_added n f key :
  cb_bins (Nat.iter n (fun f => added f key) f) = Nat.iter n (add_counts (idxs_of f key)) (cb_bins f) ∧
  cb_m (Nat.iter n (fun f => added f key) f) = cb_m f ∧
  cb_salts (Nat.iter n (fun f => added f key) f) = cb_salts f.
Proof.
  induction n as [|n (IH & Hm & Hs)]; [done|]. rewrite !Nat.iter_succ.
  cbn [added with_counts cb_bins cb_m cb_salts]. split_and!; [|done|done].
  unfold idxs_of in *. by rewrite IH, Hm, Hs.
Qed.

Lemma run_adds n f key :
  cb_wf f →
  run_ccalls malloc_succeeds (Some f) (replicate n (XAdd key)) =
    Some (replicate n 1, Some (Nat.iter n (fun f => added f key) f)) ∧
  cb_wf (Nat.iter n (fun f => added f key) f).
Proof.
  revert f. induction n as [|n IH]; intros f Hf; [done|].
  cbn [replicate run_ccalls run_ccall]. rewrite op_add by done. cbn [mbind option_bind].
  destruct (IH (added f key)) as [-> Hw]; [by apply added_wf|]. rewrite Nat.iter_succ_r. done.
Qed.

(** The 16-bit counters wrap: after 65536 additions of one key every counter is
    back where it was, and a key that was absent before is still reported absent, a
    false negative. *)
Theorem counting_bloomfilter_add_wraps f key (N : nat) :
  cb_wf f → Z.of_nat N = 65536 →
  ∃ f', run_ccalls malloc_succeeds (Some f) (replicate N (XAdd key)) = Some (replicate N 1, Some f') ∧
        cb_bins f' = cb_bins f ∧
        (counting_bloomfilter_check SHA1 malloc_succeeds (Some f) (Some key) = Some (0, Some f) →
         counting_bloomfilter_check SHA1 malloc_succeeds (Some f') (Some key) = Some (0, Some f')).
Proof.
  intros Hf HN. destruct (run_adds N f key Hf) as [E Hf'].
  destruct (iter_added N f key) as (Hb & Hm & Hs). rewrite iter_add_counts, HN in Hb by apply Hf.
  assert (Hb' : cb_bins (Nat.iter N (fun f => added f key) f) = cb_bins f).
  { rewrite Hb. apply bins_eq. intros i Hi. rewrite bin_get_imap.
    destruct (bin_get (cb_bins f) i) as [c|] eqn:Ec; [|done].
    cbn [fmap option_fmap option_map]. f_equal.
    pose proof (bin_get_u16 _ _ _ (cwf_u16 f Hf) Ec) as Hc. unfold u16, is_u16 in *.
    change (2 ^ 16) with 65536 in *. rewrite Z.mul_comm, Z.mod_add by lia. by apply Z.mod_small. }
  eexists. split_and!; [exact E|exact Hb'|]. rewrite !op_check by done.
  unfold idxs_of. rewrite Hb', Hm, Hs. intros H. case_decide; congruence.
Qed.
End Refinement.

(** ** Conversion to a plain filter *)

Lemma nc_loop_spec m bins n i bins_nc :
  m `mod` 8 = 0 → Z.of_nat (length bins) = m → Z.of_nat (length bins_nc) = m / 8 → bytes bins_nc →
  0 <= i → i + Z.of_nat n <= m →
  ∃ r, nc_loop n i (Z.to_nat (i / 8)) bins bins_nc = Some r ∧ length r = length bins_nc ∧ bytes r ∧
       ∀ x, x ∈ bit_set r ↔ x ∈ bit_set bins_nc ∨ i <= x < i + Z.of_nat n ∧ bin_get bins x ≠ Some 0.
Proof.
  intros Hm8 Hl. revert i bins_nc.
  induction n as [|n IH]; intros i bins_nc Hnc Hb Hi Hn; cbn [nc_loop].
  { exists bins_nc. split_and!; try done. intros x. split; [tauto|]. intros [|[? _]]; [done|lia]. }
  destruct (lookup_lt_is_Some_2 bins (Z.to_nat i)) as [c Ec]; [lia|]. rewrite Ec. cbn [mbind option_bind].
  destruct (lookup_lt_is_Some_2 bins_nc (bin_of i)) as [b Eb].
  { unfold bin_of, VALUES_PER_BIN. Z.to_euclidean_division_equations. lia. }
  assert (Ej : (if i `mod` VALUES_PER_BIN =? VALUES_PER_BIN - 1 then S (Z.to_nat (i / 8)) else Z.to_nat (i / 8))
               = Z.to_nat ((i + 1) / 8)).
  { unfold VALUES_PER_BIN. destruct (Z.eqb_spec (i `mod` 8) (8 - 1)); Z.to_euclidean_division_equations; lia. }
  rewrite Ej. pose proof (proj2 (bin_get_Some bins i c Hi) Ec) as Eg. unfold nz at 1.
  destruct (Z.eqb_spec c 0) as [->|Hc]; cbn [negb mbind option_bind].
  - destruct (IH (i + 1) bins_nc) as (r & -> & Hr & Hbr & Hx); [done|done|lia|lia|].
    exists r. split_and!; [done..|]. intros x. rewrite Hx. destruct (decide (x = i)) as [->|].
    + rewrite Eg. split; [naive_solver lia|]. intros [|[_ ?]]; [tauto|congruence].
    + split; (intros [|[? ?]]; [tauto|right; split; [lia|done]]).
  - change (Z.to_nat (i / 8)) with (bin_of i). rewrite Eb. cbn [mbind option_bind].
    change (Z.shiftl 1 (i `mod` VALUES_PER_BIN)) with (bit_mask i).
    destruct (IH (i + 1) (<[bin_of i := u8 (Z.lor b (bit_mask i))]> bins_nc)) as (r & E & Hr & Hbr & Hx).
    { by rewrite length_insert. } { apply Forall_insert; auto with words. } { lia. } { lia. }
    exists r. rewrite length_insert in Hr. split_and!; [exact E|done..|]. intros x.
    rewrite Hx, (bit_set_insert _ _ _ Hi Eb), elem_of_union, elem_of_singleton.
    destruct (decide (x = i)) as [->|].
    + rewrite Eg. split; [|tauto]. intros _. right. split; [lia|congruence].
    + split; (intros [|[? ?]]; [tauto|right; split; [lia|done]]).
Qed.

(** A well-formed counting filter whose size is a multiple of eight converts, with
    no access out of bounds, to a well-formed plain filter of the same parameters
    whose bits are the nonzero counters, and both filters answer alike for any key. *)
Theorem counting_bloomfilter_to_noncounting_spec SHA1 `{!HashFunction SHA1} f :
  cb_wf f → cb_m f `mod` 8 = 0 →
  ∃ g, counting_bloomfilter_to_noncounting malloc_succeeds (Some f) = Some (Some g) ∧ bf_wf g ∧
       bf_k g = cb_k f ∧ bf_m g = cb_m f ∧ bf_n g = cb_n f ∧ bf_salts g = cb_salts f ∧
       (∀ i, i ∈ bit_set (bf_bins g) ↔ 0 <= i < cb_m f ∧ bin_get (cb_bins f) i ≠ Some 0) ∧
       ∀ key, ∃ r, bloomfilter_check SHA1 malloc_succeeds (Some g) (Some key) = Some (r, Some g) ∧
                   counting_bloomfilter_check SHA1 malloc_succeeds (Some f) (Some key) = Some (r, Some f).
Proof.
  intros Hf Hm8. destruct (cwf_m f Hf) as [Hm0 Hm]. unfold counting_bloomfilter_to_noncounting, VALUES_PER_BIN.
  cbn [negb malloc_succeeds].
  destruct (nc_loop_spec (cb_m f) (cb_bins f) (Z.to_nat (cb_m f)) 0 (replicate (Z.to_nat (cb_m f / 8)) 0))
    as (r & E & Hl & Hb & Hx); [done|apply Hf| | |lia|lia|].
  { rewrite length_replicate, Z2Nat.id; [done|]. apply Z.div_pos; lia. }
  { apply Forall_replicate. unfold is_byte. lia. }
  change (Z.to_nat (0 / 8)) with 0%nat in E. rewrite E. cbn [mbind option_bind].
  eexists. split; [reflexivity|]. cbn [bf_k bf_m bf_n bf_salts bf_bins].
  rewrite length_replicate in Hl. rewrite bit_set_zeros in Hx.
  assert (Hbits : ∀ i, i ∈ bit_set r ↔ 0 <= i < cb_m f ∧ bin_get (cb_bins f) i ≠ Some 0).
  { intros i. rewrite Hx. replace (0 + Z.of_nat (Z.to_nat (cb_m f))) with (cb_m f) by lia. set_solver. }
  match goal with |- bf_wf ?c ∧ _ => assert (Hc : bf_wf c) end.
  { split; cbn; try apply Hf; try done. rewrite Hl, Z2Nat.id; [done|]. apply Z.div_pos; lia. }
  split_and!; try done. intros key. rewrite check_wf, op_check by done.
  cbn [malloc_succeeds bf_m bf_salts bf_bins]. eexists. split; [reflexivity|]. do 2 f_equal.
  apply decide_ext. unfold all_counted, key_bits, idxs_of, key_idxs.
  rewrite Forall_forall, elem_of_subseteq. split.
  - intros H i Hi%elem_of_list_to_set. apply Hbits. split; [|by apply H].
    apply list_elem_of_fmap in Hi as (salt & -> & _).
    exact (proj2 (bf_index_key SHA1 _ key salt (cwf_m f Hf))).
  - intros H i Hi. apply Hbits, H. by apply elem_of_list_to_set.
Qed.

(** ** Transport *)

Lemma cb_net_bytes_ok f :
  cb_wf f → bytes (cb_net_bytes f) ∧ Z.of_nat (length (cb_net_bytes f)) = COUNTING_BLOOMFILTER_TOT_LEN f.
Proof.
  intros Hf. unfold cb_net_bytes. split.
  - rewrite !Forall_app. split_and!; auto with words; apply bytes_concat_map; auto with words.
  - rewrite !length_app, !length_be32, (length_concat_map _ 4), (length_concat_map _ 2)
      by (apply length_be32 || apply length_be16).
    unfold COUNTING_BLOOMFILTER_TOT_LEN, CB_SALTS_LEN, CB_FILTER_LEN. rewrite Z.div_1_r.
    pose proof (cwf_salts f Hf). pose proof (cwf_bins f Hf). lia.
Qed.

Lemma parse_counting_net_bytes_ok f : cb_wf f → parse_counting_net_bytes (cb_net_bytes f) = Some f.
Proof.
  intros Hf. unfold parse_counting_net_bytes, cb_net_bytes. destruct Hf as [Hk Hn Hm Hs Hs32 Hb Hu].
  rewrite read_be32_be32 by done. cbn [mbind option_bind].
  rewrite read_be32_be32 by (unfold is_u32; lia). cbn [mbind option_bind].
  rewrite read_be32_be32 by done. cbn [mbind option_bind].
  rewrite <- Hs at 1. rewrite Nat2Z.id, (read_many_encode _ _ is_u32) by (done || apply read_be32_be32).
  cbn [mbind option_bind]. rewrite <- Hb at 1. rewrite Nat2Z.id, <- (app_nil_r (concat (map be16 _))).
  rewrite (read_many_encode _ _ is_u16) by (done || apply read_be16_be16).
  cbn [mbind option_bind]. by destruct f.
Qed.

(** A counting filter survives its trip over the network, counters included, when
    it is smaller than 1 GiB. *)
Theorem counting_bloomfilter_transport f ctx_buf :
  cb_wf f → length ctx_buf = 4%nat → COUNTING_BLOOMFILTER_TOT_LEN f < 2 ^ 30 →
  ∃ s, counting_bloomfilter_to_base64 malloc_succeeds (Some f) = Some (s ++ [0]) ∧
       base64_to_counting_bloomfilter malloc_succeeds ctx_buf s = Some (Some f).
Proof.
  intros Hf Hc Hl. destruct (cb_net_bytes_ok f Hf) as [Hb Hn].
  destruct (BASE64_LENGTH_bound (COUNTING_BLOOMFILTER_TOT_LEN f)) as [HL0 HL]; [lia|].
  exists (b64_enc (cb_net_bytes f)).
  unfold counting_bloomfilter_to_base64, base64_to_counting_bloomfilter.
  rewrite encode_alloc_ok by (done || rewrite Hn; lia).
  rewrite decode_alloc_enc, parse_counting_net_bytes_ok, Hn by done. cbn [negb malloc_succeeds].
  split; [|done]. by rewrite s32_nonneg by lia.
Qed.

(** A dump overruns its buffer, as that of a plain filter does. *)
Lemma counting_bloomfilter_to_str_overflow f :
  cb_wf f → counting_bloomfilter_to_str malloc_succeeds (Some f) = None.
Proof.
  intros Hf. unfold counting_bloomfilter_to_str. cbn [negb malloc_succeeds].
  rewrite hex_into_overflow; [done|done|]. unfold cb_host_bytes.
  rewrite !length_app, !length_le32, (length_concat_map _ 4), (length_concat_map _ 2) by done.
  unfold COUNTING_BLOOMFILTER_TOT_LEN, CB_SALTS_LEN, CB_FILTER_LEN. rewrite Z.div_1_r.
  pose proof (cwf_salts f Hf). pose proof (cwf_bins f Hf). simpl length. lia.
Qed.

(** ** Witnesses *)

Definition ex_cfilter : counting_bloomfilter := CBF 2 16 0 [11; 22] (replicate 16 0).

Lemma ex_cfilter_wf : cb_wf ex_cfilter.
Proof. split; simpl; try done; repeat constructor; unfold is_u32, is_u16; lia. Qed.

Lemma counting_bloomfilter_refines_witness :
  ∃ f', run_ccalls fips_sha1 malloc_succeeds (Some ex_cfilter)
          [XCheck ex_key; XAdd ex_key; XCheck ex_key; XRemove ex_key; XCheck ex_key]
        = Some ([0; 1; 1; 1; 0], Some f') ∧ cb_wf f'.
Proof.
  destruct (counting_bloomfilter_refines fips_sha1 malloc_succeeds ex_cfilter
    [XCheck ex_key; XAdd ex_key; XCheck ex_key; XRemove ex_key; XCheck ex_key] ex_cfilter_wf) as [E Hf].
  eexists. split; [|exact Hf]. rewrite E. vm_compute. reflexivity.
Defined.

Lemma ex_cfilter_small idxs i c :
  (length idxs <= 2)%nat → bin_get (cb_bins ex_cfilter) i = Some c → c + occ idxs i < 2 ^ 16.
Proof.
  intros Hl E. unfold bin_get in E. case_match; [done|]. apply lookup_replicate in E as [-> _].
  pose proof (occ_le idxs i). lia.
Qed.

Lemma counting_bloomfilter_add_remove_witness :
  ∃ f', counting_bloomfilter_add fips_sha1 malloc_succeeds (Some ex_cfilter) (Some ex_key) = Some (1, Some f') ∧
        counting_bloomfilter_remove fips_sha1 malloc_succeeds (Some f') (Some ex_key) = Some (1, Some ex_cfilter).
Proof.
  apply (counting_bloomfilter_add_remove fips_sha1 ex_cfilter ex_key ex_cfilter_wf);
    [split; reflexivity|intros i c; apply ex_cfilter_small; simpl; lia].
Defined.

Lemma ex_cfilter_represents : represents fips_sha1 ex_cfilter [].
Proof.
  intros i Hi. apply bin_get_Some; [apply Hi|]. apply lookup_replicate. split; [done|]. simpl in Hi. lia.
Qed.

Lemma counting_bloomfilter_no_false_negative_witness :
  ∃ rs f', run_ccalls fips_sha1 malloc_succeeds (Some ex_cfilter) [XAdd ex_key; XAdd [1]; XRemove [1]] =
             Some (rs, Some f') ∧
           counting_bloomfilter_check fips_sha1 malloc_succeeds (Some f') (Some ex_key) = Some (1, Some f').
Proof.
  destruct (counting_bloomfilter_no_false_negative fips_sha1 ex_cfilter []
    [XAdd ex_key; XAdd [1]; XRemove [1]] [ex_key] ex_cfilter_wf ex_cfilter_represents) as (rs & f' & E & _ & H).
  - apply history_add; [reflexivity|]. apply history_add; [reflexivity|].
    apply history_remove with [ex_key]; [reflexivity|]. apply history_nil.
  - exists rs, f'. split; [exact E|]. apply H. apply list_elem_of_here.
Defined.

Lemma counting_bloomfilter_add_wraps_witness :
  ∃ f', run_ccalls fips_sha1 malloc_succeeds (Some ex_cfilter) (replicate (Z.to_nat 65536) (XAdd ex_key)) =
          Some (replicate (Z.to_nat 65536) 1, Some f') ∧
        counting_bloomfilter_check fips_sha1 malloc_succeeds (Some f') (Some ex_key) = Some (0, Some f').
Proof.
  destruct (counting_bloomfilter_add_wraps fips_sha1 ex_cfilter ex_key (Z.to_nat 65536) ex_cfilter_wf)
    as (f' & E & _ & H); [apply Z2Nat.id; lia|].
  exists f'. split; [exact E|]. apply H. vm_compute. reflexivity.
Defined.

Lemma counting_bloomfilter_to_noncounting_spec_witness :
  ∃ g, counting_bloomfilter_to_noncounting malloc_succeeds (Some ex_cfilter) = Some (Some g) ∧ bf_wf g.
Proof.
  destruct (counting_bloomfilter_to_noncounting_spec fips_sha1 ex_cfilter ex_cfilter_wf eq_refl)
    as (g & E & Hg & _).
  exists g. split; [exact E|exact Hg].
Defined.

Lemma counting_bloomfilter_transport_witness :
  ∃ s, counting_bloomfilter_to_base64 malloc_succeeds (Some ex_cfilter) = Some (s ++ [0]) ∧
       base64_to_counting_bloomfilter malloc_succeeds [0; 0; 0; 0] s = Some (Some ex_cfilter).
Proof. apply (counting_bloomfilter_transport ex_cfilter); [apply ex_cfilter_wf|reflexivity|reflexivity]. Defined.
