(* ===== verification/CList.v ===== *)
(** * CList: the intrusive doubly linked lists of [include/libhaggle/list.h].

    A [list_t] lives at an address; the store [cells] maps addresses to the [prev] and
    [next] pointers, [None] being NULL.  An access through NULL or to a cell that is
    not allocated makes an operation [None].  [is_list c head xs] says that the cells
    [xs] hang, in this order, on the ring of [head]; the operations are specified by it. *)

From S2P Require Import Prelude.

Abbreviation loc := positive.

Record list_t := Cell { prev : option loc; next : option loc }.
Abbreviation cells := (gmap loc list_t).

Definition LIST_NULL : Z := -1.
Definition LIST_SUCCESS : Z := 1.

Definition get_next (c : cells) (p : loc) : option (option loc) := next <$> c !! p.
Definition get_prev (c : cells) (p : loc) : option (option loc) := prev <$> c !! p.
Definition set_next (p : loc) (v : option loc) (c : cells) : option cells :=
  e ← c !! p; Some (<[p := {| prev := prev e; next := v |}]> c).
Definition set_prev (p : loc) (v : option loc) (c : cells) : option cells :=
  e ← c !! p; Some (<[p := {| prev := v; next := next e |}]> c).

Definition INIT_LIST (h : loc) (c : cells) : option cells :=
  c ← set_next h (Some h) c; set_prev h (Some h) c.

(** [prev] and [next] may be NULL, when an unattached element is detached. *)
Definition listelm_detach (prev next : option loc) (c : cells) : option (Z * cells) :=
  n ← next; c ← set_prev n prev c;
  p ← prev; c ← set_next p next c; Some (LIST_SUCCESS, c).

Definition listelm_add (le : loc) (prev next : option loc) (c : cells) : option (Z * cells) :=
  p ← prev; c ← set_next p (Some le) c;
  c ← set_prev le prev c;
  c ← set_next le next c;
  n ← next; c ← set_prev n (Some le) c; Some (LIST_SUCCESS, c).

Definition list_add (le head : option loc) (c : cells) : option (Z * cells) :=
  match head, le with
  | Some head, Some le =>
    nx ← get_next c head; '(_, c) ← listelm_add le (Some head) nx c; Some (LIST_SUCCESS, c)
  | _, _ => Some (LIST_NULL, c)
  end.

Definition list_add_tail (le head : option loc) (c : cells) : option (Z * cells) :=
  match head, le with
  | Some head, Some le =>
    pv ← get_prev c head; '(_, c) ← listelm_add le pv (Some head) c; Some (LIST_SUCCESS, c)
  | _, _ => Some (LIST_NULL, c)
  end.

Definition list_detach (le : option loc) (c : cells) : option (Z * cells) :=
  match le with
  | None => Some (LIST_NULL, c)
  | Some le =>
    pv ← get_prev c le; nx ← get_next c le;
    '(_, c) ← listelm_detach pv nx c;
    c ← set_prev le None c; c ← set_next le None c; Some (LIST_SUCCESS, c)
  end.

Definition list_first (c : cells) (head : loc) : option (option loc) := get_next c head.
Definition list_empty (c : cells) (head : loc) : option bool :=
  nx ← get_next c head; Some (bool_decide (Some head = nx)).
Definition list_unattached (c : cells) (le : loc) : option bool :=
  nx ← get_next c le; pv ← get_prev c le;
  Some (bool_decide (nx = Some le) && bool_decide (pv = Some le)).

(** [list_for_each (pos, head) body]: the body may return from the function, with
    [Some].  Out of fuel, or following NULL, is [None]. *)
Fixpoint list_for_each {A} (fuel : nat) (c : cells) (head : loc) (pos : option loc)
    (body : loc → option (option A)) : option (option A) :=
  match fuel with
  | O => None
  | S fuel =>
    if bool_decide (pos = Some head) then Some None else
    p ← pos; r ← body p;
    match r with
    | Some a => Some (Some a)
    | None => nx ← get_next c p; list_for_each fuel c head nx body
    end
  end.

(** Enough fuel for a loop over any ring: one turn more than there are cells. *)
Definition loop_fuel (c : cells) : nat := S (size c).

(** ** Representation *)

Definition nxt (c : cells) (p : loc) : option loc := c !! p ≫= next.
Definition prv (c : cells) (p : loc) : option loc := c !! p ≫= prev.
Definition link (c : cells) (p q : loc) : Prop := nxt c p = Some q ∧ prv c q = Some p.

Fixpoint linked (c : cells) (p : loc) (xs : list loc) (q : loc) : Prop :=
  match xs with
  | [] => link c p q
  | x :: xs => link c p x ∧ linked c x xs q
  end.

Definition is_list (c : cells) (head : loc) (xs : list loc) : Prop :=
  linked c head xs head ∧ NoDup (head :: xs).

Lemma nxt_get c p q : nxt c p = Some q → get_next c p = Some (Some q).
Proof. unfold nxt, get_next. intros (e & -> & E)%bind_Some. simpl. by rewrite E. Qed.
Lemma prv_get c p q : prv c p = Some q → get_prev c p = Some (Some q).
Proof. unfold prv, get_prev. intros (e & -> & E)%bind_Some. simpl. by rewrite E. Qed.

Lemma linked_app c p xs y ys q :
  linked c p (xs ++ y :: ys) q ↔ linked c p xs y ∧ linked c y ys q.
Proof. revert p. induction xs as [|x xs IH]; intros p; simpl; [done|]. rewrite IH. tauto. Qed.

(** Only the [next] of the front cells and the [prev] of the back cells matter. *)
Lemma linked_ext c c' p xs q :
  (∀ x, x ∈ p :: xs → nxt c' x = nxt c x) → (∀ x, x ∈ xs ++ [q] → prv c' x = prv c x) →
  linked c p xs q → linked c' p xs q.
Proof.
  revert p. induction xs as [|x xs IH]; intros p Hn Hp; simpl.
  - unfold link. by rewrite Hn, Hp by set_solver.
  - intros [[E1 E2] H]. split; [split; [by rewrite Hn by set_solver|by rewrite Hp by set_solver]|].
    apply IH; [intros y Hy; apply Hn; set_solver|intros y Hy; apply Hp; set_solver|done].
Qed.

Lemma set_next_spec p v c e :
  c !! p = Some e →
  ∃ c', set_next p v c = Some c' ∧
        (∀ x, nxt c' x = if decide (x = p) then v else nxt c x) ∧ (∀ x, prv c' x = prv c x) ∧
        (∀ x, x ≠ p → c' !! x = c !! x) ∧ dom c' = dom c.
Proof.
  intros E. unfold set_next. rewrite E. simpl. eexists. split; [reflexivity|].
  unfold nxt, prv. split_and!.
  - intros x. case_decide; [subst x; by rewrite lookup_insert_eq|by rewrite lookup_insert_ne].
  - intros x. destruct (decide (x = p)) as [->|]; [by rewrite lookup_insert_eq, E|by rewrite lookup_insert_ne].
  - intros x Hx. by rewrite lookup_insert_ne.
  - rewrite dom_insert_L. apply elem_of_dom_2 in E. set_solver.
Qed.

Lemma set_prev_spec p v c e :
  c !! p = Some e →
  ∃ c', set_prev p v c = Some c' ∧
        (∀ x, prv c' x = if decide (x = p) then v else prv c x) ∧ (∀ x, nxt c' x = nxt c x) ∧
        (∀ x, x ≠ p → c' !! x = c !! x) ∧ dom c' = dom c.
Proof.
  intros E. unfold set_prev. rewrite E. simpl. eexists. split; [reflexivity|].
  unfold nxt, prv. split_and!.
  - intros x. case_decide; [subst x; by rewrite lookup_insert_eq|by rewrite lookup_insert_ne].
  - intros x. destruct (decide (x = p)) as [->|]; [by rewrite lookup_insert_eq, E|by rewrite lookup_insert_ne].
  - intros x Hx. by rewrite lookup_insert_ne.
  - rewrite dom_insert_L. apply elem_of_dom_2 in E. set_solver.
Qed.

Lemma link_dom c p q : link c p q → p ∈ dom c ∧ q ∈ dom c.
Proof.
  intros [(e & E & _)%bind_Some (e' & E' & _)%bind_Some]. split; by eapply elem_of_dom_2.
Qed.

Ltac get_cell c p :=
  let e := fresh "e" in let E := fresh "E" in
  assert (is_Some (c !! p)) as [e E] by (apply elem_of_dom; set_solver).

Lemma listelm_add_spec c le p q :
  link c p q → le ∈ dom c → le ≠ p → le ≠ q →
  ∃ c', listelm_add le (Some p) (Some q) c = Some (LIST_SUCCESS, c') ∧
        (∀ x, nxt c' x = if decide (x = p) then Some le else if decide (x = le) then Some q else nxt c x) ∧
        (∀ x, prv c' x = if decide (x = q) then Some le else if decide (x = le) then Some p else prv c x) ∧
        (∀ x, x ≠ p → x ≠ q → x ≠ le → c' !! x = c !! x) ∧ dom c' = dom c.
Proof.
  intros Hl Hle Hp Hq. apply link_dom in Hl as [Dp Dq]. unfold listelm_add. cbn [mbind option_bind].
  get_cell c p. destruct (set_next_spec p (Some le) c e E) as (c1 & -> & N1 & P1 & F1 & D1). cbn [mbind option_bind].
  get_cell c1 le. destruct (set_prev_spec le (Some p) c1 e0 E0) as (c2 & -> & P2 & N2 & F2 & D2). cbn [mbind option_bind].
  get_cell c2 le. destruct (set_next_spec le (Some q) c2 e1 E1) as (c3 & -> & N3 & P3 & F3 & D3). cbn [mbind option_bind].
  get_cell c3 q. destruct (set_prev_spec q (Some le) c3 e2 E2) as (c4 & -> & P4 & N4 & F4 & D4). cbn [mbind option_bind].
  exists c4. split_and!; [done|..].
  - intros x. rewrite N4, N3, N2, N1. repeat case_decide; congruence.
  - intros x. rewrite P4, P3, P2, P1. repeat case_decide; congruence.
  - intros x ???. by rewrite F4, F3, F2, F1.
  - congruence.
Qed.

Lemma list_detach_spec c le p q :
  link c p le → link c le q → le ≠ p → le ≠ q →
  ∃ c', list_detach (Some le) c = Some (LIST_SUCCESS, c') ∧
        (∀ x, nxt c' x = if decide (x = le) then None else if decide (x = p) then Some q else nxt c x) ∧
        (∀ x, prv c' x = if decide (x = le) then None else if decide (x = q) then Some p else prv c x) ∧
        (∀ x, x ≠ p → x ≠ q → x ≠ le → c' !! x = c !! x) ∧ dom c' = dom c ∧ c' !! le = Some (Cell None None).
Proof.
  intros Hl1 Hl2 Hp Hq. pose proof (link_dom _ _ _ Hl1) as [Dp Dle]. pose proof (link_dom _ _ _ Hl2) as [_ Dq].
  unfold list_detach, listelm_detach.
  rewrite (prv_get c le p), (nxt_get c le q) by (apply Hl1 || apply Hl2). cbn [mbind option_bind].
  get_cell c q. destruct (set_prev_spec q (Some p) c e E) as (c1 & -> & P1 & N1 & F1 & D1). cbn [mbind option_bind].
  get_cell c1 p. destruct (set_next_spec p (Some q) c1 e0 E0) as (c2 & -> & N2 & P2 & F2 & D2). cbn [mbind option_bind].
  get_cell c2 le. unfold set_prev at 1. rewrite E1. cbn [mbind option_bind].
  unfold set_next. rewrite lookup_insert_eq. cbn [mbind option_bind prev]. rewrite insert_insert_eq.
  eexists. split; [reflexivity|]. unfold nxt, prv in *. split_and!.
  - intros x. case_decide; [subst x; by rewrite lookup_insert_eq|]. rewrite lookup_insert_ne, N2 by done.
    rewrite N1. repeat case_decide; congruence.
  - intros x. case_decide; [subst x; by rewrite lookup_insert_eq|]. rewrite lookup_insert_ne, P2 by done.
    rewrite P1. repeat case_decide; congruence.
  - intros x ???. by rewrite lookup_insert_ne, F2, F1.
  - rewrite dom_insert_L. set_solver.
  - by rewrite lookup_insert_eq.
Qed.

(** ** The operations on rings *)

Fixpoint back (p : loc) (xs : list loc) : loc := match xs with [] => p | x :: xs => back x xs end.

Lemma back_in p xs : back p xs ∈ p :: xs.
Proof. revert p. induction xs as [|x xs IH]; intros p; simpl; [set_solver|]. specialize (IH x). set_solver. Qed.

(** Redirecting the last cell of a chain. *)
Lemma linked_retarget c c' p xs q le :
  linked c p xs q → NoDup (p :: xs) →
  nxt c' (back p xs) = Some le → prv c' le = Some (back p xs) →
  (∀ x, x ∈ p :: xs → x ≠ back p xs → nxt c' x = nxt c x) → (∀ x, x ∈ xs → prv c' x = prv c x) →
  linked c' p xs le.
Proof.
  revert p. induction xs as [|x xs IH]; intros p Hl Hnd Hn Hp Fn Fp; simpl in *; [done|].
  destruct Hl as [[E1 E2] Hl]. apply NoDup_cons in Hnd as [Hni Hnd]. split.
  - split; [|by rewrite Fp by set_solver]. rewrite Fn; [done|set_solver|].
    intros ->. apply Hni, back_in.
  - apply IH; try done; [intros y Hy; apply Fn; set_solver|intros y Hy; apply Fp; set_solver].
Qed.

Lemma linked_link c p xs ys q : linked c p (xs ++ ys) q → link c (back p xs) (hd q ys).
Proof.
  revert p. induction xs as [|x xs IH]; intros p; simpl; [|intros [_ H]; by apply IH].
  destruct ys; simpl; [done|tauto].
Qed.

(** Splitting a chain where a cell is added or detached. *)
Lemma linked_cut c p xs ys q :
  linked c p (xs ++ ys) q ↔
  linked c p xs (hd q ys) ∧ match ys with [] => True | y :: ys => linked c y ys q end.
Proof. destruct ys as [|y ys]; simpl; [rewrite app_nil_r; tauto|]. apply linked_app. Qed.

Lemma linked_dom c p xs q x : linked c p xs q → x ∈ p :: xs → x ∈ dom c.
Proof.
  revert p. induction xs as [|y xs IH]; intros p Hl Hx; simpl in Hl.
  - apply link_dom in Hl as [? _]. apply list_elem_of_singleton in Hx. by subst.
  - destruct Hl as [Hl Hr]. apply link_dom in Hl as [? _].
    apply elem_of_cons in Hx as [->|Hx]; [done|]. by eapply IH.
Qed.

Lemma hd_in (h : loc) ys : hd h ys ∈ h :: ys.
Proof. destruct ys; set_solver. Qed.

Lemma NoDup_insert (h : loc) xs le ys :
  NoDup (h :: xs ++ le :: ys) ↔ (le ∉ h :: xs ++ ys) ∧ NoDup (h :: xs ++ ys).
Proof.
  rewrite <- NoDup_cons. change (h :: xs ++ le :: ys) with ((h :: xs) ++ le :: ys).
  change (h :: xs ++ ys) with ((h :: xs) ++ ys). by rewrite Permutation_middle.
Qed.

(** What distinctness says about the neighbours of a position. *)
Lemma ring_facts (h : loc) xs ys :
  NoDup (h :: xs ++ ys) →
  NoDup (h :: xs) ∧ (∀ x, x ∈ xs → x ≠ hd h ys) ∧
  (∀ y ys', ys = y :: ys' → (∀ x, x ∈ ys → x ≠ back h xs) ∧ (∀ x, x ∈ ys' ++ [h] → x ≠ y)).
Proof.
  intros Hnd. pose proof (back_in h xs) as Hb. apply NoDup_cons in Hnd as [Hh1 Hnd].
  apply NoDup_app in Hnd as (Hx & Hxy & Hy). rewrite elem_of_app in Hh1. split_and!.
  - apply NoDup_cons. tauto.
  - intros x Hx' ->. destruct ys as [|y ys]; simpl in Hx'; [tauto|]. apply (Hxy y Hx'). by left.
  - intros y ys' ->. apply NoDup_cons in Hy as [Hy1 Hy]. split; intros x Hx' ->.
    + apply elem_of_cons in Hb as [Hb|Hb]; [rewrite Hb in Hx'; tauto|]. by apply (Hxy (back h xs)).
    + apply elem_of_app in Hx' as [|Hx'%list_elem_of_singleton]; [done|]. subst h. apply Hh1. right. by left.
Qed.

(** Adding [le] before any position of a ring. *)
Lemma list_add_tail_spec c h xs ys le :
  is_list c h (xs ++ ys) → le ∈ dom c → le ∉ h :: xs ++ ys →
  ∃ c', list_add_tail (Some le) (Some (hd h ys)) c = Some (LIST_SUCCESS, c') ∧
        is_list c' h (xs ++ le :: ys) ∧ dom c' = dom c ∧
        ∀ x, x ∉ h :: le :: xs ++ ys → c' !! x = c !! x.
Proof.
  intros [Hl Hnd] Hle Hni. pose proof (linked_link _ _ _ _ _ Hl) as Hlk.
  destruct (ring_facts h xs ys Hnd) as (Hnx & Hx & Hy).
  assert (Ib : back h xs ∈ h :: xs ++ ys) by (pose proof (back_in h xs); set_solver).
  assert (Ih : hd h ys ∈ h :: xs ++ ys) by (pose proof (hd_in h ys); set_solver).
  assert (Hle1 : ∀ x, x ∈ h :: xs → x ≠ le) by set_solver.
  assert (Hle2 : ∀ x, x ∈ ys ++ [h] → x ≠ le) by set_solver.
  destruct (listelm_add_spec c le (back h xs) (hd h ys)) as (c' & E & N & P & F & D);
    [done|done|intros ->; done|intros ->; done|].
  exists c'. unfold list_add_tail. rewrite (prv_get _ _ _ (proj2 Hlk)). cbn [mbind option_bind]. rewrite E.
  split_and!; [done| |done|].
  2:{ intros x Hx'. clear -Hx' F Ib Ih.
      apply F; intros ->; apply Hx'; [set_solver|set_solver|right; left]. }
  split; [|by apply NoDup_insert].
  apply linked_cut in Hl as [Hl1 Hl2]. apply linked_app. split.
  - eapply linked_retarget; [exact Hl1|done|by rewrite N, decide_True| | |].
    + rewrite P, decide_False, decide_True; [done|done|intros ->; done].
    + intros x Hx' Hne. rewrite N, !decide_False; auto.
    + intros x Hx'. rewrite P, !decide_False; [done|apply Hle1; by right|auto].
  - assert (Hlk' : link c' le (hd h ys)).
    { split; [rewrite N, decide_False, decide_True; [done|done|intros ->; done]|by rewrite P, decide_True]. }
    destruct ys as [|y ys]; [exact Hlk'|]. split; [exact Hlk'|]. destruct (Hy _ _ eq_refl) as [Hy1 Hy2].
    eapply linked_ext; [| |exact Hl2]; intros x Hx'.
    + rewrite N, !decide_False; [done|apply Hle2; by apply elem_of_app; left|auto].
    + rewrite P, !decide_False; [done|apply Hle2; by right|auto].
Qed.

(** Taking [le] out of a ring. *)
Lemma list_detach_ring c h xs le ys :
  is_list c h (xs ++ le :: ys) →
  ∃ c', list_detach (Some le) c = Some (LIST_SUCCESS, c') ∧
        is_list c' h (xs ++ ys) ∧ dom c' = dom c ∧ c' !! le = Some (Cell None None) ∧
        ∀ x, x ∉ h :: xs ++ le :: ys → c' !! x = c !! x.
Proof.
  intros [Hl Hnd]. pose proof (linked_link _ _ _ _ _ Hl) as Hlk1. simpl in Hlk1.
  pose proof (linked_link c h (xs ++ [le]) ys h) as Hlk2. rewrite <- app_assoc in Hlk2. specialize (Hlk2 Hl).
  assert (Eb : back h (xs ++ [le]) = le) by (clear; revert h; induction xs; simpl; auto). rewrite Eb in Hlk2.
  apply NoDup_insert in Hnd as [Hni Hnd]. destruct (ring_facts h xs ys Hnd) as (Hnx & Hx & Hy).
  assert (Ib : back h xs ∈ h :: xs ++ ys) by (pose proof (back_in h xs); set_solver).
  assert (Ih : hd h ys ∈ h :: xs ++ ys) by (pose proof (hd_in h ys); set_solver).
  assert (Hle1 : ∀ x, x ∈ h :: xs → x ≠ le) by set_solver.
  assert (Hle2 : ∀ x, x ∈ ys ++ [h] → x ≠ le) by set_solver.
  destruct (list_detach_spec c le (back h xs) (hd h ys)) as (c' & E & N & P & F & D & EL);
    [done|done|intros ->; done|intros ->; done|].
  exists c'. split_and!; [done| |done|done|].
  2:{ intros x Hx'. clear -Hx' F Ib Ih. apply F; intros ->; apply Hx'; set_solver. }
  split; [|done].
  apply linked_app in Hl as [Hl1 Hl2]. apply linked_cut. split.
  - eapply linked_retarget; [exact Hl1|done| | | |].
    + rewrite N, decide_False, decide_True; [done|done|intros E'; by rewrite E' in Ib].
    + rewrite P, decide_False, decide_True; [done|done|intros E'; by rewrite E' in Ih].
    + intros x Hx' Hne. rewrite N, !decide_False; auto.
    + intros x Hx'. rewrite P, !decide_False; [done|auto|apply Hle1; by right].
  - destruct ys as [|y ys]; [done|]. simpl in Hl2. destruct Hl2 as [_ Hl2].
    destruct (Hy _ _ eq_refl) as [Hy1 Hy2]. eapply linked_ext; [| |exact Hl2]; intros x Hx'.
    + rewrite N, !decide_False; [done|auto|apply Hle2; by apply elem_of_app; left].
    + rewrite P, !decide_False; [done|auto|apply Hle2; by right].
Qed.

(** Changes elsewhere do not disturb a ring. *)
Lemma is_list_frame c c' h xs :
  (∀ x, x ∈ h :: xs → c' !! x = c !! x) → is_list c h xs → is_list c' h xs.
Proof.
  intros F [Hl Hnd]. split; [|done]. eapply linked_ext; [| |exact Hl]; intros x Hx;
    unfold nxt, prv; rewrite F; try done. set_solver.
Qed.

Lemma list_first_spec c h xs : is_list c h xs → list_first c h = Some (Some (hd h xs)).
Proof. intros [Hl _]. apply nxt_get. by apply (linked_link c h [] xs h). Qed.

Lemma is_list_length c h xs : is_list c h xs → (length xs < size c)%nat.
Proof.
  intros [Hl Hnd]. rewrite <- size_dom.
  assert (Hs : list_to_set (h :: xs) ⊆ dom c).
  { intros x Hx%elem_of_list_to_set. by eapply linked_dom. }
  apply subseteq_size in Hs. rewrite size_list_to_set in Hs by done. simpl in Hs. lia.
Qed.

(** The value of a loop: that of the first element for which the body returns. *)
Fixpoint first_some {A} (g : loc → option A) (xs : list loc) : option A :=
  match xs with
  | [] => None
  | x :: xs => match g x with Some a => Some a | None => first_some g xs end
  end.

Lemma list_for_each_linked {A} fuel c h p xs (body : loc → option (option A)) g :
  linked c p xs h → h ∉ xs → (∀ x, x ∈ xs → body x = Some (g x)) → (length xs < fuel)%nat →
  ∃ q, get_next c p = Some q ∧ list_for_each fuel c h q body = Some (first_some g xs).
Proof.
  revert fuel p. induction xs as [|x xs IH]; intros fuel p Hl Hh Hg Hf; simpl in Hl.
  - exists (Some h). split; [apply nxt_get, Hl|]. destruct fuel; [simpl in Hf; lia|]. simpl.
    by rewrite bool_decide_eq_true_2.
  - destruct Hl as [Hl Hr]. exists (Some x). split; [apply nxt_get, Hl|].
    destruct fuel as [|fuel]; [simpl in Hf; lia|]. cbn [list_for_each first_some].
    rewrite bool_decide_eq_false_2 by set_solver. cbn [mbind option_bind].
    rewrite Hg by set_solver. cbn [mbind option_bind]. destruct (g x); [done|].
    destruct (IH fuel x Hr) as (q & -> & E); [set_solver|intros; apply Hg; set_solver|simpl in Hf; lia|done].
Qed.

(** A loop over a ring terminates within [loop_fuel] and follows the list. *)
Lemma list_for_each_spec {A} c h xs (body : loc → option (option A)) g :
  is_list c h xs → (∀ x, x ∈ xs → body x = Some (g x)) →
  (q ← get_next c h; list_for_each (loop_fuel c) c h q body) = Some (first_some g xs).
Proof.
  intros Hl Hg. pose proof (is_list_length _ _ _ Hl). destruct Hl as [Hl Hnd].
  apply NoDup_cons in Hnd as [Hh _].
  destruct (list_for_each_linked (loop_fuel c) c h h xs body g) as (q & -> & E); [done..|unfold loop_fuel; lia|].
  exact E.
Qed.

(** Detaching an element that hangs on no ring leaves NULL links; doing it again, or
    detaching any element with NULL links, follows NULL. *)
Lemma list_detach_self c le :
  c !! le = Some (Cell (Some le) (Some le)) →
  list_detach (Some le) c = Some (LIST_SUCCESS, <[le := Cell None None]> c).
Proof.
  intros E. unfold list_detach, listelm_detach, get_prev, get_next, set_prev, set_next. rewrite E.
  cbn [fmap option_fmap option_map mbind option_bind prev next]. rewrite E.
  repeat (cbn [mbind option_bind prev next]; rewrite lookup_insert_eq). cbn [mbind option_bind prev next].
  by rewrite !insert_insert_eq.
Qed.

Lemma list_detach_null c le : c !! le = Some (Cell None None) → list_detach (Some le) c = None.
Proof.
  intros E. unfold list_detach, listelm_detach, get_prev, get_next. rewrite E. done.
Qed.
