(* ===== verification/Attribute.v ===== *)
(** * Attribute: attributes and attribute lists, [libhaggle/attribute.c].

    The heap holds the list cells, the attributes and the attribute lists; the cell of
    an attribute (and the head cell of a list) has the address of the structure it is
    the first field of.  [malloc_ok n] says whether the [n]-th allocation succeeds.
    The strings of an attribute are private copies, so they are values.  [is_alist]
    relates a list in the heap to the sequence of its attributes; every operation is
    proved to implement a function on such sequences, which are kept sorted. *)

From S2P Require Import Prelude CList.

(** ** Heap *)

Record attribute := Attr { a_weight : Z; a_value : option string; a_name : option string }.

Record heap := Heap
  { h_cells : cells;
    h_attrs : gmap loc attribute;      (* struct attribute, at the address of its field l *)
    h_lists : gmap loc Z;              (* num_attributes, at the address of the list head *)
    h_mallocs : nat                    (* allocations attempted *) }.

Definition with_cells (h : heap) (c : cells) : heap := Heap c (h_attrs h) (h_lists h) (h_mallocs h).
Definition with_attr (h : heap) (a : loc) (d : attribute) : heap :=
  Heap (h_cells h) (<[a := d]> (h_attrs h)) (h_lists h) (h_mallocs h).
Definition with_num (h : heap) (al : loc) (n : Z) : heap :=
  Heap (h_cells h) (h_attrs h) (<[al := n]> (h_lists h)) (h_mallocs h).

Abbreviation HM := (M heap).

(** Operations of [list.h] on the cells of the heap. *)
Definition on_cells {A} (f : cells → option (A * cells)) : HM A :=
  fun h => '(r, c) ← f (h_cells h); Some (r, with_cells h c).
Definition from_cells {A} (f : cells → option A) : HM A := gets (fun h => f (h_cells h)).

Definition get_attr (a : loc) : HM attribute := gets (fun h => h_attrs h !! a).
Definition set_attr (a : loc) (d : attribute) : HM unit :=
  modify (fun h => _ ← h_attrs h !! a; Some (with_attr h a d)).
Definition get_num (al : loc) : HM Z := gets (fun h => h_lists h !! al).
Definition set_num (al : loc) (n : Z) : HM unit :=
  modify (fun h => _ ← h_lists h !! al; Some (with_num h al n)).

(** [list_for_each (pos, &al->attributes)] with a body that reads the heap. *)
Definition for_each {A} (al : loc) (body : loc → heap → option (option A)) : HM (option A) :=
  gets (fun h => q ← get_next (h_cells h) al;
                 list_for_each (loop_fuel (h_cells h)) (h_cells h) al q (fun pos => body pos h)).

(** The name and value of an attribute that is passed to [strcmp]. *)
Definition name_of (a : loc) (h : heap) : option string := d ← h_attrs h !! a; a_name d.
Definition value_of (a : loc) (h : heap) : option string := d ← h_attrs h !! a; a_value d.

Section Alloc.
Context (malloc_ok : nat → bool).

Definition malloc : HM bool :=
  fun h => Some (malloc_ok (h_mallocs h), Heap (h_cells h) (h_attrs h) (h_lists h) (S (h_mallocs h))).

Definition fresh_loc (h : heap) : loc := fresh (dom (h_cells h) ∪ dom (h_attrs h) ∪ dom (h_lists h)).

(** An attribute just after [memset (attr, 0, malloclen)] and [INIT_LIST (&attr->l)]. *)
Definition new_attr_struct : HM loc := fun h =>
  let a := fresh_loc h in
  Some (a, Heap (<[a := Cell (Some a) (Some a)]> (h_cells h)) (<[a := Attr 0 None None]> (h_attrs h))
                (h_lists h) (h_mallocs h)).

Definition free_attr_struct (a : loc) : HM unit := modify (fun h =>
  _ ← h_attrs h !! a; _ ← h_cells h !! a;
  Some (Heap (delete a (h_cells h)) (delete a (h_attrs h)) (h_lists h) (h_mallocs h))).

Definition new_list_struct : HM loc := fun h =>
  let al := fresh_loc h in
  Some (al, Heap (<[al := Cell (Some al) (Some al)]> (h_cells h)) (h_attrs h)
                 (<[al := 0]> (h_lists h)) (h_mallocs h)).

Definition free_list_struct (al : loc) : HM unit := modify (fun h =>
  _ ← h_lists h !! al; _ ← h_cells h !! al;
  Some (Heap (delete al (h_cells h)) (h_attrs h) (delete al (h_lists h)) (h_mallocs h))).

(** ** Attributes *)

Definition haggle_attribute_new_weighted (name value : option string) (weight : Z) : HM (option loc) :=
  match name, value with
  | Some name, Some value =>
    ok ← malloc;
    if negb ok then mret None else
    attr ← new_attr_struct;
    ok ← malloc;
    if negb ok then _ ← free_attr_struct attr; mret None else
    ok ← malloc;
    if negb ok then _ ← free_attr_struct attr; mret None else
    _ ← set_attr attr {| a_weight := u64 weight; a_value := Some value; a_name := Some name |};
    mret (Some attr)
  | _, _ => mret None
  end.

Definition haggle_attribute_new (name value : option string) : HM (option loc) :=
  haggle_attribute_new_weighted name value 1.

Definition haggle_attribute_copy (a : option loc) : HM (option loc) :=
  match a with
  | None => undefined
  | Some a => d ← get_attr a; haggle_attribute_new_weighted (a_name d) (a_value d) (a_weight d)
  end.

Definition haggle_attribute_free (attr : option loc) : HM unit :=
  match attr with None => undefined | Some a => free_attr_struct a end.

Definition haggle_attribute_get_name (attr : option loc) : HM (option string) :=
  match attr with None => mret None | Some a => d ← get_attr a; mret (a_name d) end.
Definition haggle_attribute_get_value (attr : option loc) : HM (option string) :=
  match attr with None => mret None | Some a => d ← get_attr a; mret (a_value d) end.

(** [name] is not NULL: [strlen (name)] is taken without a test. *)
Definition haggle_attribute_set_name (attr : option loc) (name : option string) : HM (option string) :=
  match attr with
  | None => mret None
  | Some a =>
    match name with
    | None => undefined
    | Some name =>
      ok ← malloc;
      if negb ok then mret None else
      d ← get_attr a;
      _ ← set_attr a {| a_weight := a_weight d; a_value := a_value d; a_name := Some name |};
      mret (Some name)
    end
  end.

Definition haggle_attribute_set_value (attr : option loc) (value : option string) : HM (option string) :=
  match attr with
  | None => mret None
  | Some a =>
    match value with
    | None => undefined
    | Some value =>
      ok ← malloc;
      if negb ok then mret None else
      d ← get_attr a;
      _ ← set_attr a {| a_weight := a_weight d; a_value := Some value; a_name := a_name d |};
      mret (Some value)
    end
  end.

Definition haggle_attribute_get_weight (attr : option loc) : HM Z :=
  match attr with None => mret 1 | Some a => d ← get_attr a; mret (a_weight d) end.
Definition haggle_attribute_set_weight (attr : option loc) (weight : Z) : HM Z :=
  match attr with
  | None => mret 0
  | Some a =>
    d ← get_attr a;
    _ ← set_attr a {| a_weight := u64 weight; a_value := a_value d; a_name := a_name d |};
    mret (u64 weight)
  end.

(** ** Attribute lists *)

Definition haggle_attributelist_new : HM (option loc) :=
  ok ← malloc;
  if negb ok then mret None else al ← new_list_struct; mret (Some al).

(** The comparison that keeps a list sorted: [found]. *)
Definition sorts_before (a a_old : loc) (h : heap) : option bool :=
  n ← name_of a h; n_old ← name_of a_old h;
  let cmp1 := strcmp n n_old in
  if cmp1 <? 0 then Some true
  else if cmp1 =? 0 then
    v ← value_of a h; v_old ← value_of a_old h;
    let cmp2 := strcmp v v_old in
    if cmp2 <? 0 then Some true
    else if cmp2 =? 0 then
      d ← h_attrs h !! a; d_old ← h_attrs h !! a_old; Some (a_weight d <? a_weight d_old)
    else Some false
  else Some false.

(** [return ++(al->num_attributes)]. *)
Definition incr_num (al : loc) : HM Z := n ← get_num al; _ ← set_num al (u64 (n + 1)); mret (u64 (n + 1)).
Definition decr_num (al : loc) : HM unit := n ← get_num al; set_num al (u64 (n - 1)).

Definition haggle_attributelist_add_attribute (al a : option loc) : HM Z :=
  match al, a with
  | Some al, Some a =>
    un ← from_cells (fun c => list_unattached c a);
    if negb un then mret 0 else
    found ← for_each al (fun a_old h =>
      found ← sorts_before a a_old h; Some (if found : bool then Some a_old else None));
    match found with
    | Some pos => _ ← on_cells (list_add_tail (Some a) (Some pos)); incr_num al
    | None => _ ← on_cells (list_add_tail (Some a) (Some al)); incr_num al
    end
  | _, _ => mret 0
  end.

Definition haggle_attributelist_new_from_attribute (a : option loc) : HM (option loc) :=
  al ← haggle_attributelist_new;
  n ← haggle_attributelist_add_attribute al a;
  if n =? 0 then mret None else mret al.

(** [list_for_each_safe]: the successor is read before the body runs. *)
Fixpoint for_each_safe (fuel : nat) (head : loc) (pos : option loc) (body : loc → HM unit) : HM unit :=
  match fuel with
  | O => undefined
  | S fuel =>
    match pos with
    | None => undefined
    | Some p =>
      tmp ← from_cells (fun c => get_next c p);
      if bool_decide (p = head) then mret tt else
      _ ← body p; for_each_safe fuel head tmp body
    end
  end.

Definition haggle_attributelist_free (al : option loc) : HM unit :=
  match al with
  | None => mret tt
  | Some al =>
    fuel ← gets (fun h => Some (loop_fuel (h_cells h)));
    first ← from_cells (fun c => get_next c al);
    _ ← for_each_safe fuel al first (fun p => haggle_attribute_free (Some p));
    free_list_struct al
  end.

(** The loop of [haggle_attributelist_copy]: [true] when every attribute was copied. *)
Fixpoint copy_loop (fuel : nat) (head : loc) (pos : option loc) (alc : loc) : HM bool :=
  match fuel with
  | O => undefined
  | S fuel =>
    if bool_decide (pos = Some head) then mret true else
    match pos with
    | None => undefined
    | Some p =>
      a ← haggle_attribute_copy (Some p);
      n ← haggle_attributelist_add_attribute (Some alc) a;
      if n =? 0 then mret false else
      nx ← from_cells (fun c => get_next c p);
      copy_loop fuel head nx alc
    end
  end.

(** On failure only the list structure is freed, its attributes are leaked. *)
Definition haggle_attributelist_copy (al : option loc) : HM (option loc) :=
  match al with
  | None => mret None
  | Some al =>
    alc ← haggle_attributelist_new;
    match alc with
    | None => mret None
    | Some alc =>
      fuel ← gets (fun h => Some (loop_fuel (h_cells h)));
      first ← from_cells (fun c => get_next c al);
      ok ← copy_loop fuel al first alc;
      if negb ok then _ ← free_list_struct alc; mret None else mret (Some alc)
    end
  end.
End Alloc.

(** ** Searching and removing *)

Definition haggle_attributelist_get_attribute_by_name (al : option loc) (name : option string)
  : HM (option loc) :=
  match al, name with
  | Some al, Some name =>
    for_each al (fun a h => n ← name_of a h; Some (if strcmp n name =? 0 then Some a else None))
  | _, _ => mret None
  end.

Definition haggle_attributelist_get_attribute_by_name_value (al : option loc) (name value : option string)
  : HM (option loc) :=
  match al, name, value with
  | Some al, Some name, Some value =>
    for_each al (fun a h =>
      n ← name_of a h;
      if strcmp n name =? 0
      then v ← value_of a h; Some (if strcmp v value =? 0 then Some a else None)
      else Some None)
  | _, _, _ => mret None
  end.

(** The loops that count: the counter is passed along. *)
Fixpoint nth_loop (fuel : nat) (head : loc) (pos : option loc) (test : loc → heap → option bool)
    (i n : Z) (bump : Z → Z) : HM (option loc) :=
  match fuel with
  | O => undefined
  | S fuel =>
    if bool_decide (pos = Some head) then mret None else
    match pos with
    | None => undefined
    | Some p =>
      b ← gets (test p);
      if (b : bool) && (i =? n) then mret (Some p) else
      nx ← from_cells (fun c => get_next c p);
      nth_loop fuel head nx test (if b : bool then bump i else i) n bump
    end
  end.

Definition haggle_attributelist_get_attribute_n (al : option loc) (n : Z) : HM (option loc) :=
  match al with
  | None => mret None
  | Some al =>
    fuel ← gets (fun h => Some (loop_fuel (h_cells h)));
    first ← from_cells (fun c => get_next c al);
    nth_loop fuel al first (fun _ _ => Some true) 0 n (fun i => u64 (i + 1))
  end.

Definition haggle_attributelist_get_attribute_by_name_n (al : option loc) (name : option string) (n : Z)
  : HM (option loc) :=
  match al, name with
  | Some al, Some name =>
    fuel ← gets (fun h => Some (loop_fuel (h_cells h)));
    first ← from_cells (fun c => get_next c al);
    nth_loop fuel al first (fun p h => m ← name_of p h; Some (strcmp m name =? 0)) 0 n (fun i => s32 (i + 1))
  | _, _ => mret None
  end.

Definition haggle_attributelist_remove_attribute (al : option loc) (name value : option string)
  : HM (option loc) :=
  match al with
  | None => mret None
  | Some l =>
    a ← haggle_attributelist_get_attribute_by_name_value al name value;
    match a with
    | None => mret None
    | Some _ => _ ← on_cells (list_detach a); _ ← decr_num l; mret a
    end
  end.

Definition haggle_attributelist_detach_attribute (al a : option loc) : HM Z :=
  match al, a with
  | Some l, Some p =>
    d ← get_attr p;
    b ← haggle_attributelist_get_attribute_by_name_value al (a_name d) (a_value d);
    match b with
    | None => mret HAGGLE_PARAM_ERROR
    | Some _ => _ ← on_cells (list_detach a); _ ← decr_num l; mret 1
    end
  | _, _ => mret HAGGLE_PARAM_ERROR
  end.

Definition haggle_attributelist_size (al : option loc) : HM Z :=
  match al with None => mret 0 | Some al => get_num al end.

Definition haggle_attributelist_pop (al : option loc) : HM (option loc) :=
  match al with
  | None => mret None
  | Some l =>
    f ← from_cells (fun c => list_first c l);
    match f with
    | None => mret None
    | Some a => _ ← decr_num l; _ ← on_cells (list_detach (Some a)); mret (Some a)
    end
  end.

(** ** Parsing *)

(** [strtok_r] with one delimiter: the token and what is left for the next call. *)
Fixpoint skip_delim (d : ascii) (s : string) : string :=
  match s with
  | EmptyString => EmptyString
  | String a s' => if bool_decide (a = d) then skip_delim d s' else s
  end.
Fixpoint until_delim (d : ascii) (s : string) : string * string :=
  match s with
  | EmptyString => (EmptyString, EmptyString)
  | String a s => if bool_decide (a = d) then (EmptyString, s)
                  else let '(t, r) := until_delim d s in (String a t, r)
  end.
Definition strtok (d : ascii) (s : string) : option (string * string) :=
  match skip_delim d s with
  | EmptyString => None
  | s => Some (until_delim d s)
  end.

Section Parse.
Context (malloc_ok : nat → bool).

(** The loop over the comma-separated tokens: [None] for a bad name-value pair, else
    the number of pairs. *)
Fixpoint parse_loop (fuel : nat) (al : loc) (token : option (string * string)) (n : Z) : HM (option Z) :=
  match fuel with
  | O => undefined
  | S fuel =>
    match token with
    | None => mret (Some n)
    | Some (token, save_ptr) =>
      match strtok "=" token with
      | None => mret None
      | Some (name, save_ptr2) =>
        match strtok "=" save_ptr2 with
        | None => mret None
        | Some (value, _) =>
          a ← haggle_attribute_new malloc_ok (Some name) (Some value);
          _ ← haggle_attributelist_add_attribute (Some al) a;
          parse_loop fuel al (strtok "," save_ptr) (s32 (n + 1))
        end
      end
    end
  end.

Definition haggle_attributelist_new_from_string (str : string) : HM (option loc) :=
  ok ← malloc malloc_ok;
  if negb ok then mret None else
  al ← haggle_attributelist_new malloc_ok;
  match al with
  | None => mret None
  | Some l =>
    n ← parse_loop (S (String.length str)) l (strtok "," str) 0;
    match n with
    | None => _ ← haggle_attributelist_free al; mret None
    | Some n => if n =? 0 then _ ← haggle_attributelist_free al; mret None else mret al
    end
  end.
End Parse.

(** ** The sequence of attributes *)

Record attr := MkAttr { an : string; av : string; aw : Z }.

#[export] Instance attr_eq_dec : EqDecision attr.
Proof. solve_decision. Defined.

Definition rep (d : attr) : attribute := Attr (aw d) (Some (av d)) (Some (an d)).

(** Order of names, then values, then weights. *)
Definition attr_lt (a b : attr) : bool :=
  let c1 := strcmp (an a) (an b) in
  if c1 <? 0 then true else if c1 =? 0 then
    let c2 := strcmp (av a) (av b) in
    if c2 <? 0 then true else if c2 =? 0 then aw a <? aw b else false
  else false.
Definition attr_le (a b : attr) : Prop := attr_lt b a = false.

Ltac cmp_cases :=
  repeat match goal with
  | H : context [?x <? ?y] |- _ => destruct (Z.ltb_spec x y)
  | |- context [?x <? ?y] => destruct (Z.ltb_spec x y)
  | H : context [?x =? ?y] |- _ => destruct (Z.eqb_spec x y)
  | |- context [?x =? ?y] => destruct (Z.eqb_spec x y)
  end.

#[export] Instance attr_le_dec : RelDecision attr_le.
Proof. unfold attr_le. intros a b. apply _. Defined.

Lemma attr_lt_spec a b :
  attr_lt a b = true ↔
  strcmp (an a) (an b) < 0 ∨ an a = an b ∧ (strcmp (av a) (av b) < 0 ∨ av a = av b ∧ aw a < aw b).
Proof.
  unfold attr_lt. rewrite <- (strcmp_eq (an a)), <- (strcmp_eq (av a)). cmp_cases; naive_solver lia.
Qed.

Lemma attr_lt_trans a b c : attr_lt a b = true → attr_lt b c = true → attr_lt a c = true.
Proof.
  rewrite !attr_lt_spec. destruct a as [n v w], b as [n' v' w'], c as [n'' v'' w'']. cbn.
  intros [H1|[-> H1]] [H2|[-> H2]]; [left; by eapply strcmp_trans|by left|by left|right; split; [done|]].
  destruct H1 as [H1|[-> H1]], H2 as [H2|[-> H2]]; [left; by eapply strcmp_trans|by left|by left|right].
  split; [done|lia].
Qed.

Lemma attr_lt_irrefl a : attr_lt a a = false.
Proof.
  apply not_true_iff_false. rewrite attr_lt_spec. rewrite !(proj2 (strcmp_eq _ _) eq_refl). lia.
Qed.

Lemma attr_lt_total a b : attr_lt a b = true ∨ a = b ∨ attr_lt b a = true.
Proof.
  rewrite !attr_lt_spec. pose proof (strcmp_antisym (an a) (an b)). pose proof (strcmp_antisym (av a) (av b)).
  destruct (strcmp_range (an a) (an b)) as [E|[E|E]]; [by left; left; lia| |by right; right; left; lia].
  apply strcmp_eq in E. rewrite E in *.
  destruct (strcmp_range (av a) (av b)) as [F|[F|F]];
    [left; right; split; [done|left; lia]| |right; right; right; split; [done|left; lia]].
  apply strcmp_eq in F. destruct (Z.lt_trichotomy (aw a) (aw b)) as [W|[W|W]].
  - left. right. split; [done|]. by right.
  - right. left. destruct a, b. cbn in *. by subst.
  - right. right. right. split; [done|]. right. split; [done|lia].
Qed.

#[export] Instance attr_le_total : Total attr_le.
Proof.
  intros a b. unfold attr_le. destruct (attr_lt b a) eqn:E; [right|by left].
  apply not_true_iff_false. intros E'. pose proof (attr_lt_trans _ _ _ E E') as T. by rewrite attr_lt_irrefl in T.
Qed.
#[export] Instance attr_le_trans : Transitive attr_le.
Proof.
  intros a b c H1 H2. unfold attr_le in *. apply not_true_iff_false. intros H.
  destruct (attr_lt_total c b) as [E|[->|E]]; [congruence|congruence|].
  pose proof (attr_lt_trans _ _ _ E H). congruence.
Qed.
#[export] Instance attr_le_antisymm : AntiSymm (=) attr_le.
Proof. intros a b H1 H2. unfold attr_le in *. destruct (attr_lt_total a b) as [E|[->|E]]; congruence. Qed.

(** The attributes of a list with their addresses. *)
Abbreviation entries := (list (loc * attr)).

Fixpoint insert_sorted (x : loc * attr) (ys : entries) : entries :=
  match ys with
  | [] => [x]
  | y :: ys => if attr_lt x.2 y.2 then x :: y :: ys else y :: insert_sorted x ys
  end.

Definition sorted (ys : entries) : Prop := StronglySorted attr_le (ys.*2).

Lemma insert_sorted_perm x ys : insert_sorted x ys ≡ₚ x :: ys.
Proof. induction ys as [|y ys IH]; simpl; [done|]. case_match; [done|]. rewrite IH. constructor. Qed.

Lemma insert_sorted_sorted x ys : sorted ys → sorted (insert_sorted x ys).
Proof.
  unfold sorted. induction ys as [|y ys IH]; intros Hs; simpl; [repeat constructor|].
  inversion Hs as [|? ? Hs' Hy]; subst. destruct (attr_lt x.2 y.2) eqn:E; simpl.
  - assert (Hxy : attr_le x.2 y.2).
    { unfold attr_le. apply not_true_iff_false. intros E'.
      pose proof (attr_lt_trans _ _ _ E E') as T. by rewrite attr_lt_irrefl in T. }
    constructor; [done|]. constructor; [done|]. eapply Forall_impl; [exact Hy|]. intros z Hz. by etrans.
  - constructor; [by apply IH|]. rewrite insert_sorted_perm. simpl. by constructor.
Qed.

(** Sorted sequences with the same attributes are equal: the canonical form. *)
Lemma sorted_canonical xs ys : sorted xs → sorted ys → xs.*2 ≡ₚ ys.*2 → xs.*2 = ys.*2.
Proof. intros. by eapply (StronglySorted_unique attr_le). Qed.

(** ** Lists in the heap *)

Record is_alist (h : heap) (al : loc) (ys : entries) : Prop :=
  { al_ring : is_list (h_cells h) al (ys.*1);
    al_attrs : Forall (fun y => h_attrs h !! y.1 = Some (rep y.2)) ys;
    al_num : h_lists h !! al = Some (u64 (Z.of_nat (length ys))) }.

(** An attribute that hangs on no list. *)
Definition unattached (h : heap) (a : loc) (d : attr) : Prop :=
  h_cells h !! a = Some (Cell (Some a) (Some a)) ∧ h_attrs h !! a = Some (rep d).

Lemma rep_inj a b : rep a = rep b → a = b.
Proof. destruct a, b. by intros [= -> -> ->]. Qed.

Lemma is_alist_frame h h' al ys :
  (∀ x, x ∈ al :: ys.*1 → h_cells h' !! x = h_cells h !! x) →
  (∀ x, x ∈ ys.*1 → h_attrs h' !! x = h_attrs h !! x) →
  h_lists h' !! al = h_lists h !! al → is_alist h al ys → is_alist h' al ys.
Proof.
  intros Fc Fa Fl [Hr Ha Hn]. split; [by eapply is_list_frame| |by rewrite Fl].
  apply Forall_forall. intros y Hy. rewrite Fa by (by apply list_elem_of_fmap_2).
  by apply (proj1 (Forall_forall _ _) Ha).
Qed.

Lemma is_alist_lookup h al ys y : is_alist h al ys → y ∈ ys → h_attrs h !! y.1 = Some (rep y.2).
Proof. intros H. apply (proj1 (Forall_forall _ _) (al_attrs _ _ _ H)). Qed.

(** A read-only loop over a list in the heap. *)
Lemma for_each_run {A} h al ys (body : loc → heap → option (option A)) (g : loc → option A) :
  is_alist h al ys → (∀ y, y ∈ ys → body y.1 h = Some (g y.1)) →
  for_each al body h = Some (first_some g (ys.*1), h).
Proof.
  intros Hl Hg. unfold for_each, gets.
  rewrite (list_for_each_spec (h_cells h) al (ys.*1) (fun pos => body pos h) g); [done|apply Hl|].
  intros x Hx. apply list_elem_of_fmap in Hx as (y & -> & Hy). auto.
Qed.

(** The first entry that satisfies a test. *)
Definition find_entry (t : attr → bool) (ys : entries) : option (loc * attr) :=
  snd <$> list_find (fun y => t y.2 = true) ys.

Lemma first_some_find (t : attr → bool) ys (g : loc → option loc) :
  NoDup (ys.*1) → (∀ y, y ∈ ys → g y.1 = if t y.2 then Some y.1 else None) →
  first_some g (ys.*1) = fst <$> find_entry t ys.
Proof.
  unfold find_entry. induction ys as [|y ys IH]; intros Hnd Hg; [done|].
  rewrite fmap_cons in *. apply NoDup_cons in Hnd as [_ Hnd]. cbn [first_some list_find].
  rewrite (Hg y) by (by left). destruct (t y.2) eqn:E; [by rewrite decide_True|].
  rewrite decide_False by congruence. rewrite IH; [|done|intros; apply Hg; by right].
  by destruct (list_find _ ys) as [[]|].
Qed.

Lemma find_entry_split t ys :
  match find_entry t ys with
  | Some y => ∃ ys1 ys2, ys = ys1 ++ y :: ys2 ∧ Forall (fun z => t z.2 = false) ys1 ∧ t y.2 = true
  | None => Forall (fun z => t z.2 = false) ys
  end.
Proof.
  unfold find_entry. induction ys as [|z ys IH]; simpl; [done|].
  destruct (decide (t z.2 = true)) as [E|E]; simpl.
  - by exists [], ys.
  - apply not_true_iff_false in E. destruct (list_find _ ys) as [[i y]|]; simpl in *; [|by constructor].
    destruct IH as (ys1 & ys2 & -> & Hf & Hy). exists (z :: ys1), ys2. split_and!; [done|by constructor|done].
Qed.

Lemma insert_sorted_split x ys1 ys2 :
  Forall (fun z => attr_lt x.2 z.2 = false) ys1 →
  (∀ y ys2', ys2 = y :: ys2' → attr_lt x.2 y.2 = true) →
  insert_sorted x (ys1 ++ ys2) = ys1 ++ x :: ys2.
Proof.
  intros Hf Hy. induction Hf as [|z ys1 Hz _ IH]; simpl.
  - destruct ys2 as [|y ys2]; [done|]. simpl. by rewrite (Hy y ys2 eq_refl).
  - by rewrite Hz, IH.
Qed.

Lemma ring_nodup h al ys : is_alist h al ys → NoDup (ys.*1).
Proof. intros [[_ Hnd] _ _]. by apply NoDup_cons in Hnd as [_ ?]. Qed.

Lemma sorts_before_run h a d b e :
  h_attrs h !! a = Some (rep d) → h_attrs h !! b = Some (rep e) →
  sorts_before a b h = Some (attr_lt d e).
Proof.
  intros Ea Eb. unfold sorts_before, name_of, value_of. rewrite Ea, Eb. cbn [mbind option_bind rep a_name a_value a_weight].
  unfold attr_lt. repeat case_match; done.
Qed.

Lemma unattached_run h a d :
  unattached h a d → from_cells (fun c => list_unattached c a) h = Some (true, h).
Proof.
  intros [Hc _]. unfold from_cells, gets, list_unattached, get_next, get_prev. rewrite Hc.
  cbn [fmap option_fmap option_map mbind option_bind next prev]. by rewrite !bool_decide_eq_true_2.
Qed.

(** A loop that returns the first element that satisfies a test. *)
Lemma for_each_find h al ys (body : loc → heap → option (option loc)) (t : attr → bool) :
  is_alist h al ys → (∀ y, y ∈ ys → body y.1 h = Some (if t y.2 then Some y.1 else None)) →
  for_each al body h = Some (fst <$> find_entry t ys, h).
Proof.
  intros Hl Hb. rewrite (for_each_run h al ys body (fun p => default None (body p h)) Hl).
  - rewrite (first_some_find t); [done|by eapply ring_nodup|]. intros y Hy. by rewrite Hb.
  - intros y Hy. by rewrite Hb.
Qed.

Lemma sorts_before_body h al ys a d :
  is_alist h al ys → unattached h a d → ∀ y, y ∈ ys →
  (found ← sorts_before a y.1 h; Some (if found : bool then Some y.1 else None)) =
  Some (if attr_lt d y.2 then Some y.1 else None).
Proof.
  intros Hl [_ Ha] y Hy. by rewrite (sorts_before_run h a d y.1 y.2 Ha (is_alist_lookup _ _ _ _ Hl Hy)).
Qed.

(** What an operation on the ring of [al] leaves alone: the other cells, the
    attributes and the other lists. *)
Definition same_elsewhere (h h' : heap) (al : loc) (xs : list loc) : Prop :=
  (∀ x, x ∉ al :: xs → h_cells h' !! x = h_cells h !! x) ∧ h_attrs h' = h_attrs h ∧
  (∀ x, x ≠ al → h_lists h' !! x = h_lists h !! x) ∧ h_mallocs h' = h_mallocs h ∧
  dom (h_cells h') = dom (h_cells h).

Lemma u64_add_l a b : u64 (u64 a + b) = u64 (a + b).
Proof. unfold u64. by rewrite Zplus_mod_idemp_l. Qed.

Lemma u64_sub_l a b : u64 (u64 a - b) = u64 (a - b).
Proof. unfold u64. by rewrite Zminus_mod_idemp_l. Qed.

Lemma add_tail_num_run h al ys1 ys2 a d :
  is_alist h al (ys1 ++ ys2) → unattached h a d → a ∉ al :: (ys1 ++ ys2).*1 →
  ∃ h', (_ ← on_cells (list_add_tail (Some a) (Some (hd al (ys2.*1)))); incr_num al) h =
          Some (u64 (Z.of_nat (S (length (ys1 ++ ys2)))), h') ∧
        is_alist h' al (ys1 ++ (a, d) :: ys2) ∧ same_elsewhere h h' al (a :: (ys1 ++ ys2).*1).
Proof.
  intros [Hr Ha Hn] [Uc Ua] Hni. rewrite fmap_app in *.
  destruct (list_add_tail_spec (h_cells h) al (ys1.*1) (ys2.*1) a) as (c' & E & Hr' & D & F);
    [done|by apply elem_of_dom|done|].
  assert (En : u64 (u64 (Z.of_nat (length (ys1 ++ ys2))) + 1) = u64 (Z.of_nat (S (length (ys1 ++ ys2)))))
    by (rewrite u64_add_l; f_equal; lia).
  eexists (Heap c' (h_attrs h) (<[al := u64 (Z.of_nat (S (length (ys1 ++ ys2))))]> (h_lists h)) (h_mallocs h)).
  split_and!.
  - unfold on_cells. rewrite (bind_run _ _ _ LIST_SUCCESS (with_cells h c')); [|by rewrite E].
    unfold incr_num, get_num, set_num, gets, modify, mbind, M_bind, mret, M_ret. cbn [with_cells h_lists].
    rewrite Hn. cbn [option_bind with_num with_cells h_lists]. rewrite Hn. cbn [option_bind]. by rewrite En.
  - split; cbn [h_cells h_attrs h_lists].
    + by rewrite fmap_app.
    + apply Forall_app. apply Forall_app in Ha as [Ha1 Ha2]. split; [done|]. by constructor.
    + rewrite lookup_insert_eq. do 3 f_equal. rewrite !length_app. simpl. lia.
  - unfold same_elsewhere. cbn [h_cells h_attrs h_lists h_mallocs]. split_and!; [|done| |done|done].
    + intros x Hx. apply F. set_solver.
    + intros x Hx. by rewrite lookup_insert_ne.
Qed.

Lemma add_attribute_run h al ys a d :
  is_alist h al ys → unattached h a d → a ∉ al :: ys.*1 →
  ∃ h', haggle_attributelist_add_attribute (Some al) (Some a) h =
          Some (u64 (Z.of_nat (S (length ys))), h') ∧
        is_alist h' al (insert_sorted (a, d) ys) ∧ same_elsewhere h h' al (a :: ys.*1).
Proof.
  intros Hl Hu Hni. unfold haggle_attributelist_add_attribute.
  rewrite (bind_run _ _ _ _ _ (unattached_run h a d Hu)). cbn [negb].
  rewrite (bind_run _ _ _ _ _ (for_each_find h al ys _ (attr_lt d) Hl (sorts_before_body h al ys a d Hl Hu))).
  pose proof (find_entry_split (attr_lt d) ys) as Hs. destruct (find_entry (attr_lt d) ys) as [y|]; cbn [fmap option_fmap option_map].
  - destruct Hs as (ys1 & ys2 & -> & Hf & Hy).
    rewrite (insert_sorted_split (a, d) ys1 (y :: ys2)) by (done || by intros ? ? [= <- _]).
    exact (add_tail_num_run h al ys1 (y :: ys2) a d Hl Hu Hni).
  - pose proof (insert_sorted_split (a, d) ys [] Hs) as E. rewrite app_nil_r in E. rewrite E by done.
    pose proof (add_tail_num_run h al ys [] a d) as T. rewrite !app_nil_r in T. by apply T.
Qed.

(** ** Searching *)

Definition has_name (name : string) (d : attr) : bool := strcmp (an d) name =? 0.
Definition has_name_value (name value : string) (d : attr) : bool :=
  if strcmp (an d) name =? 0 then strcmp (av d) value =? 0 else false.

Lemma has_name_iff name d : has_name name d = true ↔ an d = name.
Proof. unfold has_name. by rewrite Z.eqb_eq, strcmp_eq. Qed.
Lemma has_name_value_iff name value d : has_name_value name value d = true ↔ (an d = name) ∧ av d = value.
Proof.
  unfold has_name_value. rewrite <- (strcmp_eq (an d)), <- (strcmp_eq (av d)).
  cmp_cases; rewrite ?Z.eqb_eq; naive_solver.
Qed.

Ltac entry_fields Hl Hy :=
  let Ey := fresh "Ey" in
  pose proof (is_alist_lookup _ _ _ _ Hl Hy) as Ey; unfold name_of, value_of; rewrite Ey;
  cbn [mbind option_bind rep a_name a_value a_weight].

Lemma get_by_name_run h al ys name :
  is_alist h al ys →
  haggle_attributelist_get_attribute_by_name (Some al) (Some name) h =
  Some (fst <$> find_entry (has_name name) ys, h).
Proof. intros Hl. apply for_each_find; [done|]. intros y Hy. entry_fields Hl Hy. done. Qed.

Lemma get_by_name_value_run h al ys name value :
  is_alist h al ys →
  haggle_attributelist_get_attribute_by_name_value (Some al) (Some name) (Some value) h =
  Some (fst <$> find_entry (has_name_value name value) ys, h).
Proof.
  intros Hl. apply for_each_find; [done|]. intros y Hy. entry_fields Hl Hy.
  unfold has_name_value. by destruct (strcmp (an y.2) name =? 0).
Qed.

Lemma nth_loop_run h al p (ys : entries) fuel test (t : attr → bool) i n bump B :
  linked (h_cells h) p (ys.*1) al → al ∉ ys.*1 →
  (∀ y, y ∈ ys → test y.1 h = Some (t y.2)) → (∀ i, 0 <= i < B → bump i = i + 1) →
  0 <= i → i + Z.of_nat (length ys) <= B → (length ys < fuel)%nat →
  ∃ q, get_next (h_cells h) p = Some q ∧
       nth_loop fuel al q test i n bump h =
       Some (if i <=? n then fst <$> filter (fun y => t y.2 = true) ys !! Z.to_nat (n - i) else None, h).
Proof.
  revert fuel p i. induction ys as [|y ys IH]; intros fuel p i Hl Hal Ht Hbump Hi HB Hf.
  - exists (Some al). split; [apply nxt_get, Hl|]. destruct fuel; [simpl in Hf; lia|]. simpl.
    rewrite bool_decide_eq_true_2 by done. by case_match.
  - rewrite fmap_cons in *. destruct Hl as [Hl Hr]. exists (Some y.1). split; [apply nxt_get, Hl|].
    destruct fuel as [|fuel]; [simpl in Hf; lia|]. cbn [nth_loop length] in *.
    rewrite bool_decide_eq_false_2 by set_solver.
    unfold gets at 1. rewrite (bind_run _ _ _ (t y.2) h) by (by rewrite (Ht y) by (by left)).
    rewrite filter_cons.
    destruct (IH fuel y.1 (if t y.2 then bump i else i) Hr) as (q & Eq & E);
      [set_solver|intros; apply Ht; by right|done|rewrite Hbump by lia; case_match; lia|
       rewrite Hbump by lia; case_match; lia|lia|].
    assert (Hb : ∀ k, (nx ← from_cells (fun c => get_next c y.1); k nx) h = (k q : HM (option loc)) h).
    { intros k. unfold from_cells, gets. apply bind_run. by rewrite Eq. }
    rewrite Hbump in E by lia. rewrite Hbump by lia.
    destruct (t y.2) eqn:Ety; cbn [andb].
    + rewrite decide_True by done. destruct (Z.eqb_spec i n) as [->|Hne].
      * rewrite Z.leb_refl, Z.sub_diag. done.
      * rewrite Hb, E. destruct (Z.leb_spec i n); destruct (Z.leb_spec (i + 1) n); try lia; [|done].
        replace (Z.to_nat (n - i)) with (S (Z.to_nat (n - (i + 1)))) by lia. done.
    + rewrite decide_False by congruence. by rewrite Hb, E.
Qed.

Lemma loop_start h al ys :
  is_alist h al ys → linked (h_cells h) al (ys.*1) al ∧ al ∉ ys.*1 ∧ (length ys < loop_fuel (h_cells h))%nat.
Proof.
  intros [Hr _ _]. pose proof (is_list_length _ _ _ Hr) as Hlen. rewrite length_fmap in Hlen.
  destruct Hr as [Hl Hnd]. apply NoDup_cons in Hnd as [? _]. unfold loop_fuel. split_and!; [done|done|lia].
Qed.

Lemma nth_run h al ys test (t : attr → bool) n bump B :
  is_alist h al ys → (∀ y, y ∈ ys → test y.1 h = Some (t y.2)) → (∀ i, 0 <= i < B → bump i = i + 1) →
  Z.of_nat (length ys) <= B →
  (fuel ← gets (fun h => Some (loop_fuel (h_cells h)));
   first ← from_cells (fun c => get_next c al);
   nth_loop fuel al first test 0 n bump) h =
  Some (if 0 <=? n then fst <$> filter (fun y => t y.2 = true) ys !! Z.to_nat n else None, h).
Proof.
  intros Hl Ht Hb HB. destruct (loop_start h al ys Hl) as (Hlk & Hal & Hf).
  destruct (nth_loop_run h al al ys _ test t 0 n bump B Hlk Hal Ht Hb ltac:(lia) ltac:(lia) Hf) as (q & Eq & E).
  rewrite (bind_run _ _ _ (loop_fuel (h_cells h)) h) by done.
  rewrite (bind_run _ _ _ q h) by (unfold from_cells, gets; by rewrite Eq). by rewrite E, Z.sub_0_r.
Qed.

Lemma get_n_run h al ys n :
  is_alist h al ys → Z.of_nat (length ys) < 2 ^ 64 → 0 <= n →
  haggle_attributelist_get_attribute_n (Some al) n h = Some (fst <$> ys !! Z.to_nat n, h).
Proof.
  intros Hl Hlen Hn. unfold haggle_attributelist_get_attribute_n.
  rewrite (nth_run h al ys _ (fun _ => true) n _ (2 ^ 64 - 1) Hl).
  - destruct (Z.leb_spec 0 n); [|lia]. do 4 f_equal. clear.
    induction ys as [|y ys IH]; [done|]. rewrite filter_cons, decide_True, IH; done.
  - done.
  - intros i Hi. unfold u64. apply Z.mod_small. lia.
  - lia.
Qed.

Lemma get_by_name_n_run h al ys name n :
  is_alist h al ys → Z.of_nat (length ys) < 2 ^ 31 →
  haggle_attributelist_get_attribute_by_name_n (Some al) (Some name) n h =
  Some (if 0 <=? n then fst <$> filter (fun y => has_name name y.2 = true) ys !! Z.to_nat n else None, h).
Proof.
  intros Hl Hlen. apply nth_run with (2 ^ 31 - 1); [done| | |lia].
  - intros y Hy. entry_fields Hl Hy. done.
  - intros i Hi. unfold s32. rewrite u32_small by (unfold is_u32; lia).
    destruct (Z.ltb_spec (i + 1) (2 ^ 31)); lia.
Qed.

(** ** Removing *)

Lemma detach_num_run h al ys1 y ys2 :
  is_alist h al (ys1 ++ y :: ys2) →
  ∃ h', (∀ A (r : A), (_ ← on_cells (list_detach (Some y.1)); _ ← decr_num al; mret r) h = Some (r, h')) ∧
        (∀ A (r : A), (_ ← decr_num al; _ ← on_cells (list_detach (Some y.1)); mret r) h = Some (r, h')) ∧
        is_alist h' al (ys1 ++ ys2) ∧ same_elsewhere h h' al ((ys1 ++ y :: ys2).*1) ∧
        h_cells h' !! y.1 = Some (Cell None None).
Proof.
  intros [Hr Ha Hn]. rewrite fmap_app in *. simpl in Hr.
  destruct (list_detach_ring (h_cells h) al (ys1.*1) y.1 (ys2.*1) Hr) as (c' & E & Hr' & D & En & F).
  eexists (Heap c' (h_attrs h) (<[al := u64 (u64 (Z.of_nat (length (ys1 ++ y :: ys2))) - 1)]> (h_lists h)) (h_mallocs h)).
  split_and!.
  - intros A r. rewrite (bind_run _ _ _ LIST_SUCCESS (with_cells h c')) by (unfold on_cells; by rewrite E).
    unfold decr_num, get_num, set_num, gets, modify, mbind, M_bind. cbn [with_cells h_lists].
    rewrite Hn. cbn [option_bind with_num with_cells h_lists]. by rewrite Hn.
  - intros A r. unfold decr_num, get_num, set_num, gets, modify, on_cells, mbind, M_bind.
    rewrite Hn. cbn [option_bind with_num with_cells h_lists]. rewrite Hn.
    cbn [option_bind with_num with_cells h_lists h_cells h_attrs h_mallocs]. by rewrite E.
  - split; cbn [h_cells h_attrs h_lists].
    + by rewrite fmap_app.
    + apply Forall_app in Ha as [Ha1 Ha2]. apply Forall_app. inversion Ha2. done.
    + rewrite lookup_insert_eq. f_equal. rewrite u64_sub_l. f_equal. rewrite !length_app. simpl. lia.
  - unfold same_elsewhere. cbn [h_cells h_attrs h_lists h_mallocs]. split_and!; try done.
    intros x Hx. by rewrite lookup_insert_ne.
  - done.
Qed.

Lemma remove_run h al ys name value :
  is_alist h al ys →
  match find_entry (has_name_value name value) ys with
  | None => haggle_attributelist_remove_attribute (Some al) (Some name) (Some value) h = Some (None, h)
  | Some y => ∃ ys1 ys2 h', ys = ys1 ++ y :: ys2 ∧
      Forall (fun z => has_name_value name value z.2 = false) ys1 ∧
      haggle_attributelist_remove_attribute (Some al) (Some name) (Some value) h = Some (Some y.1, h') ∧
      is_alist h' al (ys1 ++ ys2) ∧ same_elsewhere h h' al (ys.*1) ∧
      h_cells h' !! y.1 = Some (Cell None None)
  end.
Proof.
  intros Hl. pose proof (get_by_name_value_run h al ys name value Hl) as E.
  pose proof (find_entry_split (has_name_value name value) ys) as Hs.
  unfold haggle_attributelist_remove_attribute. rewrite (bind_run _ _ _ _ _ E).
  destruct (find_entry _ ys) as [y|]; [|done]. destruct Hs as (ys1 & ys2 & -> & Hf & _).
  destruct (detach_num_run h al ys1 y ys2 Hl) as (h' & R & _ & Hl' & Hs & Hc).
  exists ys1, ys2, h'. split_and!; try done. apply R.
Qed.

(** ** Adding *)

Definition insert_all (xs ys : entries) : entries := fold_left (fun ys x => insert_sorted x ys) xs ys.

Lemma insert_all_perm xs ys : insert_all xs ys ≡ₚ xs ++ ys.
Proof.
  revert ys. induction xs as [|x xs IH]; intros ys; simpl; [done|].
  rewrite IH, insert_sorted_perm. by rewrite Permutation_middle.
Qed.
Lemma insert_all_sorted xs ys : sorted ys → sorted (insert_all xs ys).
Proof. revert ys. induction xs; simpl; auto using insert_sorted_sorted. Qed.

(** Calls of [haggle_attributelist_add_attribute] one after the other. *)
Fixpoint add_all (al : loc) (ps : list loc) : HM Z :=
  match ps with
  | [] => haggle_attributelist_size (Some al)
  | p :: ps => _ ← haggle_attributelist_add_attribute (Some al) (Some p); add_all al ps
  end.

Lemma unattached_elsewhere h h' al xs a d :
  same_elsewhere h h' al xs → a ∉ al :: xs → unattached h a d → unattached h' a d.
Proof. intros (Fc & Fa & _) Ha [Uc Ua]. split; [by rewrite Fc|by rewrite Fa]. Qed.

Lemma size_run h al ys : is_alist h al ys → haggle_attributelist_size (Some al) h = Some (u64 (Z.of_nat (length ys)), h).
Proof. intros [_ _ Hn]. unfold haggle_attributelist_size, get_num, gets. by rewrite Hn. Qed.

Lemma add_all_run h al xs ys :
  is_alist h al ys → Forall (fun x => unattached h x.1 x.2) xs → NoDup (al :: xs.*1 ++ ys.*1) →
  ∃ h', add_all al (xs.*1) h = Some (u64 (Z.of_nat (length (xs ++ ys))), h') ∧
        is_alist h' al (insert_all xs ys).
Proof.
  revert h ys. induction xs as [|[a d] xs IH]; intros h ys Hl Hu Hnd.
  - exists h. split; [by apply size_run|done].
  - rewrite fmap_cons in *. cbn [fst add_all insert_all fold_left] in *.
    apply Forall_cons in Hu as [Ha Hu]. cbn [fst snd] in Ha.
    apply NoDup_cons in Hnd as [Hal Hnd]. apply NoDup_cons in Hnd as [Ha' Hnd].
    destruct (add_attribute_run h al ys a d Hl Ha) as (h1 & E & Hl1 & Hs); [set_solver|].
    assert (Hperm : (insert_sorted (a, d) ys).*1 ≡ₚ a :: ys.*1) by (by rewrite insert_sorted_perm).
    destruct (IH h1 (insert_sorted (a, d) ys) Hl1) as (h2 & E2 & Hl2).
    + apply Forall_forall. intros x Hx. eapply unattached_elsewhere; [exact Hs| |by apply (proj1 (Forall_forall _ _) Hu)].
      apply (list_elem_of_fmap_2 fst) in Hx. apply NoDup_app in Hnd as (_ & Hnd & _).
      specialize (Hnd _ Hx). intros [|[|]%elem_of_cons]%elem_of_cons; [|subst|]; set_solver.
    + rewrite Hperm. apply NoDup_cons. split; [set_solver|]. rewrite <- Permutation_middle. by apply NoDup_cons.
    + exists h2. split; [|done]. rewrite (bind_run _ _ _ _ _ E), E2. do 3 f_equal.
      rewrite !length_app, (Permutation_length (insert_sorted_perm _ _)). simpl. lia.
Qed.

(** C11: adding an unattached attribute to a list answers the new number of attributes
    and puts it, in the heap, before the first attribute that is greater (by name,
    value, weight): a sorted list stays sorted, no other attribute is lost or
    duplicated, and the rest of the heap is untouched. *)
Theorem haggle_attributelist_add_attribute_spec h al ys a d :
  is_alist h al ys → unattached h a d → a ∉ al :: ys.*1 →
  ∃ h' ys', haggle_attributelist_add_attribute (Some al) (Some a) h =
          Some (u64 (Z.of_nat (S (length ys))), h') ∧
        is_alist h' al ys' ∧ ys' ≡ₚ (a, d) :: ys ∧ (sorted ys → sorted ys') ∧
        same_elsewhere h h' al (a :: ys.*1).
Proof.
  intros Hl Hu Ha. destruct (add_attribute_run h al ys a d Hl Hu Ha) as (h' & E & Hl' & Hs).
  exists h', (insert_sorted (a, d) ys).
  split_and!; [done|done|apply insert_sorted_perm|apply insert_sorted_sorted|done].
Qed.

(** The canonical form: whatever the order in which the same attributes are added
    to two empty lists (in any two heaps), both lists hold the same sequence of names,
    values and weights, and that sequence is sorted. *)
Theorem haggle_attributelist_canonical h1 h2 al1 al2 (xs1 xs2 : entries) :
  is_alist h1 al1 [] → is_alist h2 al2 [] →
  Forall (fun x => unattached h1 x.1 x.2) xs1 → Forall (fun x => unattached h2 x.1 x.2) xs2 →
  NoDup (al1 :: xs1.*1) → NoDup (al2 :: xs2.*1) → xs1.*2 ≡ₚ xs2.*2 →
  ∃ n h1' h2' ys1 ys2,
    add_all al1 (xs1.*1) h1 = Some (n, h1') ∧ add_all al2 (xs2.*1) h2 = Some (n, h2') ∧
    is_alist h1' al1 ys1 ∧ is_alist h2' al2 ys2 ∧ ys1.*2 = ys2.*2 ∧ sorted ys1.
Proof.
  intros Hl1 Hl2 Hu1 Hu2 Hn1 Hn2 Hp.
  destruct (add_all_run h1 al1 xs1 [] Hl1 Hu1) as (h1' & E1 & R1); [by rewrite app_nil_r|].
  destruct (add_all_run h2 al2 xs2 [] Hl2 Hu2) as (h2' & E2 & R2); [by rewrite app_nil_r|].
  rewrite app_nil_r in E1, E2.
  assert (Hs : ∀ xs, sorted (insert_all xs [])) by (intros; apply insert_all_sorted; constructor).
  eexists _, h1', h2', _, _. split_and!; [exact E1| |exact R1|exact R2| |done].
  - rewrite E2. do 4 f_equal. apply Permutation_length in Hp. by rewrite !length_fmap in Hp.
  - apply sorted_canonical; [done|done|]. rewrite !insert_all_perm, !app_nil_r. done.
Qed.

(** The lookups answer what their documentation says: the first attribute, in list
    order, with the name, with the name and value, the [n]-th one, the [n]-th with the
    name, or NULL; they change nothing. *)
Theorem haggle_attributelist_get_spec h al ys name value n :
  is_alist h al ys → Z.of_nat (length ys) < 2 ^ 31 → 0 <= n →
  haggle_attributelist_get_attribute_by_name (Some al) (Some name) h =
    Some (fst <$> find_entry (has_name name) ys, h) ∧
  haggle_attributelist_get_attribute_by_name_value (Some al) (Some name) (Some value) h =
    Some (fst <$> find_entry (has_name_value name value) ys, h) ∧
  haggle_attributelist_get_attribute_n (Some al) n h = Some (fst <$> ys !! Z.to_nat n, h) ∧
  haggle_attributelist_get_attribute_by_name_n (Some al) (Some name) n h =
    Some (fst <$> filter (fun y => an y.2 = name) ys !! Z.to_nat n, h) ∧
  haggle_attributelist_size (Some al) h = Some (Z.of_nat (length ys), h).
Proof.
  intros Hl Hlen Hn. rewrite (get_by_name_run h al ys), (get_by_name_value_run h al ys), (get_n_run h al ys),
    (get_by_name_n_run h al ys), (size_run h al ys) by (done || lia).
  split_and!; try done.
  - destruct (Z.leb_spec 0 n); [|lia]. do 4 f_equal. apply list_filter_iff.
    intros y. apply has_name_iff.
  - unfold u64. rewrite Z.mod_small by lia. done.
Qed.

Lemma unattached_null h a :
  h_cells h !! a = Some (Cell None None) → ∀ al, haggle_attributelist_add_attribute (Some al) (Some a) h = Some (0, h).
Proof.
  intros Hc al. unfold haggle_attributelist_add_attribute.
  rewrite (bind_run _ _ _ false h); [done|].
  unfold from_cells, gets, list_unattached, get_next, get_prev. rewrite Hc. done.
Qed.

(** Removing by name and value takes the first match, and only it, out of the list
    and answers it, or answers NULL and changes nothing; the removed attribute is left
    with NULL links, not with the self-links of a new one, so no list accepts it again. *)
Theorem haggle_attributelist_remove_spec h al ys name value :
  is_alist h al ys →
  (Forall (fun y => ¬ (an y.2 = name ∧ av y.2 = value)) ys ∧
   haggle_attributelist_remove_attribute (Some al) (Some name) (Some value) h = Some (None, h)) ∨
  (∃ ys1 y ys2 h', ys = ys1 ++ y :: ys2 ∧ an y.2 = name ∧ av y.2 = value ∧
     Forall (fun z => ¬ (an z.2 = name ∧ av z.2 = value)) ys1 ∧
     haggle_attributelist_remove_attribute (Some al) (Some name) (Some value) h = Some (Some y.1, h') ∧
     is_alist h' al (ys1 ++ ys2) ∧ same_elsewhere h h' al (ys.*1) ∧
     ∀ al', haggle_attributelist_add_attribute (Some al') (Some y.1) h' = Some (0, h')).
Proof.
  intros Hl. pose proof (remove_run h al ys name value Hl) as R.
  pose proof (find_entry_split (has_name_value name value) ys) as Hs.
  assert (Hf : ∀ zs : entries, Forall (fun z => has_name_value name value z.2 = false) zs →
                     Forall (fun z => ¬ (an z.2 = name ∧ av z.2 = value)) zs).
  { intros zs Hzs. eapply Forall_impl; [exact Hzs|]. intros z Hz. cbn in Hz.
    rewrite <- has_name_value_iff. congruence. }
  destruct (find_entry _ ys) as [y|]; [right|left; auto].
  destruct R as (ys1 & ys2 & h' & -> & Hf1 & E & Hl' & Hse & Hc).
  assert (Hy : an y.2 = name ∧ av y.2 = value).
  { destruct Hs as (? & ? & _ & _ & Hy). by apply has_name_value_iff. }
  exists ys1, y, ys2, h'. split_and!; try done; [tauto|tauto|auto|]. by apply unattached_null.
Qed.

(** Popping a list answers its first attribute and takes it out; but an empty list
    answers its own head as if it were an attribute, wraps the count to 2^64-1 and
    destroys the ring of the head, because [list_first] of a ring is never NULL. *)
Theorem haggle_attributelist_pop_spec h al ys :
  is_alist h al ys →
  match ys with
  | y :: ys' => ∃ h', haggle_attributelist_pop (Some al) h = Some (Some y.1, h') ∧ is_alist h' al ys' ∧
                      same_elsewhere h h' al (ys.*1)
  | [] => ∃ h', haggle_attributelist_pop (Some al) h = Some (Some al, h') ∧
                h_lists h' !! al = Some (2 ^ 64 - 1) ∧ h_cells h' !! al = Some (Cell None None)
  end.
Proof.
  intros Hl. pose proof (list_first_spec _ _ _ (al_ring _ _ _ Hl)) as Ef.
  unfold haggle_attributelist_pop. destruct ys as [|y ys].
  - destruct Hl as [[Hlk _] _ Hn]. simpl in Hlk, Hn, Ef. pose proof (link_dom _ _ _ Hlk) as [D _].
    rewrite (bind_run _ _ _ (Some al) h) by (unfold from_cells, gets; by rewrite Ef).
    unfold decr_num, get_num, set_num, gets, modify, on_cells, mbind, M_bind, mret, M_ret.
    cbn [option_bind]. rewrite Hn. cbn [option_bind]. rewrite Hn. cbn [option_bind with_num h_cells].
    apply elem_of_dom in D as [e Ec]. unfold list_detach, listelm_detach.
    rewrite (nxt_get _ _ _ (proj1 Hlk)), (prv_get _ _ _ (proj2 Hlk)).
    unfold set_prev, set_next. cbn [mbind option_bind]. rewrite Ec. cbn [mbind option_bind].
    repeat (rewrite lookup_insert_eq; cbn [mbind option_bind prev next]).
    eexists. split; [reflexivity|]. cbn [with_cells with_num h_lists h_cells].
    split; rewrite lookup_insert_eq; reflexivity.
  - destruct (detach_num_run h al [] y ys Hl) as (h' & _ & R & Hl' & Hs & Hc). exists h'. split_and!; [|done|done].
    rewrite (bind_run _ _ _ (Some y.1) h) by (unfold from_cells, gets; by rewrite Ef). apply R.
Qed.

(** ** Allocating and freeing *)

(** [h'] is [h] with new lists at [ls] and new attributes at [ps]. *)
Definition grown (h h' : heap) (ls ps : list loc) : Prop :=
  (∀ x, x ∉ ls ++ ps → h_cells h' !! x = h_cells h !! x) ∧
  (∀ x, x ∉ ps → h_attrs h' !! x = h_attrs h !! x) ∧
  (∀ x, x ∉ ls → h_lists h' !! x = h_lists h !! x) ∧
  (∀ x, x ∈ ls ++ ps → h_cells h !! x = None ∧ h_attrs h !! x = None ∧ h_lists h !! x = None).

#[export] Instance grown_proper h h' ls : Proper (Permutation ==> iff) (grown h h' ls).
Proof. intros xs ys E. unfold grown. by setoid_rewrite E. Qed.

Lemma grown_alive h h' ls ps x : grown h h' ls ps → is_Some (h_cells h !! x) → x ∉ ls ++ ps.
Proof. intros (_ & _ & _ & Hn) [e E] Hx. destruct (Hn x Hx) as [E' _]. congruence. Qed.

Lemma is_alist_alive h al ys x : is_alist h al ys → x ∈ al :: ys.*1 → is_Some (h_cells h !! x).
Proof. intros [[Hlk _] _ _] Hx. apply elem_of_dom. by eapply linked_dom. Qed.

Lemma grown_alist h h' ls ps al ys : grown h h' ls ps → is_alist h al ys → is_alist h' al ys.
Proof.
  intros Hg Hl.
  assert (Hx : ∀ x, x ∈ al :: ys.*1 → x ∉ ls ++ ps).
  { intros x Hx. eapply grown_alive; [exact Hg|]. by eapply is_alist_alive. }
  destruct Hg as (Fc & Fa & Fl & _). eapply is_alist_frame; [..|exact Hl].
  - intros x Hin. by apply Fc, Hx.
  - intros x Hin. apply Fa. intros Hp. apply (Hx x); [by right|]. set_solver.
  - apply Fl. intros Hp. apply (Hx al); [by left|]. set_solver.
Qed.

Lemma fresh_loc_spec h :
  h_cells h !! fresh_loc h = None ∧ h_attrs h !! fresh_loc h = None ∧ h_lists h !! fresh_loc h = None.
Proof.
  unfold fresh_loc. pose proof (is_fresh (dom (h_cells h) ∪ dom (h_attrs h) ∪ dom (h_lists h))) as H.
  rewrite !not_elem_of_union, !not_elem_of_dom in H. tauto.
Qed.

Section Malloc.
Context (malloc_ok : nat → bool) (Hmalloc : ∀ n, malloc_ok n = true).

Definition bump (h : heap) : heap := Heap (h_cells h) (h_attrs h) (h_lists h) (S (h_mallocs h)).
Lemma malloc_run h : malloc malloc_ok h = Some (true, bump h).
Proof. unfold malloc. by rewrite Hmalloc. Qed.

Lemma new_attribute_run n v w h :
  ∃ a h', haggle_attribute_new_weighted malloc_ok (Some n) (Some v) w h = Some (Some a, h') ∧
          unattached h' a (MkAttr n v (u64 w)) ∧ grown h h' [] [a].
Proof.
  unfold haggle_attribute_new_weighted. rewrite (bind_run _ _ _ _ _ (malloc_run h)). cbn [negb].
  set (a := fresh_loc h). exists a. destruct (fresh_loc_spec h) as (Fc & Fa & Fl).
  set (h1 := Heap (<[a := Cell (Some a) (Some a)]> (h_cells h)) (<[a := Attr 0 None None]> (h_attrs h))
                (h_lists h) (S (h_mallocs h))).
  rewrite (bind_run _ _ _ a h1) by done.
  rewrite (bind_run _ _ _ _ _ (malloc_run h1)). cbn [negb].
  rewrite (bind_run _ _ _ _ _ (malloc_run (bump h1))). cbn [negb].
  eexists. split.
  - unfold set_attr, modify, mbind, M_bind, mret, M_ret. cbn [bump h1 h_attrs]. rewrite lookup_insert_eq.
    cbn [option_bind]. reflexivity.
  - split; [split; cbn; by rewrite lookup_insert_eq|].
    split_and!; cbn; intros x Hx; rewrite ?lookup_insert_ne by set_solver; try done.
    apply list_elem_of_singleton in Hx as ->. done.
Qed.

Lemma new_list_run h :
  ∃ al h', haggle_attributelist_new malloc_ok h = Some (Some al, h') ∧ is_alist h' al [] ∧ grown h h' [al] [].
Proof.
  unfold haggle_attributelist_new. rewrite (bind_run _ _ _ _ _ (malloc_run h)). cbn [negb].
  set (al := fresh_loc h). exists al. destruct (fresh_loc_spec h) as (Fc & Fa & Fl).
  eexists. split; [reflexivity|]. cbn. fold al. split.
  - split; cbn; [|constructor|by rewrite lookup_insert_eq]. split; [|apply NoDup_singleton].
    simpl. unfold link, nxt, prv. by rewrite lookup_insert_eq.
  - split_and!; cbn; intros x Hx; rewrite ?lookup_insert_ne by set_solver; try done.
    apply list_elem_of_singleton in Hx as ->. done.
Qed.
End Malloc.

(** Adding a freshly made attribute to a list that is itself new. *)
Lemma add_new_run h0 h h1 al ys a d :
  is_alist h al ys → grown h0 h [al] (ys.*1) → unattached h1 a d → grown h h1 [] [a] →
  ∃ h2, haggle_attributelist_add_attribute (Some al) (Some a) h1 =
          Some (u64 (Z.of_nat (S (length ys))), h2) ∧
        is_alist h2 al (insert_sorted (a, d) ys) ∧ grown h0 h2 [al] ((insert_sorted (a, d) ys).*1).
Proof.
  intros Hl Hg Hu Hg1. pose proof (grown_alist _ _ _ _ _ _ Hg1 Hl) as Hl1.
  assert (Ha : a ∉ al :: ys.*1).
  { intros Hin. eapply grown_alive; [exact Hg1|by eapply is_alist_alive|]. set_solver. }
  destruct (add_attribute_run h1 al ys a d Hl1 Hu Ha) as (h2 & E & Hl2 & (Fc & Fa & Fl & _)).
  exists h2. split_and!; [done|done|]. rewrite insert_sorted_perm. cbn [fmap list_fmap fst].
  destruct Hg as (Gc & Ga & Gl & Gn), Hg1 as (Kc & Ka & Kl & Kn).
  rewrite !not_elem_of_cons in Ha. split_and!.
  - intros x Hx. rewrite Fc, Kc, Gc by set_solver. done.
  - intros x Hx. rewrite Fa, Ka, Ga by set_solver. done.
  - intros x Hx. rewrite Fl, Kl, Gl by set_solver. done.
  - intros x Hx. destruct (decide (x = a)) as [->|Hxa]; [|apply Gn; set_solver].
    destruct (Kn a) as (E1 & E2 & E3); [set_solver|].
    rewrite <- Gc, <- Ga, <- Gl by set_solver. done.
Qed.

Definition free_all (xs : list loc) (h : heap) : heap :=
  fold_left (fun h x => Heap (delete x (h_cells h)) (delete x (h_attrs h)) (h_lists h) (h_mallocs h)) xs h.

Fixpoint chain (c : cells) (xs : list loc) (al : loc) : Prop :=
  match xs with
  | [] => is_Some (c !! al)
  | x :: xs => get_next c x = Some (Some (hd al xs)) ∧ chain c xs al
  end.

Lemma chain_delete c xs al x : chain c xs al → x ∉ al :: xs → chain (delete x c) xs al.
Proof.
  induction xs as [|y xs IH]; intros Hc Hx; simpl in *.
  - rewrite lookup_delete_ne by set_solver. done.
  - destruct Hc as [E Hc]. split; [|apply IH; [done|set_solver]].
    unfold get_next in *. rewrite lookup_delete_ne by set_solver. done.
Qed.

Lemma linked_chain c p xs al : linked c p xs al → get_next c p = Some (Some (hd al xs)) ∧ chain c xs al.
Proof.
  revert p. induction xs as [|x xs IH]; intros p Hl; simpl in *.
  - split; [apply nxt_get, Hl|]. apply elem_of_dom. by apply link_dom in Hl as [].
  - destruct Hl as [Hl Hr]. destruct (IH x Hr) as [E Hc]. split; [apply nxt_get, Hl|done].
Qed.

Lemma free_loop_run fuel al (xs : list loc) h :
  chain (h_cells h) xs al → NoDup (al :: xs) → (∀ x, x ∈ xs → is_Some (h_attrs h !! x)) →
  (length xs < fuel)%nat →
  for_each_safe fuel al (Some (hd al xs)) (fun p => haggle_attribute_free (Some p)) h = Some (tt, free_all xs h) ∧
  is_Some (h_cells (free_all xs h) !! al).
Proof.
  revert fuel h. induction xs as [|x xs IH]; intros fuel h Hc Hnd Ha Hf; (destruct fuel as [|fuel]; [simpl in Hf; lia|]);
    cbn [for_each_safe hd].
  - simpl in Hc. split; [|done]. destruct Hc as [e E].
    rewrite (bind_run _ _ _ (next e) h) by (unfold from_cells, gets, get_next; by rewrite E).
    by rewrite bool_decide_eq_true_2.
  - destruct Hc as [E Hc]. apply NoDup_cons in Hnd as [Hal Hnd].
    rewrite (bind_run _ _ _ (Some (hd al xs)) h) by (unfold from_cells, gets; by rewrite E).
    rewrite bool_decide_eq_false_2 by set_solver.
    destruct (Ha x) as [d Ed]; [by left|].
    assert (is_Some (h_cells h !! x)) as [e Ee] by (unfold get_next in E; by destruct (h_cells h !! x)).
    rewrite (bind_run _ _ _ tt (free_all [x] h)).
    2:{ unfold haggle_attribute_free, free_attr_struct, modify. by rewrite Ed, Ee. }
    apply NoDup_cons in Hnd as [Hx Hnd].
    apply (IH fuel (free_all [x] h)); cbn [free_all fold_left h_cells h_attrs].
    + apply chain_delete; [done|]. set_solver.
    + apply NoDup_cons. set_solver.
    + intros y Hy. rewrite lookup_delete_ne by (intros ->; done). apply Ha. by right.
    + simpl in Hf. lia.
Qed.

Lemma free_all_spec xs h :
  (∀ x, x ∈ xs → h_cells (free_all xs h) !! x = None ∧ h_attrs (free_all xs h) !! x = None) ∧
  (∀ x, x ∉ xs → h_cells (free_all xs h) !! x = h_cells h !! x ∧ h_attrs (free_all xs h) !! x = h_attrs h !! x) ∧
  h_lists (free_all xs h) = h_lists h.
Proof.
  unfold free_all. revert h. induction xs as [|x xs IH]; intros h; simpl.
  { split_and!; [|done|done]. intros x Hx. by apply not_elem_of_nil in Hx. }
  destruct (IH (Heap (delete x (h_cells h)) (delete x (h_attrs h)) (h_lists h) (h_mallocs h))) as (H1 & H2 & H3).
  split_and!; [| |done].
  - intros y Hy. destruct (decide (y ∈ xs)) as [Hin|Hni]; [by apply H1|].
    assert (y = x) as -> by set_solver. destruct (H2 x Hni) as [-> ->]. cbn. by rewrite !lookup_delete_eq.
  - intros y Hy. destruct (H2 y) as [-> ->]; [set_solver|]. cbn. by rewrite !lookup_delete_ne by set_solver.
Qed.

Lemma free_run h al ys :
  is_alist h al ys →
  ∃ h', haggle_attributelist_free (Some al) h = Some (tt, h') ∧
    (∀ x, x ∈ al :: ys.*1 → h_cells h' !! x = None) ∧ (∀ x, x ∈ ys.*1 → h_attrs h' !! x = None) ∧
    h_lists h' !! al = None ∧
    (∀ x, x ∉ al :: ys.*1 → h_cells h' !! x = h_cells h !! x) ∧
    (∀ x, x ∉ ys.*1 → h_attrs h' !! x = h_attrs h !! x) ∧ (∀ x, x ≠ al → h_lists h' !! x = h_lists h !! x).
Proof.
  intros Hl. destruct (loop_start h al ys Hl) as (Hlk & Hal & Hf).
  destruct (linked_chain _ _ _ _ Hlk) as [Eh Hc].
  destruct (free_loop_run (loop_fuel (h_cells h)) al (ys.*1) h) as [E [e Ee]]; [done|apply (al_ring _ _ _ Hl)| |by rewrite length_fmap|].
  { intros x (y & -> & Hy)%list_elem_of_fmap. rewrite (is_alist_lookup _ _ _ _ Hl Hy). done. }
  destruct (free_all_spec (ys.*1) h) as (H1 & H2 & H3).
  unfold haggle_attributelist_free. rewrite (bind_run _ _ _ (loop_fuel (h_cells h)) h) by done.
  rewrite (bind_run _ _ _ (Some (hd al (ys.*1))) h) by (unfold from_cells, gets; by rewrite Eh).
  rewrite (bind_run _ _ _ _ _ E). unfold free_list_struct, modify. rewrite H3, (al_num _ _ _ Hl), Ee.
  cbn [mbind option_bind]. eexists. split; [reflexivity|]. cbn [h_cells h_attrs h_lists].
  split_and!.
  - intros x Hx. destruct (decide (x = al)) as [->|]; [by rewrite lookup_delete_eq|].
    rewrite lookup_delete_ne by done. apply H1. set_solver.
  - intros x Hx. by apply H1.
  - by rewrite lookup_delete_eq.
  - intros x Hx. rewrite lookup_delete_ne by set_solver. apply H2. set_solver.
  - intros x Hx. by apply H2.
  - intros x Hx. by rewrite lookup_delete_ne.
Qed.

(** Freeing a new list gives back the heap it was made in. *)
Lemma free_grown h h' al ys :
  is_alist h' al ys → grown h h' [al] (ys.*1) →
  ∃ h'', haggle_attributelist_free (Some al) h' = Some (tt, h'') ∧
         h_cells h'' = h_cells h ∧ h_attrs h'' = h_attrs h ∧ h_lists h'' = h_lists h.
Proof.
  intros Hl (Gc & Ga & Gl & Gn). destruct (free_run h' al ys Hl) as (h'' & E & F1 & F2 & F3 & F4 & F5 & F6).
  exists h''. split; [done|]. split_and!; apply map_eq; intros x.
  - destruct (decide (x ∈ al :: ys.*1)) as [Hx|Hx].
    + rewrite F1 by done. symmetry. apply Gn. set_solver.
    + rewrite F4, Gc by set_solver. done.
  - destruct (decide (x ∈ ys.*1)) as [Hx|Hx]; [|by rewrite F5, Ga].
    rewrite F2 by done. symmetry. apply Gn. set_solver.
  - destruct (decide (x = al)) as [->|Hx]; [|by rewrite F6, Gl by set_solver].
    rewrite F3. symmetry. apply Gn. set_solver.
Qed.

(** ** Copying *)

Definition weights_ok (ys : entries) : Prop := Forall (fun y => 0 <= aw y.2 < 2 ^ 64) ys.

Section Copy.
Context (malloc_ok : nat → bool) (Hmalloc : ∀ n, malloc_ok n = true).

Lemma copy_attribute_run h a d :
  h_attrs h !! a = Some (rep d) → 0 <= aw d < 2 ^ 64 →
  ∃ b h', haggle_attribute_copy malloc_ok (Some a) h = Some (Some b, h') ∧ unattached h' b d ∧ grown h h' [] [b].
Proof.
  intros Ea Hw. unfold haggle_attribute_copy.
  rewrite (bind_run _ _ _ (rep d) h) by (unfold get_attr, gets; by rewrite Ea).
  destruct (new_attribute_run malloc_ok Hmalloc (an d) (av d) (aw d) h) as (b & h' & E & Hu & Hg).
  exists b, h'. split_and!; [exact E| |done]. replace (u64 (aw d)) with (aw d) in Hu; [by destruct d|].
  unfold u64. by rewrite Z.mod_small.
Qed.

Lemma copy_loop_run h0 al alc fuel ys1 ys2 h zs :
  is_alist h0 al (ys1 ++ ys2) → weights_ok ys2 → is_alist h alc zs → grown h0 h [alc] (zs.*1) → sorted zs →
  Z.of_nat (length zs + length ys2) < 2 ^ 64 → (length ys2 < fuel)%nat →
  ∃ h' zs', copy_loop malloc_ok fuel al (Some (hd al (ys2.*1))) alc h = Some (true, h') ∧
            is_alist h' alc zs' ∧ grown h0 h' [alc] (zs'.*1) ∧ sorted zs' ∧ zs'.*2 ≡ₚ zs.*2 ++ ys2.*2.
Proof.
  revert fuel ys1 h zs. induction ys2 as [|y ys2 IH]; intros fuel ys1 h zs Hl0 Hw Hz Hg Hs Hlen Hf;
    (destruct fuel as [|fuel]; [simpl in Hf; lia|]); cbn [copy_loop fmap list_fmap hd].
  - rewrite bool_decide_eq_true_2 by done. exists h, zs. by rewrite app_nil_r.
  - apply Forall_cons in Hw as [Hwy Hw].
    assert (Hne : y.1 ≠ al).
    { pose proof (proj2 (al_ring _ _ _ Hl0)) as Hnd. apply NoDup_cons in Hnd as [Hal _]. set_solver. }
    rewrite bool_decide_eq_false_2 by congruence.
    destruct (copy_attribute_run h y.1 y.2) as (b & h1 & E1 & Hu & Hg1); [|done|].
    { eapply (is_alist_lookup _ al (ys1 ++ y :: ys2)); [by eapply grown_alist|]. set_solver. }
    rewrite (bind_run _ _ _ _ _ E1).
    destruct (add_new_run h0 h h1 alc zs b y.2 Hz Hg Hu Hg1) as (h2 & E2 & Hz2 & Hg2).
    rewrite (bind_run _ _ _ _ _ E2).
    destruct (Z.eqb_spec (u64 (Z.of_nat (S (length zs)))) 0) as [E0|_].
    { unfold u64 in E0. rewrite Z.mod_small in E0; [lia|]. simpl in Hlen. lia. }
    pose proof (grown_alist _ _ _ _ _ _ Hg2 Hl0) as Hl2.
    assert (En : get_next (h_cells h2) y.1 = Some (Some (hd al (ys2.*1)))).
    { destruct (al_ring _ _ _ Hl2) as [Hlk _]. rewrite fmap_app in Hlk. apply linked_app in Hlk as [_ Hlk].
      apply (linked_chain _ _ _ _ Hlk). }
    rewrite (bind_run _ _ _ (Some (hd al (ys2.*1))) h2) by (unfold from_cells, gets; by rewrite En).
    destruct (IH fuel (ys1 ++ [y]) h2 (insert_sorted (b, y.2) zs)) as (h3 & zs3 & E3 & Hz3 & Hg3 & Hs3 & Hp3);
      [by rewrite <- app_assoc|done|done|done|by apply insert_sorted_sorted| |simpl in Hf; lia|].
    { rewrite (Permutation_length (insert_sorted_perm _ _)). simpl in *. lia. }
    exists h3, zs3. split_and!; [done..|]. rewrite Hp3, insert_sorted_perm. cbn [fmap list_fmap snd].
    simpl. by rewrite Permutation_middle.
Qed.

(** The copy of a list is a new list with the same names, values and weights in
    the same order; the original is unharmed, and freeing the copy gives back exactly
    the heap before the copy: nothing is shared and nothing is leaked. *)
Theorem haggle_attributelist_copy_free h al ys :
  is_alist h al ys → sorted ys → weights_ok ys → Z.of_nat (length ys) < 2 ^ 64 →
  ∃ alc h' zs h'',
    haggle_attributelist_copy malloc_ok (Some al) h = Some (Some alc, h') ∧
    is_alist h' al ys ∧ is_alist h' alc zs ∧ zs.*2 = ys.*2 ∧
    haggle_attributelist_free (Some alc) h' = Some (tt, h'') ∧
    h_cells h'' = h_cells h ∧ h_attrs h'' = h_attrs h ∧ h_lists h'' = h_lists h.
Proof.
  intros Hl Hs Hw Hlen. unfold haggle_attributelist_copy.
  destruct (new_list_run malloc_ok Hmalloc h) as (alc & h1 & E1 & Hc & Hg).
  rewrite (bind_run _ _ _ _ _ E1). pose proof (grown_alist _ _ _ _ _ _ Hg Hl) as Hl1.
  destruct (loop_start h1 al ys Hl1) as (Hlk & _ & Hf). destruct (linked_chain _ _ _ _ Hlk) as [Eh _].
  rewrite (bind_run _ _ _ (loop_fuel (h_cells h1)) h1) by done.
  rewrite (bind_run _ _ _ (Some (hd al (ys.*1))) h1) by (unfold from_cells, gets; by rewrite Eh).
  destruct (copy_loop_run h al alc (loop_fuel (h_cells h1)) [] ys h1 []) as (h2 & zs & E2 & Hz & Hg2 & Hs2 & Hp);
    [done|done|done|done|constructor|simpl; lia|done|].
  rewrite (bind_run _ _ _ _ _ E2). cbn [negb].
  destruct (free_grown h h2 alc zs Hz Hg2) as (h3 & E3 & Hh). exists alc, h2, zs, h3.
  split_and!; [done|by eapply grown_alist|done|by apply sorted_canonical|done|tauto..].
Qed.
End Copy.

(** ** Parsing *)

(** The pairs the loop sees, and whether it ends without a bad one. *)
Fixpoint pairs_of (fuel : nat) (token : option (string * string)) : list (string * string) * bool :=
  match fuel with
  | O => ([], false)
  | S fuel =>
    match token with
    | None => ([], true)
    | Some (token, save_ptr) =>
      match strtok "=" token with
      | None => ([], false)
      | Some (name, save_ptr2) =>
        match strtok "=" save_ptr2 with
        | None => ([], false)
        | Some (value, _) =>
          let '(ps, ok) := pairs_of fuel (strtok "," save_ptr) in ((name, value) :: ps, ok)
        end
      end
    end
  end.

Definition mk_pair (p : string * string) : attr := MkAttr p.1 p.2 1.

Lemma until_delim_length d s : (String.length (until_delim d s).2 <= String.length s)%nat.
Proof.
  induction s as [|a s IH]; simpl; [done|]. case_bool_decide; simpl; [lia|].
  destruct (until_delim d s); simpl in *. lia.
Qed.

Lemma strtok_shrinks d s t r : strtok d s = Some (t, r) → (String.length r < String.length s)%nat.
Proof.
  unfold strtok. intros H.
  assert (Hs : (String.length (skip_delim d s) <= String.length s)%nat).
  { clear. induction s as [|a s IH]; simpl; [done|]. case_bool_decide; simpl; lia. }
  assert (Hne : ∀ a s', skip_delim d s = String a s' → a ≠ d).
  { clear. induction s as [|a s IH]; intros b s'; simpl; [done|]. case_bool_decide; [apply IH|congruence]. }
  destruct (skip_delim d s) as [|a s'] eqn:E; [done|]. specialize (Hne a s' eq_refl). simpl in *.
  rewrite bool_decide_eq_false_2 in H by done. pose proof (until_delim_length d s').
  destruct (until_delim d s'). simpl in *. injection H as <- <-. lia.
Qed.

Definition enough_fuel (fuel : nat) (token : option (string * string)) : Prop :=
  match token with None => (0 < fuel)%nat | Some (_, s) => (S (String.length s) < fuel)%nat end.

Lemma enough_fuel_next fuel t s : enough_fuel (S fuel) (Some (t, s)) → enough_fuel fuel (strtok "," s).
Proof.
  simpl. intros H. destruct (strtok "," s) as [[t' s']|] eqn:E; simpl; [|lia].
  apply strtok_shrinks in E. lia.
Qed.

Lemma pairs_of_length fuel token :
  (length (pairs_of fuel token).1 <= match token with None => 0 | Some (_, s) => S (String.length s) end)%nat.
Proof.
  revert token. induction fuel as [|fuel IH]; intros token; simpl; [lia|].
  destruct token as [[t s]|]; [|done]. destruct (strtok "=" t) as [[name s2]|]; [|simpl; lia].
  destruct (strtok "=" s2) as [[value ?]|]; [|simpl; lia]. specialize (IH (strtok "," s)).
  destruct (pairs_of fuel (strtok "," s)) as [ps ok]. simpl in *.
  destruct (strtok "," s) as [[t' s']|] eqn:E; [|lia]. apply strtok_shrinks in E. lia.
Qed.

Section ParseSpec.
Context (malloc_ok : nat → bool) (Hmalloc : ∀ n, malloc_ok n = true).

Lemma parse_loop_run h0 al fuel token n h zs :
  enough_fuel fuel token → is_alist h al zs → grown h0 h [al] (zs.*1) → sorted zs →
  0 <= n → n + Z.of_nat (length (pairs_of fuel token).1) < 2 ^ 31 →
  ∃ h' zs', parse_loop malloc_ok fuel al token n h =
              Some (if (pairs_of fuel token).2 then Some (n + Z.of_nat (length (pairs_of fuel token).1)) else None, h') ∧
            is_alist h' al zs' ∧ grown h0 h' [al] (zs'.*1) ∧ sorted zs' ∧
            zs'.*2 ≡ₚ zs.*2 ++ map mk_pair (pairs_of fuel token).1.
Proof.
  revert token n h zs. induction fuel as [|fuel IH]; intros token n h zs Hf Hz Hg Hs Hn Hlen.
  { destruct token as [[]|]; simpl in Hf; lia. }
  cbn [parse_loop pairs_of] in *. destruct token as [[t s]|]; cbn [fst snd map length] in *.
  2:{ exists h, zs. rewrite Z.add_0_r, app_nil_r. done. }
  destruct (strtok "=" t) as [[name s2]|]; [|by exists h, zs; cbn; rewrite app_nil_r].
  destruct (strtok "=" s2) as [[value s3]|]; [|by exists h, zs; cbn; rewrite app_nil_r].
  destruct (new_attribute_run malloc_ok Hmalloc name value 1 h) as (a & h1 & E1 & Hu & Hg1).
  rewrite (bind_run _ _ _ _ _ E1). change (u64 1) with 1 in Hu.
  destruct (add_new_run h0 h h1 al zs a _ Hz Hg Hu Hg1) as (h2 & E2 & Hz2 & Hg2).
  rewrite (bind_run _ _ _ _ _ E2).
  destruct (pairs_of fuel (strtok "," s)) as [ps ok] eqn:Ep. cbn [fst snd length map] in *.
  assert (En : s32 (n + 1) = n + 1).
  { unfold s32. rewrite u32_small by (unfold is_u32; lia). destruct (Z.ltb_spec (n + 1) (2 ^ 31)); lia. }
  rewrite En.
  destruct (IH (strtok "," s) (n + 1) h2 (insert_sorted (a, MkAttr name value 1) zs)) as (h3 & zs3 & E3 & Hz3 & Hg3 & Hs3 & Hp3);
    [by eapply enough_fuel_next|done|done|by apply insert_sorted_sorted|lia|rewrite Ep; cbn; lia|].
  exists h3, zs3. rewrite Ep in E3, Hp3. cbn [fst snd] in E3, Hp3.
  split_and!; [|done..|].
  - rewrite E3. destruct ok; [|done]. do 3 f_equal. lia.
  - rewrite Hp3, insert_sorted_perm. cbn [fmap list_fmap snd]. by rewrite <- Permutation_middle.
Qed.

Definition string_pairs (str : string) : list (string * string) * bool :=
  pairs_of (S (String.length str)) (strtok "," str).

Lemma new_from_string_run str h :
  Z.of_nat (String.length str) < 2 ^ 31 →
  let '(ps, ok) := string_pairs str in
  if ok && negb (bool_decide (ps = [])) then
    ∃ al h' ys, haggle_attributelist_new_from_string malloc_ok str h = Some (Some al, h') ∧
                is_alist h' al ys ∧ sorted ys ∧ ys.*2 ≡ₚ map mk_pair ps ∧ grown h h' [al] (ys.*1)
  else
    ∃ h', haggle_attributelist_new_from_string malloc_ok str h = Some (None, h') ∧
          h_cells h' = h_cells h ∧ h_attrs h' = h_attrs h ∧ h_lists h' = h_lists h.
Proof.
  intros Hlen. destruct (string_pairs str) as [ps ok] eqn:Ep. unfold string_pairs in Ep.
  unfold haggle_attributelist_new_from_string. rewrite (bind_run _ _ _ _ _ (malloc_run malloc_ok Hmalloc h)). cbn [negb].
  destruct (new_list_run malloc_ok Hmalloc (bump h)) as (al & h1 & E1 & Hz & Hg). rewrite (bind_run _ _ _ _ _ E1).
  assert (Hf : enough_fuel (S (String.length str)) (strtok "," str)).
  { destruct (strtok "," str) as [[t s]|] eqn:Et; simpl; [|lia]. apply strtok_shrinks in Et. lia. }
  pose proof (pairs_of_length (S (String.length str)) (strtok "," str)) as Hpl. rewrite Ep in Hpl. cbn [fst] in Hpl.
  assert (Hps : (length ps <= String.length str)%nat).
  { destruct (strtok "," str) as [[t s]|] eqn:Et; [apply strtok_shrinks in Et; lia|lia]. }
  destruct (parse_loop_run (bump h) al _ _ 0 h1 [] Hf Hz Hg) as (h2 & zs & E2 & Hz2 & Hg2 & Hs2 & Hp2);
    [constructor|done|rewrite Ep; cbn; lia|].
  rewrite Ep in E2, Hp2. cbn [fst snd] in E2, Hp2. rewrite Z.add_0_l in E2.
  rewrite (bind_run _ _ _ _ _ E2).
  destruct (free_grown (bump h) h2 al zs Hz2 Hg2) as (h3 & E3 & Hh3).
  destruct ok; cbn [andb]; [|exists h3; rewrite (bind_run _ _ _ _ _ E3); done].
  destruct ps as [|p ps]; cbn [length].
  - rewrite bool_decide_eq_true_2 by done. cbn [negb]. exists h3.
    change (Z.of_nat 0 =? 0) with true. cbv iota. by rewrite (bind_run _ _ _ _ _ E3).
  - rewrite bool_decide_eq_false_2 by done. cbn [negb]. exists al, h2, zs.
    destruct (Z.eqb_spec (Z.of_nat (S (length ps))) 0); [lia|]. done.
Qed.

(** Parsing any string terminates without an invalid access; it answers NULL, with
    the heap as it was (nothing leaked), exactly when there is no pair or some
    comma-separated piece lacks a name or a value, and otherwise a new sorted list of
    the pairs, each with weight 1. *)
Theorem haggle_attributelist_new_from_string_spec str h :
  Z.of_nat (String.length str) < 2 ^ 31 →
  let '(ps, ok) := string_pairs str in
  if ok && negb (bool_decide (ps = [])) then
    ∃ al h' ys, haggle_attributelist_new_from_string malloc_ok str h = Some (Some al, h') ∧
                is_alist h' al ys ∧ sorted ys ∧ ys.*2 ≡ₚ map mk_pair ps ∧ grown h h' [al] (ys.*1)
  else
    ∃ h', haggle_attributelist_new_from_string malloc_ok str h = Some (None, h') ∧
          h_cells h' = h_cells h ∧ h_attrs h' = h_attrs h ∧ h_lists h' = h_lists h.
Proof. apply new_from_string_run. Qed.

(** The documented format: [name=value] pairs separated by commas. *)
Definition print_pair (p : string * string) : string := p.1 +:+ "=" +:+ p.2.
Fixpoint print_pairs (ps : list (string * string)) : string :=
  match ps with
  | [] => ""
  | [p] => print_pair p
  | p :: ps => print_pair p +:+ "," +:+ print_pairs ps
  end.

Fixpoint clean (d : ascii) (s : string) : Prop :=
  match s with EmptyString => True | String a s => a ≠ d ∧ clean d s end.
Definition word (s : string) : Prop := s ≠ "" ∧ clean "," s ∧ clean "=" s.

Lemma until_delim_clean d w r : clean d w → until_delim d (w +:+ String d r) = (w, r).
Proof.
  induction w as [|a w IH]; simpl; [by rewrite bool_decide_eq_true_2|]. intros [Ha Hw].
  change (String.append w (String d r)) with (w +:+ String d r).
  rewrite bool_decide_eq_false_2 by done. by rewrite IH.
Qed.
Lemma until_delim_end d w : clean d w → until_delim d w = (w, "").
Proof.
  induction w as [|a w IH]; simpl; [done|]. intros [Ha Hw]. rewrite bool_decide_eq_false_2 by done. by rewrite IH.
Qed.

Lemma strtok_clean d w r : w ≠ "" → clean d w → strtok d (w +:+ String d r) = Some (w, r).
Proof.
  intros Hne Hw. unfold strtok. destruct w as [|a w]; [done|].
  assert (E : skip_delim d (String a w +:+ String d r) = String a w +:+ String d r).
  { simpl. destruct Hw as [Ha _]. by rewrite bool_decide_eq_false_2. }
  rewrite E. rewrite <- (until_delim_clean d (String a w) r Hw). done.
Qed.
Lemma strtok_end d w : w ≠ "" → clean d w → strtok d w = Some (w, "").
Proof.
  intros Hne Hw. unfold strtok. destruct w as [|a w]; [done|].
  assert (E : skip_delim d (String a w) = String a w).
  { simpl. destruct Hw as [Ha _]. by rewrite bool_decide_eq_false_2. }
  rewrite E. by rewrite <- (until_delim_end d (String a w) Hw).
Qed.

Lemma clean_app d s t : clean d s → clean d t → clean d (s +:+ t).
Proof. induction s as [|a s IH]; simpl; [done|]. intros [Ha Hs] Ht. split; [done|by apply IH]. Qed.

Lemma pair_token name value :
  word name → word value →
  strtok "=" (print_pair (name, value)) = Some (name, value) ∧ strtok "=" value = Some (value, "") ∧
  clean "," (print_pair (name, value)) ∧ print_pair (name, value) ≠ "".
Proof.
  intros (Hn & Hnc & Hne) (Hv & Hvc & Hve). unfold print_pair. cbn [fst snd]. split_and!.
  - by apply strtok_clean.
  - by apply strtok_end.
  - apply clean_app; [done|]. by split.
  - by destruct name.
Qed.

Lemma pairs_of_print fuel ps :
  Forall (fun p => word p.1 ∧ word p.2) ps → (length ps < fuel)%nat →
  pairs_of fuel (strtok "," (print_pairs ps)) = (ps, true).
Proof.
  revert fuel. induction ps as [|[n v] ps IH]; intros fuel Hw Hf; (destruct fuel as [|fuel]; [simpl in Hf; lia|]); [done|].
  apply Forall_cons in Hw as [[Hn Hv] Hw]. cbn [fst snd] in Hn, Hv.
  destruct (pair_token n v Hn Hv) as (E1 & E2 & Hc & Hne).
  assert (E : strtok "," (print_pairs ((n, v) :: ps)) = Some (print_pair (n, v), print_pairs ps)).
  { destruct ps; [by apply strtok_end|]. by apply strtok_clean. }
  rewrite E. cbn [pairs_of]. rewrite E1, E2, IH by (done || simpl in Hf; lia). done.
Qed.

Lemma print_pairs_length ps : Forall (fun p => word p.1 ∧ word p.2) ps → (length ps <= String.length (print_pairs ps))%nat.
Proof.
  assert (Hl : ∀ s t, String.length (s +:+ t) = (String.length s + String.length t)%nat)
    by (intros s t; induction s as [|a s IHs]; simpl; [done|by rewrite <- IHs]).
  induction 1 as [|[n v] ps [_ _] _ IH]; [done|]. destruct ps as [|q ps].
  - cbn [print_pairs length]. unfold print_pair. rewrite !Hl. simpl. lia.
  - change (print_pairs _) with (print_pair (n, v) +:+ "," +:+ print_pairs (q :: ps)).
    rewrite !Hl. change (String.length ",") with 1%nat. revert IH. generalize (print_pairs (q :: ps)).
    cbn [length]. lia.
Qed.

(** The documented format round-trips: printing a non-empty list of pairs of
    words as ["n1=v1,n2=v2"] and parsing it gives the list of exactly these attributes,
    in canonical order and with weight 1. *)
Theorem haggle_attributelist_string_roundtrip ps h :
  ps ≠ [] → Forall (fun p => word p.1 ∧ word p.2) ps → Z.of_nat (String.length (print_pairs ps)) < 2 ^ 31 →
  ∃ al h' ys, haggle_attributelist_new_from_string malloc_ok (print_pairs ps) h = Some (Some al, h') ∧
              is_alist h' al ys ∧ sorted ys ∧ ys.*2 ≡ₚ map mk_pair ps.
Proof.
  intros Hne Hw Hlen. pose proof (new_from_string_run (print_pairs ps) h Hlen) as R.
  assert (E : string_pairs (print_pairs ps) = (ps, true)).
  { apply pairs_of_print; [done|]. pose proof (print_pairs_length ps Hw). lia. }
  rewrite E, bool_decide_eq_false_2 in R by done. destruct R as (al & h' & ys & ? & ? & ? & ? & _).
  by exists al, h', ys.
Qed.
End ParseSpec.

(** ** Detaching *)

(** Detaching a member of the list takes it out and answers 1; but the membership
    test only looks for an attribute with the same name and value, so an attribute [b]
    of another list [bl] with such a twin in [al] is taken out of [bl] while the count
    of [al] is decremented: afterwards neither count is the length of its list. *)
Theorem haggle_attributelist_detach_spec h al ys1 y ys2 bl zs1 b zs2 :
  is_alist h al (ys1 ++ y :: ys2) → is_alist h bl (zs1 ++ b :: zs2) →
  (∀ x, x ∈ al :: (ys1 ++ y :: ys2).*1 → x ∉ bl :: (zs1 ++ b :: zs2).*1) → an b.2 = an y.2 → av b.2 = av y.2 →
  (∃ h', haggle_attributelist_detach_attribute (Some al) (Some y.1) h = Some (1, h') ∧ is_alist h' al (ys1 ++ ys2)) ∧
  (∃ h', haggle_attributelist_detach_attribute (Some al) (Some b.1) h = Some (1, h') ∧
         is_list (h_cells h') al ((ys1 ++ y :: ys2).*1) ∧ h_lists h' !! al = Some (u64 (Z.of_nat (length (ys1 ++ ys2)))) ∧
         is_list (h_cells h') bl ((zs1 ++ zs2).*1) ∧ h_lists h' !! bl = Some (u64 (Z.of_nat (S (length (zs1 ++ zs2)))))).
Proof.
  intros Ha Hb Hdis Hn Hv.
  assert (Iy : y ∈ ys1 ++ y :: ys2) by set_solver. assert (Ib : b ∈ zs1 ++ b :: zs2) by set_solver.
  assert (Hfound : ∀ d, an d = an y.2 → av d = av y.2 → ∃ p,
    haggle_attributelist_get_attribute_by_name_value (Some al) (a_name (rep d)) (a_value (rep d)) h = Some (Some p, h)).
  { intros d En Ev. cbn [rep a_name a_value]. rewrite (get_by_name_value_run h al _ (an d) (av d) Ha).
    pose proof (find_entry_split (has_name_value (an d) (av d)) (ys1 ++ y :: ys2)) as Hs.
    destruct (find_entry _ _) as [z|]; [by exists z.1|].
    apply Forall_app in Hs as [_ Hs]. apply Forall_cons in Hs as [Hs _].
    apply not_true_iff_false in Hs. exfalso. apply Hs, has_name_value_iff. by split. }
  assert (Hget : ∀ z d, h_attrs h !! z = Some (rep d) → get_attr z h = Some (rep d, h))
    by (intros z d E; unfold get_attr, gets; by rewrite E).
  split.
  - destruct (detach_num_run h al ys1 y ys2 Ha) as (h' & R & _ & Hl' & _). exists h'. split; [|done].
    unfold haggle_attributelist_detach_attribute.
    rewrite (bind_run _ _ _ _ _ (Hget y.1 y.2 (is_alist_lookup _ _ _ _ Ha Iy))).
    destruct (Hfound y.2 eq_refl eq_refl) as [p E]. rewrite (bind_run _ _ _ _ _ E). apply R.
  - unfold haggle_attributelist_detach_attribute.
    rewrite (bind_run _ _ _ _ _ (Hget b.1 b.2 (is_alist_lookup _ _ _ _ Hb Ib))).
    destruct (Hfound b.2 Hn Hv) as [p E]. rewrite (bind_run _ _ _ _ _ E).
    pose proof (al_ring _ _ _ Hb) as Hrb. rewrite fmap_app in Hrb.
    destruct (list_detach_ring (h_cells h) bl (zs1.*1) b.1 (zs2.*1) Hrb) as (c' & Ec & Hr' & _ & _ & F).
    rewrite (bind_run _ _ _ LIST_SUCCESS (with_cells h c')) by (unfold on_cells; by rewrite Ec).
    unfold decr_num, get_num, set_num, gets, modify, mbind, M_bind, mret, M_ret. cbn [with_cells h_lists].
    rewrite (al_num _ _ _ Ha). cbn [option_bind with_num with_cells h_lists]. rewrite (al_num _ _ _ Ha).
    cbn [option_bind]. eexists. split; [reflexivity|]. cbn [with_num with_cells h_cells h_lists].
    assert (al ≠ bl) by (intros ->; apply (Hdis bl); by left). split_and!.
    + eapply is_list_frame; [|apply Ha]. intros x Hx. apply F. specialize (Hdis x Hx). by rewrite fmap_app in Hdis.
    + rewrite lookup_insert_eq. f_equal. rewrite u64_sub_l. f_equal. rewrite !length_app. simpl. lia.
    + by rewrite fmap_app.
    + rewrite lookup_insert_ne, (al_num _ _ _ Hb) by done. do 3 f_equal. rewrite !length_app. simpl. lia.
Qed.

(** ** Witnesses *)

Definition self_cell (p : loc) : list_t := Cell (Some p) (Some p).

(** An empty list at 1 and two new attributes at 2 and 3. *)
Definition ex_a : attr := MkAttr "Picture" "dog" 1.
Definition ex_b : attr := MkAttr "Keyword" "cat" 7.
Definition ex_heap : heap :=
  Heap {[1 := self_cell 1; 2 := self_cell 2; 3 := self_cell 3]}%positive
       {[2 := rep ex_a; 3 := rep ex_b]}%positive {[1%positive := 0]} 0.

Lemma ex_heap_empty : is_alist ex_heap 1 [].
Proof. split; [split; [split; reflexivity|apply NoDup_singleton]|constructor|reflexivity]. Qed.
Lemma ex_a_unattached : unattached ex_heap 2 ex_a.
Proof. split; reflexivity. Qed.
Lemma ex_b_unattached : unattached ex_heap 3 ex_b.
Proof. split; reflexivity. Qed.

(** The list with both attributes; and a second list, at 4, with a twin of the first. *)
Definition ex_full : heap :=
  Heap {[1 := Cell (Some 2) (Some 3); 3 := Cell (Some 1) (Some 2); 2 := Cell (Some 3) (Some 1);
         4 := Cell (Some 5) (Some 5); 5 := Cell (Some 4) (Some 4)]}%positive
       {[2 := rep ex_a; 3 := rep ex_b; 5 := rep ex_a]}%positive {[1%positive := 2; 4%positive := 1]} 0.
Definition ex_entries : entries := [(3%positive, ex_b); (2%positive, ex_a)].

Lemma ex_full_alist : is_alist ex_full 1 ex_entries.
Proof.
  split; [split; [repeat split; reflexivity|]|repeat constructor; reflexivity|reflexivity].
  change (NoDup [1; 3; 2]%positive). by apply (bool_decide_unpack _).
Qed.
Lemma ex_full_other : is_alist ex_full 4 [(5%positive, ex_a)].
Proof.
  split; [split; [repeat split; reflexivity|]|repeat constructor; reflexivity|reflexivity].
  change (NoDup [4; 5]%positive). by apply (bool_decide_unpack _).
Qed.
Lemma ex_entries_sorted : sorted ex_entries.
Proof. repeat constructor. Qed.

Definition always (_ : nat) : bool := true.

Lemma haggle_attributelist_add_attribute_spec_witness :
  ∃ h' ys', haggle_attributelist_add_attribute (Some 1%positive) (Some 2%positive) ex_heap = Some (1, h') ∧
            is_alist h' 1 ys' ∧ ys' ≡ₚ [(2%positive, ex_a)].
Proof.
  destruct (haggle_attributelist_add_attribute_spec ex_heap 1 [] 2 ex_a ex_heap_empty ex_a_unattached)
    as (h' & ys' & E & Hl & Hp & _); [by apply (bool_decide_unpack _)|].
  exists h', ys'. split; [exact E|]. split; [exact Hl|exact Hp].
Defined.

Lemma haggle_attributelist_canonical_witness :
  ∃ n h1' h2' ys1 ys2,
    add_all 1 [2; 3]%positive ex_heap = Some (n, h1') ∧ add_all 1 [3; 2]%positive ex_heap = Some (n, h2') ∧
    is_alist h1' 1 ys1 ∧ is_alist h2' 1 ys2 ∧ ys1.*2 = ys2.*2 ∧ sorted ys1.
Proof.
  apply (haggle_attributelist_canonical ex_heap ex_heap 1 1
    [(2%positive, ex_a); (3%positive, ex_b)] [(3%positive, ex_b); (2%positive, ex_a)] ex_heap_empty ex_heap_empty).
  - constructor; [apply ex_a_unattached|constructor; [apply ex_b_unattached|constructor]].
  - constructor; [apply ex_b_unattached|constructor; [apply ex_a_unattached|constructor]].
  - change (NoDup [1; 2; 3]%positive). by apply (bool_decide_unpack _).
  - change (NoDup [1; 3; 2]%positive). by apply (bool_decide_unpack _).
  - apply perm_swap.
Defined.

Lemma haggle_attributelist_get_spec_witness :
  haggle_attributelist_get_attribute_by_name (Some 1%positive) (Some "Picture") ex_full =
    Some (Some 2%positive, ex_full) ∧
  haggle_attributelist_get_attribute_n (Some 1%positive) 1 ex_full = Some (Some 2%positive, ex_full).
Proof.
  destruct (haggle_attributelist_get_spec ex_full 1 ex_entries "Picture" "dog" 1 ex_full_alist)
    as (E1 & _ & E2 & _); [reflexivity|lia|]. split; [exact E1|exact E2].
Defined.

Lemma haggle_attributelist_remove_spec_witness :
  ∃ h', haggle_attributelist_remove_attribute (Some 1%positive) (Some "Picture") (Some "dog") ex_full =
          Some (Some 2%positive, h') ∧ haggle_attributelist_add_attribute (Some 1%positive) (Some 2%positive) h' = Some (0, h').
Proof.
  destruct (haggle_attributelist_remove_spec ex_full 1 ex_entries "Picture" "dog" ex_full_alist)
    as [[H _]|(ys1 & y & ys2 & h' & E & Hn & _ & _ & R & _ & _ & H)].
  - exfalso. inversion_clear H as [|? ? _ H']. inversion_clear H' as [|? ? H'' _]. apply H''. split; reflexivity.
  - exists h'. assert (y.1 = 2%positive) as Ey.
    { unfold ex_entries in E. destruct ys1 as [|e1 [|e2 ys1]]; simplify_eq/=; [done|]. by destruct ys1. }
    rewrite Ey in R, H. split; [exact R|apply H].
Defined.

Lemma haggle_attributelist_pop_spec_witness :
  (∃ h', haggle_attributelist_pop (Some 1%positive) ex_full = Some (Some 3%positive, h') ∧ is_alist h' 1 [(2%positive, ex_a)]) ∧
  (∃ h', haggle_attributelist_pop (Some 1%positive) ex_heap = Some (Some 1%positive, h') ∧
         h_lists h' !! 1%positive = Some (2 ^ 64 - 1)).
Proof.
  split.
  - destruct (haggle_attributelist_pop_spec ex_full 1 ex_entries ex_full_alist) as (h' & E & Hl & _).
    exists h'. split; [exact E|exact Hl].
  - destruct (haggle_attributelist_pop_spec ex_heap 1 [] ex_heap_empty) as (h' & E & Hn & _).
    exists h'. split; [exact E|exact Hn].
Defined.

Lemma haggle_attributelist_copy_free_witness :
  ∃ alc h' zs h'', haggle_attributelist_copy always (Some 1%positive) ex_full = Some (Some alc, h') ∧
    is_alist h' alc zs ∧ zs.*2 = [ex_b; ex_a] ∧ haggle_attributelist_free (Some alc) h' = Some (tt, h'') ∧
    h_cells h'' = h_cells ex_full.
Proof.
  destruct (haggle_attributelist_copy_free always (fun _ => eq_refl) ex_full 1 ex_entries ex_full_alist ex_entries_sorted)
    as (alc & h' & zs & h'' & E & _ & Hl & Hz & Ef & Hc & _).
  - repeat constructor; cbn; lia.
  - reflexivity.
  - exists alc, h', zs, h''. split; [exact E|]. split; [exact Hl|]. split; [exact Hz|]. split; [exact Ef|exact Hc].
Defined.

Lemma haggle_attributelist_new_from_string_spec_witness :
  (∃ al h' ys, haggle_attributelist_new_from_string always "foo=bar,bin=baz" ex_heap = Some (Some al, h') ∧
               is_alist h' al ys ∧ ys.*2 ≡ₚ [MkAttr "foo" "bar" 1; MkAttr "bin" "baz" 1]) ∧
  (∃ h', haggle_attributelist_new_from_string always "foo=bar,bin" ex_heap = Some (None, h') ∧
         h_cells h' = h_cells ex_heap).
Proof.
  split.
  - pose proof (haggle_attributelist_new_from_string_spec always (fun _ => eq_refl) "foo=bar,bin=baz" ex_heap eq_refl) as H.
    change (string_pairs "foo=bar,bin=baz") with ([("foo", "bar"); ("bin", "baz")], true) in H.
    destruct H as (al & h' & ys & E & Hl & _ & Hp & _). exists al, h', ys. split; [exact E|]. split; [exact Hl|exact Hp].
  - pose proof (haggle_attributelist_new_from_string_spec always (fun _ => eq_refl) "foo=bar,bin" ex_heap eq_refl) as H.
    change (string_pairs "foo=bar,bin") with ([("foo", "bar")], false) in H.
    destruct H as (h' & E & Hc & _). exists h'. split; [exact E|exact Hc].
Defined.

Lemma haggle_attributelist_string_roundtrip_witness :
  ∃ al h' ys, haggle_attributelist_new_from_string always "foo=bar,bin=baz" ex_heap = Some (Some al, h') ∧
              is_alist h' al ys ∧ sorted ys ∧ ys.*2 ≡ₚ [MkAttr "foo" "bar" 1; MkAttr "bin" "baz" 1].
Proof.
  apply (haggle_attributelist_string_roundtrip always (fun _ => eq_refl) [("foo", "bar"); ("bin", "baz")] ex_heap);
    [congruence| |reflexivity].
  repeat constructor; cbn; repeat split; congruence.
Defined.

Lemma haggle_attributelist_detach_spec_witness :
  ∃ h', haggle_attributelist_detach_attribute (Some 1%positive) (Some 5%positive) ex_full = Some (1, h') ∧
        h_lists h' !! 1%positive = Some 1.
Proof.
  destruct (haggle_attributelist_detach_spec ex_full 1 [(3%positive, ex_b)] (2%positive, ex_a) [] 4 [] (5%positive, ex_a) []
              ex_full_alist ex_full_other) as (_ & h' & E & _ & Hn & _).
  - apply Forall_forall. by apply (bool_decide_unpack _).
  - reflexivity.
  - reflexivity.
  - exists h'. split; [exact E|exact Hn].
Defined.
