(* ===== verification/Metadata.v ===== *)
(** * Metadata: the tree of names, contents and parameters, [libhaggle/metadata.c].

    A [struct metadata] lives at the address of its list element [l]; the head of its
    list of children has an address of its own, [m_children].  Both kinds of cells are
    those of [CList].  The parameters are kept as the sequence that [Attribute] proves
    its lists to implement.  [is_tree] relates the heap to the tree; the theorems say
    what is iterated, added, detached and freed. *)

From S2P Require Import Prelude CList Attribute.

(** ** Parameters as a sequence *)

Definition seq_find (name : string) (ps : list attr) : option (nat * attr) :=
  list_find (fun a => has_name name a = true) ps.
Definition seq_get (name : string) (ps : list attr) : option string :=
  (fun ia => av ia.2) <$> seq_find name ps.
Fixpoint seq_insert (a : attr) (ps : list attr) : list attr :=
  match ps with
  | [] => [a]
  | b :: ps => if attr_lt a b then a :: b :: ps else b :: seq_insert a ps
  end.
#[global] Arguments seq_find : simpl never.
#[global] Arguments seq_get : simpl never.
Definition set_av (value : string) (a : attr) : attr := MkAttr (an a) value (aw a).

(** The sequence functions are what the lists in the heap of [Attribute] do. *)
Lemma seq_insert_entries x ys : (insert_sorted x ys).*2 = seq_insert x.2 (ys.*2).
Proof. induction ys as [|y ys IH]; [done|]. cbn. case_match; [done|]. rewrite fmap_cons. by rewrite IH. Qed.

Lemma seq_find_entries name (ys : entries) :
  snd <$> find_entry (has_name name) ys = snd <$> seq_find name (ys.*2).
Proof.
  unfold find_entry, seq_find. induction ys as [|y ys IH]; [done|]. rewrite fmap_cons. cbn [list_find].
  destruct (decide (has_name name y.2 = true)); [done|]. revert IH. generalize (ys.*2). intros as_.
  destruct (list_find _ ys) as [[i z]|]; destruct (list_find _ as_) as [[j a]|]; cbn; intros; congruence.
Qed.

(** ** Heap *)

Record metadata_iterator := It
  { it_name : option string; it_head : option loc; it_tmp : option loc; it_pos : option loc }.

Record metadata := Meta
  { m_it : metadata_iterator; m_parent : option loc; m_name : option string; m_content : option string;
    m_params : list attr; m_children : loc }.

Record mheap := MHeap { mh_cells : cells; mh_nodes : gmap loc metadata; mh_mallocs : nat }.

Abbreviation MM := (M mheap).

Definition mon_cells {A} (f : cells → option (A * cells)) : MM A :=
  fun h => '(r, c) ← f (mh_cells h); Some (r, MHeap c (mh_nodes h) (mh_mallocs h)).
Definition mfrom_cells {A} (f : cells → option A) : MM A := gets (fun h => f (mh_cells h)).
Definition get_node (m : loc) : MM metadata := gets (fun h => mh_nodes h !! m).
Definition set_node (m : loc) (d : metadata) : MM unit :=
  modify (fun h => _ ← mh_nodes h !! m; Some (MHeap (mh_cells h) (<[m := d]> (mh_nodes h)) (mh_mallocs h))).
Definition mfuel : MM nat := gets (fun h => Some (loop_fuel (mh_cells h))).

Definition with_it (d : metadata) (it : metadata_iterator) : metadata :=
  Meta it (m_parent d) (m_name d) (m_content d) (m_params d) (m_children d).
Definition with_parent (d : metadata) (p : option loc) : metadata :=
  Meta (m_it d) p (m_name d) (m_content d) (m_params d) (m_children d).
Definition with_name (d : metadata) (n : option string) : metadata :=
  Meta (m_it d) (m_parent d) n (m_content d) (m_params d) (m_children d).
Definition with_content (d : metadata) (c : option string) : metadata :=
  Meta (m_it d) (m_parent d) (m_name d) c (m_params d) (m_children d).
Definition with_params (d : metadata) (ps : list attr) : metadata :=
  Meta (m_it d) (m_parent d) (m_name d) (m_content d) ps (m_children d).

Section Alloc.
Context (malloc_ok : nat → bool).

Definition mmalloc : MM bool :=
  fun h => Some (malloc_ok (mh_mallocs h), MHeap (mh_cells h) (mh_nodes h) (S (mh_mallocs h))).

(** ** Names and contents *)

Definition metadata_name_is (m : option loc) (name : string) : MM Z :=
  match m with
  | None => mret (-1)
  | Some m =>
    d ← get_node m;
    match m_name d with
    | Some n => mret (if strcmp n name =? 0 then 1 else 0)
    | None => mret 0
    end
  end.

Definition metadata_get_name (m : option loc) : MM (option string) :=
  match m with None => mret None | Some m => d ← get_node m; mret (m_name d) end.
Definition metadata_get_content (m : option loc) : MM (option string) :=
  match m with None => mret None | Some m => d ← get_node m; mret (m_content d) end.

Definition metadata_set_name (m : option loc) (name : option string) : MM (option string) :=
  match m, name with
  | Some m, Some name =>
    ok ← mmalloc;
    if negb ok then mret None else
    d ← get_node m; _ ← set_node m (with_name d (Some name)); mret (Some name)
  | _, _ => mret None
  end.

Definition metadata_set_content (m : option loc) (content : option string) : MM (option string) :=
  match m, content with
  | Some m, Some content =>
    ok ← mmalloc;
    if negb ok then mret None else
    d ← get_node m; _ ← set_node m (with_content d (Some content)); mret (Some content)
  | _, _ => mret None
  end.

(** ** Iterators *)

(** The name of the node at [pos], as [strcmp] needs it: not NULL. *)
Definition name_at (pos : loc) : MM string :=
  n ← metadata_get_name (Some pos); match n with Some n => mret n | None => undefined end.

(** [metadata_iterator_init]'s search for the first occurrence of [name]. *)
Fixpoint init_loop (fuel : nat) (it : metadata_iterator) (name : string) : MM metadata_iterator :=
  match fuel with
  | O => undefined
  | S fuel =>
    if bool_decide (it_pos it = it_head it) then mret it else
    match it_pos it with
    | None => undefined
    | Some pos =>
      n ← name_at pos;
      if strcmp n name =? 0 then mret it else
      pos' ← mfrom_cells (fun c => get_next c pos);
      match pos' with
      | None => undefined
      | Some p' =>
        tmp' ← mfrom_cells (fun c => get_next c p');
        init_loop fuel (It (it_name it) (it_head it) tmp' pos') name
      end
    end
  end.

Definition metadata_iterator_init (it : metadata_iterator) (head : loc) (name : option string)
  : MM metadata_iterator :=
  pos ← mfrom_cells (fun c => get_next c head);
  match pos with
  | None => undefined
  | Some p =>
    tmp ← mfrom_cells (fun c => get_next c p);
    let it := It None (Some head) tmp pos in
    match name with
    | Some n =>
      if strlen n >? 0 then
        ok ← mmalloc;
        if negb ok then mret it else
        fuel ← mfuel; init_loop fuel (It name (Some head) tmp pos) n
      else mret it
    | None => mret it
    end
  end.

Definition metadata_iterator_is_at_end (it : metadata_iterator) : bool :=
  bool_decide (it_pos it = it_head it).

(** [metadata_iterator_next]'s search for the next occurrence. *)
Fixpoint next_loop (fuel : nat) (it : metadata_iterator) (name : string) : MM (Z * metadata_iterator) :=
  match fuel with
  | O => undefined
  | S fuel =>
    if bool_decide (it_pos it = it_head it) then mret (0, it) else
    match it_pos it with
    | None => undefined
    | Some pos =>
      n ← name_at pos;
      if strcmp n name =? 0 then mret (1, it) else
      match it_tmp it with
      | None => undefined
      | Some p' =>
        tmp' ← mfrom_cells (fun c => get_next c p');
        next_loop fuel (It (it_name it) (it_head it) tmp' (Some p')) name
      end
    end
  end.

Definition metadata_iterator_next (it : metadata_iterator) : MM (Z * metadata_iterator) :=
  if bool_decide (it_pos it = it_head it) then mret (0, it) else
  match it_tmp it with
  | None => undefined
  | Some p =>
    tmp ← mfrom_cells (fun c => get_next c p);
    let it := It (it_name it) (it_head it) tmp (Some p) in
    if bool_decide (it_pos it = it_head it) then mret (0, it) else
    match it_name it with
    | None => mret (1, it)
    | Some name => fuel ← mfuel; next_loop fuel it name
    end
  end.

Definition metadata_iterator_deref (it : metadata_iterator) : option loc :=
  if metadata_iterator_is_at_end it then None else it_pos it.

Definition metadata_get_next (m : option loc) : MM (option loc) :=
  match m with
  | None => mret None
  | Some m =>
    d ← get_node m;
    if bool_decide (it_head (m_it d) = None) || metadata_iterator_is_at_end (m_it d) then mret None else
    '(_, it) ← metadata_iterator_next (m_it d);
    _ ← set_node m (with_it d it);
    mret (metadata_iterator_deref it)
  end.

Definition metadata_get (m : option loc) (name : option string) : MM (option loc) :=
  match m with
  | None => mret None
  | Some m =>
    d ← get_node m;
    it ← metadata_iterator_init (m_it d) (m_children d) name;
    _ ← set_node m (with_it d it);
    mret (metadata_iterator_deref it)
  end.

(** ** The tree *)

Definition metadata_detach (child : option loc) : MM Z :=
  match child with
  | None => mret HAGGLE_ERROR
  | Some c =>
    _ ← mon_cells (list_detach child);
    d ← get_node c; _ ← set_node c (with_parent d None);
    mret HAGGLE_NO_ERROR
  end.

Definition metadata_add (parent child : option loc) : MM Z :=
  match parent, child with
  | Some p, Some c =>
    _ ← metadata_detach child;
    d ← get_node c; _ ← set_node c (with_parent d parent);
    dp ← get_node p;
    _ ← mon_cells (list_add_tail child (Some (m_children dp)));
    mret HAGGLE_NO_ERROR
  | _, _ => mret HAGGLE_ERROR
  end.

(** [malloc], [memset (m, 0, ...)] and the two [INIT_LIST]s: two fresh cells. *)
Definition mfresh (h : mheap) : loc := fresh (dom (mh_cells h) ∪ dom (mh_nodes h)).
Definition new_node_struct : MM loc := fun h =>
  let m := mfresh h in
  let ch := fresh ({[m]} ∪ dom (mh_cells h) ∪ dom (mh_nodes h)) in
  Some (m, MHeap (<[m := Cell (Some m) (Some m)]> (<[ch := Cell (Some ch) (Some ch)]> (mh_cells h)))
                 (<[m := Meta (It None None None None) None None None [] ch]> (mh_nodes h)) (mh_mallocs h)).
Definition free_node_struct (m : loc) : MM unit := modify (fun h =>
  d ← mh_nodes h !! m; _ ← mh_cells h !! m; _ ← mh_cells h !! m_children d;
  Some (MHeap (delete m (delete (m_children d) (mh_cells h))) (delete m (mh_nodes h)) (mh_mallocs h))).

Definition metadata_new (name content : option string) (parent : option loc) : MM (option loc) :=
  ok ← mmalloc;
  if negb ok then mret None else
  m ← new_node_struct;
  ok ← mmalloc;                                (* haggle_attributelist_new () *)
  if negb ok then _ ← free_node_struct m; mret None else
  _ ← metadata_set_name (Some m) name;
  _ ← metadata_set_content (Some m) content;
  match parent with
  | Some _ => _ ← metadata_add parent (Some m); mret (Some m)
  | None => d ← get_node m; _ ← set_node m (with_parent d (Some m)); mret (Some m)
  end.

(** [while (!list_empty (&m->children)) body (list_first (&m->children))]. *)
Fixpoint while_children (fuel : nat) (ch : loc) (body : option loc → MM unit) : MM unit :=
  match fuel with
  | O => undefined
  | S fuel =>
    e ← mfrom_cells (fun c => list_empty c ch);
    if (e : bool) then mret tt else
    f ← mfrom_cells (fun c => list_first c ch);
    _ ← body f; while_children fuel ch body
  end.

(** [fuel] bounds the depth of the recursion and the number of children. *)
Fixpoint metadata_free (fuel : nat) (m : option loc) : MM unit :=
  match fuel with
  | O => undefined
  | S fuel =>
    match m with
    | None => mret tt
    | Some p =>
      _ ← metadata_detach m;
      d ← get_node p;
      _ ← while_children fuel (m_children d) (metadata_free fuel);
      free_node_struct p
    end
  end.

(** ** Parameters *)

Definition metadata_set_parameter (m : option loc) (name value : option string) : MM Z :=
  match m, name, value with
  | Some m, Some name, Some value =>
    d ← get_node m;
    match seq_find name (m_params d) with
    | Some (i, a) =>
      ok ← mmalloc;                            (* haggle_attribute_set_value *)
      if negb ok then mret HAGGLE_ERROR else
      _ ← set_node m (with_params d (<[i := set_av value a]> (m_params d))); mret 0
    | None =>
      ok1 ← mmalloc;                           (* haggle_attribute_new: three allocations *)
      if negb ok1 then mret HAGGLE_ERROR else
      ok2 ← mmalloc;
      if negb ok2 then mret HAGGLE_ERROR else
      ok3 ← mmalloc;
      if negb ok3 then mret HAGGLE_ERROR else
      _ ← set_node m (with_params d (seq_insert (MkAttr name value 1) (m_params d))); mret 1
    end
  | _, _, _ => mret HAGGLE_ERROR
  end.

Definition metadata_get_parameter (m : option loc) (name : option string) : MM (option string) :=
  match m, name with
  | Some m, Some name => d ← get_node m; mret (seq_get name (m_params d))
  | _, _ => mret None
  end.
End Alloc.

#[global] Arguments metadata_get : simpl never.
#[global] Arguments metadata_get_next : simpl never.

(** ** Iteration *)

(** The children of a node with their names. *)
Record has_children (h : mheap) (m : loc) (d : metadata) (ks : list (loc * string)) : Prop :=
  { ch_node : mh_nodes h !! m = Some d;
    ch_ring : is_list (mh_cells h) (m_children d) (ks.*1);
    ch_names : Forall (fun k => ∃ e, mh_nodes h !! k.1 = Some e ∧ m_name e = Some k.2) ks;
    ch_self : m ∉ ks.*1 }.

(** [h'] differs from [h] at most in the iterator of [m] and the allocation count. *)
Definition same_but_it (h h' : mheap) (m : loc) (d : metadata) : Prop :=
  mh_cells h' = mh_cells h ∧ ∃ it, mh_nodes h' = <[m := with_it d it]> (mh_nodes h).

(** The iterator stands before the children [ks] that are left. *)
Definition it_at (h : mheap) (head : loc) (name : option string) (ks : list (loc * string)) (it : metadata_iterator) : Prop :=
  it_name it = name ∧ it_head it = Some head ∧ it_pos it = Some (hd head (ks.*1)) ∧
  (ks ≠ [] → it_tmp it = Some (hd head (tail (ks.*1)))).

Definition wanted (name : option string) (k : loc * string) : bool :=
  match name with Some n => strcmp k.2 n =? 0 | None => true end.

(** The children from the first wanted one on. *)
Fixpoint drop_until (name : option string) (ks : list (loc * string)) : list (loc * string) :=
  match ks with
  | [] => []
  | k :: ks' => if wanted name k then ks else drop_until name ks'
  end.

Section Iteration.
Context (h : mheap) (m : loc) (d : metadata) (all : list (loc * string))
        (Hc : has_children h m d all).
Abbreviation head := (m_children d).

Lemma name_at_run k : k ∈ all → name_at k.1 h = Some (k.2, h).
Proof.
  intros Hk. destruct (proj1 (Forall_forall _ _) (ch_names _ _ _ _ Hc) k Hk) as (e & E & En).
  unfold name_at, metadata_get_name, get_node, gets, mbind, M_bind, mret, M_ret. rewrite E. cbn. by rewrite En.
Qed.

Lemma next_run ks1 k ks2 :
  all = ks1 ++ k :: ks2 → get_next (mh_cells h) k.1 = Some (Some (hd head (ks2.*1))).
Proof.
  intros ->. destruct (ch_ring _ _ _ _ Hc) as [Hl _]. rewrite fmap_app in Hl.
  apply linked_app in Hl as [_ Hl]. by apply linked_chain in Hl as [? _].
Qed.

Lemma head_next : get_next (mh_cells h) head = Some (Some (hd head (all.*1))).
Proof. destruct (ch_ring _ _ _ _ Hc) as [Hl _]. by apply linked_chain in Hl as [? _]. Qed.

(** The successor of the first of the children left, the head's when there is none. *)
Lemma tmp_run ks1 ks2 :
  all = ks1 ++ ks2 → ∃ t, get_next (mh_cells h) (hd head (ks2.*1)) = Some t ∧
                          (ks2 ≠ [] → t = Some (hd head (tail (ks2.*1)))).
Proof.
  intros E. destruct ks2 as [|k ks2]; cbn [fmap list_fmap hd tail].
  - rewrite head_next. eexists. split; [reflexivity|done].
  - rewrite (next_run ks1 k ks2 E). eexists. split; [reflexivity|done].
Qed.

Lemma not_head ks1 k ks2 : all = ks1 ++ k :: ks2 → k.1 ≠ head.
Proof.
  intros ->. destruct (ch_ring _ _ _ _ Hc) as [_ Hnd]. apply NoDup_cons in Hnd as [Hh _].
  rewrite fmap_app, fmap_cons in Hh. set_solver.
Qed.

Lemma mfrom_run {A} (f : cells → option A) a : f (mh_cells h) = Some a → mfrom_cells f h = Some (a, h).
Proof. intros E. unfold mfrom_cells, gets. by rewrite E. Qed.

Lemma init_loop_run fuel ks1 ks2 it name :
  all = ks1 ++ ks2 → it_at h head (Some name) ks2 it → (length ks2 < fuel)%nat →
  ∃ it', init_loop fuel it name h = Some (it', h) ∧ it_at h head (Some name) (drop_until (Some name) ks2) it'.
Proof.
  revert ks1 ks2 it. induction fuel as [|fuel IH]; intros ks1 ks2 it E (I1 & I2 & I3 & I4) Hf; [lia|].
  cbn [init_loop]. rewrite I2, I3. destruct ks2 as [|k ks2]; cbn [fmap list_fmap hd drop_until].
  - rewrite bool_decide_eq_true_2 by done. exists it. by split_and!.
  - rewrite bool_decide_eq_false_2 by (intros [= E']; by apply (not_head _ _ _ E)).
    rewrite (bind_run _ _ _ _ _ (name_at_run k ltac:(rewrite E; set_solver))). cbn [wanted].
    destruct (strcmp k.2 name =? 0); [exists it; by split_and!|].
    rewrite (bind_run _ _ _ _ _ (mfrom_run _ _ (next_run _ _ _ E))).
    assert (E' : all = (ks1 ++ [k]) ++ ks2) by (by rewrite <- app_assoc).
    destruct (tmp_run _ _ E') as (t & Et & Ht). rewrite (bind_run _ _ _ _ _ (mfrom_run _ _ Et)).
    apply (IH (ks1 ++ [k])); [done| |simpl in Hf; lia]. rewrite I1. by split_and!.
Qed.

Lemma next_loop_run fuel ks1 ks2 it name :
  all = ks1 ++ ks2 → it_at h head (Some name) ks2 it → (length ks2 < fuel)%nat →
  ∃ r it', next_loop fuel it name h = Some ((r, it'), h) ∧ it_at h head (Some name) (drop_until (Some name) ks2) it'.
Proof.
  revert ks1 ks2 it. induction fuel as [|fuel IH]; intros ks1 ks2 it E (I1 & I2 & I3 & I4) Hf; [lia|].
  cbn [next_loop]. rewrite I2, I3. destruct ks2 as [|k ks2]; cbn [fmap list_fmap hd drop_until].
  - rewrite bool_decide_eq_true_2 by done. exists 0, it. by split_and!.
  - rewrite bool_decide_eq_false_2 by (intros [= E']; by apply (not_head _ _ _ E)).
    rewrite (bind_run _ _ _ _ _ (name_at_run k ltac:(rewrite E; set_solver))). cbn [wanted].
    destruct (strcmp k.2 name =? 0); [exists 1, it; by split_and!|].
    rewrite I4 by done. cbn [fmap list_fmap tail].
    assert (E' : all = (ks1 ++ [k]) ++ ks2) by (by rewrite <- app_assoc).
    destruct (tmp_run _ _ E') as (t & Et & Ht). rewrite (bind_run _ _ _ _ _ (mfrom_run _ _ Et)).
    apply (IH (ks1 ++ [k])); [done| |simpl in Hf; lia]. rewrite I1. by split_and!.
Qed.

Lemma fuel_enough : (length all < loop_fuel (mh_cells h))%nat.
Proof.
  pose proof (is_list_length _ _ _ (ch_ring _ _ _ _ Hc)) as H. rewrite length_fmap in H. unfold loop_fuel. lia.
Qed.

Lemma drop_until_None ks : drop_until None ks = ks.
Proof. by destruct ks. Qed.

(** One step: the children after the current one, from the next wanted one on. *)
Lemma iterator_next_run ks1 k ks2 it name :
  all = ks1 ++ k :: ks2 → it_at h head name (k :: ks2) it →
  ∃ r it', metadata_iterator_next it h = Some ((r, it'), h) ∧ it_at h head name (drop_until name ks2) it'.
Proof.
  intros E (I1 & I2 & I3 & I4). unfold metadata_iterator_next. rewrite I2, I3, I4 by done.
  cbn [fmap list_fmap hd tail].
  rewrite bool_decide_eq_false_2 by (intros [= E']; by apply (not_head _ _ _ E)).
  assert (E' : all = (ks1 ++ [k]) ++ ks2) by (by rewrite <- app_assoc).
  destruct (tmp_run _ _ E') as (t & Et & Ht). rewrite (bind_run _ _ _ _ _ (mfrom_run _ _ Et)).
  cbn [it_pos it_head it_name]. rewrite I1.
  set (it1 := It name (Some head) t (Some (hd head (ks2.*1)))).
  assert (I : it_at h head name ks2 it1) by (by split_and!).
  destruct ks2 as [|k2 ks2].
  - rewrite bool_decide_eq_true_2 by done. exists 0, it1. by split_and!.
  - rewrite bool_decide_eq_false_2 by (intros [= E2]; by apply (not_head _ _ _ E')).
    destruct name as [name|].
    + rewrite (bind_run _ _ _ (loop_fuel (mh_cells h)) h) by done.
      apply (next_loop_run _ (ks1 ++ [k]) (k2 :: ks2)); [done|done|].
      pose proof fuel_enough as Hf. rewrite E' in Hf. rewrite length_app in Hf. lia.
    + exists 1, it1. rewrite drop_until_None. by split_and!.
Qed.

Lemma deref_run name ks it : it_at h head name ks it → (∀ k ks', ks = k :: ks' → k ∈ all) →
  metadata_iterator_deref it = fst <$> hd_error ks.
Proof.
  intros (I1 & I2 & I3 & I4) Hin. unfold metadata_iterator_deref, metadata_iterator_is_at_end. rewrite I2, I3.
  destruct ks as [|k ks]; cbn; [by rewrite bool_decide_eq_true_2|].
  rewrite bool_decide_eq_false_2; [done|]. intros [= E].
  destruct (list_elem_of_split _ _ (Hin k ks eq_refl)) as (l1 & l2 & Es). by apply (not_head _ _ _ Es).
Qed.
End Iteration.

(** The loop every user of the tree writes:
    [for (c = metadata_get (m, name); c; c = metadata_get_next (m))]. *)
Fixpoint collect_from (fuel : nat) (m : loc) (x : option loc) : MM (list loc) :=
  match fuel with
  | O => undefined
  | S fuel =>
    match x with
    | None => mret []
    | Some c => x ← metadata_get_next (Some m); cs ← collect_from fuel m x; mret (c :: cs)
    end
  end.
Definition children_named (malloc_ok : nat → bool) (m : loc) (name : option string) : MM (list loc) :=
  x ← metadata_get malloc_ok (Some m) name; fuel ← mfuel; collect_from fuel m x.

(** An empty name is no name. *)
Definition effective (name : option string) : option string :=
  match name with Some n => if strlen n >? 0 then Some n else None | None => None end.

Lemma with_it_with_it d it it' : with_it (with_it d it) it' = with_it d it'.
Proof. done. Qed.

Lemma has_children_it h h' m d ks it :
  has_children h m d ks → mh_cells h' = mh_cells h → mh_nodes h' = <[m := with_it d it]> (mh_nodes h) →
  has_children h' m (with_it d it) ks.
Proof.
  intros [Hn Hr Hnm Hs] Ec En. split; rewrite ?Ec, ?En; try done.
  - by rewrite lookup_insert_eq.
  - apply Forall_forall. intros k Hk. destruct (proj1 (Forall_forall _ _) Hnm k Hk) as (e & E & E').
    exists e. rewrite lookup_insert_ne; [done|]. intros ->. apply Hs. by apply list_elem_of_fmap_2.
Qed.

Lemma set_node_run h m d d' :
  mh_nodes h !! m = Some d → set_node m d' h = Some (tt, MHeap (mh_cells h) (<[m := d']> (mh_nodes h)) (mh_mallocs h)).
Proof. intros E. unfold set_node, modify. by rewrite E. Qed.

Lemma drop_until_filter name ks :
  filter (fun k => wanted name k = true) ks =
  match drop_until name ks with [] => [] | k :: ks' => k :: filter (fun k => wanted name k = true) ks' end.
Proof.
  induction ks as [|k ks IH]; [done|]. cbn [drop_until]. rewrite filter_cons.
  destruct (wanted name k) eqn:E; [by rewrite decide_True|]. by rewrite decide_False by congruence.
Qed.

Lemma drop_until_suffix name ks : ∃ ks1, ks = ks1 ++ drop_until name ks.
Proof.
  induction ks as [|k ks [ks1 IH]]; [by exists []|]. simpl. case_match; [by exists []|]. exists (k :: ks1). simpl. by f_equal.
Qed.

Lemma get_node_run h m d : mh_nodes h !! m = Some d → get_node m h = Some (d, h).
Proof. intros E. unfold get_node, gets. by rewrite E. Qed.

Lemma collect_run fuel h m d all ks1 k ks2 name :
  has_children h m d all → all = ks1 ++ k :: ks2 → it_at h (m_children d) name (k :: ks2) (m_it d) →
  (length ks2 + 1 < fuel)%nat →
  ∃ h', collect_from fuel m (Some k.1) h =
        Some (k.1 :: (filter (fun k => wanted name k = true) ks2).*1, h') ∧ same_but_it h h' m d.
Proof.
  revert h d ks1 k ks2. induction fuel as [|fuel IH]; intros h d ks1 k ks2 Hc E Hi Hf; [lia|].
  cbn [collect_from]. unfold metadata_get_next at 1.
  destruct (iterator_next_run h m d all Hc ks1 k ks2 (m_it d) name E Hi) as (r & it & En & Hit).
  assert (Hend : bool_decide (it_head (m_it d) = None) || metadata_iterator_is_at_end (m_it d) = false).
  { destruct Hi as (_ & I2 & I3 & _). unfold metadata_iterator_is_at_end. rewrite I2, I3. cbn [fmap list_fmap hd].
    rewrite !bool_decide_eq_false_2; [done| |done]. intros [= E']. by apply (not_head h m d all Hc _ _ _ E). }
  set (h1 := MHeap (mh_cells h) (<[m := with_it d it]> (mh_nodes h)) (mh_mallocs h)).
  assert (Hin : ∀ k' ks', drop_until name ks2 = k' :: ks' → k' ∈ all).
  { intros k' ks' Ed. destruct (drop_until_suffix name ks2) as [l El]. rewrite E, El, Ed. set_solver. }
  assert (Estep : (d ← get_node m; if bool_decide (it_head (m_it d) = None) || metadata_iterator_is_at_end (m_it d)
                   then mret None else '(_, it) ← metadata_iterator_next (m_it d);
                        _ ← set_node m (with_it d it); mret (metadata_iterator_deref it)) h =
                  Some (fst <$> hd_error (drop_until name ks2), h1)).
  { rewrite (bind_run _ _ _ _ _ (get_node_run _ _ _ (ch_node _ _ _ _ Hc))), Hend, (bind_run _ _ _ _ _ En).
    rewrite (bind_run _ _ _ _ _ (set_node_run _ _ _ _ (ch_node _ _ _ _ Hc))).
    by rewrite (deref_run h m d all Hc name _ _ Hit Hin). }
  rewrite (bind_run _ _ _ _ _ Estep).
  assert (Hc1 : has_children h1 m (with_it d it) all) by (by apply (has_children_it h)).
  rewrite drop_until_filter. destruct (drop_until name ks2) as [|k2 ks3] eqn:Ed; cbn [hd_error fmap option_fmap option_map].
  - destruct fuel as [|fuel]; [simpl in Hf; lia|]. exists h1. split; [done|]. split; [done|by exists it].
  - destruct (drop_until_suffix name ks2) as [l El]. rewrite Ed in El.
    destruct (IH h1 (with_it d it) (ks1 ++ k :: l) k2 ks3 Hc1) as (h2 & E2 & Hs2).
    + rewrite E, El. by rewrite <- app_assoc.
    + exact Hit.
    + apply (f_equal length) in El. rewrite length_app in El. simpl in El. lia.
    + exists h2. split; [by rewrite (bind_run _ _ _ _ _ E2)|]. destruct Hs2 as [Hcl [it2 Hn2]].
      split; [done|]. exists it2. rewrite Hn2. cbn [h1 mh_nodes]. by rewrite insert_insert_eq.
Qed.

Lemma iteration_run (malloc_ok : nat → bool) h m d all name :
  (∀ n, malloc_ok n = true) → has_children h m d all →
  ∃ h', children_named malloc_ok m name h =
        Some ((filter (fun k => wanted (effective name) k = true) all).*1, h') ∧ same_but_it h h' m d.
Proof.
  intros Hmalloc Hc. unfold children_named, metadata_get.
  assert (Hinit : ∃ it n, metadata_iterator_init malloc_ok (m_it d) (m_children d) name h =
                          Some (it, MHeap (mh_cells h) (mh_nodes h) n) ∧
                          it_at h (m_children d) (effective name) (drop_until (effective name) all) it).
  { unfold metadata_iterator_init. rewrite (bind_run _ _ _ _ _ (mfrom_run h _ _ (head_next h m d all Hc))).
    destruct (tmp_run h m d all Hc [] all eq_refl) as (t & Et & Ht). rewrite (bind_run _ _ _ _ _ (mfrom_run h _ _ Et)).
    destruct name as [name|]; cbn [effective]; [destruct (strlen name >? 0)|].
    - rewrite (bind_run _ _ _ true (MHeap (mh_cells h) (mh_nodes h) (S (mh_mallocs h)))) by (unfold mmalloc; by rewrite Hmalloc).
      cbn [negb]. set (h1 := MHeap _ _ _).
      assert (Hc1 : has_children h1 m d all) by (destruct Hc; by split).
      destruct (init_loop_run h1 m d all Hc1 (loop_fuel (mh_cells h1)) [] all
        (It (Some name) (Some (m_children d)) t (Some (hd (m_children d) (all.*1)))) name eq_refl) as (it & E & Hi);
        [by split_and!|apply (fuel_enough h1 m d all Hc1)|].
      exists it, (S (mh_mallocs h)). rewrite (bind_run _ _ _ (loop_fuel (mh_cells h1)) h1) by done. by split.
    - rewrite drop_until_None. destruct h. eexists _, _. split; [reflexivity|]. by split_and!.
    - rewrite drop_until_None. destruct h. eexists _, _. split; [reflexivity|]. by split_and!. }
  destruct Hinit as (it & n & Ei & Hi).
  set (h0 := MHeap (mh_cells h) (mh_nodes h) n). set (h1 := MHeap (mh_cells h) (<[m := with_it d it]> (mh_nodes h)) n).
  assert (Hin : ∀ k ks, drop_until (effective name) all = k :: ks → k ∈ all).
  { intros k ks Ed. destruct (drop_until_suffix (effective name) all) as [l El]. rewrite El, Ed. set_solver. }
  assert (Eget : (d ← get_node m; it ← metadata_iterator_init malloc_ok (m_it d) (m_children d) name;
                  _ ← set_node m (with_it d it); mret (metadata_iterator_deref it)) h =
                 Some (fst <$> hd_error (drop_until (effective name) all), h1)).
  { rewrite (bind_run _ _ _ _ _ (get_node_run _ _ _ (ch_node _ _ _ _ Hc))), (bind_run _ _ _ _ _ Ei).
    rewrite (bind_run _ _ _ _ _ (set_node_run h0 _ _ _ (ch_node _ _ _ _ Hc))).
    by rewrite (deref_run h m d all Hc _ _ _ Hi Hin). }
  rewrite (bind_run _ _ _ _ _ Eget), (bind_run _ _ _ (loop_fuel (mh_cells h)) h1) by done.
  assert (Hc1 : has_children h1 m (with_it d it) all) by (by apply (has_children_it h)).
  pose proof (fuel_enough h m d all Hc) as Hf.
  rewrite drop_until_filter. destruct (drop_until_suffix (effective name) all) as [l El].
  destruct (drop_until (effective name) all) as [|k ks]; cbn [hd_error fmap option_fmap option_map].
  - unfold loop_fuel. cbn [collect_from]. exists h1. split; [done|]. split; [done|by exists it].
  - destruct (collect_run (loop_fuel (mh_cells h)) h1 m (with_it d it) all l k ks (effective name) Hc1 El Hi) as (h2 & E2 & [Hc2 [it2 Hn2]]).
    + rewrite El in Hf. rewrite length_app in Hf. simpl in Hf. lia.
    + exists h2. split; [done|]. split; [done|]. exists it2. rewrite Hn2. cbn [h1 mh_nodes]. by rewrite insert_insert_eq.
Qed.

(** Looping over a node with [metadata_get] and [metadata_get_next] visits, in
    order, exactly its children with the given name (all of them for NULL or the empty
    name), terminates, and changes nothing but the iterator of the node. *)
Theorem metadata_iteration (malloc_ok : nat → bool) h m d all name :
  (∀ n, malloc_ok n = true) → has_children h m d all →
  ∃ h', children_named malloc_ok m name h =
        Some ((filter (fun k => wanted (effective name) k = true) all).*1, h') ∧ same_but_it h h' m d.
Proof. apply iteration_run. Qed.

(** ** Adding and detaching *)

Lemma mon_cells_run {A} (f : cells → option (A * cells)) h r c :
  f (mh_cells h) = Some (r, c) → mon_cells f h = Some (r, MHeap c (mh_nodes h) (mh_mallocs h)).
Proof. intros E. unfold mon_cells. by rewrite E. Qed.

Lemma detach_run h c d cl :
  mh_nodes h !! c = Some d → list_detach (Some c) (mh_cells h) = Some (LIST_SUCCESS, cl) →
  metadata_detach (Some c) h =
  Some (HAGGLE_NO_ERROR, MHeap cl (<[c := with_parent d None]> (mh_nodes h)) (mh_mallocs h)).
Proof.
  intros En El. unfold metadata_detach. rewrite (bind_run _ _ _ _ _ (mon_cells_run _ _ _ _ El)).
  set (h1 := MHeap cl _ _). rewrite (bind_run _ _ _ d h1) by (by apply get_node_run).
  by rewrite (bind_run _ _ _ _ _ (set_node_run h1 c d _ En)).
Qed.

(** A node that is in no list of children. *)
Definition loose (h : mheap) (c : loc) : Prop := mh_cells h !! c = Some (Cell (Some c) (Some c)).

Lemma add_run h p d all c dc name :
  has_children h p d all → mh_nodes h !! c = Some dc → m_name dc = Some name → loose h c →
  c ∉ p :: m_children d :: all.*1 →
  ∃ cl, metadata_add (Some p) (Some c) h =
        Some (HAGGLE_NO_ERROR, MHeap cl (<[c := with_parent dc (Some p)]> (mh_nodes h)) (mh_mallocs h)) ∧
        is_list cl (m_children d) (all.*1 ++ [c]) ∧
        (∀ x, x ∉ m_children d :: c :: all.*1 → cl !! x = mh_cells h !! x).
Proof.
  intros [Hn Hr Hnm Hs] Ec Enm Hl Hni. rewrite !not_elem_of_cons in Hni. destruct Hni as (Hcp & Hch & Hca).
  unfold metadata_add. rewrite (bind_run _ _ _ _ _ (detach_run h c dc _ Ec (list_detach_self _ _ Hl))).
  set (h1 := MHeap _ _ _).
  assert (E1 : mh_nodes h1 !! c = Some (with_parent dc None)) by (cbn; by rewrite lookup_insert_eq).
  rewrite (bind_run _ _ _ _ _ (get_node_run h1 _ _ E1)), (bind_run _ _ _ _ _ (set_node_run h1 _ _ _ E1)).
  set (h2 := MHeap _ _ _).
  assert (E2 : mh_nodes h2 !! p = Some d) by (cbn; by rewrite !lookup_insert_ne by done).
  rewrite (bind_run _ _ _ _ _ (get_node_run h2 _ _ E2)).
  destruct (list_add_tail_spec (mh_cells h2) (m_children d) (all.*1) [] c) as (cl & El & Hr' & _ & F).
  - rewrite app_nil_r. eapply is_list_frame; [|exact Hr]. intros x Hx. cbn.
    rewrite lookup_insert_ne; [done|]. intros <-. set_solver.
  - apply elem_of_dom. cbn. by rewrite lookup_insert_eq.
  - rewrite app_nil_r. set_solver.
  - rewrite app_nil_r in F. rewrite (bind_run _ _ _ _ _ (mon_cells_run _ h2 _ _ El)). exists cl. split_and!.
    + unfold mret, M_ret, h2, h1. cbn [mh_nodes mh_mallocs]. by rewrite insert_insert_eq.
    + done.
    + intros x Hx. rewrite F by done. cbn. rewrite lookup_insert_ne by set_solver. done.
Qed.

(** The heap with a new, loose node. *)
Definition new_heap (h : mheap) (m ch : loc) (d : metadata) (n : nat) : mheap :=
  MHeap (<[m := Cell (Some m) (Some m)]> (<[ch := Cell (Some ch) (Some ch)]> (mh_cells h))) (<[m := d]> (mh_nodes h)) n.

Lemma fresh_facts h : ∃ ch, new_node_struct h = Some (mfresh h, new_heap h (mfresh h) ch
    (Meta (It None None None None) None None None [] ch) (mh_mallocs h)) ∧
  ch ≠ mfresh h ∧ mh_cells h !! mfresh h = None ∧ mh_nodes h !! mfresh h = None ∧
  mh_cells h !! ch = None ∧ mh_nodes h !! ch = None.
Proof.
  eexists. split; [reflexivity|]. unfold mfresh.
  pose proof (is_fresh (dom (mh_cells h) ∪ dom (mh_nodes h))) as H.
  rewrite !not_elem_of_union, !not_elem_of_dom in H. destruct H as [H1 H2].
  match goal with |- fresh ?X ≠ _ ∧ _ => pose proof (is_fresh X) as H end.
  rewrite !not_elem_of_union, !not_elem_of_dom in H. destruct H as [[H3 H4] H5].
  split_and!; [|done..]. set_solver.
Qed.

(** The node that [metadata_new] makes. *)
Definition fresh_meta (name content : option string) (parent : option loc) (ch : loc) : metadata :=
  Meta (It None None None None) parent name content [] ch.

Lemma new_run malloc_ok h name content :
  (∀ n, malloc_ok n = true) →
  ∃ m ch n, ch ≠ m ∧ mh_cells h !! m = None ∧ mh_nodes h !! m = None ∧ mh_cells h !! ch = None ∧ mh_nodes h !! ch = None ∧
    let h1 := new_heap h m ch (fresh_meta name content None ch) n in
    (∀ parent, metadata_new malloc_ok name content parent h =
      (match parent with
       | Some _ => _ ← metadata_add parent (Some m); mret (Some m)
       | None => d ← get_node m; _ ← set_node m (with_parent d (Some m)); mret (Some m)
       end) h1).
Proof.
  intros Hmalloc. unfold metadata_new.
  set (h0 := MHeap (mh_cells h) (mh_nodes h) (S (mh_mallocs h))).
  destruct (fresh_facts h0) as (ch & En & Hch & F1 & F2 & F3 & F4). exists (mfresh h0), ch. set (m := mfresh h0) in *.
  assert (Hm : ∀ h, mmalloc malloc_ok h = Some (true, MHeap (mh_cells h) (mh_nodes h) (S (mh_mallocs h))))
    by (intros; unfold mmalloc; by rewrite Hmalloc).
  assert (Hset : ∀ n c k, ∃ k', metadata_set_name malloc_ok (Some m) n (new_heap h m ch (fresh_meta None c None ch) k) =
                        Some (n, new_heap h m ch (fresh_meta n c None ch) k')).
  { intros n c k. unfold metadata_set_name. destruct n as [n|]; [|by exists k].
    rewrite (bind_run _ _ _ _ _ (Hm _)). cbn [negb]. exists (S k).
    rewrite (bind_run _ _ _ (fresh_meta None c None ch) (new_heap h m ch (fresh_meta None c None ch) (S k)))
      by (apply get_node_run; cbn; by rewrite lookup_insert_eq).
    rewrite (bind_run _ _ _ tt (new_heap h m ch (fresh_meta (Some n) c None ch) (S k))); [done|].
    unfold set_node, modify, new_heap. cbn [mh_nodes mh_cells mh_mallocs]. rewrite lookup_insert_eq. cbn [mbind option_bind].
    by rewrite insert_insert_eq. }
  assert (Hsetc : ∀ n c k, ∃ k', metadata_set_content malloc_ok (Some m) c (new_heap h m ch (fresh_meta n None None ch) k) =
                        Some (c, new_heap h m ch (fresh_meta n c None ch) k')).
  { intros n c k. unfold metadata_set_content. destruct c as [c|]; [|by exists k].
    rewrite (bind_run _ _ _ _ _ (Hm _)). cbn [negb]. exists (S k).
    rewrite (bind_run _ _ _ (fresh_meta n None None ch) (new_heap h m ch (fresh_meta n None None ch) (S k)))
      by (apply get_node_run; cbn; by rewrite lookup_insert_eq).
    rewrite (bind_run _ _ _ tt (new_heap h m ch (fresh_meta n (Some c) None ch) (S k))); [done|].
    unfold set_node, modify, new_heap. cbn [mh_nodes mh_cells mh_mallocs]. rewrite lookup_insert_eq. cbn [mbind option_bind].
    by rewrite insert_insert_eq. }
  destruct (Hset name None (S (mh_mallocs h0))) as [k1 E1]. destruct (Hsetc name content k1) as [k2 E2].
  exists k2. split_and!; [done..|]. intros parent.
  rewrite (bind_run _ _ _ true h0) by (apply Hm). cbn [negb].
  rewrite (bind_run _ _ _ _ _ En), (bind_run _ _ _ _ _ (Hm _)). cbn [negb].
  change (MHeap _ _ _) with (new_heap h m ch (fresh_meta None None None ch) (S (mh_mallocs h0))).
  by rewrite (bind_run _ _ _ _ _ E1), (bind_run _ _ _ _ _ E2).
Qed.

(** [metadata_new] under a parent answers a new node, with the name and content
    given, no parameters and no children, that becomes the last child of the parent;
    the other nodes and the other children are as before. *)
Theorem metadata_new_spec malloc_ok h p d all name content :
  (∀ n, malloc_ok n = true) → has_children h p d all → m_children d ≠ p →
  ∃ m h' dm, metadata_new malloc_ok (Some name) content (Some p) h = Some (Some m, h') ∧
    mh_nodes h !! m = None ∧ has_children h' p d (all ++ [(m, name)]) ∧ has_children h' m dm [] ∧
    m_parent dm = Some p ∧ m_name dm = Some name ∧ m_content dm = content ∧ m_params dm = [] ∧
    (∀ x, x ≠ m → mh_nodes h' !! x = mh_nodes h !! x).
Proof.
  intros Hmalloc Hc Hdp. destruct (new_run malloc_ok h (Some name) content Hmalloc) as (m & ch & n & Hchm & F1 & F2 & F3 & F4 & E).
  set (h1 := new_heap h m ch (fresh_meta (Some name) content None ch) n) in *.
  assert (Hdom : ∀ x, x ∈ m_children d :: all.*1 → x ≠ m ∧ x ≠ ch).
  { intros x Hx. assert (Hx' : is_Some (mh_cells h !! x)).
    { apply elem_of_dom. destruct (ch_ring _ _ _ _ Hc) as [Hl _]. by eapply linked_dom. }
    destruct Hx' as [e He]. split; intros ->; congruence. }
  assert (Hpm : p ≠ m) by (intros ->; pose proof (ch_node _ _ _ _ Hc); congruence).
  assert (Hc1 : has_children h1 p d all).
  { destruct Hc as [Hn Hr Hnm Hs]. split; [| | |done].
    - cbn. by rewrite lookup_insert_ne.
    - eapply is_list_frame; [|exact Hr]. intros x Hx. destruct (Hdom x Hx). cbn. by rewrite !lookup_insert_ne.
    - apply Forall_forall. intros k Hk. destruct (proj1 (Forall_forall _ _) Hnm k Hk) as (e & Ee & En).
      exists e. cbn. rewrite lookup_insert_ne; [done|]. intros Ex. congruence. }
  destruct (add_run h1 p d all m (fresh_meta (Some name) content None ch) name Hc1) as (cl & Ea & Hr' & F).
  - cbn. by rewrite lookup_insert_eq.
  - done.
  - unfold loose. cbn. by rewrite lookup_insert_eq.
  - rewrite !not_elem_of_cons. split_and!; [congruence|intros Ex; destruct (Hdom m); [rewrite Ex; by left|done]|].
    intros Hin. destruct (Hdom m); [by right|done].
  - eexists m, _, (fresh_meta (Some name) content (Some p) ch). rewrite E.
    split_and!; [by rewrite (bind_run _ _ _ _ _ Ea)|done| | |done|done|done|done|].
    + destruct Hc1 as [Hn Hr Hnm Hs]. split; cbn [mh_nodes mh_cells].
      * by rewrite lookup_insert_ne.
      * rewrite fmap_app. done.
      * apply Forall_app. split.
        -- apply Forall_forall. intros k Hk. destruct (proj1 (Forall_forall _ _) Hnm k Hk) as (e & Ee & En).
           exists e. destruct (decide (k.1 = m)) as [Ek|]; [|by rewrite lookup_insert_ne].
           destruct (Hdom k.1); [|done]. right. by apply list_elem_of_fmap_2.
        -- constructor; [|constructor]. eexists. cbn. by rewrite lookup_insert_eq.
      * rewrite fmap_app, not_elem_of_app. split; [done|]. set_solver.
    + split; cbn [mh_nodes mh_cells].
      * by rewrite lookup_insert_eq.
      * assert (Ech : cl !! ch = Some (Cell (Some ch) (Some ch))).
        { rewrite F; [cbn; by rewrite lookup_insert_ne, lookup_insert_eq by done|].
          intros Hx. apply elem_of_cons in Hx as [Ex|Hx]; [destruct (Hdom ch); [set_solver|done]|].
          apply elem_of_cons in Hx as [Ex|Hx]; [done|]. destruct (Hdom ch); [by right|done]. }
        split; [|apply NoDup_singleton]. cbn. unfold link, nxt, prv. by rewrite Ech.
      * constructor.
      * set_solver.
    + intros x Hx. cbn. by rewrite !lookup_insert_ne.
Qed.

(** Detaching a child takes it, and only it, out of its parent's list; but its
    links are then NULL, so detaching, adding or freeing it afterwards dereferences
    NULL, although [metadata_add] begins by detaching "from any previous parent". *)
Theorem metadata_detach_spec h p d ks1 k ks2 :
  has_children h p d (ks1 ++ k :: ks2) →
  ∃ h', metadata_detach (Some k.1) h = Some (HAGGLE_NO_ERROR, h') ∧ has_children h' p d (ks1 ++ ks2) ∧
        metadata_detach (Some k.1) h' = None ∧ (∀ q, metadata_add (Some q) (Some k.1) h' = None) ∧
        (∀ fuel, metadata_free fuel (Some k.1) h' = None).
Proof.
  intros [Hn Hr Hnm Hs]. rewrite fmap_app, fmap_cons in *.
  destruct (list_detach_ring _ _ _ _ _ Hr) as (cl & El & Hr' & _ & Ek & F).
  apply Forall_app in Hnm as [Hnm1 Hnm2]. apply Forall_cons in Hnm2 as [(e & Ee & Een) Hnm2].
  assert (Hpk : p ≠ k.1) by set_solver.
  eexists. split; [by apply (detach_run h k.1 e)|].
  pose proof (proj2 Hr) as Hnd. apply NoDup_insert in Hnd as [Hni _]. rewrite <- fmap_app in Hni.
  assert (Hdet : ∀ {B} (f : Z → MM B) n,
    (metadata_detach (Some k.1) ≫= f) (MHeap cl (<[k.1 := with_parent e None]> (mh_nodes h)) n) = None).
  { intros B f n. unfold mbind, M_bind, metadata_detach, mon_cells, mbind, M_bind. cbn [mh_cells].
    by rewrite list_detach_null. }
  split_and!.
  - split; cbn [mh_nodes mh_cells]; [by rewrite lookup_insert_ne|by rewrite fmap_app| |rewrite fmap_app; set_solver].
    apply Forall_app. split; apply Forall_forall; intros x Hx.
    + destruct (proj1 (Forall_forall _ _) Hnm1 x Hx) as (e' & E' & N'). exists e'. rewrite lookup_insert_ne; [done|].
      assert (Hx' : x.1 ∈ (ks1 ++ ks2).*1) by (apply list_elem_of_fmap_2; set_solver).
      intros Ex. apply Hni. rewrite Ex. by right.
    + destruct (proj1 (Forall_forall _ _) Hnm2 x Hx) as (e' & E' & N'). exists e'. rewrite lookup_insert_ne; [done|].
      assert (Hx' : x.1 ∈ (ks1 ++ ks2).*1) by (apply list_elem_of_fmap_2; set_solver).
      intros Ex. apply Hni. rewrite Ex. by right.
  - unfold metadata_detach, mon_cells, mbind, M_bind. cbn [mh_cells]. by rewrite list_detach_null.
  - intros q. unfold metadata_add. apply Hdet.
  - intros [|fuel]; [done|]. cbn [metadata_free]. apply Hdet.
Qed.

(** ** Freeing a tree *)

(** The addresses of a tree: its node, the head of its children, the children. *)
Inductive mtree := MT (p ch : loc) (kids : list mtree).

Definition t_loc (t : mtree) : loc := let 'MT p _ _ := t in p.
Fixpoint t_size (t : mtree) : nat := let 'MT _ _ kids := t in S (list_sum (map t_size kids)).
Fixpoint t_nodes (t : mtree) : list loc := let 'MT p _ kids := t in p :: concat (map t_nodes kids).
Fixpoint t_cells (t : mtree) : list loc := let 'MT p ch kids := t in p :: ch :: concat (map t_cells kids).

Fixpoint is_tree (h : mheap) (t : mtree) : Prop :=
  let 'MT p ch kids := t in
  (∃ d, mh_nodes h !! p = Some d ∧ m_children d = ch) ∧ is_list (mh_cells h) ch (map t_loc kids) ∧
  foldr (fun k P => is_tree h k ∧ P) True kids.

Lemma mtree_ind' (P : mtree → Prop) :
  (∀ p ch kids, Forall P kids → P (MT p ch kids)) → ∀ t, P t.
Proof.
  intros H. fix IH 1. intros [p ch kids]. apply H. induction kids as [|k kids IHk]; constructor; [apply IH|apply IHk].
Qed.

Lemma kids_forall h kids : foldr (fun k P => is_tree h k ∧ P) True kids ↔ Forall (is_tree h) kids.
Proof. induction kids as [|k kids IH]; simpl; [done|]. by rewrite IH, Forall_cons. Qed.

Lemma t_nodes_cells t x : x ∈ t_nodes t → x ∈ t_cells t.
Proof.
  revert x. induction t as [p ch kids IH] using mtree_ind'. intros x. simpl. rewrite !elem_of_cons.
  intros [->|Hx]; [by left|]. right. right.
  induction IH as [|k kids Hk _ IHk]; simpl in *; [done|]. rewrite elem_of_app in *. naive_solver.
Qed.

Lemma t_loc_in t : t_loc t ∈ t_nodes t.
Proof. destruct t. simpl. by left. Qed.

Lemma concat_in {A} (f : mtree → list A) kids k x : k ∈ kids → x ∈ f k → x ∈ concat (map f kids).
Proof. induction 1; simpl; rewrite elem_of_app; auto. Qed.

Lemma is_tree_frame h h' t :
  (∀ x, x ∈ t_cells t → x ≠ t_loc t → mh_cells h' !! x = mh_cells h !! x) →
  (∀ x, x ∈ t_nodes t → mh_nodes h' !! x = mh_nodes h !! x) →
  NoDup (t_cells t) → is_tree h t → is_tree h' t.
Proof.
  revert h h'. induction t as [p ch kids IH] using mtree_ind'. intros h h' Fc Fn Hnd (Hd & Hr & Hk). simpl in *.
  apply NoDup_cons in Hnd as [Hp Hnd]. apply NoDup_cons in Hnd as [Hch Hnd]. split_and!.
  - destruct Hd as (d & Ed & E). exists d. rewrite Fn; [done|by left].
  - eapply is_list_frame; [|exact Hr]. intros x Hx.
    apply elem_of_cons in Hx as [->|(k & -> & Hk')%list_elem_of_fmap]; [apply Fc; [set_solver|intros ->; set_solver]|].
    pose proof (concat_in t_cells kids k _ Hk' (t_nodes_cells _ _ (t_loc_in k))).
    apply Fc; [set_solver|]. intros E. rewrite E in *. set_solver.
  - rewrite kids_forall in *. rewrite Forall_forall in *. intros k Hin.
    assert (Hkc : ∀ x, x ∈ t_cells k → x ∈ concat (map t_cells kids)) by (intros; by eapply concat_in).
    eapply IH; [done| | | |by apply Hk].
    + intros x Hx _. pose proof (Hkc x Hx). apply Fc; [set_solver|]. intros ->. set_solver.
    + intros x Hx. apply Fn. right. by eapply concat_in.
    + clear -Hnd Hin. induction Hin as [k kids|k k2 kids Hin IHk]; simpl in Hnd; apply NoDup_app in Hnd as (? & ? & ?); auto.
Qed.

(** What is left after freeing the tree [t] that hung on the ring of [q]. *)
Record freed (h h' : mheap) (t : mtree) (q : loc) (xs : list loc) : Prop :=
  { fr_cells : ∀ x, x ∈ t_cells t → mh_cells h' !! x = None;
    fr_nodes : ∀ x, x ∈ t_nodes t → mh_nodes h' !! x = None;
    fr_other_nodes : ∀ x, x ∉ t_nodes t → mh_nodes h' !! x = mh_nodes h !! x;
    fr_other_cells : ∀ x, x ∉ t_cells t → x ∉ q :: xs → mh_cells h' !! x = mh_cells h !! x;
    fr_ring : is_list (mh_cells h') q xs }.

Definition free_ok (t : mtree) : Prop := ∀ fuel h q xs ys,
  (t_size t < fuel)%nat → is_tree h t → NoDup (t_cells t) →
  is_list (mh_cells h) q (xs ++ t_loc t :: ys) → (∀ x, x ∈ q :: xs ++ ys → x ∉ t_cells t) →
  ∃ h', metadata_free fuel (Some (t_loc t)) h = Some (tt, h') ∧ freed h h' t q (xs ++ ys).

(** The loop that frees the children: all trees of a list whose roots make up a ring. *)
Lemma free_children_run fuel n h ch kids :
  Forall free_ok kids → Forall (fun k => (t_size k < fuel)%nat) kids → (length kids < n)%nat →
  is_list (mh_cells h) ch (map t_loc kids) → Forall (is_tree h) kids → NoDup (ch :: concat (map t_cells kids)) →
  ∃ h', while_children n ch (metadata_free fuel) h = Some (tt, h') ∧
    (∀ x, x ∈ concat (map t_cells kids) → mh_cells h' !! x = None) ∧
    (∀ x, x ∈ concat (map t_nodes kids) → mh_nodes h' !! x = None) ∧
    (∀ x, x ∉ concat (map t_nodes kids) → mh_nodes h' !! x = mh_nodes h !! x) ∧
    (∀ x, x ∉ ch :: concat (map t_cells kids) → mh_cells h' !! x = mh_cells h !! x) ∧
    is_list (mh_cells h') ch [].
Proof.
  revert n h. induction kids as [|k kids IH]; intros n h Hok Hsz Hn Hr Ht Hnd; (destruct n as [|n]; [simpl in Hn; lia|]);
    cbn [while_children].
  - exists h. simpl in *. rewrite (bind_run _ _ _ true h).
    2:{ apply mfrom_run. unfold list_empty. pose proof (list_first_spec _ _ _ Hr) as E. unfold list_first in E.
        rewrite E. cbn. by rewrite bool_decide_eq_true_2. }
    split_and!; try done; intros x Hx; by apply not_elem_of_nil in Hx.
  - apply Forall_cons in Hok as [Hk Hok]. apply Forall_cons in Hsz as [Hs1 Hsz]. apply Forall_cons in Ht as [Ht1 Ht].
    simpl map in *. simpl concat in *. pose proof (list_first_spec _ _ _ Hr) as Ef. cbn [hd] in Ef.
    assert (Hkc : ∀ x, x ∈ map t_loc kids → x ∈ concat (map t_cells kids)).
    { intros x (k' & -> & Hk')%list_elem_of_fmap. eapply concat_in; [done|]. apply t_nodes_cells, t_loc_in. }
    apply NoDup_cons in Hnd as [Hch Hnd]. pose proof Hnd as Hnd'. apply NoDup_app in Hnd' as (Hnk & Hdis & Hnd2).
    assert (Hne : t_loc k ≠ ch).
    { intros E. apply Hch. rewrite <- E. apply elem_of_app. left. apply t_nodes_cells, t_loc_in. }
    rewrite (bind_run _ _ _ false h).
    2:{ apply mfrom_run. unfold list_empty. unfold list_first in Ef. rewrite Ef. cbn.
        rewrite bool_decide_eq_false_2; congruence. }
    rewrite (bind_run _ _ _ _ _ (mfrom_run _ _ _ Ef)).
    destruct (Hk fuel h ch [] (map t_loc kids)) as (h1 & E1 & [C1 N1 ON1 OC1 R1]); [done..|exact Hr| |].
    { intros x Hx. apply elem_of_cons in Hx as [->|Hx]; [set_solver|]. intros Hx'. by apply (Hdis x), Hkc. }
    rewrite (bind_run _ _ _ _ _ E1).
    assert (Hoc : ∀ x, x ∈ concat (map t_cells kids) → x ∉ t_cells k) by (intros x Hx Hx'; by apply (Hdis x)).
    assert (Hin : ∀ k', k' ∈ kids → ∀ x, x ∈ t_cells k' → x ∈ concat (map t_cells kids)) by (intros; by eapply concat_in).
    assert (Hnn : ∀ k', k' ∈ kids → NoDup (t_cells k')).
    { clear -Hnd2. intros k' Hin. induction Hin as [k0 kids|k0 k2 kids Hin IHk]; simpl in Hnd2;
        apply NoDup_app in Hnd2 as (? & ? & ?); auto. }
    assert (Hroot : ∀ k', k' ∈ kids → ∀ x, x ∈ t_cells k' → x ≠ t_loc k' → x ∉ map t_loc kids).
    { clear -Hnd2. intros k' Hin. induction Hin as [k0 kids|k0 k2 kids Hin IHk]; simpl in Hnd2; intros x Hx Hne Hx'.
      - apply NoDup_app in Hnd2 as (_ & Hd & _). simpl in Hx'. apply elem_of_cons in Hx' as [|Hx']; [done|].
        apply (Hd x Hx). apply list_elem_of_fmap in Hx' as (k' & -> & Hk'). eapply concat_in; [done|]. apply t_nodes_cells, t_loc_in.
      - apply NoDup_app in Hnd2 as (_ & Hd & Hnd2). simpl in Hx'. apply elem_of_cons in Hx' as [->|Hx'].
        + apply (Hd (t_loc k2)); [apply t_nodes_cells, t_loc_in|]. by eapply concat_in.
        + by apply (IHk Hnd2 x Hx Hne). }
    destruct (IH n h1) as (h2 & E2 & C2 & N2 & ON2 & OC2 & R2); [done|done|simpl in Hn; lia|exact R1| |by apply NoDup_cons; set_solver|].
    { apply Forall_forall. intros k' Hk'. eapply is_tree_frame; [| |by apply Hnn|by apply (proj1 (Forall_forall _ _) Ht)].
      - intros x Hx Hxr. apply OC1; [apply Hoc; by eapply Hin|]. apply not_elem_of_cons. split.
        + intros ->. apply Hch. apply elem_of_app. right. by eapply Hin.
        + simpl. by eapply Hroot.
      - intros x Hx. apply ON1. intros Hx'. apply (Hdis x); [by apply t_nodes_cells|].
        eapply Hin; [done|]. by apply t_nodes_cells. }
    exists h2. rewrite E2. split_and!; [done|..]; try done.
    + intros x Hx. apply elem_of_app in Hx as [Hx|Hx]; [|by apply C2]. rewrite OC2; [by apply C1|].
      apply not_elem_of_cons. split; [intros ->; set_solver|]. intros Hx'. by apply (Hoc x).
    + intros x Hx. destruct (decide (x ∈ concat (map t_nodes kids))) as [Hx2|Hx2]; [by apply N2|].
      rewrite ON2 by done. apply N1. set_solver.
    + intros x Hx. rewrite not_elem_of_app in Hx. rewrite ON2, ON1 by tauto. done.
    + intros x Hx. rewrite not_elem_of_cons, not_elem_of_app in Hx. destruct Hx as (Hx1 & Hx2 & Hx3).
      rewrite OC2 by (apply not_elem_of_cons; tauto). apply OC1; [done|]. apply not_elem_of_cons. split; [done|].
      simpl. intros Hx. by apply Hx3, Hkc.
Qed.

Lemma size_kids fuel kids :
  (S (list_sum (map t_size kids)) < S fuel)%nat → Forall (fun k => (t_size k < fuel)%nat) kids ∧ (length kids < fuel)%nat.
Proof.
  intros H. assert (Hp : ∀ t, (1 <= t_size t)%nat) by (intros [? ? ?]; simpl; lia). revert fuel H.
  induction kids as [|k kids IH]; intros fuel H; simpl in *; [split; [constructor|lia]|].
  pose proof (Hp k). destruct (IH (fuel - t_size k)%nat) as [IH1 IH2]; [lia|]. split; [|lia].
  constructor; [lia|]. eapply Forall_impl; [exact IH1|]. simpl. lia.
Qed.

Lemma free_tree_ok t : free_ok t.
Proof.
  induction t as [p ch kids IH] using mtree_ind'. intros fuel h q xs ys Hf (Hd & Hr & Hk) Hnd Hq Hdis.
  destruct fuel as [|fuel]; [lia|]. destruct (size_kids fuel kids) as [Hs1 Hs2]; [simpl in Hf; lia|].
  destruct Hd as (d & Ed & Ech). simpl t_loc in *. simpl t_cells in *.
  destruct (list_detach_ring _ _ _ _ _ Hq) as (cl & El & Hq' & _ & Ep & F).
  cbn [metadata_free]. rewrite (bind_run _ _ _ _ _ (detach_run h p d cl Ed El)).
  set (h1 := MHeap cl _ _).
  assert (Ep1 : mh_nodes h1 !! p = Some (with_parent d None)) by (cbn; by rewrite lookup_insert_eq).
  rewrite (bind_run _ _ _ _ _ (get_node_run h1 _ _ Ep1)). cbn [with_parent m_children]. rewrite Ech.
  pose proof Hnd as Hnd0. apply NoDup_cons in Hnd as [Hp Hnd]. apply not_elem_of_cons in Hp as [Hpch Hp].
  assert (Fc : ∀ x, x ∈ ch :: concat (map t_cells kids) → cl !! x = mh_cells h !! x).
  { intros x Hx. apply F. intros Hx'. apply (Hdis x); [|by right].
    assert (x ≠ p) by (intros ->; apply elem_of_cons in Hx as [|]; done).
    clear -Hx' H. set_solver. }
  assert (Hkc : ∀ k, k ∈ kids → ∀ x, x ∈ t_cells k → x ∈ concat (map t_cells kids)) by (intros; by eapply concat_in).
  assert (Hkn : ∀ k, k ∈ kids → ∀ x, x ∈ t_nodes k → x ∈ concat (map t_cells kids)) by (intros; eapply Hkc; [done|by apply t_nodes_cells]).
  assert (Hnn : ∀ k', k' ∈ kids → NoDup (t_cells k')).
  { apply NoDup_cons in Hnd as [_ Hnd2]. clear -Hnd2. intros k' Hin.
    induction Hin as [k0 kids|k0 k2 kids Hin IHk]; simpl in Hnd2; apply NoDup_app in Hnd2 as (? & ? & ?); auto. }
  destruct (free_children_run fuel fuel h1 ch kids) as (h2 & E2 & C2 & N2 & ON2 & OC2 & R2); [done..| | |done|].
  { eapply is_list_frame; [|exact Hr]. intros x Hx. apply Fc. apply elem_of_cons in Hx as [->|Hx]; [by left|]. right.
    apply list_elem_of_fmap in Hx as (k & -> & Hin). eapply Hkn; [done|apply t_loc_in]. }
  { rewrite kids_forall, Forall_forall in Hk. apply Forall_forall. intros k Hin.
    eapply is_tree_frame; [| |by apply Hnn|by apply Hk].
    - intros x Hx _. apply Fc. right. by eapply Hkc.
    - intros x Hx. cbn. apply lookup_insert_ne. intros <-. apply Hp. by eapply Hkn. }
  rewrite (bind_run _ _ _ _ _ E2).
  assert (Hpn : p ∉ concat (map t_nodes kids)).
  { intros Hin. apply Hp. clear -Hin. induction kids as [|k kids IHk]; simpl in *; [done|].
    rewrite elem_of_app in *. destruct Hin; [left; by apply t_nodes_cells|auto]. }
  assert (is_Some (mh_cells h2 !! ch)) as [ec Ec].
  { apply elem_of_dom. destruct R2 as [Hl _]. eapply linked_dom; [exact Hl|by left]. }
  unfold free_node_struct, modify. rewrite ON2, Ep1 by done. cbn [mbind option_bind with_parent m_children].
  rewrite Ech, Ec, OC2 by (apply not_elem_of_cons; done). change (mh_cells h1 !! p) with (cl !! p). rewrite Ep. cbn [mbind option_bind].
  eexists. split; [reflexivity|]. split; cbn [mh_cells mh_nodes].
  - intros x Hx. destruct (decide (x = p)) as [->|]; [by rewrite lookup_delete_eq|]. rewrite lookup_delete_ne by done.
    destruct (decide (x = ch)) as [->|]; [by rewrite lookup_delete_eq|]. rewrite lookup_delete_ne by done.
    apply C2. simpl in Hx. set_solver.
  - intros x Hx. destruct (decide (x = p)) as [->|]; [by rewrite lookup_delete_eq|]. rewrite lookup_delete_ne by done.
    apply N2. simpl in Hx. set_solver.
  - intros x Hx. simpl in Hx. apply not_elem_of_cons in Hx as [Hxp Hx]. rewrite lookup_delete_ne, ON2 by done.
    cbn. by rewrite lookup_insert_ne.
  - intros x Hx Hx'. simpl in Hx. rewrite !not_elem_of_cons in Hx. destruct Hx as (Hxp & Hxc & Hx).
    rewrite !lookup_delete_ne by done. rewrite OC2 by (apply not_elem_of_cons; done). apply F. clear -Hx' Hxp. set_solver.
  - eapply is_list_frame; [|exact Hq']. intros x Hx. pose proof (Hdis x Hx) as Hxt. rewrite !not_elem_of_cons in Hxt.
    destruct Hxt as (Hxp & Hxc & Hx3). rewrite !lookup_delete_ne by done. apply OC2. by apply not_elem_of_cons.
Qed.

(** C36: freeing a child frees its whole tree, nodes and list heads, takes it out of
    its parent's list and touches nothing else; a fuel above the size of the tree is
    enough, so the recursion terminates. *)
Theorem metadata_free_spec t fuel h q xs ys :
  (t_size t < fuel)%nat → is_tree h t → NoDup (t_cells t) →
  is_list (mh_cells h) q (xs ++ t_loc t :: ys) → (∀ x, x ∈ q :: xs ++ ys → x ∉ t_cells t) →
  ∃ h', metadata_free fuel (Some (t_loc t)) h = Some (tt, h') ∧ freed h h' t q (xs ++ ys).
Proof. apply free_tree_ok. Qed.

(** ** Parameters *)

(** Sorted, with distinct names. *)
Definition params_ok (ps : list attr) : Prop := StronglySorted (fun a b => strcmp (an a) (an b) < 0) ps.

Lemma seq_find_None name ps : seq_find name ps = None ↔ Forall (fun a => an a ≠ name) ps.
Proof.
  unfold seq_find. rewrite list_find_None.
  split; intros H; (eapply Forall_impl; [exact H|]); intros a Ha; cbn in *; rewrite <- has_name_iff in *; done.
Qed.

Lemma seq_find_Some name ps i a :
  seq_find name ps = Some (i, a) ↔ ps !! i = Some a ∧ an a = name ∧ ∀ j b, ps !! j = Some b → (j < i)%nat → an b ≠ name.
Proof. unfold seq_find. rewrite list_find_Some. setoid_rewrite has_name_iff. naive_solver. Qed.

Lemma seq_get_cons name a ps : seq_get name (a :: ps) = if decide (an a = name) then Some (av a) else seq_get name ps.
Proof.
  unfold seq_get, seq_find. cbn [list_find].
  destruct (decide (has_name name a = true)) as [E|E], (decide (an a = name)) as [E'|E']; rewrite has_name_iff in E; try done.
  by destruct (list_find _ ps) as [[]|].
Qed.

Lemma seq_get_insert_new name a ps :
  Forall (fun b => an b ≠ an a) ps →
  seq_get name (seq_insert a ps) = if decide (an a = name) then Some (av a) else seq_get name ps.
Proof.
  induction 1 as [|b ps Hb Hps IH]; simpl; [by rewrite seq_get_cons|].
  destruct (attr_lt a b); [by rewrite seq_get_cons|]. rewrite !seq_get_cons, IH. repeat case_decide; congruence.
Qed.

Lemma seq_get_set name ps i a v :
  seq_find (an a) ps = Some (i, a) →
  seq_get name (<[i := set_av v a]> ps) = if decide (an a = name) then Some v else seq_get name ps.
Proof.
  rewrite seq_find_Some. revert i. induction ps as [|b ps IH]; intros [|i] (E & _ & Hj); try done.
  - simpl in E. simplify_eq. simpl. rewrite !seq_get_cons. cbn. repeat case_decide; congruence.
  - simpl. rewrite !seq_get_cons, IH.
    + pose proof (Hj 0%nat b eq_refl ltac:(lia)). repeat case_decide; congruence.
    + split_and!; [done|done|]. intros j c Ej Hlt. apply (Hj (S j) c Ej). lia.
Qed.

Lemma params_ok_insert a ps : params_ok ps → Forall (fun b => an b ≠ an a) ps → params_ok (seq_insert a ps).
Proof.
  unfold params_ok. intros Hs Hn. induction Hs as [|b ps Hs IH Hb]; simpl; [repeat constructor|].
  apply Forall_cons in Hn as [Hnb Hn]. pose proof (strcmp_antisym (an a) (an b)) as Ha.
  assert (strcmp (an a) (an b) ≠ 0) by (rewrite strcmp_eq; congruence).
  assert (E : attr_lt a b = (strcmp (an a) (an b) <? 0)) by (unfold attr_lt; cmp_cases; done || lia).
  rewrite E. destruct (Z.ltb_spec (strcmp (an a) (an b)) 0).
  - constructor; [by constructor|]. constructor; [done|]. eapply Forall_impl; [exact Hb|].
    intros c Hc. cbn in Hc. by eapply strcmp_trans.
  - constructor; [by apply IH|].
    assert (Hp : seq_insert a ps ≡ₚ a :: ps).
    { clear. induction ps as [|c ps IH]; simpl; [done|]. case_match; [done|]. rewrite IH. constructor. }
    rewrite Hp. constructor; [lia|done].
Qed.

Lemma params_ok_set ps i a v : params_ok ps → ps !! i = Some a → params_ok (<[i := set_av v a]> ps).
Proof.
  unfold params_ok. intros Hs. revert i. induction Hs as [|b ps Hs IH Hb]; intros [|i] E; simpl in *; simplify_eq; constructor; auto.
  apply Forall_insert; [done|]. cbn. by apply (Forall_lookup_1 _ _ _ _ Hb E).
Qed.

(** Setting a parameter answers 1 when its name is new and 0 when it replaces the
    value; afterwards that name reads back the new value, every other name reads what
    it read before, and the parameters stay sorted with distinct names. *)
Theorem metadata_parameters malloc_ok h m d name value :
  (∀ n, malloc_ok n = true) → mh_nodes h !! m = Some d → params_ok (m_params d) →
  ∃ r h' d', metadata_set_parameter malloc_ok (Some m) (Some name) (Some value) h = Some (r, h') ∧
    (r = 1 ↔ metadata_get_parameter (Some m) (Some name) h = Some (None, h)) ∧ (r = 0 ∨ r = 1) ∧
    metadata_get_parameter (Some m) (Some name) h' = Some (Some value, h') ∧
    (∀ other v, other ≠ name → metadata_get_parameter (Some m) (Some other) h = Some (v, h) →
                metadata_get_parameter (Some m) (Some other) h' = Some (v, h')) ∧
    mh_nodes h' !! m = Some d' ∧ params_ok (m_params d').
Proof.
  intros Hmalloc Em Hok.
  assert (Hm : ∀ h, mmalloc malloc_ok h = Some (true, MHeap (mh_cells h) (mh_nodes h) (S (mh_mallocs h))))
    by (intros; unfold mmalloc; by rewrite Hmalloc).
  assert (Hget : ∀ h d n, mh_nodes h !! m = Some d → metadata_get_parameter (Some m) (Some n) h = Some (seq_get n (m_params d), h)).
  { intros h0 d0 n E0. unfold metadata_get_parameter. by rewrite (bind_run _ _ _ _ _ (get_node_run h0 _ _ E0)). }
  unfold metadata_set_parameter. rewrite (bind_run _ _ _ _ _ (get_node_run _ _ _ Em)).
  destruct (seq_find name (m_params d)) as [[i a]|] eqn:Ef.
  - pose proof (proj1 (seq_find_Some _ _ _ _) Ef) as (Ei & Ea & _). rewrite <- Ea in Ef.
    rewrite (bind_run _ _ _ _ _ (Hm h)). cbn [negb].
    rewrite (bind_run _ _ _ _ _ (set_node_run (MHeap (mh_cells h) (mh_nodes h) (S (mh_mallocs h))) m d _ Em)).
    eexists 0, _, (with_params d (<[i := set_av value a]> (m_params d))). split; [reflexivity|].
    match goal with |- context [mh_nodes ?h1 !! m] => assert (E1 : mh_nodes h1 !! m = Some (with_params d (<[i := set_av value a]> (m_params d))))
      by (cbn; by rewrite lookup_insert_eq) end.
    rewrite !(Hget _ _ _ E1), (Hget _ _ _ Em). cbn [with_params m_params]. rewrite seq_get_set, decide_True by done.
    split_and!; [|by left|done| |done|by apply params_ok_set].
    + split; [done|]. intros [= E]. unfold seq_get in E. rewrite <- Ea, Ef in E. done.
    + intros other v Hne. rewrite (Hget _ _ _ Em). intros [= <-].
      rewrite (Hget _ _ _ E1). cbn [with_params m_params]. by rewrite seq_get_set, decide_False by congruence.
  - apply seq_find_None in Ef as Hn.
    do 3 (rewrite (bind_run _ _ _ _ _ (Hm _)); cbn [negb]).
    cbn [mh_cells mh_nodes mh_mallocs].
    rewrite (bind_run _ _ _ _ _ (set_node_run (MHeap (mh_cells h) (mh_nodes h) (S (S (S (mh_mallocs h))))) m d _ Em)).
    eexists 1, _, (with_params d (seq_insert (MkAttr name value 1) (m_params d))). split; [reflexivity|].
    match goal with |- context [mh_nodes ?h1 !! m] => assert (E1 : mh_nodes h1 !! m = Some (with_params d (seq_insert (MkAttr name value 1) (m_params d))))
      by (cbn; by rewrite lookup_insert_eq) end.
    rewrite !(Hget _ _ _ E1), (Hget _ _ _ Em). cbn [with_params m_params].
    rewrite seq_get_insert_new by done. cbn [an av]. rewrite decide_True by done.
    split_and!; [|by right|done| |done|by apply params_ok_insert].
    + unfold seq_get. by rewrite Ef.
    + intros other v Hne. rewrite (Hget _ _ _ Em). intros [= <-].
      rewrite (Hget _ _ _ E1). cbn [with_params m_params].
      rewrite seq_get_insert_new by done. cbn [an]. by rewrite decide_False by congruence.
Qed.

(** ** Witnesses *)

(** A root at 1 with the children 2, 3 and 4, the head of whose list is 10. *)
Definition ex_meta (name : string) (ch : loc) : metadata :=
  Meta (It None None None None) (Some 1%positive) (Some name) None [] ch.
Definition ex_mheap : mheap :=
  MHeap {[1 := Cell (Some 1) (Some 1); 10 := Cell (Some 4) (Some 2); 2 := Cell (Some 10) (Some 3);
          3 := Cell (Some 2) (Some 4); 4 := Cell (Some 3) (Some 10); 12 := Cell (Some 12) (Some 12);
          13 := Cell (Some 13) (Some 13); 14 := Cell (Some 14) (Some 14)]}%positive
        {[1%positive := ex_meta "Haggle" 10; 2%positive := ex_meta "Attribute" 12;
          3%positive := ex_meta "Node" 13; 4%positive := ex_meta "Attribute" 14]} 0.
Definition ex_kids : list (loc * string) := [(2%positive, "Attribute"); (3%positive, "Node"); (4%positive, "Attribute")].

Lemma ex_mheap_children : has_children ex_mheap 1 (ex_meta "Haggle" 10) ex_kids.
Proof.
  split; [reflexivity| | |].
  - split; [repeat split; reflexivity|]. change (NoDup [10; 2; 3; 4]%positive). by apply (bool_decide_unpack _).
  - repeat constructor; eexists; split; reflexivity.
  - change (1%positive ∉ [2; 3; 4]%positive). by apply (bool_decide_unpack _).
Qed.

Lemma metadata_iteration_witness :
  ∃ h', children_named always 1 (Some "Attribute") ex_mheap = Some ([2; 4]%positive, h').
Proof.
  destruct (metadata_iteration always ex_mheap 1 (ex_meta "Haggle" 10) ex_kids (Some "Attribute") (fun _ => eq_refl) ex_mheap_children)
    as (h' & E & _).
  exists h'. exact E.
Defined.

Lemma metadata_new_spec_witness :
  ∃ m h', metadata_new always (Some "Data") None (Some 1%positive) ex_mheap = Some (Some m, h') ∧
          has_children h' 1 (ex_meta "Haggle" 10) (ex_kids ++ [(m, "Data")]).
Proof.
  destruct (metadata_new_spec always ex_mheap 1 (ex_meta "Haggle" 10) ex_kids "Data" None (fun _ => eq_refl) ex_mheap_children)
    as (m & h' & dm & E & _ & Hc & _); [done|].
  exists m, h'. split; [exact E|exact Hc].
Defined.

Lemma metadata_detach_spec_witness :
  ∃ h', metadata_detach (Some 3%positive) ex_mheap = Some (HAGGLE_NO_ERROR, h') ∧
        metadata_add (Some 1%positive) (Some 3%positive) h' = None.
Proof.
  destruct (metadata_detach_spec ex_mheap 1 (ex_meta "Haggle" 10) [(2%positive, "Attribute")] (3%positive, "Node")
              [(4%positive, "Attribute")] ex_mheap_children) as (h' & E & _ & _ & H & _).
  exists h'. split; [exact E|apply H].
Defined.

Lemma metadata_free_spec_witness :
  ∃ h', metadata_free 2 (Some 3%positive) ex_mheap = Some (tt, h') ∧ is_list (mh_cells h') 10 [2; 4]%positive ∧
        mh_nodes h' !! 3%positive = None.
Proof.
  destruct (metadata_free_spec (MT 3 13 []) 2 ex_mheap 10 [2]%positive [4]%positive) as (h' & E & F).
  - simpl. lia.
  - split; [eexists; split; reflexivity|]. split; [|exact I].
    split; [split; reflexivity|apply NoDup_singleton].
  - change (NoDup [3; 13]%positive). by apply (bool_decide_unpack _).
  - apply (ch_ring _ _ _ _ ex_mheap_children).
  - apply Forall_forall. by apply (bool_decide_unpack _).
  - exists h'. split; [exact E|]. split; [apply F|]. apply F. simpl. left.
Defined.

Lemma metadata_parameters_witness :
  ∃ r h', metadata_set_parameter always (Some 1%positive) (Some "name") (Some "x") ex_mheap = Some (r, h') ∧
          metadata_get_parameter (Some 1%positive) (Some "name") h' = Some (Some "x", h').
Proof.
  destruct (metadata_parameters always ex_mheap 1 (ex_meta "Haggle" 10) "name" "x" (fun _ => eq_refl) eq_refl)
    as (r & h' & d' & E & _ & _ & G & _); [constructor|].
  exists r, h'. split; [exact E|exact G].
Defined.
