(* ===== verification/MetaTree.v ===== *)
(** * MetaTree: metadata as values.

    [Metadata] models [metadata.c] in a heap.  The code that builds and reads whole
    documents (nodes, interfaces, data objects, messages) is modelled on tree values
    [meta], with one function per function of [metadata.c] it calls; [value_at] relates
    a tree in the heap to its value, and the theorem at the end says that the loop
    [metadata_get]/[metadata_get_next] over the heap visits the trees [kids_named]. *)

From S2P Require Import Prelude CList Attribute Metadata.

Inductive meta := Md (name content : option string) (params : list attr) (kids : list meta).

Definition md_name (t : meta) : option string := let 'Md n _ _ _ := t in n.
Definition md_content (t : meta) : option string := let 'Md _ c _ _ := t in c.
Definition md_params (t : meta) : list attr := let 'Md _ _ ps _ := t in ps.
Definition md_kids (t : meta) : list meta := let 'Md _ _ _ ks := t in ks.

(** [metadata_new (name, content, NULL)]. *)
Definition md_new (name : string) (content : option string) : meta := Md (Some name) content [] [].
(** [metadata_name_is (m, name)] of a non-NULL [m]. *)
Definition md_name_is (t : meta) (name : string) : bool :=
  match md_name t with Some n => strcmp n name =? 0 | None => false end.
Definition md_get_parameter (t : meta) (name : string) : option string := seq_get name (md_params t).
Definition md_set_parameter (name value : string) (t : meta) : meta :=
  let 'Md n c ps ks := t in
  match seq_find name ps with
  | Some (i, a) => Md n c (<[i := set_av value a]> ps) ks
  | None => Md n c (seq_insert (MkAttr name value 1) ps) ks
  end.
Definition md_set_content (content : string) (t : meta) : meta :=
  let 'Md n _ ps ks := t in Md n (Some content) ps ks.
(** [metadata_add (t, k)] of an unattached [k], and [metadata_new (..., t)]. *)
Definition md_add (t k : meta) : meta := let 'Md n c ps ks := t in Md n c ps (ks ++ [k]).
(** The children visited by [for (c = metadata_get (t, name); c; c = metadata_get_next (t))]. *)
Definition kids_named (name : string) (t : meta) : list meta := filter (fun k => md_name_is k name = true) (md_kids t).
(** [metadata_get (t, name)]: the position of the first child with the name. *)
Definition md_get (t : meta) (name : string) : option (nat * meta) :=
  list_find (fun k => md_name_is k name = true) (md_kids t).
(** Changing a child through the pointer [metadata_get] answered. *)
Definition md_update (i : nat) (f : meta → meta) (t : meta) : meta :=
  let 'Md n c ps ks := t in Md n c ps (alter f i ks).
(** Freeing every child with the name. *)
Definition md_remove_named (name : string) (t : meta) : meta :=
  let 'Md n c ps ks := t in Md n c ps (filter (fun k => md_name_is k name = false) ks).

Lemma md_name_is_iff t name : md_name_is t name = true ↔ md_name t = Some name.
Proof.
  unfold md_name_is. destruct (md_name t) as [n|]; [|split; congruence].
  rewrite Z.eqb_eq, strcmp_eq. split; [by intros ->|by intros [= ->]].
Qed.

Lemma md_get_set_parameter t n m v :
  md_get_parameter (md_set_parameter n v t) m = if decide (n = m) then Some v else md_get_parameter t m.
Proof.
  destruct t as [nm c ps ks]. unfold md_get_parameter, md_set_parameter, md_params.
  destruct (seq_find n ps) as [[i a]|] eqn:E.
  - pose proof (proj1 (seq_find_Some _ _ _ _) E) as (_ & Ea & _). rewrite <- Ea in E. rewrite (seq_get_set _ _ _ _ _ E).
    by rewrite Ea.
  - apply seq_find_None in E. by rewrite seq_get_insert_new.
Qed.

Lemma md_set_parameter_kids n v t : md_kids (md_set_parameter n v t) = md_kids t.
Proof. destruct t as [nm c ps ks]. simpl. by destruct (seq_find n ps) as [[]|]. Qed.
Lemma md_set_parameter_name n v t : md_name (md_set_parameter n v t) = md_name t.
Proof. destruct t as [nm c ps ks]. simpl. by destruct (seq_find n ps) as [[]|]. Qed.
Lemma md_set_parameter_content n v t : md_content (md_set_parameter n v t) = md_content t.
Proof. destruct t as [nm c ps ks]. simpl. by destruct (seq_find n ps) as [[]|]. Qed.

(** ** The value of a tree in the heap *)

Fixpoint value_at (h : mheap) (p : loc) (v : meta) {struct v} : Prop :=
  let 'Md n c ps kids := v in
  ∃ d locs, mh_nodes h !! p = Some d ∧ m_name d = n ∧ m_content d = c ∧ m_params d = ps ∧
            is_list (mh_cells h) (m_children d) locs ∧ p ∉ locs ∧
            (fix go (locs : list loc) (kids : list meta) {struct kids} : Prop := match locs, kids with
               | [], [] => True
               | l :: locs, k :: kids => value_at h l k ∧ go locs kids
               | _, _ => False
               end) locs kids.

Lemma value_at_inv h p n c ps kids :
  value_at h p (Md n c ps kids) →
  ∃ d locs, mh_nodes h !! p = Some d ∧ m_name d = n ∧ m_content d = c ∧ m_params d = ps ∧
            is_list (mh_cells h) (m_children d) locs ∧ p ∉ locs ∧ Forall2 (value_at h) locs kids.
Proof.
  intros (d & locs & En & E1 & E2 & E3 & Hr & Hp & Hgo). exists d, locs. split_and!; try done.
  clear -Hgo. revert kids Hgo. induction locs as [|l locs IH]; intros [|k kids] Hgo; try done; constructor; [tauto|].
  apply IH. tauto.
Qed.

(** All the children have a name: what the searches by name need. *)
Definition named_kids (v : meta) : Prop := Forall (fun k => is_Some (md_name k)) (md_kids v).

Lemma value_at_children h p v :
  value_at h p v → named_kids v →
  ∃ d all, has_children h p d all ∧ m_params d = md_params v ∧
           Forall2 (fun k w => value_at h k.1 w ∧ md_name w = Some k.2) all (md_kids v).
Proof.
  destruct v as [n c ps kids]. intros Hv Hn.
  destruct (value_at_inv _ _ _ _ _ _ Hv) as (d & locs & En & E1 & E2 & E3 & Hr & Hp & Hf). cbn [md_kids md_params named_kids] in *.
  assert (Hall : ∃ all, all.*1 = locs ∧ Forall2 (fun k w => value_at h k.1 w ∧ md_name w = Some k.2) all kids).
  { clear -Hf Hn. unfold named_kids in Hn. cbn in Hn. induction Hf as [|l k locs kids Hlk _ IH]; [by exists []|].
    apply Forall_cons in Hn as [[s Es] Hn]. destruct (IH Hn) as (all & <- & Ha). exists ((l, s) :: all). split; [done|].
    by constructor. }
  destruct Hall as (all & <- & Ha). exists d, all. split_and!; try done. split; try done.
  clear -Ha. induction Ha as [|k w all kids [Hv Hn] _ IH]; constructor; [|done].
  destruct w as [wn wc wps wk]. cbn in Hn. subst wn. destruct (value_at_inv _ _ _ _ _ _ Hv) as (e & locs & Ee & E1 & _).
  by exists e.
Qed.

Lemma Forall2_filter {A B} (R : A → B → Prop) (P : A → Prop) (Q : B → Prop)
    `{!∀ x, Decision (P x)} `{!∀ x, Decision (Q x)} l k :
  Forall2 (fun x y => R x y ∧ (P x ↔ Q y)) l k → Forall2 R (filter P l) (filter Q k).
Proof.
  induction 1 as [|x y l k [HR HPQ] _ IH]; [constructor|]. rewrite !filter_cons.
  destruct (decide (P x)), (decide (Q y)); [by constructor|tauto|tauto|done].
Qed.

Lemma visited_values h all kids name :
  Forall2 (fun k w => value_at h k.1 w ∧ md_name w = Some k.2) all kids →
  Forall2 (value_at h) ((filter (fun k => wanted (Some name) k = true) all).*1)
          (filter (fun k => md_name_is k name = true) kids).
Proof.
  intros H. apply Forall2_fmap_l.
  apply (Forall2_filter (fun k => value_at h (fst k)) (fun k => wanted (Some name) k = true)).
  eapply Forall2_impl; [exact H|]. intros k w [Hv Hn]. split; [done|].
  unfold wanted, md_name_is. by rewrite Hn.
Qed.

(** The loop over the heap visits, in order, the trees of [kids_named]. *)
Lemma iteration_values malloc_ok h p v name :
  (∀ n, malloc_ok n = true) → value_at h p v → named_kids v → 0 < strlen name →
  ∃ xs h', children_named malloc_ok p (Some name) h = Some (xs, h') ∧ Forall2 (value_at h) xs (kids_named name v).
Proof.
  intros Hm Hv Hn Hl. destruct (value_at_children h p v Hv Hn) as (d & all & Hc & _ & Hf).
  destruct (iteration_run malloc_ok h p d all (Some name) Hm Hc) as (h' & E & _).
  eexists _, h'. split; [exact E|]. unfold effective. destruct (Z.gtb_spec (strlen name) 0); [|lia].
  by apply visited_values.
Qed.

(** ** Induction and well-formed documents *)

Section MetaInd.
Context (P : meta → Prop) (H : ∀ n c ps kids, Forall P kids → P (Md n c ps kids)).
Fixpoint meta_ind' (t : meta) : P t :=
  match t with
  | Md n c ps kids =>
    H n c ps kids ((fix go (ks : list meta) : Forall P ks :=
                      match ks with [] => Forall_nil_2 P | k :: ks => Forall_cons_2 P k ks (meta_ind' k) (go ks) end) kids)
  end.
End MetaInd.

(** Parameters as [metadata_set_parameter] makes them: sorted, distinct names, weight 1. *)
Definition params_wf (ps : list attr) : Prop := params_ok ps ∧ Forall (fun a => aw a = 1) ps.

Lemma seq_find_snoc ps a : params_ok (ps ++ [a]) → seq_find (an a) ps = None.
Proof.
  intros Hs. apply seq_find_None. unfold params_ok in Hs.
  induction ps as [|b ps IH]; [constructor|]. simpl in Hs. apply StronglySorted_inv in Hs as [Hs Hb].
  constructor; [|by apply IH]. rewrite Forall_app, Forall_singleton in Hb. destruct Hb as [_ Hb].
  intros E. apply strcmp_eq in E. lia.
Qed.

Lemma seq_insert_snoc ps a : params_ok (ps ++ [a]) → seq_insert a ps = ps ++ [a].
Proof.
  intros Hs. unfold params_ok in Hs. induction ps as [|b ps IH]; [done|]. simpl in Hs |- *.
  apply StronglySorted_inv in Hs as [Hs Hb]. rewrite Forall_app, Forall_singleton in Hb. destruct Hb as [_ Hb].
  assert (E : attr_lt a b = false); [|by rewrite E, IH].
  apply not_true_iff_false. rewrite attr_lt_spec. pose proof (strcmp_antisym (an b) (an a)). intros [?|[E _]]; [lia|].
  symmetry in E. apply strcmp_eq in E. lia.
Qed.

(** Setting the parameters of a document one by one rebuilds them. *)
Lemma set_parameters_all n c ps' ps ks :
  params_wf (ps' ++ ps) →
  fold_left (fun t a => md_set_parameter (an a) (av a) t) ps (Md n c ps' ks) = Md n c (ps' ++ ps) ks.
Proof.
  revert ps'. induction ps as [|a ps IH]; intros ps' Hw; cbn [fold_left]; [by rewrite app_nil_r|].
  change (a :: ps) with ([a] ++ ps) in Hw |- *. rewrite app_assoc in Hw |- *.
  assert (Hp : params_ok (ps' ++ [a])).
  { destruct Hw as [Hs _]. unfold params_ok in *. by eapply StronglySorted_app_1_l. }
  assert (Ha : aw a = 1).
  { destruct Hw as [_ Hw]. rewrite !Forall_app, Forall_singleton in Hw. tauto. }
  rewrite <- IH by done. unfold md_set_parameter at 2. rewrite seq_find_snoc by done.
  rewrite <- (seq_insert_snoc ps' a) by done. destruct a as [an_ av_ aw_]. cbn in Ha |- *. by subst.
Qed.

(** ** The wire format

    [metadata.h] keeps the program agnostic of the raw format of a document: the two
    operations, and what a client relies on. *)
Class MetadataCodec :=
  { metadata_new_from_raw : list Z → option (option meta);
    metadata_get_raw_alloc : meta → Z * list Z }.
Class MetadataCodecOk (C : MetadataCodec) (ok : meta → Prop) : Prop :=
  codec_roundtrip : ∀ m, ok m → ∃ raw, metadata_get_raw_alloc m = (Z.of_nat (length raw), raw) ∧ 0 < Z.of_nat (length raw) ∧
                                       metadata_new_from_raw raw = Some (Some m).
