(* ===== verification/Interface.v ===== *)
(** * Interface: network interfaces, [libhaggle/interface.c].

    A [haggle_interface_t] ends in a flexible array that holds the identifier, the
    name and the printable identifier; [name] and [identifier_str] are pointers into
    it.  Blocks live in a store, a pointer is a block and an offset in its array, and
    a byte that was never written is [None], so that a read through a dangling pointer,
    past the end or of an uninitialised byte is undefined. *)

From S2P Require Import Prelude CList Base64 Text Attribute Metadata MetaTree.

Definition IF_TYPE_UNDEFINED : Z := 0.
Definition IF_TYPE_APPLICATION_PORT : Z := 1.
Definition IF_TYPE_APPLICATION_LOCAL : Z := 2.
Definition IF_TYPE_ETHERNET : Z := 3.
Definition IF_TYPE_WIFI : Z := 4.
Definition IF_TYPE_BLUETOOTH : Z := 5.
Definition IF_TYPE_MEDIA : Z := 6.

Definition IF_STATUS_UNDEFINED : Z := 0.
Definition IF_STATUS_UP : Z := 1.
Definition IF_STATUS_DOWN : Z := 2.

Definition interface_typestr : list string :=
  ["undefined"; "application[port]"; "application[local]"; "ethernet"; "wifi"; "bluetooth"; "media"].
Definition interface_statusstr : list string := ["undefined"; "up"; "down"].

Definition haggle_interface_str_to_type (str : option string) : Z :=
  match str with
  | None => IF_TYPE_UNDEFINED
  | Some s => match list_find (fun t => strcmp s t = 0) interface_typestr with
              | Some (i, _) => Z.of_nat i | None => IF_TYPE_UNDEFINED
              end
  end.

(** A pointer into the array of a block. *)
Record ptr := Ptr { p_block : loc; p_off : nat }.

Record haggle_interface := Iface
  { if_type : Z; if_status : Z; if_name : ptr; if_identifier_str : ptr;
    if_identifier_len : nat; if_bytes : list (option Z) }.

Abbreviation imem := (gmap loc haggle_interface).
Abbreviation IM := (M imem).

(** The C string at a pointer; [None] when it is not inside a live block. *)
Fixpoint cstr (l : list (option Z)) : option string :=
  match l with
  | Some b :: l => if b =? 0 then Some EmptyString
                   else s ← cstr l; Some (String (ascii_of_N (Z.to_N b)) s)
  | _ => None
  end.
Definition read_cstr (mem : imem) (p : ptr) : option string :=
  b ← mem !! p_block p; cstr (drop (p_off p) (if_bytes b)).

(** [memcpy] and [strcpy] into an array; [None] past its end. *)
Definition write_at (off : nat) (l : list Z) (bytes : list (option Z)) : option (list (option Z)) :=
  if (off + length l <=? length bytes)%nat
  then Some (take off bytes ++ map Some l ++ drop (off + length l) bytes) else None.

Definition interface_identifier_strlen (type : Z) : nat :=
  if (type =? IF_TYPE_BLUETOOTH) || (type =? IF_TYPE_ETHERNET) || (type =? IF_TYPE_WIFI) then 18 else 0.

(** The flexible part of [INTERFACE_MALLOC_LEN]. *)
Definition INTERFACE_MALLOC_LEN (name : string) (id_len id_strlen : nat) : nat :=
  id_len + String.length name + 1 + id_strlen.

(** ["%02x:%02x:%02x:%02x:%02x:%02x"]. *)
Definition mac_string (b : list Z) : string :=
  match b with
  | [a; b; c; d; e; f] => hex2 false a +:+ ":" +:+ hex2 false b +:+ ":" +:+ hex2 false c +:+ ":" +:+
                          hex2 false d +:+ ":" +:+ hex2 false e +:+ ":" +:+ hex2 false f
  | _ => ""
  end.

Section Alloc.
Context (malloc_ok : bool).

Definition haggle_interface_new (type : Z) (name : option string) (identifier : option (list Z)) : IM (option loc) :=
  match name, identifier with
  | Some name, Some identifier =>
    if negb malloc_ok then mret None else fun mem =>
    let iface := fresh (dom mem) in
    let len := length identifier in
    let name_off := len in
    let str_off := (len + String.length name + 1)%nat in
    bytes ← write_at 0 identifier (replicate (INTERFACE_MALLOC_LEN name len (interface_identifier_strlen type)) None);
    bytes ← write_at name_off (bytes_of_string name ++ [0]) bytes;
    bytes ← (if (type =? IF_TYPE_BLUETOOTH) || (type =? IF_TYPE_ETHERNET) || (type =? IF_TYPE_WIFI)
             then six ← mapM id (take 6 bytes);
                  if (length six =? 6)%nat
                  then write_at str_off (bytes_of_string (mac_string six) ++ [0]) bytes else None
             else Some bytes);
    Some (Some iface, <[iface := Iface type IF_STATUS_UNDEFINED (Ptr iface name_off) (Ptr iface str_off) len bytes]> mem)
  | _, _ => mret None
  end.

Definition haggle_interface_free (iface : option loc) : IM unit :=
  match iface with
  | None => mret tt
  | Some p => modify (fun mem => _ ← mem !! p; Some (delete p mem))
  end.

(** [memcpy (iface_copy, iface, malloc_len)]: the pointers are copied as they are. *)
Definition haggle_interface_copy (iface : option loc) : IM (option loc) :=
  match iface with
  | None => mret None
  | Some p => fun mem =>
    b ← mem !! p;
    name ← read_cstr mem (if_name b);
    let malloc_len := INTERFACE_MALLOC_LEN name (if_identifier_len b) (interface_identifier_strlen (if_type b)) in
    if negb malloc_ok then Some (None, mem) else
    if (malloc_len <=? length (if_bytes b))%nat then
      let copy := fresh (dom mem) in
      Some (Some copy, <[copy := Iface (if_type b) (if_status b) (if_name b) (if_identifier_str b)
                                       (if_identifier_len b) (take malloc_len (if_bytes b))]> mem)
    else None
  end.

(** ** Accessors *)

Definition get_iface (p : loc) : IM haggle_interface := gets (fun mem => mem !! p).

Definition haggle_interface_get_type (iface : option loc) : IM Z :=
  match iface with None => mret IF_TYPE_UNDEFINED | Some p => b ← get_iface p; mret (if_type b) end.
Definition haggle_interface_get_type_name (iface : option loc) : IM string :=
  match iface with
  | None => mret "undefined"
  | Some p => b ← get_iface p; gets (fun _ => interface_typestr !! Z.to_nat (if_type b))
  end.
Definition haggle_interface_get_status (iface : option loc) : IM Z :=
  match iface with None => mret IF_STATUS_UNDEFINED | Some p => b ← get_iface p; mret (if_status b) end.
Definition haggle_interface_get_status_name (iface : option loc) : IM string :=
  match iface with
  | None => mret "undefined"
  | Some p => b ← get_iface p; gets (fun _ => interface_statusstr !! Z.to_nat (if_status b))
  end.
Definition haggle_interface_get_name (iface : option loc) : IM (option ptr) :=
  match iface with None => mret None | Some p => b ← get_iface p; mret (Some (if_name b)) end.
Definition haggle_interface_get_identifier (iface : option loc) : IM (option ptr) :=
  match iface with None => mret None | Some p => _ ← get_iface p; mret (Some (Ptr p 0)) end.
Definition haggle_interface_get_identifier_length (iface : option loc) : IM nat :=
  match iface with None => mret 0%nat | Some p => b ← get_iface p; mret (if_identifier_len b) end.
Definition haggle_interface_get_identifier_str (iface : option loc) : IM (option ptr) :=
  match iface with None => mret None | Some p => b ← get_iface p; mret (Some (if_identifier_str b)) end.

Definition set_status (p : loc) (st : Z) : IM unit := modify (fun mem =>
  b ← mem !! p;
  Some (<[p := Iface (if_type b) st (if_name b) (if_identifier_str b) (if_identifier_len b) (if_bytes b)]> mem)).

(** [ctx_buf] is what the decoder's uninitialised buffer holds. *)
Definition haggle_interface_new_from_metadata (ctx_buf : list Z) (m : meta) : IM (option loc) :=
  let type := haggle_interface_str_to_type (md_get_parameter m "type") in
  if type =? IF_TYPE_UNDEFINED then mret None else
  match md_get_parameter m "identifier" with
  | None => mret None
  | Some id =>
    match base64_decode_alloc malloc_succeeds (base64_decode_ctx_init ctx_buf) (bytes_of_string id) with
    | None => undefined
    | Some (false, _) => mret None
    | Some (true, identifier) =>
      iface ← haggle_interface_new type (Some (default "Unknown interface" (md_get_parameter m "name"))) identifier;
      match iface with
      | None => mret None
      | Some p =>
        match md_get_parameter m "status" with
        | None => mret iface
        | Some status =>
          _ ← set_status p (if strcmp status "up" =? 0 then IF_STATUS_UP else IF_STATUS_DOWN); mret iface
        end
      end
    end
  end.
End Alloc.

(** ** Lemmas *)

Lemma cstr_string s rest : no_nul s → cstr (map Some (bytes_of_string s ++ [0]) ++ rest) = Some s.
Proof.
  induction s as [|a s IH]; simpl; [done|]. intros [Ha Hs].
  destruct (Z.eqb_spec (byte_of_ascii a) 0); [done|]. rewrite IH by done. cbn.
  unfold byte_of_ascii. by rewrite N2Z.id, ascii_N_embedding.
Qed.

Lemma write_at_length off l bytes r : write_at off l bytes = Some r → length r = length bytes.
Proof.
  unfold write_at. destruct (Nat.leb_spec (off + length l) (length bytes)); [|done]. intros [= <-].
  rewrite !length_app, length_take, length_map, length_drop. lia.
Qed.

Lemma write_at_drop off l bytes r :
  write_at off l bytes = Some r → drop off r = map Some l ++ drop (off + length l) bytes.
Proof.
  unfold write_at. destruct (Nat.leb_spec (off + length l) (length bytes)); [|done]. intros [= <-].
  rewrite drop_app, length_take, drop_ge by (rewrite length_take; lia).
  replace (off - off `min` length bytes)%nat with 0%nat by lia. done.
Qed.

Lemma write_at_take off l bytes r n : write_at off l bytes = Some r → (n <= off)%nat → take n r = take n bytes.
Proof.
  unfold write_at. destruct (Nat.leb_spec (off + length l) (length bytes)); [|done]. intros [= <-] Hn.
  rewrite take_app, take_take, length_take. replace (n - off `min` length bytes)%nat with 0%nat by lia.
  rewrite take_0, app_nil_r. f_equal. lia.
Qed.

Lemma write_at_some off l (bytes : list (option Z)) : (off + length l <= length bytes)%nat → ∃ r, write_at off l bytes = Some r.
Proof. intros H. unfold write_at. destruct (Nat.leb_spec (off + length l) (length bytes)); [by eexists|lia]. Qed.

(** Writing behind a string keeps it. *)
Lemma write_at_keeps off off' l l' bytes r r' :
  write_at off l bytes = Some r → write_at off' l' r = Some r' → (off + length l <= off')%nat →
  ∃ rest, drop off r' = map Some l ++ rest.
Proof.
  intros E E' Hle. pose proof (write_at_take _ _ _ _ (off + length l) E' ltac:(lia)) as Ht.
  pose proof (write_at_drop _ _ _ _ E) as Hd.
  exists (drop (off + length l) r').
  rewrite <- (take_drop (length l) (drop off r')), drop_drop. f_equal.
  rewrite take_drop_commute, Ht, <- take_drop_commute, Hd.
  rewrite take_app, length_map, Nat.sub_diag, take_0, app_nil_r. apply take_ge. by rewrite length_map.
Qed.

Lemma mac_string_length b : length b = 6%nat → String.length (mac_string b) = 17%nat.
Proof. intros H. do 7 (destruct b as [|? b]; try done). Qed.

Lemma mac_no_nul b : bytes b → no_nul (mac_string b).
Proof.
  intros Hb. destruct b as [|b1 [|b2 [|b3 [|b4 [|b5 [|b6 [|]]]]]]]; try exact I.
  rewrite !Forall_cons in Hb. destruct Hb as (?&?&?&?&?&?&_).
  unfold mac_string. repeat (apply no_nul_app); try (by apply hex2_no_nul); simpl; split; done.
Qed.

Lemma cstr_nil : cstr [] = None.
Proof. done. Qed.

Definition has_mac (type : Z) : bool :=
  (type =? IF_TYPE_BLUETOOTH) || (type =? IF_TYPE_ETHERNET) || (type =? IF_TYPE_WIFI).

Lemma drop_at_app (off : nat) (rest : list (option Z)) (r : list (option Z)) s :
  drop off r = map Some (bytes_of_string s ++ [0]) ++ rest → no_nul s → cstr (drop off r) = Some s.
Proof. intros -> Hs. by apply cstr_string. Qed.

Lemma mapM_id_some (l : list Z) : mapM id (map Some l) = Some l.
Proof. induction l as [|x l IH]; [done|]. cbn. by rewrite IH. Qed.

Lemma mac_fits s : length s = 6%nat → length (bytes_of_string (mac_string s) ++ [0]) = 18%nat.
Proof. intros H. by rewrite length_app, length_bytes_of_string, mac_string_length. Qed.

(** The array [haggle_interface_new] fills. *)
Lemma new_bytes type name idn :
  no_nul name → bytes idn → (has_mac type = true → (6 <= length idn)%nat) →
  ∃ b1 b2 b3,
    write_at 0 idn (replicate (INTERFACE_MALLOC_LEN name (length idn) (interface_identifier_strlen type)) None) = Some b1 ∧
    write_at (length idn) (bytes_of_string name ++ [0]) b1 = Some b2 ∧
    (if has_mac type
     then six ← mapM id (take 6 b2);
          if (length six =? 6)%nat
          then write_at (length idn + String.length name + 1) (bytes_of_string (mac_string six) ++ [0]) b2 else None
     else Some b2) = Some b3 ∧
    take (length idn) b3 = map Some idn ∧ cstr (drop (length idn) b3) = Some name ∧
    cstr (drop (length idn + String.length name + 1) b3) =
      (if has_mac type then Some (mac_string (take 6 idn)) else None) ∧
    length b3 = INTERFACE_MALLOC_LEN name (length idn) (interface_identifier_strlen type).
Proof.
  intros Hn Hid Hmac. unfold INTERFACE_MALLOC_LEN. fold (has_mac type).
  assert (Hs : interface_identifier_strlen type = if has_mac type then 18%nat else 0%nat) by done. rewrite Hs.
  set (L := (length idn + String.length name + 1 + (if has_mac type then 18 else 0))%nat).
  assert (HnL : length (bytes_of_string name ++ [0]) = (String.length name + 1)%nat)
    by (rewrite length_app, length_bytes_of_string; simpl; lia).
  destruct (write_at_some 0 idn (replicate L None)) as [b1 E1]; [rewrite length_replicate; lia|].
  pose proof (write_at_length _ _ _ _ E1) as L1. rewrite length_replicate in L1.
  destruct (write_at_some (length idn) (bytes_of_string name ++ [0]) b1) as [b2 E2]; [lia|].
  pose proof (write_at_length _ _ _ _ E2) as L2. rewrite L1 in L2.
  assert (T1 : take (length idn) b1 = map Some idn).
  { pose proof (write_at_drop _ _ _ _ E1) as D. rewrite drop_0 in D. rewrite D, take_app, length_map, Nat.sub_diag, take_0, app_nil_r.
    apply take_ge. by rewrite length_map. }
  assert (T2 : take (length idn) b2 = map Some idn) by (by rewrite (write_at_take _ _ _ _ (length idn) E2)).
  exists b1, b2. destruct (has_mac type).
  - assert (T6 : take 6 b2 = map Some (take 6 idn)).
    { rewrite <- (Nat.min_l 6 (length idn)), <- take_take, T2, firstn_map by auto. f_equal. rewrite Nat.min_l by auto. done. }
    assert (H6 : length (take 6 idn) = 6%nat) by (rewrite length_take; specialize (Hmac eq_refl); lia).
    destruct (write_at_some (length idn + String.length name + 1) (bytes_of_string (mac_string (take 6 idn)) ++ [0]) b2) as [b3 E3].
    { rewrite mac_fits by done. lia. }
    pose proof (write_at_length _ _ _ _ E3) as L3. exists b3. rewrite T6, mapM_id_some. cbn [mbind option_bind]. rewrite H6. cbn [Nat.eqb].
    split_and!; try done.
    + rewrite (write_at_take _ _ _ _ (length idn) E3); [done|lia].
    + destruct (write_at_keeps _ _ _ _ _ _ _ E2 E3) as [rest Er]; [lia|]. by apply (drop_at_app _ rest).
    + eapply drop_at_app; [by apply (write_at_drop _ _ _ _ E3)|]. apply mac_no_nul. by apply Forall_take.
    + lia.
  - exists b2. split_and!; try done.
    + eapply drop_at_app; [by apply (write_at_drop _ _ _ _ E2)|done].
    + rewrite drop_ge; [done|lia].
Qed.

(** What is in the block of an interface made from these arguments. *)
Record iface_holds (p : loc) (b : haggle_interface) (type : Z) (name : string) (idn : list Z) : Prop :=
  { ih_type : if_type b = type;
    ih_len : if_identifier_len b = length idn;
    ih_identifier : take (if_identifier_len b) (if_bytes b) = map Some idn;
    ih_name_at : p_block (if_name b) = p;
    ih_name : cstr (drop (p_off (if_name b)) (if_bytes b)) = Some name;
    ih_str_at : p_block (if_identifier_str b) = p;
    ih_str : cstr (drop (p_off (if_identifier_str b)) (if_bytes b)) = (if has_mac type then Some (mac_string (take 6 idn)) else None) }.

Lemma interface_new_run mem type name idn :
  no_nul name → bytes idn → (has_mac type = true → (6 <= length idn)%nat) →
  ∃ p b, haggle_interface_new true type (Some name) (Some idn) mem = Some (Some p, <[p := b]> mem) ∧
    mem !! p = None ∧ if_status b = IF_STATUS_UNDEFINED ∧ iface_holds p b type name idn.
Proof.
  intros Hn Hid Hmac. destruct (new_bytes type name idn Hn Hid Hmac) as (b1 & b2 & b3 & E1 & E2 & E3 & T & N & S & _).
  unfold haggle_interface_new. cbn [negb]. fold (has_mac type). rewrite E1. cbn [mbind option_bind]. rewrite E2. cbn [mbind option_bind].
  cbn zeta in E3 |- *. rewrite E3. cbn [mbind option_bind]. eexists _, _. split; [reflexivity|].
  split; [apply not_elem_of_dom, is_fresh|]. split; [done|]. by split.
Qed.

Lemma read_own (mem : imem) p q b : p_block q = p → read_cstr (<[p := b]> mem) q = cstr (drop (p_off q) (if_bytes b)).
Proof. intros <-. unfold read_cstr. by rewrite lookup_insert_eq. Qed.

(** A new interface answers its type, its identifier and its name; one with a MAC
    address (of at least six bytes) also its printed form, written inside the block;
    but for the other types the identifier string is a pointer past the end of the
    block, which cannot be read. *)
Theorem haggle_interface_new_spec mem type name idn :
  no_nul name → bytes idn → (has_mac type = true → (6 <= length idn)%nat) →
  ∃ p b, haggle_interface_new true type (Some name) (Some idn) mem = Some (Some p, <[p := b]> mem) ∧
    mem !! p = None ∧ if_type b = type ∧ if_status b = IF_STATUS_UNDEFINED ∧
    take (if_identifier_len b) (if_bytes b) = map Some idn ∧
    read_cstr (<[p := b]> mem) (if_name b) = Some name ∧
    read_cstr (<[p := b]> mem) (if_identifier_str b) = (if has_mac type then Some (mac_string (take 6 idn)) else None).
Proof.
  intros Hn Hid Hmac. destruct (interface_new_run mem type name idn Hn Hid Hmac) as (p & b & E & Hp & Hs & []).
  exists p, b. rewrite !read_own by done. by split_and!.
Qed.

(** What an [Interface] element announces: its type and its decoded identifier. *)
Definition meta_type (mi : meta) : Z := haggle_interface_str_to_type (md_get_parameter mi "type").
Definition meta_identifier (mi : meta) : option (list Z) :=
  idn ← md_get_parameter mi "identifier"; b64_dec (non_newlines (bytes_of_string idn)).
Definition meta_announces (mi : meta) : option (list Z) :=
  if meta_type mi =? IF_TYPE_UNDEFINED then None else meta_identifier mi.
Definition meta_if_name (mi : meta) : string := default "Unknown interface" (md_get_parameter mi "name").
Definition meta_status (mi : meta) : Z :=
  match md_get_parameter mi "status" with
  | None => IF_STATUS_UNDEFINED | Some s => if decide (s = "up") then IF_STATUS_UP else IF_STATUS_DOWN
  end.
(** What the sender must have respected. *)
Definition meta_iface_ok (mi : meta) : Prop :=
  no_nul (meta_if_name mi) ∧
  ∀ idn, meta_identifier mi = Some idn → has_mac (meta_type mi) = true → (6 <= length idn)%nat.

Lemma dec_quad_bytes w x y z l : dec_quad w x y z = Some l → bytes l.
Proof.
  unfold dec_quad. intros H. repeat case_match; simplify_eq; repeat constructor; apply u8_byte.
Qed.

Lemma b64_dec_bytes s l : b64_dec s = Some l → bytes l.
Proof.
  revert l. induction s as [s IH] using (induction_ltof1 _ (@length Z)). unfold ltof in IH. intros l.
  destruct s as [|w [|x [|y [|z s]]]]; cbn; try (by intros [= <-]; constructor).
  destruct (dec_quad w x y z) as [q|] eqn:Eq; [|done]. destruct (b64_dec s) as [r|] eqn:Er; [|done].
  intros [= <-]. apply Forall_app. split; [by eapply dec_quad_bytes|]. apply (IH s); [simpl; lia|done].
Qed.

Lemma interface_from_metadata_run mem buf mi :
  length buf = 4%nat → meta_iface_ok mi →
  ∃ r mem', haggle_interface_new_from_metadata true buf mi mem = Some (r, mem') ∧
    match meta_announces mi with
    | None => r = None ∧ mem' = mem
    | Some idn => ∃ p b, r = Some p ∧ mem !! p = None ∧ mem' = <[p := b]> mem ∧
                         if_status b = meta_status mi ∧ iface_holds p b (meta_type mi) (meta_if_name mi) idn
    end.
Proof.
  intros Hb [Hn Hmac]. unfold haggle_interface_new_from_metadata, meta_announces. fold (meta_type mi).
  destruct (meta_type mi =? IF_TYPE_UNDEFINED); [by eexists _, _|].
  unfold meta_identifier in *. destruct (md_get_parameter mi "identifier") as [idn|]; [|by eexists _, _].
  cbn [mbind option_bind] in *. rewrite decode_alloc_ref by done.
  destruct (b64_dec (non_newlines (bytes_of_string idn))) as [l|] eqn:El; [|by eexists _, _].
  destruct (interface_new_run mem (meta_type mi) (meta_if_name mi) l) as (p & b & E & Hp & Hs & Hh);
    [done|by eapply b64_dec_bytes|by apply Hmac|].
  rewrite (bind_run _ _ _ _ _ E). unfold meta_status. destruct (md_get_parameter mi "status") as [st|].
  - assert (Ed : (if strcmp st "up" =? 0 then IF_STATUS_UP else IF_STATUS_DOWN) =
                 (if decide (st = "up") then IF_STATUS_UP else IF_STATUS_DOWN)).
    { case_decide as D; [by subst|]. destruct (Z.eqb_spec (strcmp st "up") 0) as [Z|]; [|done]. by apply strcmp_eq in Z. }
    rewrite Ed. set (st' := if decide _ then _ else _).
    eexists _, _. split.
    { unfold set_status. erewrite bind_run; [reflexivity|]. unfold modify. rewrite lookup_insert_eq. cbn [mbind option_bind]. reflexivity. }
    eexists p, _. split; [done|]. split; [done|]. rewrite insert_insert_eq. split; [reflexivity|]. split; [done|]. by destruct Hh.
  - eexists _, _. split; [reflexivity|]. exists p, b. by split_and!.
Qed.

(** An interface is made from an [Interface] element exactly when its type is one
    of the known names and its identifier is valid base64; it then holds the decoded
    identifier, the announced name (or "Unknown interface") and status; otherwise
    nothing is allocated.  The sender is trusted to give six bytes to a MAC address. *)
Theorem haggle_interface_new_from_metadata_spec mem buf mi :
  length buf = 4%nat → meta_iface_ok mi →
  ∃ r mem', haggle_interface_new_from_metadata true buf mi mem = Some (r, mem') ∧
    match meta_announces mi with
    | None => r = None ∧ mem' = mem
    | Some idn => ∃ p b, r = Some p ∧ mem !! p = None ∧ mem' = <[p := b]> mem ∧
                         if_status b = meta_status mi ∧ iface_holds p b (meta_type mi) (meta_if_name mi) idn
    end.
Proof. apply interface_from_metadata_run. Qed.

(** The copy of an interface answers the same name, but through the original's
    block: freeing the original leaves the copy with dangling pointers, and a read of
    its name is a use after free. *)
Theorem haggle_interface_copy_dangling mem p b name :
  mem !! p = Some b → p_block (if_name b) = p → p_block (if_identifier_str b) = p → read_cstr mem (if_name b) = Some name →
  length (if_bytes b) = INTERFACE_MALLOC_LEN name (if_identifier_len b) (interface_identifier_strlen (if_type b)) →
  ∃ q c mem' mem'', haggle_interface_copy true (Some p) mem = Some (Some q, mem') ∧ q ≠ p ∧
    mem' !! q = Some c ∧ if_type c = if_type b ∧ if_status c = if_status b ∧ if_bytes c = if_bytes b ∧
    haggle_interface_get_name (Some q) mem' = Some (Some (if_name b), mem') ∧
    read_cstr mem' (if_name b) = Some name ∧
    haggle_interface_free (Some p) mem' = Some (tt, mem'') ∧ mem'' !! q = Some c ∧
    read_cstr mem'' (if_name c) = None ∧ read_cstr mem'' (if_identifier_str c) = None.
Proof.
  intros Eb Hb1 Hb2 Hr Hl. unfold haggle_interface_copy. rewrite Eb. cbn [mbind option_bind]. rewrite Hr. cbn [mbind option_bind negb].
  rewrite <- Hl, Nat.leb_refl, take_ge by done.
  assert (Hf : mem !! fresh (dom mem) = None) by (apply not_elem_of_dom, is_fresh).
  assert (Hne : fresh (dom mem) ≠ p) by (intros E; congruence).
  eexists (fresh (dom mem)), _, _, _. split; [reflexivity|]. split; [done|]. rewrite lookup_insert_eq. split; [reflexivity|].
  cbn [if_type if_status if_bytes if_name if_identifier_str]. split_and!; try done.
  - unfold haggle_interface_get_name, get_iface, gets, mbind, M_bind, mret, M_ret. by rewrite lookup_insert_eq.
  - unfold read_cstr in *. rewrite Hb1 in *. rewrite lookup_insert_ne by done. done.
  - unfold haggle_interface_free, modify. rewrite lookup_insert_ne, Eb by done. reflexivity.
  - rewrite lookup_delete_ne, lookup_insert_eq by done. reflexivity.
  - unfold read_cstr. by rewrite Hb1, lookup_delete_eq.
  - unfold read_cstr. by rewrite Hb2, lookup_delete_eq.
Qed.

(** ** Witnesses *)

Definition ex_mac : list Z := [0; 27; 99; 132; 69; 230].

Lemma haggle_interface_new_spec_witness :
  ∃ p b, haggle_interface_new true IF_TYPE_WIFI (Some "wlan0") (Some ex_mac) ∅ = Some (Some p, <[p := b]> ∅) ∧
         read_cstr (<[p := b]> ∅) (if_identifier_str b) = Some "00:1b:63:84:45:e6".
Proof.
  destruct (haggle_interface_new_spec ∅ IF_TYPE_WIFI "wlan0" ex_mac) as (p & b & E & _ & _ & _ & _ & _ & S).
  - repeat split; done.
  - repeat constructor; unfold is_byte; lia.
  - intros _. simpl. lia.
  - exists p, b. split; [exact E|]. rewrite S. vm_compute. reflexivity.
Defined.

Definition ex_block : haggle_interface :=
  Iface IF_TYPE_MEDIA IF_STATUS_UP (Ptr 1 1) (Ptr 1 4) 1 [Some 9; Some 101; Some 109; Some 0].

Lemma haggle_interface_copy_dangling_witness :
  ∃ q c mem' mem'', haggle_interface_copy true (Some 1%positive) {[1%positive := ex_block]} = Some (Some q, mem') ∧
    haggle_interface_free (Some 1%positive) mem' = Some (tt, mem'') ∧ mem'' !! q = Some c ∧ read_cstr mem'' (if_name c) = None.
Proof.
  destruct (haggle_interface_copy_dangling {[1%positive := ex_block]} 1 ex_block "em")
    as (q & c & mem' & mem'' & E & _ & _ & _ & _ & _ & _ & _ & F & Q & R & _); [reflexivity..|].
  exists q, c, mem', mem''. split; [exact E|]. split; [exact F|]. split; [exact Q|exact R].
Defined.

Definition ex_interface_meta : meta :=
  Md (Some "Interface") None
     [MkAttr "identifier" "ABtjhEXm" 1; MkAttr "name" "wlan0" 1; MkAttr "status" "up" 1; MkAttr "type" "wifi" 1] [].

Lemma haggle_interface_new_from_metadata_spec_witness :
  ∃ p b, haggle_interface_new_from_metadata true [0; 0; 0; 0] ex_interface_meta ∅ = Some (Some p, <[p := b]> ∅) ∧
         if_status b = IF_STATUS_UP ∧ iface_holds p b IF_TYPE_WIFI "wlan0" ex_mac.
Proof.
  destruct (haggle_interface_new_from_metadata_spec ∅ [0; 0; 0; 0] ex_interface_meta) as (r & mem' & E & H).
  - reflexivity.
  - split; [vm_compute; repeat split; done|]. intros idn Hi _. vm_compute in Hi. injection Hi as <-. simpl. lia.
  - change (meta_announces ex_interface_meta) with (Some ex_mac) in H. cbv beta iota in H.
    destruct H as (p & b & -> & _ & -> & Hs & Hh). exists p, b. split; [exact E|]. split; [exact Hs|exact Hh].
Defined.
