(* ===== verification/Node.v ===== *)
(** * Node: nodes and node lists, [libhaggle/node.c].

    A node is a value: its attributes are the sequence of its attribute list (what
    [Attribute] shows a list in the heap to hold), its interfaces the pointers of its
    interface list, in order.  The interface blocks themselves live in the store of
    [Interface], so that building and freeing nodes can be seen to be memory safe and
    to leak nothing. *)

From S2P Require Import Prelude CList Base64 Text Attribute Metadata MetaTree Interface.

Definition NODE_ID_LEN : nat := 20.

Record node := Node
  { n_name : option string; n_id : list Z; n_num_attr : Z; n_num_interfaces : Z;
    n_attributes : list attr; n_interfaces : list loc }.

Record nodelist := NodeList { nl_nodes : list node; nl_num_nodes : Z }.

Definition haggle_nodelist_new (malloc_ok : bool) : option nodelist :=
  if malloc_ok then Some (NodeList [] 0) else None.

Definition haggle_nodelist_size (nl : option nodelist) : Z :=
  match nl with Some nl => nl_num_nodes nl | None => HAGGLE_PARAM_ERROR end.

(** [list_add] puts the element first. *)
Definition haggle_nodelist_add_node (nl : option nodelist) (n : option node) : Z * option nodelist :=
  match nl, n with
  | Some nl, Some n => let k := nl_num_nodes nl + 1 in (k, Some (NodeList (n :: nl_nodes nl) k))
  | _, _ => (HAGGLE_PARAM_ERROR, nl)
  end.

(** The element at an [int] position of a list; no element is at a negative one. *)
Definition nth_int {A} (l : list A) (num : Z) : option A := if num <? 0 then None else l !! Z.to_nat num.

Definition haggle_nodelist_get_node_n (nl : option nodelist) (num : Z) : option node :=
  match nl with None => None | Some nl => if num <? 0 then None else nth_int (nl_nodes nl) num end.

Definition haggle_nodelist_pop (nl : option nodelist) : option node * option nodelist :=
  match nl with
  | None => (None, None)
  | Some nl =>
    if nl_num_nodes nl =? 0 then (None, Some nl) else
    match nl_nodes nl with
    | [] => (None, Some nl)
    | n :: ns => (Some n, Some (NodeList ns (nl_num_nodes nl - 1)))
    end
  end.

Definition haggle_node_add_interface (n : node) (iface : option loc) : node :=
  match iface with
  | None => n
  | Some p => Node (n_name n) (n_id n) (n_num_attr n) (n_num_interfaces n + 1) (n_attributes n) (p :: n_interfaces n)
  end.

Definition haggle_node_get_name (n : option node) : option string := n ← n; n_name n.
Definition haggle_node_get_num_interfaces (n : option node) : Z :=
  match n with Some n => n_num_interfaces n | None => HAGGLE_PARAM_ERROR end.
Definition haggle_node_get_interface_n (n : option node) (num : Z) : option loc :=
  n ← n; nth_int (n_interfaces n) num.
Definition haggle_node_get_num_attributes (n : option node) : Z :=
  match n with Some n => n_num_attr n | None => HAGGLE_PARAM_ERROR end.
Definition haggle_node_get_attribute_n (n : option node) (num : Z) : option attr :=
  n ← n; nth_int (n_attributes n) num.
Definition haggle_node_get_attribute_by_name (n : option node) (name : option string) : option attr :=
  n ← n; name ← name; snd <$> list_find (fun a => strcmp (an a) name = 0) (n_attributes n).
Definition haggle_node_get_attribute_by_name_value (n : option node) (name value : option string) : option attr :=
  n ← n; name ← name; value ← value;
  snd <$> list_find (fun a => strcmp (an a) name = 0 ∧ strcmp (av a) value = 0) (n_attributes n).

(** The loop of [haggle_node_get_attribute_by_name_n]: [i] counts the matches. *)
Fixpoint by_name_loop (l : list attr) (name : string) (num i : Z) : option attr :=
  match l with
  | [] => None
  | a :: l => if strcmp (an a) name =? 0 then if num =? i then Some a else by_name_loop l name num (i + 1)
              else by_name_loop l name num i
  end.
Definition haggle_node_get_attribute_by_name_n (n : option node) (name : option string) (num : Z) : option attr :=
  n ← n; name ← name; by_name_loop (n_attributes n) name num 0.

(** [haggle_attribute_new_weighted] answers NULL for a NULL name or value, or when an
    allocation fails; the node itself is not tested. *)
Definition haggle_node_add_attribute_weighted (malloc_ok : bool) (n : node) (name value : option string) (weight : Z) : Z * node :=
  match name, value with
  | Some name, Some value =>
    if malloc_ok then
      (n_num_attr n + 1,
       Node (n_name n) (n_id n) (n_num_attr n + 1) (n_num_interfaces n) (MkAttr name value weight :: n_attributes n) (n_interfaces n))
    else (HAGGLE_INTERNAL_ERROR, n)
  | _, _ => (HAGGLE_INTERNAL_ERROR, n)
  end.
Definition haggle_node_add_attribute (malloc_ok : bool) (n : node) (name value : option string) : Z * node :=
  haggle_node_add_attribute_weighted malloc_ok n name value 1.

Section Alloc.
(** [ctx_buf]: what the uninitialised buffer of a base64 context holds. *)
Context (malloc_ok : bool) (ctx_buf : list Z).

(** [base64_decode (&b64_ctx, id, strlen (id), n->id, &len)] with [len = 0]. *)
Definition decode_node_id (ids : string) (id : list Z) : option (list Z) :=
  r ← base64_decode (base64_decode_ctx_init ctx_buf) (bytes_of_string ids) 0;
  Some (dr_out r ++ drop (length (dr_out r)) id).

Fixpoint interface_loop (n : node) (mis : list meta) : IM node :=
  match mis with
  | [] => mret n
  | mi :: mis =>
    iface ← haggle_interface_new_from_metadata malloc_ok ctx_buf mi;
    interface_loop (haggle_node_add_interface n iface) mis
  end.

Definition haggle_node_new_from_metadata (m : option meta) : IM (option node) :=
  match m with
  | None => mret None
  | Some m =>
    if negb (md_name_is m "Node") then mret None else
    if negb malloc_ok then mret None else
    id ← (match md_get_parameter m "id" with
          | Some ids => gets (fun _ => decode_node_id ids (replicate NODE_ID_LEN 0))
          | None => mret (replicate NODE_ID_LEN 0)
          end);
    n ← interface_loop (Node (md_get_parameter m "name") id 0 0 [] []) (kids_named "Interface" m);
    mret (Some n)
  end.

Fixpoint free_interfaces (l : list loc) : IM unit :=
  match l with [] => mret tt | p :: l => _ ← haggle_interface_free (Some p); free_interfaces l end.

Definition haggle_node_free (n : option node) : IM unit :=
  match n with None => mret tt | Some n => free_interfaces (n_interfaces n) end.

Fixpoint node_loop (nl : nodelist) (mns : list meta) : IM nodelist :=
  match mns with
  | [] => mret nl
  | mn :: mns =>
    n ← haggle_node_new_from_metadata (Some mn);
    node_loop (match n with Some _ => default nl (haggle_nodelist_add_node (Some nl) n).2 | None => nl end) mns
  end.

Definition haggle_nodelist_new_from_metadata (m : option meta) : IM (option nodelist) :=
  match m with
  | None => mret None
  | Some m =>
    match haggle_nodelist_new malloc_ok with
    | None => mret None
    | Some nl => nl ← node_loop nl (kids_named "Node" m); mret (Some nl)
    end
  end.

Fixpoint free_nodes (l : list node) : IM unit :=
  match l with [] => mret tt | n :: l => _ ← haggle_node_free (Some n); free_nodes l end.

Definition haggle_nodelist_free (nl : option nodelist) : IM unit :=
  match nl with None => mret tt | Some nl => free_nodes (nl_nodes nl) end.
End Alloc.

(** ** Lemmas *)

(** A store [new] of interfaces was added, at the locations [l]. *)
Definition added (mem mem' : imem) (l : list loc) : Prop :=
  NoDup l ∧ Forall (fun p => mem !! p = None) l ∧ Forall (fun p => is_Some (mem' !! p)) l ∧
  ∀ q, q ∉ l → mem' !! q = mem !! q.

Lemma added_nil mem : added mem mem [].
Proof. split_and!; [constructor..|done]. Qed.

Lemma added_cons mem p b mem' l : mem !! p = None → added (<[p := b]> mem) mem' l → added mem mem' (p :: l).
Proof.
  intros Hp (Hd & Hn & Hs & Hq).
  assert (Hpl : p ∉ l).
  { intros Hin. rewrite Forall_forall in Hn. specialize (Hn p Hin). by rewrite lookup_insert_eq in Hn. }
  split_and!.
  - by constructor.
  - constructor; [done|]. eapply Forall_impl; [exact Hn|]. intros q E. cbn in E.
    destruct (decide (q = p)) as [->|]; [done|]. by rewrite lookup_insert_ne in E.
  - constructor; [|done]. rewrite Hq by done. rewrite lookup_insert_eq. by eexists.
  - intros q Hq'. apply not_elem_of_cons in Hq' as [? ?]. rewrite Hq by done. by rewrite lookup_insert_ne.
Qed.

Lemma added_trans m1 m2 m3 l1 l2 : added m1 m2 l1 → added m2 m3 l2 → added m1 m3 (l1 ++ l2).
Proof.
  intros (D1 & N1 & S1 & Q1) (D2 & N2 & S2 & Q2).
  assert (Hdis : ∀ p, p ∈ l1 → p ∉ l2).
  { intros p H1 H2. rewrite Forall_forall in S1, N2. destruct (S1 p H1) as [b Eb]. by rewrite (N2 p H2) in Eb. }
  split_and!.
  - apply NoDup_app. split_and!; auto.
  - apply Forall_app. split; [done|]. rewrite Forall_forall in N2 |- *. intros p Hp.
    rewrite <- Q1; [by apply N2|]. intros H1. by apply (Hdis p).
  - apply Forall_app. split; [|done]. rewrite Forall_forall in S1 |- *. intros p Hp. rewrite Q2; auto.
  - intros q Hq. rewrite not_elem_of_app in Hq. rewrite Q2, Q1; tauto.
Qed.

(** The order of the locations does not matter. *)
Lemma added_perm m1 m2 l l' : l ≡ₚ l' → added m1 m2 l → added m1 m2 l'.
Proof. intros Hp (D & N & S & Q). unfold added. by setoid_rewrite <- Hp. Qed.

(** Freeing what was added gives the store back. *)
Lemma free_added mem mem' l : added mem mem' l → free_interfaces l mem' = Some (tt, mem).
Proof.
  revert mem'. induction l as [|p l IH]; intros mem' (D & N & S & Q).
  - cbn. unfold mret, M_ret. do 2 f_equal. apply map_eq. intros q. apply Q. set_solver.
  - rewrite NoDup_cons in D. rewrite Forall_cons in N, S. destruct D as [Hp D], N as [Np N], S as [[b Eb] S].
    cbn [free_interfaces]. erewrite bind_run; [|unfold haggle_interface_free, modify; rewrite Eb; cbn; reflexivity].
    apply IH. split_and!; [done|done| |].
    + rewrite Forall_forall in S |- *. intros q Hq. rewrite lookup_delete_ne; [by apply S|congruence].
    + intros q Hq. destruct (decide (q = p)) as [->|]; [by rewrite lookup_delete_eq, Np|].
      rewrite lookup_delete_ne by done. apply Q. by apply not_elem_of_cons.
Qed.

(** The decoder stores nothing where there is no room. *)
Lemma decode_node_id_same ctx_buf ids id : length ctx_buf = 4%nat → decode_node_id ctx_buf ids id = Some id.
Proof.
  intros Hb. unfold decode_node_id. destruct (bytes_of_string ids) as [|c inp] eqn:E; [done|].
  destruct (base64_decode_ref (base64_decode_ctx_init ctx_buf) (c :: inp) 0) as (r & Er & _); [split; simpl; lia|done|].
  rewrite Er. cbn [mbind option_bind]. by rewrite (base64_decode_no_room _ _ _ Er).
Qed.

(** What stays allocated stays what it was. *)
Lemma added_keeps mem mem' l p b : added mem mem' l → mem !! p = Some b → mem' !! p = Some b.
Proof.
  intros (_ & N & _ & Q) Hp. rewrite Q; [done|]. intros Hin. rewrite Forall_forall in N. by rewrite (N p Hin) in Hp.
Qed.

(** The interface made from an element and its decoded identifier. *)
Definition iface_at (mem : imem) (p : loc) (x : meta * list Z) : Prop :=
  ∃ b, mem !! p = Some b ∧ if_status b = meta_status x.1 ∧
       iface_holds p b (meta_type x.1) (meta_if_name x.1) x.2.

Definition announced (mis : list meta) : list (meta * list Z) :=
  omap (fun mi => idn ← meta_announces mi; Some (mi, idn)) mis.

Definition with_interfaces (n : node) (ps : list loc) : node :=
  Node (n_name n) (n_id n) (n_num_attr n) (n_num_interfaces n + Z.of_nat (length ps)) (n_attributes n) (reverse ps ++ n_interfaces n).

Lemma interface_loop_run buf mis n mem :
  length buf = 4%nat → Forall meta_iface_ok mis →
  ∃ ps mem', interface_loop true buf n mis mem = Some (with_interfaces n ps, mem') ∧
             added mem mem' ps ∧ Forall2 (iface_at mem') ps (announced mis).
Proof.
  intros Hb. revert n mem. induction mis as [|mi mis IH]; intros n mem Hok.
  - exists [], mem. split_and!; [|apply added_nil|constructor].
    unfold with_interfaces. cbn. unfold mret, M_ret. rewrite Z.add_0_r. by destruct n.
  - apply Forall_cons in Hok as [Hmi Hok]. cbn [interface_loop].
    destruct (interface_from_metadata_run mem buf mi Hb Hmi) as (r & mem1 & E & Hr).
    rewrite (bind_run _ _ _ _ _ E). unfold announced. cbn [omap list_omap].
    destruct (meta_announces mi) as [idn|]; cbn [mbind option_bind].
    + destruct Hr as (p & b & -> & Hp & -> & Hs & Hh).
      destruct (IH (haggle_node_add_interface n (Some p)) (<[p := b]> mem) Hok) as (ps & mem' & E' & Ha & Hf).
      exists (p :: ps), mem'. split_and!; [|by eapply added_cons|].
      * rewrite E'. unfold with_interfaces, haggle_node_add_interface. cbn [n_name n_id n_num_attr n_num_interfaces n_attributes n_interfaces].
        do 2 f_equal. f_equal; [simpl; lia|]. by rewrite reverse_cons, <- app_assoc.
      * constructor; [|done]. exists b. split; [|by split].
        eapply added_keeps; [done|]. by rewrite lookup_insert_eq.
    + destruct Hr as [-> ->]. by apply IH.
Qed.

(** The node made from a [Node] element. *)
Definition node_holds (mem : imem) (n : node) (m : meta) : Prop :=
  n_name n = md_get_parameter m "name" ∧ n_id n = replicate NODE_ID_LEN 0 ∧
  n_num_attr n = 0 ∧ n_attributes n = [] ∧ n_num_interfaces n = Z.of_nat (length (n_interfaces n)) ∧
  Forall2 (iface_at mem) (reverse (n_interfaces n)) (announced (kids_named "Interface" m)).

Definition node_meta_ok (m : meta) : Prop := Forall meta_iface_ok (kids_named "Interface" m).

Lemma node_from_metadata_run buf m mem :
  length buf = 4%nat → md_name m = Some "Node" → node_meta_ok m →
  ∃ n mem', haggle_node_new_from_metadata true buf (Some m) mem = Some (Some n, mem') ∧
            node_holds mem' n m ∧ added mem mem' (n_interfaces n).
Proof.
  intros Hb Hn Hok. apply md_name_is_iff in Hn. unfold haggle_node_new_from_metadata. rewrite Hn. cbn [negb].
  erewrite bind_run.
  2: { instantiate (2 := replicate NODE_ID_LEN 0). instantiate (1 := mem).
       destruct (md_get_parameter m "id"); [|done]. unfold gets. by rewrite decode_node_id_same. }
  destruct (interface_loop_run buf (kids_named "Interface" m)
              (Node (md_get_parameter m "name") (replicate NODE_ID_LEN 0) 0 0 [] []) mem Hb Hok) as (ps & mem' & E & Ha & Hf).
  rewrite (bind_run _ _ _ _ _ E). eexists _, mem'. split; [reflexivity|].
  unfold node_holds, with_interfaces. cbn [n_name n_id n_num_attr n_num_interfaces n_attributes n_interfaces].
  rewrite app_nil_r, reverse_involutive, length_reverse. split_and!; try done.
  eapply added_perm; [|exact Ha]. by rewrite reverse_Permutation.
Qed.

Lemma iface_at_keeps mem mem' l p x : added mem mem' l → iface_at mem p x → iface_at mem' p x.
Proof. intros Ha (b & Hp & H). exists b. split; [by eapply added_keeps|done]. Qed.

Lemma node_holds_keeps mem mem' l n m : added mem mem' l → node_holds mem n m → node_holds mem' n m.
Proof.
  intros Ha (?&?&?&?&?&Hf). split_and!; try done. eapply Forall2_impl; [exact Hf|]. intros p x. by apply (iface_at_keeps mem mem' l).
Qed.

Definition all_interfaces (ns : list node) : list loc := concat (map n_interfaces ns).

Lemma node_loop_run buf mns nl mem :
  length buf = 4%nat → Forall (fun m => md_name m = Some "Node" ∧ node_meta_ok m) mns →
  ∃ ns mem', node_loop true buf nl mns mem =
               Some (NodeList (reverse ns ++ nl_nodes nl) (nl_num_nodes nl + Z.of_nat (length ns)), mem') ∧
             added mem mem' (all_interfaces ns) ∧ Forall2 (node_holds mem') ns mns.
Proof.
  intros Hb. revert nl mem. induction mns as [|mn mns IH]; intros nl mem Hok.
  - exists [], mem. split_and!; [|apply added_nil|constructor]. cbn. unfold mret, M_ret. rewrite Z.add_0_r. by destruct nl.
  - apply Forall_cons in Hok as [[Hn Hmn] Hok]. cbn [node_loop].
    destruct (node_from_metadata_run buf mn mem Hb Hn Hmn) as (n & mem1 & E & Hh & Ha).
    rewrite (bind_run _ _ _ _ _ E). cbn [haggle_nodelist_add_node snd default from_option].
    edestruct IH as (ns & mem' & E' & Ha' & Hf); [done|]. rewrite E'. exists (n :: ns), mem'.
    split_and!.
    + do 2 f_equal. unfold id. cbn [nl_nodes nl_num_nodes]. rewrite reverse_cons, <- app_assoc. f_equal. simpl. lia.
    + unfold all_interfaces. cbn [map concat]. by eapply added_trans.
    + constructor; [by eapply node_holds_keeps|done].
Qed.

Lemma all_interfaces_app ns ns' : all_interfaces (ns ++ ns') = all_interfaces ns ++ all_interfaces ns'.
Proof. unfold all_interfaces. by rewrite map_app, concat_app. Qed.

Lemma all_interfaces_reverse ns : all_interfaces (reverse ns) ≡ₚ all_interfaces ns.
Proof.
  induction ns as [|n ns IH]; [done|]. rewrite reverse_cons, all_interfaces_app, IH.
  unfold all_interfaces. cbn [map concat]. rewrite app_nil_r. apply Permutation_app_comm.
Qed.

Lemma free_interfaces_app l l' mem :
  free_interfaces (l ++ l') mem = match free_interfaces l mem with Some (_, mem1) => free_interfaces l' mem1 | None => None end.
Proof.
  revert mem. induction l as [|p l IH]; intros mem; [done|]. cbn [app free_interfaces]. unfold mbind, M_bind.
  destruct (haggle_interface_free (Some p) mem) as [[? mem1]|]; [apply IH|done].
Qed.

Lemma free_nodes_interfaces ns mem : free_nodes ns mem = free_interfaces (all_interfaces ns) mem.
Proof.
  revert mem. induction ns as [|n ns IH]; intros mem; [done|]. cbn [free_nodes haggle_node_free].
  unfold all_interfaces. cbn [map concat]. rewrite free_interfaces_app. unfold mbind, M_bind.
  destruct (free_interfaces (n_interfaces n) mem) as [[? mem1]|]; [apply IH|done].
Qed.

Lemma by_name_loop_nth l name num i :
  0 <= i → by_name_loop l name num i = if num <? i then None else nth_int (filter (fun a => an a = name) l) (num - i).
Proof.
  revert i. induction l as [|a l IH]; intros i Hi; cbn [by_name_loop].
  - destruct (num <? i); [done|]. unfold nth_int. by destruct (num - i <? 0).
  - rewrite filter_cons. destruct (Z.eqb_spec (strcmp (an a) name) 0) as [E|E]; rewrite strcmp_eq in E.
    + rewrite decide_True by done. destruct (Z.eqb_spec num i) as [->|Hne].
      * rewrite Z.ltb_irrefl, Z.sub_diag. done.
      * rewrite IH by lia. destruct (Z.ltb_spec num (i + 1)), (Z.ltb_spec num i); try lia; try done.
        unfold nth_int. destruct (Z.ltb_spec (num - (i + 1)) 0), (Z.ltb_spec (num - i) 0); try lia.
        replace (Z.to_nat (num - i)) with (S (Z.to_nat (num - (i + 1)))) by lia. done.
    + rewrite decide_False by done. by apply IH.
Qed.

Lemma list_find_strcmp (name : string) (l : list attr) :
  snd <$> list_find (fun a => strcmp (an a) name = 0) l = head (filter (fun a => an a = name) l).
Proof.
  induction l as [|a l IH]; [done|]. cbn [list_find]. rewrite filter_cons.
  case_decide as D; rewrite strcmp_eq in D; [by rewrite decide_True|]. rewrite decide_False by done.
  rewrite <- IH. by destruct (list_find _ l) as [[]|].
Qed.

Lemma list_find_strcmp2 (name value : string) (l : list attr) :
  snd <$> list_find (fun a => strcmp (an a) name = 0 ∧ strcmp (av a) value = 0) l =
  head (filter (fun a => an a = name ∧ av a = value) l).
Proof.
  induction l as [|a l IH]; [done|]. cbn [list_find]. rewrite filter_cons.
  case_decide as D; rewrite !strcmp_eq in D; [by rewrite decide_True|]. rewrite decide_False by done.
  rewrite <- IH. by destruct (list_find _ l) as [[]|].
Qed.

(** Adding attributes one after the other. *)
Fixpoint add_attributes (n : node) (l : list attr) : node :=
  match l with
  | [] => n
  | a :: l => add_attributes (haggle_node_add_attribute_weighted true n (Some (an a)) (Some (av a)) (aw a)).2 l
  end.

Lemma add_attributes_run n l :
  n_attributes (add_attributes n l) = reverse l ++ n_attributes n ∧
  n_num_attr (add_attributes n l) = n_num_attr n + Z.of_nat (length l).
Proof.
  revert n. induction l as [|a l IH]; intros n; cbn [add_attributes]; [split; [done|simpl; lia]|].
  destruct (IH (haggle_node_add_attribute_weighted true n (Some (an a)) (Some (av a)) (aw a)).2) as [-> ->].
  cbn [haggle_node_add_attribute_weighted snd n_attributes n_num_attr]. rewrite reverse_cons, <- app_assoc.
  split; [|simpl; lia]. by destruct a.
Qed.

Lemma nodelist_run buf m mem :
  length buf = 4%nat → Forall node_meta_ok (kids_named "Node" m) →
  ∃ nl mem', haggle_nodelist_new_from_metadata true buf (Some m) mem = Some (Some nl, mem') ∧
    haggle_nodelist_size (Some nl) = Z.of_nat (length (kids_named "Node" m)) ∧
    Forall2 (node_holds mem') (reverse (nl_nodes nl)) (kids_named "Node" m) ∧
    added mem mem' (all_interfaces (nl_nodes nl)) ∧
    haggle_nodelist_free (Some nl) mem' = Some (tt, mem).
Proof.
  intros Hb Hok. unfold haggle_nodelist_new_from_metadata. cbn [haggle_nodelist_new].
  destruct (node_loop_run buf (kids_named "Node" m) (NodeList [] 0) mem Hb) as (ns & mem' & E & Ha & Hf).
  { rewrite Forall_forall in Hok |- *. intros k Hk. split; [|by apply Hok].
    unfold kids_named in Hk. apply list_elem_of_filter in Hk as [Hk _]. by apply md_name_is_iff. }
  rewrite (bind_run _ _ _ _ _ E). eexists _, mem'. split; [reflexivity|].
  cbn [nl_nodes nl_num_nodes haggle_nodelist_size haggle_nodelist_free].
  rewrite app_nil_r, reverse_involutive, free_nodes_interfaces.
  assert (Ha' : added mem mem' (all_interfaces (reverse ns))) by (by rewrite all_interfaces_reverse || (eapply added_perm; [|exact Ha]; by rewrite all_interfaces_reverse)).
  split_and!; [by rewrite (Forall2_length _ _ _ Hf)|done|done|by apply free_added].
Qed.

(** ** Properties *)

(** The nodes of a neighbor list are read off the [Node] elements, last first, each
    with its name and, in document order, the interfaces its [Interface] elements
    announce; but the node identifier stays all zeros whatever the [id] parameter says.
    Nothing else in the store changes, and freeing the list gives the store back. *)
Theorem haggle_nodelist_new_from_metadata_spec buf m mem :
  length buf = 4%nat → Forall node_meta_ok (kids_named "Node" m) →
  ∃ nl mem', haggle_nodelist_new_from_metadata true buf (Some m) mem = Some (Some nl, mem') ∧
    haggle_nodelist_size (Some nl) = Z.of_nat (length (kids_named "Node" m)) ∧
    Forall2 (node_holds mem') (reverse (nl_nodes nl)) (kids_named "Node" m) ∧
    added mem mem' (all_interfaces (nl_nodes nl)) ∧
    haggle_nodelist_free (Some nl) mem' = Some (tt, mem).
Proof. apply nodelist_run. Qed.

(** A node answers its attributes last added first: by position, by name (the last
    one added with the name), by name and value, and the [k]-th with a name. *)
Theorem haggle_node_attributes_spec n l name value num :
  let n' := Some (add_attributes n l) in
  let as_ := reverse l ++ n_attributes n in
  haggle_node_get_num_attributes n' = n_num_attr n + Z.of_nat (length l) ∧
  haggle_node_get_attribute_n n' num = nth_int as_ num ∧
  haggle_node_get_attribute_by_name n' (Some name) = head (filter (fun a => an a = name) as_) ∧
  haggle_node_get_attribute_by_name_value n' (Some name) (Some value) =
    head (filter (fun a => an a = name ∧ av a = value) as_) ∧
  haggle_node_get_attribute_by_name_n n' (Some name) num = nth_int (filter (fun a => an a = name) as_) num.
Proof.
  destruct (add_attributes_run n l) as [E1 E2]. intros n' as_. unfold n'.
  unfold haggle_node_get_num_attributes, haggle_node_get_attribute_n, haggle_node_get_attribute_by_name,
    haggle_node_get_attribute_by_name_value, haggle_node_get_attribute_by_name_n. cbn [mbind option_bind]. rewrite E1, E2.
  split_and!; [done|done|apply list_find_strcmp|apply list_find_strcmp2|].
  rewrite by_name_loop_nth by lia. rewrite Z.sub_0_r. unfold nth_int. by destruct (num <? 0).
Qed.

(** ** Witnesses *)

Definition ex_node_meta : meta :=
  Md (Some "Node") None [MkAttr "id" "AAECAwQFBgcICQoLDA0ODxAREhM=" 1; MkAttr "name" "alice" 1] [ex_interface_meta].
Definition ex_neighbors : meta := Md (Some "Event") None [] [ex_node_meta].

Lemma haggle_nodelist_new_from_metadata_spec_witness :
  ∃ nl mem', haggle_nodelist_new_from_metadata true [0; 0; 0; 0] (Some ex_neighbors) ∅ = Some (Some nl, mem') ∧
    haggle_nodelist_size (Some nl) = 1 ∧ haggle_nodelist_free (Some nl) mem' = Some (tt, ∅).
Proof.
  destruct (haggle_nodelist_new_from_metadata_spec [0; 0; 0; 0] ex_neighbors ∅) as (nl & mem' & E & S & _ & _ & F).
  - reflexivity.
  - change (Forall node_meta_ok [ex_node_meta]). apply Forall_singleton. change (Forall meta_iface_ok [ex_interface_meta]).
    apply Forall_singleton. split; [vm_compute; repeat split; done|].
    intros idn Hi _. vm_compute in Hi. injection Hi as <-. simpl. lia.
  - exists nl, mem'. split; [exact E|]. split; [exact S|exact F].
Defined.
