(* ===== verification/MetadataXml.v ===== *)
(** * MetadataXml: the XML wire format, [libhaggle/metadata_xml.c].

    The document tree of libxml2 is the type [xmlNode]; every function of libxml2 is a
    parameter.  The definitions below use them as the code does, and the theorems state
    what they rely on, all of it documented behaviour (and that allocation succeeds), as
    the hypotheses [xmlNewNode_spec] to [dump_parse].  [codec] packs the component as
    the wire format the rest of the program uses. *)

From S2P Require Import Prelude CList Attribute Metadata MetaTree.

(** The value of a property is the content of its first child, [None] when it has
    none. *)
Inductive xmlNode :=
  | XElement (name : string) (properties : list (string * option string)) (children : list xmlNode)
  | XText (content : string)
  | XOther.

Section LibXml.
Context (xmlIsBlankNode : string → bool)
        (xmlNewNode : option string → option xmlNode)
        (xmlNewProp : xmlNode → string → string → option xmlNode)
        (xmlNewChild : option string → option string → option xmlNode)
        (xmlAddChild : xmlNode → xmlNode → xmlNode)
        (xmlParseMemory : list Z → option xmlNode)
        (xmlDocDumpFormatMemory : xmlNode → list Z).

(** [metadata_set_parameter (m, xa->name, xa->children->content)] for every property:
    undefined where there is no child. *)
Fixpoint set_properties (m : meta) (properties : list (string * option string)) : option meta :=
  match properties with
  | [] => Some m
  | (name, Some content) :: xa => set_properties (md_set_parameter name content m) xa
  | (_, None) :: _ => None
  end.

Fixpoint metadata_xml_parse (m : meta) (xn : xmlNode) : option meta :=
  match xn with
  | XElement _ properties children =>
    m ← set_properties m properties;
    (fix go (m : meta) (xnc : list xmlNode) : option meta :=
       match xnc with
       | [] => Some m
       | x :: xnc =>
         match x with
         | XElement name _ _ => mc ← metadata_xml_parse (md_new name None) x; go (md_add m mc) xnc
         | XText content => go (if negb (xmlIsBlankNode content) then md_set_content content m else m) xnc
         | XOther => go m xnc
         end
       end) m children
  | _ => Some m
  end.

(** [None] undefined, [Some None] NULL.  The root of a document is an element, so the
    test [xmlNodeIsText] on it, at the end of the function, never holds. *)
Definition metadata_xml_new_from_xml (raw : list Z) : option (option meta) :=
  match xmlParseMemory raw with
  | Some (XElement name properties children as root) =>
    m ← metadata_xml_parse (md_new name None) root;
    Some (Some m)
  | _ => Some None
  end.

(** The loop over the parameters: -1 when a property cannot be made. *)
Fixpoint new_properties (parameters : list attr) (xn : xmlNode) : Z * xmlNode :=
  match parameters with
  | [] => (1, xn)
  | a :: parameters =>
    match xmlNewProp xn (an a) (av a) with
    | None => (-1, xn)
    | Some xn => new_properties parameters xn
    end
  end.

(** [xmlNewChild (xn, NULL, name, content)] makes the child and [xmlAddChild] stands for
    its place, last in [xn]; the call on a NULL child answers -1; what was built stays. *)
Fixpoint metadata_xml_create_xml (m : meta) (xn : xmlNode) : Z * xmlNode :=
  match m with
  | Md _ _ parameters children =>
    let '(r, xn) := new_properties parameters xn in
    if r <? 0 then (-1, xn) else
    (fix go (mcs : list meta) (xn : xmlNode) : Z * xmlNode :=
       match mcs with
       | [] => (1, xn)
       | mc :: mcs =>
         match xmlNewChild (md_name mc) (md_content mc) with
         | None => (-1, xn)
         | Some c =>
           let '(r, c) := metadata_xml_create_xml mc c in
           if r <? 0 then (-1, xmlAddChild xn c) else go mcs (xmlAddChild xn c)
         end
       end) children xn
  end.

(** [!metadata_xml_create_xml (m, xn)] is the test for failure. *)
Definition metadata_xml_create_doc (m : meta) : option xmlNode :=
  match xmlNewNode (md_name m) with
  | None => None
  | Some xn =>
    let '(r, doc) := metadata_xml_create_xml m xn in
    if r =? 0 then None else Some doc
  end.

(** The result and the buffer of [len] bytes. *)
Definition metadata_xml_get_raw (m : meta) (buf : option (list Z)) : Z * option (list Z) :=
  match buf with
  | None => (-1, None)
  | Some buf =>
    let len := length buf in
    let buf := replicate len 0 in
    match metadata_xml_create_doc m with
    | None => (-1, Some buf)
    | Some doc =>
      let xml := xmlDocDumpFormatMemory doc in
      if (len <? length xml)%nat then (-3, Some buf)
      else (Z.of_nat (length xml), Some (xml ++ drop (length xml) buf))
    end
  end.

(** The result and [*buf] (its length is [*len]). *)
Definition metadata_xml_get_raw_alloc (m : meta) : Z * list Z :=
  match metadata_xml_create_doc m with
  | None => (-1, [])
  | Some doc =>
    let buf := xmlDocDumpFormatMemory doc in
    if (length buf =? 0)%nat then (-1, []) else (Z.of_nat (length buf), buf)
  end.

(** [metadata_xml.h] names these the wire format. *)
Definition codec : MetadataCodec :=
  {| metadata_new_from_raw := metadata_xml_new_from_xml; metadata_get_raw_alloc := metadata_xml_get_raw_alloc |}.

(** ** The round trip *)

Section XmlInd.
Context (P : xmlNode → Prop) (HE : ∀ n ps ks, Forall P ks → P (XElement n ps ks)) (HT : ∀ c, P (XText c)) (HO : P XOther).
Fixpoint xml_ind' (x : xmlNode) : P x :=
  match x with
  | XElement n ps ks =>
    HE n ps ks ((fix go (ks : list xmlNode) : Forall P ks :=
                   match ks with [] => Forall_nil_2 P | k :: ks => Forall_cons_2 P k ks (xml_ind' k) (go ks) end) ks)
  | XText c => HT c
  | XOther => HO
  end.
End XmlInd.

(** A tree without its blank text nodes, which indentation adds. *)
Definition blank (x : xmlNode) : bool := match x with XText c => xmlIsBlankNode c | _ => false end.
Fixpoint strip (x : xmlNode) : xmlNode :=
  match x with
  | XElement n ps ks => XElement n ps (List.filter (fun k => negb (blank k)) (map strip ks))
  | x => x
  end.

(** The loop over the children. *)
Fixpoint parse_children (m : meta) (xnc : list xmlNode) : option meta :=
  match xnc with
  | [] => Some m
  | x :: xnc =>
    match x with
    | XElement name _ _ => mc ← metadata_xml_parse (md_new name None) x; parse_children (md_add m mc) xnc
    | XText content => parse_children (if negb (xmlIsBlankNode content) then md_set_content content m else m) xnc
    | XOther => parse_children m xnc
    end
  end.

Lemma metadata_xml_parse_element m n ps ks :
  metadata_xml_parse m (XElement n ps ks) = (m ← set_properties m ps; parse_children m ks).
Proof. done. Qed.

Lemma parse_strip x m : metadata_xml_parse m (strip x) = metadata_xml_parse m x.
Proof.
  revert m. induction x as [n ps ks IH|c|] using xml_ind'; intros m; [|done|done].
  cbn [strip]. rewrite !metadata_xml_parse_element. destruct (set_properties m ps) as [m'|]; [|done]. cbn [mbind option_bind].
  clear m ps n. revert m'. induction IH as [|x ks Hx _ IHk]; intros m'; [done|].
  destruct x as [n ps kk|c|]; cbn [map].
  - change (List.filter ?f (strip (XElement n ps kk) :: ?l)) with (strip (XElement n ps kk) :: List.filter f l).
    change (parse_children m' (strip (XElement n ps kk) :: ?l)) with
      (mc ← metadata_xml_parse (md_new n None) (strip (XElement n ps kk)); parse_children (md_add m' mc) l).
    rewrite Hx. cbn [parse_children].
    match goal with |- context [metadata_xml_parse ?a ?b] => destruct (metadata_xml_parse a b) end; [apply IHk|done].
  - cbn [strip List.filter blank parse_children]. destruct (xmlIsBlankNode c) eqn:E; cbn [negb parse_children]; [apply IHk|].
    rewrite E. cbn [negb]. apply IHk.
  - cbn [strip List.filter blank negb parse_children]. apply IHk.
Qed.

(** What libxml2 promises of the nodes it makes: the content of a new child is split into
    nodes at its entities. *)
Context (xmlStringGetNodeList : string → list xmlNode).
Hypothesis xmlNewNode_spec : ∀ n, xmlNewNode (Some n) = Some (XElement n [] []).
Hypothesis xmlNewProp_spec : ∀ n ps ks a v, xmlNewProp (XElement n ps ks) a v = Some (XElement n (ps ++ [(a, Some v)]) ks).
Hypothesis xmlNewChild_spec : ∀ n c,
  xmlNewChild (Some n) c = Some (XElement n [] (match c with Some c => xmlStringGetNodeList c | None => [] end)).
Hypothesis xmlAddChild_spec : ∀ n ps ks c, xmlAddChild (XElement n ps ks) c = XElement n ps (ks ++ [c]).

(** The documents that survive: every element but the root may have a text, which is
    not blank and holds no entity, and the root has none. *)
Definition text_ok (c : option string) : Prop :=
  match c with None => True | Some c => xmlStringGetNodeList c = [XText c] ∧ xmlIsBlankNode c = false end.
Fixpoint body_ok (m : meta) : Prop :=
  match m with
  | Md n _ ps ks =>
    is_Some n ∧ params_wf ps ∧
    (fix go (ks : list meta) : Prop := match ks with [] => True | k :: ks => text_ok (md_content k) ∧ body_ok k ∧ go ks end) ks
  end.
Definition document_ok (m : meta) : Prop := body_ok m ∧ md_content m = None.

Lemma body_ok_inv n c ps ks :
  body_ok (Md n c ps ks) → is_Some n ∧ params_wf ps ∧ Forall (fun k => text_ok (md_content k) ∧ body_ok k) ks.
Proof.
  intros (Hn & Hp & Hg). split_and!; [done..|]. induction ks as [|k ks IH]; [constructor|]. constructor; tauto.
Qed.

Definition props_of (ps : list attr) : list (string * option string) := map (fun a => (an a, Some (av a))) ps.

Lemma new_properties_all ps n qs ks : new_properties ps (XElement n qs ks) = (1, XElement n (qs ++ props_of ps) ks).
Proof using xmlNewProp_spec.
  revert qs. induction ps as [|a ps IH]; intros qs; cbn [new_properties props_of map]; [by rewrite app_nil_r|].
  rewrite xmlNewProp_spec, IH. by rewrite <- app_assoc.
Qed.

Lemma set_properties_all m ps :
  set_properties m (props_of ps) = Some (fold_left (fun t a => md_set_parameter (an a) (av a) t) ps m).
Proof. revert m. induction ps as [|a ps IH]; intros m; [done|]. apply IH. Qed.

(** The loop of [metadata_xml_create_xml] over the children. *)
Fixpoint create_children (mcs : list meta) (xn : xmlNode) : Z * xmlNode :=
  match mcs with
  | [] => (1, xn)
  | mc :: mcs =>
    match xmlNewChild (md_name mc) (md_content mc) with
    | None => (-1, xn)
    | Some c =>
      let '(r, c) := metadata_xml_create_xml mc c in
      if r <? 0 then (-1, xmlAddChild xn c) else create_children mcs (xmlAddChild xn c)
    end
  end.

Lemma create_xml_eq n c ps ks nm qs tx :
  metadata_xml_create_xml (Md n c ps ks) (XElement nm qs tx) = create_children ks (XElement nm (qs ++ props_of ps) tx).
Proof using xmlNewProp_spec. cbn [metadata_xml_create_xml]. by rewrite new_properties_all. Qed.

(** The tree written for an element, over the texts [tx] it started with. *)
Lemma create_xml_run m tx nm :
  body_ok m → md_name m = Some nm →
  ∃ ks, metadata_xml_create_xml m (XElement nm [] tx) = (1, XElement nm (props_of (md_params m)) (tx ++ ks)) ∧
        ∀ t c, parse_children (Md (Some nm) c (md_params m) t) ks = Some (Md (Some nm) c (md_params m) (t ++ md_kids m)).
Proof.
  revert tx nm. induction m as [n c ps ks IH] using meta_ind'. intros tx nm Hok Hn. cbn in Hn. subst n.
  apply body_ok_inv in Hok as (_ & Hp & Hks). rewrite create_xml_eq. cbn [md_params md_kids app].
  revert tx. induction IH as [|k ks Hk _ IHk]; intros tx.
  - exists []. split; [by rewrite app_nil_r|]. intros t c'. cbn. by rewrite app_nil_r.
  - apply Forall_cons in Hks as [[Ht Hb] Hks].
    assert (∃ kn, md_name k = Some kn) as [kn Ek] by (destruct k; apply body_ok_inv in Hb as ([kn ->] & _); by exists kn).
    cbn [create_children]. rewrite Ek, xmlNewChild_spec.
    set (kt := match md_content k with Some _ => _ | None => _ end).
    destruct (Hk kt kn Hb Ek) as (kks & -> & Hparse). cbn [Z.ltb Z.compare]. rewrite xmlAddChild_spec.
    destruct (IHk Hks (tx ++ [XElement kn (props_of (md_params k)) (kt ++ kks)])) as (rest & E & Hr).
    exists (XElement kn (props_of (md_params k)) (kt ++ kks) :: rest). split; [by rewrite E, <- app_assoc|].
    intros t c'. cbn [parse_children]. rewrite metadata_xml_parse_element, set_properties_all. cbn [mbind option_bind].
    unfold md_new. destruct (body_ok_inv (md_name k) (md_content k) (md_params k) (md_kids k)) as (_ & Hkp & _); [by destruct k|].
    rewrite (set_parameters_all _ _ [] (md_params k) []) by done. cbn [app].
    assert (Epk : parse_children (Md (Some kn) None (md_params k) []) (kt ++ kks) = Some k).
    { unfold kt. destruct k as [kn' kc kps kkids]. cbn [md_name md_content md_params md_kids] in *. subst kn'.
      destruct kc as [kc|]; [|apply Hparse]. destruct Ht as [-> Hbl]. cbn [app parse_children]. rewrite Hbl. cbn [negb md_set_content].
      apply Hparse. }
    rewrite Epk. cbn [mbind option_bind md_add]. rewrite Hr, <- app_assoc. done.
Qed.

(** What libxml2 promises of a document it writes: it can be read, and reads back the
    same but for blank text nodes. *)
Context (writable : xmlNode → Prop).
Hypothesis dump_parse : ∀ x, writable x →
  xmlDocDumpFormatMemory x ≠ [] ∧ ∃ y, xmlParseMemory (xmlDocDumpFormatMemory x) = Some y ∧ strip y = strip x.

Lemma strip_element x n ps ks : strip x = XElement n ps ks → ∃ ks', x = XElement n ps ks'.
Proof. destruct x; cbn; intros E; simplify_eq. by eexists. Qed.

Definition without_content (m : meta) : meta := let 'Md n _ ps ks := m in Md n None ps ks.

Lemma xml_roundtrip m :
  body_ok m → (∀ doc, metadata_xml_create_doc m = Some doc → writable doc) →
  ∃ raw, metadata_xml_get_raw_alloc m = (Z.of_nat (length raw), raw) ∧ 0 < Z.of_nat (length raw) ∧
         (∀ buf, metadata_xml_get_raw m (Some buf) =
                 if (length buf <? length raw)%nat then (-3, Some (replicate (length buf) 0))
                 else (Z.of_nat (length raw), Some (raw ++ replicate (length buf - length raw) 0))) ∧
         metadata_xml_new_from_xml raw = Some (Some (without_content m)).
Proof.
  intros Hb Hw. destruct (md_name m) as [nm|] eqn:En; [|destruct m; cbn in *; subst; destruct Hb as [[? ?] _]; done].
  destruct (create_xml_run m [] nm Hb En) as (ks & E & Hp). cbn [app] in E.
  assert (Ed : metadata_xml_create_doc m = Some (XElement nm (props_of (md_params m)) ks))
    by (unfold metadata_xml_create_doc; by rewrite En, xmlNewNode_spec, E).
  specialize (Hw _ Ed). destruct (dump_parse _ Hw) as (Hne & y & Ey & Hs).
  unfold metadata_xml_get_raw_alloc, metadata_xml_get_raw. rewrite Ed.
  set (raw := xmlDocDumpFormatMemory _) in *. exists raw. destruct (Nat.eqb_spec (length raw) 0) as [|Hl]; [by destruct raw|].
  split_and!; [done|lia| |].
  { intros buf. destruct (length buf <? length raw)%nat; [done|]. by rewrite drop_replicate. }
  unfold metadata_xml_new_from_xml. rewrite Ey.
  destruct (strip_element y _ _ _ Hs) as [ks' ->].
  rewrite <- parse_strip, Hs, parse_strip, metadata_xml_parse_element, set_properties_all. cbn [mbind option_bind].
  destruct m as [n c ps kids]. cbn [md_name md_params md_kids without_content] in *. subst.
  destruct (body_ok_inv _ _ _ _ Hb) as (_ & Hps & _). unfold md_new.
  rewrite (set_parameters_all _ _ [] ps []) by done. cbn [app]. rewrite Hp. done.
Qed.

Definition codec_ok (m : meta) : Prop :=
  document_ok m ∧ ∀ doc, metadata_xml_create_doc m = Some doc → writable doc.

#[export] Instance xml_codec_ok : MetadataCodecOk codec codec_ok.
Proof.
  intros m [[Hb Hc] Hw]. destruct (xml_roundtrip m Hb Hw) as (raw & E & Hl & _ & Hr). exists raw. split_and!; [done..|].
  cbn [codec metadata_new_from_raw]. rewrite Hr. destruct m as [n c ps ks]. cbn in Hc. by subst.
Qed.

(** C38: a document of sorted parameters and plain texts, written and read back, is the
    same document, whatever white space the writer adds, except that the text of the
    root element is lost; writing into a buffer gives the same bytes, or -3 when they do
    not fit. *)
Theorem metadata_xml_roundtrip m :
  body_ok m → (∀ doc, metadata_xml_create_doc m = Some doc → writable doc) →
  ∃ raw, metadata_xml_get_raw_alloc m = (Z.of_nat (length raw), raw) ∧ 0 < Z.of_nat (length raw) ∧
         (∀ buf, metadata_xml_get_raw m (Some buf) =
                 if (length buf <? length raw)%nat then (-3, Some (replicate (length buf) 0))
                 else (Z.of_nat (length raw), Some (raw ++ replicate (length buf - length raw) 0))) ∧
         metadata_xml_new_from_xml raw = Some (Some (without_content m)).
Proof. apply xml_roundtrip. Qed.
End LibXml.

(** ** Witnesses *)

(** A libxml2 that knows one document and writes it indented. *)
Definition ex_blank (s : string) : bool := bool_decide (s = "  ").
Definition ex_nodes (s : string) : list xmlNode := [XText s].
Definition ex_written : xmlNode := XElement "Haggle" [("persistent", Some "yes")] [XElement "Attr" [("name", Some "Picture")] [XText "dog"]].
Definition ex_read : xmlNode :=
  XElement "Haggle" [("persistent", Some "yes")] [XText "  "; XElement "Attr" [("name", Some "Picture")] [XText "dog"]; XText "  "].
Definition ex_parse (raw : list Z) : option xmlNode := if decide (raw = [60; 62]) then Some ex_read else None.
Definition ex_dump (x : xmlNode) : list Z := [60; 62].
Definition ex_document : meta :=
  Md (Some "Haggle") (Some "lost") [MkAttr "persistent" "yes" 1] [Md (Some "Attr") (Some "dog") [MkAttr "name" "Picture" 1] []].

Definition ex_node (n : option string) : option xmlNode := n ← n; Some (XElement n [] []).
Definition ex_prop (x : xmlNode) (a v : string) : option xmlNode :=
  match x with XElement n ps ks => Some (XElement n (ps ++ [(a, Some v)]) ks) | _ => None end.
Definition ex_child (n c : option string) : option xmlNode :=
  n ← n; Some (XElement n [] (match c with Some c => ex_nodes c | None => [] end)).
Definition ex_add (x c : xmlNode) : xmlNode := match x with XElement n ps ks => XElement n ps (ks ++ [c]) | x => x end.

Lemma metadata_xml_roundtrip_witness :
  ∃ raw, metadata_xml_get_raw_alloc ex_node ex_prop ex_child ex_add ex_dump ex_document = (Z.of_nat (length raw), raw) ∧
         metadata_xml_new_from_xml ex_blank ex_parse raw = Some (Some (without_content ex_document)).
Proof.
  destruct (metadata_xml_roundtrip ex_blank ex_node ex_prop ex_child ex_add ex_parse ex_dump ex_nodes) with
    (writable := fun x => x = ex_written) (m := ex_document) as (raw & E & _ & _ & R); try (intros; reflexivity).
  - intros x ->. split; [discriminate|]. exists ex_read. split; reflexivity.
  - vm_compute. repeat split; try done; try (eexists; reflexivity); repeat constructor.
  - intros doc [= <-]. reflexivity.
  - exists raw. split; [exact E|exact R].
Defined.
