(* ===== verification/KernelMetadata.v ===== *)
(** * KernelMetadata: the metadata of the kernel ([Metadata.cpp], [XMLMetadata.cpp]).

    A [Metadata] object is a name, a content, parameters in a [Map] ([CppMap]) and children in a
    [HashMap] under their names ([CppHashMap]).  The pair of iterators [r] that [getMetadata]
    leaves for [getNextMetadata] is passed explicitly.  libxml2 is what it is in [MetadataXml], and
    [xmlNodeGetContent] one more parameter.

    The theorem of the file compares the kernel's reading of a document with the library's
    ([MetadataXml.metadata_xml_parse]): both sides of the socket see the same tree. *)

From S2P Require Import Prelude Text CList Attribute Metadata MetaTree MetadataXml CppString CppMap CppHashMap.

Inductive kmeta :=
  KMd (name content : string) (param_registry : @BasicMap string string) (registry : HashMap string kmeta).

Definition k_name (m : kmeta) : string := let 'KMd n _ _ _ := m in n.
Definition k_content (m : kmeta) : string := let 'KMd _ c _ _ := m in c.
Definition k_params (m : kmeta) : @BasicMap string string := let 'KMd _ _ ps _ := m in ps.
Definition k_registry (m : kmeta) : HashMap string kmeta := let 'KMd _ _ _ r := m in r.
Definition with_registry (m : kmeta) (r : HashMap string kmeta) : kmeta := let 'KMd n c ps _ := m in KMd n c ps r.
Definition with_params (m : kmeta) (ps : @BasicMap string string) : kmeta := let 'KMd n c _ r := m in KMd n c ps r.

(** The constructor. *)
Definition kmeta_new (name content : string) : kmeta := KMd name content bm_new hm_new.
Definition isName (m : kmeta) (name : string) : bool := string_eq (k_name m) name.

(** ** Parameters *)

Definition setParameter (m : kmeta) (name value : string) : option kmeta :=
  '(it, inserted, ps) ← CppMap.insert_unique string_lt string_eq (k_params m) (name, value);
  if inserted : bool then Some (with_params m ps)
  else
    i ← (it : CppMap.iterator); x ← slot (the_map ps) i; a ← write (the_map ps) i (Some (x.1, value));
    Some (with_params m (BMap a (number_of_entries ps) (map_size ps))).
(** The overloads for [unsigned long] and [long]. *)
Definition setParameter_lu (m : kmeta) (name : string) (value : Z) : option kmeta := setParameter m name (dec value).
Definition setParameter_ld (m : kmeta) (name : string) (value : Z) : option kmeta := setParameter m name (fmt_ld value).
Definition removeParameter (m : kmeta) (name : string) : option (bool * kmeta) :=
  '(n, ps) ← CppMap.erase string_lt string_eq (k_params m) name; Some (n =? 1, with_params m ps)%nat.
Definition getParameter (m : kmeta) (name : string) : option (option string) :=
  it ← CppMap.find string_lt string_eq (k_params m) name;
  match it with
  | None => Some None
  | Some _ => x ← deref (k_params m) it; Some (Some x.2)
  end.

Definition setContent (m : kmeta) (content : string) : kmeta := let 'KMd n _ ps r := m in KMd n content ps r.
Definition getContent (m : kmeta) : string := k_content m.

(** ** Children *)

Definition _addMetadata (m : kmeta) (c : option kmeta) : option (bool * kmeta) :=
  match c with
  | None => Some (false, m)
  | Some c => '(_, r) ← CppHashMap.insert Hash_string string_eq (k_registry m) (k_name c, c); Some (true, with_registry m r)
  end.
(** [addMetadata (name, content)], once what is done through the pointer it answers is done. *)
Definition addMetadata (m : kmeta) (c : kmeta) : option kmeta := '(_, m) ← _addMetadata m (Some c); Some m.

(** The loop of [removeMetadata]: [r.first] steps on before its node is erased. *)
Fixpoint remove_loop (fuel : nat) (reg : HashMap string kmeta) (first second : hm_iterator) (ret : bool)
  : option (bool * HashMap string kmeta) :=
  match fuel with
  | O => None
  | S fuel =>
    if it_eq first second then Some (ret, reg)
    else
      next ← find_next_filled_bucket reg first;
      reg ← erase_at reg first;
      remove_loop fuel reg (shift first next) (shift first second) true
  end.
Definition removeMetadata (m : kmeta) (name : string) : option (bool * kmeta) :=
  '(first, second) ← CppHashMap.equal_range Hash_string string_eq (k_registry m) name;
  '(ret, reg) ← remove_loop (S (Z.to_nat (hm_size (k_registry m)))) (k_registry m) first second false;
  Some (ret, with_registry m reg).

Fixpoint skip_n (n : nat) (reg : HashMap string kmeta) (first second : hm_iterator)
  : option (option kmeta * (hm_iterator * hm_iterator)) :=
  match n with
  | O => x ← hm_deref reg first; Some (Some x.2, (first, second))
  | S n =>
    first ← find_next_filled_bucket reg first;
    if it_eq first second then Some (None, (first, second)) else skip_n n reg first second
  end.
Definition getMetadata (m : kmeta) (name : string) (n : nat) : option (option kmeta * (hm_iterator * hm_iterator)) :=
  '(first, second) ← CppHashMap.equal_range Hash_string string_eq (k_registry m) name;
  if it_eq first second then Some (None, (first, second)) else skip_n n (k_registry m) first second.
Definition getNextMetadata (m : kmeta) (r : hm_iterator * hm_iterator) : option (option kmeta * (hm_iterator * hm_iterator)) :=
  last ← hm_end (k_registry m);
  if it_eq r.1 last || it_eq r.1 r.2 then Some (None, r)
  else
    first ← find_next_filled_bucket (k_registry m) r.1;
    if it_eq first r.2 then Some (None, (first, r.2))
    else x ← hm_deref (k_registry m) first; Some (Some x.2, (first, r.2)).

(** The loops of the kernel over the children with a name:
    [for (c = getMetadata (name); c; c = getNextMetadata ())]. *)
Fixpoint next_loop (fuel : nat) (m : kmeta) (c : option kmeta) (r : hm_iterator * hm_iterator) : option (list kmeta) :=
  match fuel with
  | O => None
  | S fuel =>
    match c with
    | None => Some []
    | Some c => '(c', r) ← getNextMetadata m r; l ← next_loop fuel m c' r; Some (c :: l)
    end
  end.
Definition children_named (m : kmeta) (name : string) : option (list kmeta) :=
  '(c, r) ← getMetadata m name 0; next_loop (S (Z.to_nat (hm_size (k_registry m)))) m c r.

(** Changing the first child with a name through its pointer. *)
Definition update_first (m : kmeta) (name : string) (f : kmeta → option kmeta) : option kmeta :=
  it ← CppHashMap.find Hash_string string_eq (k_registry m) name;
  b ← table (k_registry m) !! it_bucket it;
  x ← b !! it_pos it;
  c ← f x.2;
  r ← set_bucket (k_registry m) (it_bucket it) (<[it_pos it := (x.1, c)]> b) (hm_size (k_registry m));
  Some (with_registry m r).

(** ** XML *)

Section Xml.
Context (xmlIsBlankNode : string → bool) (xmlNodeGetContent : xmlNode → string)
        (xmlParseMemory : list Z → option xmlNode).

Fixpoint set_parameters (m : kmeta) (properties : list (string * option string)) : option kmeta :=
  match properties with
  | [] => Some m
  | (name, Some content) :: rest => m ← setParameter m name content; set_parameters m rest
  | (_, None) :: _ => None
  end.

(** The content given to a child: [""] unless its first node is a text that is not blank. *)
Definition child_content (xnc : xmlNode) : string :=
  match xnc with
  | XElement _ _ (XText t :: _) => if xmlIsBlankNode t then "" else xmlNodeGetContent xnc
  | _ => ""
  end.

Fixpoint parseXML (m : kmeta) (xn : xmlNode) : option kmeta :=
  match xn with
  | XElement _ properties children =>
    m ← set_parameters m properties;
    (fix go (m : kmeta) (xnc : list xmlNode) : option kmeta :=
       match xnc with
       | [] => Some m
       | x :: xnc =>
         match x with
         | XElement name _ _ => c ← parseXML (kmeta_new name (child_content x)) x; m ← addMetadata m c; go m xnc
         | _ => go m xnc
         end
       end) m children
  | _ => Some m
  end.

(** [None] undefined, [Some None] the answer false. *)
Definition initFromRaw (raw : list Z) : option (option kmeta) :=
  match xmlParseMemory raw with
  | Some (XElement name properties children as root) =>
    m ← parseXML (kmeta_new "" "") root;
    let 'KMd _ _ ps r := m in Some (Some (KMd name (xmlNodeGetContent root) ps r))
  | _ => Some None
  end.
End Xml.

(** ** A metadata object holds parameters and a sequence of children *)

Record k_wf (m : kmeta) (ps : gmap string string) (kids : list (string * kmeta)) : Prop := KWf
  { kw_params : ∃ l, map_wf string_lt (k_params m) l ps;
    kw_kids : hm_wf Hash_string (k_registry m) kids }.

Lemma new_wf name content : k_wf (kmeta_new name content) ∅ [].
Proof.
  split.
  - exists []. split; [split; cbn; try done; lia|constructor|constructor|done].
  - split; [apply (empty_table_rep Hash_string 7); lia|by left|left; cbn; lia].
Qed.

Lemma set_parameter_run m ps kids name value :
  k_wf m ps kids → ∃ m', setParameter m name value = Some m' ∧ k_wf m' (<[name := value]> ps) kids ∧
    k_name m' = k_name m ∧ k_content m' = k_content m ∧ k_registry m' = k_registry m.
Proof.
  intros [[l Hp] Hk]. destruct m as [n c bm r]. cbn [k_params k_registry] in *. unfold setParameter. cbn [k_params].
  destruct (insert_unique_spec string_lt string_eq bm l (name, value) (mw_rep _ _ _ _ Hp) (mw_sorted _ _ _ _ Hp))
    as (p & b & bm' & -> & Hb). cbn [mbind option_bind]. destruct b.
  - destruct Hb as (Hno & Hr & Hpl & Hs). eexists. split; [done|]. split; [|done]. split; [|done].
    eexists. apply (map_wf_insert string_lt bm l); done.
  - destruct Hb as (-> & y & Hy & Hyk). rewrite (rep_slot _ _ _ _ (mw_rep _ _ _ _ Hp) Hy). cbn [mbind option_bind].
    destruct (write_entry bm l p y (y.1, value) (mw_rep _ _ _ _ Hp) Hy) as (a & -> & Hr). cbn [mbind option_bind with_params].
    eexists. split; [done|]. split; [|done]. split; [|done]. cbn [k_params]. eexists.
    cbn [fst] in Hyk. rewrite Hyk in Hr. by apply (map_wf_assign string_lt bm l ps p name value y).
Qed.

Lemma get_parameter_run m ps kids name : k_wf m ps kids → getParameter m name = Some (ps !! name).
Proof.
  intros [[l Hp] _]. unfold getParameter.
  destruct (find_spec string_lt string_eq _ l name (mw_rep _ _ _ _ Hp) (mw_sorted _ _ _ _ Hp)) as (it & -> & Hit).
  cbn [mbind option_bind]. destruct it as [p|].
  - destruct Hit as [(x & Hx & Hk) _]. unfold deref. cbn [mbind option_bind]. rewrite (rep_slot _ _ _ _ (mw_rep _ _ _ _ Hp) Hx).
    cbn [mbind option_bind]. by rewrite (map_wf_found string_lt _ _ _ _ _ _ Hp Hx Hk).
  - by rewrite (map_wf_absent string_lt _ _ _ _ Hp Hit).
Qed.

Lemma remove_parameter_run m ps kids name :
  k_wf m ps kids → ∃ m', removeParameter m name = Some (bool_decide (is_Some (ps !! name)), m') ∧ k_wf m' (delete name ps) kids.
Proof.
  intros [[l Hp] Hk]. unfold removeParameter.
  destruct (map_erase_call string_lt string_eq "" (k_params m) l ps name Hp) as (r & bm' & l' & M' & E & Hp' & Hr).
  cbn [map_call map_spec] in E, Hr. destruct Hr as [-> ->]. destruct (CppMap.erase _ _ _ _) as [[n bm]|]; [|done].
  cbn [mbind option_bind] in *. injection E as -> ->. exists (with_params m bm'). destruct m as [nm c bm r]. cbn [with_params k_params k_registry] in *.
  split; [|by split; [exists l'|]]. do 2 f_equal. destruct (ps !! name) as [v|]; [by rewrite bool_decide_true|].
  rewrite bool_decide_false; [done|]. by intros [? ?].
Qed.

Lemma kernel_add_run m ps kids c :
  k_wf m ps kids → ∃ m', addMetadata m c = Some m' ∧ k_wf m' ps (kids ++ [(k_name c, c)]) ∧
    k_name m' = k_name m ∧ k_content m' = k_content m ∧ k_params m' = k_params m.
Proof.
  intros [Hp Hk]. unfold addMetadata, _addMetadata.
  destruct (insert_wf Hash_string string_eq string_key_eq (k_registry m) kids (k_name c, c) Hk) as (it & r & -> & Hr).
  cbn [mbind option_bind]. eexists. split; [done|]. destruct m. cbn [with_registry]. by split_and!.
Qed.

(** ** Removing *)

Lemma kernel_remove_loop_run fuel reg kids name vs first second rest ret l :
  hm_wf Hash_string reg l → values name l = vs → (∀ k, k ≠ name → values k l = values k kids) →
  points reg first (with_key name vs ++ rest) → points reg second rest → name ∉ rest.*1 → (length vs < fuel)%nat →
  ∃ reg', remove_loop fuel reg first second ret = Some (ret || bool_decide (vs ≠ []), reg') ∧
          hm_wf Hash_string reg' (filter (λ x, x.1 ≠ name) kids).
Proof.
  revert reg vs first second ret l. induction fuel as [|fuel IH]; intros reg vs first second ret l Hwf Hv Ho Hf Hs Hn Hl; [lia|].
  cbn [remove_loop]. rewrite (points_length reg first _ second rest Hf Hs), length_app.
  destruct vs as [|v vs].
  - rewrite bool_decide_true by done. rewrite bool_decide_false by (intros H; by apply H). rewrite orb_false_r. exists reg. split; [done|].
    assert (Hvals : ∀ k, values k l = values k (filter (λ x : string * kmeta, x.1 ≠ name) kids)).
    { intros k. destruct (decide (k = name)) as [->|Hne].
      - rewrite Hv. symmetry. apply values_none. intros (x & -> & [Hx _]%list_elem_of_filter)%list_elem_of_fmap. done.
      - rewrite Ho by done. unfold values. f_equal. rewrite list_filter_filter. apply list_filter_iff. intros x. split; [|tauto].
        intros <-. done. }
    apply (wf_smaller Hash_string reg l); [done| |done|].
    + by apply (hm_rep_ext Hash_string reg l); [apply Hwf|].
    + by rewrite (values_perm _ _ Hvals).
  - rewrite bool_decide_false by (cbn; lia). pose proof (hw_rep _ _ _ Hwf) as Hrep.
    destruct (next_points reg first _ _ (hr_sized _ _ _ Hrep) Hf) as (_ & next & -> & Hnext).
    destruct (erase_at_rep Hash_string string_eq string_key_eq reg l name v vs Hrep Hv)
      as (i & p & b & reg' & Efind & Hb & Hp & E & Hrep' & Ht & Hts).
    destruct (find_points Hash_string string_eq string_key_eq reg l name Hrep) as (it & rest' & Ef & Hit & Hr' & _).
    assert (first = HIt i i p) as ->
      by (pose proof (points_find Hash_string string_eq string_key_eq reg l name v vs first rest Hrep Hv Hf Hn); congruence).
    rewrite E. cbn [mbind option_bind].
    assert (Hlen : (length rest <= length (with_key name vs ++ rest))%nat) by (rewrite length_app; lia).
    destruct (IH reg' vs (shift (HIt i i p) next) (shift (HIt i i p) second) true (erase_first name l)) as (reg2 & E2 & Hwf2).
    + apply (wf_smaller Hash_string reg l); [done|done|done|]. rewrite (length_erase_first name l) by congruence. lia.
    + by rewrite values_erase_first, decide_True, Hv by done.
    + intros k Hne. rewrite values_erase_first, decide_False by done. by apply Ho.
    + by apply (shift_points reg reg' i p b (name, v) (with_key name vs ++ rest)).
    + by apply (shift_points reg reg' i p b (name, v) (with_key name vs ++ rest)).
    + done.
    + cbn in Hl. lia.
    + exists reg2. split; [|done]. rewrite E2. by rewrite (bool_decide_true (v :: vs ≠ [])), orb_true_r.
Qed.

Lemma kernel_remove_run m ps kids name :
  k_wf m ps kids → ∃ m', removeMetadata m name = Some (bool_decide (values name kids ≠ []), m') ∧
    k_wf m' ps (filter (λ x, x.1 ≠ name) kids) ∧ k_name m' = k_name m ∧ k_content m' = k_content m ∧ k_params m' = k_params m.
Proof.
  intros [Hp Hk]. pose proof (hw_rep _ _ _ Hk) as Hrep. unfold removeMetadata.
  destruct (equal_range_points Hash_string string_eq string_key_eq (k_registry m) kids name Hrep)
    as (lo & hi & rest & -> & _ & Hlo & Hhi & Hn). cbn [mbind option_bind].
  destruct (kernel_remove_loop_run (S (Z.to_nat (hm_size (k_registry m)))) (k_registry m) kids name (values name kids) lo hi rest false kids)
    as (reg & -> & Hwf); try done.
  { rewrite (hr_size _ _ _ Hrep). pose proof (values_length name kids). lia. }
  cbn [mbind option_bind orb]. eexists. split; [done|]. destruct m. by split_and!.
Qed.

(** ** Iterating *)

Lemma skip_n_run n reg kids name vs first second rest :
  hm_rep Hash_string reg kids → points reg first (with_key name vs ++ rest) → points reg second rest → (n < length vs)%nat ∨ vs ≠ [] →
  ∃ r, skip_n n reg first second = Some (vs !! n, r) ∧ points reg r.1 (with_key name (drop n vs) ++ rest) ∧ points reg r.2 rest.
Proof.
  intros H. revert vs first. induction n as [|n IH]; intros vs first Hf Hs Hn.
  - destruct vs as [|v vs]; [cbn in Hn; destruct Hn; [lia|done]|]. cbn [skip_n].
    destruct (next_points reg first _ _ (hr_sized _ _ _ H) Hf) as (-> & _). cbn [mbind option_bind snd lookup list_lookup].
    eexists. split; [done|]. done.
  - destruct vs as [|v vs]; [cbn in Hn; destruct Hn; [lia|done]|]. cbn [skip_n].
    destruct (next_points reg first _ _ (hr_sized _ _ _ H) Hf) as (_ & next & -> & Hnext). cbn [mbind option_bind].
    change (points reg next (with_key name vs ++ rest)) in Hnext.
    rewrite (points_length reg next _ second rest Hnext Hs), length_app. destruct vs as [|w vs].
    + rewrite bool_decide_true by done. eexists. split; [done|]. by destruct n.
    + rewrite bool_decide_false by (cbn; lia). by apply IH; [| |right].
Qed.

(** The [n]-th child with the name, NULL when there are fewer. *)
Lemma get_metadata_run m ps kids name n :
  k_wf m ps kids → ∃ r rest, getMetadata m name n = Some (values name kids !! n, r) ∧
    points (k_registry m) r.1 (with_key name (drop n (values name kids)) ++ rest) ∧ points (k_registry m) r.2 rest ∧ name ∉ rest.*1.
Proof.
  intros [_ Hk]. pose proof (hw_rep _ _ _ Hk) as Hrep. unfold getMetadata.
  destruct (equal_range_points Hash_string string_eq string_key_eq (k_registry m) kids name Hrep)
    as (lo & hi & rest & -> & _ & Hlo & Hhi & Hn). cbn [mbind option_bind].
  rewrite (points_length _ lo _ hi rest Hlo Hhi), length_app. destruct (values name kids) as [|v vs] eqn:Ev.
  - rewrite bool_decide_true by done. exists (lo, hi), rest. by destruct n.
  - rewrite bool_decide_false by (cbn; lia).
    destruct (skip_n_run n (k_registry m) kids name (v :: vs) lo hi rest Hrep Hlo Hhi) as (r & E & H1 & H2); [by right|].
    exists r, rest. by rewrite E.
Qed.

Lemma kernel_next_loop_run fuel m ps kids name vs r rest :
  k_wf m ps kids → points (k_registry m) r.1 (with_key name vs ++ rest) → points (k_registry m) r.2 rest →
  (length vs < fuel)%nat → next_loop fuel m (head vs) r = Some vs.
Proof.
  intros [Hp Hk]. pose proof (hr_sized _ _ _ (hw_rep _ _ _ Hk)) as Hs. destruct (end_points _ Hs) as (last & El & _ & He).
  revert vs r. induction fuel as [|fuel IH]; intros vs r H1 H2 Hf; [lia|]. cbn [next_loop].
  destruct vs as [|v vs]; [done|]. cbn [head]. unfold getNextMetadata. rewrite El. cbn [mbind option_bind].
  rewrite (He _ _ H1), (points_length _ _ _ _ _ H1 H2), length_app. rewrite !bool_decide_false by (cbn; done || lia). cbn [orb].
  destruct (next_points _ _ _ _ Hs H1) as (_ & next & -> & Hnext). cbn [mbind option_bind].
  change (points (k_registry m) next (with_key name vs ++ rest)) in Hnext.
  rewrite (points_length _ next _ _ _ Hnext H2), length_app. cbn in Hf. destruct vs as [|w vs].
  - rewrite bool_decide_true by done. pose proof (IH [] (next, r.2) Hnext H2 ltac:(cbn; lia)) as E. cbn [head] in E. cbn [mbind option_bind]. by rewrite E.
  - rewrite bool_decide_false by (cbn; lia). destruct (next_points _ _ _ _ Hs Hnext) as (-> & _). cbn [mbind option_bind snd].
    pose proof (IH (w :: vs) (next, r.2) Hnext H2 ltac:(cbn in *; lia)) as E. cbn [head] in E. cbn [mbind option_bind]. by rewrite E.
Qed.

Lemma children_named_run m ps kids name : k_wf m ps kids → children_named m name = Some (values name kids).
Proof.
  intros H. unfold children_named. destruct (get_metadata_run m ps kids name 0 H) as (r & rest & -> & H1 & H2 & _).
  cbn [mbind option_bind]. rewrite drop_0 in H1. replace (values name kids !! 0%nat) with (head (values name kids)) by by destruct (values name kids).
  apply (kernel_next_loop_run _ m ps kids name _ r rest H H1 H2).
  rewrite (hr_size _ _ _ (hw_rep _ _ _ (kw_kids _ _ _ H))). pose proof (values_length name kids). lia.
Qed.

(** ** Changing a child *)

Fixpoint set_first (name : string) (c : kmeta) (kids : list (string * kmeta)) : list (string * kmeta) :=
  match kids with [] => [] | x :: kids => if decide (x.1 = name) then (name, c) :: kids else x :: set_first name c kids end.

Lemma length_set_first name c kids : length (set_first name c kids) = length kids.
Proof. induction kids as [|x kids IH]; cbn; [done|]. case_decide; cbn; by rewrite ?IH. Qed.
Lemma values_set_first name c kids v vs :
  values name kids = v :: vs → ∀ k, values k (set_first name c kids) = if decide (k = name) then c :: vs else values k kids.
Proof.
  intros H k. revert H. induction kids as [|x kids IH]; [done|]. cbn [set_first]. unfold values in *. rewrite filter_cons.
  destruct (decide (x.1 = name)) as [E|E].
  - intros [= _ <-]. rewrite !filter_cons. cbn [fst]. destruct (decide (k = name)) as [->|Hk].
    + by rewrite decide_True.
    + by rewrite !decide_False by congruence.
  - intros H. rewrite !filter_cons. destruct (decide (x.1 = k)) as [Ek|Ek]; [|by apply IH].
    rewrite !fmap_cons, IH by done. case_decide; [congruence|done].
Qed.

Lemma update_first_run m ps kids name v vs f c :
  k_wf m ps kids → values name kids = v :: vs → f v = Some c →
  ∃ m', update_first m name f = Some m' ∧ k_wf m' ps (set_first name c kids) ∧
    k_name m' = k_name m ∧ k_content m' = k_content m ∧ k_params m' = k_params m.
Proof.
  intros [Hp Hk] Hv Ef. pose proof (hw_rep _ _ _ Hk) as Hrep.
  destruct (bucket_of Hash_string (k_registry m) kids name Hrep) as (b & Hb & Hok & Hvb & _).
  destruct (bucket_split name b Hok) as (b1 & vs' & b2 & Eb & H1 & H2 & Hvs & _ & Hre).
  assert (vs' = v :: vs) as -> by congruence. unfold update_first, CppHashMap.find. rewrite Hb. cbn [mbind option_bind].
  assert (key_pos string_eq name b = Some (length b1)) as -> by by rewrite Eb, (key_pos_spec string_eq string_key_eq).
  cbn [mbind option_bind it_bucket it_pos]. rewrite Hb. cbn [mbind option_bind].
  assert (b !! length b1 = Some (name, v)) as -> by (rewrite Eb; cbn [with_key fmap list_fmap app]; by rewrite list_lookup_middle).
  cbn [mbind option_bind fst snd]. rewrite Ef. cbn [mbind option_bind].
  assert (<[length b1 := (name, c)]> b = b1 ++ with_key name (c :: vs) ++ b2) as ->.
  { rewrite Eb. cbn [with_key fmap list_fmap app]. by rewrite insert_app_r_alt, Nat.sub_diag by lia. }
  destruct (set_bucket_rep Hash_string (k_registry m) kids name b (b1 ++ with_key name (c :: vs) ++ b2) (set_first name c kids)
              (hm_size (k_registry m)) Hrep Hb (Hre _)) as (r & -> & Hr & Ht).
  - by rewrite (hr_size _ _ _ Hrep), length_set_first.
  - intros x Hx. rewrite Eb. by apply (in_middle Hash_string name b1 (v :: vs) (c :: vs)).
  - intros k' Hne. rewrite Eb, !values_middle, (values_set_first _ _ _ _ _ Hv), decide_False by done. done.
  - by rewrite values_run, (values_set_first _ _ _ _ _ Hv), decide_True by done.
  - cbn [mbind option_bind]. eexists. split; [done|]. destruct m as [n ct pm reg]. cbn [with_registry k_params k_registry] in *.
    split_and!; [|done..]. split; [done|]. apply (wf_smaller Hash_string reg kids); [done|done|done|]. by rewrite length_set_first.
Qed.

(** ** The same document in the kernel and in the library *)

Section Agree.
Context (xmlIsBlankNode : string → bool) (xmlNodeGetContent : xmlNode → string).

(** The two trees have the same parameters, and under every name the same children in the same
    order; a content that is missing in the library is empty in the kernel.  The contents of the
    roots are not compared. *)
Inductive agrees : kmeta → meta → Prop :=
  | agrees_intro k m ps kids :
      k_wf k ps kids → md_name m = Some (k_name k) →
      (∀ name, ps !! name = md_get_parameter m name) →
      (∀ name, Forall2 (λ kc mc, agrees kc mc ∧ k_content kc = default "" (md_content mc)) (values name kids) (kids_named name m)) →
      agrees k m.

(** The elements that the two readers understand alike: either a single text that is not blank, or
    no text but blanks. *)
Definition blank_text (x : xmlNode) : Prop := match x with XText t => xmlIsBlankNode t = true | _ => True end.
Inductive plain : xmlNode → Prop :=
  | plain_text n ps t : xmlIsBlankNode t = false → plain (XElement n ps [XText t])
  | plain_element n ps ks : Forall blank_text ks → Forall plain ks → plain (XElement n ps ks)
  | plain_other x : (∀ n ps ks, x ≠ XElement n ps ks) → plain x.

Lemma plain_inv n ps ks :
  plain (XElement n ps ks) → (∃ t, ks = [XText t] ∧ xmlIsBlankNode t = false) ∨ Forall blank_text ks ∧ Forall plain ks.
Proof.
  intros H. inversion H as [? ? t Ht|? ? ? Hb Hp|x Hx]; simplify_eq; [left; by exists t|by right|by destruct (Hx n ps ks)].
Qed.

Hypothesis content_text : ∀ n ps t, xmlNodeGetContent (XElement n ps [XText t]) = t.

Abbreviation kparse := (parseXML xmlIsBlankNode xmlNodeGetContent).
Abbreviation lparse := (metadata_xml_parse xmlIsBlankNode).

(** The loop of [parseXML] over the children. *)
Fixpoint kparse_children (m : kmeta) (xnc : list xmlNode) : option kmeta :=
  match xnc with
  | [] => Some m
  | x :: xnc =>
    match x with
    | XElement name _ _ =>
      c ← kparse (kmeta_new name (child_content xmlIsBlankNode xmlNodeGetContent x)) x; m ← addMetadata m c; kparse_children m xnc
    | _ => kparse_children m xnc
    end
  end.
Lemma parseXML_element m n ps ks : kparse m (XElement n ps ks) = (m ← set_parameters m ps; kparse_children m ks).
Proof. done. Qed.

Definition both (P : kmeta → meta → Prop) (k : option kmeta) (m : option meta) : Prop :=
  match k, m with Some k, Some m => P k m | None, None => True | _, _ => False end.

(** What the two readers keep alike while they read an element. *)
Record same (k : kmeta) (m : meta) : Prop := Same
  { sm_agrees : agrees k m; sm_content : k_content k = default "" (md_content m) }.

Lemma set_parameters_same k m ps :
  agrees k m → both (λ k' m', agrees k' m' ∧ k_content k' = k_content k ∧ md_content m' = md_content m ∧ k_name k' = k_name k)
                    (set_parameters k ps) (set_properties m ps).
Proof.
  revert k m. induction ps as [|[n [c|]] ps IH]; intros k m H; cbn [set_parameters set_properties both]; [done| |done].
  destruct H as [k m pm kids Hwf Hn Hp Hk].
  destruct (set_parameter_run k pm kids n c Hwf) as (k1 & -> & Hwf1 & En & Ec & _). cbn [mbind option_bind].
  assert (agrees k1 (md_set_parameter n c m)) as H1.
  { econstructor; [done|by rewrite md_set_parameter_name, Hn, En| |].
    - intros name. rewrite md_get_set_parameter. destruct (decide (n = name)) as [->|]; [apply lookup_insert_eq|].
      by rewrite lookup_insert_ne.
    - intros name. unfold kids_named. rewrite md_set_parameter_kids. apply Hk. }
  specialize (IH k1 _ H1). unfold both in *. destruct (set_parameters k1 ps), (set_properties _ ps); [|done..].
  destruct IH as (? & ? & E & ?). rewrite md_set_parameter_content in E. split_and!; congruence || done.
Qed.

Lemma add_same k m kc mc :
  agrees k m → agrees kc mc → k_content kc = default "" (md_content mc) →
  ∃ k', addMetadata k kc = Some k' ∧ agrees k' (md_add m mc) ∧ k_content k' = k_content k ∧ k_name k' = k_name k.
Proof.
  intros [k0 m0 pm kids Hwf Hn Hp Hk] Hc Ec. destruct (kernel_add_run k0 pm kids kc Hwf) as (k' & E & Hwf' & En & Ek & _).
  exists k'. split_and!; [done| |done|done]. destruct m0 as [nm ct ps ks].
  econstructor; [done|by rewrite En|done|]. intros name. unfold kids_named. cbn [md_add md_kids]. rewrite filter_app, values_app.
  apply Forall2_app; [apply Hk|]. unfold values. rewrite !filter_cons. cbn [fst].
  assert (Hname : md_name_is mc name = true ↔ k_name kc = name).
  { rewrite md_name_is_iff. destruct Hc as [k1 m1 ? ? _ Hn1 _ _]. rewrite Hn1. split; [by intros [= ->]|by intros ->]. }
  destruct (decide (k_name kc = name)) as [Ekn|Ekn].
  - rewrite decide_True by by apply Hname. apply Forall2_cons. split; [by split|apply Forall2_nil_2].
  - rewrite decide_False by by rewrite Hname. apply Forall2_nil_2.
Qed.

Lemma new_agrees name content : agrees (kmeta_new name content) (md_new name None).
Proof. econstructor; [apply new_wf|done|done|]. intros n. constructor. Qed.

Definition content_of (x : xmlNode) : string := child_content xmlIsBlankNode xmlNodeGetContent x.

(** Reading a child: its content in the kernel is the one the library finds inside. *)
Lemma parse_same x n ps ks :
  plain x → x = XElement n ps ks →
  both (λ k m, agrees k m ∧ k_content k = default "" (md_content m) ∧ k_name k = n)
       (kparse (kmeta_new n (content_of x)) x) (lparse (md_new n None) x).
Proof.
  revert n ps ks. induction x as [n0 ps0 ks0 IH|c|] using xml_ind'; intros n ps ks Hpl E; [|done|done].
  injection E as -> -> ->. rewrite parseXML_element, metadata_xml_parse_element.
  pose proof (set_parameters_same _ _ ps (new_agrees n (content_of (XElement n ps ks)))) as H0. unfold both in H0.
  destruct (set_parameters _ ps) as [k|], (set_properties _ ps) as [m|]; [|done..]. cbn [mbind option_bind].
  destruct H0 as (Ha & Ec & Em & En). cbn [kmeta_new k_content k_name md_new md_content] in Ec, Em, En.
  apply plain_inv in Hpl as [(t & -> & Ht)|[Hb Hp]].
  - cbn [kparse_children parse_children]. rewrite Ht. cbn [negb both].
    unfold content_of, child_content in Ec. rewrite Ht, content_text in Ec. split_and!; [|by destruct m|done].
    destruct Ha as [k m pm kids Hwf Hn Hpp Hk]. destruct m as [nm ct mps mks]. by econstructor.
  - assert (Ec0 : k_content k = "").
    { rewrite Ec. unfold content_of, child_content. destruct ks as [|[| |] ks]; try done. apply Forall_cons in Hb as [Hb _]. cbn in Hb. by rewrite Hb. }
    assert (Hgo : both (λ k m, agrees k m ∧ k_content k = "" ∧ md_content m = None ∧ k_name k = n)
                       (kparse_children k ks) (parse_children xmlIsBlankNode m ks)).
    { clear Ec. revert k m Ha Ec0 Em En. induction IH as [|x ks Hx _ IHk]; intros k m Ha Ec0 Em En; [done|].
      apply Forall_cons in Hb as [Hb Hbs], Hp as [Hp Hps]. destruct x as [cn cps cks|t|]; cbn [kparse_children parse_children].
      - pose proof (Hx cn cps cks Hp eq_refl) as Hc. unfold both, content_of in Hc.
        destruct (kparse _ _) as [kc|], (lparse _ _) as [mc|]; [|done..]. cbn [mbind option_bind]. destruct Hc as (Hca & Hcc & _).
        destruct (add_same k m kc mc Ha Hca Hcc) as (k' & -> & Ha' & Ek & Enk). cbn [mbind option_bind].
        apply (IHk Hbs Hps); [done|congruence| |congruence]. by destruct m.
      - cbn in Hb. rewrite Hb. cbn [negb]. by apply (IHk Hbs Hps).
      - by apply (IHk Hbs Hps). }
    unfold both in *. destruct (kparse_children k ks), (parse_children _ m ks); [|done..]. destruct Hgo as (? & -> & -> & ?). done.
Qed.

(** The name and the content of the element being read do not matter to the reading. *)
Definition rename (n c : string) (k : kmeta) : kmeta := let 'KMd _ _ ps r := k in KMd n c ps r.

Lemma set_parameters_rename n c k ps : set_parameters (rename n c k) ps = rename n c <$> set_parameters k ps.
Proof.
  revert k. induction ps as [|[a [v|]] ps IH]; intros [kn kc kp kr]; [done| |done]. cbn [set_parameters rename]. unfold setParameter. cbn [k_params].
  destruct (CppMap.insert_unique _ _ _ _) as [[[it b] ps']|]; [|done]. cbn [mbind option_bind]. destruct b; cbn [mbind option_bind with_params].
  - apply (IH (KMd kn kc ps' kr)).
  - destruct it as [i|]; [|done]. cbn [mbind option_bind]. destruct (slot _ i); [|done]. cbn [mbind option_bind].
    destruct (write _ i _) as [a'|]; [|done]. cbn [mbind option_bind]. apply (IH (KMd kn kc _ kr)).
Qed.
Lemma kparse_children_rename n c k ks : kparse_children (rename n c k) ks = rename n c <$> kparse_children k ks.
Proof.
  revert k. induction ks as [|x ks IH]; intros k; [done|]. destruct x as [xn xp xk|t|]; cbn [kparse_children]; [|apply IH..].
  destruct (kparse _ _) as [kc|]; [|done]. cbn [mbind option_bind]. unfold addMetadata, _addMetadata. destruct k as [kn kct kp kr].
  cbn [rename k_registry with_registry]. destruct (CppHashMap.insert _ _ _ _) as [[it r]|]; [|done]. cbn [mbind option_bind with_registry].
  apply (IH (KMd kn kct kp r)).
Qed.
Lemma parse_rename n c k nm ps ks : kparse (rename n c k) (XElement nm ps ks) = rename n c <$> kparse k (XElement nm ps ks).
Proof.
  rewrite !parseXML_element, set_parameters_rename. destruct (set_parameters k ps); [|done]. apply kparse_children_rename.
Qed.

Lemma agrees_rename n c k m : agrees k m → agrees (rename n c k) (let 'Md _ ct ps ks := m in Md (Some n) ct ps ks).
Proof.
  intros [k0 m0 pm kids Hwf Hn Hp Hk]. destruct k0, m0. apply (agrees_intro _ _ pm kids); [|done|done|done].
  destruct Hwf. by split.
Qed.

(** What can be asked of the two trees has the same answers. *)
Lemma agrees_observed k m :
  agrees k m → md_name m = Some (k_name k) ∧ ∀ name,
    getParameter k name = Some (md_get_parameter m name) ∧
    ∃ kcs, children_named k name = Some kcs ∧
           Forall2 (λ kc mc, agrees kc mc ∧ getContent kc = default "" (md_content mc)) kcs (kids_named name m).
Proof.
  intros [k0 m0 pm kids Hwf Hn Hp Hk]. split; [done|]. intros name. rewrite (get_parameter_run _ _ _ name Hwf), Hp. split; [done|].
  exists (values name kids). split; [by apply (children_named_run _ pm)|apply Hk].
Qed.

Context (xmlParseMemory : list Z → option xmlNode).
Abbreviation kinit := (initFromRaw xmlIsBlankNode xmlNodeGetContent xmlParseMemory).
Abbreviation linit := (metadata_xml_new_from_xml xmlIsBlankNode xmlParseMemory).

Lemma init_same raw :
  (∀ x, xmlParseMemory raw = Some x → plain x) →
  match kinit raw, linit raw with
  | Some (Some k), Some (Some m) => agrees k m
  | Some None, Some None | None, None => True
  | _, _ => False
  end.
Proof using content_text.
  intros Hplain. unfold initFromRaw, metadata_xml_new_from_xml. destruct (xmlParseMemory raw) as [x|]; [|done].
  destruct x as [n ps ks|t|]; [|done..]. specialize (Hplain _ eq_refl).
  pose proof (parse_same _ n ps ks Hplain eq_refl) as H.
  change (kmeta_new "" "") with (rename "" "" (kmeta_new n (content_of (XElement n ps ks)))). rewrite parse_rename. unfold both in H.
  destruct (kparse _ _) as [k|], (lparse _ _) as [m|]; [|done..]. cbn [fmap option_fmap option_map mbind option_bind].
  destruct H as (Ha & _ & Hn). destruct k as [kn kc kps kr]. cbn [rename k_name] in *. subst kn.
  apply (agrees_rename n (xmlNodeGetContent (XElement n ps ks))) in Ha as Ha'.
  destruct (agrees_observed _ _ Ha) as [Hmn _]. destruct m. cbn in Hmn. by subst.
Qed.

(** C29: the kernel and the library read the same tree out of the same bytes: on a document in which
    every element holds either one text or no text, both succeed, fail or are undefined together,
    and then the names are the same, every parameter reads the same, and the loops over the
    children with a name - through the hash table here, along the list there - visit children with
    equal contents, pairwise alike again, in the same order. *)
Theorem kernel_reads_as_library raw :
  (∀ x, xmlParseMemory raw = Some x → plain x) →
  match kinit raw, linit raw with
  | Some (Some k), Some (Some m) =>
    agrees k m ∧ md_name m = Some (k_name k) ∧ ∀ name,
      getParameter k name = Some (md_get_parameter m name) ∧
      ∃ kcs, children_named k name = Some kcs ∧
             Forall2 (λ kc mc, agrees kc mc ∧ getContent kc = default "" (md_content mc)) kcs (kids_named name m)
  | Some None, Some None | None, None => True
  | _, _ => False
  end.
Proof using content_text.
  intros Hplain. pose proof (init_same raw Hplain) as H.
  destruct (kinit raw) as [[k|]|], (linit raw) as [[m|]|]; try done. split; [done|by apply agrees_observed].
Qed.
End Agree.

(** ** Witness *)

Definition ex_content (x : xmlNode) : string := match x with XElement _ _ [XText t] => t | _ => "" end.
Definition ex_plain : xmlNode :=
  XElement "Haggle" [("persistent", Some "yes")]
    [XText "  "; XElement "Attr" [("name", Some "Picture")] [XText "dog"]; XText "  "; XElement "Attr" [("name", Some "Song")] [XText "cat"]].
Definition ex_plain_parse (raw : list Z) : option xmlNode := if decide (raw = [60; 62]) then Some ex_plain else None.

Lemma kernel_reads_as_library_witness :
  ∃ k m, initFromRaw ex_blank ex_content ex_plain_parse [60; 62] = Some (Some k) ∧
         metadata_xml_new_from_xml ex_blank ex_plain_parse [60; 62] = Some (Some m) ∧ agrees k m ∧
         children_named k "Attr" = Some (values "Attr" (concat (table (k_registry k)))) ∧
         map getContent (values "Attr" (concat (table (k_registry k)))) = ["dog"; "cat"].
Proof.
  pose proof (kernel_reads_as_library ex_blank ex_content (λ n ps t, eq_refl) ex_plain_parse [60; 62]) as H.
  assert (Hp : ∀ x, ex_plain_parse [60; 62] = Some x → plain ex_blank x).
  { intros x E. vm_compute in E. injection E as <-. apply plain_element.
    - repeat constructor.
    - repeat constructor; by intros ? ? ?. }
  specialize (H Hp). destruct (initFromRaw ex_blank ex_content ex_plain_parse [60; 62]) as [[k|]|] eqn:Ek; [|vm_compute in Ek; discriminate Ek..].
  destruct (metadata_xml_new_from_xml ex_blank ex_plain_parse [60; 62]) as [[m|]|] eqn:Em; [|vm_compute in Em; discriminate Em..].
  exists k, m. split; [reflexivity|]. split; [reflexivity|]. split; [exact (proj1 H)|].
  vm_compute in Ek. injection Ek as <-. split; vm_compute; reflexivity.
Defined.
