(* ===== verification/KernelXml.v ===== *)
(** * KernelXml: writing the kernel's metadata ([XMLMetadata.cpp]), the other half of [KernelMetadata].

    The functions of libxml2 are the parameters they are in [MetadataXml], with the same
    hypotheses.  Parameters are written in the order of the map and children in the order in which
    the hash table has them, which is not the one in which they were added: what comes back is the
    same tree for everyone who asks by name. *)

From S2P Require Import Prelude Attribute Metadata MetaTree MetadataXml CppString CppMap CppHashMap KernelMetadata.

(** ** Writing *)

Section Write.
Context (xmlNewNode : option string → option xmlNode)
        (xmlNewProp : xmlNode → string → string → option xmlNode)
        (xmlNewChild : option string → option string → option xmlNode)
        (xmlAddChild : xmlNode → xmlNode → xmlNode)
        (xmlDocDumpFormatMemory : xmlNode → list Z).

(** The loop over the parameters; [None] is the answer false. *)
Fixpoint write_properties (l : list (string * string)) (xn : xmlNode) : option xmlNode :=
  match l with [] => Some xn | x :: l => xn ← xmlNewProp xn x.1 x.2; write_properties l xn end.

(** The loop over the children, calling [createXML] on the new child, which may be NULL.  The
    result is undefined ([None]), false ([Some None]) or the node. *)
Fixpoint write_children (createXML : kmeta → xmlNode → option (option xmlNode)) (l : list (string * kmeta)) (xn : xmlNode)
  : option (option xmlNode) :=
  match l with
  | [] => Some (Some xn)
  | x :: l =>
    let m := x.2 in
    match xmlNewChild (Some (k_name m)) (if (slen (k_content m) =? 0)%nat then None else Some (k_content m)) with
    | None => Some None
    | Some c =>
      c ← createXML m c;
      match c with None => Some None | Some c => write_children createXML l (xmlAddChild xn c) end
    end
  end.

(** The depth of the tree is the fuel. *)
Fixpoint k_depth (m : kmeta) : nat :=
  let 'KMd _ _ _ r := m in S (foldr Nat.max 0%nat (map (λ b, foldr Nat.max 0%nat (map (λ x, k_depth x.2) b)) (table r))).

Fixpoint createXML (fuel : nat) (m : kmeta) (xn : xmlNode) : option (option xmlNode) :=
  match fuel with
  | O => None
  | S fuel =>
    ps ← entries (k_params m);
    match write_properties ps xn with
    | None => Some None
    | Some xn => kids ← hm_entries (k_registry m); write_children (createXML fuel) kids xn
    end
  end.

Definition createXMLDoc (m : kmeta) : option (option xmlNode) :=
  match xmlNewNode (Some (k_name m)) with None => Some None | Some xn => createXML (k_depth m) m xn end.

(** The answer and the buffer; a document that cannot be made answers [false], which is 0. *)
Definition getRaw (m : kmeta) (buf : option (list Z)) : option (Z * option (list Z)) :=
  match buf with
  | None => Some (-1, None)
  | Some buf =>
    let len := length buf in
    let buf := replicate len 0 in
    doc ← createXMLDoc m;
    match doc with
    | None => Some (0, Some buf)
    | Some doc =>
      let xml := xmlDocDumpFormatMemory doc in
      Some (if (len <? length xml)%nat then (-3, Some buf)
            else (Z.of_nat (length xml), Some (xml ++ drop (length xml) buf)))
    end
  end.

(** [None] is the answer false. *)
Definition getRawAlloc (m : kmeta) : option (option (list Z)) :=
  doc ← createXMLDoc m;
  Some (doc ← doc; let xml := xmlDocDumpFormatMemory doc in if (length xml =? 0)%nat then None else Some xml).
End Write.

(** ** Depth *)

Lemma foldr_max_le (l : list nat) n : n ∈ l → (n <= foldr Nat.max 0%nat l)%nat.
Proof. induction l as [|a l IH]; [by intros ?%elem_of_nil|]. intros [->|H]%elem_of_cons; cbn; [lia|]. specialize (IH H). lia. Qed.
Lemma k_depth_child m x : x ∈ concat (table (k_registry m)) → (k_depth x.2 < k_depth m)%nat.
Proof.
  destruct m as [n c ps r]. cbn [k_registry k_depth]. intros (b & Hx & Hb)%list_elem_of_In%in_concat.
  apply list_elem_of_In in Hx, Hb. apply Nat.lt_succ_r. etrans; [|apply foldr_max_le, list_elem_of_fmap; by exists b].
  apply foldr_max_le, list_elem_of_fmap. by exists x.
Qed.

(** ** The round trip *)

Section RoundTrip.
Context (xmlIsBlankNode : string → bool) (xmlNodeGetContent : xmlNode → string)
        (xmlNewNode : option string → option xmlNode)
        (xmlNewProp : xmlNode → string → string → option xmlNode)
        (xmlNewChild : option string → option string → option xmlNode)
        (xmlAddChild : xmlNode → xmlNode → xmlNode)
        (xmlParseMemory : list Z → option xmlNode)
        (xmlDocDumpFormatMemory : xmlNode → list Z)
        (xmlStringGetNodeList : string → list xmlNode).
Hypothesis content_text : ∀ n ps t, xmlNodeGetContent (XElement n ps [XText t]) = t.
Hypothesis xmlNewNode_spec : ∀ n, xmlNewNode (Some n) = Some (XElement n [] []).
Hypothesis xmlNewProp_spec : ∀ n ps ks a v, xmlNewProp (XElement n ps ks) a v = Some (XElement n (ps ++ [(a, Some v)]) ks).
Hypothesis xmlNewChild_spec : ∀ n c,
  xmlNewChild (Some n) c = Some (XElement n [] (match c with Some c => xmlStringGetNodeList c | None => [] end)).
Hypothesis xmlAddChild_spec : ∀ n ps ks c, xmlAddChild (XElement n ps ks) c = XElement n ps (ks ++ [c]).

Abbreviation create := (createXML xmlNewProp xmlNewChild xmlAddChild).
Abbreviation create_kids := (write_children xmlNewChild xmlAddChild).
Abbreviation lparse_kids := (parse_children xmlIsBlankNode).

(** The trees that survive: below the root, an element has a text that is not blank and holds no
    entity, or children, not both. *)
Inductive plain_tree : meta → Prop :=
  | plain_tree_intro m :
      (∀ c, c ∈ md_kids m →
         (default "" (md_content c) = "" ∨
          ∃ t, md_content c = Some t ∧ xmlStringGetNodeList t = [XText t] ∧ xmlIsBlankNode t = false ∧ md_kids c = []) ∧
         plain_tree c) →
      plain_tree m.

Lemma plain_leaf m : md_kids m = [] → plain_tree m.
Proof. intros H. apply plain_tree_intro. rewrite H. by intros c ?%elem_of_nil. Qed.

Definition properties_of (l : list (string * string)) : list (string * option string) := map (λ x, (x.1, Some x.2)) l.

Lemma write_properties_run l n qs tx :
  write_properties xmlNewProp l (XElement n qs tx) = Some (XElement n (qs ++ properties_of l) tx).
Proof using xmlNewProp_spec.
  revert qs. induction l as [|x l IH]; intros qs; cbn [write_properties properties_of map]; [by rewrite app_nil_r|].
  rewrite xmlNewProp_spec. cbn [mbind option_bind]. by rewrite IH, <- app_assoc.
Qed.

Lemma properties_read l m : NoDup l.*1 →
  ∃ m', set_properties m (properties_of l) = Some m' ∧ md_name m' = md_name m ∧ md_content m' = md_content m ∧ md_kids m' = md_kids m ∧
        ∀ name, md_get_parameter m' name = match list_to_map (M := gmap string string) l !! name with Some v => Some v | None => md_get_parameter m name end.
Proof.
  revert m. induction l as [|[k v] l IH]; intros m Hnd; [by exists m|]. apply NoDup_cons in Hnd as [Hk Hnd].
  cbn [properties_of map set_properties fst snd]. destruct (IH (md_set_parameter k v m) Hnd) as (m' & E & En & Ec & Ek & Hp).
  exists m'. split; [exact E|]. rewrite md_set_parameter_name in En. rewrite md_set_parameter_content in Ec. rewrite md_set_parameter_kids in Ek.
  split_and!; [done..|]. intros name. rewrite Hp, md_get_set_parameter. cbn [list_to_map foldr fst snd].
  destruct (decide (k = name)) as [<-|Hne].
  - rewrite lookup_insert_eq. by rewrite not_elem_of_list_to_map_1.
  - by rewrite lookup_insert_ne.
Qed.

(** What a child is in the document, for the child [mc] of the tree. *)
Definition written_as (x : string * kmeta) (e : xmlNode) : Prop :=
  ∃ ps ks mc, e = XElement x.1 ps ks ∧ plain xmlIsBlankNode e ∧
    metadata_xml_parse xmlIsBlankNode (md_new x.1 None) e = Some mc ∧ md_name mc = Some x.1 ∧ agrees x.2 mc ∧
    k_content x.2 = default "" (md_content mc).


Lemma write_children_run rec l n qs :
  Forall (λ x, ∃ c e, xmlNewChild (Some (k_name x.2)) (if (slen (k_content x.2) =? 0)%nat then None else Some (k_content x.2)) = Some c ∧
                      rec x.2 c = Some (Some e) ∧ written_as x e) l →
  ∃ es, Forall2 written_as l es ∧ ∀ tx, create_kids rec l (XElement n qs tx) = Some (Some (XElement n qs (tx ++ es))).
Proof using xmlAddChild_spec.
  induction 1 as [|x l (c & e & Ec & Er & Hw) _ (es & Hes & IH)]; [exists []; split; [constructor|]; intros tx; by rewrite app_nil_r|].
  exists (e :: es). split; [by constructor|]. intros tx. cbn [write_children]. rewrite Ec, Er. cbn [mbind option_bind].
  by rewrite xmlAddChild_spec, IH, <- app_assoc.
Qed.

Lemma read_children_run l es : Forall2 written_as l es →
  ∃ mcs, Forall2 (λ x mc, md_name mc = Some x.1 ∧ agrees x.2 mc ∧ k_content x.2 = default "" (md_content mc)) l mcs ∧
         ∀ m, lparse_kids m es = Some (Md (md_name m) (md_content m) (md_params m) (md_kids m ++ mcs)).
Proof.
  induction 1 as [|x e l es (ps & ks & mc & -> & _ & Ep & Hn & Ha & Hc) _ (mcs & Hm & IH)].
  - exists []. split; [constructor|]. intros [n c ps ks]. cbn. by rewrite app_nil_r.
  - exists (mc :: mcs). split; [by constructor|]. intros [n c ps' ks']. cbn [parse_children]. rewrite Ep. cbn [mbind option_bind md_add].
    rewrite IH. cbn [md_name md_content md_params md_kids]. by rewrite <- app_assoc.
Qed.

Lemma children_by_name l mcs name :
  Forall2 (λ x mc, md_name mc = Some x.1 ∧ agrees x.2 mc ∧ k_content x.2 = default "" (md_content mc)) l mcs →
  Forall2 (λ kc mc, agrees kc mc ∧ k_content kc = default "" (md_content mc)) (values name l) (filter (λ c, md_name_is c name = true) mcs).
Proof.
  induction 1 as [|x mc l mcs (Hn & Ha & Hc) _ IH]; [constructor|]. unfold values in *. rewrite !filter_cons.
  assert (md_name_is mc name = true ↔ x.1 = name) as Hi by (rewrite md_name_is_iff, Hn; split; congruence).
  destruct (decide (x.1 = name)) as [E|E].
  - rewrite decide_True by by apply Hi. rewrite fmap_cons. by constructor.
  - rewrite decide_False by by rewrite Hi. done.
Qed.

Lemma agrees_entry k m x :
  agrees k m → x ∈ concat (table (k_registry k)) →
  k_name x.2 = x.1 ∧ ∃ mc, mc ∈ md_kids m ∧ agrees x.2 mc ∧ k_content x.2 = default "" (md_content mc).
Proof.
  intros [k0 m0 pm kids Hwf Hn Hp Hk] Hx. pose proof (hr_values _ _ _ (hw_rep _ _ _ (kw_kids _ _ _ Hwf)) x.1) as Hv.
  assert (x.2 ∈ values x.1 kids) as Hin.
  { rewrite <- Hv. apply list_elem_of_fmap. exists x. by rewrite list_elem_of_filter. }
  apply list_elem_of_lookup in Hin as [i Hi]. destruct (Forall2_lookup_l _ _ _ _ _ (Hk x.1) Hi) as (mc & Hmc & Ha & Hc).
  apply list_elem_of_lookup_2, list_elem_of_filter in Hmc as [Hmn Hmc]. apply md_name_is_iff in Hmn. split.
  - destruct Ha as [k1 m1 ? ? _ Hn1 _ _]. congruence.
  - by exists mc.
Qed.

Lemma agrees_name k m : agrees k m → md_name m = Some (k_name k).
Proof. by destruct 1. Qed.

(** An element is written as one that reads as the tree, over the text [tx] it started with. *)
Lemma create_run fuel : ∀ k m, agrees k m → plain_tree m → (k_depth k <= fuel)%nat →
  ∃ ps es mp mcs,
    (∀ tx, create fuel k (XElement (k_name k) [] tx) = Some (Some (XElement (k_name k) ps (tx ++ es)))) ∧
    Forall (λ e, ∃ n ps ks, e = XElement n ps ks) es ∧ Forall (plain xmlIsBlankNode) es ∧ (md_kids m = [] → es = []) ∧
    set_properties (md_new (k_name k) None) ps = Some mp ∧ md_content mp = None ∧
    (∀ c, lparse_kids (Md (md_name mp) c (md_params mp) (md_kids mp)) es = Some (Md (md_name mp) c (md_params mp) mcs)) ∧
    ∀ c, agrees k (Md (md_name mp) c (md_params mp) mcs).
Proof using content_text xmlNewProp_spec xmlNewChild_spec xmlAddChild_spec.
  induction fuel as [|fuel IH]; intros k m Ha Hpl Hd; [destruct k; cbn in Hd; lia|].
  assert (Forall (λ x, ∃ c e, xmlNewChild (Some (k_name x.2)) (if (slen (k_content x.2) =? 0)%nat then None else Some (k_content x.2)) = Some c ∧
                        create fuel x.2 c = Some (Some e) ∧ written_as x e) (concat (table (k_registry k)))) as Hch.
  { apply Forall_forall. intros x Hx. apply k_depth_child in Hx as Hdx. destruct (agrees_entry k m x Ha Hx) as (En & mc & Hmc & Hac & Ec).
    inversion Hpl as [m' Hpl']; subst m'. destruct (Hpl' mc Hmc) as [Htx Hplc].
    destruct (IH x.2 mc Hac Hplc ltac:(lia)) as (ps & es & mp & mcs & Er & Hel & Hpp & Hnil & Esp & Ecn & Epk & Hag).
    rewrite xmlNewChild_spec. eexists. eexists. split; [reflexivity|]. split; [apply Er|].
    rewrite En in *. assert (md_name mp = Some x.1) as Hmn by (rewrite <- En; by apply (agrees_name _ _ (Hag None))).
    assert (mp = Md (md_name mp) None (md_params mp) (md_kids mp)) as Emp by (destruct mp; cbn in *; by subst).
    destruct (Nat.eqb_spec (slen (k_content x.2)) 0) as [E0|E0].
    - assert (k_content x.2 = "") as Eempty by by destruct (k_content x.2).
      exists ps, es, (Md (md_name mp) None (md_params mp) mcs). split; [done|].
      split_and!; [|rewrite metadata_xml_parse_element, Esp|done|done|by rewrite Eempty].
      + apply plain_element; [|done]. eapply Forall_impl; [exact Hel|]. by intros ? (? & ? & ? & ->).
      + cbn [mbind option_bind app]. rewrite Emp at 1. apply Epk.
    - destruct Htx as [Hemp|(t & Et & Hnl & Hbl & Hkn)]; [by rewrite Ec, Hemp in E0|]. assert (k_content x.2 = t) as Ekc by by rewrite Ec, Et.
      rewrite Ekc. specialize (Hnil Hkn). subst es. rewrite Hnl. cbn [app]. exists ps, [XText t], (Md (md_name mp) (Some t) (md_params mp) mcs). split; [done|].
      split_and!; [by apply plain_text|rewrite metadata_xml_parse_element, Esp|done|done|done].
      cbn [mbind option_bind parse_children]. rewrite Hbl. cbn [negb]. specialize (Epk (Some t)). cbn [parse_children] in Epk.
      destruct mp as [mn mct mps mks]. cbn [md_set_content md_name md_params md_kids] in *. by injection Epk as ->. }
  destruct Ha as [k m pm kids Hwf Hn Hp Hk]. pose proof Hwf as [[l Hl] Hreg].
  pose proof (hw_rep _ _ _ Hreg) as Hrep.
  destruct (properties_read l (md_new (k_name k) None) (mw_nodup _ _ _ _ Hl)) as (mp & Esp & En & Ec & Ek & Hpp).
  set (es0 := concat (table (k_registry k))) in *.
  assert (entries (k_params k) = Some l) as El by apply (entries_spec _ _ (mw_rep _ _ _ _ Hl)).
  assert (hm_entries (k_registry k) = Some es0) as Ees.
  { apply entries_run; [apply Hrep|]. rewrite (hr_size _ _ _ Hrep). f_equal. symmetry. apply Permutation_length, values_perm, Hrep. }
  destruct (write_children_run (create fuel) es0 (k_name k) (properties_of l) Hch) as (es & Hes & Ewr).
  destruct (read_children_run es0 es Hes) as (mcs & Hmcs & Erd).
  exists (properties_of l), es, mp, mcs. cbn [md_new md_name md_kids md_content] in En, Ek, Ec. split_and!.
  - intros tx. cbn [createXML]. rewrite El. cbn [mbind option_bind]. rewrite write_properties_run, Ees. apply Ewr.
  - apply Forall_forall. intros e [i He]%list_elem_of_lookup. destruct (Forall2_lookup_r _ _ _ _ _ Hes He) as (x & _ & ps & ks & mc & -> & _). by eexists _, _, _.
  - apply Forall_forall. intros e [i He]%list_elem_of_lookup. destruct (Forall2_lookup_r _ _ _ _ _ Hes He) as (x & _ & ps & ks & mc & -> & Hpe & _). done.
  - intros Hnk. assert (es0 = []) as E0; [|rewrite E0 in Hes; by apply Forall2_nil_inv_l in Hes].
    destruct es0 as [|x es0'] eqn:E0; [done|]. destruct (agrees_entry k m x) as (_ & mc & Hmc & _).
    + by econstructor.
    + unfold es0 in *. rewrite E0. by left.
    + rewrite Hnk in Hmc. by apply elem_of_nil in Hmc.
  - done.
  - done.
  - intros c. rewrite Erd. cbn [md_name md_params md_kids md_content]. by rewrite Ek.
  - intros c. apply (agrees_intro _ _ pm kids); [done|by rewrite <- En| |].
    + intros name. specialize (Hpp name). change (md_get_parameter (Md (md_name mp) c (md_params mp) mcs) name) with (md_get_parameter mp name).
      rewrite Hpp, (mw_map _ _ _ _ Hl). by destruct (pm !! name).
    + intros name. rewrite <- (hr_values _ _ _ Hrep). apply children_by_name, Hmcs.
Qed.

(** What libxml2 promises of a document it writes: it reads back the same but for blank text
    nodes, and indentation leaves alone the elements that hold a text. *)
Context (writable : xmlNode → Prop).
Hypothesis dump_parse : ∀ x, writable x →
  xmlDocDumpFormatMemory x ≠ [] ∧
  ∃ y, xmlParseMemory (xmlDocDumpFormatMemory x) = Some y ∧ strip xmlIsBlankNode y = strip xmlIsBlankNode x ∧
       (plain xmlIsBlankNode x → plain xmlIsBlankNode y).

Abbreviation create_doc := (createXMLDoc xmlNewNode xmlNewProp xmlNewChild xmlAddChild).
Abbreviation raw_of := (getRawAlloc xmlNewNode xmlNewProp xmlNewChild xmlAddChild xmlDocDumpFormatMemory).
Abbreviation raw_into := (getRaw xmlNewNode xmlNewProp xmlNewChild xmlAddChild xmlDocDumpFormatMemory).
Abbreviation kinit := (initFromRaw xmlIsBlankNode xmlNodeGetContent xmlParseMemory).
Abbreviation linit := (metadata_xml_new_from_xml xmlIsBlankNode xmlParseMemory).

Lemma write_run k m :
  agrees k m → plain_tree m → (∀ doc, create_doc k = Some (Some doc) → writable doc) →
  ∃ raw m', raw ≠ [] ∧ raw_of k = Some (Some raw) ∧
    (∀ buf, raw_into k (Some buf) =
            Some (if (length buf <? length raw)%nat then (-3, Some (replicate (length buf) 0))
                  else (Z.of_nat (length raw), Some (raw ++ replicate (length buf - length raw) 0)))) ∧
    (∀ x, xmlParseMemory raw = Some x → plain xmlIsBlankNode x) ∧ linit raw = Some (Some m') ∧ agrees k m'.
Proof using All.
  intros Ha Hpl Hw. destruct (create_run (k_depth k) k m Ha Hpl (le_n _)) as (ps & es & mp & mcs & Er & Hel & Hpp & _ & Esp & Ec & Epk & Hag).
  specialize (Er []). cbn [app] in Er. assert (create_doc k = Some (Some (XElement (k_name k) ps es))) as Ed
    by (unfold createXMLDoc; by rewrite xmlNewNode_spec).
  specialize (Hw _ Ed). destruct (dump_parse _ Hw) as (Hne & y & Ey & Hs & Hpy).
  assert (plain xmlIsBlankNode (XElement (k_name k) ps es)) as Hpx.
  { apply plain_element; [|done]. eapply Forall_impl; [exact Hel|]. by intros ? (? & ? & ? & ->). }
  set (raw := xmlDocDumpFormatMemory (XElement (k_name k) ps es)) in *.
  exists raw, (Md (md_name mp) None (md_params mp) mcs). split_and!; [done| | | | |apply Hag].
  - unfold getRawAlloc. rewrite Ed. cbn [mbind option_bind]. fold raw. destruct (Nat.eqb_spec (length raw) 0); [by destruct raw|done].
  - intros buf. unfold getRaw. rewrite Ed. cbn [mbind option_bind]. fold raw. by rewrite drop_replicate.
  - intros x Ex. assert (x = y) as -> by congruence. by apply Hpy.
  - unfold metadata_xml_new_from_xml. rewrite Ey. destruct (strip_element _ y _ _ _ Hs) as [ks' ->].
    rewrite <- parse_strip, Hs, parse_strip, metadata_xml_parse_element, Esp. cbn [mbind option_bind].
    destruct mp as [mn mct mps mks]. cbn [md_content md_name md_params md_kids] in *. subst mct. by rewrite Epk.
Qed.

(** C32: what the kernel writes, the kernel and the library read: a tree of metadata that stands for
    [m] is written without fail - into a buffer the same bytes, or -3 when they do not fit - and both
    readers get from the bytes a tree that stands for the same [m'] as the one written.  So for
    every name the parameter is the one that was written, and the children are as many, with the
    same contents in the same order, and agree in turn. *)
Theorem kernel_xml_roundtrip k m :
  agrees k m → plain_tree m → (∀ doc, create_doc k = Some (Some doc) → writable doc) →
  ∃ raw k' m', raw ≠ [] ∧ raw_of k = Some (Some raw) ∧
    (∀ buf, raw_into k (Some buf) =
            Some (if (length buf <? length raw)%nat then (-3, Some (replicate (length buf) 0))
                  else (Z.of_nat (length raw), Some (raw ++ replicate (length buf - length raw) 0)))) ∧
    linit raw = Some (Some m') ∧ agrees k m' ∧ kinit raw = Some (Some k') ∧ agrees k' m' ∧
    k_name k' = k_name k ∧ ∀ name, getParameter k' name = getParameter k name ∧
      ∃ cs cs', children_named k name = Some cs ∧ children_named k' name = Some cs' ∧
        Forall2 (λ c c', getContent c' = getContent c ∧ ∃ mc, agrees c mc ∧ agrees c' mc) cs cs'.
Proof using All.
  intros Ha Hpl Hw. destruct (write_run k m Ha Hpl Hw) as (raw & m' & Hne & Er & Eb & Hplain & El & Hag).
  pose proof (init_same xmlIsBlankNode xmlNodeGetContent content_text xmlParseMemory raw Hplain) as Hi. rewrite El in Hi.
  destruct (kinit raw) as [[k'|]|] eqn:Ekr; [|done..]. exists raw, k', m'. split_and!; [done..| |].
  - pose proof (agrees_name _ _ Hag). pose proof (agrees_name _ _ Hi). congruence.
  - intros name. destruct (agrees_observed _ _ Hag) as (_ & Ho), (agrees_observed _ _ Hi) as (_ & Ho').
    destruct (Ho name) as (-> & cs & Ecs & Hcs), (Ho' name) as (-> & cs' & Ecs' & Hcs'). split; [done|]. exists cs, cs'. split_and!; [done..|].
    clear -Hcs Hcs'. revert cs' Hcs'. induction Hcs as [|c mc cs mcs [H1 H2] _ IH]; intros cs' H.
    + apply Forall2_nil_inv_r in H as ->. constructor.
    + apply Forall2_cons_inv_r in H as (c' & cs2 & [H3 H4] & H5 & ->). constructor; [|by apply IH]. split; [congruence|by exists mc].
Qed.
End RoundTrip.

(** ** Witness *)

(** A document, the order in which its children come back, and the text that is read then. *)
Definition ex_dog : xmlNode := XElement "Attr" [("name", Some "Picture")] [XText "dog"].
Definition ex_cat : xmlNode := XElement "Attr" [] [XText "cat"].
Definition ex_source : xmlNode := XElement "Haggle" [("persistent", Some "yes")] [ex_dog; XElement "Data" [] []; ex_cat].
Definition ex_rewritten : xmlNode := XElement "Haggle" [("persistent", Some "yes")] [ex_dog; ex_cat; XElement "Data" [] []].
Definition ex_reread : xmlNode :=
  XElement "Haggle" [("persistent", Some "yes")] [XText "  "; ex_dog; XText "  "; ex_cat; XText "  "; XElement "Data" [] []; XText "  "].
Definition ex_reparse (raw : list Z) : option xmlNode :=
  if decide (raw = [60; 62]) then Some ex_source else if decide (raw = [60; 62; 10]) then Some ex_reread else None.
Definition ex_redump (x : xmlNode) : list Z := [60; 62; 10].

Lemma ex_source_plain x : ex_reparse [60; 62] = Some x → plain ex_blank x.
Proof. intros E. vm_compute in E. injection E as <-. apply plain_element; repeat constructor. Qed.
Lemma ex_reread_plain : plain ex_blank ex_reread.
Proof. apply plain_element; repeat constructor; by intros ? ? ?. Qed.

Lemma kernel_xml_roundtrip_witness :
  ∃ k k', initFromRaw ex_blank ex_content ex_reparse [60; 62] = Some (Some k) ∧
    getRawAlloc ex_node ex_prop ex_child ex_add ex_redump k = Some (Some [60; 62; 10]) ∧
    initFromRaw ex_blank ex_content ex_reparse [60; 62; 10] = Some (Some k') ∧
    getParameter k' "persistent" = getParameter k "persistent" ∧
    ∃ cs cs', children_named k "Attr" = Some cs ∧ children_named k' "Attr" = Some cs' ∧
      map getContent cs = ["dog"; "cat"] ∧
      Forall2 (λ c c', getContent c' = getContent c ∧ ∃ mc, agrees c mc ∧ agrees c' mc) cs cs'.
Proof.
  pose proof (init_same ex_blank ex_content (λ n ps t, eq_refl) ex_reparse [60; 62] ex_source_plain) as Ha.
  destruct (initFromRaw ex_blank ex_content ex_reparse [60; 62]) as [[k|]|] eqn:Ek; [|vm_compute in Ek; discriminate Ek..].
  destruct (metadata_xml_new_from_xml ex_blank ex_reparse [60; 62]) as [[m|]|] eqn:Em; [|vm_compute in Em; discriminate Em..].
  assert (Hp : plain_tree ex_blank ex_nodes m).
  { vm_compute in Em. injection Em as <-.
    apply plain_tree_intro, Forall_forall. cbn [md_kids].
    apply Forall_cons_2; [split; [right; exists "dog"; repeat split; reflexivity|by apply plain_leaf]|].
    apply Forall_cons_2; [split; [by left|by apply plain_leaf]|].
    apply Forall_cons_2; [split; [right; exists "cat"; repeat split; reflexivity|by apply plain_leaf]|apply Forall_nil_2]. }
  destruct (kernel_xml_roundtrip ex_blank ex_content ex_node ex_prop ex_child ex_add ex_reparse ex_redump ex_nodes) with
    (writable := λ x, x = ex_rewritten) (k := k) (m := m) as (raw & k' & m' & _ & Er & _ & _ & _ & Ek' & _ & _ & Ho); try (intros; reflexivity).
  - intros x ->. split; [discriminate|]. exists ex_reread. split; [reflexivity|]. split; [reflexivity|]. intros _. exact ex_reread_plain.
  - exact Ha.
  - exact Hp.
  - intros doc Ed. vm_compute in Ek. injection Ek as <-. vm_compute in Ed. by injection Ed as <-.
  - assert (raw = [60; 62; 10]) as -> by (vm_compute in Ek; injection Ek as <-; vm_compute in Er; by injection Er as <-).
    exists k, k'. split; [reflexivity|]. split; [exact Er|]. split; [exact Ek'|]. split; [exact (proj1 (Ho "persistent"))|].
    destruct (Ho "Attr") as (_ & cs & cs' & E1 & E2 & H). exists cs, cs'. split; [exact E1|]. split; [exact E2|]. split; [|exact H].
    vm_compute in Ek. injection Ek as <-. vm_compute in E1. injection E1 as <-. reflexivity.
Defined.
