(* ===== verification/DataObject.v ===== *)
(** * DataObject: data objects, [libhaggle/dataobject.c].

    A data object is a value: its metadata is a tree of [MetaTree], its attribute list
    the sequence that [Attribute] shows a list in the heap to hold.  A function that
    changes its data object returns the new one.  [None] stands for undefined
    behaviour (a NULL string, a buffer overrun, a use after free).  Allocations of the
    C library succeed here.  The raw wire format is the interface [MetadataCodec]; the
    files are a map from paths to contents. *)

From S2P Require Import Prelude CList Base64 Sha1 Text Attribute Metadata MetaTree.

Definition DATAOBJECT_FLAG_PERSISTENT : Z := 1.
Definition HASH_LENGTH : nat := 20.
Definition HAGGLE_TAG : string := "Haggle".

(** [raw]: NULL, an allocated buffer, or a pointer to a freed one. *)
Inductive raw_ptr := RNull | RBuf (b : list Z) | RFreed.

Record dataobject := DataObj
  { d_flags : Z; d_createtime : Z * Z; d_filename : option string; d_filepath : option string;
    d_datalen : Z; d_fp : option (list Z); d_hash : list Z; d_hash_str : option string;
    d_thumbnail_str : option string; d_al : list attr; d_raw : raw_ptr; d_raw_len : Z; d_m : meta }.

Definition with_flags (d : dataobject) (v : Z) : dataobject :=
  DataObj v (d_createtime d) (d_filename d) (d_filepath d) (d_datalen d) (d_fp d) (d_hash d) (d_hash_str d) (d_thumbnail_str d) (d_al d) (d_raw d) (d_raw_len d) (d_m d).
Definition with_createtime (d : dataobject) (v : Z * Z) : dataobject :=
  DataObj (d_flags d) v (d_filename d) (d_filepath d) (d_datalen d) (d_fp d) (d_hash d) (d_hash_str d) (d_thumbnail_str d) (d_al d) (d_raw d) (d_raw_len d) (d_m d).
Definition with_filename (d : dataobject) (v : option string) : dataobject :=
  DataObj (d_flags d) (d_createtime d) v (d_filepath d) (d_datalen d) (d_fp d) (d_hash d) (d_hash_str d) (d_thumbnail_str d) (d_al d) (d_raw d) (d_raw_len d) (d_m d).
Definition with_filepath (d : dataobject) (v : option string) : dataobject :=
  DataObj (d_flags d) (d_createtime d) (d_filename d) v (d_datalen d) (d_fp d) (d_hash d) (d_hash_str d) (d_thumbnail_str d) (d_al d) (d_raw d) (d_raw_len d) (d_m d).
Definition with_datalen (d : dataobject) (v : Z) : dataobject :=
  DataObj (d_flags d) (d_createtime d) (d_filename d) (d_filepath d) v (d_fp d) (d_hash d) (d_hash_str d) (d_thumbnail_str d) (d_al d) (d_raw d) (d_raw_len d) (d_m d).
Definition with_fp (d : dataobject) (v : option (list Z)) : dataobject :=
  DataObj (d_flags d) (d_createtime d) (d_filename d) (d_filepath d) (d_datalen d) v (d_hash d) (d_hash_str d) (d_thumbnail_str d) (d_al d) (d_raw d) (d_raw_len d) (d_m d).
Definition with_hash (d : dataobject) (h : list Z) (v : option string) : dataobject :=
  DataObj (d_flags d) (d_createtime d) (d_filename d) (d_filepath d) (d_datalen d) (d_fp d) h v (d_thumbnail_str d) (d_al d) (d_raw d) (d_raw_len d) (d_m d).
Definition with_thumbnail (d : dataobject) (v : option string) : dataobject :=
  DataObj (d_flags d) (d_createtime d) (d_filename d) (d_filepath d) (d_datalen d) (d_fp d) (d_hash d) (d_hash_str d) v (d_al d) (d_raw d) (d_raw_len d) (d_m d).
Definition with_al (d : dataobject) (v : list attr) : dataobject :=
  DataObj (d_flags d) (d_createtime d) (d_filename d) (d_filepath d) (d_datalen d) (d_fp d) (d_hash d) (d_hash_str d) (d_thumbnail_str d) v (d_raw d) (d_raw_len d) (d_m d).
Definition with_raw (d : dataobject) (v : raw_ptr) (len : Z) : dataobject :=
  DataObj (d_flags d) (d_createtime d) (d_filename d) (d_filepath d) (d_datalen d) (d_fp d) (d_hash d) (d_hash_str d) (d_thumbnail_str d) (d_al d) v len (d_m d).
Definition with_m (d : dataobject) (v : meta) : dataobject :=
  DataObj (d_flags d) (d_createtime d) (d_filename d) (d_filepath d) (d_datalen d) (d_fp d) (d_hash d) (d_hash_str d) (d_thumbnail_str d) (d_al d) (d_raw d) (d_raw_len d) v.

(** After [memset (dobj, 0, ...)], with the attribute list and the metadata. *)
Definition zero_dataobject (m : meta) : dataobject :=
  DataObj 0 (0, 0) None None 0 None (replicate HASH_LENGTH 0) None None [] RNull 0 m.

(** ** Flags and times *)

(** The type of the flags is [unsigned short]. *)
Definition haggle_dataobject_set_flags (d : dataobject) (flags : Z) : Z * dataobject :=
  let f := u16 (Z.lor (d_flags d) flags) in (f, with_flags d f).
Definition haggle_dataobject_unset_flags (d : dataobject) (flags : Z) : Z * dataobject :=
  let f := u16 (Z.land (d_flags d) (Z.lxor flags 0xffff)) in (f, with_flags d f).

(** [now] is what [libhaggle_gettimeofday] answers. *)
Definition haggle_dataobject_set_createtime (now : Z * Z) (d : option dataobject) (createtime : option (Z * Z)) : Z * option dataobject :=
  match d with
  | None => (HAGGLE_PARAM_ERROR, None)
  | Some d => (HAGGLE_NO_ERROR, Some (with_createtime d (default now createtime)))
  end.
Definition haggle_dataobject_get_createtime (d : dataobject) : option (Z * Z) :=
  if (d_createtime d).1 =? 0 then None else Some (d_createtime d).
Definition haggle_dataobject_get_datalen (d : dataobject) : Z := d_datalen d.

(** ** Names and hashes *)

(** [strlen] of a NULL name is undefined. *)
Definition haggle_dataobject_set_filename (d : dataobject) (filename : option string) : option dataobject :=
  f ← filename; Some (with_filename d (Some f)).
Definition haggle_dataobject_set_filepath (d : dataobject) (filepath : option string) : option dataobject :=
  f ← filepath; Some (with_filepath d (Some f)).
Definition haggle_dataobject_get_filename (d : option dataobject) : option string := d ← d; d_filename d.
Definition haggle_dataobject_get_filepath (d : option dataobject) : option string := d ← d; d_filepath d.

(** ["%02hhX"] of every byte. *)
Fixpoint hash_string (hash : list Z) : string :=
  match hash with [] => "" | b :: hash => hex2 true b +:+ hash_string hash end.
Definition dataobject_set_hash_str (d : dataobject) : dataobject :=
  with_hash d (d_hash d) (Some (hash_string (d_hash d))).

(** ** Reading a document *)

Section Codec.
Context {C : MetadataCodec}.
(** [ctx_buf]: the uninitialised buffer of a base64 context; [uninit_time]: the
    uninitialised [tv_sec] and [tv_usec]; [uninit_sha]: an uninitialised SHA-1 context. *)
Context (ctx_buf : list Z) (uninit_time : Z * Z) (uninit_sha : SHA1Context).

Definition read_persistent (d : dataobject) (persistent : option string) : dataobject :=
  match persistent with
  | None => d
  | Some p =>
    if (strcmp p "no" =? 0) || (strcmp p "false" =? 0)
    then (haggle_dataobject_unset_flags d DATAOBJECT_FLAG_PERSISTENT).2
    else if (strcmp p "yes" =? 0) || (strcmp p "true" =? 0)
    then (haggle_dataobject_set_flags d DATAOBJECT_FLAG_PERSISTENT).2
    else d
  end.

Definition read_createtime (d : dataobject) (createtime : option string) : dataobject :=
  match createtime with
  | None => d
  | Some ct =>
    let '(sec, usec) := sscanf_ld_ld ct in
    with_createtime d (default uninit_time.1 sec, default uninit_time.2 usec)
  end.

(** One child [mc] of the [Data] element. *)
Definition read_data_child (d : dataobject) (mc : meta) : option dataobject :=
  if md_name_is mc "FilePath" then haggle_dataobject_set_filepath d (md_content mc)
  else if md_name_is mc "FileName" then haggle_dataobject_set_filename d (md_content mc)
  else if md_name_is mc "FileHash" then
    content ← md_content mc;
    r ← base64_decode (base64_decode_ctx_init ctx_buf) (bytes_of_string content) HASH_LENGTH;
    let d := with_hash d (dr_out r ++ drop (length (dr_out r)) (d_hash d)) (d_hash_str d) in
    Some (if dr_ok r then dataobject_set_hash_str d else d)
  else Some d.

Fixpoint read_data_children (d : dataobject) (mcs : list meta) : option dataobject :=
  match mcs with [] => Some d | mc :: mcs => d ← read_data_child d mc; read_data_children d mcs end.

(** The attribute an [Attr] element stands for: none when its name or its content is
    missing. *)
Definition read_attribute (md : meta) : option attr :=
  name ← md_get_parameter md "name";
  value ← md_content md;
  Some (MkAttr name value (match md_get_parameter md "weight" with Some w => strtoul w | None => 1 end)).

Definition read_child (d : dataobject) (md : meta) : option dataobject :=
  if md_name_is md "Data" then
    let d := match md_get_parameter md "data_len" with Some str => with_datalen d (u64 (atoi str)) | None => d end in
    read_data_children d (md_kids md)
  else if md_name_is md "Attr" then
    Some (match read_attribute md with Some a => with_al d (seq_insert a (d_al d)) | None => d end)
  else Some d.

Fixpoint read_children (d : dataobject) (mds : list meta) : option dataobject :=
  match mds with [] => Some d | md :: mds => d ← read_child d md; read_children d mds end.

(** [None] undefined, [Some None] NULL. *)
Definition haggle_dataobject_new_from_raw (raw : option (list Z)) : option (option dataobject) :=
  match raw with
  | Some raw =>
    m ← metadata_new_from_raw raw;
    match m with
    | None => Some None
    | Some m =>
      if negb (md_name_is m HAGGLE_TAG) then Some None else
      let d := (haggle_dataobject_set_flags (zero_dataobject m) DATAOBJECT_FLAG_PERSISTENT).2 in
      let d := read_persistent d (md_get_parameter m "persistent") in
      let d := read_createtime d (md_get_parameter m "create_time") in
      d ← read_children d (md_kids m);
      Some (Some d)
    end
  | None =>
    Some (Some (haggle_dataobject_set_flags (zero_dataobject (md_new HAGGLE_TAG None)) DATAOBJECT_FLAG_PERSISTENT).2)
  end.

Definition haggle_dataobject_new : option (option dataobject) := haggle_dataobject_new_from_raw None.

(** ** The identifier *)

Definition le64 (n : Z) : list Z := le32 (u32 n) ++ le32 (u32 (Z.shiftr n 32)).

(** [CREATETIME_ASSTRING_FORMAT]. *)
Definition createtime_string (t : Z * Z) : string := fmt_ld t.1 +:+ "." +:+ fmt_06ld t.2.

(** A word in memory after [htonl]. *)
Definition attr_updates (ctxt : SHA1Context) (a : attr) : SHA1Context :=
  let ctxt := SHA1_Update ctxt (bytes_of_string (an a)) in
  let ctxt := SHA1_Update ctxt (bytes_of_string (av a)) in
  SHA1_Update ctxt (be32 (u32 (aw a))).


(** The data file, or its name and length, in the message that is hashed. *)
Definition data_update (d : dataobject) (ctxt : SHA1Context) : SHA1Context :=
  match d_hash_str d with
  | Some _ => SHA1_Update ctxt (d_hash d)
  | None =>
    match d_filename d with
    | Some filename =>
      if d_datalen d >? 0
      then SHA1_Update (SHA1_Update ctxt (bytes_of_string filename)) (le64 (d_datalen d)) else ctxt
    | None => ctxt
    end
  end.

(** The digest goes to [id]; the local context starts uninitialised. *)
Definition haggle_dataobject_calculate_id (d : dataobject) (id : list Z) : Z * list Z :=
  let ctxt := SHA1_Init uninit_sha in
  let ctxt := fold_left attr_updates (d_al d) ctxt in
  let ctxt := if (d_createtime d).1 =? 0 then ctxt
              else SHA1_Update ctxt (bytes_of_string (snprintf 20 (createtime_string (d_createtime d)))) in
  let ctxt := data_update d ctxt in
  (0, (SHA1_Final id ctxt).1).

(** ** Writing a document *)

(** [sprintf] into an array of [n] characters. *)
Definition sprintf (n : nat) (s : string) : option string :=
  if (String.length s <? n)%nat then Some s else None.

(** The child with the name gets the content, or is added with it. *)
Definition put_child (name content : string) (md : meta) : meta :=
  match md_get md name with
  | Some (i, _) => md_update i (md_set_content content) md
  | None => md_add md (md_new name (Some content))
  end.

(** What is written into the [Data] element. *)
Definition write_data (d : dataobject) (md : meta) : meta :=
  let md := md_set_parameter "data_len" (snprintf 20 (dec (d_datalen d))) md in
  let md := match d_filename d with Some f => put_child "FileName" f md | None => md end in
  let md := match d_hash_str d with
            | Some _ => put_child "FileHash" (string_of_bytes (base64_encode (d_hash d) 29)) md
            | None => md
            end in
  let md := match d_thumbnail_str d with Some t => put_child "Thumbnail" t md | None => md end in
  match d_filepath d with Some f => put_child "FilePath" f md | None => md end.

(** [metadata_get (m, "Data")], or a new element. *)
Definition update_data (d : dataobject) (m : meta) : meta :=
  match md_get m "Data" with
  | Some (i, _) => md_update i (write_data d) m
  | None => md_add m (write_data d (md_new "Data" None))
  end.

(** The [Attr] element of an attribute: its weight is printed into 8 characters. *)
Definition write_attribute (a : attr) : option meta :=
  let am := md_set_parameter "name" (an a) (md_new "Attr" (Some (av a))) in
  if aw a =? 0 then Some am
  else str_weight ← sprintf 8 (dec (aw a)); Some (md_set_parameter "weight" str_weight am).

Fixpoint write_attributes (l : list attr) (m : meta) : option meta :=
  match l with
  | [] => Some m
  | a :: l => am ← write_attribute a; write_attributes l (md_add m am)
  end.

Definition write_createtime (d : dataobject) (m : meta) : option meta :=
  if (d_createtime d).1 =? 0 then Some m
  else createtime ← sprintf 32 (createtime_string (d_createtime d));
       Some (md_set_parameter "create_time" createtime m).

Definition haggle_dataobject_to_metadata (d : option dataobject) : option (option meta * option dataobject) :=
  match d with
  | None => Some (None, None)
  | Some d =>
    let m := md_set_parameter "persistent" (if nz (Z.land (d_flags d) DATAOBJECT_FLAG_PERSISTENT) then "yes" else "no") (d_m d) in
    m ← write_createtime d m;
    let m := if bool_decide (is_Some (d_filepath d)) || (d_datalen d >? 0) then update_data d m else m in
    m ← write_attributes (d_al d) (md_remove_named "Attr" m);
    Some (Some m, Some (with_m d m))
  end.

(** [metadata_get_raw_alloc] leaves the pointer it is given alone when it fails. *)
Definition haggle_dataobject_get_raw (d : option dataobject) : option (option (list Z) * option dataobject) :=
  '(m, d) ← haggle_dataobject_to_metadata d;
  match m, d with
  | Some m, Some d =>
    freed ← match d_raw d with RNull => Some RNull | RBuf _ => Some RFreed | RFreed => None end;
    let '(ret, buf) := metadata_get_raw_alloc m in
    if ret <? 0 then Some (None, Some (with_raw d freed 0))
    else Some (if ret =? 0 then None else Some buf, Some (with_raw d (RBuf buf) ret))
  | _, d => Some (None, d)
  end.

Definition haggle_dataobject_get_raw_alloc (d : option dataobject) : option (Z * list Z * option dataobject) :=
  match d with
  | None => Some (HAGGLE_PARAM_ERROR, [], None)
  | Some _ =>
    '(m, d) ← haggle_dataobject_to_metadata d;
    match m with
    | None => Some (HAGGLE_ALLOC_ERROR, [], d)
    | Some m => let '(ret, buf) := metadata_get_raw_alloc m in
                Some (if ret <? 0 then (HAGGLE_ALLOC_ERROR, [], d) else (HAGGLE_NO_ERROR, buf, d))
    end
  end.
Definition haggle_dataobject_get_raw_length (d : option dataobject) : Z :=
  match d with Some d => d_raw_len d | None => 0 end.

(** ** Thumbnails *)

Definition haggle_dataobject_set_thumbnail (d : option dataobject) (data : list Z) : Z * option dataobject :=
  match d with
  | None => (HAGGLE_PARAM_ERROR, None)
  | Some d =>
    let b64_len := BASE64_LENGTH (Z.of_nat (length data)) in
    (HAGGLE_NO_ERROR, Some (with_thumbnail d (Some (string_of_bytes (base64_encode data (Z.to_nat (b64_len + 1)))))))
  end.

(** The bytes written to [data], an array of [len] bytes, and the result. *)
Definition haggle_dataobject_read_thumbnail (d : option dataobject) (len : nat) : option (Z * list Z) :=
  match t ← d; d_thumbnail_str t with
  | None => Some (HAGGLE_PARAM_ERROR, [])
  | Some t =>
    r ← base64_decode (base64_decode_ctx_init ctx_buf) (bytes_of_string t) len;
    Some (if dr_ok r then Z.of_nat (length (dr_out r)) else HAGGLE_INTERNAL_ERROR, dr_out r)
  end.

Definition haggle_dataobject_get_thumbnail_size (d : option dataobject) : Z * option Z :=
  match t ← d; d_thumbnail_str t with
  | None => (HAGGLE_PARAM_ERROR, None)
  | Some t => (HAGGLE_NO_ERROR, Some (3 * (strlen t / 4) + 2))
  end.

(** ** Attributes: an attribute of the object is named by its position *)

Definition haggle_dataobject_add_attribute_weighted (d : dataobject) (name value : option string) (weight : Z) : Z * dataobject :=
  match name, value with
  | Some name, Some value =>
    let al := seq_insert (MkAttr name value weight) (d_al d) in
    (if u64 (Z.of_nat (length al)) >? 0 then HAGGLE_NO_ERROR else HAGGLE_INTERNAL_ERROR, with_al d al)
  | _, _ => (HAGGLE_INTERNAL_ERROR, d)
  end.
Definition haggle_dataobject_add_attribute (d : dataobject) (name value : option string) : Z * dataobject :=
  haggle_dataobject_add_attribute_weighted d name value 1.

Definition haggle_dataobject_get_num_attributes (d : dataobject) : Z := u64 (Z.of_nat (length (d_al d))).
Definition haggle_dataobject_get_attribute_n (d : option dataobject) (n : Z) : option attr :=
  d ← d; if n <? 0 then None else d_al d !! Z.to_nat n.
Definition haggle_dataobject_get_attribute_by_name (d : option dataobject) (name : option string) : option (nat * attr) :=
  d ← d; name ← name; seq_find name (d_al d).
Definition find_name_value (name value : string) (l : list attr) : option (nat * attr) :=
  list_find (fun a => strcmp (an a) name = 0 ∧ strcmp (av a) value = 0) l.
Definition haggle_dataobject_get_attribute_by_name_value (d : option dataobject) (name value : option string) : option (nat * attr) :=
  d ← d; name ← name; value ← value; find_name_value name value (d_al d).
(** The loop counts the matches in an [int]; [n] is an [unsigned long] that the call
    narrows. *)
Fixpoint find_name_n (name : string) (n i : Z) (l : list attr) : option attr :=
  match l with
  | [] => None
  | a :: l => if strcmp (an a) name =? 0 then if n =? i then Some a else find_name_n name n (i + 1) l else find_name_n name n i l
  end.
Definition haggle_dataobject_get_attribute_by_name_n (d : option dataobject) (name : option string) (n : Z) : option attr :=
  d ← d; name ← name; find_name_n name (s32 n) 0 (d_al d).
Definition haggle_dataobject_get_attributelist (d : option dataobject) : option (list attr) := d_al <$> d.

Definition haggle_dataobject_remove_attribute (d : dataobject) (a : option nat) : option (Z * dataobject) :=
  match a with
  | None => Some (0, d)
  | Some i => _ ← d_al d !! i; Some (1, with_al d (delete i (d_al d)))
  end.
Definition haggle_dataobject_remove_attribute_by_name_value (d : dataobject) (name value : option string) : Z * dataobject :=
  match name, value with
  | Some name, Some value =>
    match find_name_value name value (d_al d) with
    | Some (i, _) => (1, with_al d (delete i (d_al d)))
    | None => (0, d)
    end
  | _, _ => (0, d)
  end.

(** ** Metadata *)

Definition haggle_dataobject_get_metadata (d : option dataobject) (name : option string) : option meta :=
  d ← d;
  match name with
  | Some name => if strlen name =? 0 then head (md_kids (d_m d)) else snd <$> md_get (d_m d) name
  | None => Some (d_m d)
  end.
Definition haggle_dataobject_add_metadata (d : option dataobject) (m : option meta) : Z * option dataobject :=
  match d, m with
  | Some d, Some m => (HAGGLE_NO_ERROR, Some (with_m d (md_add (d_m d) m)))
  | _, _ => (HAGGLE_PARAM_ERROR, d)
  end.
End Codec.

(** ** Files *)

Abbreviation files := (gmap string (list Z)).

Definition is_separator (a : ascii) : bool := bool_decide (a = "/"%char ∨ a = "\"%char).

(** The loop from the end of the path: the position after the last separator. *)
Fixpoint filename_at (i : nat) (filepath : string) : nat :=
  match i with
  | O => O
  | S j => match String.get j filepath with
           | Some a => if is_separator a then i else filename_at j filepath
           | None => O
           end
  end.
Definition filename_of (filepath : string) : string :=
  let i := filename_at (String.length filepath) filepath in
  String.substring i (String.length filepath - i) filepath.

Definition haggle_dataobject_new_from_file (fs : files) (filepath : option string) : option dataobject :=
  filepath ← filepath;
  if strlen filepath =? 0 then None else
  contents ← fs !! filepath;
  let d := (haggle_dataobject_set_flags (zero_dataobject (md_new HAGGLE_TAG None)) DATAOBJECT_FLAG_PERSISTENT).2 in
  let d := with_datalen d (Z.of_nat (length contents)) in
  let d := with_filepath d (Some filepath) in
  Some (with_filename d (Some (filename_of filepath))).

(** The candidate file names of [haggle_dataobject_new_from_buffer]. *)
Definition memory_path (haggle_directory : string) (i : Z) : string :=
  snprintf 256 (haggle_directory +:+ "/" +:+ "mem-dObj-" +:+ fmt_ld i +:+ ".do").
Fixpoint free_path (fuel : nat) (fs : files) (haggle_directory : string) (i : Z) : option string :=
  match fuel with
  | O => None
  | S fuel =>
    let filepath := memory_path haggle_directory i in
    match fs !! filepath with
    | Some _ => free_path fuel fs haggle_directory (i + 1)
    | None => Some filepath
    end
  end.

(** [fwrite (data, len, 1, fp)] writes one item, or none when [len] is 0.  [None] when
    the search for a path does not end within the fuel. *)
Definition haggle_dataobject_new_from_buffer (fuel : nat) (fs : files) (haggle_directory : option string) (data : list Z)
  : option (option dataobject * files) :=
  match haggle_directory with
  | None => Some (None, fs)
  | Some dir =>
    filepath ← free_path fuel fs dir 0;
    let fs := <[filepath := data]> fs in
    if (length data =? 0)%nat then Some (None, fs)
    else Some (haggle_dataobject_new_from_file fs (Some filepath), fs)
  end.

Definition haggle_dataobject_get_data_size (fs : files) (d : option dataobject) (count_nonnull : bool) : Z * option Z :=
  match d with
  | None => (HAGGLE_DATAOBJECT_ERROR, None)
  | Some d =>
    match d_filepath d with
    | None => (HAGGLE_FILE_ERROR, None)
    | Some filepath =>
      if negb count_nonnull then (HAGGLE_PARAM_ERROR, None) else
      match fs !! filepath with
      | None => (HAGGLE_FILE_ERROR, Some 0)
      | Some contents => (0, Some (Z.of_nat (length contents)))
      end
    end
  end.

(** An open file is what is left to read. *)
Definition haggle_dataobject_read_data_start (fs : files) (d : option dataobject) : Z * option dataobject :=
  match d with
  | None => (HAGGLE_DATAOBJECT_ERROR, None)
  | Some d =>
    match d_filepath d with
    | None => (HAGGLE_FILE_ERROR, Some d)
    | Some filepath =>
      let d := with_fp d (fs !! filepath) in
      (if decide (d_fp d = None) then HAGGLE_FILE_ERROR else 0, Some d)
    end
  end.

(** [fread]; the end of the file is noticed when less than [count] was left. *)
Definition haggle_dataobject_read_data (d : option dataobject) (buffer_nonnull : bool) (count : nat)
  : Z * list Z * option dataobject :=
  match d with
  | None => (HAGGLE_DATAOBJECT_ERROR, [], None)
  | Some d =>
    match d_fp d with
    | None => (HAGGLE_FILE_ERROR, [], Some d)
    | Some rest =>
      if negb buffer_nonnull then (HAGGLE_PARAM_ERROR, [], Some d) else
      let data := take count rest in
      (Z.of_nat (length data), data,
       Some (with_fp d (if (length rest <? count)%nat then None else Some (drop count rest))))
    end
  end.

Definition haggle_dataobject_read_data_stop (d : option dataobject) : Z * option dataobject :=
  match d with
  | None => (HAGGLE_DATAOBJECT_ERROR, None)
  | Some d => match d_fp d with None => (0, Some d) | Some _ => (1, Some (with_fp d None)) end
  end.

Definition haggle_dataobject_get_data_all (fs : files) (d : option dataobject) : option (list Z) :=
  d ← d; filepath ← d_filepath d; fs !! filepath.

(** The loop of [haggle_dataobject_add_hash], 4096 bytes at a time until a short read. *)
Definition DATA_BUFFER_LEN : nat := 4096.
Fixpoint hash_loop (fuel : nat) (ctx : SHA1Context) (rest : list Z) : option SHA1Context :=
  match fuel with
  | O => None
  | S fuel =>
    let ctx := SHA1_Update ctx (take DATA_BUFFER_LEN rest) in
    if (length rest <? DATA_BUFFER_LEN)%nat then Some ctx else hash_loop fuel ctx (drop DATA_BUFFER_LEN rest)
  end.

Definition haggle_dataobject_add_hash (uninit_sha : SHA1Context) (fs : files) (d : option dataobject) : option (Z * option dataobject) :=
  match d with
  | None => Some (HAGGLE_INTERNAL_ERROR, None)
  | Some d =>
    match d_filepath d with
    | None => Some (HAGGLE_INTERNAL_ERROR, Some d)
    | Some filepath =>
      match fs !! filepath with
      | None => Some (HAGGLE_FILE_ERROR, Some d)
      | Some contents =>
        ctx ← hash_loop (S (length contents)) (SHA1_Init uninit_sha) contents;
        Some (HAGGLE_NO_ERROR, Some (dataobject_set_hash_str (with_hash d (SHA1_Final (d_hash d) ctx).1 (d_hash_str d))))
      end
    end
  end.

(** ** The identifier *)

(** What [haggle_dataobject_calculate_id] hashes. *)
Definition attr_message (a : attr) : list Z := bytes_of_string (an a) ++ bytes_of_string (av a) ++ be32 (u32 (aw a)).
Definition data_message (d : dataobject) : list Z :=
  match d_hash_str d, d_filename d with
  | Some _, _ => d_hash d
  | None, Some filename => if d_datalen d >? 0 then bytes_of_string filename ++ le64 (d_datalen d) else []
  | None, None => []
  end.
Definition id_message (d : dataobject) : list Z :=
  concat (map attr_message (d_al d)) ++
  (if (d_createtime d).1 =? 0 then [] else bytes_of_string (snprintf 20 (createtime_string (d_createtime d)))) ++
  data_message d.

Lemma le64_bytes n : bytes (le64 n).
Proof. apply Forall_app. split; apply bytes_le32. Qed.
#[local] Hint Resolve le64_bytes bytes_of_string_bytes bytes_be32 : words.

Lemma attr_updates_eq c a : attr_updates c a = SHA1_Update c (attr_message a).
Proof. unfold attr_updates, attr_message. by rewrite !update_app. Qed.

Lemma SHA1_Update_nil c : SHA1_Update c [] = c.
Proof. by rewrite SHA1_Update_eq. Qed.

Lemma attrs_updates_eq c l : fold_left attr_updates l c = SHA1_Update c (concat (map attr_message l)).
Proof.
  revert c. induction l as [|a l IH]; intros c; cbn [fold_left map concat]; [by rewrite SHA1_Update_nil|].
  by rewrite IH, attr_updates_eq, update_app.
Qed.

Lemma attr_message_bytes a : bytes (attr_message a).
Proof. unfold attr_message. rewrite !Forall_app. auto with words. Qed.

Lemma id_message_bytes d : bytes (d_hash d) → bytes (id_message d).
Proof.
  intros Hh. unfold id_message, data_message. rewrite !Forall_app. split_and!.
  - apply bytes_concat_map, attr_message_bytes.
  - case_match; auto with words.
  - repeat case_match; rewrite ?Forall_app; auto with words.
Qed.

Lemma calculate_id_run uninit_sha d id :
  length (Message_Block uninit_sha) = 64%nat → bytes (d_hash d) → 8 * Z.of_nat (length (id_message d)) < 2 ^ 64 →
  haggle_dataobject_calculate_id uninit_sha d id = (0, fips_sha1 (id_message d)).
Proof.
  intros Hu Hh Hl. unfold haggle_dataobject_calculate_id. f_equal. rewrite attrs_updates_eq.
  apply SHA1_Final_represents.
  assert (E : ∀ c, data_update d c = SHA1_Update c (data_message d)).
  { intros c. unfold data_update, data_message. repeat case_match; by rewrite ?update_app, ?SHA1_Update_nil. }
  rewrite E.
  replace (if (d_createtime d).1 =? 0 then _ else _)
    with (SHA1_Update (SHA1_Init uninit_sha) (concat (map attr_message (d_al d)) ++
            (if (d_createtime d).1 =? 0 then [] else bytes_of_string (snprintf 20 (createtime_string (d_createtime d))))))
    by (rewrite <- update_app; case_match; by rewrite ?SHA1_Update_nil).
  rewrite update_app, <- app_assoc. change (represents (SHA1_Update (SHA1_Init uninit_sha) (id_message d)) ([] ++ id_message d)).
  apply SHA1_Update_represents; [by apply SHA1_Init_represents|by apply id_message_bytes|done].
Qed.

(** ** Attributes in any order *)

Definition al_sorted (l : list attr) : Prop := StronglySorted attr_le l.

Lemma find_name_n_spec name l : ∀ n i, i <= n → find_name_n name n i l = filter (fun a => an a = name) l !! Z.to_nat (n - i).
Proof.
  induction l as [|a l IH]; intros n i Hi; [done|]. cbn [find_name_n]. rewrite filter_cons.
  destruct (Z.eqb_spec (strcmp (an a) name) 0) as [E|E]; rewrite strcmp_eq in E.
  - rewrite decide_True by done. destruct (Z.eqb_spec n i) as [->|Hne]; [by rewrite Z.sub_diag|].
    rewrite IH by lia. by replace (Z.to_nat (n - i)) with (S (Z.to_nat (n - (i + 1)))) by lia.
  - rewrite decide_False by done. by apply IH.
Qed.
Lemma seq_insert_perm a l : seq_insert a l ≡ₚ a :: l.
Proof. induction l as [|b l IH]; simpl; [done|]. case_match; [done|]. rewrite IH. constructor. Qed.

Lemma seq_insert_sorted a l : al_sorted l → al_sorted (seq_insert a l).
Proof.
  unfold al_sorted. induction 1 as [|b l Hl IH Hb]; simpl; [repeat constructor|].
  destruct (attr_lt a b) eqn:E.
  - assert (Hab : attr_le a b). { destruct (attr_le_total a b) as [|H]; [done|]. unfold attr_le in H. congruence. }
    constructor; [by constructor|]. constructor; [done|]. eapply Forall_impl; [exact Hb|]. intros c Hc. by etrans.
  - constructor; [done|]. rewrite seq_insert_perm. by constructor.
Qed.

Lemma seq_insert_last a l : al_sorted (l ++ [a]) → seq_insert a l = l ++ [a].
Proof.
  unfold al_sorted. induction l as [|b l IH]; intros Hs; [done|]. simpl in *. apply StronglySorted_inv in Hs as [Hs Hb].
  rewrite Forall_app, Forall_singleton in Hb. destruct Hb as [_ Hb]. unfold attr_le in Hb. by rewrite Hb, IH.
Qed.

Definition insert_attrs (l al : list attr) : list attr := fold_left (fun al a => seq_insert a al) l al.

Lemma insert_attrs_spec l al : al_sorted al → al_sorted (insert_attrs l al) ∧ insert_attrs l al ≡ₚ l ++ al.
Proof.
  revert al. induction l as [|a l IH]; intros al Hs; [done|]. simpl.
  destruct (IH (seq_insert a al) (seq_insert_sorted a al Hs)) as [H1 H2]. split; [done|].
  unfold insert_attrs in *. rewrite H2, seq_insert_perm. by rewrite Permutation_middle.
Qed.

Lemma insert_attrs_sorted l al : al_sorted (al ++ l) → insert_attrs l al = al ++ l.
Proof.
  revert al. induction l as [|a l IH]; intros al Hs; [by rewrite app_nil_r|]. unfold insert_attrs in *. cbn [fold_left].
  change (a :: l) with ([a] ++ l) in *. rewrite app_assoc in *. rewrite seq_insert_last; [by apply IH|].
  unfold al_sorted in *. by eapply StronglySorted_app_1_l.
Qed.

(** Adding attributes to a data object one after the other. *)
Fixpoint add_attributes (d : dataobject) (l : list attr) : dataobject :=
  match l with
  | [] => d
  | a :: l => add_attributes (haggle_dataobject_add_attribute_weighted d (Some (an a)) (Some (av a)) (aw a)).2 l
  end.

Lemma add_attributes_eq d l : add_attributes d l = with_al d (insert_attrs l (d_al d)).
Proof.
  revert d. induction l as [|a l IH]; intros d; cbn [add_attributes]; [by destruct d|]. rewrite IH.
  cbn [haggle_dataobject_add_attribute_weighted snd]. unfold with_al at 1 2. cbn. by destruct a.
Qed.

Lemma insert_attrs_perm l l' al : al_sorted al → l ≡ₚ l' → insert_attrs l al = insert_attrs l' al.
Proof.
  intros Hs Hp. destruct (insert_attrs_spec l al Hs) as [S1 P1], (insert_attrs_spec l' al Hs) as [S2 P2].
  apply (StronglySorted_unique attr_le); [done..|]. by rewrite P1, P2, Hp.
Qed.

(** C34: the identifier of a data object is the SHA-1 digest of its attributes (name,
    value, weight in network order), its creation time and the hash of its file, or else
    the file's name and length; it does not depend on the order in which the attributes
    were added. *)
Theorem haggle_dataobject_id_spec uninit_sha d id l l' :
  length (Message_Block uninit_sha) = 64%nat → bytes (d_hash d) →
  al_sorted (d_al d) → l ≡ₚ l' → 8 * Z.of_nat (length (id_message (add_attributes d l))) < 2 ^ 64 →
  haggle_dataobject_calculate_id uninit_sha (add_attributes d l) id = (0, fips_sha1 (id_message (add_attributes d l))) ∧
  haggle_dataobject_calculate_id uninit_sha (add_attributes d l') id =
    haggle_dataobject_calculate_id uninit_sha (add_attributes d l) id.
Proof.
  intros Hu Hh Hs Hp Hl. split.
  - apply calculate_id_run; [done| |done]. by rewrite add_attributes_eq.
  - by rewrite !add_attributes_eq, (insert_attrs_perm l l').
Qed.

(** ** Writing and reading back *)

Definition has_data (d : dataobject) : bool := bool_decide (is_Some (d_filepath d)) || (d_datalen d >? 0).
Definition persistent (d : dataobject) : bool := nz (Z.land (d_flags d) DATAOBJECT_FLAG_PERSISTENT).

(** A data object as the constructors and setters make it, within the sizes the wire
    format can carry: weights of one to seven digits, lengths of an [int]. *)
Record dobj_ok (d : dataobject) : Prop :=
  { ok_al : al_sorted (d_al d);
    ok_weights : Forall (fun a => 0 < aw a < 10 ^ 7) (d_al d);
    ok_len : 0 <= d_datalen d < 2 ^ 31;
    ok_time : d_createtime d = (0, 0) ∨ (0 < (d_createtime d).1 < 2 ^ 63 ∧ 0 <= (d_createtime d).2 < 10 ^ 6);
    ok_hash : bytes (d_hash d) ∧ length (d_hash d) = HASH_LENGTH;
    ok_hash_str : ∀ s, d_hash_str d = Some s → s = hash_string (d_hash d) ∧ has_data d = true }.

Lemma param_new name content n v : md_get_parameter (md_set_parameter n v (md_new name content)) n = Some v.
Proof. by rewrite md_get_set_parameter, decide_True. Qed.

Lemma sprintf_dec n k : 0 <= n → sprintf (S (S k)) (dec n) = if n <? 10 ^ Z.of_nat (S k) then Some (dec n) else None.
Proof.
  intros Hn. unfold sprintf. pose proof (length_dec n (S k) Hn ltac:(lia)) as H.
  destruct (Nat.ltb_spec (String.length (dec n)) (S (S k))), (Z.ltb_spec n (10 ^ Z.of_nat (S k))); try done; lia.
Qed.

Lemma write_attribute_ok a : 0 < aw a < 10 ^ 7 →
  ∃ am, write_attribute a = Some am ∧ md_name am = Some "Attr" ∧ is_Some (md_get_parameter am "weight") ∧ read_attribute am = Some a.
Proof.
  intros Hw. unfold write_attribute. destruct (Z.eqb_spec (aw a) 0); [lia|].
  rewrite (sprintf_dec _ 6) by lia. change (10 ^ Z.of_nat 7) with (10 ^ 7).
  destruct (Z.ltb_spec (aw a) (10 ^ 7)); [|lia]. cbn [mbind option_bind]. eexists. split; [done|].
  split; [by rewrite !md_set_parameter_name|]. split; [by rewrite md_get_set_parameter, decide_True|]. unfold read_attribute.
  rewrite !md_get_set_parameter, decide_True by done. rewrite decide_False by done. rewrite decide_True by done.
  rewrite !md_set_parameter_content. cbn [mbind option_bind md_new md_content]. rewrite strtoul_dec by lia. by destruct a.
Qed.

(** The elements written for the attributes. *)
Definition attr_elements (l : list attr) (ams : list meta) : Prop :=
  Forall2 (fun a am => md_name am = Some "Attr" ∧ is_Some (md_get_parameter am "weight") ∧ read_attribute am = Some a) l ams.

Lemma write_attributes_ok l : Forall (fun a => 0 < aw a < 10 ^ 7) l →
  ∃ ams, attr_elements l ams ∧
         ∀ m, write_attributes l m = Some (Md (md_name m) (md_content m) (md_params m) (md_kids m ++ ams)).
Proof.
  induction 1 as [|a l Ha _ (ams & Hf & E)].
  - exists []. split; [constructor|]. intros [n c ps ks]. cbn. by rewrite app_nil_r.
  - destruct (write_attribute_ok a Ha) as (am & Eam & Hn & Hw & Hr). exists (am :: ams). split; [by constructor|].
    intros [n c ps ks]. cbn [write_attributes]. rewrite Eam. cbn [mbind option_bind]. rewrite E.
    cbn [md_add md_name md_content md_params md_kids]. by rewrite <- app_assoc.
Qed.

Lemma attr_elements_filter l ams b :
  attr_elements l ams → filter (fun k => md_name_is k "Attr" = b) ams = if b then ams else [].
Proof.
  induction 1 as [|a am l ams [Hn _] _ IH]; [by destruct b|]. rewrite filter_cons, IH.
  assert (E : md_name_is am "Attr" = true) by (by apply md_name_is_iff). rewrite E. by destruct b.
Qed.

(** The children of the [Data] element of a new document. *)
Lemma write_data_kids d :
  md_kids (write_data d (md_new "Data" None)) =
  (match d_filename d with Some f => [md_new "FileName" (Some f)] | None => [] end) ++
  (match d_hash_str d with Some _ => [md_new "FileHash" (Some (string_of_bytes (base64_encode (d_hash d) 29)))] | None => [] end) ++
  (match d_thumbnail_str d with Some t => [md_new "Thumbnail" (Some t)] | None => [] end) ++
  (match d_filepath d with Some f => [md_new "FilePath" (Some f)] | None => [] end).
Proof.
  unfold write_data. destruct (d_filename d), (d_hash_str d), (d_thumbnail_str d), (d_filepath d); reflexivity.
Qed.

Lemma put_child_params name content md : md_params (put_child name content md) = md_params md ∧ md_name (put_child name content md) = md_name md.
Proof. unfold put_child. destruct (md_get md name) as [[]|]; by destruct md. Qed.

Lemma write_data_params d md :
  md_name (write_data d md) = md_name md ∧
  md_get_parameter (write_data d md) "data_len" = Some (snprintf 20 (dec (d_datalen d))).
Proof.
  unfold write_data. set (md1 := md_set_parameter _ _ md).
  assert (H1 : md_name md1 = md_name md ∧ md_get_parameter md1 "data_len" = Some (snprintf 20 (dec (d_datalen d)))).
  { unfold md1. by rewrite md_set_parameter_name, md_get_set_parameter, decide_True. }
  revert H1. generalize md1 as t. clear md1.
  assert (Hput : ∀ (o : option string) (n : string) (f : string → string) t,
    md_name (match o with Some s => put_child n (f s) t | None => t end) = md_name t ∧
    md_get_parameter (match o with Some s => put_child n (f s) t | None => t end) "data_len" = md_get_parameter t "data_len").
  { intros [s|] n f t; [|done]. unfold md_get_parameter. by destruct (put_child_params n (f s) t) as [-> ->]. }
  intros t [H1 H2].
  destruct (Hput (d_filename d) "FileName" (fun s => s) t) as [A1 B1]. set (t1 := match d_filename d with Some s => put_child "FileName" s t | None => t end) in *.
  destruct (Hput (d_hash_str d) "FileHash" (fun _ => string_of_bytes (base64_encode (d_hash d) 29)) t1) as [A2 B2]. set (t2 := match d_hash_str d with Some _ => put_child "FileHash" (string_of_bytes (base64_encode (d_hash d) 29)) t1 | None => t1 end) in *.
  destruct (Hput (d_thumbnail_str d) "Thumbnail" (fun s => s) t2) as [A3 B3]. set (t3 := match d_thumbnail_str d with Some s => put_child "Thumbnail" s t2 | None => t2 end) in *.
  destruct (Hput (d_filepath d) "FilePath" (fun s => s) t3) as [A4 B4]. set (t4 := match d_filepath d with Some s => put_child "FilePath" s t3 | None => t3 end) in *.
  split; congruence.
Qed.

(** What a receiver gets of a data object whose document is [m]. *)
Definition received (d : dataobject) (m : meta) : dataobject :=
  DataObj (if persistent d then 1 else 0) (d_createtime d)
          (if has_data d then d_filename d else None) (d_filepath d) (d_datalen d) None
          (match d_hash_str d with Some _ => d_hash d | None => replicate HASH_LENGTH 0 end) (d_hash_str d) None
          (d_al d) RNull 0 m.

Section RoundTrip.
Context {C : MetadataCodec} (ctx_buf : list Z) (uninit_time : Z * Z) (uninit_sha : SHA1Context).
Context (Hctx : length ctx_buf = 4%nat).

Lemma read_hash d : bytes (d_hash d) → length (d_hash d) = HASH_LENGTH → ∀ d0, length (d_hash d0) = HASH_LENGTH →
  read_data_child ctx_buf d0 (md_new "FileHash" (Some (string_of_bytes (base64_encode (d_hash d) 29)))) =
  Some (with_hash d0 (d_hash d) (Some (hash_string (d_hash d)))).
Proof.
  intros Hb Hl d0 Hl0. unfold read_data_child.
  change (md_name_is (md_new "FileHash" ?c) "FilePath") with false. change (md_name_is (md_new "FileHash" ?c) "FileName") with false.
  change (md_name_is (md_new "FileHash" ?c) "FileHash") with true. cbv iota. cbn [md_content md_new mbind option_bind].
  unfold base64_encode. rewrite base64_encode_loop_spec by (done || lia).
  assert (Hlen : length (b64_enc (d_hash d)) = 28%nat).
  { apply Nat2Z.inj. rewrite length_b64_enc, Hl. reflexivity. }
  rewrite take_ge by (rewrite length_app, Hlen; simpl; lia).
  rewrite (bytes_of_string_of_bytes _ []) by (by apply b64_enc_text).
  destruct (base64_decode_enc ctx_buf (d_hash d) HASH_LENGTH Hctx Hb) as (r & Er & Ok & Eo); [by rewrite Hl|].
  rewrite Er. cbn [mbind option_bind]. rewrite Ok, Eo, Hl, drop_ge, app_nil_r by (by rewrite Hl0). reflexivity.
Qed.

Lemma read_data_children_app d l l' :
  read_data_children ctx_buf d (l ++ l') = (d ← read_data_children ctx_buf d l; read_data_children ctx_buf d l').
Proof.
  revert d. induction l as [|mc l IH]; intros d; [done|]. cbn [app read_data_children].
  destruct (read_data_child ctx_buf d mc); [apply IH|done].
Qed.

Lemma read_children_app d l l' :
  read_children ctx_buf d (l ++ l') = (d ← read_children ctx_buf d l; read_children ctx_buf d l').
Proof.
  revert d. induction l as [|mc l IH]; intros d; [done|]. cbn [app read_children].
  destruct (read_child ctx_buf d mc); [apply IH|done].
Qed.

(** Reading the [Data] element written for [d]. *)
Lemma read_data d d0 :
  dobj_ok d → length (d_hash d0) = HASH_LENGTH →
  read_child ctx_buf d0 (write_data d (md_new "Data" None)) =
  Some (let d1 := with_datalen d0 (d_datalen d) in
        let d1 := match d_filename d with Some f => with_filename d1 (Some f) | None => d1 end in
        let d1 := match d_hash_str d with Some _ => with_hash d1 (d_hash d) (Some (hash_string (d_hash d))) | None => d1 end in
        match d_filepath d with Some f => with_filepath d1 (Some f) | None => d1 end).
Proof.
  intros Hok Hl0. unfold read_child. destruct (write_data_params d (md_new "Data" None)) as [Hn Hp].
  assert (E : md_name_is (write_data d (md_new "Data" None)) "Data" = true) by (apply md_name_is_iff; by rewrite Hn).
  rewrite E, Hp, write_data_kids.
  assert (Hdl : u64 (atoi (snprintf 20 (dec (d_datalen d)))) = d_datalen d).
  { pose proof (ok_len d Hok). rewrite snprintf_id.
    - rewrite atoi_dec by done. apply Z.mod_small. lia.
    - pose proof (length_dec (d_datalen d) 19 ltac:(lia) ltac:(lia)). change (10 ^ Z.of_nat 19) with 10000000000000000000 in *. lia. }
  rewrite Hdl. destruct (ok_hash d Hok) as [Hb Hl]. set (d1 := with_datalen d0 _).
  assert (Hl1 : length (d_hash d1) = HASH_LENGTH) by done. clearbody d1.
  rewrite read_data_children_app.
  assert (E1 : read_data_children ctx_buf d1 (match d_filename d with Some f => [md_new "FileName" (Some f)] | None => [] end) =
               Some (match d_filename d with Some f => with_filename d1 (Some f) | None => d1 end)) by (by destruct (d_filename d)).
  rewrite E1. cbn [mbind option_bind]. rewrite read_data_children_app. set (d2 := match d_filename d with Some f => with_filename d1 (Some f) | None => d1 end).
  assert (Hl2 : length (d_hash d2) = HASH_LENGTH) by (unfold d2; by destruct (d_filename d)). clearbody d2.
  assert (E2 : read_data_children ctx_buf d2 (match d_hash_str d with Some _ => [md_new "FileHash" (Some (string_of_bytes (base64_encode (d_hash d) 29)))] | None => [] end) =
               Some (match d_hash_str d with Some _ => with_hash d2 (d_hash d) (Some (hash_string (d_hash d))) | None => d2 end)).
  { destruct (d_hash_str d); [|done]. cbn [read_data_children]. by rewrite read_hash. }
  rewrite E2. cbn [mbind option_bind]. rewrite read_data_children_app. set (d3 := match d_hash_str d with Some _ => with_hash d2 (d_hash d) (Some (hash_string (d_hash d))) | None => d2 end). clearbody d3.
  destruct (d_thumbnail_str d), (d_filepath d); reflexivity.
Qed.

Lemma read_attrs d l ams : attr_elements l ams → read_children ctx_buf d ams = Some (with_al d (insert_attrs l (d_al d))).
Proof.
  intros H. revert d. induction H as [|a am l ams (Hn & _ & Hr) _ IH]; intros d; [by destruct d|].
  cbn [read_children]. unfold read_child.
  assert (E : md_name_is am "Attr" = true) by (by apply md_name_is_iff).
  assert (E' : md_name_is am "Data" = false).
  { apply not_true_iff_false. rewrite md_name_is_iff. congruence. }
  rewrite E, E', Hr. cbn [mbind option_bind]. rewrite IH. by destruct d.
Qed.

(** The document of a new data object. *)
Lemma to_metadata_new d :
  dobj_ok d → d_m d = md_new HAGGLE_TAG None →
  ∃ ams m, attr_elements (d_al d) ams ∧
    haggle_dataobject_to_metadata (Some d) = Some (Some m, Some (with_m d m)) ∧
    md_name m = Some HAGGLE_TAG ∧
    md_get_parameter m "persistent" = Some (if persistent d then "yes" else "no") ∧
    md_get_parameter m "create_time" = (if (d_createtime d).1 =? 0 then None else Some (createtime_string (d_createtime d))) ∧
    md_kids m = (if has_data d then [write_data d (md_new "Data" None)] else []) ++ ams ∧
    ∀ n, n ≠ "persistent" → n ≠ "create_time" → md_get_parameter m n = None.
Proof.
  intros Hok Hm. destruct (write_attributes_ok (d_al d) (ok_weights d Hok)) as (ams & Hf & Ew).
  unfold haggle_dataobject_to_metadata. rewrite Hm. fold (persistent d). set (pers := if persistent d then "yes" else "no").
  set (m0 := md_set_parameter "persistent" pers (md_new HAGGLE_TAG None)).
  assert (∃ m1, write_createtime d m0 = Some m1 ∧ md_name m1 = Some HAGGLE_TAG ∧ md_kids m1 = [] ∧
                md_get_parameter m1 "persistent" = Some pers ∧
                md_get_parameter m1 "create_time" = (if (d_createtime d).1 =? 0 then None else Some (createtime_string (d_createtime d))) ∧
                (∀ n, n ≠ "persistent" → n ≠ "create_time" → md_get_parameter m1 n = None))
    as (m1 & E1 & Hn1 & Hk1 & Hp1 & Hc1 & Ho1).
  { unfold write_createtime. destruct (Z.eqb_spec (d_createtime d).1 0) as [Ez|Ez].
    - exists m0. split_and!; try done. intros n Hn _. unfold m0. by rewrite md_get_set_parameter, decide_False.
    - assert (Hlen : (String.length (createtime_string (d_createtime d)) < 32)%nat).
      { destruct (ok_time d Hok) as [Et|[Hs Hu]]; [by rewrite Et in Ez|]. unfold createtime_string, fmt_ld, fmt_06ld, dec_pad.
        destruct (Z.ltb_spec (d_createtime d).1 0), (Z.ltb_spec (d_createtime d).2 0); try lia.
        rewrite !length_app_string, length_zeros. simpl (String.length ".").
        pose proof (length_dec (d_createtime d).1 19 ltac:(lia) ltac:(lia)). pose proof (length_dec (d_createtime d).2 6 ltac:(lia) ltac:(lia)).
        change (10 ^ Z.of_nat 19) with 10000000000000000000 in *. change (10 ^ Z.of_nat 6) with (10 ^ 6) in *. lia. }
      unfold sprintf. rewrite (proj2 (Nat.ltb_lt _ _) Hlen). cbn [mbind option_bind]. eexists. split; [reflexivity|].
      rewrite md_set_parameter_name, md_set_parameter_kids, !md_get_set_parameter. rewrite decide_False, decide_True by done.
      split_and!; try done. intros n Hn Hc. unfold m0. by rewrite !md_get_set_parameter, !decide_False. }
  rewrite E1. cbn [mbind option_bind]. fold (has_data d).
  set (m2 := if has_data d then update_data d m1 else m1).
  assert (H2 : md_name m2 = Some HAGGLE_TAG ∧ md_params m2 = md_params m1 ∧ md_kids m2 = if has_data d then [write_data d (md_new "Data" None)] else []).
  { unfold m2. destruct (has_data d); [|done]. unfold update_data, md_get. rewrite Hk1. cbn [list_find]. destruct m1. cbn in *. by subst. }
  destruct H2 as (Hn2 & Hp2 & Hk2).
  assert (H3 : md_remove_named "Attr" m2 = m2).
  { destruct m2 as [n c ps ks]. cbn in Hk2 |- *. f_equal. rewrite Hk2. destruct (has_data d); [|done].
    rewrite filter_cons. assert (E : md_name_is (write_data d (md_new "Data" None)) "Attr" = false).
    { apply not_true_iff_false. rewrite md_name_is_iff. by rewrite (proj1 (write_data_params d _)). }
    by rewrite E. }
  rewrite H3, Ew. cbn [mbind option_bind]. eexists ams, _. split; [done|]. split; [reflexivity|].
  cbn [md_name md_kids]. unfold md_get_parameter in *. cbn [md_params]. rewrite Hp2, Hk2. by split_and!.
Qed.

Lemma sscanf_createtime t : 0 < t.1 < 2 ^ 63 → 0 <= t.2 < 10 ^ 6 → sscanf_ld_ld (createtime_string t) = (Some t.1, Some t.2).
Proof.
  intros Hs Hu. unfold createtime_string, fmt_ld, fmt_06ld.
  destruct (Z.ltb_spec t.1 0), (Z.ltb_spec t.2 0); try lia. apply sscanf_dec_dec; lia.
Qed.

(** The reader looks at the [Data] and [Attr] children only. *)
Definition known_child (mc : meta) : bool := md_name_is mc "Data" || md_name_is mc "Attr".

Lemma read_children_known d l : read_children ctx_buf d l = read_children ctx_buf d (List.filter known_child l).
Proof.
  revert d. induction l as [|mc l IH]; intros d; [done|]. cbn [read_children List.filter]. unfold known_child at 1, read_child at 1.
  destruct (md_name_is mc "Data") eqn:E1; cbn [orb].
  - cbn [read_children]. unfold read_child at 1. rewrite E1. destruct (read_data_children _ _ _); [apply IH|done].
  - destruct (md_name_is mc "Attr") eqn:E2; cbn [mbind option_bind]; [|apply IH].
    cbn [read_children]. unfold read_child at 1. rewrite E1, E2. cbn [mbind option_bind]. apply IH.
Qed.

Lemma filter_known l : Forall (fun k => known_child k = true) l → List.filter known_child l = l.
Proof. induction 1 as [|k l Hk _ IH]; [done|]. cbn [List.filter]. by rewrite Hk, IH. Qed.

Lemma written_known d ams : attr_elements (d_al d) ams →
  Forall (fun k => known_child k = true) ((if has_data d then [write_data d (md_new "Data" None)] else []) ++ ams).
Proof.
  intros Hf. apply Forall_app. split.
  - destruct (has_data d); constructor; [|constructor]. unfold known_child. apply orb_true_iff. left. apply md_name_is_iff.
    by rewrite (proj1 (write_data_params d _)).
  - induction Hf as [|a am l ams [Hn _] _ IH]; constructor; [|done]. unfold known_child. apply orb_true_iff. right. by apply md_name_is_iff.
Qed.

Lemma read_back d m ams :
  dobj_ok d → attr_elements (d_al d) ams → md_name m = Some HAGGLE_TAG →
  md_get_parameter m "persistent" = Some (if persistent d then "yes" else "no") →
  md_get_parameter m "create_time" = (if (d_createtime d).1 =? 0 then None else Some (createtime_string (d_createtime d))) →
  List.filter known_child (md_kids m) = (if has_data d then [write_data d (md_new "Data" None)] else []) ++ ams →
  ∀ raw, metadata_new_from_raw raw = Some (Some m) →
  haggle_dataobject_new_from_raw ctx_buf uninit_time (Some raw) = Some (Some (received d m)).
Proof.
  intros Hok Hf Hn Hp Hc Hk raw Hraw. unfold haggle_dataobject_new_from_raw. rewrite Hraw. cbn [mbind option_bind].
  assert (En : md_name_is m HAGGLE_TAG = true) by (by apply md_name_is_iff). rewrite En, Hp, Hc. cbn [negb].
  set (d0 := read_persistent _ _).
  assert (E0 : d0 = with_flags (zero_dataobject m) (if persistent d then 1 else 0)) by (unfold d0; by destruct (persistent d)).
  rewrite E0. clear d0 E0. set (d1 := read_createtime _ _ _).
  assert (E1 : d1 = with_createtime (with_flags (zero_dataobject m) (if persistent d then 1 else 0)) (d_createtime d)).
  { unfold d1. destruct (ok_time d Hok) as [->|[Hs Hu]]; [done|].
    destruct (Z.eqb_spec (d_createtime d).1 0); [lia|]. unfold read_createtime. rewrite sscanf_createtime by done.
    cbn [default from_option id]. by destruct (d_createtime d). }
  rewrite read_children_known, Hk. clear Hk.
  assert (Ed : ∃ d2, read_children ctx_buf d1 ((if has_data d then [write_data d (md_new "Data" None)] else []) ++ ams) = Some d2 ∧ d2 = received d m).
  { eexists. split; [|reflexivity]. rewrite read_children_app.
    assert (Hrec : insert_attrs (d_al d) [] = d_al d) by (by apply (insert_attrs_sorted _ []), ok_al).
    assert (Hstr : ∀ s, d_hash_str d = Some s → s = hash_string (d_hash d) ∧ has_data d = true) by apply (ok_hash_str d Hok).
    unfold received. destruct (has_data d) eqn:Eh.
    - cbn [read_children]. rewrite E1, read_data by done. cbn [mbind option_bind read_children]. rewrite (read_attrs _ _ _ Hf).
      cbn [zero_dataobject]. f_equal.
      destruct (d_filename d) as [f|] eqn:Ef, (d_hash_str d) as [hs|] eqn:Eg, (d_filepath d) as [fp|] eqn:Ep;
        try (destruct (Hstr hs eq_refl) as [-> _]); unfold with_al; cbn; by rewrite Hrec.
    - cbn [read_children mbind option_bind]. rewrite E1, (read_attrs _ _ _ Hf). f_equal.
      unfold has_data in Eh. apply orb_false_iff in Eh as [Eh Ez]. apply bool_decide_eq_false in Eh.
      assert (Efp : d_filepath d = None) by (destruct (d_filepath d); [exfalso; eauto|done]).
      pose proof (ok_len d Hok). assert (Edl : d_datalen d = 0) by (destruct (Z.gtb_spec (d_datalen d) 0); [done|lia]).
      rewrite Efp, Edl. destruct (d_hash_str d) as [hs|]; [by destruct (Hstr hs eq_refl)|].
      unfold with_al; cbn. by rewrite Hrec. }
  destruct Ed as (d2 & -> & ->). done.
Qed.

Lemma received_id d m id : dobj_ok d →
  haggle_dataobject_calculate_id uninit_sha (received d m) id = haggle_dataobject_calculate_id uninit_sha d id.
Proof.
  intros Hok. unfold haggle_dataobject_calculate_id, received. cbn [d_al d_createtime].
  assert (E : ∀ c, data_update (received d m) c = data_update d c); [|unfold received in E; by rewrite E].
  intros c. unfold data_update, received. cbn [d_hash_str d_hash d_filename d_datalen].
  destruct (d_hash_str d); [done|]. unfold has_data. destruct (d_datalen d >? 0) eqn:Ez; [by rewrite orb_true_r|].
  rewrite orb_false_r. by destruct (bool_decide _), (d_filename d).
Qed.

(** C1: what is sent is what is received: the raw document of a new data object, read
    back, gives the same flags, creation time, file name, path, length and hash and the
    same attributes, hence the same identifier; the thumbnail is written but not read. *)
Theorem haggle_dataobject_roundtrip ok `{!MetadataCodecOk C ok} d id :
  dobj_ok d → d_m d = md_new HAGGLE_TAG None →
  ∃ m, haggle_dataobject_to_metadata (Some d) = Some (Some m, Some (with_m d m)) ∧
    (ok m → ∃ raw, haggle_dataobject_get_raw_alloc (Some d) = Some (HAGGLE_NO_ERROR, raw, Some (with_m d m)) ∧
       haggle_dataobject_new_from_raw ctx_buf uninit_time (Some raw) = Some (Some (received d m)) ∧
       haggle_dataobject_calculate_id uninit_sha (received d m) id = haggle_dataobject_calculate_id uninit_sha d id).
Proof.
  intros Hok Hm. destruct (to_metadata_new d Hok Hm) as (ams & m & Hf & E & Hn & Hp & Hc & Hk & _). exists m. split; [done|].
  intros Ho. destruct (codec_roundtrip m Ho) as (raw & Er & Hl & Hr). exists raw. split_and!.
  - unfold haggle_dataobject_get_raw_alloc. rewrite E. cbn [mbind option_bind]. rewrite Er.
    destruct (Z.ltb_spec (Z.of_nat (length raw)) 0); [lia|done].
  - eapply read_back; [done..| |done]. rewrite Hk. by apply filter_known, written_known.
  - by apply received_id.
Qed.
End RoundTrip.

(** ** Other operations *)

Lemma write_attributes_overflow l m : (∃ a, a ∈ l ∧ 10 ^ 7 <= aw a) → write_attributes l m = None.
Proof.
  intros (a & Ha & Hw). revert m. induction l as [|b l IH]; intros m; [by apply not_elem_of_nil in Ha|].
  cbn [write_attributes]. apply elem_of_cons in Ha as [->|Ha].
  - unfold write_attribute. destruct (Z.eqb_spec (aw b) 0); [lia|]. rewrite (sprintf_dec _ 6) by lia.
    change (10 ^ Z.of_nat 7) with (10 ^ 7). destruct (Z.ltb_spec (aw b) (10 ^ 7)); [lia|done].
  - destruct (write_attribute b); [|done]. by apply IH.
Qed.

(** The weight of an attribute is printed into a buffer of eight characters: one
    attribute whose weight has eight digits or more makes the conversion, and hence every
    way of sending the object, overrun it. *)
Theorem haggle_dataobject_weight_overflow `{MetadataCodec} d :
  (∃ a, a ∈ d_al d ∧ 10 ^ 7 <= aw a) →
  haggle_dataobject_to_metadata (Some d) = None ∧ haggle_dataobject_get_raw (Some d) = None ∧
  haggle_dataobject_get_raw_alloc (Some d) = None.
Proof.
  intros Ha. assert (E : haggle_dataobject_to_metadata (Some d) = None).
  { unfold haggle_dataobject_to_metadata. destruct (write_createtime d _); [|done]. cbn [mbind option_bind].
    by rewrite write_attributes_overflow. }
  unfold haggle_dataobject_get_raw, haggle_dataobject_get_raw_alloc. by rewrite E.
Qed.

Lemma b64_room data : bytes data →
  base64_encode data (Z.to_nat (BASE64_LENGTH (Z.of_nat (length data)) + 1)) = b64_enc data ++ [0].
Proof.
  intros Hb. unfold base64_encode. rewrite base64_encode_loop_spec by (done || lia). apply take_ge.
  rewrite length_app. simpl. pose proof (length_b64_enc data). lia.
Qed.

(** A thumbnail reads back as it was set, into any buffer of the size announced by
    [haggle_dataobject_get_thumbnail_size], which is at most four bytes too much. *)
Theorem haggle_dataobject_thumbnail ctx_buf d data :
  length ctx_buf = 4%nat → bytes data →
  ∃ d' size, haggle_dataobject_set_thumbnail (Some d) data = (HAGGLE_NO_ERROR, Some d') ∧
    haggle_dataobject_get_thumbnail_size (Some d') = (HAGGLE_NO_ERROR, Some size) ∧
    Z.of_nat (length data) <= size <= Z.of_nat (length data) + 4 ∧
    ∀ len, size <= Z.of_nat len →
      haggle_dataobject_read_thumbnail ctx_buf (Some d') len = Some (Z.of_nat (length data), data).
Proof.
  intros Hc Hb. unfold haggle_dataobject_set_thumbnail. rewrite b64_room by done. eexists _, _. split; [done|].
  unfold haggle_dataobject_get_thumbnail_size, haggle_dataobject_read_thumbnail. cbn [mbind option_bind with_thumbnail d_thumbnail_str].
  split; [reflexivity|]. unfold strlen. rewrite <- length_bytes_of_string, (bytes_of_string_of_bytes _ []) by (by apply b64_enc_text).
  rewrite length_b64_enc. unfold BASE64_LENGTH.
  assert (Hsz : Z.of_nat (length data) <= 3 * ((Z.of_nat (length data) + 2) / 3 * 4 / 4) + 2 <= Z.of_nat (length data) + 4).
  { rewrite Z.div_mul by lia. Z.to_euclidean_division_equations. lia. }
  split; [exact Hsz|]. intros len Hlen.
  destruct (base64_decode_enc ctx_buf data len Hc Hb) as (r & Er & Ok & Eo); [lia|].
  rewrite Er. cbn [mbind option_bind]. by rewrite Ok, Eo.
Qed.

Lemma hash_loop_run fuel ctx m rest :
  represents ctx m → bytes rest → 8 * Z.of_nat (length (m ++ rest)) < 2 ^ 64 → (length rest < fuel)%nat →
  ∃ ctx', hash_loop fuel ctx rest = Some ctx' ∧ represents ctx' (m ++ rest).
Proof.
  revert ctx m rest. induction fuel as [|fuel IH]; intros ctx m rest Hr Hb Hl Hf; [lia|]. cbn [hash_loop].
  set (chunk := take DATA_BUFFER_LEN rest).
  assert (Hr' : represents (SHA1_Update ctx chunk) (m ++ chunk)).
  { apply SHA1_Update_represents; [done|by apply Forall_take|]. unfold chunk.
    rewrite length_app, length_take in *. lia. }
  destruct (Nat.ltb_spec (length rest) DATA_BUFFER_LEN) as [Hs|Hs].
  - eexists. split; [done|]. assert (E : chunk = rest) by (apply take_ge; lia). rewrite <- E. exact Hr'.
  - assert (E : m ++ rest = (m ++ chunk) ++ drop DATA_BUFFER_LEN rest) by (unfold chunk; by rewrite <- app_assoc, take_drop).
    rewrite E. apply IH; [done|by apply Forall_drop|by rewrite <- E|].
    rewrite length_drop. unfold DATA_BUFFER_LEN in *. lia.
Qed.

(** Hashing the data file terminates and stores the SHA-1 digest of the whole file,
    read in pieces of 4096 bytes, and its hexadecimal form; a missing path or file is an
    error that changes nothing. *)
Theorem haggle_dataobject_add_hash_spec uninit_sha (fs : files) d :
  length (Message_Block uninit_sha) = 64%nat →
  (∀ path contents, fs !! path = Some contents → bytes contents ∧ 8 * Z.of_nat (length contents) < 2 ^ 64) →
  haggle_dataobject_add_hash uninit_sha fs (Some d) =
  Some (match d_filepath d with
        | None => (HAGGLE_INTERNAL_ERROR, Some d)
        | Some path => match fs !! path with
                       | None => (HAGGLE_FILE_ERROR, Some d)
                       | Some contents => (HAGGLE_NO_ERROR, Some (with_hash d (fips_sha1 contents) (Some (hash_string (fips_sha1 contents)))))
                       end
        end).
Proof.
  intros Hu Hfs. unfold haggle_dataobject_add_hash. destruct (d_filepath d) as [path|]; [|done].
  destruct (fs !! path) as [contents|] eqn:E; [|done]. destruct (Hfs _ _ E) as [Hb Hl].
  destruct (hash_loop_run (S (length contents)) (SHA1_Init uninit_sha) [] contents) as (ctx & Ec & Hr);
    [by apply SHA1_Init_represents|done|done|lia|].
  rewrite Ec. cbn [mbind option_bind]. by rewrite (SHA1_Final_represents _ _ _ Hr).
Qed.

(** ** Files for buffers *)

Lemma fmt_ld_inj n m : 0 <= n → 0 <= m → fmt_ld n = fmt_ld m → n = m.
Proof. unfold fmt_ld. destruct (Z.ltb_spec n 0), (Z.ltb_spec m 0); try lia. apply dec_inj. Qed.

Lemma app_string_inj_r (s t u : string) : s +:+ u = t +:+ u → s = t.
Proof.
  revert t. induction s as [|a s IH]; intros [|b t] E; [done| | |].
  - apply (f_equal String.length) in E. rewrite !length_app_string in E. simpl in E. lia.
  - apply (f_equal String.length) in E. rewrite !length_app_string in E. simpl in E. lia.
  - change (String a (s +:+ u) = String b (t +:+ u)) in E. injection E as -> E. f_equal. by apply IH.
Qed.

Definition full_path (dir : string) (i : Z) : string := dir +:+ "/" +:+ "mem-dObj-" +:+ fmt_ld i +:+ ".do".

Lemma full_path_inj dir i j : 0 <= i → 0 <= j → full_path dir i = full_path dir j → i = j.
Proof. intros Hi Hj E. do 3 apply app_string_inj_l in E. apply app_string_inj_r in E. by apply fmt_ld_inj. Qed.

(** The name fits the buffer: 13 characters and a number of ten digits at most. *)
Lemma memory_path_full dir i :
  (String.length dir <= 220)%nat → 0 <= i < 10 ^ 10 → memory_path dir i = full_path dir i.
Proof.
  intros Hd Hi. unfold memory_path. apply snprintf_id. unfold full_path, fmt_ld. destruct (Z.ltb_spec i 0); [lia|].
  rewrite !length_app_string. pose proof (length_dec i 10 ltac:(lia) ltac:(lia)).
  change (10 ^ Z.of_nat 10) with (10 ^ 10) in *. simpl String.length at 2 3 5. lia.
Qed.

Lemma free_path_run fuel (fs : files) dir :
  (String.length dir <= 220)%nat → ∀ (fs' : files) i, 0 <= i → i + Z.of_nat (size fs') < 10 ^ 10 → (size fs' < fuel)%nat →
  (∀ k, i <= k → fs !! full_path dir k = fs' !! full_path dir k) →
  ∃ k, i <= k ∧ free_path fuel fs dir i = Some (full_path dir k) ∧ fs !! full_path dir k = None.
Proof.
  intros Hd. induction fuel as [|fuel IH]; intros fs' i Hi Hb Hf Hs; [lia|]. cbn [free_path].
  rewrite memory_path_full by (done || lia). destruct (fs !! full_path dir i) as [c|] eqn:E; [|by exists i].
  assert (E' : is_Some (fs' !! full_path dir i)) by (rewrite <- Hs by lia; by eexists).
  pose proof (map_size_delete_Some (full_path dir i) fs' E') as Hsz.
  pose proof (map_size_ne_0_lookup_2 fs' (full_path dir i) E').
  destruct (IH (delete (full_path dir i) fs') (i + 1)) as (k & Hk & Ek & Nk); [lia|lia|lia| |].
  - intros k Hk. rewrite lookup_delete_ne; [apply Hs; lia|]. intros Ep. apply full_path_inj in Ep; lia.
  - exists k. split_and!; [lia|done|done].
Qed.

(** Where the file name starts: behind the last separator. *)
Lemma filename_at_spec path n :
  (n <= String.length path)%nat →
  (filename_at n path <= n)%nat ∧
  (∀ j a, (filename_at n path <= j < n)%nat → String.get j path = Some a → is_separator a = false) ∧
  (filename_at n path ≠ 0%nat → ∃ a, String.get (filename_at n path - 1) path = Some a ∧ is_separator a = true).
Proof.
  induction n as [|n IH]; intros Hn; cbn [filename_at]; [split_and!; [lia|intros; lia|done]|].
  destruct (IH ltac:(lia)) as (H1 & H2 & H3). destruct (String.get n path) as [a|] eqn:E.
  - destruct (is_separator a) eqn:Es.
    + split_and!; [lia|intros; lia|]. intros _. exists a. by rewrite Nat.sub_succ, Nat.sub_0_r.
    + split_and!; [lia| |done]. intros j b Hj Eb. destruct (decide (j = n)) as [->|]; [congruence|]. apply (H2 j); [lia|done].
  - exfalso. clear -E Hn. revert n Hn E. induction path as [|a path IH]; intros [|n] Hn E; simpl in *; try lia; try done.
    apply (IH n); [lia|done].
Qed.

(** A data object made from a buffer lives in a new file of the Haggle directory: the
    search for a free name ends, no existing file is touched, and the object's path, name
    and length are those of the new file, which holds the buffer; an empty buffer leaves
    an empty file behind and gives no object. *)
Theorem haggle_dataobject_new_from_buffer_spec (fs : files) dir data :
  (String.length dir <= 220)%nat → Z.of_nat (size fs) < 10 ^ 10 →
  ∃ path d, haggle_dataobject_new_from_buffer (S (size fs)) fs (Some dir) data = Some (d, <[path := data]> fs) ∧
    fs !! path = None ∧ (∃ i, 0 <= i ∧ path = full_path dir i) ∧
    match data with
    | [] => d = None
    | _ => ∃ o, d = Some o ∧ d_filepath o = Some path ∧ d_filename o = Some (filename_of path) ∧
                d_datalen o = Z.of_nat (length data) ∧ persistent o = true ∧ d_m o = md_new HAGGLE_TAG None ∧
                haggle_dataobject_get_data_all (<[path := data]> fs) d = Some data
    end.
Proof.
  intros Hd Hs. unfold haggle_dataobject_new_from_buffer.
  destruct (free_path_run (S (size fs)) fs dir Hd fs 0) as (k & Hk & E & N); [lia|lia|lia|done|].
  rewrite E. cbn [mbind option_bind]. destruct data as [|b data]; cbn [length Nat.eqb].
  - exists (full_path dir k), None. split_and!; try done. by exists k.
  - unfold haggle_dataobject_new_from_file. cbn [mbind option_bind].
    assert (Hn : (strlen (full_path dir k) =? 0) = false).
    { apply Z.eqb_neq. unfold strlen, full_path. rewrite !length_app_string. simpl String.length at 2. lia. }
    rewrite Hn, lookup_insert_eq. cbn [mbind option_bind]. eexists _, _. split; [reflexivity|]. split; [done|]. split; [by exists k|].
    eexists. split; [reflexivity|]. split_and!; try done.
    unfold haggle_dataobject_get_data_all. cbn [mbind option_bind d_filepath with_filename with_filepath with_datalen].
    by rewrite lookup_insert_eq.
Qed.

Lemma substring_all s : String.substring 0 (String.length s) s = s.
Proof. induction s as [|a s IH]; [done|]. simpl. by rewrite IH. Qed.

Lemma substring_split i path : (i <= String.length path)%nat →
  path = String.substring 0 i path +:+ String.substring i (String.length path - i) path.
Proof.
  revert i. induction path as [|a path IH]; intros [|i] Hi.
  - done.
  - simpl in Hi. lia.
  - rewrite Nat.sub_0_r, substring_all. done.
  - change (String a path = String a (String.substring 0 i path +:+ String.substring i (String.length path - i) path)).
    f_equal. apply IH. simpl in Hi. lia.
Qed.

(** A data object made from a file has the file's path and length, and as its name the
    part of the path behind the last separator; there is none without such a file. *)
Theorem haggle_dataobject_new_from_file_spec (fs : files) path :
  match haggle_dataobject_new_from_file fs (Some path) with
  | None => path = "" ∨ fs !! path = None
  | Some d => ∃ contents dir name,
      fs !! path = Some contents ∧ d_datalen d = Z.of_nat (length contents) ∧ d_filepath d = Some path ∧
      d_filename d = Some name ∧ path = dir +:+ name ∧ (∀ j a, String.get j name = Some a → is_separator a = false) ∧
      (dir = "" ∨ ∃ a, String.get (String.length dir - 1) dir = Some a ∧ is_separator a = true) ∧
      persistent d = true ∧ d_al d = [] ∧ d_m d = md_new HAGGLE_TAG None
  end.
Proof.
  unfold haggle_dataobject_new_from_file. cbn [mbind option_bind]. destruct (Z.eqb_spec (strlen path) 0) as [E|_].
  { left. unfold strlen in E. destruct path; [done|simpl in E; lia]. }
  destruct (fs !! path) as [contents|] eqn:Ef; [|by right]. cbn [mbind option_bind].
  set (i := filename_at (String.length path) path).
  destruct (filename_at_spec path (String.length path) (le_n _)) as (H1 & H2 & H3). fold i in H1, H2, H3.
  pose proof (substring_split i path H1) as Hsp.
  assert (Hl : String.length (String.substring 0 i path) = i).
  { revert H1. generalize i. clear.
    induction path as [|b path IH]; intros [|n] H; simpl in *; try lia. by rewrite IH by lia. }
  exists contents, (String.substring 0 i path), (filename_of path).
  split_and!; try done.
  - intros j a Ej. unfold filename_of in Ej. fold i in Ej.
    assert (Hj : (j < String.length path - i)%nat).
    { destruct (Nat.lt_ge_cases j (String.length path - i)) as [|Hge]; [done|]. rewrite String.substring_correct2 in Ej by lia. done. }
    rewrite String.substring_correct1 in Ej by done. apply (H2 (j + i)%nat); [lia|done].
  - destruct (Nat.eq_dec i 0) as [->|Hi]; [left; by destruct path|right].
    destruct (H3 Hi) as (a & Ea & Hs). exists a. split; [|done]. rewrite Hl, String.substring_correct1 by lia. by rewrite Nat.add_0_r.
Qed.

(** ** Making the document again *)

Lemma set_parameter_same n v t : md_get_parameter t n = Some v → md_set_parameter n v t = t.
Proof.
  destruct t as [nm c ps ks]. unfold md_get_parameter, seq_get. cbn [md_params]. unfold md_set_parameter.
  destruct (seq_find n ps) as [[i a]|] eqn:E; [|done]. cbn. intros [= <-]. f_equal.
  apply seq_find_Some in E as (Ei & _). apply list_insert_id. rewrite Ei. by destruct a.
Qed.

Definition child_content (name : string) (t : meta) : option (option string) := (fun ik => md_content ik.2) <$> md_get t name.

Lemma put_child_same n c t : child_content n t = Some (Some c) → put_child n c t = t.
Proof.
  unfold child_content, put_child, md_get. destruct (list_find _ (md_kids t)) as [[i k]|] eqn:E; [|done]. cbn. intros [= Ec].
  apply list_find_Some in E as (Ei & _). destruct t as [nm ct ps ks], k as [kn kc kp kk]. cbn in *. subst kc. f_equal.
  apply list_eq. intros j. destruct (decide (i = j)) as [<-|]; [by rewrite list_lookup_alter_eq, Ei|by rewrite list_lookup_alter_ne].
Qed.

Lemma child_content_kids n t t' : md_kids t = md_kids t' → child_content n t = child_content n t'.
Proof. unfold child_content, md_get. by intros ->. Qed.

Lemma child_content_put n c n' t :
  child_content n' (put_child n c t) = if decide (n = n') then Some (Some c) else child_content n' t.
Proof.
  destruct t as [nm ct ps ks].
  set (find := fun n ks => (fun ik : nat * meta => md_content ik.2) <$> list_find (fun k => md_name_is k n = true) ks).
  change (child_content n' (Md nm ct ps ks)) with (find n' ks).
  assert (Hc : ∀ n k ks, find n (k :: ks) = if decide (md_name k = Some n) then Some (md_content k) else find n ks).
  { intros m k l. unfold find. cbn [list_find]. pose proof (md_name_is_iff k m).
    case_decide; case_decide; try tauto. by destruct (list_find _ l) as [[]|]. }
  assert (H : ∀ ks, find n' (match list_find (fun k => md_name_is k n = true) ks with
                             | Some (i, _) => alter (md_set_content c) i ks | None => ks ++ [md_new n (Some c)] end) =
              if decide (n = n') then Some (Some c) else find n' ks).
  { clear ks. induction ks as [|k ks IH]; cbn [list_find].
    - cbn [app]. rewrite Hc. cbn [md_new md_name md_content]. repeat case_decide; congruence || done.
    - destruct (decide (md_name_is k n = true)) as [D|D]; rewrite md_name_is_iff in D.
      + change (alter (md_set_content c) 0%nat (k :: ks)) with (md_set_content c k :: ks). rewrite !Hc.
        destruct k as [kn kc kp kk]. cbn in D |- *. subst kn. repeat case_decide; congruence || done.
      + destruct (list_find (fun k => md_name_is k n = true) ks) as [[i k']|]; cbn [fmap option_fmap option_map prod_map fst snd] in *.
        * change (alter (md_set_content c) (S i) (k :: ks)) with (k :: alter (md_set_content c) i ks).
          rewrite !Hc, IH. repeat case_decide; congruence || done.
        * cbn [app]. rewrite !Hc, IH. repeat case_decide; congruence || done. }
  specialize (H ks). revert H. unfold child_content, put_child, md_get, find. cbn [md_kids].
  destruct (list_find (fun k => md_name_is k n = true) ks) as [[i k]|]; exact id.
Qed.

(** Writing the data twice is writing it once. *)
Lemma write_data_same d t : write_data d (write_data d t) = write_data d t.
Proof.
  assert (Hs : ∀ w, md_get_parameter w "data_len" = Some (snprintf 20 (dec (d_datalen d))) →
    (∀ f, d_filename d = Some f → child_content "FileName" w = Some (Some f)) →
    (∀ h, d_hash_str d = Some h → child_content "FileHash" w = Some (Some (string_of_bytes (base64_encode (d_hash d) 29)))) →
    (∀ f, d_thumbnail_str d = Some f → child_content "Thumbnail" w = Some (Some f)) →
    (∀ f, d_filepath d = Some f → child_content "FilePath" w = Some (Some f)) → write_data d w = w).
  { intros w H1 H2 H3 H4 H5. unfold write_data. rewrite set_parameter_same by done.
    destruct (d_filename d) as [f|]; [rewrite (put_child_same "FileName") by auto|];
      (destruct (d_hash_str d) as [h|]; [rewrite (put_child_same "FileHash") by eauto|];
       (destruct (d_thumbnail_str d) as [tn|]; [rewrite (put_child_same "Thumbnail") by auto|];
        (destruct (d_filepath d) as [fp|]; [rewrite (put_child_same "FilePath") by auto|]; done))). }
  apply Hs; [apply write_data_params|..]; unfold write_data; intros f Ef; rewrite Ef;
    repeat (match goal with |- context [match ?o with Some _ => _ | None => _ end] => destruct o end); by rewrite ?child_content_put.
Qed.

Lemma update_data_same d t : update_data d (update_data d t) = update_data d t.
Proof.
  set (w := update_data d t).
  assert (H : ∃ i k, md_get w "Data" = Some (i, k) ∧ write_data d k = k).
  { unfold w, update_data. destruct t as [nm ct ps ks]. unfold md_get. cbn [md_kids].
    destruct (list_find _ ks) as [[i k]|] eqn:E; cbn [md_update md_add md_kids].
    - apply list_find_Some in E as (Ei & Hk & Hj). exists i, (write_data d k). split; [|apply write_data_same].
      apply list_find_Some. split_and!.
      + by rewrite list_lookup_alter_eq, Ei.
      + apply md_name_is_iff. rewrite (proj1 (write_data_params d k)). by apply md_name_is_iff.
      + intros j y Ej Hlt. rewrite list_lookup_alter_ne in Ej by lia. by apply (Hj j y).
    - exists (length ks), (write_data d (md_new "Data" None)). split; [|apply write_data_same].
      apply list_find_app_Some. right. split_and!; [lia|done|]. rewrite Nat.sub_diag. cbn [list_find].
      rewrite decide_True; [done|]. apply md_name_is_iff. by rewrite (proj1 (write_data_params d _)). }
  destruct H as (i & k & E & Hk). unfold update_data. rewrite E. apply list_find_Some in E as (Ei & _).
  destruct w as [nm ct ps ks]. cbn in Ei |- *. f_equal. apply list_eq. intros j.
  destruct (decide (i = j)) as [<-|]; [by rewrite list_lookup_alter_eq, Ei; cbn; rewrite Hk|by rewrite list_lookup_alter_ne].
Qed.

(** Removing the attribute elements and writing the data are independent. *)
Lemma remove_update d t : md_remove_named "Attr" (update_data d t) = update_data d (md_remove_named "Attr" t).
Proof.
  destruct t as [nm ct ps ks]. unfold update_data, md_get. cbn [md_kids md_remove_named].
  assert (Ha : ∀ k, md_name k = Some "Data" → md_name_is k "Attr" = false).
  { intros k Hk. apply not_true_iff_false. rewrite md_name_is_iff. congruence. }
  assert (Hw : ∀ k, md_name (write_data d k) = md_name k) by (intros k; apply write_data_params).
  assert (H : ∀ ks, filter (fun k => md_name_is k "Attr" = false)
       (match list_find (fun k => md_name_is k "Data" = true) ks with
        | Some (i, _) => alter (write_data d) i ks | None => ks ++ [write_data d (md_new "Data" None)] end) =
     match list_find (fun k => md_name_is k "Data" = true) (filter (fun k => md_name_is k "Attr" = false) ks) with
     | Some (i, _) => alter (write_data d) i (filter (fun k => md_name_is k "Attr" = false) ks)
     | None => filter (fun k => md_name_is k "Attr" = false) ks ++ [write_data d (md_new "Data" None)] end).
  { clear ks. induction ks as [|k ks IH]; cbn [list_find].
    - cbn [app]. rewrite filter_cons, decide_True by (apply Ha; by rewrite Hw). done.
    - destruct (decide (md_name_is k "Data" = true)) as [D|D].
      + apply md_name_is_iff in D as Dn. change (alter (write_data d) 0%nat (k :: ks)) with (write_data d k :: ks).
        rewrite !filter_cons, !decide_True by (apply Ha; by rewrite ?Hw). cbn [list_find]. by rewrite decide_True.
      + rewrite (filter_cons _ k ks).
        assert (Hm : ∀ o, match (match o with Some (i, x) => Some (S i, x) | None => None end : option (nat * meta)) with
                          | Some (i, _) => alter (write_data d) i (k :: ks) | None => (k :: ks) ++ [write_data d (md_new "Data" None)] end =
                     k :: match o with Some (i, _) => alter (write_data d) i ks | None => ks ++ [write_data d (md_new "Data" None)] end)
          by (by intros [[]|]).
        assert (Hf : ∀ o : option (nat * meta), prod_map S id <$> o = match o with Some (i, x) => Some (S i, x) | None => None end) by (by intros [[]|]).
        rewrite Hf, Hm, filter_cons, IH. destruct (decide (md_name_is k "Attr" = false)) as [A|A]; [|done].
        cbn [list_find]. rewrite decide_False by done. rewrite Hf. by destruct (list_find _ (filter _ ks)) as [[]|]. }
  specialize (H ks). destruct (list_find _ ks) as [[i k]|], (list_find _ (filter _ ks)) as [[i' k']|];
    cbn [md_update md_add md_remove_named]; by rewrite H.
Qed.

Lemma write_attributes_kids l m m' :
  write_attributes l m = Some m' →
  md_remove_named "Attr" m' = md_remove_named "Attr" m ∧
  md_name m' = md_name m ∧ md_content m' = md_content m ∧ md_params m' = md_params m.
Proof.
  revert m. induction l as [|a l IH]; intros m; cbn [write_attributes]; [by intros [= ->]|].
  destruct (write_attribute a) as [am|] eqn:E; [|done]. cbn [mbind option_bind]. intros E'.
  destruct (IH _ E') as (-> & -> & -> & ->). destruct m as [n c ps ks]. cbn. split_and!; try done.
  f_equal. rewrite filter_app, filter_cons.
  assert (Hn : md_name am = Some "Attr").
  { unfold write_attribute in E. destruct (aw a =? 0); [apply (inj Some) in E as <-; by rewrite md_set_parameter_name|].
    destruct (sprintf 8 (dec (aw a))); [|done]. cbn [mbind option_bind] in E. apply (inj Some) in E as <-. by rewrite !md_set_parameter_name. }
  rewrite decide_False; [by rewrite app_nil_r|]. rewrite (proj2 (md_name_is_iff am "Attr") Hn). done.
Qed.

Lemma remove_set_parameter n v t : md_remove_named "Attr" (md_set_parameter n v t) = md_set_parameter n v (md_remove_named "Attr" t).
Proof. destruct t as [nm c ps ks]. cbn. by destruct (seq_find n ps) as [[]|]. Qed.
Lemma remove_remove n t : md_remove_named n (md_remove_named n t) = md_remove_named n t.
Proof. destruct t as [nm c ps ks]. cbn. f_equal. rewrite list_filter_filter. apply list_filter_iff. tauto. Qed.
Lemma update_data_params d t n : md_get_parameter (update_data d t) n = md_get_parameter t n.
Proof. unfold update_data, md_get_parameter. destruct t as [nm c ps ks], (md_get _ _) as [[]|]; done. Qed.
Lemma remove_params n m t : md_get_parameter (md_remove_named m t) n = md_get_parameter t n.
Proof. by destruct t. Qed.

Lemma write_createtime_same d t m1 :
  write_createtime d t = Some m1 →
  ∀ m, (md_get_parameter m "create_time" = md_get_parameter m1 "create_time") → write_createtime d m = Some m.
Proof.
  unfold write_createtime. destruct ((d_createtime d).1 =? 0); [done|].
  destruct (sprintf 32 _) as [ct|]; [|done]. cbn [mbind option_bind]. intros [= <-] m Hm. f_equal.
  apply set_parameter_same. by rewrite Hm, md_get_set_parameter, decide_True.
Qed.

(** Converting a data object to metadata writes its current state: when it was
    converted before and its attributes were changed since, the document is the one a
    first conversion would have made. *)
Theorem haggle_dataobject_to_metadata_again d m l :
  haggle_dataobject_to_metadata (Some d) = Some (Some m, Some (with_m d m)) →
  haggle_dataobject_to_metadata (Some (with_al (with_m d m) l)) = haggle_dataobject_to_metadata (Some (with_al d l)).
Proof.
  unfold haggle_dataobject_to_metadata. cbn [with_al with_m d_flags d_m d_filepath d_datalen d_al].
  fold (persistent d). set (pers := if persistent d then "yes" else "no").
  change (write_createtime (with_al ?e l)) with (write_createtime e). change (write_createtime (with_m d m)) with (write_createtime d).
  change (update_data (with_al ?e l)) with (update_data e). change (update_data (with_m d m)) with (update_data d).
  set (m0 := md_set_parameter "persistent" pers (d_m d)).
  destruct (write_createtime d m0) as [m1|] eqn:E1; [|done]. cbn [mbind option_bind].
  set (has := bool_decide _ || _). set (m3 := md_remove_named "Attr" (if has then update_data d m1 else m1)).
  destruct (write_attributes (d_al d) m3) as [m'|] eqn:Ew; [|done]. cbn [mbind option_bind]. intros [= ->].
  destruct (write_attributes_kids _ _ _ Ew) as (Hrem & _ & _ & Hpar).
  assert (Hget : ∀ n, md_get_parameter m n = md_get_parameter m1 n).
  { intros n. unfold md_get_parameter. rewrite Hpar. fold (md_get_parameter m3 n). unfold m3. rewrite remove_params.
    destruct has; [apply update_data_params|done]. }
  assert (Hpers : md_get_parameter m1 "persistent" = Some pers).
  { unfold write_createtime in E1. destruct ((d_createtime d).1 =? 0).
    - apply (inj Some) in E1 as <-. unfold m0. by rewrite md_get_set_parameter, decide_True.
    - destruct (sprintf 32 _) as [ct|]; [|done]. cbn [mbind option_bind] in E1. apply (inj Some) in E1 as <-. unfold m0.
      by rewrite !md_get_set_parameter, decide_False, decide_True. }
  rewrite (set_parameter_same "persistent" pers m) by (by rewrite Hget).
  rewrite (write_createtime_same d m0 m1 E1 m (Hget _)). cbn [mbind option_bind].
  assert (E3 : md_remove_named "Attr" (if has then update_data d m else m) = m3).
  { assert (Hm3 : md_remove_named "Attr" m = m3) by (rewrite Hrem; unfold m3; apply remove_remove).
    destruct has; [|done]. rewrite remove_update, Hm3. unfold m3. by rewrite remove_update, update_data_same. }
  rewrite E3. destruct (write_attributes l m3); reflexivity.
Qed.

(** ** Witnesses *)

Definition ex_sha : SHA1Context := uninit_ctx.
Definition ex_dobj : dataobject :=
  with_m (with_al (with_createtime (with_hash (with_datalen (with_filepath (with_filename
    (with_flags (zero_dataobject (md_new HAGGLE_TAG None)) 1) (Some "a.jpg")) (Some "/d/a.jpg")) 3)
    (replicate 20 7) (Some (hash_string (replicate 20 7)))) (1300000000, 42))
    [MkAttr "Keyword" "cat" 7; MkAttr "Picture" "dog" 1]) (md_new HAGGLE_TAG None).

Lemma ex_dobj_ok : dobj_ok ex_dobj.
Proof.
  split.
  - repeat constructor.
  - repeat constructor; simpl; lia.
  - simpl. lia.
  - right. simpl. lia.
  - split; [repeat constructor; unfold is_byte; lia|reflexivity].
  - intros s [= <-]. split; reflexivity.
Defined.

Lemma haggle_dataobject_id_spec_witness :
  (haggle_dataobject_calculate_id ex_sha (add_attributes ex_dobj [MkAttr "A" "b" 1; MkAttr "C" "d" 2]) []) =
  (haggle_dataobject_calculate_id ex_sha (add_attributes ex_dobj [MkAttr "C" "d" 2; MkAttr "A" "b" 1]) []).
Proof.
  destruct (haggle_dataobject_id_spec ex_sha ex_dobj [] [MkAttr "A" "b" 1; MkAttr "C" "d" 2] [MkAttr "C" "d" 2; MkAttr "A" "b" 1]) as [_ E].
  - reflexivity.
  - apply ex_dobj_ok.
  - apply ex_dobj_ok.
  - apply Permutation_swap.
  - vm_compute. reflexivity.
  - symmetry. exact E.
Defined.

(** A wire format that knows one document. *)
Definition ex_dobj_document : option meta :=
  match haggle_dataobject_to_metadata (Some ex_dobj) with Some (m, _) => m | None => None end.
#[local] Instance ex_codec : MetadataCodec :=
  {| metadata_new_from_raw := fun _ => Some ex_dobj_document; metadata_get_raw_alloc := fun _ => (1, [60]) |}.
#[local] Instance ex_codec_ok : MetadataCodecOk ex_codec (fun m => Some m = ex_dobj_document).
Proof. intros m Hm. exists [60]. split; [done|]. split; [simpl; lia|]. simpl. by rewrite Hm. Qed.

Lemma haggle_dataobject_roundtrip_witness :
  ∃ m raw, haggle_dataobject_get_raw_alloc (Some ex_dobj) = Some (HAGGLE_NO_ERROR, raw, Some (with_m ex_dobj m)) ∧
    haggle_dataobject_new_from_raw [0; 0; 0; 0] (0, 0) (Some raw) = Some (Some (received ex_dobj m)).
Proof.
  destruct (haggle_dataobject_roundtrip [0; 0; 0; 0] (0, 0) ex_sha eq_refl (fun m => Some m = ex_dobj_document) ex_dobj [] ex_dobj_ok eq_refl)
    as (m & E & H).
  destruct H as (raw & E1 & E2 & _).
  - unfold ex_dobj_document. rewrite E. reflexivity.
  - exists m, raw. split; [exact E1|exact E2].
Defined.

Lemma haggle_dataobject_weight_overflow_witness :
  haggle_dataobject_to_metadata (Some (with_al ex_dobj [MkAttr "a" "b" 10000000])) = None.
Proof.
  apply (haggle_dataobject_weight_overflow (with_al ex_dobj [MkAttr "a" "b" 10000000])).
  exists (MkAttr "a" "b" 10000000). split; [apply list_elem_of_singleton; reflexivity|simpl; lia].
Defined.

Lemma haggle_dataobject_thumbnail_witness :
  ∃ d', haggle_dataobject_read_thumbnail [0; 0; 0; 0] (Some d') 9 = Some (5, [1; 2; 0; 255; 10]).
Proof.
  destruct (haggle_dataobject_thumbnail [0; 0; 0; 0] ex_dobj [1; 2; 0; 255; 10]) as (d' & size & _ & _ & Hs & H).
  - reflexivity.
  - repeat constructor; unfold is_byte; lia.
  - exists d'. apply (H 9%nat). simpl in Hs. lia.
Defined.

Lemma haggle_dataobject_add_hash_spec_witness :
  haggle_dataobject_add_hash ex_sha {["/d/a.jpg" := [97; 98; 99]]} (Some ex_dobj) =
  Some (HAGGLE_NO_ERROR, Some (with_hash ex_dobj (fips_sha1 [97; 98; 99]) (Some (hash_string (fips_sha1 [97; 98; 99]))))).
Proof.
  rewrite haggle_dataobject_add_hash_spec; [reflexivity|reflexivity|].
  intros path contents H. apply lookup_singleton_Some in H as [_ <-]. split; [repeat constructor; unfold is_byte; lia|simpl; lia].
Defined.

Lemma haggle_dataobject_new_from_buffer_spec_witness :
  ∃ path d fs, haggle_dataobject_new_from_buffer 2 {["h/mem-dObj-0.do" := [1]]} (Some "h") [2; 3] = Some (Some d, fs) ∧
    d_filepath d = Some path ∧ fs !! path = Some [2; 3].
Proof.
  destruct (haggle_dataobject_new_from_buffer_spec {["h/mem-dObj-0.do" := [1]]} "h" [2; 3])
    as (path & d & E & _ & _ & o & -> & F & _).
  - simpl. lia.
  - rewrite map_size_singleton. lia.
  - rewrite map_size_singleton in E. eexists path, o, _. split; [exact E|]. split; [exact F|]. by rewrite lookup_insert_eq.
Defined.

Lemma haggle_dataobject_to_metadata_again_witness :
  ∃ m, haggle_dataobject_to_metadata (Some (with_al (with_m ex_dobj m) [MkAttr "a" "b" 1])) =
       haggle_dataobject_to_metadata (Some (with_al ex_dobj [MkAttr "a" "b" 1])) ∧ Some m = ex_dobj_document.
Proof.
  assert (E : ∃ m, haggle_dataobject_to_metadata (Some ex_dobj) = Some (Some m, Some (with_m ex_dobj m)))
    by (eexists; vm_compute; reflexivity).
  destruct E as [m E]. exists m. split; [apply (haggle_dataobject_to_metadata_again ex_dobj m [MkAttr "a" "b" 1] E)|].
  unfold ex_dobj_document. rewrite E. reflexivity.
Defined.
