(* ===== verification/KernelDataObject.v ===== *)
(** * KernelDataObject: data objects in the kernel ([DataObject.cpp], [Attribute.cpp]).

    The attributes are a [BasicMap] from names to attributes, kept sorted by [insert_sorted]
    ([CppMap]); the metadata is the tree of [KernelMetadata].  OpenSSL's SHA-1 is a parameter, with
    what it computes as a hypothesis of the theorems; files are a map from paths to contents.
    Interfaces, reference counts and the streaming of data objects are not part of the record.

    One theorem compares the identifier that the kernel computes for the data object of an
    application with the one the library computed for it ([DataObject]): nothing but the document
    passes between the two programs.  The other is the invariant of the class: the attributes are
    sorted, the identifier is that of the contents, and a signature is on the identifier it
    signed. *)

From S2P Require Import Prelude Text Timeval Base64 Sha1 CList Attribute Metadata MetaTree MetadataXml DataObject.
From S2P Require Import CppString CppMap CppHashMap KernelMetadata.

(** ** Attributes *)

(** An [Attribute] has the fields of the library's [attr]: name, value and weight. *)
Definition attribute_eq (a b : attr) : bool :=
  if string_ne (an a) (an b) then false
  else if string_eq (av a) "*" || string_eq (av b) "*" then true
  else string_eq (av a) (av b).
Definition attribute_lt (a b : attr) : bool :=
  if string_ne (an a) (an b) then string_lt (an a) (an b)
  else if string_ne (av a) (av b) then string_lt (av a) (av b)
  else aw a <? aw b.

Abbreviation Attributes := (@BasicMap string attr).

(** The loops of [find] and [erase] over the range of the name. *)
Fixpoint attrs_loop (fuel : nat) (m : Attributes) (a : attr) (first last : CppMap.iterator) : option CppMap.iterator :=
  match fuel with
  | O => None
  | S fuel =>
    if bool_decide (first = last) then Some None
    else x ← deref m first; if attribute_eq a x.2 then Some first else attrs_loop fuel m a (next m first) last
  end.
Definition attrs_find (m : Attributes) (a : attr) : option CppMap.iterator :=
  '(first, last) ← CppMap.equal_range string_lt string_eq m (an a); attrs_loop (S (number_of_entries m)) m a first last.
Definition attrs_erase (m : Attributes) (a : attr) : option (nat * Attributes) :=
  it ← attrs_find m a;
  match it with None => Some (O, m) | Some _ => m ← CppMap.erase_at m it; Some (1%nat, m) end.
Definition attrs_add (m : Attributes) (a : attr) : option (bool * Attributes) :=
  '(it, m) ← CppMap.insert_sorted string_lt string_eq attribute_lt m (an a, a); Some (bool_decide (it ≠ None), m).

(** ** The object *)

Inductive DataState_t := DATA_STATE_UNKNOWN | DATA_STATE_NO_DATA | DATA_STATE_NOT_VERIFIED | DATA_STATE_VERIFIED_OK
  | DATA_STATE_VERIFIED_BAD.
Inductive SignatureStatus_t := SIGNATURE_MISSING | SIGNATURE_UNVERIFIED | SIGNATURE_VALID | SIGNATURE_INVALID.
Inductive ABEStatus_t := ABE_NOT_NEEDED | ABE_ENCRYPTION_NEEDED | ABE_ENCRYPTION_DONE | ABE_DECRYPTION_NEEDED | ABE_DECRYPTION_DONE.

Record kdobj := KDobj
  { k_signatureStatus : SignatureStatus_t; k_signee : string; k_signature : option (list Z);
    k_metadata : option kmeta; k_attrs : Attributes; k_filename : string; k_filepath : string; k_isForLocalApp : bool;
    k_dataLen : Z; k_origDataLen : Z; k_createTime : Timeval; k_updateTime : Timeval; k_persistent : bool;
    k_isNodeDesc : bool; k_controlMessage : bool; k_id : list Z; k_idStr : string; k_dataHash : list Z; k_dataState : DataState_t;
    k_encryptedFilePath : string; k_encryptedFileLength : Z; k_encryptedFileHash : list Z; k_ABEStatus : ABEStatus_t }.

Definition set_signature (d : kdobj) (st : SignatureStatus_t) (signee : string) (sg : option (list Z)) : kdobj :=
  KDobj st signee sg (k_metadata d) (k_attrs d) (k_filename d) (k_filepath d) (k_isForLocalApp d) (k_dataLen d) (k_origDataLen d)
    (k_createTime d) (k_updateTime d) (k_persistent d) (k_isNodeDesc d) (k_controlMessage d) (k_id d) (k_idStr d) (k_dataHash d)
    (k_dataState d) (k_encryptedFilePath d) (k_encryptedFileLength d) (k_encryptedFileHash d) (k_ABEStatus d).
Definition set_metadata (d : kdobj) (m : option kmeta) : kdobj :=
  KDobj (k_signatureStatus d) (k_signee d) (k_signature d) m (k_attrs d) (k_filename d) (k_filepath d) (k_isForLocalApp d)
    (k_dataLen d) (k_origDataLen d) (k_createTime d) (k_updateTime d) (k_persistent d) (k_isNodeDesc d) (k_controlMessage d)
    (k_id d) (k_idStr d) (k_dataHash d) (k_dataState d) (k_encryptedFilePath d) (k_encryptedFileLength d) (k_encryptedFileHash d)
    (k_ABEStatus d).
Definition set_attrs (d : kdobj) (a : Attributes) : kdobj :=
  KDobj (k_signatureStatus d) (k_signee d) (k_signature d) (k_metadata d) a (k_filename d) (k_filepath d) (k_isForLocalApp d)
    (k_dataLen d) (k_origDataLen d) (k_createTime d) (k_updateTime d) (k_persistent d) (k_isNodeDesc d) (k_controlMessage d)
    (k_id d) (k_idStr d) (k_dataHash d) (k_dataState d) (k_encryptedFilePath d) (k_encryptedFileLength d) (k_encryptedFileHash d)
    (k_ABEStatus d).
Definition set_file (d : kdobj) (filename filepath : string) (len orig : Z) : kdobj :=
  KDobj (k_signatureStatus d) (k_signee d) (k_signature d) (k_metadata d) (k_attrs d) filename filepath (k_isForLocalApp d)
    len orig (k_createTime d) (k_updateTime d) (k_persistent d) (k_isNodeDesc d) (k_controlMessage d)
    (k_id d) (k_idStr d) (k_dataHash d) (k_dataState d) (k_encryptedFilePath d) (k_encryptedFileLength d) (k_encryptedFileHash d)
    (k_ABEStatus d).
Definition set_times (d : kdobj) (create update : Timeval) : kdobj :=
  KDobj (k_signatureStatus d) (k_signee d) (k_signature d) (k_metadata d) (k_attrs d) (k_filename d) (k_filepath d) (k_isForLocalApp d)
    (k_dataLen d) (k_origDataLen d) create update (k_persistent d) (k_isNodeDesc d) (k_controlMessage d)
    (k_id d) (k_idStr d) (k_dataHash d) (k_dataState d) (k_encryptedFilePath d) (k_encryptedFileLength d) (k_encryptedFileHash d)
    (k_ABEStatus d).
Definition set_flags (d : kdobj) (persistent isNodeDesc controlMessage : bool) : kdobj :=
  KDobj (k_signatureStatus d) (k_signee d) (k_signature d) (k_metadata d) (k_attrs d) (k_filename d) (k_filepath d) (k_isForLocalApp d)
    (k_dataLen d) (k_origDataLen d) (k_createTime d) (k_updateTime d) persistent isNodeDesc controlMessage
    (k_id d) (k_idStr d) (k_dataHash d) (k_dataState d) (k_encryptedFilePath d) (k_encryptedFileLength d) (k_encryptedFileHash d)
    (k_ABEStatus d).
Definition set_id (d : kdobj) (id : list Z) (idStr : string) : kdobj :=
  KDobj (k_signatureStatus d) (k_signee d) (k_signature d) (k_metadata d) (k_attrs d) (k_filename d) (k_filepath d) (k_isForLocalApp d)
    (k_dataLen d) (k_origDataLen d) (k_createTime d) (k_updateTime d) (k_persistent d) (k_isNodeDesc d) (k_controlMessage d)
    id idStr (k_dataHash d) (k_dataState d) (k_encryptedFilePath d) (k_encryptedFileLength d) (k_encryptedFileHash d)
    (k_ABEStatus d).
Definition set_hash (d : kdobj) (h : list Z) (st : DataState_t) : kdobj :=
  KDobj (k_signatureStatus d) (k_signee d) (k_signature d) (k_metadata d) (k_attrs d) (k_filename d) (k_filepath d) (k_isForLocalApp d)
    (k_dataLen d) (k_origDataLen d) (k_createTime d) (k_updateTime d) (k_persistent d) (k_isNodeDesc d) (k_controlMessage d)
    (k_id d) (k_idStr d) h st (k_encryptedFilePath d) (k_encryptedFileLength d) (k_encryptedFileHash d) (k_ABEStatus d).
Definition set_encrypted (d : kdobj) (path : string) (len : Z) (h : list Z) (st : ABEStatus_t) : kdobj :=
  KDobj (k_signatureStatus d) (k_signee d) (k_signature d) (k_metadata d) (k_attrs d) (k_filename d) (k_filepath d) (k_isForLocalApp d)
    (k_dataLen d) (k_origDataLen d) (k_createTime d) (k_updateTime d) (k_persistent d) (k_isNodeDesc d) (k_controlMessage d)
    (k_id d) (k_idStr d) (k_dataHash d) (k_dataState d) path len h st.

Definition DATAOBJECT_ID_LEN : nat := 20.
(** [Timeval (-1)], by the constructor from [double]. *)
Definition invalid_time : Timeval := TV (-1) 0.

(** The private constructor. *)
Definition kdobj_new : kdobj :=
  KDobj SIGNATURE_MISSING "" None None bm_new "" "" false 0 0 invalid_time invalid_time true false false
    (replicate DATAOBJECT_ID_LEN 0) "" (replicate DATAOBJECT_ID_LEN 0) DATA_STATE_UNKNOWN "" 0 (replicate DATAOBJECT_ID_LEN 0) ABE_NOT_NEEDED.

Definition dataIsVerifiable (d : kdobj) : bool :=
  match k_dataState d with DATA_STATE_UNKNOWN | DATA_STATE_NO_DATA => false | _ => true end.
Definition isSigned (d : kdobj) : bool := match k_signatureStatus d with SIGNATURE_MISSING => false | _ => true end.
Definition removeSignature (d : kdobj) : kdobj := if isSigned d then set_signature d SIGNATURE_MISSING "" None else d.
Definition setSignature (d : kdobj) (signee : string) (sg : list Z) : kdobj := set_signature d SIGNATURE_UNVERIFIED signee (Some sg).
Definition setData (d : kdobj) (datahash : list Z) (datalen : Z) : kdobj :=
  let d := set_hash d datahash (k_dataState d) in set_file d (k_filename d) (k_filepath d) datalen (k_origDataLen d).
Definition setEncryptedData (d : kdobj) (encdatahash : list Z) (encdatalen : Z) : kdobj :=
  let d := set_encrypted d (k_encryptedFilePath d) encdatalen encdatahash (k_ABEStatus d) in
  set_hash d (k_dataHash d) DATA_STATE_NOT_VERIFIED.

(** ** Attributes of an object *)

Definition getAttribute (d : kdobj) (name value : string) (n : Z) : option (option attr) :=
  it ← attrs_find (k_attrs d) (MkAttr name value n);
  match it with None => Some None | Some _ => x ← deref (k_attrs d) it; Some (Some x.2) end.
(** The weight is passed for the [unsigned int] [n]. *)
Definition hasAttribute (d : kdobj) (a : attr) : option bool :=
  x ← getAttribute d (an a) (av a) (u32 (aw a)); Some (bool_decide (x ≠ None)).

Definition HAGGLE_ATTR_NETWORKCODING_NAME : string := "_NC_BLOCK_".
Definition HAGGLE_ATTR_FRAGMENTATION_NAME : string := "_FR_FRAGMENT_".
Definition hasABEAttribute (d : kdobj) : option bool :=
  x ← getAttribute d "_ABE_" "*" 0;
  match x with
  | None => Some false
  | Some _ =>
    b ← hasAttribute d (MkAttr HAGGLE_ATTR_NETWORKCODING_NAME "TRUE" 1);
    if b : bool then Some false
    else b ← hasAttribute d (MkAttr HAGGLE_ATTR_FRAGMENTATION_NAME "TRUE" 1); Some (negb b)
  end.

(** ** The identifier *)

Abbreviation files := (gmap string (list Z)).

(** ["%02x"] of every byte. *)
Fixpoint id_string (id : list Z) : string :=
  match id with [] => "" | b :: id => hex2 false b +:+ id_string id end.
Definition calcIdStr (d : kdobj) : kdobj := set_id d (k_id d) (id_string (k_id d)).
Definition nonempty (s : string) : bool := negb (slen s =? 0)%nat.

Definition DATAOBJECT_METADATA_DATA : string := "Data".
Definition DATAOBJECT_ATTRIBUTE_NAME : string := "Attr".
Definition NODE_DESC_ATTR : string := "NodeDescription".
Definition NODE_METADATA : string := "Node".

Section Kernel.
(** OpenSSL; an uninitialised base64 buffer and time. *)
Context {SHA_CTX : Type} (SHA_Init : SHA_CTX) (SHA_Update : SHA_CTX → list Z → SHA_CTX) (SHA_Final : SHA_CTX → list Z).
Context (ctx_buf : list Z) (uninit_time : Timeval).

Definition hash_attribute (ctxt : SHA_CTX) (a : attr) : SHA_CTX :=
  let ctxt := SHA_Update ctxt (bytes_of_string (an a)) in
  let ctxt := SHA_Update ctxt (bytes_of_string (av a)) in
  SHA_Update ctxt (be32 (u32 (aw a))).

Definition hash_data (d : kdobj) (ctxt : SHA_CTX) : SHA_CTX :=
  if dataIsVerifiable d then
    if (slen (k_encryptedFilePath d) =? 0)%nat then SHA_Update ctxt (k_dataHash d) else SHA_Update ctxt (k_encryptedFileHash d)
  else if nonempty (k_filename d) && (0 <? k_dataLen d) then
    SHA_Update (SHA_Update ctxt (bytes_of_string (k_filename d))) (le64 (k_dataLen d))
  else ctxt.

Definition calcId (d : kdobj) : option kdobj :=
  l ← entries (k_attrs d);
  let ctxt := fold_left hash_attribute (snd <$> l) SHA_Init in
  ctxt ← (if isValid (k_createTime d) then s ← getAsString (k_createTime d); Some (SHA_Update ctxt (bytes_of_string s)) else Some ctxt);
  Some (calcIdStr (set_id d (SHA_Final (hash_data d ctxt)) (k_idStr d))).

(** ** Times and attributes: what changes the identifier drops the signature *)

Definition initMetadata (d : kdobj) : bool * kdobj :=
  match k_metadata d with Some _ => (false, d) | None => (true, set_metadata d (Some (kmeta_new "Haggle" ""))) end.

Definition set_time_parameter (m : kmeta) (name : string) (t : Timeval) : option kmeta :=
  if isValid t then s ← getAsString t; setParameter m name s else Some m.
Definition setCreateTime (d : kdobj) (t : Timeval) : option kdobj :=
  match k_metadata d with
  | None => Some d
  | Some m => m ← set_time_parameter m "create_time" t; calcId (removeSignature (set_metadata (set_times d t (k_updateTime d)) (Some m)))
  end.
Definition setUpdateTime (d : kdobj) (t : Timeval) : option kdobj :=
  match k_metadata d with
  | None => Some d
  | Some m => m ← set_time_parameter m "update_time" t; calcId (removeSignature (set_metadata (set_times d (k_createTime d) t) (Some m)))
  end.

Definition addAttribute (d : kdobj) (a : attr) : option (bool * kdobj) :=
  b ← hasAttribute d a;
  if b : bool then Some (false, d)
  else '(ret, attrs) ← attrs_add (k_attrs d) a; d ← calcId (removeSignature (set_attrs d attrs)); Some (ret, d).
Definition attributes_removed (d : kdobj) (r : nat * Attributes) : option (nat * kdobj) :=
  let d := set_attrs d r.2 in
  if (0 <? r.1)%nat then d ← calcId (removeSignature d); Some (r.1, d) else Some (r.1, d).
Definition removeAttribute (d : kdobj) (a : attr) : option (nat * kdobj) :=
  r ← attrs_erase (k_attrs d) a; attributes_removed d r.
Definition removeAttribute_named (d : kdobj) (name value : string) : option (nat * kdobj) :=
  r ← (if string_eq value "*" then CppMap.erase string_lt string_eq (k_attrs d) name
       else attrs_erase (k_attrs d) (MkAttr name value 1));
  attributes_removed d r.

(** ** Files *)

Definition setFilePath (fs : files) (d : kdobj) (path : string) (data_len : Z) (from_network : bool) : bool * kdobj :=
  let d := set_file d (k_filename d) path data_len data_len in
  if from_network then (true, d)
  else match fs !! path with
       | None => (false, d)
       | Some contents =>
         let size := Z.of_nat (length contents) in
         if data_len =? 0 then (true, set_file d (k_filename d) path size size) else (size =? data_len, d)
       end.
Definition setEncryptedFilePath (fs : files) (d : kdobj) (path : string) (data_len : Z) (from_network : bool) : bool * kdobj :=
  let d := set_encrypted d path data_len (k_encryptedFileHash d) (k_ABEStatus d) in
  if from_network then (true, d)
  else match fs !! path with
       | None => (false, d)
       | Some contents =>
         let size := Z.of_nat (length contents) in
         if data_len =? 0 then (true, set_encrypted d path size (k_encryptedFileHash d) (k_ABEStatus d)) else (size =? data_len, d)
       end.

(** The buffers of 4096 bytes in which a file is hashed; the last one is short, or empty. *)
Fixpoint hash_file (fuel : nat) (ctx : SHA_CTX) (rest : list Z) : option SHA_CTX :=
  match fuel with
  | O => None
  | S fuel =>
    let data := take 4096 rest in
    let ctx := SHA_Update ctx data in
    if (length data <? 4096)%nat then Some ctx else hash_file fuel ctx (drop 4096 rest)
  end.

(** [create (filepath, filename)]; [now] is the clock. *)
Definition create_from_file (fs : files) (now : Timeval) (filepath filename : string) : option (option kdobj) :=
  if (slen filepath =? 0)%nat then Some None
  else
    let d := (initMetadata kdobj_new).2 in
    filename ← (if (slen filename =? 0)%nat then after_last filepath "/" else Some filename);
    match fs !! filepath with
    | None => Some None
    | Some contents =>
      ctx ← hash_file (S (length contents)) SHA_Init contents;
      let len := u64 (Z.of_nat (length contents)) in
      let d := set_hash (set_file d filename filepath len len) (SHA_Final ctx) DATA_STATE_VERIFIED_OK in
      d ← setCreateTime d now; d ← calcId d; Some (Some d)
    end.

Definition verifyData (fs : files) (d : kdobj) : option (DataState_t * kdobj) :=
  let encrypted := nonempty (k_encryptedFilePath d) in
  let filename := if encrypted then k_encryptedFilePath d else k_filepath d in
  let compareHash := if encrypted then k_encryptedFileHash d else k_dataHash d in
  let len := if encrypted then k_encryptedFileLength d else k_dataLen d in
  if len =? 0 then Some (k_dataState d, d)
  else match k_dataState d with
  | DATA_STATE_NOT_VERIFIED =>
    let bad := set_hash d (k_dataHash d) DATA_STATE_VERIFIED_BAD in
    match fs !! filename with
    | None => Some (DATA_STATE_VERIFIED_BAD, bad)
    | Some contents =>
      ctx ← hash_file (S (length contents)) SHA_Init contents;
      Some (if bool_decide (compareHash = SHA_Final ctx) then (DATA_STATE_VERIFIED_OK, set_hash d (k_dataHash d) DATA_STATE_VERIFIED_OK)
            else (DATA_STATE_VERIFIED_BAD, bad))
    end
  | st => Some (st, d)
  end.

Definition deleteData (fs : files) (d : kdobj) : kdobj * files :=
  let fs := if nonempty (k_filepath d) then delete (k_filepath d) fs else fs in
  let fs := if nonempty (k_encryptedFilePath d) then delete (k_encryptedFilePath d) fs else fs in
  (set_encrypted (set_hash (set_file d (k_filename d) "" 0 (k_origDataLen d)) (k_dataHash d) DATA_STATE_NO_DATA) "" 0
                 (k_encryptedFileHash d) (k_ABEStatus d), fs).

(** ** Encryption *)

Definition setABEStatus (d : kdobj) (st : ABEStatus_t) : kdobj :=
  set_encrypted d (k_encryptedFilePath d) (k_encryptedFileLength d) (k_encryptedFileHash d) st.
Definition restoreEncryptedDataObject (d : kdobj) : option kdobj :=
  b ← hasABEAttribute d;
  if (b : bool) && (slen (k_encryptedFilePath d) =? 0)%nat && nonempty (k_filepath d) then
    let d := set_encrypted d (k_filepath d) (k_dataLen d) (k_dataHash d) (k_ABEStatus d) in
    let d := set_file d (k_filename d) "" 0 (k_origDataLen d) in
    let d := set_hash d (replicate DATAOBJECT_ID_LEN 0) (k_dataState d) in
    d ← calcId d; Some (setABEStatus d ABE_DECRYPTION_NEEDED)
  else Some d.

(** ** Reading the metadata *)

Definition read_persistence (d : kdobj) (pval : option string) : kdobj :=
  match pval with
  | None => d
  | Some p =>
    if (strcmp p "no" =? 0) || (strcmp p "false" =? 0) then set_flags d false (k_isNodeDesc d) (k_controlMessage d)
    else if (strcmp p "yes" =? 0) || (strcmp p "true" =? 0) then set_flags d true (k_isNodeDesc d) (k_controlMessage d)
    else d
  end.
Definition read_times (d : kdobj) (create update : option string) : option kdobj :=
  ct ← (match create with Some p => Timeval_string uninit_time p | None => Some (k_createTime d) end);
  ut ← (match update with Some p => Timeval_string uninit_time p | None => Some (k_updateTime d) end);
  Some (set_times d ct ut).
Definition read_marks (d : kdobj) (m : kmeta) : option kdobj :=
  '(n, _) ← getMetadata m NODE_METADATA 0;
  let d := match n with Some _ => set_flags d (k_persistent d) true (k_controlMessage d) | None => d end in
  '(app, _) ← getMetadata m "Application" 0;
  match app with
  | None => Some d
  | Some app =>
    '(c, _) ← getMetadata app "Control" 0;
    Some (match c with Some _ => set_flags d (k_persistent d) (k_isNodeDesc d) true | None => d end)
  end.

(** The attribute of an [Attr] element: a missing name is empty, a missing weight is 0. *)
Definition parse_attribute (mattr : kmeta) : option attr :=
  attrName ← getParameter mattr "name"; weightStr ← getParameter mattr "weight";
  Some (MkAttr (default "" attrName) (getContent mattr) (match weightStr with Some w => strtoul w | None => 0 end)).
Fixpoint parse_attributes (d : kdobj) (l : list kmeta) : option kdobj :=
  match l with
  | [] => Some d
  | mattr :: l =>
    a ← parse_attribute mattr;
    let d := if string_eq (an a) NODE_DESC_ATTR then set_flags d (k_persistent d) true (k_controlMessage d) else d in
    b ← hasAttribute d a;
    d ← (if b : bool then Some d else '(_, attrs) ← attrs_add (k_attrs d) a; Some (set_attrs d attrs));
    parse_attributes d l
  end.

(** The file path of the [Data] element [dm]: the answer [false] when the file is not what the
    element says, the object and the element. *)
Definition parse_filepath (fs : files) (from_network : bool) (d : kdobj) (dm m : kmeta) : option (bool * kdobj * kmeta) :=
  let '(ok, d) := setFilePath fs d (getContent m) (k_dataLen d) from_network in
  if negb ok then Some (false, d, dm)
  else
    '(d, dm) ← (if (slen (k_filename d) =? 0)%nat then
                  f ← after_last (k_filepath d) "/"; dm ← addMetadata dm (kmeta_new "FileName" f);
                  Some (set_file d f (k_filepath d) (k_dataLen d) (k_origDataLen d), dm)
                else Some (d, dm));
    '(_, dm) ← removeMetadata dm "FilePath"; Some (true, d, dm).

Definition parse_filehash (d : kdobj) (dm : kmeta) : option kdobj :=
  match k_dataState d with
  | DATA_STATE_UNKNOWN =>
    '(m, _) ← getMetadata dm "FileHash" 0;
    match m with
    | None => Some d
    | Some m =>
      r ← base64_decode (base64_decode_ctx_init ctx_buf) (bytes_of_string (getContent m)) DATAOBJECT_ID_LEN;
      Some (set_hash d (dr_out r ++ drop (length (dr_out r)) (k_dataHash d)) (if dr_ok r then DATA_STATE_NOT_VERIFIED else k_dataState d))
    end
  | _ => Some d
  end.

Definition parse_data (fs : files) (from_network : bool) (d : kdobj) (dm : kmeta) : option (bool * kdobj * kmeta) :=
  pval ← getParameter dm "data_len";
  let d := match pval with Some p => set_file d (k_filename d) (k_filepath d) (strtoul p) (strtoul p) | None => d end in
  '(m, _) ← getMetadata dm "FileName" 0;
  let d := match m with Some m => set_file d (getContent m) (k_filepath d) (k_dataLen d) (k_origDataLen d) | None => d end in
  '(m, _) ← getMetadata dm "FilePath" 0;
  '(ok, d, dm) ← (match m with Some m => parse_filepath fs from_network d dm m | None => Some (true, d, dm) end);
  if negb ok then Some (false, d, dm) else d ← parse_filehash d dm; Some (true, d, dm).

Definition parse_signature (d : kdobj) (m : kmeta) : option (bool * kdobj) :=
  match k_signatureStatus d with
  | SIGNATURE_MISSING =>
    '(sm, _) ← getMetadata m "Signature" 0;
    match sm with
    | None => Some (true, d)
    | Some sm =>
      signee ← getParameter sm "signee";
      let signee := default (k_signee d) signee in
      '(ok, out) ← base64_decode_alloc malloc_succeeds (base64_decode_ctx_init ctx_buf) (bytes_of_string (getContent sm));
      Some (ok, set_signature d (if ok : bool then SIGNATURE_UNVERIFIED else SIGNATURE_MISSING) signee out)
    end
  | _ => Some (true, d)
  end.

(** Persistence, times and the elements that mark an object. *)
Definition parse_head (d : kdobj) (m : kmeta) : option kdobj :=
  pval ← getParameter m "persistent"; ct ← getParameter m "create_time"; ut ← getParameter m "update_time";
  d ← read_times (read_persistence d pval) ct ut; read_marks d m.
Definition parse_data_element (fs : files) (from_network : bool) (d : kdobj) (m : kmeta) : option (bool * kdobj * kmeta) :=
  '(dm, _) ← getMetadata m DATAOBJECT_METADATA_DATA 0;
  match dm with
  | None => Some (true, d, m)
  | Some dm =>
    '(ok, d, dm) ← parse_data fs from_network d dm;
    m ← update_first m DATAOBJECT_METADATA_DATA (λ _, Some dm);
    Some (ok, set_metadata d (Some m), m)
  end.

(** The answer is 0, also where the code says [false], or -1. *)
Definition parseMetadata (fs : files) (from_network : bool) (d : kdobj) : option (Z * kdobj) :=
  match k_metadata d with
  | None => Some (-1, d)
  | Some m =>
    d ← parse_head d m;
    l ← children_named m DATAOBJECT_ATTRIBUTE_NAME;
    d ← parse_attributes d l;
    '(ok, d, m) ← parse_data_element fs from_network d m;
    if negb (ok : bool) then Some (0, d)
    else
      '(ok, d) ← parse_signature d m;
      if negb (ok : bool) then Some (-1, d) else d ← calcId d; Some (0, d)
  end.

(** ** Creating *)

(** The arguments of [create]; interfaces, reception time and storage path are left out. *)
Record create_args := CreateArgs
  { ca_raw : option (list Z); ca_filepath : string; ca_encfilepath : string; ca_filename : string;
    ca_sig_status : SignatureStatus_t; ca_signee : string; ca_signature : option (list Z); ca_create_time : Timeval;
    ca_datalen : Z; ca_encdatalen : Z; ca_datastate : DataState_t; ca_datahash : option (list Z); ca_encdatahash : option (list Z);
    ca_from_network : bool }.
(** [create (raw, len, sourceIface, remoteIface)]. *)
Definition default_args (raw : list Z) : create_args :=
  CreateArgs (Some raw) "" "" "" SIGNATURE_MISSING "" None invalid_time 0 0 DATA_STATE_UNKNOWN None None false.

Definition state_after_no_data (st : DataState_t) : bool :=
  match st with DATA_STATE_UNKNOWN | DATA_STATE_NO_DATA => false | _ => true end.
Definition hash_argument (a : create_args) (h : option (list Z)) (old : list Z) : list Z :=
  match h with Some h => if state_after_no_data (ca_datastate a) then h else old | None => old end.

(** The object filled from the arguments: [None] when a file is not as they say. *)
Definition create_fields (fs : files) (a : create_args) : option kdobj :=
  let d := set_encrypted (set_file kdobj_new (ca_filename a) (ca_filepath a) 0 0) (ca_encfilepath a) 0
                         (replicate DATAOBJECT_ID_LEN 0) ABE_NOT_NEEDED in
  let '(ok, d) := if nonempty (ca_filepath a) then setFilePath fs d (ca_filepath a) (ca_datalen a) (ca_from_network a) else (true, d) in
  if negb ok then None else
  let '(ok, d) := if nonempty (ca_encfilepath a) then setEncryptedFilePath fs d (ca_encfilepath a) (ca_encdatalen a) false else (true, d) in
  if negb ok then None else
  let d := set_signature d (ca_sig_status a) (k_signee d) (k_signature d) in
  let d := match ca_signature a with
           | Some sg => if (length sg =? 0)%nat then d else setSignature d (ca_signee a) sg
           | None => d
           end in
  let d := set_times d (ca_create_time a) (k_updateTime d) in
  let d := set_file d (k_filename d) (k_filepath d) (ca_datalen a) (ca_datalen a) in
  Some (set_hash d (hash_argument a (ca_datahash a) (k_dataHash d)) (ca_datastate a)).

(** What [create] does last: the fields of an encrypted object are the arguments' again. *)
Definition create_encrypted (a : create_args) (d : kdobj) : option kdobj :=
  b ← hasABEAttribute d;
  if negb b then Some d
  else
    let d := set_file d (k_filename d) (k_filepath d) (ca_datalen a) (ca_encdatalen a) in
    let d := set_hash d (hash_argument a (ca_datahash a) (k_dataHash d)) (ca_datastate a) in
    let d := set_encrypted d (k_encryptedFilePath d) (ca_encdatalen a) (hash_argument a (ca_encdatahash a) (k_encryptedFileHash d)) (k_ABEStatus d) in
    d ← calcId d;
    Some (if nonempty (k_filepath d) then setABEStatus d ABE_DECRYPTION_DONE
          else if nonempty (k_encryptedFilePath d) then setABEStatus d ABE_ENCRYPTION_DONE else d).

Section Create.
Context (xmlIsBlankNode : string → bool) (xmlNodeGetContent : xmlNode → string) (xmlParseMemory : list Z → option xmlNode).

(** [None] undefined, [Some None] NULL. *)
Definition create (fs : files) (now : Timeval) (a : create_args) : option (option kdobj) :=
  match create_fields fs a with
  | None => Some None
  | Some d =>
    match ca_raw a with
    | None =>
      let d := (initMetadata d).2 in
      d ← setCreateTime d now; d ← calcId d; d ← create_encrypted a d; Some (Some d)
    | Some raw =>
      m ← initFromRaw xmlIsBlankNode xmlNodeGetContent xmlParseMemory raw;
      match m with
      | None => Some None
      | Some m =>
        if string_ne (k_name m) "Haggle" then Some None
        else
          '(ret, d) ← parseMetadata fs false (set_metadata d (Some m));
          if ret <? 0 then Some None else d ← create_encrypted a d; Some (Some d)
      end
    end
  end.
End Create.
End Kernel.

(** ** Writing the metadata *)

(** The child with the name gets the content, or is added with it. *)
Definition set_child (name content : string) (md : kmeta) : option kmeta :=
  '(c, _) ← getMetadata md name 0;
  match c with
  | Some _ => update_first md name (λ c, Some (setContent c content))
  | None => addMetadata md (kmeta_new name content)
  end.
(** [getOrCreateDataMetadata], and [f] through its pointer. *)
Definition with_data_metadata (m : kmeta) (f : kmeta → option kmeta) : option kmeta :=
  '(c, _) ← getMetadata m DATAOBJECT_METADATA_DATA 0;
  m ← (match c with Some _ => Some m | None => addMetadata m (kmeta_new DATAOBJECT_METADATA_DATA "") end);
  update_first m DATAOBJECT_METADATA_DATA f.

(** The plain data goes out: for a local application that may see it, or when there is no other. *)
Definition sends_plain (d : kdobj) (hasABE : bool) : bool :=
  (k_isForLocalApp d && nonempty (k_filepath d) && negb hasABE) || (slen (k_encryptedFilePath d) =? 0)%nat.
Definition write_data_metadata (d : kdobj) (hasABE : bool) (md : kmeta) : option kmeta :=
  md ← setParameter md "data_len" (snprintf 20 (dec (if sends_plain d hasABE then k_dataLen d else k_encryptedFileLength d)));
  md ← (if k_isForLocalApp d then
          if nonempty (k_filepath d) && negb hasABE then set_child "FilePath" (k_filepath d) md
          else if nonempty (k_encryptedFilePath d) then set_child "FilePath" (k_encryptedFilePath d) md
          else Some md
        else Some md);
  set_child "FileName" (k_filename d) md.
Definition write_hash_metadata (d : kdobj) (hasABE : bool) (md : kmeta) : option kmeta :=
  let hash := if sends_plain d hasABE then k_dataHash d else k_encryptedFileHash d in
  set_child "FileHash" (string_of_bytes (base64_encode hash 29)) md.
Definition write_signature (d : kdobj) (m : kmeta) : option kmeta :=
  match k_signature d with
  | Some ((_ :: _) as sg) =>
    match base64_encode_alloc malloc_succeeds sg with
    | (ret, Some text) =>
      if 0 <? ret then
        m ← set_child "Signature" (string_of_bytes text) m;
        update_first m "Signature" (λ ms, setParameter ms "signee" (k_signee d))
      else Some m
    | _ => Some m
    end
  | _ => Some m
  end.
Definition write_attr (a : attr) : option kmeta :=
  mattr ← setParameter (kmeta_new DATAOBJECT_ATTRIBUTE_NAME (av a)) "name" (an a);
  if aw a =? 0 then Some mattr else setParameter mattr "weight" (snprintf 20 (dec (aw a))).
Fixpoint write_attrs (l : list (string * attr)) (m : kmeta) : option kmeta :=
  match l with [] => Some m | x :: l => mattr ← write_attr x.2; m ← addMetadata m mattr; write_attrs l m end.

Definition toMetadata (d : kdobj) : option (option kmeta * kdobj) :=
  match k_metadata d with
  | None => Some (None, d)
  | Some m =>
    m ← setParameter m "persistent" (if k_persistent d then "yes" else "no");
    abe ← getAttribute d "_ABE_" "*" 0;
    let hasABE := bool_decide (abe ≠ None) in
    m ← (if (negb (k_dataLen d =? 0) && nonempty (k_filename d)) || (negb (k_encryptedFileLength d =? 0) && nonempty (k_encryptedFilePath d))
         then with_data_metadata m (write_data_metadata d hasABE) else Some m);
    m ← (if dataIsVerifiable d then with_data_metadata m (write_hash_metadata d hasABE) else Some m);
    m ← write_signature d m;
    '(_, m) ← removeMetadata m DATAOBJECT_ATTRIBUTE_NAME;
    l ← entries (k_attrs d); m ← write_attrs l m;
    Some (Some m, set_metadata d (Some m))
  end.
Definition setIsForLocalApp (d : kdobj) (val : bool) : option kdobj :=
  '(_, d) ← toMetadata (KDobj (k_signatureStatus d) (k_signee d) (k_signature d) (k_metadata d) (k_attrs d) (k_filename d) (k_filepath d) val
    (k_dataLen d) (k_origDataLen d) (k_createTime d) (k_updateTime d) (k_persistent d) (k_isNodeDesc d) (k_controlMessage d)
    (k_id d) (k_idStr d) (k_dataHash d) (k_dataState d) (k_encryptedFilePath d) (k_encryptedFileLength d) (k_encryptedFileHash d)
    (k_ABEStatus d));
  Some d.

(** ** The attributes are a sorted sequence *)

Lemma string_eq_iff s t : string_eq s t = true ↔ s = t.
Proof. apply ko_eq. Qed.
Lemma string_ne_iff s t : string_ne s t = true ↔ s ≠ t.
Proof. unfold string_ne. fold (string_eq s t). rewrite negb_true_iff, <- not_true_iff_false, string_eq_iff. done. Qed.

Lemma attribute_lt_attr_lt a b : attribute_lt a b = attr_lt a b.
Proof.
  unfold attribute_lt, attr_lt, string_ne, string_lt. rewrite !compare_strcmp. cbv zeta.
  cmp_cases; cbn [negb]; try done; lia.
Qed.
#[export] Instance attribute_order : ValueOrder attribute_lt.
Proof.
  split; intros *; rewrite !attribute_lt_attr_lt.
  - intros H. apply not_true_iff_false. intros H'. pose proof (attr_lt_trans _ _ _ H H') as E. by rewrite attr_lt_irrefl in E.
  - apply (transitivity (R := attr_le)).
Qed.

(** Equality of attributes, wildcards included; the weight does not count. *)
Lemma attribute_eq_iff a b : attribute_eq a b = true ↔ an a = an b ∧ (av a = "*" ∨ av b = "*" ∨ av a = av b).
Proof.
  unfold attribute_eq. destruct (string_ne (an a) (an b)) eqn:E.
  - apply string_ne_iff in E. split; [done|]. by intros [? _].
  - assert (an a = an b) as Hn by (apply dec_stable; intros H%string_ne_iff; congruence).
    destruct (string_eq (av a) "*") eqn:E1; cbn [orb]; [apply string_eq_iff in E1; tauto|].
    destruct (string_eq (av b) "*") eqn:E2; [apply string_eq_iff in E2; tauto|]. rewrite string_eq_iff.
    split; [tauto|]. intros (_ & [H|[H|H]]); [|by apply string_eq_iff in H; congruence|done].
    by apply string_eq_iff in H; congruence.
Qed.
Lemma attribute_eq_sym a b : attribute_eq a b = attribute_eq b a.
Proof. apply eq_true_iff_eq. rewrite !attribute_eq_iff. naive_solver. Qed.

Record attrs_wf (m : Attributes) (l : list (string * attr)) : Prop := AttrsWf
  { aw_rep : bm_rep m l;
    aw_sorted : StronglySorted (ple string_lt attribute_lt) l;
    aw_keys : Forall (λ x, x.1 = an x.2) l }.

Lemma attrs_wf_new : attrs_wf bm_new [].
Proof. split; [split; cbn; try done; lia|constructor|constructor]. Qed.
Lemma attrs_ksorted m l : attrs_wf m l → ksorted string_lt l.
Proof. intros H. eapply (StronglySorted_weaken (ple string_lt attribute_lt)); [|exact (aw_sorted _ _ H)]. intros x y. apply (ple_kle string_lt string_eq), _. Qed.

(** The values are sorted as the library sorts them. *)
Lemma attrs_values_sorted m l : attrs_wf m l → al_sorted l.*2.
Proof.
  intros [_ Hs Hk]. induction Hs as [|x l Hs IH Hx]; [constructor|]. apply Forall_cons in Hk as [Ek Hk].
  rewrite fmap_cons. constructor; [by apply IH|]. apply Forall_fmap. apply Forall_forall. intros y Hy.
  rewrite Forall_forall in Hx, Hk. specialize (Hx y Hy). specialize (Hk y Hy). unfold attr_le, compose.
  rewrite <- attribute_lt_attr_lt. destruct Hx as [Hx|[_ Hx]]; [|done].
  rewrite Ek, Hk in Hx. unfold attribute_lt.
  assert (string_ne (an y.2) (an x.2) = true) as ->.
  { apply string_ne_iff. intros E. rewrite E in Hx. by rewrite (ko_irrefl (klt := string_lt)) in Hx. }
  by apply (klt_asym string_lt string_eq).
Qed.

Lemma attrs_loop_spec fuel m l a p hi :
  bm_rep m l → let q := from_option id (length l) hi in (p <= q <= length l)%nat →
  hi = (if decide (q < length l)%nat then Some q else None) → (q - p < fuel)%nat →
  ∃ it, attrs_loop fuel m a (if decide (p < length l)%nat then Some p else None) hi = Some it ∧
    match it with
    | Some i => (p <= i < q)%nat ∧ ∃ x, l !! i = Some x ∧ attribute_eq a x.2 = true
    | None => ∀ i x, (p <= i < q)%nat → l !! i = Some x → attribute_eq a x.2 = false
    end.
Proof.
  intros Hr q. revert p. induction fuel as [|fuel IH]; intros p Hp Hq Hf; [lia|]. cbn [attrs_loop].
  destruct (decide (p = q)) as [->|Hne].
      - rewrite bool_decide_true.
    + exists None. split; [done|]. intros i x Hi. lia.
    + done.
  - rewrite decide_True by lia.
    assert (Some p ≠ hi) as Hneq by (intros <-; by cbn in q).
    rewrite bool_decide_false by done. destruct (lookup_lt_is_Some_2 l p) as [x Hx]; [lia|].
    unfold deref. cbn [mbind option_bind]. rewrite (rep_slot _ _ _ _ Hr Hx). cbn [mbind option_bind].
    destruct (attribute_eq a x.2) eqn:E.
    + exists (Some p). split; [done|]. split; [lia|]. by exists x.
    + rewrite (next_spec _ _ _ Hr). destruct (IH (S p)) as (it & -> & Hit); [lia|done|lia|]. exists it. split; [done|].
      destruct it as [i|]; [destruct Hit as [? ?]; split; [lia|done]|].
      intros i y Hi Hy. destruct (decide (i = p)) as [->|]; [by simplify_eq|]. apply (Hit i); [lia|done].
Qed.

Lemma attrs_find_run m l a :
  attrs_wf m l → ∃ it, attrs_find m a = Some it ∧
    match it with
    | Some i => ∃ x, l !! i = Some x ∧ attribute_eq a x.2 = true
    | None => ∀ x, x ∈ l → attribute_eq a x.2 = false
    end.
Proof.
  intros Hwf. destruct Hwf as [Hr Hs Hk] eqn:Ewf. clear Ewf. unfold attrs_find.
  destruct (equal_range_spec string_lt string_eq m l (an a) Hr (attrs_ksorted _ _ Hwf)) as (lo & hi & -> & H). cbn [mbind option_bind].
  assert (Hkey : ∀ i x, l !! i = Some x → x.1 ≠ an a → attribute_eq a x.2 = false).
  { intros i x Hx Hne. apply not_true_iff_false. rewrite attribute_eq_iff. intros [E _]. apply Hne.
    rewrite E. rewrite Forall_forall in Hk. apply Hk. by apply list_elem_of_lookup_2 in Hx. }
  rewrite (rep_size _ _ Hr). destruct lo as [p|]; cbv zeta in H.
  - destruct H as (Hp & Hin & Hq). destruct (attrs_loop_spec (S (length l)) m l a p hi Hr) as (it & E & Hit); [lia|done|lia|].
    rewrite decide_True in E by lia. exists it. split; [done|]. destruct it as [i|]; [by destruct Hit|].
    intros x [i Hx]%list_elem_of_lookup. destruct (decide (x.1 = an a)) as [Ex|Ex]; [|by apply (Hkey i)].
    apply (Hit i); [by apply (Hin i x)|done].
  - destruct H as [-> H]. exists None. cbn [attrs_loop]. rewrite bool_decide_true by done. split; [done|].
    intros x [i Hx]%list_elem_of_lookup. apply (Hkey i); [done|]. apply H. by apply list_elem_of_lookup_2 in Hx.
Qed.

(** Some attribute of the list is equal to [a]. *)
Definition matched (a : attr) (l : list attr) : bool := existsb (attribute_eq a) l.
Lemma matched_iff a l : matched a l = true ↔ ∃ b, b ∈ l ∧ attribute_eq a b = true.
Proof. unfold matched. rewrite existsb_exists. by setoid_rewrite <- list_elem_of_In. Qed.

Lemma get_attribute_run d l name value n :
  attrs_wf (k_attrs d) l → ∃ x, getAttribute d name value n = Some x ∧ bool_decide (x ≠ None) = matched (MkAttr name value n) l.*2.
Proof.
  intros H. unfold getAttribute. destruct (attrs_find_run _ _ (MkAttr name value n) H) as (it & -> & Hit). cbn [mbind option_bind].
  destruct it as [i|].
  - destruct Hit as (x & Hx & E). unfold deref. cbn [mbind option_bind]. rewrite (rep_slot _ _ _ _ (aw_rep _ _ H) Hx). cbn [mbind option_bind].
    eexists. split; [done|]. rewrite bool_decide_true by done. symmetry. apply matched_iff. exists x.2. split; [|done].
    apply list_elem_of_fmap_2. by apply list_elem_of_lookup_2 in Hx.
  - eexists. split; [done|]. rewrite bool_decide_false by tauto. symmetry. apply not_true_iff_false. rewrite matched_iff.
    intros (b & (x & -> & Hx)%list_elem_of_fmap & E). rewrite Hit in E; done.
Qed.
Lemma matched_weight name value n n' l : matched (MkAttr name value n) l = matched (MkAttr name value n') l.
Proof. done. Qed.
Lemma has_attribute_run d l a : attrs_wf (k_attrs d) l → hasAttribute d a = Some (matched a l.*2).
Proof.
  intros H. unfold hasAttribute. destruct (get_attribute_run d l (an a) (av a) (u32 (aw a)) H) as (x & -> & E). cbn [mbind option_bind].
  rewrite E. by destruct a.
Qed.

Lemma attrs_add_run m l a :
  attrs_wf m l → ∃ m' l', attrs_add m a = Some (true, m') ∧ attrs_wf m' l' ∧ l'.*2 ≡ₚ a :: l.*2.
Proof.
  intros [Hr Hs Hk]. unfold attrs_add.
  destruct (insert_sorted_spec string_lt string_eq attribute_lt m l (an a, a) Hr Hs) as (p & m' & l' & -> & Hr' & Hp & Hs').
  cbn [mbind option_bind]. rewrite bool_decide_true by done. exists m', l'. split; [done|]. split.
  - split; [done|done|]. rewrite Hp. by constructor.
  - rewrite Hp. done.
Qed.

Lemma attrs_wf_delete m l m' p : attrs_wf m l → bm_rep m' (delete p l) → attrs_wf m' (delete p l).
Proof.
  intros [_ Hs Hk] Hr. rewrite delete_take_drop in *. split; [done| |].
  - rewrite <- (take_drop p l) in Hs. apply StronglySorted_app in Hs as (Hc & Ht & Hd).
    assert (Hsub : drop (S p) l ⊆ drop p l).
    { intros x Hx. replace (S p) with (p + 1)%nat in Hx by lia. rewrite <- drop_drop in Hx. by apply (subseteq_drop 1) in Hx. }
    apply StronglySorted_app. split_and!; [|done|].
    + intros x y Hx Hy. apply Hc; [done|]. by apply Hsub.
    + replace (S p) with (p + 1)%nat by lia. rewrite <- drop_drop. destruct Hd; [constructor|]. by cbn; rewrite drop_0.
  - apply Forall_app. split; [by apply Forall_take|by apply Forall_drop].
Qed.

Lemma attrs_erase_run m l a :
  attrs_wf m l → ∃ n m' l', attrs_erase m a = Some (n, m') ∧ attrs_wf m' l' ∧
    if matched a l.*2 then n = 1%nat ∧ ∃ b, attribute_eq a b = true ∧ l.*2 ≡ₚ b :: l'.*2 else n = 0%nat ∧ m' = m ∧ l' = l.
Proof.
  intros H. unfold attrs_erase. destruct (attrs_find_run m l a H) as (it & -> & Hit). cbn [mbind option_bind]. destruct it as [i|].
  - destruct Hit as (x & Hx & E). destruct (erase_at_spec m l i x (aw_rep _ _ H) Hx) as (m' & -> & Hr & _). cbn [mbind option_bind].
    exists 1%nat, m', (delete i l). split; [done|]. split; [by apply (attrs_wf_delete m l)|].
    assert (matched a l.*2 = true) as ->.
    { apply matched_iff. exists x.2. split; [|done]. apply list_elem_of_fmap_2. by apply list_elem_of_lookup_2 in Hx. }
    split; [done|]. exists x.2. split; [done|]. rewrite <- fmap_cons. apply fmap_Permutation. by apply delete_Permutation.
  - eexists _, m, l. split; [done|]. split; [done|]. assert (matched a l.*2 = false) as ->; [|done].
    apply not_true_iff_false. rewrite matched_iff. intros (b & (x & -> & Hx)%list_elem_of_fmap & E). rewrite Hit in E; done.
Qed.

(** Erasing by name takes some of the entries away: not all when there are several, since the
    iterator steps on before the entries move down, but what it reads is never a deleted one. *)
Lemma erase_name_loop k fuel m l i n :
  attrs_wf m l → (i <= length l)%nat → is_Some (slot (the_map m) i) → (length l - i + 1 <= fuel)%nat → (2 <= fuel)%nat →
  ∃ n' m' l', CppMap.erase_loop string_eq fuel m k (Some i) n = Some (n', m') ∧ attrs_wf m' l' ∧ sublist l' l ∧
    (n <= n')%nat ∧ (n' = n → m' = m ∧ l' = l).
Proof.
  revert m l i n. induction fuel as [|fuel IH]; intros m l i n Hwf Hi [x Hx] Hf Hf2; [lia|]. cbn [CppMap.erase_loop]. rewrite Hx.
  cbn [mbind option_bind]. destruct (string_eq x.1 k); [|exists n, m, l; split_and!; done || lia]. cbv zeta.
  pose proof (aw_rep _ _ Hwf) as Hr. destruct (decide (i < length l)%nat) as [Hlt|Hge].
  - destruct (lookup_lt_is_Some_2 l i Hlt) as [y Hy]. destruct (erase_at_spec m l i y Hr Hy) as (m' & -> & Hr' & Hlast).
    cbn [mbind option_bind]. pose proof (attrs_wf_delete m l m' i Hwf Hr') as Hwf'. rewrite (next_spec _ _ _ Hr).
    destruct (decide (S i < length l)%nat) as [Hlt'|].
    + destruct (IH m' (delete i l) (S i) (S n) Hwf') as (n' & m2 & l' & -> & H1 & H2 & H3 & H4); [rewrite length_delete by done; lia| |rewrite length_delete by done; lia|lia|].
      * destruct (decide (S i < length l - 1)%nat) as [H'|H'].
        -- destruct (lookup_lt_is_Some_2 (delete i l) (S i)) as [z Hz]; [by rewrite length_delete|].
           by rewrite (rep_slot _ _ _ _ Hr' Hz).
        -- specialize (Hlast Hlt'). unfold slot. replace (S i) with (length l - 1)%nat by lia. rewrite Hlast.
           destruct (lookup_lt_is_Some_2 l (length l - 1)%nat) as [z Hz]; [lia|]. rewrite (rep_slots _ _ Hr _ _ Hz). by eexists.
      * exists n', m2, l'. split_and!; [done|done| |lia|lia]. transitivity (delete i l); [done|apply sublist_delete].
    + destruct fuel; [lia|]. exists (S n), m', (delete i l). split_and!; [done|done|apply sublist_delete|lia|lia].
  - unfold CppMap.erase_at. rewrite (rep_size _ _ Hr). destruct (Nat.leb_spec (length l) i); [|lia]. cbn [mbind option_bind next].
    rewrite (rep_size _ _ Hr). destruct (Nat.leb_spec (length l) (S i)); [|lia]. destruct fuel; [lia|].
    exists (S n), m, l. split_and!; done || lia.
Qed.
Lemma erase_name_run m l k :
  attrs_wf m l → ∃ n m' l', CppMap.erase string_lt string_eq m k = Some (n, m') ∧ attrs_wf m' l' ∧ sublist l' l ∧
    (n = 0%nat → m' = m ∧ l' = l).
Proof.
  intros H. unfold CppMap.erase.
  destruct (find_spec string_lt string_eq m l k (aw_rep _ _ H) (attrs_ksorted _ _ H)) as (it & -> & Hit). cbn [mbind option_bind].
  rewrite (rep_size _ _ (aw_rep _ _ H)). destruct it as [p|].
  - destruct Hit as [(x & Hx & _) _]. apply lookup_lt_Some in Hx as Hp.
    destruct (erase_name_loop k (S (length l)) m l p 0 H) as (n & m' & l' & E & H1 & H2 & _ & H4); try lia.
    + by rewrite (rep_slot _ _ _ _ (aw_rep _ _ H) Hx).
    + by exists n, m', l'.
  - by exists 0%nat, m, l.
Qed.

(** ** No two attributes are equal *)

Lemma matched_perm a l l' : l ≡ₚ l' → matched a l = matched a l'.
Proof. intros H. apply eq_true_iff_eq. rewrite !matched_iff. by setoid_rewrite H. Qed.

Definition distinct (l : list attr) : Prop := ∀ a l', l ≡ₚ a :: l' → matched a l' = false.

Lemma distinct_nil : distinct [].
Proof. intros a l' H%Permutation_nil_cons. done. Qed.
Lemma distinct_perm l l' : l ≡ₚ l' → distinct l → distinct l'.
Proof. intros H Hd a k Hk. apply Hd. by rewrite H. Qed.
Lemma distinct_app k l : distinct (k ++ l) → distinct l.
Proof.
  intros H a l' Hl. assert (Hk : k ++ l ≡ₚ a :: k ++ l') by (rewrite Hl; by rewrite Permutation_middle).
  apply not_true_iff_false. rewrite matched_iff. intros (b & Hb & E). specialize (H a _ Hk). apply not_true_iff_false in H.
  apply H, matched_iff. exists b. split; [|done]. apply elem_of_app. by right.
Qed.
Lemma distinct_cons a l : matched a l = false → distinct l → distinct (a :: l).
Proof.
  intros Ha Hl b l' Hb. destruct (decide (a = b)) as [->|Hne].
  - apply Permutation_cons_inv in Hb. by rewrite <- (matched_perm b l l').
  - assert (a ∈ l') as [l'' E]%elem_of_Permutation.
    { assert (Hin : a ∈ b :: l') by (rewrite <- Hb; by left). by apply elem_of_cons in Hin as [?|?]. }
    rewrite (matched_perm b l' (a :: l'')) by done. rewrite E in Hb.
    assert (l ≡ₚ b :: l'') as Hl'. { apply (Permutation_cons_inv (a := a)). rewrite Hb. apply Permutation_swap. }
    cbn. rewrite attribute_eq_sym. apply orb_false_iff. split; [|by apply Hl].
    apply not_true_iff_false. intros E'. apply not_true_iff_false in Ha. apply Ha, matched_iff. exists b. split; [|done].
    rewrite Hl'. by left.
Qed.
Lemma distinct_cons_inv a l : distinct (a :: l) → matched a l = false ∧ distinct l.
Proof. intros H. split; [by apply H|by apply (distinct_app [a])]. Qed.

(** ** The identifier is that of the current contents *)

Definition time_text (t : Timeval) : string := snprintf 20 (asstring (tv_sec t) (tv_usec t)).
Lemma getAsString_valid t : isValid t = true → getAsString t = Some (time_text t).
Proof.
  unfold isValid, getAsString. rewrite !andb_true_iff, Z.leb_le. intros [[? _] _]. by destruct (Z.ltb_spec (tv_sec t) 0); [lia|].
Qed.

Lemma time_text_read uninit_time t : isValid t = true → tv_sec t < 10 ^ 12 → Timeval_string uninit_time (time_text t) = Some t.
Proof.
  unfold isValid. rewrite !andb_true_iff, !Z.leb_le, Z.ltb_lt. intros [[Hs Hu] Hu'] Hl. unfold time_text.
  rewrite snprintf_id by (apply length_asstring; lia). unfold Timeval_string. rewrite sscanf_asstring by lia. cbn [default from_option id].
  destruct t as [s u]. apply adjust_normalised. unfold normalised, is_long. cbn in *. lia.
Qed.

Inductive kd_op := AddAttribute (a : attr) | RemoveAttribute (a : attr) | RemoveNamed (name value : string)
  | SetCreateTime (t : Timeval) | SetUpdateTime (t : Timeval).

Section Identifier.
Context {SHA_CTX : Type} (SHA_Init : SHA_CTX) (SHA_Update : SHA_CTX → list Z → SHA_CTX) (SHA_Final : SHA_CTX → list Z).
Abbreviation calc := (calcId SHA_Init SHA_Update SHA_Final).

(** What is hashed, for the attributes [l]. *)
Definition id_ctx (d : kdobj) (l : list attr) : SHA_CTX :=
  let ctxt := fold_left (hash_attribute SHA_Update) l SHA_Init in
  hash_data SHA_Update d (if isValid (k_createTime d) then SHA_Update ctxt (bytes_of_string (time_text (k_createTime d))) else ctxt).
Definition with_id (d : kdobj) (id : list Z) : kdobj := calcIdStr (set_id d id (k_idStr d)).

Lemma calc_run d l : attrs_wf (k_attrs d) l → calc d = Some (with_id d (SHA_Final (id_ctx d l.*2))).
Proof.
  intros H. unfold calcId. rewrite (entries_spec _ _ (aw_rep _ _ H)). cbn [mbind option_bind]. unfold id_ctx.
  destruct (isValid (k_createTime d)) eqn:E; [rewrite getAsString_valid by done|]; done.
Qed.
Lemma calc_with_id d l id : attrs_wf (k_attrs d) l → calc (with_id d id) = Some (with_id d (SHA_Final (id_ctx d l.*2))).
Proof. intros H. by rewrite (calc_run (with_id d id) l). Qed.

Record kd_ok (d : kdobj) (l : list (string * attr)) : Prop := KdOk
  { kd_attrs : attrs_wf (k_attrs d) l;
    kd_distinct : distinct l.*2;
    kd_meta : ∃ m ps kids, k_metadata d = Some m ∧ k_wf m ps kids ∧
                (isValid (k_createTime d) = true → ps !! "create_time" = Some (time_text (k_createTime d)));
    kd_id : calc d = Some d }.

Definition kd_run (d : kdobj) (o : kd_op) : option (nat * kdobj) :=
  match o with
  | AddAttribute a => '(b, d) ← addAttribute SHA_Init SHA_Update SHA_Final d a; Some (Nat.b2n b, d)
  | RemoveAttribute a => removeAttribute SHA_Init SHA_Update SHA_Final d a
  | RemoveNamed name value => removeAttribute_named SHA_Init SHA_Update SHA_Final d name value
  | SetCreateTime t => d ← setCreateTime SHA_Init SHA_Update SHA_Final d t; Some (O, d)
  | SetUpdateTime t => d ← setUpdateTime SHA_Init SHA_Update SHA_Final d t; Some (O, d)
  end.

(** A new set of attributes, times and metadata, signature dropped and identifier computed. *)
Lemma refresh_ok d l :
  attrs_wf (k_attrs d) l → distinct l.*2 →
  (∃ m ps kids, k_metadata d = Some m ∧ k_wf m ps kids ∧
     (isValid (k_createTime d) = true → ps !! "create_time" = Some (time_text (k_createTime d)))) →
  ∃ d', calc (removeSignature d) = Some d' ∧ kd_ok d' l ∧ isSigned d' = false ∧ k_createTime d' = k_createTime d ∧ k_updateTime d' = k_updateTime d.
Proof.
  intros Ha Hd Hm. set (d1 := removeSignature d).
  assert (H1 : attrs_wf (k_attrs d1) l) by (unfold d1, removeSignature; by destruct (isSigned d)).
  rewrite (calc_run d1 l H1). eexists. split; [done|].
  assert (Hs : isSigned d1 = false) by (unfold d1, removeSignature; destruct (isSigned d) eqn:E; [done|exact E]).
  split; [|split; [exact Hs|unfold d1, removeSignature; by destruct (isSigned d)]].
  split; [exact H1|done|unfold d1, removeSignature; by destruct (isSigned d)|by apply calc_with_id].
Qed.

Lemma create_time_kept m ps kids n v t :
  k_wf m ps kids → n ≠ "create_time" → (isValid t = true → ps !! "create_time" = Some (time_text t)) →
  isValid t = true → <[n := v]> ps !! "create_time" = Some (time_text t).
Proof. intros _ Hn H Ht. rewrite lookup_insert_ne by done. by apply H. Qed.

Lemma removed_ok d l r m' l' :
  kd_ok d l → attrs_wf m' l' → distinct l'.*2 → (r = 0%nat → m' = k_attrs d ∧ l' = l) →
  ∃ d', attributes_removed SHA_Init SHA_Update SHA_Final d (r, m') = Some (r, d') ∧ kd_ok d' l' ∧
        (r = 0%nat → d' = d) ∧ (isSigned d' = true → d' = d).
Proof.
  intros Hok Ha Hd Hz. unfold attributes_removed. cbn [fst snd]. destruct (Nat.ltb_spec 0 r) as [Hr|Hr].
  - destruct (refresh_ok (set_attrs d m') l' Ha Hd (kd_meta _ _ Hok)) as (d' & -> & Hok' & Hs & _). cbn [mbind option_bind].
    exists d'. split_and!; [done|done|lia|congruence].
  - assert (r = 0%nat) as -> by lia. destruct (Hz eq_refl) as [-> ->]. exists d. by destruct d.
Qed.

Lemma erase_removed d l a :
  kd_ok d l → ∃ r d' l', (r ← attrs_erase (k_attrs d) a; attributes_removed SHA_Init SHA_Update SHA_Final d r) = Some (r, d') ∧ kd_ok d' l' ∧
    (isSigned d' = true → d' = d) ∧
    if matched a l.*2 then r = 1%nat ∧ ∃ b, attribute_eq a b = true ∧ l.*2 ≡ₚ b :: l'.*2 else r = 0%nat ∧ d' = d.
Proof.
  intros Hok. destruct (attrs_erase_run (k_attrs d) l a (kd_attrs _ _ Hok)) as (n & m' & l' & -> & Hwf & Hr). cbn [mbind option_bind].
  assert (Hd : distinct l'.*2).
  { destruct (matched a l.*2).
    - destruct Hr as (_ & b & _ & Hp). apply (distinct_app [b]). apply (distinct_perm l.*2); [done|apply Hok].
    - destruct Hr as (_ & _ & ->). apply Hok. }
  destruct (removed_ok d l n m' l' Hok Hwf Hd) as (d' & -> & Hok' & Hz & Hs).
  { intros ->. destruct (matched a l.*2); [by destruct Hr|]. by destruct Hr as (_ & -> & ->). }
  exists n, d', l'. split_and!; [done|done|done|]. destruct (matched a l.*2); [done|]. destruct Hr as (-> & _). split; [done|by apply Hz].
Qed.

Lemma set_create_time_run d l t :
  attrs_wf (k_attrs d) l → distinct l.*2 → (∃ m ps kids, k_metadata d = Some m ∧ k_wf m ps kids) →
  ∃ d', setCreateTime SHA_Init SHA_Update SHA_Final d t = Some d' ∧ kd_ok d' l ∧ isSigned d' = false ∧ k_createTime d' = t.
Proof.
  intros Ha Hd (m & ps & kids & Em & Hwf). unfold setCreateTime. rewrite Em. unfold set_time_parameter.
  assert (∃ m' ps', (if isValid t then s ← getAsString t; setParameter m "create_time" s else Some m) = Some m' ∧ k_wf m' ps' kids ∧
            (isValid t = true → ps' !! "create_time" = Some (time_text t))) as (m' & ps' & -> & Hwf' & Hct').
  { destruct (isValid t) eqn:Et; [|by exists m, ps]. rewrite getAsString_valid by done. cbn [mbind option_bind].
    destruct (set_parameter_run m ps kids "create_time" (time_text t) Hwf) as (m' & -> & Hwf' & _). eexists m', _.
    split_and!; [done|exact Hwf'|]. intros _. by rewrite lookup_insert_eq. }
  cbn [mbind option_bind].
  destruct (refresh_ok (set_metadata (set_times d t (k_updateTime d)) (Some m')) l Ha Hd) as (d' & -> & Hok' & Hs & Hc & _); [by exists m', ps', kids|].
  by exists d'.
Qed.

(** An object made from a file is well-formed. *)
Lemma created_ok (fs : files) now path name d :
  create_from_file SHA_Init SHA_Update SHA_Final fs now path name = Some (Some d) → kd_ok d [].
Proof.
  unfold create_from_file. destruct (slen path =? 0)%nat; [done|]. destruct (if (slen name =? 0)%nat then _ else _) as [fn|]; [|done].
  cbn [mbind option_bind]. destruct (fs !! path) as [contents|]; [|done]. destruct (hash_file _ _ _ _) as [ctx|]; [|done].
  cbn [mbind option_bind]. set (d0 := set_hash _ _ _).
  destruct (set_create_time_run d0 [] now attrs_wf_new distinct_nil) as (d' & -> & Hok & _).
  { eexists _, _, _. split; [reflexivity|apply new_wf]. }
  cbn [mbind option_bind]. rewrite (kd_id _ _ Hok). by intros [= <-].
Qed.

(** C22: a data object made from a file is well-formed, and adding and removing attributes and setting
    the times always succeeds on a well-formed data object and leaves a well-formed one: the attributes sorted, no two of them equal, the creation
    time written in the metadata, and the identifier the digest of the attributes, time and data
    the object now has; a signature that is still there afterwards signs the identifier it signed
    before.  An attribute equal to one that is there, wildcards included, is not added. *)
Theorem kernel_object_invariant :
  (∀ (fs : files) now path name d, create_from_file SHA_Init SHA_Update SHA_Final fs now path name = Some (Some d) → kd_ok d []) ∧
  ∀ d l o, kd_ok d l →
  ∃ r d' l', kd_run d o = Some (r, d') ∧ kd_ok d' l' ∧ (isSigned d' = true → k_id d' = k_id d) ∧
    match o with
    | AddAttribute a => if matched a l.*2 then r = 0%nat ∧ d' = d else r = 1%nat ∧ l'.*2 ≡ₚ a :: l.*2
    | RemoveAttribute a =>
      if matched a l.*2 then r = 1%nat ∧ ∃ b, attribute_eq a b = true ∧ l.*2 ≡ₚ b :: l'.*2 else r = 0%nat ∧ d' = d
    | RemoveNamed name value =>
      if string_eq value "*" then sublist l' l
      else if matched (MkAttr name value 1) l.*2
      then r = 1%nat ∧ ∃ b, attribute_eq (MkAttr name value 1) b = true ∧ l.*2 ≡ₚ b :: l'.*2 else r = 0%nat ∧ d' = d
    | SetCreateTime t => k_createTime d' = t ∧ l' = l
    | SetUpdateTime t => k_updateTime d' = t ∧ k_createTime d' = k_createTime d ∧ l' = l
    end.
Proof.
  split; [apply created_ok|]. intros d l o Hok. pose proof Hok as [Ha Hd Hm Hi]. destruct o as [a|a|name value|t|t]; cbn [kd_run].
  - unfold addAttribute. rewrite (has_attribute_run d l a Ha). cbn [mbind option_bind]. destruct (matched a l.*2) eqn:E.
    + cbn [mbind option_bind]. by exists 0%nat, d, l.
    + destruct (attrs_add_run (k_attrs d) l a Ha) as (m' & l' & -> & Hwf & Hp). cbn [mbind option_bind].
      destruct (refresh_ok (set_attrs d m') l' Hwf) as (d' & -> & Hok' & Hs & _); [|exact Hm|].
      { apply (distinct_perm (a :: l.*2)); [done|]. by apply distinct_cons. }
      cbn [mbind option_bind]. exists 1%nat, d', l'. split_and!; [done|done|congruence|done..].
  - destruct (erase_removed d l a Hok) as (r & d' & l' & E & H1 & H2 & H3). exists r, d', l'. split_and!; [exact E|done| |exact H3].
    by intros ->%H2.
  - unfold removeAttribute_named. destruct (string_eq value "*").
    + destruct (erase_name_run (k_attrs d) l name Ha) as (n & m' & l' & -> & Hwf & Hsub & Hz). cbn [mbind option_bind].
      destruct (removed_ok d l n m' l' Hok Hwf) as (d' & -> & Hok' & _ & Hs); [|done|].
      * apply (sublist_submseteq), submseteq_Permutation in Hsub as [k Hk].
        apply (distinct_app k.*2), (distinct_perm l.*2); [|done]. rewrite Hk, fmap_app. apply Permutation_app_comm.
      * exists n, d', l'. split_and!; [done|done| |done]. by intros ->%Hs.
    + destruct (erase_removed d l (MkAttr name value 1) Hok) as (r & d' & l' & E & H1 & H2 & H3). exists r, d', l'. split_and!; [exact E|done| |exact H3].
      by intros ->%H2.
  - destruct (set_create_time_run d l t Ha Hd) as (d' & -> & Hok' & Hs & Hc).
    { destruct Hm as (m & ps & kids & ? & ? & _). by exists m, ps, kids. }
    cbn [mbind option_bind]. exists 0%nat, d', l. split_and!; [done|done|congruence|done|done].
  - destruct Hm as (m & ps & kids & Em & Hwf & Hct). unfold setUpdateTime. rewrite Em. unfold set_time_parameter.
    assert (∃ m' ps', (if isValid t then s ← getAsString t; setParameter m "update_time" s else Some m) = Some m' ∧ k_wf m' ps' kids ∧
              (isValid (k_createTime d) = true → ps' !! "create_time" = Some (time_text (k_createTime d)))) as (m' & ps' & -> & Hwf' & Hct').
    { destruct (isValid t) eqn:Et; [|by exists m, ps]. rewrite getAsString_valid by done. cbn [mbind option_bind].
      destruct (set_parameter_run m ps kids "update_time" (time_text t) Hwf) as (m' & -> & Hwf' & _). eexists m', _.
      split_and!; [done|exact Hwf'|]. by apply (create_time_kept m ps kids). }
    cbn [mbind option_bind].
    destruct (refresh_ok (set_metadata (set_times d (k_createTime d) t) (Some m')) l Ha Hd) as (d' & -> & Hok' & Hs & Hc & Hu); [by exists m', ps', kids|].
    cbn [mbind option_bind]. exists 0%nat, d', l. split_and!; [done|done|congruence|done|done|done].
Qed.
End Identifier.

(** ** The identifier of an application's data object *)

Lemma parse_attributes_run d l ks al :
  attrs_wf (k_attrs d) l → Forall2 (λ k a, parse_attribute k = Some a) ks al → distinct (rev al ++ l.*2) →
  ∃ p n c m' l', parse_attributes d ks = Some (set_attrs (set_flags d p n c) m') ∧ attrs_wf m' l' ∧ l'.*2 ≡ₚ al ++ l.*2.
Proof.
  intros Hwf H. revert d l Hwf. induction H as [|k a ks al Hk _ IH]; intros d l Hwf Hd; cbn [parse_attributes].
  - exists (k_persistent d), (k_isNodeDesc d), (k_controlMessage d), (k_attrs d), l. by destruct d.
  - rewrite Hk. cbn [mbind option_bind]. set (d1 := if string_eq _ _ then _ else d).
    assert (∃ n, d1 = set_flags d (k_persistent d) n (k_controlMessage d)) as [n1 E1].
    { unfold d1. destruct (string_eq _ _); [by exists true|]. exists (k_isNodeDesc d). by destruct d. }
    clearbody d1. subst d1. cbn [rev] in Hd. rewrite <- app_assoc in Hd. cbn [app] in Hd.
    rewrite (has_attribute_run (set_flags d (k_persistent d) n1 (k_controlMessage d)) l a Hwf). cbn [mbind option_bind].
    destruct (distinct_cons_inv a l.*2 (distinct_app (rev al) _ Hd)) as [-> _]. cbn [set_flags k_attrs].
    destruct (attrs_add_run (k_attrs d) l a Hwf) as (m1 & l1 & -> & Hwf1 & Hp1). cbn [mbind option_bind].
    destruct (IH (set_attrs (set_flags d (k_persistent d) n1 (k_controlMessage d)) m1) l1 Hwf1) as (p & n & c & m' & l' & E & Hwf' & Hp).
    { apply (distinct_perm (rev al ++ a :: l.*2)); [|done]. by rewrite Hp1. }
    exists p, n, c, m', l'. split; [exact E|]. split; [done|]. rewrite Hp, Hp1. cbn. by rewrite Permutation_middle.
Qed.

(** The elements written by the library are read with their weights: it writes all but weight 0. *)
Lemma parse_attribute_agrees k m a :
  agrees k m → k_content k = default "" (md_content m) → is_Some (md_get_parameter m "weight") → read_attribute m = Some a →
  parse_attribute k = Some a.
Proof.
  intros Ha Hc [w Hw] Hr. destruct (agrees_observed _ _ Ha) as [_ Ho]. unfold parse_attribute, read_attribute in *.
  rewrite (proj1 (Ho "name")), (proj1 (Ho "weight")). cbn [mbind option_bind]. rewrite Hw in *.
  destruct (md_get_parameter m "name") as [n|]; [|done]. unfold getContent. rewrite Hc.
  destruct (md_content m) as [v|]; [|done]. cbn [mbind option_bind default from_option id] in *. exact Hr.
Qed.

Lemma sorted_values m l al : attrs_wf m l → al_sorted al → l.*2 ≡ₚ al → l.*2 = al.
Proof. intros H Hs Hp. by apply (StronglySorted_unique attr_le); [apply (attrs_values_sorted m)|..]. Qed.

(** Children with a name: none, one. *)
Lemma agrees_child k m name :
  agrees k m → ∃ r, getMetadata k name 0 = Some r ∧
    match kids_named name m with
    | [] => r.1 = None
    | mc :: _ => ∃ kc, r.1 = Some kc ∧ agrees kc mc ∧ k_content kc = default "" (md_content mc)
    end.
Proof.
  intros [k0 m0 ps kids Hwf _ _ Hk]. destruct (get_metadata_run k0 ps kids name 0 Hwf) as (r & rest & -> & _).
  eexists. split; [done|]. specialize (Hk name). cbn [fst]. destruct Hk as [|kc mc kcs mcs [Ha Hc] _]; [done|]. by exists kc.
Qed.

Lemma time_read uninit t : 0 < t.1 < 2 ^ 63 → 0 <= t.2 < 10 ^ 6 → Timeval_string uninit (createtime_string t) = Some (TV t.1 t.2).
Proof.
  intros Hs Hu. change (createtime_string t) with (asstring t.1 t.2). unfold Timeval_string.
  rewrite sscanf_asstring by lia. cbn [default from_option id]. apply adjust_normalised. unfold normalised, is_long. cbn. lia.
Qed.

(** What the library must have put into the object, for the kernel to accept its document. *)
Record sendable (fs : files) (d : dataobject) : Prop := Sendable
  { sd_ok : dobj_ok d;
    sd_new : d_m d = md_new HAGGLE_TAG None;
    sd_distinct : distinct (d_al d);
    sd_abe : Forall (λ a, an a ≠ "_ABE_") (d_al d);
    sd_filename : d_filename d ≠ Some "";
    sd_file : ∀ p, d_filepath d = Some p → is_Some (d_filename d) ∧ ∃ c, fs !! p = Some c ∧ Z.of_nat (length c) = d_datalen d;
    sd_size : 8 * Z.of_nat (length (id_message d)) < 2 ^ 64 }.

Lemma written_kids d name :
  kids_named name (write_data d (md_new "Data" None)) =
  filter (λ k, md_name_is k name = true)
    ((match d_filename d with Some f => [md_new "FileName" (Some f)] | None => [] end) ++
     (match d_hash_str d with Some _ => [md_new "FileHash" (Some (string_of_bytes (base64_encode (d_hash d) 29)))] | None => [] end) ++
     (match d_thumbnail_str d with Some t => [md_new "Thumbnail" (Some t)] | None => [] end) ++
     (match d_filepath d with Some f => [md_new "FilePath" (Some f)] | None => [] end)).
Proof. unfold kids_named. by rewrite write_data_kids. Qed.

Lemma hash_text (h : list Z) : bytes h → length h = HASH_LENGTH → bytes_of_string (string_of_bytes (base64_encode h 29)) = b64_enc h.
Proof.
  intros Hb Hl. unfold base64_encode. rewrite base64_encode_loop_spec by (done || lia).
  assert (Hlen : length (b64_enc h) = 28%nat) by (apply Nat2Z.inj; rewrite length_b64_enc, Hl; reflexivity).
  rewrite take_ge by (rewrite length_app, Hlen; simpl; lia).
  apply (bytes_of_string_of_bytes _ []). by apply b64_enc_text.
Qed.

Section Reading.
Context (ctx_buf : list Z) (Hctx : length ctx_buf = 4%nat).

Lemma parse_filehash_run k dm ps kids d :
  dobj_ok d → length (k_dataHash k) = HASH_LENGTH → k_dataState k = DATA_STATE_UNKNOWN →
  k_wf dm ps kids →
  Forall2 (λ kc mc, agrees kc mc ∧ k_content kc = default "" (md_content mc)) (values "FileHash" kids)
          (kids_named "FileHash" (write_data d (md_new "Data" None))) →
  parse_filehash ctx_buf k dm = Some (match d_hash_str d with Some _ => set_hash k (d_hash d) DATA_STATE_NOT_VERIFIED | None => k end).
Proof using Hctx.
  intros Hok Hlk Hst Hwf Hv. destruct (ok_hash d Hok) as [Hb Hl]. unfold parse_filehash. rewrite Hst.
  destruct (get_metadata_run dm ps kids "FileHash" 0 Hwf) as (r & rest & -> & _). cbn [mbind option_bind].
  rewrite written_kids in Hv. destruct (d_hash_str d) as [s|].
  - assert (∃ kc, values "FileHash" kids !! 0%nat = Some kc ∧ k_content kc = string_of_bytes (base64_encode (d_hash d) 29)) as (kc & -> & Ec).
    { destruct (d_filename d), (d_thumbnail_str d), (d_filepath d); inversion Hv as [|kc ? kcs ? [_ Ec] _ Ev]; by exists kc. }
    unfold getContent. rewrite Ec, hash_text by done.
    destruct (base64_decode_enc ctx_buf (d_hash d) DATAOBJECT_ID_LEN Hctx Hb) as (res & -> & Ok & Eo); [by rewrite Hl|].
    cbn [mbind option_bind]. by rewrite Ok, Eo, Hl, drop_ge, app_nil_r by (by rewrite Hlk).
  - assert (values "FileHash" kids = []) as -> by (destruct (d_filename d), (d_thumbnail_str d), (d_filepath d); by inversion Hv). done.
Qed.

Lemma data_len_read n : 0 <= n < 2 ^ 31 → strtoul (snprintf 20 (dec n)) = n.
Proof.
  intros Hn. pose proof (length_dec n 19 ltac:(lia) ltac:(lia)) as H. change (10 ^ Z.of_nat 19) with 10000000000000000000 in *.
  rewrite snprintf_id by lia. apply strtoul_dec. lia.
Qed.

(** The kernel's object after the [Data] element of [d]. *)
Definition data_read (d : dataobject) (k : kdobj) : kdobj :=
  let k := set_file k (default (k_filename k) (d_filename d)) (default (k_filepath k) (d_filepath d)) (d_datalen d) (d_datalen d) in
  match d_hash_str d with Some _ => set_hash k (d_hash d) DATA_STATE_NOT_VERIFIED | None => k end.

Lemma values_filter_ne {V} (a b : string) (l : list (string * V)) : a ≠ b → values a (filter (λ x, x.1 ≠ b) l) = values a l.
Proof. intros H. unfold values. f_equal. rewrite list_filter_filter. apply list_filter_iff. intros x. split; [tauto|]. by intros <-. Qed.

(** Reading the [Data] element that the library wrote. *)
Lemma parse_data_run fs d k dm :
  sendable fs d → agrees dm (write_data d (md_new "Data" None)) →
  k_filename k = "" → length (k_dataHash k) = HASH_LENGTH → k_dataState k = DATA_STATE_UNKNOWN →
  ∃ dm', parse_data ctx_buf fs false k dm = Some (true, data_read d k, dm').
Proof using Hctx.
  intros Hs Ha Hfn Hlk Hst. pose proof (sd_ok _ _ Hs) as Hok. unfold parse_data.
  destruct (agrees_observed _ _ Ha) as [_ Ho]. rewrite (proj1 (Ho "data_len")), (proj2 (write_data_params d _)). cbn [mbind option_bind].
  rewrite data_len_read by apply Hok.
  destruct (agrees_child dm _ "FileName" Ha) as ([fm r1] & -> & Hfm). cbn [mbind option_bind fst] in *.
  destruct (agrees_child dm _ "FilePath" Ha) as ([pm r2] & -> & Hpm). cbn [mbind option_bind fst] in *.
  inversion Ha as [k0 m0 ps kids Hwf _ _ Hk]; subst k0 m0.
  set (k2 := match fm with Some m => _ | None => _ end).
  assert (E2 : k2 = set_file k (default "" (d_filename d)) (k_filepath k) (d_datalen d) (d_datalen d)).
  { unfold k2. rewrite written_kids in Hfm. destruct (d_filename d) as [f|], (d_hash_str d), (d_thumbnail_str d), (d_filepath d);
      try (destruct Hfm as (kc & -> & _ & Ec); unfold getContent; rewrite Ec; done); (assert (fm = None) as -> by exact Hfm); by rewrite Hfn. }
  rewrite E2. clear k2 E2.
  assert (∃ dm', match pm with Some m => parse_filepath fs false (set_file k (default "" (d_filename d)) (k_filepath k) (d_datalen d) (d_datalen d)) dm m
                         | None => Some (true, set_file k (default "" (d_filename d)) (k_filepath k) (d_datalen d) (d_datalen d), dm) end =
            Some (true, set_file k (default "" (d_filename d)) (default (k_filepath k) (d_filepath d)) (d_datalen d) (d_datalen d), dm') ∧
            ∃ ps' kids', k_wf dm' ps' kids' ∧ values "FileHash" kids' = values "FileHash" kids) as (dm' & -> & ps' & kids' & Hwf' & Hv').
  { rewrite written_kids in Hpm. destruct (d_filepath d) as [p|] eqn:Ep.
    - assert (∃ kc, pm = Some kc ∧ k_content kc = p) as (kc & -> & Ec)
        by (destruct (d_filename d), (d_hash_str d), (d_thumbnail_str d); destruct Hpm as (kc & -> & _ & Ec); by exists kc).
      destruct (sd_file _ _ Hs p Ep) as ([f Ef] & c & Ec' & Hlen). unfold parse_filepath, setFilePath, getContent.
      rewrite Ec, Ec', Hlen, Ef. cbn [set_file k_filename k_dataLen default from_option id].
      assert (Hne : (slen f =? 0)%nat = false).
      { apply Nat.eqb_neq. intros ->%slen_zero. by apply (sd_filename _ _ Hs). }
      destruct (kernel_remove_run dm ps kids "FilePath" Hwf) as (dm' & Er & Hwf' & _). exists dm'. split.
      + destruct (d_datalen d =? 0); [|rewrite Z.eqb_refl]; cbn [negb k_filename set_file]; rewrite Hne; cbn [mbind option_bind]; by rewrite Er.
      + eexists _, _. split; [exact Hwf'|]. by apply values_filter_ne.
    - assert (pm = None) as -> by (destruct (d_filename d), (d_hash_str d), (d_thumbnail_str d); exact Hpm).
      exists dm. split; [by destruct k|]. by exists ps, kids. }
  cbn [mbind option_bind negb]. rewrite (parse_filehash_run _ dm' ps' kids' d Hok); [|done..|by rewrite Hv'].
  cbn [mbind option_bind]. exists dm'. unfold data_read. by rewrite Hfn.
Qed.
End Reading.

Section SameId.
Context {SHA_CTX : Type} (SHA_Init : SHA_CTX) (SHA_Update : SHA_CTX → list Z → SHA_CTX) (SHA_Final : SHA_CTX → list Z).
Context (ctx_buf : list Z) (Hctx : length ctx_buf = 4%nat) (uninit_time : Timeval).

(** OpenSSL computes SHA-1, in whatever pieces the message comes. *)
Hypothesis sha_spec : ∀ chunks : list (list Z), bytes (concat chunks) → 8 * Z.of_nat (length (concat chunks)) < 2 ^ 64 →
  SHA_Final (fold_left SHA_Update chunks SHA_Init) = fips_sha1 (concat chunks).

Definition attr_chunks (a : attr) : list (list Z) := [bytes_of_string (an a); bytes_of_string (av a); be32 (u32 (aw a))].
Definition data_chunks (d : kdobj) : list (list Z) :=
  if dataIsVerifiable d then [if (slen (k_encryptedFilePath d) =? 0)%nat then k_dataHash d else k_encryptedFileHash d]
  else if nonempty (k_filename d) && (0 <? k_dataLen d) then [bytes_of_string (k_filename d); le64 (k_dataLen d)] else [].
Definition id_chunks (d : kdobj) (l : list attr) : list (list Z) :=
  concat (map attr_chunks l) ++ (if isValid (k_createTime d) then [bytes_of_string (time_text (k_createTime d))] else []) ++ data_chunks d.

Lemma id_ctx_chunks d l : id_ctx SHA_Init SHA_Update d l = fold_left SHA_Update (id_chunks d l) SHA_Init.
Proof.
  unfold id_ctx, id_chunks. rewrite !fold_left_app.
  assert (∀ c, fold_left (hash_attribute SHA_Update) l c = fold_left SHA_Update (concat (map attr_chunks l)) c) as ->.
  { induction l as [|a l IH]; intros c; [done|]. cbn [map concat fold_left]. rewrite fold_left_app, IH. done. }
  assert (∀ c, hash_data SHA_Update d c = fold_left SHA_Update (data_chunks d) c) as ->.
  { intros c. unfold hash_data, data_chunks. repeat case_match; done. }
  destruct (isValid (k_createTime d)); reflexivity.
Qed.

Lemma attr_chunks_message l : concat (concat (map attr_chunks l)) = concat (map attr_message l).
Proof.
  induction l as [|a l IH]; [done|]. cbn [map concat]. rewrite concat_app, IH. f_equal.
Qed.

(** The kernel's object for the library's [d], but for flags and the representation of the
    attributes. *)
Record received_as (d : dataobject) (k : kdobj) : Prop := ReceivedAs
  { ra_attrs : ∃ l, attrs_wf (k_attrs k) l ∧ l.*2 = d_al d;
    ra_time : k_createTime k = if (d_createtime d).1 =? 0 then invalid_time else TV (d_createtime d).1 (d_createtime d).2;
    ra_data : k_dataLen k = d_datalen d;
    ra_filename : has_data d = true → k_filename k = default "" (d_filename d);
    ra_filepath : k_filepath k = default "" (d_filepath d);
    ra_hash : if dataIsVerifiable k then is_Some (d_hash_str d) ∧ k_dataHash k = d_hash d else d_hash_str d = None;
    ra_plain : k_encryptedFilePath k = "" }.

Lemma received_message d k :
  dobj_ok d → d_filename d ≠ Some "" → received_as d k → concat (id_chunks k (d_al d)) = id_message d.
Proof.
  intros Hok Hne [Ha Ht Hl Hf Hp Hh Hpl]. unfold id_chunks, id_message. rewrite !concat_app, attr_chunks_message. f_equal. f_equal.
  - rewrite Ht. destruct (ok_time d Hok) as [->|[Hs Hu]]; [done|]. destruct (Z.eqb_spec (d_createtime d).1 0); [lia|].
    assert (isValid (TV (d_createtime d).1 (d_createtime d).2) = true) as ->.
    { unfold isValid. cbn. rewrite !andb_true_iff, !Z.leb_le, Z.ltb_lt. lia. }
    cbn [concat]. by rewrite app_nil_r.
  - unfold data_chunks, data_message. rewrite Hpl. destruct (dataIsVerifiable k).
    + destruct Hh as [[s ->] ->]. cbn [slen String.length Nat.eqb concat]. apply app_nil_r.
    + rewrite Hh, Hl. destruct (Z.gtb_spec (d_datalen d) 0) as [Hd|Hd].
      * rewrite Hf by (unfold has_data; destruct (Z.gtb_spec (d_datalen d) 0); [by rewrite orb_true_r|lia]).
        rewrite (proj2 (Z.ltb_lt 0 (d_datalen d))), andb_true_r by lia. destruct (d_filename d) as [f|]; [|done].
        cbn [default from_option id]. unfold nonempty. destruct (Nat.eqb_spec (slen f) 0) as [->%slen_zero|_]; [done|]. cbn [negb concat]. by rewrite app_nil_r.
      * assert (0 <? d_datalen d = false) as -> by (apply Z.ltb_ge; lia). rewrite andb_false_r. by destruct (d_filename d).
Qed.

Lemma kids_named_written d ams n : attr_elements (d_al d) ams → n ≠ "Data" →
  filter (λ k, md_name_is k n = true) ((if has_data d then [write_data d (md_new "Data" None)] else []) ++ ams) =
  if decide (n = "Attr") then ams else [].
Proof.
  intros Hf Hn. rewrite filter_app.
  assert (filter (λ k, md_name_is k n = true) (if has_data d then [write_data d (md_new "Data" None)] else []) = []) as ->.
  { destruct (has_data d); [|done]. rewrite filter_cons, decide_False; [done|]. rewrite md_name_is_iff, (proj1 (write_data_params d _)). cbn. congruence. }
  cbn [app]. induction Hf as [|a am l ams (Hname & _) _ IH]; [by case_decide|].
  rewrite filter_cons, IH. destruct (decide (n = "Attr")) as [->|Hne].
  - rewrite decide_True; [done|]. by apply md_name_is_iff.
  - rewrite decide_False; [done|]. rewrite md_name_is_iff. congruence.
Qed.

Lemma data_named_written d ams : attr_elements (d_al d) ams →
  filter (λ k, md_name_is k "Data" = true) ((if has_data d then [write_data d (md_new "Data" None)] else []) ++ ams) =
  if has_data d then [write_data d (md_new "Data" None)] else [].
Proof.
  intros Hf. rewrite filter_app.
  assert (filter (λ k, md_name_is k "Data" = true) ams = []) as ->.
  { induction Hf as [|a am l ams (Hname & _) _ IH]; [done|]. rewrite filter_cons, IH, decide_False; [done|]. rewrite md_name_is_iff. congruence. }
  rewrite app_nil_r. destruct (has_data d); [|done]. rewrite filter_cons, decide_True; [done|].
  by rewrite md_name_is_iff, (proj1 (write_data_params d _)).
Qed.

Lemma parse_head_run d m k :
  dobj_ok d → agrees k m → (∀ n, n ≠ "Data" → n ≠ "Attr" → kids_named n m = []) →
  md_get_parameter m "persistent" = Some (if persistent d then "yes" else "no") →
  md_get_parameter m "create_time" = (if (d_createtime d).1 =? 0 then None else Some (createtime_string (d_createtime d))) →
  md_get_parameter m "update_time" = None →
  ∃ p, parse_head uninit_time (set_metadata kdobj_new (Some k)) k =
       Some (set_times (set_flags (set_metadata kdobj_new (Some k)) p false false)
               (if (d_createtime d).1 =? 0 then invalid_time else TV (d_createtime d).1 (d_createtime d).2) invalid_time).
Proof.
  intros Hok Ha Hkids Hp Hc Hu. destruct (agrees_observed _ _ Ha) as [_ Ho]. unfold parse_head.
  rewrite (proj1 (Ho "persistent")), Hp, (proj1 (Ho "create_time")), Hc, (proj1 (Ho "update_time")), Hu. cbn [mbind option_bind].
  set (d1 := read_persistence _ _).
  assert (∃ p, d1 = set_flags (set_metadata kdobj_new (Some k)) p false false) as [p ->] by (unfold d1; destruct (persistent d); by eexists).
  exists p. set (ct := if _ =? 0 then invalid_time else _).
  assert (read_times uninit_time (set_flags (set_metadata kdobj_new (Some k)) p false false)
            (if (d_createtime d).1 =? 0 then None else Some (createtime_string (d_createtime d))) None =
          Some (set_times (set_flags (set_metadata kdobj_new (Some k)) p false false) ct invalid_time)) as ->.
  { unfold read_times, ct. destruct (ok_time d Hok) as [->|[Hs1 Hu']]; [done|]. destruct (Z.eqb_spec (d_createtime d).1 0); [lia|].
    by rewrite time_read. }
  cbn [mbind option_bind]. unfold read_marks.
  destruct (agrees_child k m NODE_METADATA Ha) as ([n1 r1] & -> & H1). rewrite Hkids in H1 by done. cbn [fst] in H1. subst n1.
  cbn [mbind option_bind].
  destruct (agrees_child k m "Application" Ha) as ([n2 r2] & -> & H2). rewrite Hkids in H2 by done. cbn [fst] in H2. by subst n2.
Qed.

Lemma data_element_run fs d m k kd :
  sendable fs d → agrees k m → kids_named "Signature" m = [] →
  kids_named "Data" m = (if has_data d then [write_data d (md_new "Data" None)] else []) →
  k_filename kd = "" → length (k_dataHash kd) = HASH_LENGTH → k_dataState kd = DATA_STATE_UNKNOWN →
  ∃ m2 r o, parse_data_element ctx_buf fs false kd k =
      Some (true, if has_data d then set_metadata (data_read d kd) o else kd, m2) ∧
    getMetadata m2 "Signature" 0 = Some (None, r).
Proof using Hctx.
  intros Hs Ha Hsig Hdata Hfn Hlk Hst. unfold parse_data_element.
  destruct (agrees_child k m DATAOBJECT_METADATA_DATA Ha) as ([dm r] & -> & Hdm). change DATAOBJECT_METADATA_DATA with "Data" in *. rewrite Hdata in Hdm. cbn [fst] in Hdm.
  destruct (agrees_child k m "Signature" Ha) as ([sm r'] & Es & Hsm). rewrite Hsig in Hsm. cbn [fst] in Hsm. subst sm.
  cbn [mbind option_bind]. destruct (has_data d); [|subst dm; by exists k, r', None].
  destruct Hdm as (kc & -> & Hag & _). destruct (parse_data_run ctx_buf Hctx fs d kd kc Hs Hag Hfn Hlk Hst) as (dm' & ->).
  cbn [mbind option_bind]. inversion Ha as [k0 m0 ps kids Hwf _ _ Hk]; subst k0 m0.
  pose proof (Hk "Data") as Hd. rewrite Hdata in Hd. inversion Hd as [|v ? vs ? _ _ Ev]; subst.
  destruct (update_first_run k ps kids "Data" v vs (λ _, Some dm') dm' Hwf (eq_sym Ev) eq_refl) as (m2 & -> & Hwf2 & _).
  cbn [mbind option_bind]. destruct (get_metadata_run m2 ps _ "Signature" 0 Hwf2) as (r2 & rest & E2 & _).
  exists m2, r2, (Some m2). split; [done|]. rewrite E2, (values_set_first _ _ _ _ _ (eq_sym Ev)), decide_False by done.
  specialize (Hk "Signature"). rewrite Hsig in Hk. by inversion Hk.
Qed.

Lemma received_intro d kd l o id :
  dobj_ok d → attrs_wf (k_attrs kd) l → l.*2 = d_al d →
  k_createTime kd = (if (d_createtime d).1 =? 0 then invalid_time else TV (d_createtime d).1 (d_createtime d).2) →
  k_dataLen kd = 0 → k_filename kd = "" → k_filepath kd = "" → k_dataState kd = DATA_STATE_UNKNOWN → k_encryptedFilePath kd = "" →
  received_as d (with_id (if has_data d then set_metadata (data_read d kd) o else kd) id).
Proof.
  intros Hok Hwf Hl Ht Hd Hf Hp Hst He. pose proof (ok_len d Hok). destruct (has_data d) eqn:E.
  - unfold data_read. destruct (d_hash_str d) as [h|] eqn:Eh; split; unfold dataIsVerifiable; cbn; try done;
      rewrite ?Hf, ?Hp, ?Hst, ?Eh; try done; try (by exists l).
  - unfold has_data in E. apply orb_false_iff in E as [E Ez]. apply bool_decide_eq_false in E.
    assert (d_filepath d = None) as Efp by (destruct (d_filepath d); [exfalso; eauto|done]).
    assert (d_hash_str d = None) as Eh.
    { destruct (d_hash_str d) eqn:Eh; [|done]. destruct (ok_hash_str d Hok _ Eh) as [_ E']. unfold has_data in E'.
      by rewrite Ez, bool_decide_false in E' by done. }
    split; cbn; try done; [by exists l|destruct (Z.gtb_spec (d_datalen d) 0); [done|lia]| |by rewrite Efp|by unfold dataIsVerifiable; cbn; rewrite Hst].
    intros E'. unfold has_data in E'. by rewrite Ez, bool_decide_false in E' by done.
Qed.

Lemma parse_written al ams kcs :
  attr_elements al ams → Forall2 (λ kc mc, agrees kc mc ∧ getContent kc = default "" (md_content mc)) kcs ams →
  Forall2 (λ k a, parse_attribute k = Some a) kcs al.
Proof.
  intros Hf. revert kcs. induction Hf as [|a am al ams (_ & Hw & Hr) _ IH]; intros kcs Hkcs;
    inversion Hkcs as [|kc ? kcs' ? [Hag Hct] Hrest]; subst; constructor; [by apply (parse_attribute_agrees kc am)|by apply IH].
Qed.

(** The kernel reads the document of [d]. *)
Lemma parse_run fs d m k :
  sendable fs d → haggle_dataobject_to_metadata (Some d) = Some (Some m, Some (with_m d m)) → agrees k m →
  ∃ kd, parseMetadata SHA_Init SHA_Update SHA_Final ctx_buf uninit_time fs false (set_metadata kdobj_new (Some k)) = Some (0, kd) ∧
    received_as d kd ∧ k_id kd = SHA_Final (id_ctx SHA_Init SHA_Update kd (d_al d)) ∧ k_idStr kd = id_string (k_id kd).
Proof using Hctx.
  intros Hs Em Ha. pose proof (sd_ok _ _ Hs) as Hok.
  destruct (to_metadata_new ctx_buf Hctx d Hok (sd_new _ _ Hs)) as (ams & m' & Hf & E & Hn & Hp & Hc & Hk & Hno).
  rewrite E in Em. injection Em as ->. destruct (agrees_observed _ _ Ha) as [_ Ho].
  assert (Hkids : ∀ n, n ≠ "Data" → kids_named n m = if decide (n = "Attr") then ams else [])
    by (intros n Hne; unfold kids_named; rewrite Hk; by apply kids_named_written).
  unfold parseMetadata. cbn [set_metadata k_metadata].
  destruct (parse_head_run d m k Hok Ha) as (p & ->); [|done|done|by apply Hno|].
  { intros n Hne Hne'. by rewrite Hkids, decide_False. }
  cbn [mbind option_bind]. set (d2 := set_times _ _ _).
  destruct (proj2 (Ho DATAOBJECT_ATTRIBUTE_NAME)) as (kcs & -> & Hkcs). rewrite Hkids, decide_True in Hkcs by done. cbn [mbind option_bind].
  destruct (parse_attributes_run d2 [] kcs (d_al d) attrs_wf_new) as (p3 & n3 & c3 & am & l & -> & Hwf & Hperm).
  { by apply (parse_written (d_al d) ams). }
  { rewrite app_nil_r. apply (distinct_perm (d_al d)); [|apply Hs]. apply Permutation_rev. }
  cbn [mbind option_bind]. cbn [fmap list_fmap] in Hperm. rewrite app_nil_r in Hperm.
  assert (Hl : l.*2 = d_al d) by (apply (sorted_values am); [done|apply Hok|done]).
  set (d3 := set_attrs _ am).
  destruct (data_element_run fs d m k d3 Hs Ha) as (m2 & r & o & -> & Esig); [by rewrite Hkids| |done..|].
  { unfold kids_named. rewrite Hk. by apply data_named_written. }
  cbn [mbind option_bind negb].
  set (d4 := if has_data d then _ else d3).
  assert (Hsig4 : parse_signature ctx_buf d4 m2 = Some (true, d4)).
  { unfold parse_signature. assert (k_signatureStatus d4 = SIGNATURE_MISSING) as -> by (unfold d4, data_read; by destruct (has_data d), (d_hash_str d)).
    by rewrite Esig. }
  rewrite Hsig4. cbn [mbind option_bind negb].
  assert (Hwf4 : attrs_wf (k_attrs d4) l) by (unfold d4, data_read; by destruct (has_data d), (d_hash_str d)).
  rewrite (calc_run _ _ _ d4 l Hwf4). cbn [mbind option_bind]. eexists. split; [done|]. rewrite Hl. split; [|done].
  by apply (received_intro d d3 l).
Qed.

Lemma no_abe kd d a : received_as d kd → Forall (λ a, an a ≠ "_ABE_") (d_al d) →
  create_encrypted SHA_Init SHA_Update SHA_Final a kd = Some kd.
Proof.
  intros [(l & Hwf & Hl) _ _ _ _ _ _] Habe. unfold create_encrypted, hasABEAttribute.
  destruct (get_attribute_run kd l "_ABE_" "*" 0 Hwf) as (x & -> & E). cbn [mbind option_bind].
  assert (matched (MkAttr "_ABE_" "*" 0) l.*2 = false) as Em.
  { apply not_true_iff_false. rewrite matched_iff, Hl. intros (b & Hb & [En _]%attribute_eq_iff). rewrite Forall_forall in Habe.
    by apply (Habe b). }
  rewrite Em in E. apply bool_decide_eq_false, dec_stable in E. by subst x.
Qed.

Context (xmlIsBlankNode : string → bool) (xmlNodeGetContent : xmlNode → string) (xmlParseMemory : list Z → option xmlNode).
Hypothesis content_text : ∀ n ps t, xmlNodeGetContent (XElement n ps [XText t]) = t.

(** C3: both programs compute the same identifier: when the library reads [raw] as the document it
    made of a data object, and every element of it holds either one text or none, the kernel
    accepts [raw] and its object has the library's attributes in the library's order, time, file
    name and path, length and hash - and, by its own code over OpenSSL, the identifier that
    [haggle_dataobject_calculate_id] gives the object in the application. *)
Theorem kernel_id_of_library fs now d m raw uninit_sha id :
  sendable fs d → length (Message_Block uninit_sha) = 64%nat →
  haggle_dataobject_to_metadata (Some d) = Some (Some m, Some (with_m d m)) →
  metadata_xml_new_from_xml xmlIsBlankNode xmlParseMemory raw = Some (Some m) →
  (∀ x, xmlParseMemory raw = Some x → plain xmlIsBlankNode x) →
  ∃ kd, create SHA_Init SHA_Update SHA_Final ctx_buf uninit_time xmlIsBlankNode xmlNodeGetContent xmlParseMemory fs now (default_args raw) =
          Some (Some kd) ∧
        received_as d kd ∧ k_id kd = (haggle_dataobject_calculate_id uninit_sha d id).2 ∧ k_idStr kd = id_string (k_id kd).
Proof using Hctx content_text sha_spec.
  intros Hs Hu Em Eraw Hplain. pose proof (sd_ok _ _ Hs) as Hok.
  pose proof (init_same xmlIsBlankNode xmlNodeGetContent content_text xmlParseMemory raw Hplain) as Hi. rewrite Eraw in Hi.
  unfold create. change (create_fields fs (default_args raw)) with (Some kdobj_new). cbn [ca_raw default_args].
  destruct (initFromRaw _ _ _ raw) as [[k|]|]; [|done..]. cbn [mbind option_bind].
  destruct (to_metadata_new ctx_buf Hctx d Hok (sd_new _ _ Hs)) as (ams & m' & _ & E & Hn & _).
  rewrite E in Em. injection Em as ->. destruct (agrees_observed _ _ Hi) as [Hkn _].
  assert (string_ne (k_name k) "Haggle" = false) as ->.
  { apply not_true_iff_false. rewrite string_ne_iff. rewrite Hn in Hkn. injection Hkn as <-. tauto. }
  destruct (parse_run fs d m k Hs E Hi) as (kd & -> & Hra & Hid & Hstr). cbn [mbind option_bind Z.ltb Z.compare].
  rewrite (no_abe kd d _ Hra (sd_abe _ _ Hs)). cbn [mbind option_bind]. exists kd. split; [done|]. split; [done|].
  rewrite (calculate_id_run uninit_sha d id Hu (proj1 (ok_hash d Hok)) (sd_size _ _ Hs)). cbn [snd].
  pose proof (received_message d kd Hok (sd_filename _ _ Hs) Hra) as Hmsg.
  split; [|exact Hstr]. rewrite Hid, id_ctx_chunks, sha_spec; rewrite Hmsg; [done|apply id_message_bytes, Hok|apply Hs].
Qed.
End SameId.

(** ** Witnesses *)

Definition ex_files : files := {["/d/a.jpg" := [97; 98; 99]]}.
Definition ex_ctx : list Z := [].
Definition ex_update (c l : list Z) : list Z := c ++ l.

Lemma ex_update_concat chunks c : fold_left ex_update chunks c = c ++ concat chunks.
Proof.
  revert c. induction chunks as [|l chunks IH]; intros c; cbn [fold_left concat]; [by rewrite app_nil_r|].
  rewrite IH. unfold ex_update. by rewrite app_assoc.
Qed.

Lemma kernel_object_invariant_witness :
  ∃ d r d' l', create_from_file ex_ctx ex_update fips_sha1 ex_files (TV 1300000000 42) "/d/a.jpg" "" = Some (Some d) ∧
    kd_run ex_ctx ex_update fips_sha1 d (AddAttribute (MkAttr "Picture" "dog" 1)) = Some (r, d') ∧
    kd_ok ex_ctx ex_update fips_sha1 d' l' ∧ r = 1%nat.
Proof.
  destruct (kernel_object_invariant ex_ctx ex_update fips_sha1) as [H1 H2].
  destruct (create_from_file ex_ctx ex_update fips_sha1 ex_files (TV 1300000000 42) "/d/a.jpg" "") as [[d|]|] eqn:E;
    [|vm_compute in E; discriminate E..].
  specialize (H1 _ _ _ _ _ E). destruct (H2 d [] (AddAttribute (MkAttr "Picture" "dog" 1)) H1) as (r & d' & l' & E' & Hok & _ & Hr).
  cbn [matched fmap list_fmap existsb] in Hr. destruct Hr as [Hr _]. exists d, r, d', l'. split; [reflexivity|].
  split; [exact E'|]. split; [exact Hok|exact Hr].
Defined.

(** The document of [ex_dobj] as a parser sees it. *)
Fixpoint ex_tree (m : meta) : xmlNode :=
  let 'Md n c ps ks := m in
  XElement (default "" n) (map (λ a, (an a, Some (av a))) ps) (match c with Some t => [XText t] | None => [] end ++ map ex_tree ks).
Definition ex_dobj_xml (raw : list Z) : option xmlNode :=
  if decide (raw = [60; 62]) then ex_tree <$> ex_dobj_document else None.

Lemma ex_dobj_sendable : sendable ex_files ex_dobj.
Proof.
  split.
  - apply ex_dobj_ok.
  - reflexivity.
  - apply distinct_cons; [reflexivity|]. apply distinct_cons; [reflexivity|]. apply distinct_nil.
  - repeat constructor; discriminate.
  - discriminate.
  - intros p [= <-]. split; [by eexists|]. exists [97; 98; 99]. split; reflexivity.
  - vm_compute. reflexivity.
Qed.

Lemma kernel_id_of_library_witness :
  ∃ kd, create ex_ctx ex_update fips_sha1 [0; 0; 0; 0] (TV 7 7) ex_blank ex_content ex_dobj_xml ex_files (TV 0 0) (default_args [60; 62]) =
          Some (Some kd) ∧
        k_id kd = (haggle_dataobject_calculate_id ex_sha ex_dobj []).2.
Proof.
  assert (E : ∃ m, haggle_dataobject_to_metadata (Some ex_dobj) = Some (Some m, Some (with_m ex_dobj m)) ∧
                   metadata_xml_new_from_xml ex_blank ex_dobj_xml [60; 62] = Some (Some m))
    by (eexists; split; vm_compute; reflexivity).
  destruct E as (m & E1 & E2).
  destruct (kernel_id_of_library ex_ctx ex_update fips_sha1 [0; 0; 0; 0] eq_refl (TV 7 7)
              ltac:(intros chunks _ _; by rewrite ex_update_concat) ex_blank ex_content ex_dobj_xml (λ n ps t, eq_refl)
              ex_files (TV 0 0) ex_dobj m [60; 62] ex_sha [] ex_dobj_sendable eq_refl E1 E2) as (kd & E & _ & Hid & _).
  - intros x Hx. vm_compute in Hx. injection Hx as <-.
    repeat first [apply plain_text; reflexivity | apply plain_element | constructor].
  - exists kd. split; [exact E|exact Hid].
Defined.

(** ** Where the two programs differ, and where removal stops early *)

(** An element without a weight is an attribute of weight 1 for the library, of weight 0 for the
    kernel; both leave out a weight of 0 when they write. *)
Lemma missing_weight :
  read_attribute (md_set_parameter "name" "Picture" (md_new "Attr" (Some "dog"))) = Some (MkAttr "Picture" "dog" 1) ∧
  (k ← setParameter (kmeta_new "Attr" "dog") "name" "Picture"; parse_attribute k) = Some (MkAttr "Picture" "dog" 0) ∧
  write_attribute (MkAttr "Picture" "dog" 0) = Some (md_set_parameter "name" "Picture" (md_new "Attr" (Some "dog"))).
Proof. split_and!; vm_compute; reflexivity. Qed.

Definition ex_two : option kdobj :=
  '(_, d) ← addAttribute ex_ctx ex_update fips_sha1 kdobj_new (MkAttr "A" "x" 1);
  '(_, d) ← addAttribute ex_ctx ex_update fips_sha1 d (MkAttr "A" "y" 1); Some d.
Definition ex_made : option kdobj :=
  d ← create_from_file ex_ctx ex_update fips_sha1 ex_files (TV 1300000000 42) "/d/a.jpg" ""; d ← (d : option kdobj);
  '(_, d) ← addAttribute ex_ctx ex_update fips_sha1 d (MkAttr "A" "x" 1); Some d.

(** Removing all attributes of a name leaves one of two, and says that it removed two. *)
Lemma remove_named_leaves_one :
  ∃ d d' l, ex_two = Some d ∧ removeAttribute_named ex_ctx ex_update fips_sha1 d "A" "*" = Some (2%nat, d') ∧
            entries (k_attrs d') = Some l ∧ map snd l = [MkAttr "A" "y" 1].
Proof. eexists _, _, _. split; [vm_compute; reflexivity|]. split; [vm_compute; reflexivity|]. split; vm_compute; reflexivity. Qed.

(** The document that an object writes reads back as an object with the same identifier. *)
Lemma to_metadata_example :
  ∃ d m d1 d', ex_made = Some d ∧ toMetadata d = Some (Some m, d1) ∧
    parseMetadata ex_ctx ex_update fips_sha1 [0; 0; 0; 0] (TV 7 7) ∅ true (set_metadata kdobj_new (Some m)) = Some (0, d') ∧ k_id d' = k_id d.
Proof. eexists _, _, _, _. split; [vm_compute; reflexivity|]. split; [vm_compute; reflexivity|]. split; vm_compute; reflexivity. Qed.
