(* ===== verification/KernelPut.v ===== *)
(** * KernelPut: receiving a data object ([DataObject::putData], [DataObject.cpp]).

    A data object that is being received is the object with its [putData_data]: the header read so
    far, the file that is being written and the bytes still to come.  Writing appends to the file
    of the path; opening fails where [can_open] says so, writing does not.  The theorem says that
    the pieces in which the bytes arrive do not matter - as long as none holds the end of the
    header and data: then the answer is too small, [put_straddling]. *)

From S2P Require Import Prelude Text Timeval Base64 Sha1 Attribute Metadata MetaTree MetadataXml DataObject.
From S2P Require Import CppString CppMap CppHashMap KernelMetadata KernelDataObject.

Definition DATAOBJECT_METADATA_PENDING : Z := 2147483647.
Definition DATAOBJECT_MAX_METADATA_SIZE : Z := 65536.
Definition PATH_LENGTH : nat := 1024.

Record pDd := PDd { pd_header : list Z; pd_fp : option string; pd_bytes_left : Z }.
Definition create_pDd : pDd := PDd [] None 0.
Record putting := Put { p_obj : kdobj; p_data : option pDd }.

(** [create_for_putting]. *)
Definition create_for_putting : putting := Put kdobj_new (Some create_pDd).

(** ** The tags *)

Definition to_lower (b : Z) : Z := if (65 <=? b) && (b <=? 90) then b + 32 else b.
Definition like (l : list Z) (tag : string) : bool := bool_decide (map to_lower l = bytes_of_string tag).
(** The test on the first seven bytes. *)
Definition header_starts (header : list Z) : bool := like (take 5 header) "<?xml" || like (take 7 header) "<haggle".
(** The test on the last nine. *)
Definition header_ends (header : list Z) : bool :=
  (9 <=? length header)%nat && like (drop (length header - 9) header) "</haggle>".

(** [createFilePath]: the object's new file path. *)
Definition createFilePath (storagepath : string) (now : Timeval) (d : kdobj) : option kdobj :=
  abe ← getAttribute d "_ABE_" "*" 0; t ← getAsString now;
  let suffix := if (slen (k_encryptedFilePath d) =? 0)%nat && bool_decide (abe ≠ None) then ".enc" else "" in
  let path := snprintf PATH_LENGTH (storagepath +:+ "/" +:+ t +:+ "-" +:+ k_filename d +:+ suffix) in
  Some (set_file d (k_filename d) path (k_dataLen d) (k_origDataLen d)).

Section Put.
Context {SHA_CTX : Type} (SHA_Init : SHA_CTX) (SHA_Update : SHA_CTX → list Z → SHA_CTX) (SHA_Final : SHA_CTX → list Z).
Context (ctx_buf : list Z) (uninit_time : Timeval).
Context (xmlIsBlankNode : string → bool) (xmlNodeGetContent : xmlNode → string) (xmlParseMemory : list Z → option xmlNode).
Context (storagepath : string) (can_open : string → bool).

(** What the loop over the header's bytes leaves: an error, or the object, the header, the bytes
    not looked at and the number of those that were. *)
Inductive header_result := HeaderError (d : kdobj) | HeaderRead (d : kdobj) (header data : list Z) (putLen : Z).

Definition parse_header (fs : files) (d : kdobj) (header : list Z) : option (bool * kdobj) :=
  m ← initFromRaw xmlIsBlankNode xmlNodeGetContent xmlParseMemory header;
  match m with
  | None => Some (false, d)
  | Some m =>
    if string_ne (k_name m) "Haggle" then Some (false, d)
    else
      '(ret, d) ← parseMetadata SHA_Init SHA_Update SHA_Final ctx_buf uninit_time fs true (set_metadata d (Some m));
      if ret <? 0 then Some (false, set_metadata d None) else Some (true, d)
  end.

Fixpoint put_header (fs : files) (d : kdobj) (header data : list Z) (putLen : Z) : option header_result :=
  match data with
  | [] => Some (HeaderRead d header [] putLen)
  | b :: data =>
    let header := header ++ [b] in
    if (length header =? 7)%nat && negb (header_starts header) then Some (HeaderError d)
    else if header_ends header then
      '(ok, d) ← parse_header fs d header;
      Some (if ok : bool then HeaderRead d [] data (putLen + 1) else HeaderError d)
    else put_header fs d header data (putLen + 1)
  end.

(** The answer and [*remaining] ([None] when it is not written). *)
Definition put_result : Type := (Z * option Z) * putting * files.

(** The file is opened when the metadata is there: [inl] an answer. *)
Definition open_file (fs : files) (now : Timeval) (putHeaderOnly : bool) (d : kdobj) (info : pDd) (putLen : Z) (remaining : Z)
  : option (put_result + (kdobj * pDd * Z * files)) :=
  match pd_fp info, k_metadata d with
  | None, Some _ =>
    let bytes_left := match k_ABEStatus d with ABE_ENCRYPTION_DONE => k_encryptedFileLength d | _ => k_dataLen d end in
    let info := PDd (pd_header info) None bytes_left in
    if bytes_left =? 0 then Some (inl ((putLen, Some 0), Put d None, fs))
    else if putHeaderOnly then Some (inl ((putLen, Some bytes_left), Put d (Some info), fs))
    else
      d ← createFilePath storagepath now d;
      if can_open (k_filepath d)
      then Some (inr (d, PDd (pd_header info) (Some (k_filepath d)) bytes_left, bytes_left, <[k_filepath d := []]> fs))
      else Some (inl ((-1, Some bytes_left), Put d None, fs))
  | _, _ => Some (inr (d, info, remaining, fs))
  end.

Definition append_file (fs : files) (fp : option string) (data : list Z) : option files :=
  path ← fp; Some (<[path := default [] (fs !! path) ++ data]> fs).

(** Writing [data] after the header. *)
Definition put_data (fs : files) (d : kdobj) (info : pDd) (data : list Z) (putLen remaining : Z) : option put_result :=
  let len := Z.of_nat (length data) in
  if len =? 0 then Some ((putLen, Some remaining), Put d (Some info), fs)
  else if len <? pd_bytes_left info then
    fs ← append_file fs (pd_fp info) data;
    let left := pd_bytes_left info - len in
    Some ((len, Some left), Put d (Some (PDd (pd_header info) (pd_fp info) left)), fs)
  else if 0 <? pd_bytes_left info then
    fs ← append_file fs (pd_fp info) (take (Z.to_nat (pd_bytes_left info)) data);
    d ← restoreEncryptedDataObject SHA_Init SHA_Update SHA_Final d;
    Some ((pd_bytes_left info, Some 0), Put d None, fs)
  else Some ((putLen, Some remaining), Put d (Some info), fs).

Definition putData (fs : files) (now : Timeval) (st : putting) (data : list Z) (putHeaderOnly : bool) : option put_result :=
  if (length data =? 0)%nat then Some ((0, None), st, fs)
  else match p_data st with
  | None => Some ((0, Some 0), st, fs)
  | Some info =>
    match k_metadata (p_obj st) with
    | Some _ =>
      r ← open_file fs now putHeaderOnly (p_obj st) info 0 DATAOBJECT_METADATA_PENDING;
      match r with inl r => Some r | inr (d, info, remaining, fs) => put_data fs d info data 0 remaining end
    | None =>
      if DATAOBJECT_MAX_METADATA_SIZE <=? Z.of_nat (length (pd_header info)) + Z.of_nat (length data)
      then Some ((-1, Some DATAOBJECT_METADATA_PENDING), st, fs)
      else
        h ← put_header fs (p_obj st) (pd_header info) data 0;
        match h with
        | HeaderError d => Some ((-1, Some DATAOBJECT_METADATA_PENDING), Put d (Some (PDd [] (pd_fp info) (pd_bytes_left info))), fs)
        | HeaderRead d header data putLen =>
          r ← open_file fs now putHeaderOnly d (PDd header (pd_fp info) (pd_bytes_left info)) putLen DATAOBJECT_METADATA_PENDING;
          match r with inl r => Some r | inr (d, info, remaining, fs) => put_data fs d info data putLen remaining end
        end
    end
  end.

(** The calls for the pieces that arrive, each with the time of its arrival. *)
Fixpoint puts (fs : files) (st : putting) (chunks : list (Timeval * list Z)) : option (list (Z * option Z) * putting * files) :=
  match chunks with
  | [] => Some ([], st, fs)
  | (now, data) :: chunks =>
    '(r, st, fs) ← putData fs now st data false; '(rs, st, fs) ← puts fs st chunks; Some (r :: rs, st, fs)
  end.
End Put.

(** ** Reading the metadata leaves metadata and sorted attributes *)

Ltac inv_bind H :=
  repeat match type of H with
  | mbind (M := option) _ ?x = Some _ => let E := fresh "E" in destruct x eqn:E; cbn [mbind option_bind] in H; [|discriminate H]
  | (let '(_, _) := ?p in _) = Some _ => destruct p
  end.

Section Keeps.
Context {SHA_CTX : Type} (SHA_Init : SHA_CTX) (SHA_Update : SHA_CTX → list Z → SHA_CTX) (SHA_Final : SHA_CTX → list Z).
Context (ctx_buf : list Z) (uninit_time : Timeval).

(** Same metadata and attributes. *)
Definition kept (d d' : kdobj) : Prop := k_metadata d' = k_metadata d ∧ k_attrs d' = k_attrs d.
Definition attrs_ok (d : kdobj) : Prop := ∃ l, attrs_wf (k_attrs d) l.

Lemma read_times_kept d ct ut d' : read_times uninit_time d ct ut = Some d' → kept d d'.
Proof. unfold read_times. intros H. inv_bind H. by injection H as <-. Qed.
Lemma read_marks_kept d m d' : read_marks d m = Some d' → kept d d'.
Proof.
  unfold read_marks. intros H. inv_bind H. set (d1 := match o with Some _ => _ | None => d end) in H.
  assert (kept d d1) as Hd by (by destruct o). clearbody d1. destruct o0; [|by injection H as <-]. inv_bind H. injection H as <-. by destruct o0.
Qed.
Lemma parse_head_kept d m d' : parse_head uninit_time d m = Some d' → kept d d'.
Proof.
  unfold parse_head. intros H. inv_bind H. apply read_marks_kept in H as [H1 H2]. apply read_times_kept in E2 as [H3 H4].
  unfold kept. rewrite H1, H2, H3, H4. unfold read_persistence. by repeat case_match.
Qed.
Lemma parse_attributes_kept l : ∀ d d', parse_attributes d l = Some d' → attrs_ok d → k_metadata d' = k_metadata d ∧ attrs_ok d'.
Proof.
  induction l as [|a l IH]; intros d d' H Hd; cbn [parse_attributes] in H; [by injection H as <-|]. inv_bind H.
  set (d1 := if string_eq _ _ then _ else d) in *. assert (kept d d1) as [Hm Ha] by (unfold d1; by destruct (string_eq _ _)). clearbody d1.
  destruct Hd as [l0 Hl0]. destruct b; inv_bind E1.
  - injection E1 as <-. destruct (IH _ _ H) as [-> ?]; [by exists l0; rewrite Ha|]. by rewrite Hm.
  - injection E1 as <-. rewrite Ha in E2. destruct (attrs_add_run _ l0 a0 Hl0) as (m' & l' & E' & Hl' & _). rewrite E' in E2. injection E2 as _ <-.
    destruct (IH _ _ H) as [-> ?]; [by exists l'|]. by cbn.
Qed.
Lemma parse_filepath_kept fs b d dm m r : parse_filepath fs b d dm m = Some r → k_attrs r.1.2 = k_attrs d.
Proof.
  unfold parse_filepath. intros H. assert (k_attrs (setFilePath fs d (getContent m) (k_dataLen d) b).2 = k_attrs d) as Hs
    by (unfold setFilePath; by repeat case_match).
  destruct (setFilePath _ _ _ _ _) as [ok d1]. cbn [snd] in Hs. destruct ok; cbn [negb] in H; [|by injection H as <-].
  inv_bind H. injection H as <-. cbn [fst snd]. rewrite <- Hs. destruct (slen _ =? 0)%nat; inv_bind E; by injection E as <- _.
Qed.
Lemma parse_filehash_kept d dm d' : parse_filehash ctx_buf d dm = Some d' → k_attrs d' = k_attrs d.
Proof. unfold parse_filehash. intros H. repeat (case_match; inv_bind H; simplify_eq; try done). Qed.
Lemma parse_data_kept fs b d dm r : parse_data ctx_buf fs b d dm = Some r → k_attrs r.1.2 = k_attrs d.
Proof.
  unfold parse_data. intros H. inv_bind H.
  assert (k_attrs k0 = k_attrs d) as Hk by (destruct o1; [apply parse_filepath_kept in E2|injection E2 as _ <- _]; cbn in *; by destruct o0, o).
  destruct b0; cbn [negb] in H; [|by injection H as <-]. inv_bind H. injection H as <-. cbn [fst snd]. rewrite <- Hk. by apply (parse_filehash_kept _ k).
Qed.
Lemma parse_signature_kept d m b d' : parse_signature ctx_buf d m = Some (b, d') → kept d d'.
Proof. unfold parse_signature. intros H. repeat (case_match; inv_bind H; simplify_eq; try done). Qed.
Lemma calcId_kept d d' : calcId SHA_Init SHA_Update SHA_Final d = Some d' → kept d d'.
Proof. unfold calcId. intros H. inv_bind H. by injection H as <-. Qed.

Lemma parse_keeps fs b d r d' :
  parseMetadata SHA_Init SHA_Update SHA_Final ctx_buf uninit_time fs b d = Some (r, d') → is_Some (k_metadata d) → attrs_ok d →
  is_Some (k_metadata d') ∧ attrs_ok d'.
Proof.
  intros H [m Em] Ha. unfold parseMetadata in H. rewrite Em in H. inv_bind H.
  apply parse_head_kept in E as [E Ea]. apply parse_attributes_kept in E1 as [E1 Ha1]; [|by destruct Ha as [l0 ?]; exists l0; rewrite Ea].
  rewrite E, Em in E1.
  assert (is_Some (k_metadata k2) ∧ k_attrs k2 = k_attrs k0) as [Hk1 Hk2].
  { unfold parse_data_element in E2. inv_bind E2. destruct o; [|by injection E2 as _ <- _; rewrite E1]. inv_bind E2. injection E2 as _ <- _.
    apply parse_data_kept in E4. by split; [eexists|]. }
  assert (attrs_ok k2) as Hk by (destruct Ha1 as [l0 ?]; exists l0; by rewrite Hk2).
  destruct b0; cbn [negb] in H; [|by injection H as _ <-]. inv_bind H. apply parse_signature_kept in E3 as [E3 E3'].
  assert (is_Some (k_metadata k3) ∧ attrs_ok k3) as Hk3 by (rewrite E3; split; [done|]; destruct Hk as [l0 ?]; exists l0; by rewrite E3').
  destruct b0; cbn [negb] in H; [|by injection H as _ <-]. inv_bind H. apply calcId_kept in E4 as [E4 E4']. injection H as _ <-.
  unfold attrs_ok. by rewrite E4, E4'.
Qed.

Lemma restore_run d : attrs_ok d → ∃ d', restoreEncryptedDataObject SHA_Init SHA_Update SHA_Final d = Some d'.
Proof.
  intros [l Hl]. unfold restoreEncryptedDataObject, hasABEAttribute.
  destruct (get_attribute_run d l "_ABE_" "*" 0 Hl) as (x & -> & _). cbn [mbind option_bind].
  rewrite !(has_attribute_run d l) by done. cbn [mbind option_bind].
  set (nc := matched (MkAttr HAGGLE_ATTR_NETWORKCODING_NAME "TRUE" 1) l.*2).
  set (fr := matched (MkAttr HAGGLE_ATTR_FRAGMENTATION_NAME "TRUE" 1) l.*2). clearbody nc fr.
  set (b := match x with Some _ => if nc then false else negb fr | None => false end).
  match goal with |- ∃ d', mbind ?f ?o = Some d' => assert (o = Some b) as -> end.
  { unfold b. destruct x; [|reflexivity]. destruct nc; reflexivity. }
  cbn [mbind option_bind]. clearbody b. destruct (b && _ && _); [|by eexists].
  match goal with |- context [calcId _ _ _ ?d1] => rewrite (calc_run _ _ _ d1 l Hl) end. by eexists.
Qed.
Lemma createFilePath_run storagepath now d : attrs_ok d → isValid now = true →
  ∃ path, createFilePath storagepath now d = Some (set_file d (k_filename d) path (k_dataLen d) (k_origDataLen d)).
Proof.
  intros [l Hl] Hv. unfold createFilePath. destruct (get_attribute_run d l "_ABE_" "*" 0 Hl) as (x & -> & _).
  rewrite getAsString_valid by done. by eexists.
Qed.
End Keeps.

(** ** The pieces do not matter *)

Section Stream.
Context {SHA_CTX : Type} (SHA_Init : SHA_CTX) (SHA_Update : SHA_CTX → list Z → SHA_CTX) (SHA_Final : SHA_CTX → list Z).
Context (ctx_buf : list Z) (uninit_time : Timeval).
Context (xmlIsBlankNode : string → bool) (xmlNodeGetContent : xmlNode → string) (xmlParseMemory : list Z → option xmlNode).
Context (storagepath : string) (can_open : string → bool).
Abbreviation parse := (parse_header SHA_Init SHA_Update SHA_Final ctx_buf uninit_time xmlIsBlankNode xmlNodeGetContent xmlParseMemory).
Abbreviation header_loop := (put_header SHA_Init SHA_Update SHA_Final ctx_buf uninit_time xmlIsBlankNode xmlNodeGetContent xmlParseMemory).
Abbreviation put := (putData SHA_Init SHA_Update SHA_Final ctx_buf uninit_time xmlIsBlankNode xmlNodeGetContent xmlParseMemory storagepath can_open).
Abbreviation puts_all := (puts SHA_Init SHA_Update SHA_Final ctx_buf uninit_time xmlIsBlankNode xmlNodeGetContent xmlParseMemory storagepath can_open).
Abbreviation restore := (restoreEncryptedDataObject SHA_Init SHA_Update SHA_Final).

(** The object that a header describes has metadata and sorted attributes. *)
Lemma parsed_header fs h d : parse fs kdobj_new h = Some (true, d) → is_Some (k_metadata d) ∧ attrs_ok d.
Proof.
  intros Ep. unfold parse_header in Ep. inv_bind Ep. destruct o as [m|]; [|done]. destruct (string_ne _ _); [done|]. inv_bind Ep.
  destruct (z <? 0); [done|]. injection Ep as <-. apply (parse_keeps _ _ _ _ _ _ _ _ _ _ E0); [by eexists|by exists []; apply attrs_wf_new].
Qed.

(** A header: the tag closes it and nothing before. *)
Record is_header (h : list Z) : Prop := IsHeader
  { ih_starts : header_starts (take 7 h) = true;
    ih_ends : header_ends h = true;
    ih_first : ∀ n, (n < length h)%nat → header_ends (take n h) = false;
    ih_fits : Z.of_nat (length h) < DATAOBJECT_MAX_METADATA_SIZE }.

Lemma header_step h (h0 data rest : list Z) b :
  is_header h → h = h0 ++ b :: data ++ rest →
  (length (h0 ++ [b]) =? 7)%nat && negb (header_starts (h0 ++ [b])) = false ∧
  header_ends (h0 ++ [b]) = bool_decide (data ++ rest = []).
Proof.
  intros Hh E. assert (Hp : h0 ++ [b] = take (length (h0 ++ [b])) h).
  { rewrite E. change (b :: data ++ rest) with ([b] ++ data ++ rest). by rewrite app_assoc, take_app_length. }
  split.
  - destruct (Nat.eqb_spec (length (h0 ++ [b])) 7) as [E7|]; [|done]. rewrite E7 in Hp. by rewrite Hp, (ih_starts _ Hh).
  - case_bool_decide as Hn.
    + assert (h0 ++ [b] = h) as -> by (rewrite E, Hn; done). apply Hh.
    + rewrite Hp. apply (ih_first _ Hh). rewrite E, !length_app. cbn. destruct (data ++ rest) eqn:Ed; [done|]. cbn. lia.
Qed.

Lemma header_more fs d h : is_header h → ∀ data h0 rest n,
  h = h0 ++ data ++ rest → rest ≠ [] →
  header_loop fs d h0 data n = Some (HeaderRead d (h0 ++ data) [] (n + Z.of_nat (length data))).
Proof.
  intros Hh data. induction data as [|b data IH]; intros h0 rest n E Hr; cbn [put_header].
  - rewrite app_nil_r. by rewrite Z.add_0_r.
  - destruct (header_step h h0 data rest b Hh E) as [-> ->]. rewrite bool_decide_false by (by destruct data).
    rewrite (IH _ rest) by (try done; by rewrite E, <- app_assoc). rewrite <- app_assoc. cbn [app length]. do 2 f_equal. lia.
Qed.

Lemma header_last fs d h r : is_header h → parse fs d h = Some r → ∀ data h0 extra n,
  h = h0 ++ data → data ≠ [] →
  header_loop fs d h0 (data ++ extra) n =
  Some (if r.1 then HeaderRead r.2 [] extra (n + Z.of_nat (length data)) else HeaderError r.2).
Proof.
  intros Hh Ep data. induction data as [|b data IH]; intros h0 extra n E Hd; [done|]. cbn [app put_header].
  destruct (header_step h h0 data [] b Hh) as [-> ->]; [by rewrite app_nil_r|]. rewrite app_nil_r.
  case_bool_decide as Hn.
  - subst data. rewrite <- E, Ep. cbn [mbind option_bind]. destruct r as [ok d']. cbn [fst snd app length]. by destruct ok.
  - rewrite IH by (try done; by rewrite E, <- app_assoc). cbn [length]. destruct r.1; [|done]. do 2 f_equal. lia.
Qed.

(** What a data object expects after its header. *)
Definition expected (d : kdobj) : Z :=
  match k_ABEStatus d with ABE_ENCRYPTION_DONE => k_encryptedFileLength d | _ => k_dataLen d end.

Lemma put_more fs now d h h0 c rest :
  is_header h → h = h0 ++ c ++ rest → rest ≠ [] → c ≠ [] → k_metadata d = None →
  put fs now (Put d (Some (PDd h0 None 0))) c false =
  Some ((Z.of_nat (length c), Some DATAOBJECT_METADATA_PENDING), Put d (Some (PDd (h0 ++ c) None 0)), fs).
Proof.
  intros Hh E Hr Hc Hm. unfold putData. destruct (Nat.eqb_spec (length c) 0) as [El|_]; [by destruct c|].
  cbn [p_data p_obj pd_header pd_fp pd_bytes_left]. rewrite Hm.
  pose proof (ih_fits _ Hh) as Hf. rewrite E, !length_app in Hf.
  destruct (Z.leb_spec DATAOBJECT_MAX_METADATA_SIZE (Z.of_nat (length h0) + Z.of_nat (length c))); [lia|].
  rewrite (header_more fs d h Hh c h0 rest 0 E Hr). cbn [mbind option_bind]. unfold open_file. cbn [pd_fp]. rewrite Hm. done.
Qed.

(** The last piece of the header, with what follows it in the same piece. *)
Lemma put_last fs now d d' h h0 c extra :
  is_header h → h = h0 ++ c → c ≠ [] → k_metadata d = None → parse fs d h = Some (true, d') →
  is_Some (k_metadata d') → Z.of_nat (length h) + Z.of_nat (length extra) < DATAOBJECT_MAX_METADATA_SIZE →
  put fs now (Put d (Some (PDd h0 None 0))) (c ++ extra) false =
  if expected d' =? 0 then Some ((Z.of_nat (length c), Some 0), Put d' None, fs)
  else
    d2 ← createFilePath storagepath now d';
    if can_open (k_filepath d2)
    then put_data SHA_Init SHA_Update SHA_Final (<[k_filepath d2 := []]> fs) d2 (PDd [] (Some (k_filepath d2)) (expected d')) extra
           (Z.of_nat (length c)) (expected d')
    else Some ((-1, Some (expected d')), Put d2 None, fs).
Proof.
  intros Hh E Hc Hm Ep [m Em] Hf. unfold putData. destruct (Nat.eqb_spec (length (c ++ extra)) 0) as [El|_]; [by destruct c|].
  cbn [p_data p_obj pd_header pd_fp pd_bytes_left]. rewrite Hm. rewrite E, !length_app in Hf. rewrite length_app.
  destruct (Z.leb_spec DATAOBJECT_MAX_METADATA_SIZE (Z.of_nat (length h0) + Z.of_nat (length c + length extra))); [lia|].
  rewrite (header_last fs d h (true, d') Hh Ep c h0 extra 0 E Hc). cbn [mbind option_bind fst snd]. rewrite Z.add_0_l.
  unfold open_file. cbn [pd_fp pd_header]. rewrite Em. fold (expected d'). destruct (expected d' =? 0); [done|].
  destruct (createFilePath storagepath now d') as [d2|]; [|done]. cbn [mbind option_bind]. by destruct (can_open _).
Qed.

Lemma put_body fs now d path left c written :
  is_Some (k_metadata d) → fs !! path = Some written → c ≠ [] → Z.of_nat (length c) <= left →
  put fs now (Put d (Some (PDd [] (Some path) left))) c false =
  if Z.of_nat (length c) <? left
  then Some ((Z.of_nat (length c), Some (left - Z.of_nat (length c))),
             Put d (Some (PDd [] (Some path) (left - Z.of_nat (length c)))), <[path := written ++ c]> fs)
  else d2 ← restore d; Some ((Z.of_nat (length c), Some 0), Put d2 None, <[path := written ++ c]> fs).
Proof.
  intros [m Em] Hw Hc Hl. unfold putData. destruct (Nat.eqb_spec (length c) 0) as [El|_]; [by destruct c|].
  cbn [p_data p_obj]. rewrite Em. unfold open_file. cbn [pd_fp mbind option_bind]. unfold put_data. cbn [pd_bytes_left pd_fp pd_header].
  destruct (Z.eqb_spec (Z.of_nat (length c)) 0) as [El|_]; [by destruct c|].
  unfold append_file. cbn [mbind option_bind]. rewrite Hw. cbn [default from_option id].
  destruct (Z.ltb_spec (Z.of_nat (length c)) left); [done|]. assert (left = Z.of_nat (length c)) as -> by lia.
  destruct (Z.ltb_spec 0 (Z.of_nat (length c))); [|destruct c; cbn in *; [done|lia]]. by rewrite Nat2Z.id, firstn_all.
Qed.

Definition answers (remaining : Z) (cs : list (Timeval * list Z)) : list (Z * option Z) :=
  map (λ c, (Z.of_nat (length c.2), Some remaining)) cs.
Fixpoint body_answers (left : Z) (cs : list (Timeval * list Z)) : list (Z * option Z) :=
  match cs with
  | [] => []
  | c :: cs => let left := left - Z.of_nat (length c.2) in (Z.of_nat (length c.2), Some left) :: body_answers left cs
  end.

Lemma puts_cons fs st now c cs :
  puts_all fs st ((now, c) :: cs) =
  ('(r, st, fs) ← put fs now st c false; '(rs, st, fs) ← puts_all fs st cs; Some (r :: rs, st, fs)).
Proof. done. Qed.

Lemma puts_header fs d h cs : is_header h → k_metadata d = None → ∀ h0 rest more,
  h = h0 ++ concat cs.*2 ++ rest → rest ≠ [] → Forall (λ c, c.2 ≠ []) cs →
  puts_all fs (Put d (Some (PDd h0 None 0))) (cs ++ more) =
  ('(rs, st, fs) ← puts_all fs (Put d (Some (PDd (h0 ++ concat cs.*2) None 0))) more; Some (answers DATAOBJECT_METADATA_PENDING cs ++ rs, st, fs)).
Proof.
  intros Hh Hm. induction cs as [|[now c] cs IH]; intros h0 rest more E Hr Hne.
  - cbn [app fmap list_fmap concat answers map]. rewrite app_nil_r. by destruct (puts_all _ _ more) as [[[? ?] ?]|].
  - apply Forall_cons in Hne as [Hc Hne]. cbn [fmap list_fmap concat snd] in *. cbn [app]. rewrite puts_cons.
    rewrite (put_more fs now d h h0 c (concat cs.*2 ++ rest)); [|done|by rewrite E, <- app_assoc| |done|done]; [|by destruct (concat cs.*2)].
    cbn [mbind option_bind]. rewrite (IH (h0 ++ c) rest) by (try done; by rewrite E, <- !app_assoc). rewrite <- app_assoc.
    by destruct (puts_all _ _ more) as [[[? ?] ?]|].
Qed.

Lemma puts_body d path cs : is_Some (k_metadata d) → attrs_ok d → ∀ fs written left,
  fs !! path = Some written → Forall (λ c, c.2 ≠ []) cs → cs ≠ [] → Z.of_nat (length (concat cs.*2)) = left →
  ∃ d2, restore d = Some d2 ∧
    puts_all fs (Put d (Some (PDd [] (Some path) left))) cs =
    Some (body_answers left cs, Put d2 None, <[path := written ++ concat cs.*2]> fs).
Proof.
  intros Hm Ha. destruct (restore_run SHA_Init SHA_Update SHA_Final d Ha) as [d2 E2].
  induction cs as [|[now c] cs IH]; intros fs written left Hw Hne Hcs Hl; [done|]. exists d2. split; [done|].
  apply Forall_cons in Hne as [Hc Hne]. cbn [fmap list_fmap concat snd] in *. rewrite length_app in Hl.
  rewrite puts_cons, (put_body fs now d path left c written) by (done || lia).
  destruct (Z.ltb_spec (Z.of_nat (length c)) left) as [Hlt|Hge].
  - assert (cs ≠ []) as Hcs' by (intros ->; cbn in Hl; lia). cbn [mbind option_bind].
    destruct (IH (<[path := written ++ c]> fs) (written ++ c) (left - Z.of_nat (length c))) as (d3 & E3 & ->);
      [by rewrite lookup_insert_eq|done|done|lia|].
    assert (d3 = d2) as -> by congruence. cbn [mbind option_bind body_answers snd]. by rewrite insert_insert_eq, <- app_assoc.
  - assert (concat cs.*2 = []) as Hn by (apply nil_length_inv; lia).
    assert (cs = []) as -> by (destruct cs as [|[? c'] cs]; [done|]; apply Forall_cons in Hne as [Hc' _]; cbn in Hn; by destruct c').
    rewrite E2. cbn [mbind option_bind puts body_answers snd fmap list_fmap concat]. rewrite app_nil_r.
    by replace (left - Z.of_nat (length c)) with 0 by lia.
Qed.

(** C10: a data object is received the same in whatever pieces its bytes come: when the pieces of the
    header [h] are followed by the pieces of as many bytes as the header announces, each call takes
    its whole piece and tells how much is still to come, the object is the one the header describes,
    with encryption restored, and the file at its new path holds exactly the bytes behind the
    header; a header that announces nothing ends the object with its last piece.  While the header is not complete, what remains is told to be
    [DATAOBJECT_METADATA_PENDING] (the comment of [putData] in [DataObject.h] says 1). *)
Theorem put_stream fs h d cs last body :
  is_header h → parse fs kdobj_new h = Some (true, d) →
  concat cs.*2 ++ last.2 = h → Forall (λ c, c.2 ≠ []) (cs ++ last :: body) →
  Z.of_nat (length (concat body.*2)) = expected d → isValid last.1 = true → (∀ path, can_open path = true) →
  ∃ d3 fs', puts_all fs create_for_putting (cs ++ last :: body) =
      Some (answers DATAOBJECT_METADATA_PENDING cs ++ (Z.of_nat (length last.2), Some (expected d)) :: body_answers (expected d) body,
            Put d3 None, fs') ∧
    if expected d =? 0 then d3 = d ∧ fs' = fs
    else ∃ d2, createFilePath storagepath last.1 d = Some d2 ∧ restore d2 = Some d3 ∧ fs' = <[k_filepath d2 := concat body.*2]> fs.
Proof.
  intros Hh Ep Eh Hne Hlen Hv Hopen. apply Forall_app in Hne as [Hcs Hne]. apply Forall_cons in Hne as [Hlast Hbody].
  destruct last as [now c]. cbn [fst snd] in *. unfold create_for_putting, create_pDd.
  rewrite (puts_header fs kdobj_new h cs Hh eq_refl [] c); [|by rewrite <- Eh|done|done]. cbn [app]. rewrite puts_cons.
  destruct (parsed_header fs h d Ep) as [Hm Ha].
  pose proof (put_last fs now kdobj_new d h (concat cs.*2) c [] Hh (eq_sym Eh) Hlast eq_refl Ep Hm) as El.
  rewrite app_nil_r in El. rewrite El by (pose proof (ih_fits _ Hh); cbn; lia). clear El.
  destruct (Z.eqb_spec (expected d) 0) as [Ez|Ez].
  - assert (body = []) as ->.
    { destruct body as [|[? c'] body]; [done|]. apply Forall_cons in Hbody as [Hc' _]. cbn in Hlen, Hc'. rewrite length_app in Hlen.
      destruct c'; [done|]. cbn in Hlen. lia. }
    cbn [mbind option_bind puts body_answers]. exists d, fs. by rewrite Ez.
  - destruct (createFilePath_run storagepath now d Ha Hv) as [path Epath]. rewrite Epath. cbn [mbind option_bind]. rewrite Hopen.
    set (d2 := set_file d (k_filename d) path (k_dataLen d) (k_origDataLen d)).
    destruct (puts_body d2 (k_filepath d2) body Hm Ha (<[k_filepath d2 := []]> fs) [] (expected d)) as (d3 & E3 & Eb);
      [by rewrite lookup_insert_eq|done|by intros ->; cbn in Hlen|done|].
    match goal with |- context [put_data ?a ?b ?c ?fs ?d ?i [] ?p ?r] => change (put_data a b c fs d i [] p r) with (Some ((p, Some r), Put d (Some i), fs)) end.
    cbn [mbind option_bind]. fold d2. rewrite Eb. cbn [mbind option_bind].
    exists d3, (<[k_filepath d2 := concat body.*2]> fs). split; [by rewrite insert_insert_eq|]. by exists d2.
Qed.

(** A piece that holds the end of the header and some of the data is consumed as a whole, but the
    answer counts the data only: the caller drops too few bytes of its buffer. *)
Lemma put_straddling fs now h d extra :
  is_header h → parse fs kdobj_new h = Some (true, d) → is_Some (k_metadata d) → attrs_ok d → isValid now = true → (∀ path, can_open path = true) →
  Z.of_nat (length h) + Z.of_nat (length extra) < DATAOBJECT_MAX_METADATA_SIZE → 0 < Z.of_nat (length extra) < expected d →
  ∃ d2, put fs now create_for_putting (h ++ extra) false =
    Some ((Z.of_nat (length extra), Some (expected d - Z.of_nat (length extra))),
          Put d2 (Some (PDd [] (Some (k_filepath d2)) (expected d - Z.of_nat (length extra)))), <[k_filepath d2 := extra]> fs).
Proof.
  intros Hh Ep Hm Ha Hv Hopen Hf Hx. assert (h ≠ []) as Hne by (intros ->; by pose proof (ih_ends _ Hh)).
  unfold create_for_putting, create_pDd. rewrite (put_last fs now kdobj_new d h [] h extra Hh eq_refl Hne eq_refl Ep Hm Hf).
  destruct (Z.eqb_spec (expected d) 0); [lia|].
  destruct (createFilePath_run storagepath now d Ha Hv) as [path Epath]. rewrite Epath. cbn [mbind option_bind]. rewrite Hopen.
  exists (set_file d (k_filename d) path (k_dataLen d) (k_origDataLen d)). unfold put_data.
  destruct (Z.eqb_spec (Z.of_nat (length extra)) 0); [lia|]. cbn [pd_bytes_left pd_fp].
  destruct (Z.ltb_spec (Z.of_nat (length extra)) (expected d)); [|lia]. unfold append_file. cbn [mbind option_bind].
  by rewrite lookup_insert_eq, insert_insert_eq.
Qed.
End Stream.

(** ** Witness *)

Definition ex_header : list Z := bytes_of_string "<Haggle a='b'></Haggle>".
Definition ex_put_parse (raw : list Z) : option xmlNode :=
  if decide (raw = ex_header) then Some (XElement "Haggle" [] [XElement "Data" [("data_len", Some "3")] [XElement "FileName" [] [XText "a.jpg"]]]) else None.
Definition ex_now : Timeval := TV 1300000000 42.

Lemma ex_is_header : is_header ex_header.
Proof.
  split; [reflexivity|reflexivity| |reflexivity]. intros n Hn. cbn in Hn. do 23 (destruct n as [|n]; [reflexivity|]). lia.
Qed.

Lemma put_stream_witness :
  ∃ d3 fs', puts ex_ctx ex_update fips_sha1 [0; 0; 0; 0] (TV 7 7) ex_blank ex_content ex_put_parse "/s" (λ _, true) ∅ create_for_putting
      [(ex_now, take 10 ex_header); (ex_now, drop 10 ex_header); (ex_now, [1; 2]); (ex_now, [3])] =
    Some ([(10, Some DATAOBJECT_METADATA_PENDING); (13, Some 3); (2, Some 1); (1, Some 0)], Put d3 None, fs') ∧
    fs' !! "/s/1300000000.000042-a.jpg" = Some [1; 2; 3].
Proof.
  destruct (parse_header ex_ctx ex_update fips_sha1 [0; 0; 0; 0] (TV 7 7) ex_blank ex_content ex_put_parse ∅ kdobj_new ex_header)
    as [[[|] d]|] eqn:E; [|vm_compute in E; discriminate E..].
  assert (Ex : expected d = 3) by (vm_compute in E; injection E as <-; reflexivity).
  destruct (put_stream ex_ctx ex_update fips_sha1 [0; 0; 0; 0] (TV 7 7) ex_blank ex_content ex_put_parse "/s" (λ _, true) ∅ ex_header d
              [(ex_now, take 10 ex_header)] (ex_now, drop 10 ex_header) [(ex_now, [1; 2]); (ex_now, [3])])
    as (d3 & fs' & E1 & E2).
  - exact ex_is_header.
  - exact E.
  - reflexivity.
  - repeat constructor; discriminate.
  - rewrite Ex. reflexivity.
  - reflexivity.
  - reflexivity.
  - rewrite Ex in E1, E2. exists d3, fs'. split; [exact E1|]. cbn [Z.eqb Pos.eqb] in E2. destruct E2 as (d2 & Ed & _ & ->).
    vm_compute in E. injection E as <-. vm_compute in Ed. injection Ed as <-. vm_compute. reflexivity.
Defined.
