(* ===== verification/KernelRetrieve.v ===== *)
(** * KernelRetrieve: reading out a data object ([DataObjectDataRetrieverImplementation],
    [DataObject.cpp]).

    The bytes of a data object are its metadata up to the last [>] and the contents of its file.
    A retriever hands them out in pieces of the caller's size.  An open file is its contents and a
    position: it is not changed while it is read.  Closing a file twice, which the constructor and
    the destructor do between them when the metadata cannot be written, has no result. *)

From S2P Require Import Prelude Timeval Attribute Metadata MetaTree MetadataXml DataObject.
From S2P Require Import CppString CppMap CppHashMap KernelMetadata KernelXml KernelDataObject.

Record FILE := Fopen { f_contents : list Z; f_pos : nat }.

Record retriever := Retriever
  { rt_header : list Z; rt_fp : option FILE; rt_header_bytes_left : nat; rt_bytes_left : Z }.

(** [while (header_len && header[header_len-1] != '>') header_len--;] *)
Fixpoint trim_end (rev_header : list Z) : list Z :=
  match rev_header with b :: l => if b =? 62 then rev_header else trim_end l | [] => [] end.
Definition trim_header (header : list Z) : list Z := rev (trim_end (rev header)).

Section Retriever.
Context (xmlNewNode : option string → option xmlNode)
        (xmlNewProp : xmlNode → string → string → option xmlNode)
        (xmlNewChild : option string → option string → option xmlNode)
        (xmlAddChild : xmlNode → xmlNode → xmlNode)
        (xmlDocDumpFormatMemory : xmlNode → list Z).

(** [None] in the result is the answer false. *)
Definition getRawMetadataAlloc (d : kdobj) : option (option (list Z) * kdobj) :=
  '(m, d) ← toMetadata d;
  match m with
  | None => Some (None, d)
  | Some m => raw ← getRawAlloc xmlNewNode xmlNewProp xmlNewChild xmlAddChild xmlDocDumpFormatMemory m; Some (raw, d)
  end.

(** The file and the number of bytes to read from it; [None] when it does not open. *)
Definition open_data (fs : files) (path : string) (len : Z) (isForLocalApp : bool) : option (option FILE * Z) :=
  if (0 <? len) && negb isForLocalApp
  then contents ← fs !! path; Some (Some (Fopen contents 0), len)
  else Some (None, 0).
Definition retriever_file (fs : files) (d : kdobj) : option (option FILE * Z) :=
  match k_ABEStatus d with
  | ABE_ENCRYPTION_DONE | ABE_DECRYPTION_NEEDED | ABE_DECRYPTION_DONE =>
    open_data fs (k_encryptedFilePath d) (k_encryptedFileLength d) (k_isForLocalApp d)
  | ABE_NOT_NEEDED => open_data fs (k_filepath d) (k_dataLen d) (k_isForLocalApp d)
  | ABE_ENCRYPTION_NEEDED => Some (None, 0)
  end.

(** The constructor, and the destructor for a retriever that is not valid. *)
Definition getDataObjectDataRetriever (fs : files) (d : kdobj) : option (option retriever * kdobj) :=
  match retriever_file fs d with
  | None => Some (None, d)
  | Some (fp, bytes_left) =>
    '(raw, d) ← getRawMetadataAlloc d;
    let header := trim_header (default [] raw) in
    if (0 <? length header)%nat then Some (Some (Retriever header fp (length header) bytes_left), d)
    else match fp with None => Some (None, d) | Some _ => None end
  end.
End Retriever.

(** [fread (data, len, 1, fp)]: the bytes, the number of items and the file. *)
Definition fread (len : nat) (fp : FILE) : list Z * bool * FILE :=
  let data := take len (drop (f_pos fp) (f_contents fp)) in
  (data, (0 <? len)%nat && (length data =? len)%nat, Fopen (f_contents fp) (f_pos fp + length data)).

(** The part of [retrieve] behind the header, with [read] the bytes of the header before it in
    the buffer, of which [len] are left.  The result is the answer, the bytes in the buffer and the
    retriever. *)
Definition retrieve_file (r : retriever) (read : list Z) (len : nat) : Z * list Z * retriever :=
  match rt_fp r with
  | None => (Z.of_nat (length read), read, r)
  | Some fp =>
    let len := if rt_bytes_left r <? Z.of_nat len then Z.to_nat (rt_bytes_left r) else len in
    let '(data, nitems, fp) := fread len fp in
    let read := read ++ data in
    let bytes_left := rt_bytes_left r - Z.of_nat (length data) in
    if bytes_left =? 0
    then (Z.of_nat (length read), read, Retriever (rt_header r) None (rt_header_bytes_left r) bytes_left)
    else if nitems then (Z.of_nat (length read), read, Retriever (rt_header r) (Some fp) (rt_header_bytes_left r) bytes_left)
    else if (length data <? len)%nat
    then (Z.of_nat (length read), read, Retriever (rt_header r) None (rt_header_bytes_left r) bytes_left)
    else (-1, read, Retriever (rt_header r) (Some fp) (rt_header_bytes_left r) bytes_left)
  end.

Definition retrieve (r : retriever) (len : nat) (getHeaderOnly : bool) : Z * list Z * retriever :=
  if (len =? 0)%nat then (0, [], r)
  else
    let header := drop (length (rt_header r) - rt_header_bytes_left r) (rt_header r) in
    if negb (rt_header_bytes_left r =? 0)%nat && (len <=? rt_header_bytes_left r)%nat
    then (Z.of_nat len, take len header, Retriever (rt_header r) (rt_fp r) (rt_header_bytes_left r - len) (rt_bytes_left r))
    else
      let read := take (rt_header_bytes_left r) header in
      let r' := Retriever (rt_header r) (rt_fp r) 0 (rt_bytes_left r) in
      if getHeaderOnly then (Z.of_nat (length read), read, r')
      else retrieve_file r' read (len - rt_header_bytes_left r).

(** ** What is left to read *)

Definition header_left (r : retriever) : list Z := drop (length (rt_header r) - rt_header_bytes_left r) (rt_header r).
Definition data_left (r : retriever) : list Z :=
  match rt_fp r with None => [] | Some fp => take (Z.to_nat (rt_bytes_left r)) (drop (f_pos fp) (f_contents fp)) end.
(** The file is as long as the data object says. *)
Record rt_ok (r : retriever) : Prop := RtOk
  { rt_header_ok : (rt_header_bytes_left r <= length (rt_header r))%nat;
    rt_file_ok : ∀ fp, rt_fp r = Some fp → 0 < rt_bytes_left r <= Z.of_nat (length (drop (f_pos fp) (f_contents fp))) }.

Lemma length_header_left r : rt_ok r → length (header_left r) = rt_header_bytes_left r.
Proof. intros [H _]. unfold header_left. rewrite length_drop. lia. Qed.

Lemma retrieve_file_run r read len :
  rt_ok r → (0 < len)%nat →
  ∃ r', retrieve_file r read len = (Z.of_nat (length (read ++ take len (data_left r))), read ++ take len (data_left r), r') ∧
    rt_ok r' ∧ header_left r' = header_left r ∧ data_left r' = drop len (data_left r).
Proof.
  intros [Hh Hf] Hlen. unfold retrieve_file, data_left. destruct (rt_fp r) as [fp|] eqn:Efp.
  - specialize (Hf fp eq_refl). set (rest := drop (f_pos fp) (f_contents fp)) in *. set (bl := Z.to_nat (rt_bytes_left r)).
    set (n := if rt_bytes_left r <? Z.of_nat len then bl else len).
    assert (n = Nat.min len bl) as En by (unfold n, bl; destruct (Z.ltb_spec (rt_bytes_left r) (Z.of_nat len)); lia).
    unfold fread. fold rest. cbn [f_contents f_pos].
    assert (take len (take bl rest) = take n rest) as -> by (by rewrite take_take, En).
    assert (length (take n rest) = n) as El by (rewrite length_take; lia). rewrite El.
    destruct (Z.eqb_spec (rt_bytes_left r - Z.of_nat n) 0) as [E0|E0].
    + eexists. split; [reflexivity|]. split; [by split|]. split; [done|]. cbn [data_left rt_fp]. symmetry. apply nil_length_inv.
      rewrite length_drop, length_take. lia.
    + assert ((0 <? n)%nat && (n =? n)%nat = true) as ->
        by (rewrite Nat.eqb_refl, andb_true_r; apply Nat.ltb_lt; lia).
      eexists. split; [reflexivity|]. split; [|split; [done|]].
      * split; [done|]. cbn [rt_fp rt_bytes_left]. intros fp' [= <-]. cbn [f_contents f_pos]. rewrite <- drop_drop. fold rest.
        rewrite length_drop. lia.
      * cbn [data_left rt_fp rt_bytes_left f_contents f_pos]. rewrite <- drop_drop. fold rest. rewrite skipn_firstn_comm.
        assert (n = len) as -> by lia. f_equal. unfold bl. lia.
  - exists r. rewrite firstn_nil, drop_nil, app_nil_r. split; [done|]. split; [split; [done|by rewrite Efp]|]. by rewrite Efp.
Qed.

(** Every call hands out as much as fits of what is left, the header first and alone when the
    caller asks for it. *)
Lemma retrieve_run r len getHeaderOnly :
  rt_ok r → (0 < len)%nat → ∃ r' c, retrieve r len getHeaderOnly = (Z.of_nat (length c), c, r') ∧ rt_ok r' ∧
    if getHeaderOnly : bool
    then c = take len (header_left r) ∧ header_left r' = drop len (header_left r) ∧ data_left r' = data_left r
    else c = take len (header_left r ++ data_left r) ∧ header_left r' ++ data_left r' = drop len (header_left r ++ data_left r) ∧
         (header_left r = [] → header_left r' = []).
Proof.
  intros Hok Hlen. pose proof (length_header_left r Hok) as Hl. pose proof (rt_header_ok r Hok) as Hh. unfold retrieve.
  destruct (Nat.eqb_spec len 0); [lia|]. fold (header_left r).
  destruct (Nat.leb_spec len (rt_header_bytes_left r)) as [Hle|Hgt]; cbn [andb].
  - destruct (Nat.eqb_spec (rt_header_bytes_left r) 0); [lia|]. cbn [negb andb].
    assert (header_left (Retriever (rt_header r) (rt_fp r) (rt_header_bytes_left r - len) (rt_bytes_left r)) = drop len (header_left r)) as Hd.
    { unfold header_left. cbn [rt_header rt_header_bytes_left]. rewrite drop_drop. f_equal. lia. }
    eexists _, (take len (header_left r)). rewrite length_take, Hl, Nat.min_l by done. split; [reflexivity|].
    split; [split; [cbn; lia|apply Hok]|]. destruct getHeaderOnly; [done|].
    rewrite take_app_le, drop_app_le by lia. split_and!; [done|by rewrite Hd|]. intros E. rewrite E in Hl. cbn in Hl. lia.
  - rewrite andb_false_r. assert (take (rt_header_bytes_left r) (header_left r) = header_left r) as -> by (apply take_ge; lia).
    set (r0 := Retriever (rt_header r) (rt_fp r) 0 (rt_bytes_left r)).
    assert (rt_ok r0 ∧ header_left r0 = [] ∧ data_left r0 = data_left r) as (Hok0 & Hh0 & Hd0).
    { split; [split; [cbn; lia|apply Hok]|]. split; [|done]. unfold header_left. cbn. apply drop_ge. lia. }
    destruct getHeaderOnly.
    + exists r0, (header_left r). split; [done|]. split; [done|]. by rewrite take_ge, drop_ge by lia.
    + destruct (retrieve_file_run r0 (header_left r) (len - rt_header_bytes_left r) Hok0 ltac:(lia)) as (r' & -> & Hok' & Hh' & Hd').
      eexists r', _. split; [reflexivity|]. split; [done|]. rewrite Hd0 in *. rewrite Hh0 in Hh'. rewrite <- Hl in *. split_and!; [| |done].
      * rewrite take_app. by rewrite (take_ge (header_left r)) by lia.
      * rewrite Hh', Hd', drop_app. by rewrite (drop_ge (header_left r)) by lia.
Qed.

(** The retriever of an object whose file is there, in its full length. *)
Lemma retriever_run xmlNewNode xmlNewProp xmlNewChild xmlAddChild xmlDocDumpFormatMemory fs d raw d' contents :
  k_ABEStatus d = ABE_NOT_NEEDED → k_isForLocalApp d = false →
  getRawMetadataAlloc xmlNewNode xmlNewProp xmlNewChild xmlAddChild xmlDocDumpFormatMemory d = Some (Some raw, d') →
  trim_header raw ≠ [] → (0 < k_dataLen d → fs !! k_filepath d = Some contents) → 0 <= k_dataLen d <= Z.of_nat (length contents) →
  ∃ r, getDataObjectDataRetriever xmlNewNode xmlNewProp xmlNewChild xmlAddChild xmlDocDumpFormatMemory fs d = Some (Some r, d') ∧ rt_ok r ∧
       header_left r = trim_header raw ∧ data_left r = take (Z.to_nat (k_dataLen d)) contents.
Proof.
  intros Ha Hl Er Hne Hf Hlen. unfold getDataObjectDataRetriever, retriever_file, open_data. rewrite Ha, Hl. cbn [negb]. rewrite andb_true_r.
  assert (0 < length (trim_header raw))%nat as Hpos by (apply Nat.neq_0_lt_0; by intros ?%nil_length_inv).
  destruct (Z.ltb_spec 0 (k_dataLen d)) as [Hlt|Hge].
  - rewrite (Hf Hlt). cbn [mbind option_bind]. rewrite Er. cbn [mbind option_bind default from_option id]. rewrite (proj2 (Nat.ltb_lt _ _) Hpos).
    eexists. split; [reflexivity|]. split; [split; [done|intros fp [= <-]; cbn [rt_bytes_left f_pos f_contents]; rewrite drop_0; lia]|].
    unfold header_left, data_left. cbn [rt_header rt_header_bytes_left rt_fp rt_bytes_left f_pos f_contents]. by rewrite Nat.sub_diag, !drop_0.
  - rewrite Er. cbn [mbind option_bind default from_option id]. rewrite (proj2 (Nat.ltb_lt _ _) Hpos).
    eexists. split; [reflexivity|]. split; [split; cbn; [lia|done]|]. unfold header_left. cbn. rewrite Nat.sub_diag.
    by replace (Z.to_nat (k_dataLen d)) with 0%nat by lia.
Qed.

(** A file that was cut short ends the transfer early and without an error: the caller cannot tell
    it from the end of the object. *)
Lemma retrieve_short header contents n len :
  (length contents < len)%nat → Z.of_nat (length contents) < n →
  ∃ r', retrieve (Retriever header (Some (Fopen contents 0)) 0 n) len false = (Z.of_nat (length contents), contents, r') ∧
        ∀ len, retrieve r' len false = (0, [], r').
Proof.
  intros H1 H2. unfold retrieve, retrieve_file. cbn [rt_header_bytes_left rt_header rt_fp rt_bytes_left].
  destruct (Nat.eqb_spec len 0); [lia|]. cbn [negb Nat.eqb andb]. rewrite Nat.sub_0_r. change (take 0 _) with (@nil Z).
  set (k := if n <? Z.of_nat len then Z.to_nat n else len). assert (length contents < k)%nat by (unfold k; destruct (Z.ltb_spec n (Z.of_nat len)); lia).
  unfold fread. cbn [f_pos f_contents]. rewrite drop_0, take_ge by lia. cbn [app].
  destruct (Z.eqb_spec (n - Z.of_nat (length contents)) 0); [lia|]. destruct (Nat.eqb_spec (length contents) k); [lia|]. rewrite andb_false_r.
  rewrite (proj2 (Nat.ltb_lt _ _)) by done. eexists. split; [reflexivity|]. intros [|len']; [done|]. by cbn.
Qed.
