(* ===== verification/KernelTransfer.v ===== *)
(** * KernelTransfer: two kernels exchange a data object ([Protocol.cpp]).

    [sendDataObjectNow] and [receiveDataObject] as two state machines: a state is a place where the
    code waits for its socket, with the variables that are alive there, and a step is what it does
    from there on with what the socket answered, up to the next such place.  The sender writes the
    header, waits for ACCEPT or REJECT, writes the data and waits for ACK; the receiver puts what
    it reads into a data object ([KernelPut]), answers once it has the metadata, and again at the
    end.  The session and sequence numbers are those of the base class, which has none.  The receiver is not an
    instance for sending (a subclass whose [isSender] is true discards what it reads).  What the
    Bloom filters of the receiver's node say of an object are arguments; the counters, the filters'
    updates and the time an object took are left out.

    The theorem runs the two machines on a connection that is reliable and may cut the stream into
    any pieces. *)

From S2P Require Import Prelude Text Timeval Base64 Sha1 Attribute Metadata MetaTree MetadataXml DataObject.
From S2P Require Import CppString CppMap CppHashMap KernelMetadata KernelDataObject KernelPut KernelRetrieve.

Inductive ProtocolEvent :=
  | PROT_EVENT_ERROR_FATAL | PROT_EVENT_ERROR | PROT_EVENT_SUCCESS | PROT_EVENT_REJECT | PROT_EVENT_REJECT_PARENTDATAOBJECT
  | PROT_EVENT_TERMINATE | PROT_EVENT_SEND_FAILED | PROT_EVENT_RECV_FAILED | PROT_EVENT_TIMEOUT | PROT_EVENT_PEER_CLOSED
  | PROT_EVENT_SHOULD_EXIT | PROT_EVENT_NOT_CONNECTED | PROT_EVENT_TXQ_EMPTY | PROT_EVENT_TXQ_NEW_DATAOBJECT
  | PROT_EVENT_INCOMING_DATA | PROT_EVENT_WRITEABLE.
Inductive ProtocolError :=
  | PROT_ERROR_WOULD_BLOCK | PROT_ERROR_BAD_HANDLE | PROT_ERROR_CONNECTION_REFUSED | PROT_ERROR_INTERRUPTED
  | PROT_ERROR_INVALID_ARGUMENT | PROT_ERROR_NO_MEMORY | PROT_ERROR_NOT_CONNECTED | PROT_ERROR_CONNECTION_RESET
  | PROT_ERROR_NOT_A_SOCKET | PROT_ERROR_NO_STORAGE_SPACE | PROT_ERROR_SEQ_NUM | PROT_ERROR_UNKNOWN.
#[export] Instance ProtocolEvent_eq_dec : EqDecision ProtocolEvent.
Proof. solve_decision. Defined.
Definition success (e : ProtocolEvent) : bool := bool_decide (e = PROT_EVENT_SUCCESS).

(** ** Control messages *)

Definition CTRLMSG_TYPE_ACK : Z := 5.
Definition CTRLMSG_TYPE_ACCEPT : Z := 6.
Definition CTRLMSG_TYPE_REJECT : Z := 7.
Definition CTRLMSG_TYPE_TERMINATE : Z := 8.
Definition CTRLMSG_TYPE_REJECT_PARENTDATAOBJECT : Z := 9.
Record ctrlmsg := Ctrlmsg { cm_type : Z; cm_dobj_id : list Z }.

(** The errors after which a socket is given up. *)
Definition fatal (err : ProtocolError) : bool :=
  match err with
  | PROT_ERROR_BAD_HANDLE | PROT_ERROR_NOT_CONNECTED | PROT_ERROR_NOT_A_SOCKET | PROT_ERROR_CONNECTION_RESET => true
  | _ => false
  end.

(** What a socket answers to one who writes: the event of [waitForEvent] when it is not
    [PROT_EVENT_WRITEABLE], else what [sendData] says, its error and the number of bytes it took. *)
Inductive send_io := SendWait (e : ProtocolEvent) | SendData (e : ProtocolEvent) (err : ProtocolError) (bytesSent : nat).
(** The same to one who waits for a control message; [None] is a message of another size. *)
Inductive ctrl_io := CtrlWait (e : ProtocolEvent) | CtrlData (e : ProtocolEvent) (err : ProtocolError) (m : option ctrlmsg).
(** And to one who reads data, with the time. *)
Inductive get_io := GetWait (now : Timeval) (e : ProtocolEvent)
                  | GetData (now : Timeval) (e : ProtocolEvent) (err : ProtocolError) (data : list Z).
Inductive io := IoSend (i : send_io) | IoCtrl (i : ctrl_io) | IoGet (i : get_io).

(** [sendControlMessage]: the bytes it could send are not counted. *)
Definition sendControlMessage (i : send_io) : ProtocolEvent :=
  match i with
  | SendWait e => e
  | SendData PROT_EVENT_SUCCESS _ _ => PROT_EVENT_SUCCESS
  | SendData PROT_EVENT_PEER_CLOSED _ _ => PROT_EVENT_PEER_CLOSED
  | SendData e err _ => if fatal err then PROT_EVENT_ERROR_FATAL else e
  end.
(** One turn of the loop of [receiveControlMessage]: around again with the count of failed tries,
    or the answer. *)
Definition receiveControlMessage (maxBlockingTries blockCount : Z) (i : ctrl_io) : Z + (ProtocolEvent * option ctrlmsg) :=
  match i with
  | CtrlWait e => if success e then inl blockCount else inr (e, None)
  | CtrlData PROT_EVENT_SUCCESS _ (Some m) => inr (PROT_EVENT_SUCCESS, Some m)
  | CtrlData PROT_EVENT_SUCCESS _ None => inr (PROT_EVENT_ERROR, None)
  | CtrlData PROT_EVENT_ERROR err _ =>
    match err with
    | PROT_ERROR_SEQ_NUM => inl blockCount
    | PROT_ERROR_WOULD_BLOCK => if maxBlockingTries <? blockCount then inr (PROT_EVENT_ERROR, None) else inl (blockCount + 1)
    | err => inr (if fatal err then PROT_EVENT_ERROR_FATAL else PROT_EVENT_ERROR, None)
    end
  | CtrlData e _ _ => inr (e, None)
  end.

(** ** The sender *)

Section Sender.
Context (bufferSize : nat) (maxBlockingTries redundancy : Z) (isApplication : bool).

(** Writing [buf], of which [totBytes] are sent, for the [i]-th time of the redundancy; waiting for
    ACCEPT or REJECT; waiting for ACK; the answer of [sendDataObjectNow]. *)
Inductive sender :=
  | S_Write (r : retriever) (hasSentHeader : bool) (buf : list Z) (totBytes : nat) (blockCount i : Z)
  | S_Reply (r : retriever) (blockCount ctrlBlockCount : Z)
  | S_Ack (ctrlBlockCount : Z)
  | S_Return (e : ProtocolEvent).

(** From the head of the loop. *)
Definition send_loop (r : retriever) (hasSentHeader : bool) (blockCount : Z) : sender :=
  let '(len, data, r) := retrieve r bufferSize (negb hasSentHeader) in
  if len <? 0 then S_Return PROT_EVENT_ERROR
  else if 0 <? len then S_Write r hasSentHeader data 0 blockCount 0
  else if hasSentHeader then S_Ack 0
  else if isApplication then S_Return PROT_EVENT_SUCCESS
  else S_Reply r blockCount 0.

Definition sendDataObjectNow (r : option retriever) : sender :=
  match r with None => S_Return PROT_EVENT_ERROR | Some r => send_loop r false 0 end.

(** After [sendData]. *)
Definition sent_data (r : retriever) (hasSentHeader : bool) (buf : list Z) (totBytes : nat) (blockCount i : Z)
    (e : ProtocolEvent) (err : ProtocolError) (bytesSent : nat) : sender :=
  if success e && (i <? redundancy) then S_Write r hasSentHeader buf totBytes blockCount (i + 1)
  else match e with
  | PROT_EVENT_ERROR =>
    match err with
    | PROT_ERROR_WOULD_BLOCK =>
      if maxBlockingTries <? blockCount then S_Return PROT_EVENT_ERROR
      else S_Write r hasSentHeader buf totBytes (blockCount + 1) 0
    | err => S_Return (if fatal err then PROT_EVENT_ERROR_FATAL else PROT_EVENT_ERROR)
    end
  | e =>
    let totBytes := (totBytes + bytesSent)%nat in
    if negb (success e) then S_Return e
    else if (totBytes =? length buf)%nat then send_loop r hasSentHeader 0
    else S_Write r hasSentHeader buf totBytes 0 0
  end.

(** What the reply to the header means; after another message than these the sender waits for the
    ACK of data that it did not send. *)
Definition got_reply (r : retriever) (blockCount : Z) (m : ctrlmsg) : sender :=
  if cm_type m =? CTRLMSG_TYPE_ACCEPT then send_loop r true blockCount
  else if cm_type m =? CTRLMSG_TYPE_REJECT then S_Return PROT_EVENT_REJECT
  else if cm_type m =? CTRLMSG_TYPE_TERMINATE then S_Return PROT_EVENT_TERMINATE
  else if cm_type m =? CTRLMSG_TYPE_REJECT_PARENTDATAOBJECT then S_Return PROT_EVENT_REJECT_PARENTDATAOBJECT
  else S_Ack 0.

(** A step: the new state and the bytes written; [None] when the sender does not wait for that. *)
Definition sender_step (s : sender) (i : io) : option (sender * list Z) :=
  match s, i with
  | S_Write r hs buf tot bc k, IoSend (SendWait e) =>
    if success e || bool_decide (e = PROT_EVENT_WRITEABLE) || negb (k =? 0) then None else Some (S_Return e, [])
  | S_Write r hs buf tot bc k, IoSend (SendData e err n) =>
    Some (sent_data r hs buf tot bc k e err n, if success e then take n (drop tot buf) else [])
  | S_Reply r bc cbc, IoCtrl i =>
    Some (match receiveControlMessage maxBlockingTries cbc i with
          | inl cbc => S_Reply r bc cbc
          | inr (e, Some m) => if success e then got_reply r bc m else S_Return e
          | inr (e, None) => S_Return e
          end, [])
  | S_Ack cbc, IoCtrl i =>
    Some (match receiveControlMessage maxBlockingTries cbc i with
          | inl cbc => S_Ack cbc
          | inr (e, Some m) =>
            if success e then S_Return (if cm_type m =? CTRLMSG_TYPE_ACK then PROT_EVENT_SUCCESS else PROT_EVENT_ERROR) else S_Return e
          | inr (e, None) => S_Return e
          end, [])
  | _, _ => None
  end.
End Sender.

(** ** The receiver *)

(** The events for the other managers.  They carry a reference to the object, here the value it has
    when the event is made. *)
Inductive kernel_event :=
  | EVENT_TYPE_DATAOBJECT_INCOMING (d : kdobj) | EVENT_TYPE_DATAOBJECT_RECEIVED (d : kdobj) | EVENT_TYPE_DATAOBJECT_DELETED (d : kdobj).

(** The variables of [receiveDataObject]: the object, the buffer with the number of bytes in it,
    [bytesRemaining], [md], [incoming], the identifier in the control message; and the files and the
    events. *)
Record receiving := Receiving
  { rv_put : putting; rv_buffer : list Z; rv_bufferDataLen : nat; rv_remaining : Z; rv_md : bool; rv_incoming : bool;
    rv_id : list Z; rv_fs : files; rv_events : list kernel_event }.

(** Waiting for data; for the socket to take the reply or the ACK; the answer. *)
Inductive receiver :=
  | R_Get (blockCount : Z) (v : receiving)
  | R_Reply (type : Z) (v : receiving)
  | R_Ack (v : receiving)
  | R_Return (e : ProtocolEvent) (v : receiving).

Definition with_event (v : receiving) (incoming : bool) (ev : kernel_event) : receiving :=
  Receiving (rv_put v) (rv_buffer v) (rv_bufferDataLen v) (rv_remaining v) (rv_md v) incoming (rv_id v) (rv_fs v) (rv_events v ++ [ev]).
Definition rv_dobj (v : receiving) : kdobj := p_obj (rv_put v).

Section Receiver.
Context {SHA_CTX : Type} (SHA_Init : SHA_CTX) (SHA_Update : SHA_CTX → list Z → SHA_CTX) (SHA_Final : SHA_CTX → list Z).
Context (ctx_buf : list Z) (uninit_time : Timeval).
Context (xmlIsBlankNode : string → bool) (xmlNodeGetContent : xmlNode → string) (xmlParseMemory : list Z → option xmlNode).
Context (storagepath : string) (can_open : string → bool).
Context (bufferSize : nat) (maxBlockingTries : Z).
(** The Bloom filter of this node. *)
Context (has : list Z → bool) (hasFragmentationParentDataObject hasNetworkCodingParentDataObject : kdobj → bool).

Abbreviation put := (putData SHA_Init SHA_Update SHA_Final ctx_buf uninit_time xmlIsBlankNode xmlNodeGetContent xmlParseMemory storagepath can_open).

Definition reply_to (d : kdobj) : Z :=
  if has (k_id d) then CTRLMSG_TYPE_REJECT
  else if hasFragmentationParentDataObject d then CTRLMSG_TYPE_REJECT_PARENTDATAOBJECT
  else if hasNetworkCodingParentDataObject d then CTRLMSG_TYPE_REJECT_PARENTDATAOBJECT
  else CTRLMSG_TYPE_ACCEPT.

(** The end of the function's loop, and of a turn of it. *)
Definition receive_end (e : ProtocolEvent) (v : receiving) : receiver :=
  if success e then R_Ack v
  else R_Return e (if rv_incoming v then with_event v true (EVENT_TYPE_DATAOBJECT_DELETED (rv_dobj v)) else v).
Definition receive_next (e : ProtocolEvent) (v : receiving) : receiver :=
  if negb (rv_remaining v =? 0) && success e then R_Get 0 v else receive_end e v.

(** [removeData] *)
Definition removeData (buffer : list Z) (bufferDataLen len : nat) : list Z * nat :=
  if (bufferDataLen <=? len)%nat then (buffer, 0%nat)
  else (take (bufferDataLen - len) (drop len buffer) ++ drop (bufferDataLen - len) buffer, (bufferDataLen - len)%nat).

(** What is done with the data that [getData] left in the buffer. *)
Definition put_received (now : Timeval) (e : ProtocolEvent) (v : receiving) : option receiver :=
  if (rv_bufferDataLen v =? 0)%nat then Some (receive_next e v)
  else
    r ← put (rv_fs v) now (rv_put v) (take (rv_bufferDataLen v) (rv_buffer v)) false;
    let '((bytesPut, remaining), st, fs) := r in
    let remaining := default (rv_remaining v) remaining in
    if bytesPut <? 0
    then Some (receive_end PROT_EVENT_ERROR
                 (Receiving st (rv_buffer v) (rv_bufferDataLen v) remaining (rv_md v) (rv_incoming v) (rv_id v) fs (rv_events v)))
    else
      let '(buffer, bufferDataLen) := removeData (rv_buffer v) (rv_bufferDataLen v) (Z.to_nat bytesPut) in
      Some (if negb (remaining =? DATAOBJECT_METADATA_PENDING) && negb (rv_md v)
            then R_Reply (reply_to (p_obj st))
                   (Receiving st buffer bufferDataLen remaining true (rv_incoming v) (k_id (p_obj st)) fs (rv_events v))
            else receive_next e (Receiving st buffer bufferDataLen remaining (rv_md v) (rv_incoming v) (rv_id v) fs (rv_events v))).

(** After [getData]: the events that leave the loop, and the others. *)
Definition got_data (now : Timeval) (e : ProtocolEvent) (v : receiving) : option receiver :=
  match e with
  | PROT_EVENT_PEER_CLOSED | PROT_EVENT_ERROR_FATAL | PROT_EVENT_ERROR | PROT_EVENT_TIMEOUT => Some (receive_end e v)
  | e => put_received now e v
  end.

(** What [getData] may still read.  It reads to the start of the buffer, whatever is there. *)
Definition read_len (v : receiving) : nat := bufferSize - rv_bufferDataLen v.
Definition getData (blockCount : Z) (v : receiving) (i : get_io) : option receiver :=
  match i with
  | GetWait now e =>
    if success e || bool_decide (e = PROT_EVENT_INCOMING_DATA) then None else got_data now e v
  | GetData now e err data =>
    if (read_len v =? 0)%nat then got_data now PROT_EVENT_ERROR v
    else match e with
    | PROT_EVENT_SUCCESS =>
      if (length data =? 0)%nat then Some (R_Get blockCount v)
      else put_received now e (Receiving (rv_put v) (data ++ drop (length data) (rv_buffer v)) (rv_bufferDataLen v + length data)
                            (rv_remaining v) (rv_md v) (rv_incoming v) (rv_id v) (rv_fs v) (rv_events v))
    | PROT_EVENT_ERROR =>
      match err with
      | PROT_ERROR_BAD_HANDLE | PROT_ERROR_NOT_CONNECTED | PROT_ERROR_NOT_A_SOCKET => got_data now PROT_EVENT_ERROR_FATAL v
      | PROT_ERROR_CONNECTION_RESET => got_data now PROT_EVENT_PEER_CLOSED v
      | PROT_ERROR_WOULD_BLOCK =>
        if blockCount <? maxBlockingTries then Some (R_Get (blockCount + 1) v) else got_data now PROT_EVENT_ERROR_FATAL v
      | _ => got_data now PROT_EVENT_ERROR v
      end
    | e => got_data now e v
    end
  end.

Definition receiveDataObject (buffer : list Z) (fs : files) : receiver :=
  R_Get 0 (Receiving create_for_putting buffer 0 DATAOBJECT_METADATA_PENDING false false [] fs []).

(** A step: the new state and the control message written. *)
Definition receiver_step (r : receiver) (i : io) : option (receiver * option ctrlmsg) :=
  match r, i with
  | R_Get bc v, IoGet i => r ← getData bc v i; Some (r, None)
  | R_Reply type v, IoSend i =>
    let e := sendControlMessage i in
    let m := if success e then Some (Ctrlmsg type (rv_id v)) else None in
    Some (if type =? CTRLMSG_TYPE_ACCEPT
          then receive_next e (with_event v true (EVENT_TYPE_DATAOBJECT_INCOMING (rv_dobj v)))
          else R_Return e v, m)
  | R_Ack v, IoSend i =>
    let m := if success (sendControlMessage i) then Some (Ctrlmsg CTRLMSG_TYPE_ACK (rv_id v)) else None in
    Some (R_Return PROT_EVENT_SUCCESS (with_event v (rv_incoming v) (EVENT_TYPE_DATAOBJECT_RECEIVED (rv_dobj v))), m)
  | _, _ => None
  end.
End Receiver.

(** ** Two kernels on one connection *)

(** The two parties, the bytes on their way and the control messages on their way back. *)
Record net := Net { n_sender : sender; n_stream : list Z; n_replies : list ctrlmsg; n_receiver : receiver }.

Section Network.
Context {SHA_CTX : Type} (SHA_Init : SHA_CTX) (SHA_Update : SHA_CTX → list Z → SHA_CTX) (SHA_Final : SHA_CTX → list Z).
Context (ctx_buf : list Z) (uninit_time : Timeval).
Context (xmlIsBlankNode : string → bool) (xmlNodeGetContent : xmlNode → string) (xmlParseMemory : list Z → option xmlNode).
Context (storagepath : string) (can_open : string → bool).
Context (send_size recv_size : nat) (maxBlockingTries : Z).
Context (has : list Z → bool) (hasFragmentationParentDataObject hasNetworkCodingParentDataObject : kdobj → bool).

Abbreviation sstep := (sender_step send_size maxBlockingTries 0 false).
Abbreviation rstep := (receiver_step SHA_Init SHA_Update SHA_Final ctx_buf uninit_time xmlIsBlankNode xmlNodeGetContent xmlParseMemory
  storagepath can_open recv_size maxBlockingTries has hasFragmentationParentDataObject hasNetworkCodingParentDataObject).
Abbreviation parse := (parse_header SHA_Init SHA_Update SHA_Final ctx_buf uninit_time xmlIsBlankNode xmlNodeGetContent xmlParseMemory).
Abbreviation put := (putData SHA_Init SHA_Update SHA_Final ctx_buf uninit_time xmlIsBlankNode xmlNodeGetContent xmlParseMemory storagepath can_open).
Abbreviation restore := (restoreEncryptedDataObject SHA_Init SHA_Update SHA_Final).
Abbreviation reply := (reply_to has hasFragmentationParentDataObject hasNetworkCodingParentDataObject).
Abbreviation sloop := (send_loop send_size false).

(** The connection loses nothing and keeps the order; a write takes, and a read gets, any positive
    number of the bytes there are; a control message is read whole. *)
Inductive net_step : net → net → Prop :=
  | net_write s s' stream replies v n err data :
      sstep s (IoSend (SendData PROT_EVENT_SUCCESS err n)) = Some (s', data) → (0 < n)%nat → length data = n →
      net_step (Net s stream replies v) (Net s' (stream ++ data) replies v)
  | net_read s bc v r' chunk stream replies now err :
      rstep (R_Get bc v) (IoGet (GetData now PROT_EVENT_SUCCESS err chunk)) = Some (r', None) →
      isValid now = true → chunk ≠ [] → (length chunk <= read_len recv_size v)%nat →
      net_step (Net s (chunk ++ stream) replies (R_Get bc v)) (Net s stream replies r')
  | net_answer s stream replies r r' m err n :
      rstep r (IoSend (SendData PROT_EVENT_SUCCESS err n)) = Some (r', Some m) →
      net_step (Net s stream replies r) (Net s stream (replies ++ [m]) r')
  | net_reply s s' stream replies m r err :
      sstep s (IoCtrl (CtrlData PROT_EVENT_SUCCESS err (Some m))) = Some (s', []) →
      net_step (Net s stream (m :: replies) r) (Net s' stream replies r).

(** ** The sender's side of the invariant *)

(** A sender in the phase of the header ([hs = false]) or of the data, with the bytes [rest] to be
    written in that phase and [after] in the next. *)
Inductive sending (hs : bool) (after : list Z) : sender → list Z → Prop :=
  | sending_write r buf tot bc rest :
      rt_ok r → (tot < length buf)%nat →
      rest = drop tot buf ++ (if hs then header_left r ++ data_left r else header_left r) →
      (if hs then header_left r = [] ∧ after = [] else after = data_left r) →
      sending hs after (S_Write r hs buf tot bc 0) rest
  | sending_reply r bc : hs = false → rt_ok r → header_left r = [] → after = data_left r → sending hs after (S_Reply r bc 0) []
  | sending_ack : hs = true → after = [] → sending hs after (S_Ack 0) [].

Hypothesis send_size_pos : (0 < send_size)%nat.

Lemma sending_loop hs r bc :
  rt_ok r → (hs = true → header_left r = []) →
  sending hs (if hs then [] else data_left r) (sloop r hs bc) (if hs then header_left r ++ data_left r else header_left r).
Proof using send_size_pos.
  intros Hok Hh. unfold send_loop. destruct (retrieve_run r send_size (negb hs) Hok send_size_pos) as (r' & c & -> & Hok' & H).
  destruct (Z.ltb_spec (Z.of_nat (length c)) 0); [lia|]. destruct hs; cbn [negb] in *.
  - destruct H as (Hc & Hr & Hn). specialize (Hh eq_refl). destruct (Z.ltb_spec 0 (Z.of_nat (length c))) as [Hlt|Hge].
    + apply sending_write; [done|lia|rewrite drop_0, Hc, Hr; by rewrite take_drop|auto].
    + assert (c = []) as -> by (apply nil_length_inv; lia). destruct (header_left r ++ data_left r) as [|x l]; [by apply sending_ack|].
      destruct send_size; [lia|done].
  - destruct H as (Hc & Hr & Hd). destruct (Z.ltb_spec 0 (Z.of_nat (length c))) as [Hlt|Hge].
    + apply sending_write; [done|lia|rewrite drop_0, Hc, Hr; by rewrite take_drop|done].
    + assert (c = []) as -> by (apply nil_length_inv; lia). destruct (header_left r) as [|x l] eqn:E; [|destruct send_size; [lia|done]].
      apply sending_reply; [done|done|by rewrite Hr, drop_nil|done].
Qed.

Lemma sending_step hs after s rest s' err n data :
  sending hs after s rest → sstep s (IoSend (SendData PROT_EVENT_SUCCESS err n)) = Some (s', data) → (0 < n)%nat → length data = n →
  ∃ rest', rest = data ++ rest' ∧ sending hs after s' rest'.
Proof using send_size_pos.
  intros H E Hn Hl. destruct H as [r buf tot bc rest Hok Htot Hrest Hafter| |]; [|done..]. cbn [sender_step] in E. injection E as <- <-.
  change (success PROT_EVENT_SUCCESS) with true. cbn [andb]. rewrite length_take, length_drop in Hl.
  set (left := if hs then header_left r ++ data_left r else header_left r) in *.
  exists (drop (tot + n) buf ++ left). split.
  - rewrite Hrest, app_assoc. f_equal. rewrite <- drop_drop. by rewrite take_drop.
  - unfold sent_data. change (success PROT_EVENT_SUCCESS) with true. cbn [andb negb Z.ltb Z.compare].
    destruct (Nat.eqb_spec (tot + n) (length buf)) as [E|E].
    + rewrite drop_ge by lia. cbn [app]. unfold left. destruct hs; destruct_and? Hafter; subst after.
      * by apply (sending_loop true).
      * by apply (sending_loop false).
    + apply sending_write; [done|lia|done|done].
Qed.

Lemma sending_can hs after s rest err :
  sending hs after s rest → rest ≠ [] → ∃ s' data, sstep s (IoSend (SendData PROT_EVENT_SUCCESS err 1)) = Some (s', data) ∧ length data = 1%nat.
Proof.
  intros [r buf tot bc rest' Hok Htot _ _| |] Hne; [|done..]. eexists _, _. split; [reflexivity|]. change (success PROT_EVENT_SUCCESS) with true. cbv beta iota. rewrite length_take, length_drop. lia.
Qed.

(** ** The receiver's side *)

Lemma read_all now v chunk err bc st fs rem :
  rv_bufferDataLen v = 0%nat → chunk ≠ [] → (length chunk <= read_len recv_size v)%nat →
  put (rv_fs v) now (rv_put v) chunk false = Some ((Z.of_nat (length chunk), Some rem), st, fs) →
  ∃ buffer, rstep (R_Get bc v) (IoGet (GetData now PROT_EVENT_SUCCESS err chunk)) =
    Some (if negb (rem =? DATAOBJECT_METADATA_PENDING) && negb (rv_md v)
          then R_Reply (reply (p_obj st)) (Receiving st buffer 0 rem true (rv_incoming v) (k_id (p_obj st)) fs (rv_events v))
          else receive_next PROT_EVENT_SUCCESS (Receiving st buffer 0 rem (rv_md v) (rv_incoming v) (rv_id v) fs (rv_events v)), None).
Proof.
  intros Hdl Hne Hfit Eput. assert (length chunk ≠ 0)%nat as Hlc by by intros ?%nil_length_inv.
  exists (chunk ++ drop (length chunk) (rv_buffer v)). cbn [receiver_step getData].
  destruct (Nat.eqb_spec (read_len recv_size v) 0); [lia|]. destruct (Nat.eqb_spec (length chunk) 0); [done|]. unfold put_received.
  cbn [rv_bufferDataLen rv_buffer rv_fs rv_put rv_remaining rv_md rv_incoming rv_id rv_events]. rewrite Hdl, Nat.add_0_l.
  destruct (Nat.eqb_spec (length chunk) 0); [done|]. rewrite take_app_length, Eput. cbn [mbind option_bind default from_option id].
  destruct (Z.ltb_spec (Z.of_nat (length chunk)) 0); [lia|]. unfold removeData. rewrite Nat2Z.id, Nat.leb_refl. done.
Qed.

(** The object [d] that the header [h] describes, and the data [b]. *)
Context (fs0 : files) (h b : list Z) (d : kdobj).
Hypothesis header_ok : is_header h.
Hypothesis header_parsed : parse fs0 kdobj_new h = Some (true, d).
Hypothesis data_expected : expected d = Z.of_nat (length b).
Hypothesis data_countable : Z.of_nat (length b) ≠ DATAOBJECT_METADATA_PENDING.
Hypothesis files_open : ∀ path, can_open path = true.

(** The object at the time its header is complete, when it gets a path for its data, and when the
    data is complete. *)
Definition announced (now : Timeval) : option kdobj := if expected d =? 0 then Some d else createFilePath storagepath now d.
Definition completed (o : kdobj) : option kdobj := if expected d =? 0 then Some o else restore o.
Definition files_with (o : kdobj) (got : list Z) : files := if expected d =? 0 then fs0 else <[k_filepath o := got]> fs0.

Lemma header_keeps : is_Some (k_metadata d) ∧ attrs_ok d.
Proof using header_parsed. apply (parsed_header _ _ _ _ _ _ _ _ _ _ _ header_parsed). Qed.
Lemma announced_run now : isValid now = true → ∃ o o', announced now = Some o ∧ completed o = Some o' ∧ is_Some (k_metadata o) ∧ attrs_ok o.
Proof using header_parsed.
  intros Hv. destruct header_keeps as [Hm Ha]. unfold announced, completed. destruct (Z.eqb_spec (expected d) 0) as [E|E]; [by exists d, d|].
  destruct (createFilePath_run storagepath now d Ha Hv) as [path Ep]. rewrite Ep. eexists.
  destruct (restore_run SHA_Init SHA_Update SHA_Final (set_file d (k_filename d) path (k_dataLen d) (k_origDataLen d))) as [o' Eo]; [exact Ha|].
  exists o'. by split_and!.
Qed.

(** Reading the header. *)
Record heading (got : list Z) (v : receiving) : Prop := Heading
  { hd_put : rv_put v = Put kdobj_new (Some (PDd got None 0)); hd_len : rv_bufferDataLen v = 0%nat;
    hd_md : rv_md v = false; hd_incoming : rv_incoming v = false; hd_fs : rv_fs v = fs0; hd_events : rv_events v = [] }.
(** Having announced the object [o], and read [got] of the data. *)
Record bodying (o : kdobj) (got : list Z) (v : receiving) : Prop := Bodying
  { bd_put : rv_put v = if expected d =? 0 then Put d None
                        else Put o (Some (PDd [] (Some (k_filepath o)) (Z.of_nat (length b) - Z.of_nat (length got))));
    bd_len : rv_bufferDataLen v = 0%nat; bd_md : rv_md v = true; bd_id : rv_id v = k_id o;
    bd_remaining : rv_remaining v = Z.of_nat (length b) - Z.of_nat (length got); bd_fs : rv_fs v = files_with o got }.

Lemma heading_more got v chunk rest bc now err :
  heading got v → h = got ++ chunk ++ rest → rest ≠ [] → chunk ≠ [] → (length chunk <= read_len recv_size v)%nat →
  ∃ v', rstep (R_Get bc v) (IoGet (GetData now PROT_EVENT_SUCCESS err chunk)) = Some (R_Get 0 v', None) ∧ heading (got ++ chunk) v'.
Proof using header_ok send_size_pos.
  intros H E Hr Hc Hfit. destruct (read_all now v chunk err bc (Put kdobj_new (Some (PDd (got ++ chunk) None 0))) fs0 DATAOBJECT_METADATA_PENDING)
    as (buffer & ->); [apply H|done|done| |].
  - rewrite (hd_put _ _ H), (hd_fs _ _ H). apply (put_more _ _ _ _ _ _ _ _ _ _ _ _ _ h got chunk rest); done.
  - cbn [negb Z.eqb Pos.eqb andb]. eexists. split; [reflexivity|]. destruct H. by split.
Qed.

Lemma heading_last got v chunk bc now err :
  heading got v → h = got ++ chunk → chunk ≠ [] → (length chunk <= read_len recv_size v)%nat → isValid now = true →
  ∃ o v', announced now = Some o ∧ rstep (R_Get bc v) (IoGet (GetData now PROT_EVENT_SUCCESS err chunk)) = Some (R_Reply (reply o) v', None) ∧
    bodying o [] v' ∧ rv_incoming v' = false ∧ rv_events v' = [] ∧ rv_dobj v' = o.
Proof using All.
  intros H E Hc Hfit Hv. destruct (announced_run now Hv) as (o & _ & Eo & _ & _). destruct header_keeps as [Hm _].
  pose proof (put_last SHA_Init SHA_Update SHA_Final ctx_buf uninit_time xmlIsBlankNode xmlNodeGetContent xmlParseMemory storagepath can_open
    fs0 now kdobj_new d h got chunk [] header_ok E Hc eq_refl header_parsed Hm) as Ep.
  rewrite app_nil_r in Ep. specialize (Ep ltac:(pose proof (ih_fits _ header_ok); cbn; lia)).
  exists o. unfold announced in Eo. destruct (read_all now v chunk err bc
    (if expected d =? 0 then Put d None else Put o (Some (PDd [] (Some (k_filepath o)) (expected d)))) (files_with o []) (expected d))
    as (buffer & ->); [apply H|done|done| |].
  - rewrite (hd_put _ _ H), (hd_fs _ _ H), Ep. unfold files_with. destruct (Z.eqb_spec (expected d) 0) as [Ez|Ez]; [by rewrite Ez|].
    rewrite Eo. cbn [mbind option_bind]. by rewrite files_open.
  - rewrite data_expected in *. destruct (Z.eqb_spec (Z.of_nat (length b)) DATAOBJECT_METADATA_PENDING); [done|].
    rewrite (hd_md _ _ H). cbn [negb andb].
    assert (p_obj (if Z.of_nat (length b) =? 0 then Put d None else Put o (Some (PDd [] (Some (k_filepath o)) (Z.of_nat (length b))))) = o) as Epo
      by (destruct (Z.of_nat (length b) =? 0); [by injection Eo|done]).
    rewrite Epo. eexists. split; [unfold announced; by rewrite data_expected|]. split; [reflexivity|]. split_and!; [|apply H|apply H|done].
    split; cbn; rewrite ?data_expected, ?Z.sub_0_r; done.
Qed.

(** The receiver in the phase of the data, having read [got], with the control messages it has
    written since the reply and the number of those it will have, counted with their steps. *)
Inductive receiving_data (o o' : kdobj) : receiver → list Z → list ctrlmsg → nat → Prop :=
  | receiving_get bc v got :
      bodying o got v → (length got < length b)%nat → rv_incoming v = true → rv_events v = [EVENT_TYPE_DATAOBJECT_INCOMING o] →
      receiving_data o o' (R_Get bc v) got [] 2
  | receiving_ack v :
      rv_put v = Put o' None → rv_fs v = files_with o b → rv_id v = k_id o → rv_events v = [EVENT_TYPE_DATAOBJECT_INCOMING o] →
      receiving_data o o' (R_Ack v) b [] 2
  | receiving_return v :
      rv_put v = Put o' None → rv_fs v = files_with o b →
      rv_events v = [EVENT_TYPE_DATAOBJECT_INCOMING o; EVENT_TYPE_DATAOBJECT_RECEIVED o'] →
      receiving_data o o' (R_Return PROT_EVENT_SUCCESS v) b [Ctrlmsg CTRLMSG_TYPE_ACK (k_id o)] 1.

Lemma accept_step now o o' v err n :
  announced now = Some o → completed o = Some o' → bodying o [] v → rv_incoming v = false → rv_events v = [] → rv_dobj v = o →
  ∃ r', rstep (R_Reply CTRLMSG_TYPE_ACCEPT v) (IoSend (SendData PROT_EVENT_SUCCESS err n)) =
        Some (r', Some (Ctrlmsg CTRLMSG_TYPE_ACCEPT (k_id o))) ∧ receiving_data o o' r' [] [] 2.
Proof using All.
  intros Eo Eo' H Hi He Hd. pose proof (bd_remaining _ _ _ H) as Hr. cbn [length] in Hr. rewrite Z.sub_0_r in Hr. eexists. split.
  - cbn [receiver_step sendControlMessage]. change (success PROT_EVENT_SUCCESS) with true. rewrite (bd_id _ _ _ H). reflexivity.
  - change (CTRLMSG_TYPE_ACCEPT =? CTRLMSG_TYPE_ACCEPT) with true. cbv iota. unfold receive_next, receive_end.
    cbn [with_event rv_remaining rv_incoming]. rewrite Hr, Hd. unfold with_event. cbn [rv_events]. rewrite He. cbn [app].
    destruct (Z.eqb_spec (Z.of_nat (length b)) 0) as [Ez|Ez]; cbn [negb andb].
    + change (success PROT_EVENT_SUCCESS) with true. cbv iota. assert (b = []) as Eb by (apply nil_length_inv; lia). rewrite <- Eb.
      assert (expected d = 0) as Ex by by rewrite data_expected. unfold announced, completed in *. rewrite Ex in *. cbn in Eo, Eo'.
      injection Eo as <-. injection Eo' as <-. pose proof (bd_put _ _ _ H) as Hp. pose proof (bd_fs _ _ _ H) as Hf. rewrite Ex in Hp.
      apply receiving_ack; [done| |apply H|done]. cbn [rv_fs]. rewrite Hf, Eb. done.
    + change (success PROT_EVENT_SUCCESS) with true. cbv iota. apply receiving_get; [|cbn; lia|done|done]. destruct H. by split.
Qed.

Lemma body_step now0 o o' bc v got acks w chunk rest now err :
  announced now0 = Some o → completed o = Some o' → is_Some (k_metadata o) → receiving_data o o' (R_Get bc v) got acks w →
  b = got ++ chunk ++ rest → chunk ≠ [] → (length chunk <= read_len recv_size v)%nat →
  ∃ r', rstep (R_Get bc v) (IoGet (GetData now PROT_EVENT_SUCCESS err chunk)) = Some (r', None) ∧ receiving_data o o' r' (got ++ chunk) [] 2.
Proof using All.
  intros Eo Eo' Hm Hrd E Hc Hfit. inversion Hrd as [bc0 v0 got0 H Hlt Hi He| |]; subst.
  assert (length b = length got + length chunk + length rest)%nat as Hlb by (rewrite E, !length_app; lia).
  assert (length chunk ≠ 0)%nat as Hlc by by intros ?%nil_length_inv.
  pose proof (bd_put _ _ _ H) as Hp. pose proof (bd_fs _ _ _ H) as Hf. unfold files_with, completed in *. rewrite data_expected in *.
  destruct (Z.eqb_spec (Z.of_nat (length b)) 0) as [Ez|Ez]; [lia|].
  set (left := Z.of_nat (length b) - Z.of_nat (length got)) in *. set (left' := left - Z.of_nat (length chunk)).
  set (full := Z.of_nat (length chunk) <? left).
  destruct (read_all now v chunk err bc (if full then Put o (Some (PDd [] (Some (k_filepath o)) left')) else Put o' None)
              (<[k_filepath o := got ++ chunk]> fs0) left') as (buffer & ->); [apply H|done|done| |].
  { rewrite Hp, Hf. rewrite (put_body _ _ _ _ _ _ _ _ _ _ _ now o (k_filepath o) left chunk got);
      [|done|by rewrite lookup_insert_eq|done|unfold left; lia].
    fold left' full. rewrite insert_insert_eq. unfold full. destruct (Z.ltb_spec (Z.of_nat (length chunk)) left) as [Hl|Hl]; [done|].
    rewrite Eo'. cbn [mbind option_bind]. by replace left' with 0 by (unfold left', left in *; lia). }
  rewrite (bd_md _ _ _ H). cbn [negb]. rewrite andb_false_r. eexists. split; [reflexivity|].
  unfold receive_next, receive_end. change (success PROT_EVENT_SUCCESS) with true. cbn [rv_remaining rv_incoming]. rewrite andb_true_r.
  unfold full. destruct (Z.eqb_spec left' 0) as [E0|E0]; cbn [negb].
  - destruct (Z.ltb_spec (Z.of_nat (length chunk)) left); [unfold left' in *; lia|].
    assert (rest = []) as -> by (apply nil_length_inv; unfold left', left in *; lia). rewrite app_nil_r in E. rewrite <- E.
    apply receiving_ack; [done| |apply H|done]. cbn [rv_fs]. unfold files_with. rewrite data_expected. by destruct (Z.eqb_spec (Z.of_nat (length b)) 0).
  - destruct (Z.ltb_spec (Z.of_nat (length chunk)) left); [|unfold left', left in *; lia].
    apply receiving_get; [|rewrite length_app; unfold left', left in *; lia|done|done].
    split; cbn [rv_put rv_bufferDataLen rv_md rv_id rv_remaining rv_fs].
    + rewrite data_expected. destruct (Z.eqb_spec (Z.of_nat (length b)) 0); [done|]. rewrite length_app. do 3 f_equal. unfold left', left. lia.
    + done.
    + done.
    + apply H.
    + rewrite length_app. unfold left', left. lia.
    + unfold files_with. rewrite data_expected. by destruct (Z.eqb_spec (Z.of_nat (length b)) 0).
Qed.

(** ** The transfer *)

(** What the sender is told of an object that the receiver does not want. *)
Definition refusal (type : Z) : ProtocolEvent :=
  if type =? CTRLMSG_TYPE_REJECT then PROT_EVENT_REJECT else PROT_EVENT_REJECT_PARENTDATAOBJECT.

(** The end of a transfer: the object is in the receiver's hands with its data, or the receiver did
    not want it, and no data was sent and no manager told. *)
Inductive transferred : net → Prop :=
  | transferred_all now o o' v :
      announced now = Some o → reply o = CTRLMSG_TYPE_ACCEPT → completed o = Some o' → rv_put v = Put o' None → rv_fs v = files_with o b →
      rv_events v = [EVENT_TYPE_DATAOBJECT_INCOMING o; EVENT_TYPE_DATAOBJECT_RECEIVED o'] →
      transferred (Net (S_Return PROT_EVENT_SUCCESS) [] [] (R_Return PROT_EVENT_SUCCESS v))
  | transferred_header now v :
      announced now = Some (rv_dobj v) → reply (rv_dobj v) ≠ CTRLMSG_TYPE_ACCEPT → rv_fs v = files_with (rv_dobj v) [] → rv_events v = [] →
      transferred (Net (S_Return (refusal (reply (rv_dobj v)))) [] [] (R_Return PROT_EVENT_SUCCESS v)).

(** Every state of a transfer, with the number of steps that may still come. *)
Inductive transferring : nat → net → Prop :=
  | in_header s rest stream got bc v :
      sending false b s rest → h = got ++ stream ++ rest → stream ++ rest ≠ [] → heading got v →
      transferring (2 * length rest + length stream + 2 * length b + 4) (Net s stream [] (R_Get bc v))
  | in_reply s now v :
      sending false b s [] → announced now = Some (rv_dobj v) → isValid now = true → bodying (rv_dobj v) [] v → rv_incoming v = false →
      rv_events v = [] → transferring (2 * length b + 4) (Net s [] [] (R_Reply (reply (rv_dobj v)) v))
  | in_refusal s now v :
      sending false b s [] → announced now = Some (rv_dobj v) → reply (rv_dobj v) ≠ CTRLMSG_TYPE_ACCEPT →
      rv_fs v = files_with (rv_dobj v) [] → rv_events v = [] →
      transferring 1 (Net s [] [Ctrlmsg (reply (rv_dobj v)) (k_id (rv_dobj v))] (R_Return PROT_EVENT_SUCCESS v))
  | in_accept s now o o' r acks w :
      sending false b s [] → announced now = Some o → completed o = Some o' → is_Some (k_metadata o) → reply o = CTRLMSG_TYPE_ACCEPT →
      receiving_data o o' r [] acks w →
      transferring (2 * length b + 1 + w) (Net s [] (Ctrlmsg CTRLMSG_TYPE_ACCEPT (k_id o) :: acks) r)
  | in_data s rest stream got now o o' r acks w :
      sending true [] s rest → b = got ++ stream ++ rest → announced now = Some o → completed o = Some o' → is_Some (k_metadata o) →
      reply o = CTRLMSG_TYPE_ACCEPT → receiving_data o o' r got acks w →
      transferring (2 * length rest + length stream + w) (Net s stream acks r)
  | at_end st : transferred st → transferring 0 st.

Lemma sending_no_rest hs after s s' err n data :
  sending hs after s [] → sstep s (IoSend (SendData PROT_EVENT_SUCCESS err n)) = Some (s', data) → (0 < n)%nat → length data = n → False.
Proof using All.
  intros H E Hn Hl. destruct (sending_step hs after s [] s' err n data H E Hn Hl) as (rest' & Hr & _).
  destruct data; [cbn in Hl; lia|done].
Qed.

Lemma write_keeps n s s' stream replies r m err data :
  transferring n (Net s stream replies r) → sstep s (IoSend (SendData PROT_EVENT_SUCCESS err m)) = Some (s', data) → (0 < m)%nat →
  length data = m → ∃ n', (n' < n)%nat ∧ transferring n' (Net s' (stream ++ data) replies r).
Proof using All.
  intros H E Hm Hl. inversion H as [? rest ? got bc v Hs Eh Hne Hv|? now v Hs| |? now o o' ? acks w Hs|? rest ? got now o o' ? acks w Hs Eb Ho Ho' Hmo Hrep Hr|? Ht];
    subst; try (exfalso; by eapply sending_no_rest).
  - destruct (sending_step false b s rest s' err _ data Hs E Hm eq_refl) as (rest' & -> & Hs'). rewrite app_assoc in Eh, Hne. eexists. split; [|eapply in_header; try done].
    + rewrite !length_app. lia.
    + by rewrite Eh, <- !app_assoc.
  - destruct (sending_step true [] s rest s' err _ data Hs E Hm eq_refl) as (rest' & -> & Hs'). eexists. split; [|eapply in_data; try done].
    + rewrite !length_app. lia.
    + by rewrite <- app_assoc.
  - inversion Ht; subst; done.
Qed.

Lemma read_keeps n s stream chunk replies r' bc v now err :
  transferring n (Net s (chunk ++ stream) replies (R_Get bc v)) →
  rstep (R_Get bc v) (IoGet (GetData now PROT_EVENT_SUCCESS err chunk)) = Some (r', None) →
  isValid now = true → chunk ≠ [] → (length chunk <= read_len recv_size v)%nat →
  ∃ n', (n' < n)%nat ∧ transferring n' (Net s stream replies r').
Proof using All.
  intros H E Hv Hc Hfit. assert (length chunk ≠ 0)%nat as Hlc by by intros ?%nil_length_inv.
  inversion H as [? rest st got bc0 v0 Hs Eh Hne Hh| | |? ? ? ? ? acks w Hs Ho Ho' Hmo Hrep Hr Est|? rest st got now0 o o' r acks w Hs Eb Ho Ho' Hmo Hrep Hr|? Ht];
    subst; try (destruct chunk; done).
  - rewrite <- app_assoc in Eh. destruct (decide (stream ++ rest = [])) as [Ee|Ee].
    + apply app_eq_nil in Ee as [-> ->]. rewrite app_nil_r in Eh.
      destruct (heading_last got v chunk bc now err Hh Eh Hc Hfit Hv) as (o & v' & Eo & E' & Hb & Hi & He & <-). rewrite E in E'. injection E' as ->.
      eexists. split; [|by eapply in_reply]. rewrite length_app. cbn. lia.
    + destruct (heading_more got v chunk (stream ++ rest) bc now err Hh Eh Ee Hc Hfit) as (v' & E' & Hv'). rewrite E in E'. injection E' as ->.
      eexists. split; [|eapply in_header; try done; by rewrite <- app_assoc]. rewrite length_app. lia.
  - rewrite <- app_assoc in Eb. destruct (body_step now0 o o' bc v got replies w chunk (stream ++ rest) now err Ho Ho' Hmo Hr Eb Hc Hfit) as (r2 & E' & Hr2).
    rewrite E in E'. injection E' as ->. inversion Hr; subst. eexists. split; [|eapply in_data; try done; by rewrite <- app_assoc].
    rewrite length_app. lia.
  - inversion Ht.
Qed.

Lemma ack_step o o' v err m : receiving_data o o' (R_Ack v) b [] 2 →
  ∃ r', rstep (R_Ack v) (IoSend (SendData PROT_EVENT_SUCCESS err m)) = Some (r', Some (Ctrlmsg CTRLMSG_TYPE_ACK (k_id o))) ∧
        receiving_data o o' r' b [Ctrlmsg CTRLMSG_TYPE_ACK (k_id o)] 1.
Proof using All.
  intros H. inversion H as [|v0 Hp Hf Hid He|]; subst. eexists. split; [cbn [receiver_step sendControlMessage]; rewrite <- Hid; reflexivity|].
  apply receiving_return; [done..|]. cbn [with_event rv_events]. rewrite He. unfold rv_dobj. by rewrite Hp.
Qed.

Lemma reply_refused o v err m : reply o ≠ CTRLMSG_TYPE_ACCEPT → rv_id v = k_id o →
  rstep (R_Reply (reply o) v) (IoSend (SendData PROT_EVENT_SUCCESS err m)) =
  Some (R_Return PROT_EVENT_SUCCESS v, Some (Ctrlmsg (reply o) (k_id o))).
Proof.
  intros Hrep Hid. cbn [receiver_step sendControlMessage]. change (success PROT_EVENT_SUCCESS) with true. cbv iota.
  destruct (Z.eqb_spec (reply o) CTRLMSG_TYPE_ACCEPT); [done|]. by rewrite Hid.
Qed.

Lemma answer_keeps n s stream replies r r' x err m :
  transferring n (Net s stream replies r) → rstep r (IoSend (SendData PROT_EVENT_SUCCESS err m)) = Some (r', Some x) →
  ∃ n', (n' < n)%nat ∧ transferring n' (Net s stream (replies ++ [x]) r').
Proof using All.
  intros H E. inversion H as [|? now v Hs Ho Hv Hb Hi He| |? now o o' ? acks w Hs Ho Ho' Hmo Hrep Hr|? rest ? got now o o' ? acks w Hs Eb Ho Ho' Hmo Hrep Hr|? Ht];
    subst; try done.
  - destruct (decide (reply (rv_dobj v) = CTRLMSG_TYPE_ACCEPT)) as [Hrep|Hrep].
    + destruct (announced_run now Hv) as (o & o' & Eo & Ho' & Hmo & _). assert (o = rv_dobj v) as -> by congruence.
      destruct (accept_step now (rv_dobj v) o' v err m Ho Ho' Hb Hi He eq_refl) as (r2 & E' & Hr2). rewrite Hrep, E' in E. injection E as <- <-.
      eexists. split; [|by eapply in_accept]. lia.
    + rewrite (reply_refused (rv_dobj v) v err m Hrep (bd_id _ _ _ Hb)) in E. injection E as <- <-.
      eexists. split; [|eapply in_refusal; try done; apply Hb]. lia.
  - destruct r as [|?|v|]; [done|inversion Hr| |done].
    assert (acks = [] ∧ w = 2%nat ∧ [] = b) as (-> & -> & Eb) by by inversion Hr. rewrite Eb in Hr.
    destruct (ack_step o o' v err m Hr) as (r2 & E' & Hr'). rewrite E in E'. injection E' as -> ->.
    eexists. split; [|eapply in_accept; try done; by rewrite Eb]. lia.
  - destruct r as [|?|v|]; [done|inversion Hr| |done].
    assert (replies = [] ∧ w = 2%nat ∧ got = b) as (-> & -> & ->) by by inversion Hr.
    destruct (ack_step o o' v err m Hr) as (r2 & E' & Hr'). rewrite E in E'. injection E' as -> ->.
    eexists. split; [|by eapply in_data]. lia.
  - inversion Ht; subst; done.
Qed.

(** Who has nothing left to write waits for a control message. *)
Lemma sending_idle hs after s : sending hs after s [] →
  if hs then s = S_Ack 0 ∧ after = [] else ∃ r bc, s = S_Reply r bc 0 ∧ rt_ok r ∧ header_left r = [] ∧ after = data_left r.
Proof.
  intros H. inversion H as [r buf tot bc rest Hok Htot Hr| |]; subst; [|by eexists _, _|by split].
  exfalso. symmetry in Hr. apply app_eq_nil in Hr as [Hr%(f_equal length) _]. rewrite length_drop in Hr. cbn in Hr. lia.
Qed.

Lemma reply_step s x err : sending false b s [] →
  ∃ s', sstep s (IoCtrl (CtrlData PROT_EVENT_SUCCESS err (Some x))) = Some (s', []) ∧
    (cm_type x = CTRLMSG_TYPE_ACCEPT → sending true [] s' b) ∧ (∀ o, cm_type x = reply o → reply o ≠ CTRLMSG_TYPE_ACCEPT → s' = S_Return (refusal (reply o))).
Proof using All.
  intros (r & bc & -> & Hok & Hh & Hd)%sending_idle. exists (got_reply send_size false r bc x). split; [reflexivity|]. unfold got_reply. split.
  - intros ->. pose proof (sending_loop true r bc Hok (λ _, Hh)) as H. by rewrite Hh, <- Hd in H.
  - intros o -> Ho. unfold refusal. destruct (Z.eqb_spec (reply o) CTRLMSG_TYPE_ACCEPT); [done|].
    unfold reply_to in *. destruct (has _); [done|]. destruct (hasFragmentationParentDataObject _); [done|].
    by destruct (hasNetworkCodingParentDataObject _).
Qed.

Lemma ack_end o o' r x acks w now err s s' :
  sending true [] s [] → receiving_data o o' r b (x :: acks) w → announced now = Some o → completed o = Some o' → reply o = CTRLMSG_TYPE_ACCEPT →
  sstep s (IoCtrl (CtrlData PROT_EVENT_SUCCESS err (Some x))) = Some (s', []) → (0 < w)%nat ∧ transferred (Net s' [] acks r).
Proof.
  intros [-> _]%sending_idle Hr Ho Ho' Hrep E. inversion Hr; subst. cbn [sender_step] in E. injection E as <-. split; [lia|].
  by eapply transferred_all.
Qed.

Lemma reply_keeps n s s' stream x replies r err :
  transferring n (Net s stream (x :: replies) r) → sstep s (IoCtrl (CtrlData PROT_EVENT_SUCCESS err (Some x))) = Some (s', []) →
  ∃ n', (n' < n)%nat ∧ transferring n' (Net s' stream replies r).
Proof using All.
  intros H E. inversion H as [| |? now v Hs Ho Hrep Hf He|? now o o' ? acks w Hs Ho Ho' Hmo Hrep Hr|? rest ? got now o o' ? acks w Hs Eb Ho Ho' Hmo Hrep Hr|? Ht];
    subst; try done.
  - destruct (reply_step s (Ctrlmsg (reply (rv_dobj v)) (k_id (rv_dobj v))) err Hs) as (s2 & E' & _ & Hrf). rewrite E in E'. injection E' as <-. specialize (Hrf (rv_dobj v) eq_refl Hrep). subst s'.
    exists 0%nat. split; [lia|]. by eapply at_end, transferred_header.
  - destruct (reply_step s (Ctrlmsg CTRLMSG_TYPE_ACCEPT (k_id o)) err Hs) as (s2 & E' & Ha & _). rewrite E in E'. injection E' as <-. specialize (Ha eq_refl).
    eexists. split; [|by eapply (in_data s' b [] [])]. cbn [length]. lia.
  - assert (got = b) as -> by by inversion Hr. assert (stream = [] ∧ rest = []) as [-> ->].
    { apply (f_equal length) in Eb. rewrite !length_app in Eb. split; apply nil_length_inv; lia. }
    destruct (ack_end o o' r x replies w now err s s' Hs Hr Ho Ho' Hrep E) as [Hw Ht]. exists 0%nat. cbn [length]. split; [lia|by apply at_end].
  - inversion Ht.
Qed.

Lemma step_keeps n st st' : transferring n st → net_step st st' → ∃ n', (n' < n)%nat ∧ transferring n' st'.
Proof using All.
  intros H Hst. destruct Hst; [by eapply write_keeps|by eapply read_keeps|by eapply answer_keeps|by eapply reply_keeps].
Qed.

Hypothesis recv_size_pos : (0 < recv_size)%nat.

(** There is always a step: a party that waits for something finds it there. *)
Lemma write_can hs after s rest stream replies r : sending hs after s rest → rest ≠ [] → ∃ st', net_step (Net s stream replies r) st'.
Proof using All.
  intros Hs Hne. destruct (sending_can hs after s rest PROT_ERROR_UNKNOWN Hs Hne) as (s' & data & E & Hl).
  eexists. eapply net_write; [exact E|lia|done].
Qed.

Lemma read_can s bc v x stream replies r' :
  rv_bufferDataLen v = 0%nat →
  rstep (R_Get bc v) (IoGet (GetData (TV 1 0) PROT_EVENT_SUCCESS PROT_ERROR_UNKNOWN [x])) = Some (r', None) →
  ∃ st', net_step (Net s (x :: stream) replies (R_Get bc v)) st'.
Proof using All.
  intros Hl E. eexists. apply (net_read s bc v r' [x] stream replies (TV 1 0) PROT_ERROR_UNKNOWN E); [reflexivity|done|].
  unfold read_len. rewrite Hl. cbn. lia.
Qed.

Lemma header_can s rest stream got bc v :
  sending false b s rest → h = got ++ stream ++ rest → stream ++ rest ≠ [] → heading got v → ∃ st', net_step (Net s stream [] (R_Get bc v)) st'.
Proof using All.
  intros Hs Eh Hne Hh. destruct rest as [|y rest]; [|by eapply write_can]. rewrite app_nil_r in *. destruct stream as [|x stream]; [done|].
  assert (length [x] <= read_len recv_size v)%nat as Hfit by (unfold read_len; rewrite (hd_len _ _ Hh); cbn; lia).
  destruct stream as [|y stream].
  - destruct (heading_last got v [x] bc (TV 1 0) PROT_ERROR_UNKNOWN Hh Eh ltac:(done) Hfit eq_refl) as (o & v' & _ & E & _).
    eapply read_can; [apply Hh|exact E].
  - destruct (heading_more got v [x] (y :: stream) bc (TV 1 0) PROT_ERROR_UNKNOWN Hh Eh ltac:(done) ltac:(done) Hfit) as (v' & E & _).
    eapply read_can; [apply Hh|exact E].
Qed.

Lemma data_can s rest stream got now o o' r acks w :
  sending true [] s rest → b = got ++ stream ++ rest → announced now = Some o → completed o = Some o' → is_Some (k_metadata o) →
  receiving_data o o' r got acks w → ∃ st', net_step (Net s stream acks r) st'.
Proof using All.
  intros Hs Eb Ho Ho' Hmo Hr. destruct rest as [|y rest]; [|by eapply write_can]. rewrite app_nil_r in Eb. destruct stream as [|x stream].
  - rewrite app_nil_r in Eb. subst got. apply sending_idle in Hs as [-> _]. inversion Hr as [? ? ? ? Hlt|v|v]; subst; [lia| |].
    + destruct (ack_step o o' v PROT_ERROR_UNKNOWN 0 Hr) as (r' & E & _). eexists. eapply net_answer, E.
    + eexists. eapply (net_reply _ _ _ _ _ _ PROT_ERROR_UNKNOWN). reflexivity.
  - pose proof (f_equal length Eb) as Hl. rewrite length_app in Hl. cbn [length] in Hl. inversion Hr as [bc v ? Hb Hlt| |]; subst; [|lia..].
    destruct (body_step now o o' bc v got [] 2 [x] stream (TV 1 0) PROT_ERROR_UNKNOWN Ho Ho' Hmo Hr Eb ltac:(done)) as (r' & E & _);
      [unfold read_len; rewrite (bd_len _ _ _ Hb); cbn; lia|]. eapply read_can; [apply Hb|exact E].
Qed.

Lemma transfer_progress n st : transferring n st → transferred st ∨ ∃ st', net_step st st'.
Proof using All.
  intros [s rest stream got bc v Hs Eh Hne Hh|s now v Hs Ho Hv Hb Hi He|s now v Hs|s now o o' r acks w Hs|s rest stream got now o o' r acks w Hs Eb Ho Ho' Hmo _ Hr|st' Ht];
    [right; by eapply header_can|right|right|right|right; by eapply data_can|by left].
  - destruct (decide (reply (rv_dobj v) = CTRLMSG_TYPE_ACCEPT)) as [Hrep|Hrep].
    + destruct (announced_run now Hv) as (o & o' & Eo & Ho' & _ & _). assert (o = rv_dobj v) as -> by congruence.
      destruct (accept_step now (rv_dobj v) o' v PROT_ERROR_UNKNOWN 0 Ho Ho' Hb Hi He eq_refl) as (r' & E & _).
      eexists. rewrite Hrep. eapply net_answer, E.
    + eexists. eapply net_answer, (reply_refused (rv_dobj v) v PROT_ERROR_UNKNOWN 0 Hrep), Hb.
  - edestruct (reply_step s) as (s' & E & _); [done|]. eexists. eapply net_reply, E.
  - edestruct (reply_step s) as (s' & E & _); [done|]. eexists. eapply net_reply, E.
  Unshelve. all: exact PROT_ERROR_UNKNOWN.
Qed.

Lemma transfer_runs n k st st' : transferring n st → nsteps net_step k st st' → (k <= n)%nat ∧ ∃ n', transferring n' st'.
Proof using All.
  intros H Hst. revert n H. induction Hst as [st|k st1 st2 st3 H12 _ IH]; intros n H; [split; [lia|by exists n]|].
  destruct (step_keeps n st1 st2 H H12) as (n' & Hlt & H'). destruct (IH n' H') as [Hk Hn]. split; [lia|done].
Qed.

Lemma transfer_starts r buffer :
  rt_ok r → header_left r = h → data_left r = b →
  transferring (2 * length h + 2 * length b + 4) (Net (sendDataObjectNow send_size false (Some r)) [] [] (receiveDataObject buffer fs0)).
Proof using All.
  intros Hok Hh Hb. pose proof (sending_loop false r 0 Hok ltac:(done)) as Hs. rewrite Hh, Hb in Hs.
  replace (2 * length h + 2 * length b + 4)%nat with (2 * length h + length (@nil Z) + 2 * length b + 4)%nat by (cbn [length]; lia).
  eapply (in_header _ h [] []); [exact Hs|done| |by split].
  intros E. cbn in E. pose proof (ih_ends _ header_ok) as He. by rewrite E in He.
Qed.

Lemma transfer_completes n : ∀ st, transferring n st → ∃ k st', nsteps net_step k st st' ∧ transferred st'.
Proof using All.
  induction n as [n IH] using lt_wf_ind. intros st H. destruct (transfer_progress n st H) as [Ht|[st2 H2]]; [exists 0%nat, st; by split; [constructor|]|].
  destruct (step_keeps n st st2 H H2) as (n' & Hlt & H'). destruct (IH n' Hlt st2 H') as (k & st' & Hk & Ht).
  exists (S k), st'. split; [by econstructor|done].
Qed.

Lemma transfer_ends r buffer :
  rt_ok r → header_left r = h → data_left r = b →
  let start := Net (sendDataObjectNow send_size false (Some r)) [] [] (receiveDataObject buffer fs0) in
  (∀ k st, nsteps net_step k start st →
     (k <= 2 * length h + 2 * length b + 4)%nat ∧ (transferred st ∨ ∃ st', net_step st st')) ∧
  ∃ k st, nsteps net_step k start st ∧ transferred st.
Proof using All.
  intros Hok Hh Hd. pose proof (transfer_starts r buffer Hok Hh Hd) as Hs. split.
  - intros k st Hk. destruct (transfer_runs _ k _ st Hs Hk) as [Hle [n' Hn]]. split; [done|by eapply transfer_progress].
  - by eapply transfer_completes.
Qed.

(** C6: one kernel sends a data object with a file, [sendDataObjectNow], and another receives it,
    [receiveDataObject], over a connection that is reliable and cuts the stream into any pieces.
    Whatever the pieces and the order of the steps, the transfer ends: it cannot take more than
    twice as many steps as there are bytes and four more, and it stops nowhere but where both
    functions have returned, nothing is left on the way, and
    - the sender has SUCCESS, and the receiver the object that the header describes, its
      encryption restored, with a file at its new path that holds exactly the data, after the two
      events INCOMING and RECEIVED; or
    - the receiver's node has the object, or one it is a part of, and then the sender has the
      refusal it was given, no data was sent and no event made. *)
Theorem transfer_delivers xmlNewNode xmlNewProp xmlNewChild xmlAddChild xmlDocDumpFormatMemory fs o raw o2 contents buffer :
  k_ABEStatus o = ABE_NOT_NEEDED → k_isForLocalApp o = false →
  getRawMetadataAlloc xmlNewNode xmlNewProp xmlNewChild xmlAddChild xmlDocDumpFormatMemory o = Some (Some raw, o2) → trim_header raw = h →
  (0 < k_dataLen o → fs !! k_filepath o = Some contents) → 0 <= k_dataLen o <= Z.of_nat (length contents) →
  take (Z.to_nat (k_dataLen o)) contents = b →
  ∃ r, getDataObjectDataRetriever xmlNewNode xmlNewProp xmlNewChild xmlAddChild xmlDocDumpFormatMemory fs o = Some (r, o2) ∧
    let start := Net (sendDataObjectNow send_size false r) [] [] (receiveDataObject buffer fs0) in
    (∀ k st, nsteps net_step k start st →
       (k <= 2 * length h + 2 * length b + 4)%nat ∧ (transferred st ∨ ∃ st', net_step st st')) ∧
    ∃ k st, nsteps net_step k start st ∧ transferred st.
Proof using All.
  intros Ha Hl Er Eh Hf Hlen Eb.
  destruct (retriever_run xmlNewNode xmlNewProp xmlNewChild xmlAddChild xmlDocDumpFormatMemory fs o raw o2 contents)
    as (r & E & Hok & Hh & Hd); [done..| |done|done|].
  { rewrite Eh. intros ->. by pose proof (ih_ends _ header_ok). }
  exists (Some r). split; [done|]. rewrite Eh in Hh. rewrite Eb in Hd. by apply transfer_ends.
Qed.
End Network.

(** A message that is none of the replies makes the sender skip the data: it goes on to wait for
    the ACK of what it did not send. *)
Lemma garbled_reply bufferSize maxBlockingTries r bc m err :
  cm_type m ∉ [CTRLMSG_TYPE_ACCEPT; CTRLMSG_TYPE_REJECT; CTRLMSG_TYPE_TERMINATE; CTRLMSG_TYPE_REJECT_PARENTDATAOBJECT] →
  sender_step bufferSize maxBlockingTries 0 false (S_Reply r bc 0) (IoCtrl (CtrlData PROT_EVENT_SUCCESS err (Some m))) = Some (S_Ack 0, []).
Proof.
  rewrite !not_elem_of_cons. intros (H1 & H2 & H3 & H4 & _). cbn [sender_step receiveControlMessage].
  change (success PROT_EVENT_SUCCESS) with true. cbv iota. unfold got_reply. by rewrite !(proj2 (Z.eqb_neq _ _)).
Qed.

(** ** Witness *)

Definition ex_object : kdobj :=
  set_file (set_metadata kdobj_new (Some (kmeta_new "Haggle" ""))) "a.jpg" "/d/a.jpg" 3 3.
Definition ex_write (x : xmlNode) : list Z := ex_header ++ [10].

Lemma transfer_delivers_witness :
  ∃ d r o2, parse_header ex_ctx ex_update fips_sha1 [0; 0; 0; 0] (TV 7 7) ex_blank ex_content ex_put_parse ∅ kdobj_new ex_header = Some (true, d) ∧
    getDataObjectDataRetriever ex_node ex_prop ex_child ex_add ex_write ex_files ex_object = Some (r, o2) ∧
    ∃ k st, nsteps (net_step ex_ctx ex_update fips_sha1 [0; 0; 0; 0] (TV 7 7) ex_blank ex_content ex_put_parse "/s" (λ _, true) 16 10 5
                      (λ _, false) (λ _, false) (λ _, false)) k
                   (Net (sendDataObjectNow 16 false r) [] [] (receiveDataObject (replicate 10 0) ∅)) st ∧
      transferred ex_ctx ex_update fips_sha1 "/s" (λ _, false) (λ _, false) (λ _, false) ∅ [97; 98; 99] d st.
Proof.
  destruct (parse_header ex_ctx ex_update fips_sha1 [0; 0; 0; 0] (TV 7 7) ex_blank ex_content ex_put_parse ∅ kdobj_new ex_header)
    as [[[|] d]|] eqn:E; [|vm_compute in E; discriminate E..].
  assert (Ex : expected d = 3) by (vm_compute in E; injection E as <-; reflexivity).
  destruct (getRawMetadataAlloc ex_node ex_prop ex_child ex_add ex_write ex_object) as [[[raw|] o2]|] eqn:Er; [|vm_compute in Er; discriminate Er..].
  destruct (transfer_delivers ex_ctx ex_update fips_sha1 [0; 0; 0; 0] (TV 7 7) ex_blank ex_content ex_put_parse "/s" (λ _, true) 16 10 5
              (λ _, false) (λ _, false) (λ _, false) ltac:(lia) ∅ ex_header [97; 98; 99] d ex_is_header E Ex ltac:(done) (λ _, eq_refl) ltac:(lia)
              ex_node ex_prop ex_child ex_add ex_write ex_files ex_object raw o2 [97; 98; 99] (replicate 10 0))
    as (r & Eget & _ & Hend).
  - reflexivity.
  - reflexivity.
  - exact Er.
  - vm_compute in Er. injection Er as <- _. vm_compute. reflexivity.
  - reflexivity.
  - cbn. lia.
  - reflexivity.
  - exists d, r, o2. split; [reflexivity|]. split; [exact Eget|exact Hend].
Defined.
