(* ===== verification/KernelWire.v ===== *)
(** * KernelWire: a data object between two kernels ([DataObject::toMetadata] and
    [DataObject::parseMetadata], with the XML in between).

    [KernelDataObject] has both functions, [KernelXml] the way through the document.  Here they
    are put together: what one kernel writes of a data object, another reads as the same object,
    with the same identifier. *)

From S2P Require Import Prelude Text Timeval Base64 Sha1 Attribute Metadata MetaTree MetadataXml DataObject.
From S2P Require Import CppString CppMap CppHashMap KernelMetadata KernelXml KernelDataObject KernelRetrieve KernelPut KernelTransfer.

(** ** Trees that say the same *)

Definition twin (k k' : kmeta) : Prop := ∃ m, agrees k m ∧ agrees k' m.

Lemma k_wf_unique k ps kids ps' kids' :
  k_wf k ps kids → k_wf k ps' kids' → ps = ps' ∧ ∀ n, values n kids = values n kids'.
Proof.
  intros H H'. split.
  - apply map_eq. intros n. pose proof (get_parameter_run _ _ _ n H) as E. rewrite (get_parameter_run _ _ _ n H') in E. by injection E.
  - intros n. pose proof (hr_values _ _ _ (hw_rep _ _ _ (kw_kids _ _ _ H)) n) as E.
    by rewrite (hr_values _ _ _ (hw_rep _ _ _ (kw_kids _ _ _ H')) n) in E.
Qed.

Lemma twin_wf k k' ps kids :
  twin k k' → k_wf k ps kids →
  ∃ kids', k_wf k' ps kids' ∧ k_name k' = k_name k ∧
    ∀ n, Forall2 (λ c c', k_content c' = k_content c ∧ twin c c') (values n kids) (values n kids').
Proof.
  intros (m & Ha & Ha') Hwf. pose proof (agrees_name _ _ Ha). pose proof (agrees_name _ _ Ha').
  destruct Ha as [k m ps1 kids1 Hwf1 _ Hp1 Hk1]. destruct Ha' as [k' m ps2 kids2 Hwf2 _ Hp2 Hk2].
  destruct (k_wf_unique _ _ _ _ _ Hwf Hwf1) as [-> Hv]. exists kids2.
  assert (ps2 = ps1) as -> by (apply map_eq; intros n; by rewrite Hp2).
  split; [done|]. split; [congruence|]. intros n. rewrite Hv. specialize (Hk1 n). specialize (Hk2 n). clear -Hk1 Hk2.
  revert Hk2. generalize (values n kids2). induction Hk1 as [|c mc cs mcs [H1 H2] _ IH]; intros cs' H.
  - apply Forall2_nil_inv_r in H as ->. constructor.
  - apply Forall2_cons_inv_r in H as (c' & cs2 & [H3 H4] & H5 & ->). constructor; [|by apply IH]. split; [congruence|by exists mc].
Qed.

(** ** Trees that can be written *)

Section Tidy.
Context (xmlIsBlankNode : string → bool) (xmlStringGetNodeList : string → list xmlNode).

Definition text (t : string) : Prop := t = "" ∨ xmlStringGetNodeList t = [XText t] ∧ xmlIsBlankNode t = false.
Definition leaf (k : kmeta) : Prop := ∃ ps, k_wf k ps [].
(** Below the root, an element has a text or children. *)
Definition child_ok (n : string) (c : kmeta) : Prop := k_name c = n ∧ (k_content c = "" ∨ text (k_content c) ∧ leaf c).
Inductive tidy : kmeta → Prop :=
  | tidy_intro k ps kids : k_wf k ps kids → (∀ n c, c ∈ values n kids → child_ok n c) → (∀ n c, c ∈ values n kids → tidy c) → tidy k.

Lemma tidy_wf k ps kids : tidy k → k_wf k ps kids → ∀ n c, c ∈ values n kids → child_ok n c ∧ tidy c.
Proof. intros [k0 ps0 kids0 Hwf Hc Ht] Hwf' n c. destruct (k_wf_unique _ _ _ _ _ Hwf Hwf') as [_ Hv]. rewrite <- Hv. intros H. exact (conj (Hc _ _ H) (Ht _ _ H)). Qed.
Lemma tidy_new name content : tidy (kmeta_new name content).
Proof. econstructor; [apply new_wf|..]; intros n c H; by apply elem_of_nil in H. Qed.
Lemma leaf_new name content : leaf (kmeta_new name content).
Proof. eexists. apply new_wf. Qed.
Lemma leaf_values k ps kids n : leaf k → k_wf k ps kids → values n kids = [].
Proof. intros [ps' H] H'. by destruct (k_wf_unique _ _ _ _ _ H' H) as [_ ->]. Qed.

(** The children are old or fit. *)
Lemma tidy_changed k k' ps kids ps' kids' :
  tidy k → k_wf k ps kids → k_wf k' ps' kids' →
  (∀ n c, c ∈ values n kids' → c ∈ values n kids ∨ child_ok n c ∧ tidy c) → tidy k'.
Proof.
  intros Ht Hwf Hwf' H. econstructor; [exact Hwf'|..]; intros n c Hc; destruct (H n c Hc) as [Ho|[]]; try done; by destruct (tidy_wf k ps kids Ht Hwf n c Ho).
Qed.

(** A tree for the library. *)
Lemma tidy_agrees k : tidy k →
  ∃ ps mcs, (leaf k → mcs = []) ∧ ∀ ct, agrees k (Md (Some (k_name k)) ct ps mcs) ∧ plain_tree xmlIsBlankNode xmlStringGetNodeList (Md (Some (k_name k)) ct ps mcs).
Proof.
  induction 1 as [k ps kids Hwf Hc _ IH].
  assert (Forall (λ x, ∃ mc, (md_name mc = Some x.1 ∧ agrees x.2 mc ∧ k_content x.2 = default "" (md_content mc)) ∧
            ((default "" (md_content mc) = "" ∨ ∃ t, md_content mc = Some t ∧ xmlStringGetNodeList t = [XText t] ∧ xmlIsBlankNode t = false ∧ md_kids mc = []) ∧
             plain_tree xmlIsBlankNode xmlStringGetNodeList mc)) kids) as Hmc.
  { apply Forall_forall. intros [n c] Hx. assert (c ∈ values n kids) as Hin by (apply list_elem_of_fmap; exists (n, c); by rewrite list_elem_of_filter).
    destruct (IH n c Hin) as (ps' & mcs & Hl & Ha). destruct (Hc n c Hin) as [Hn Ht]. destruct (Ha (Some (k_content c))) as [Ha1 Ha2].
    eexists. split; [split; [|split; [exact Ha1|done]]; cbn; congruence|]. split; [|done]. cbn.
    destruct Ht as [->|[[->|[Ht1 Ht2]] Hleaf]]; [by left..|]. right. exists (k_content c). by rewrite Hl. }
  apply Forall_exists_Forall2_l in Hmc as (mcs & Hmcs).
  destruct (properties_read (map_to_list ps) (md_new (k_name k) None)) as (mp & _ & En & _ & _ & Hp); [apply NoDup_fst_map_to_list|].
  exists (md_params mp), mcs. split.
  - intros Hl. assert (kids = []) as ->; [|by apply Forall2_nil_inv_l in Hmcs]. destruct kids as [|[n c] kids]; [done|].
    pose proof (leaf_values _ _ _ n Hl Hwf) as E. unfold values in E. by rewrite filter_cons, decide_True in E by done.
  - intros ct. split.
    + apply (agrees_intro _ _ ps kids); [done|done| |].
      * intros n. specialize (Hp n). rewrite list_to_map_to_list in Hp. change (md_get_parameter (Md _ ct _ mcs) n) with (md_get_parameter mp n).
        rewrite Hp. by destruct (ps !! n).
      * intros n. apply children_by_name. eapply Forall2_impl; [exact Hmcs|]. by intros x mc [].
    + apply plain_tree_intro. cbn. intros mc [i Hi]%list_elem_of_lookup. by destruct (Forall2_lookup_r _ _ _ _ _ Hmcs Hi) as (x & _ & _ & ?).
Qed.

(** ** Writing the elements *)

Lemma set_content_wf c t ps kids : k_wf c ps kids → k_wf (setContent c t) ps kids.
Proof. intros [Hp Hk]. by destruct c. Qed.
Lemma set_content_leaf c t : leaf c → leaf (setContent c t).
Proof. intros [ps H]. exists ps. by apply set_content_wf. Qed.
Lemma set_content_tidy c t : tidy c → tidy (setContent c t).
Proof. intros [k ps kids Hwf Hc Ht]. econstructor; [by apply set_content_wf|done|done]. Qed.

Definition first_child (name : string) (kids : list (string * kmeta)) : kmeta := default (kmeta_new name "") (head (values name kids)).

Lemma set_child_run name content md ps kids :
  k_wf md ps kids → tidy md → text content → leaf (first_child name kids) →
  ∃ md' kids', set_child name content md = Some md' ∧ k_wf md' ps kids' ∧ tidy md' ∧ k_name md' = k_name md ∧ k_content md' = k_content md ∧
    values name kids' = setContent (first_child name kids) content :: tail (values name kids) ∧
    ∀ n, n ≠ name → values n kids' = values n kids.
Proof.
  intros Hwf Ht Htx Hleaf. unfold set_child. destruct (get_metadata_run md ps kids name 0 Hwf) as (r & rest & -> & _). cbn [mbind option_bind].
  destruct (values name kids) as [|c vs] eqn:Ev; cbn [lookup list_lookup].
  - destruct (kernel_add_run md ps kids (kmeta_new name content) Hwf) as (md' & -> & Hwf' & En & Ec & _). exists md', (kids ++ [(name, kmeta_new name content)]).
    assert (Hv : ∀ n, values n (kids ++ [(name, kmeta_new name content)]) = values n kids ++ if decide (name = n) then [kmeta_new name content] else []).
    { intros n. rewrite values_app. f_equal. unfold values. rewrite filter_cons. cbn [fst]. by destruct (decide (name = n)). }
    split_and!; [done|done| |done|done| |].
    + apply (tidy_changed md md' ps kids ps _ Ht Hwf Hwf'). intros n c. rewrite Hv. intros [Hc|Hc]%elem_of_app; [by left|right].
      destruct (decide (name = n)) as [<-|]; [|by apply elem_of_nil in Hc]. apply list_elem_of_singleton in Hc as ->.
      split; [|apply tidy_new]. split; [done|]. right. split; [done|apply leaf_new].
    + rewrite Hv, Ev, decide_True by done. unfold first_child. by rewrite Ev.
    + intros n Hn. rewrite Hv, decide_False by congruence. by rewrite app_nil_r.
  - destruct (update_first_run md ps kids name c vs (λ c, Some (setContent c content)) _ Hwf Ev eq_refl) as (md' & -> & Hwf' & En & Ec & _).
    exists md', (set_first name (setContent c content) kids). pose proof (values_set_first _ (setContent c content) _ _ _ Ev) as Hv.
    split_and!; [done|done| |done|done| |].
    + apply (tidy_changed md md' ps kids ps _ Ht Hwf Hwf'). intros n c'. rewrite Hv. destruct (decide (n = name)) as [->|]; [|by left].
      rewrite Ev. intros [->|Hc]%elem_of_cons; [right|left; by right]. destruct (tidy_wf md ps kids Ht Hwf name c) as [[Hn _] Htc]; [rewrite Ev; by left|].
      split; [|by apply set_content_tidy]. split; [by destruct c|]. right. split; [by destruct c|]. unfold first_child in Hleaf. rewrite Ev in Hleaf. by apply set_content_leaf.
    + rewrite Hv, decide_True by done. unfold first_child. by rewrite Ev.
    + intros n Hn. by rewrite Hv, decide_False.
Qed.

Lemma with_data_run m ps kids f dm' :
  k_wf m ps kids → tidy m → f (first_child "Data" kids) = Some dm' → k_name dm' = "Data" → k_content dm' = "" → tidy dm' →
  ∃ m' kids', with_data_metadata m f = Some m' ∧ k_wf m' ps kids' ∧ tidy m' ∧ k_name m' = k_name m ∧
    values "Data" kids' = dm' :: tail (values "Data" kids) ∧ ∀ n, n ≠ "Data" → values n kids' = values n kids.
Proof.
  intros Hwf Ht Hf Hn Hc Hd. unfold with_data_metadata. change DATAOBJECT_METADATA_DATA with "Data".
  destruct (get_metadata_run m ps kids "Data" 0 Hwf) as (r & rest & -> & _). cbn [mbind option_bind].
  assert (∃ m1 kids1, match values "Data" kids !! 0%nat with Some _ => Some m | None => addMetadata m (kmeta_new "Data" "") end = Some m1 ∧
            k_wf m1 ps kids1 ∧ k_name m1 = k_name m ∧ values "Data" kids1 = first_child "Data" kids :: tail (values "Data" kids) ∧
            ∀ n, n ≠ "Data" → values n kids1 = values n kids) as (m1 & kids1 & -> & Hwf1 & En1 & Hv1 & Ho1).
  { unfold first_child. destruct (values "Data" kids) as [|c vs] eqn:Ev; cbn [lookup list_lookup].
    - destruct (kernel_add_run m ps kids (kmeta_new "Data" "") Hwf) as (m1 & -> & Hwf1 & En & _). exists m1. eexists. split; [done|].
      split; [exact Hwf1|]. split; [done|]. split; [by rewrite values_app, Ev|]. intros n Hne. rewrite values_app. unfold values at 2.
      rewrite filter_cons, decide_False by (cbn; congruence). apply app_nil_r.
    - by exists m, kids. }
  cbn [mbind option_bind]. destruct (update_first_run m1 ps kids1 "Data" _ _ f dm' Hwf1 Hv1 Hf) as (m2 & -> & Hwf2 & En2 & _).
  exists m2, (set_first "Data" dm' kids1). pose proof (values_set_first _ dm' _ _ _ Hv1) as Hv. split_and!; [done|done| |congruence| |].
  - apply (tidy_changed m m2 ps kids ps _ Ht Hwf Hwf2). intros n c. rewrite Hv. destruct (decide (n = "Data")) as [->|Hne]; [|rewrite Ho1 by done; by left].
    intros [->|Hx]%elem_of_cons; [right; split; [split; [done|by left]|done]|left]. destruct (values "Data" kids); [by apply elem_of_nil in Hx|by right].
  - by rewrite Hv, decide_True.
  - intros n Hne. by rewrite Hv, decide_False, Ho1 by done.
Qed.

(** An attribute's element. *)
Record attr_element (a : attr) (k : kmeta) : Prop := AttrElement
  { ae_name : k_name k = "Attr"; ae_content : k_content k = av a;
    ae_wf : ∃ ps, k_wf k ps [] ∧ ps !! "name" = Some (an a) ∧ ps !! "weight" = (if aw a =? 0 then None else Some (dec (aw a))) }.

Lemma write_attr_run a : 0 <= aw a < 2 ^ 63 → ∃ k, write_attr a = Some k ∧ attr_element a k.
Proof.
  intros Hw. unfold write_attr. destruct (set_parameter_run (kmeta_new DATAOBJECT_ATTRIBUTE_NAME (av a)) ∅ [] "name" (an a) (new_wf _ _)) as (k1 & -> & H1 & En & Ec & _).
  cbn [mbind option_bind]. destruct (Z.eqb_spec (aw a) 0) as [E|E].
  - exists k1. split; [done|]. split; [done|done|]. eexists. split; [exact H1|]. by rewrite lookup_insert_eq, E, lookup_insert_ne, lookup_empty.
  - destruct (set_parameter_run k1 _ _ "weight" (snprintf 20 (dec (aw a))) H1) as (k2 & -> & H2 & En2 & Ec2 & _). exists k2. split; [done|].
    split; [by rewrite En2, En|by rewrite Ec2, Ec|]. eexists. split; [exact H2|]. rewrite lookup_insert_ne, lookup_insert_eq, lookup_insert_eq by done. split; [done|].
    destruct (Z.eqb_spec (aw a) 0); [done|]. f_equal. apply snprintf_id. pose proof (length_dec (aw a) 19 ltac:(lia) ltac:(lia)) as H.
    change (10 ^ Z.of_nat 19) with 10000000000000000000 in *. lia.
Qed.
Lemma attr_element_tidy a k : attr_element a k → text (av a) → child_ok "Attr" k ∧ tidy k.
Proof.
  intros [Hn Hc (ps & Hwf & _)] Ht. split.
  - split; [done|]. right. rewrite Hc. split; [done|]. by exists ps.
  - econstructor; [exact Hwf|..]; intros n c H; by apply elem_of_nil in H.
Qed.
Lemma write_attrs_run l m ps kids :
  k_wf m ps kids → tidy m → Forall (λ x : string * attr, 0 <= aw x.2 < 2 ^ 63 ∧ text (av x.2)) l →
  ∃ m' ks, write_attrs l m = Some m' ∧ k_wf m' ps (kids ++ (pair "Attr" <$> ks)) ∧ tidy m' ∧ k_name m' = k_name m ∧ Forall2 attr_element l.*2 ks.
Proof.
  intros Hwf Ht Hl. revert m kids Hwf Ht. induction Hl as [|x l [Hw Htx] _ IH]; intros m kids Hwf Ht; cbn [write_attrs].
  - exists m, []. by rewrite app_nil_r.
  - destruct (write_attr_run x.2 Hw) as (k & -> & Hk). cbn [mbind option_bind].
    destruct (kernel_add_run m ps kids k Hwf) as (m1 & -> & Hwf1 & En & _). cbn [mbind option_bind]. rewrite (ae_name _ _ Hk) in Hwf1.
    destruct (IH m1 _ Hwf1) as (m' & ks & -> & Hwf' & Ht' & En' & Hks).
    + apply (tidy_changed m m1 ps kids ps _ Ht Hwf Hwf1). intros n c. rewrite values_app. intros [Hc|Hc]%elem_of_app; [by left|right].
      unfold values in Hc. rewrite filter_cons in Hc. cbn [fst] in Hc. destruct (decide ("Attr" = n)) as [<-|]; [|by apply elem_of_nil in Hc].
      apply list_elem_of_singleton in Hc as ->. by apply (attr_element_tidy x.2).
    + exists m', (k :: ks). split; [done|]. rewrite fmap_cons, cons_middle, app_assoc. split_and!; [done|done|congruence|by constructor].
Qed.

(** ** What the metadata says of an object *)

Definition hash_content (h : list Z) : string := string_of_bytes (base64_encode h 29).
Definition signature_string (sg : list Z) : string := string_of_bytes (b64_enc sg ++ [0]).
Definition writes_data (d : kdobj) : bool := negb (k_dataLen d =? 0) && nonempty (k_filename d).
Definition time_param (ps : gmap string string) (name : string) (t : Timeval) : Prop := ps !! name = if isValid t then Some (time_text t) else None.
Abbreviation content_of_first name kids := (k_content <$> head (values name kids)).

(** The [Data] element: [exact] when it has been written, before it may still say something else
    where it will be written over. *)
Record data_says (exact : bool) (d : kdobj) (dm : kmeta) : Prop := DataSays
  { ds_content : k_content dm = "";
    ds_wf : ∃ dps dkids, k_wf dm dps dkids ∧ values "FilePath" dkids = [] ∧ leaf (first_child "FileName" dkids) ∧ leaf (first_child "FileHash" dkids) ∧
      (exact || negb (writes_data d) = true →
        dps !! "data_len" = (if writes_data d then Some (dec (k_dataLen d)) else None) ∧
        content_of_first "FileName" dkids = (if writes_data d then Some (k_filename d) else None)) ∧
      (exact || negb (dataIsVerifiable d) = true →
        content_of_first "FileHash" dkids = (if dataIsVerifiable d then Some (hash_content (k_dataHash d)) else None)) }.
Record meta_says (exact : bool) (d : kdobj) (ps : gmap string string) (kids : list (string * kmeta)) : Prop := MetaSays
  { ms_create : time_param ps "create_time" (k_createTime d);
    ms_update : time_param ps "update_time" (k_updateTime d);
    ms_data : data_says exact d (first_child "Data" kids);
    ms_leaf : leaf (first_child "Signature" kids);
    ms_unsigned : k_signature d = None → values "Signature" kids = [] }.

(** An object that is not for a local application and not encrypted, with its metadata. *)
Record fits (d : kdobj) (l : list (string * attr)) : Prop := Fits
  { ft_attrs : attrs_wf (k_attrs d) l;
    ft_distinct : distinct l.*2;
    ft_values : Forall (λ x : string * attr, 0 <= aw x.2 < 2 ^ 63 ∧ text (av x.2)) l;
    ft_local : k_isForLocalApp d = false;
    ft_plain : k_encryptedFilePath d = "";
    ft_len : 0 <= k_dataLen d < 2 ^ 63;
    ft_name : text (k_filename d);
    ft_hash : bytes (k_dataHash d) ∧ length (k_dataHash d) = DATAOBJECT_ID_LEN ∧ text (hash_content (k_dataHash d));
    ft_signature : ∀ sg, k_signature d = Some sg → sg ≠ [] ∧ bytes sg ∧ Z.of_nat (length sg) < 2 ^ 60 ∧ text (signature_string sg);
    ft_times : Forall (λ t, (isValid t = true ∧ tv_sec t < 10 ^ 12) ∨ t = invalid_time) [k_createTime d; k_updateTime d];
    ft_meta : ∃ m ps kids, k_metadata d = Some m ∧ k_name m = "Haggle" ∧ k_wf m ps kids ∧ tidy m ∧ meta_says false d ps kids }.

Lemma first_child_tidy m ps kids n : tidy m → k_wf m ps kids → tidy (first_child n kids) ∧ k_name (first_child n kids) = n.
Proof.
  intros Ht Hwf. unfold first_child. destruct (values n kids) as [|c vs] eqn:Ev; cbn; [split; [apply tidy_new|done]|].
  destruct (tidy_wf m ps kids Ht Hwf n c) as [[Hn _] Htc]; [rewrite Ev; by left|done].
Qed.
Lemma set_parameter_tidy m ps kids name value :
  k_wf m ps kids → tidy m → ∃ m', setParameter m name value = Some m' ∧ k_wf m' (<[name := value]> ps) kids ∧ tidy m' ∧ k_name m' = k_name m ∧ k_content m' = k_content m.
Proof.
  intros Hwf Ht. destruct (set_parameter_run m ps kids name value Hwf) as (m' & E & Hwf' & En & Ec & _). exists m'. split_and!; [done|done| |done|done].
  apply (tidy_changed m m' ps kids _ kids Ht Hwf Hwf'). by left.
Qed.
Lemma dec_63 n : 0 <= n < 2 ^ 63 → snprintf 20 (dec n) = dec n.
Proof.
  intros Hn. apply snprintf_id. pose proof (length_dec n 19 ltac:(lia) ltac:(lia)) as H. change (10 ^ Z.of_nat 19) with 10000000000000000000 in *. lia.
Qed.

Lemma sends_plain_data d b : k_encryptedFilePath d = "" → sends_plain d b = true.
Proof. intros E. unfold sends_plain. rewrite E. apply orb_true_r. Qed.
Lemma write_data_run d hasABE dm :
  k_isForLocalApp d = false → k_encryptedFilePath d = "" → 0 <= k_dataLen d < 2 ^ 63 → text (k_filename d) → writes_data d = true →
  tidy dm → data_says false d dm →
  ∃ dm', write_data_metadata d hasABE dm = Some dm' ∧ tidy dm' ∧ k_name dm' = k_name dm ∧ data_says false d dm' ∧
    ∃ dps dkids, k_wf dm' dps dkids ∧ dps !! "data_len" = Some (dec (k_dataLen d)) ∧ content_of_first "FileName" dkids = Some (k_filename d).
Proof.
  intros Hl He Hlen Htx Hw Ht [Hc (dps & dkids & Hwf & Hp & Hf1 & Hf2 & H1 & H2)]. unfold write_data_metadata.
  rewrite sends_plain_data, Hl, dec_63 by done. destruct (set_parameter_tidy dm dps dkids "data_len" (dec (k_dataLen d)) Hwf Ht) as (m1 & -> & Hwf1 & Ht1 & En1 & Ec1).
  cbn [mbind option_bind]. destruct (set_child_run "FileName" (k_filename d) m1 _ dkids Hwf1 Ht1 Htx Hf1) as (m2 & dkids2 & -> & Hwf2 & Ht2 & En2 & Ec2 & Hv & Ho).
  assert (content_of_first "FileName" dkids2 = Some (k_filename d)) as Ef by (rewrite Hv; cbn; by destruct (first_child "FileName" dkids)).
  exists m2. split_and!; [done|done|congruence| |by exists (<["data_len" := dec (k_dataLen d)]> dps), dkids2; rewrite lookup_insert_eq].
  split; [congruence|]. exists (<["data_len" := dec (k_dataLen d)]> dps), dkids2. split_and!; [done| | | | |].
  - by rewrite Ho.
  - unfold first_child in *. rewrite Hv. cbn. by apply set_content_leaf.
  - unfold first_child in *. by rewrite Ho.
  - rewrite Hw. done.
  - by rewrite Ho.
Qed.
Lemma write_hash_run d hasABE dm :
  k_encryptedFilePath d = "" → text (hash_content (k_dataHash d)) → dataIsVerifiable d = true →
  tidy dm → data_says false d dm →
  ∃ dm', write_hash_metadata d hasABE dm = Some dm' ∧ tidy dm' ∧ k_name dm' = k_name dm ∧ data_says false d dm' ∧
    ∀ dps dkids, k_wf dm dps dkids → ∃ dkids', k_wf dm' dps dkids' ∧ values "FileName" dkids' = values "FileName" dkids ∧
      content_of_first "FileHash" dkids' = Some (hash_content (k_dataHash d)).
Proof.
  intros He Htx Hv Ht [Hc (dps & dkids & Hwf & Hp & Hf1 & Hf2 & H1 & H2)]. unfold write_hash_metadata. rewrite sends_plain_data by done. fold (hash_content (k_dataHash d)).
  destruct (set_child_run "FileHash" (hash_content (k_dataHash d)) dm _ dkids Hwf Ht Htx Hf2) as (m2 & dkids2 & -> & Hwf2 & Ht2 & En2 & Ec2 & Hvs & Ho).
  assert (content_of_first "FileHash" dkids2 = Some (hash_content (k_dataHash d))) as Ef by (rewrite Hvs; cbn; by destruct (first_child "FileHash" dkids)).
  exists m2. split_and!; [done|done|done| |].
  - split; [congruence|]. exists dps, dkids2. split_and!; [done| | | | |].
    + by rewrite Ho.
    + unfold first_child in *. by rewrite Ho.
    + unfold first_child in *. rewrite Hvs. cbn. by apply set_content_leaf.
    + by rewrite Ho.
    + by rewrite Hv.
  - intros dps' dkids' Hwf'. destruct (k_wf_unique _ _ _ _ _ Hwf Hwf') as [-> E]. exists dkids2. split_and!; [done|by rewrite Ho, E by done|done].
Qed.

Definition data_named (d : kdobj) (dm : kmeta) : Prop :=
  ∃ dps dkids, k_wf dm dps dkids ∧ dps !! "data_len" = (if writes_data d then Some (dec (k_dataLen d)) else None) ∧
    content_of_first "FileName" dkids = (if writes_data d then Some (k_filename d) else None).

(** [m'] differs from [m] in the children named [name]. *)
Record changed (name : string) (m : kmeta) (ps : gmap string string) (kids : list (string * kmeta)) (m' : kmeta) (kids' : list (string * kmeta)) : Prop := Changed
  { ch_wf : k_wf m' ps kids'; ch_tidy : tidy m'; ch_name : k_name m' = k_name m; ch_rest : ∀ n, n ≠ name → values n kids' = values n kids }.

Lemma write_name_part d l m ps kids hasABE :
  fits d l → k_wf m ps kids → tidy m → data_says false d (first_child "Data" kids) →
  ∃ m' kids', (if (negb (k_dataLen d =? 0) && nonempty (k_filename d)) || (negb (k_encryptedFileLength d =? 0) && nonempty (k_encryptedFilePath d))
               then with_data_metadata m (write_data_metadata d hasABE) else Some m) = Some m' ∧
    changed "Data" m ps kids m' kids' ∧ data_says false d (first_child "Data" kids') ∧ data_named d (first_child "Data" kids').
Proof.
  intros Hf Hwf Ht Hd. fold (writes_data d). rewrite (ft_plain _ _ Hf). change (nonempty "") with false. rewrite andb_false_r, orb_false_r.
  destruct (first_child_tidy m ps kids "Data" Ht Hwf) as [Htd Hnd]. destruct (writes_data d) eqn:Ew.
  - destruct (write_data_run d hasABE (first_child "Data" kids)) as (dm' & E & Ht' & Hn' & Hs' & dps & dkids & Hwd & H1 & H2); try apply Hf; try done.
    destruct (with_data_run m ps kids (write_data_metadata d hasABE) dm' Hwf Ht E) as (m' & kids' & -> & Hwf' & Htm & Hnm & Hv & Ho);
      [congruence|apply Hs'|done|].
    exists m', kids'. split; [done|]. split; [by split|]. assert (first_child "Data" kids' = dm') as -> by (unfold first_child; by rewrite Hv).
    split; [done|]. exists dps, dkids. by rewrite Ew.
  - exists m, kids. split; [done|]. split; [by split|]. split; [done|]. destruct Hd as [_ (dps & dkids & Hwd & _ & _ & _ & H1 & _)].
    exists dps, dkids. rewrite Ew in *. split; [done|]. by apply H1.
Qed.

Lemma write_hash_part d l m ps kids hasABE :
  fits d l → k_wf m ps kids → tidy m → data_says false d (first_child "Data" kids) → data_named d (first_child "Data" kids) →
  ∃ m' kids', (if dataIsVerifiable d then with_data_metadata m (write_hash_metadata d hasABE) else Some m) = Some m' ∧
    changed "Data" m ps kids m' kids' ∧ data_says true d (first_child "Data" kids').
Proof.
  intros Hf Hwf Ht Hd (dps & dkids & Hwd & Hn1 & Hn2).
  destruct (first_child_tidy m ps kids "Data" Ht Hwf) as [Htd Hnd]. destruct (dataIsVerifiable d) eqn:Ev.
  - destruct (write_hash_run d hasABE (first_child "Data" kids)) as (dm' & E & Ht' & Hn' & Hs' & Hh); try apply Hf; try done.
    destruct (with_data_run m ps kids (write_hash_metadata d hasABE) dm' Hwf Ht E) as (m' & kids' & -> & Hwf' & Htm & Hnm & Hv & Ho);
      [congruence|apply Hs'|done|].
    exists m', kids'. split; [done|]. split; [by split|]. assert (first_child "Data" kids' = dm') as -> by (unfold first_child; by rewrite Hv).
    destruct Hs' as [Hc (dps2 & dkids2 & Hwd2 & Hp & Hf1 & Hf2 & _)]. destruct (Hh dps dkids Hwd) as (dkids3 & Hwd3 & Hfn & Hfh).
    destruct (k_wf_unique _ _ _ _ _ Hwd2 Hwd3) as [-> Eq]. split; [done|]. exists dps, dkids2. rewrite Ev. split_and!; [done..| |].
    + intros _. split; [done|]. by rewrite Eq, Hfn.
    + intros _. by rewrite Eq.
  - exists m, kids. split; [done|]. split; [by split|]. destruct Hd as [Hc (dps2 & dkids2 & Hwd2 & Hp & Hf1 & Hf2 & _ & H2)].
    destruct (k_wf_unique _ _ _ _ _ Hwd2 Hwd) as [-> Eq]. split; [done|]. exists dps, dkids2. split_and!; [done..| |].
    + intros _. by rewrite Eq.
    + intros _. apply H2. by rewrite Ev.
Qed.

Definition signature_says (d : kdobj) (kids : list (string * kmeta)) : Prop :=
  match k_signature d with
  | None => values "Signature" kids = []
  | Some sg => ∃ c sps, head (values "Signature" kids) = Some c ∧ k_content c = signature_string sg ∧ k_wf c sps [] ∧ sps !! "signee" = Some (k_signee d)
  end.
Lemma write_signature_run d l m ps kids :
  fits d l → k_wf m ps kids → tidy m → leaf (first_child "Signature" kids) → (k_signature d = None → values "Signature" kids = []) →
  ∃ m' kids', write_signature d m = Some m' ∧ changed "Signature" m ps kids m' kids' ∧ leaf (first_child "Signature" kids') ∧ signature_says d kids'.
Proof.
  intros Hf Hwf Ht Hl Hu. unfold write_signature, signature_says. destruct (k_signature d) as [sg|] eqn:Es.
  2:{ exists m, kids. split; [done|]. split; [by split|]. split; [done|by apply Hu]. }
  destruct (ft_signature _ _ Hf sg Es) as (Hne & Hb & Hlen & Htx). destruct sg as [|b sg]; [done|].
  assert (0 < BASE64_LENGTH (Z.of_nat (length (b :: sg))) < 2 ^ 62) as Hpos.
  { unfold BASE64_LENGTH. cbn [length] in *. Z.to_euclidean_division_equations. lia. }
  rewrite encode_alloc_ok; [|done|revert Hpos; generalize (BASE64_LENGTH (Z.of_nat (length (b :: sg)))); lia].
  rewrite (proj2 (Z.ltb_lt _ _) (proj1 Hpos)). fold (signature_string (b :: sg)).
  destruct (set_child_run "Signature" (signature_string (b :: sg)) m ps kids Hwf Ht Htx Hl) as (m1 & kids1 & -> & Hwf1 & Ht1 & En1 & _ & Hv1 & Ho1).
  cbn [mbind option_bind]. set (c := setContent _ _) in *. assert (leaf c) as [sps Hc] by by apply set_content_leaf.
  assert (tidy c ∧ k_name c = "Signature") as [Htc Hnc].
  { destruct (tidy_wf m1 ps kids1 Ht1 Hwf1 "Signature" c) as [[? _] ?]; [rewrite Hv1; by left|done]. }
  destruct (set_parameter_tidy c sps [] "signee" (k_signee d) Hc Htc) as (c' & Ec' & Hc' & Htc' & En' & Ect').
  destruct (update_first_run m1 ps kids1 "Signature" c _ (λ ms, setParameter ms "signee" (k_signee d)) c' Hwf1 Hv1 Ec') as (m2 & -> & Hwf2 & En2 & _).
  pose proof (values_set_first _ c' _ _ _ Hv1) as Hv2. eexists m2, _. split; [done|].
  assert (k_content c = signature_string (b :: sg)) as Ecc by (unfold c; by destruct (first_child "Signature" kids)).
  assert (leaf c') as Hlc' by by eexists. split; [split|].
  - exact Hwf2.
  - apply (tidy_changed m1 m2 ps kids1 ps _ Ht1 Hwf1 Hwf2). intros n x. rewrite Hv2. destruct (decide (n = "Signature")) as [->|]; [|by left].
    rewrite Hv1. intros [->|Hx]%elem_of_cons; [right|left; by right]. split; [|done]. split; [congruence|]. right. split; [|done]. by rewrite Ect', Ecc.
  - congruence.
  - intros n Hn. by rewrite Hv2, decide_False, Ho1.
  - unfold first_child. rewrite Hv2, decide_True by done. cbn [head default from_option id]. split; [done|].
    exists c', (<["signee" := k_signee d]> sps). split_and!; [done|congruence|done|apply lookup_insert_eq].
Qed.

Record says (d : kdobj) (l : list attr) (ps : gmap string string) (kids : list (string * kmeta)) : Prop := Says
  { sy_persistent : ps !! "persistent" = Some (if k_persistent d then "yes" else "no");
    sy_meta : meta_says true d ps kids;
    sy_attrs : Forall2 attr_element l (values "Attr" kids);
    sy_signature : signature_says d kids }.

Lemma first_child_same n kids kids' : values n kids' = values n kids → first_child n kids' = first_child n kids.
Proof. unfold first_child. by intros ->. Qed.
Lemma values_tagged (name n : string) (ks : list kmeta) : values n (pair name <$> ks) = if decide (name = n) then ks else [].
Proof.
  unfold values. induction ks as [|k ks IH]; [by case_decide|]. rewrite fmap_cons, filter_cons. cbn [fst].
  destruct (decide (name = n)); [rewrite fmap_cons; by f_equal|done].
Qed.

Lemma to_metadata_run d l :
  fits d l → ∃ m ps kids, toMetadata d = Some (Some m, set_metadata d (Some m)) ∧ k_name m = "Haggle" ∧ k_wf m ps kids ∧ tidy m ∧ says d l.*2 ps kids.
Proof.
  intros Hf. destruct (ft_meta _ _ Hf) as (m & ps & kids & Em & En & Hwf & Ht & [Hc Hup Hd Hl Hun]). unfold toMetadata. rewrite Em.
  destruct (set_parameter_tidy m ps kids "persistent" (if k_persistent d then "yes" else "no") Hwf Ht) as (m1 & -> & Hwf1 & Ht1 & En1 & _).
  cbn [mbind option_bind]. destruct (get_attribute_run d l "_ABE_" "*" 0 (ft_attrs _ _ Hf)) as (x & -> & _). cbn [mbind option_bind].
  set (ps1 := <["persistent" := _]> ps) in *. generalize (bool_decide (x ≠ None)). intros hasABE.
  destruct (write_name_part d l m1 ps1 kids hasABE Hf Hwf1 Ht1 Hd) as (m2 & kids2 & -> & [Hwf2 Ht2 En2 Ho2] & Hd2 & Hn2). cbn [mbind option_bind].
  destruct (write_hash_part d l m2 ps1 kids2 hasABE Hf Hwf2 Ht2 Hd2 Hn2) as (m3 & kids3 & -> & [Hwf3 Ht3 En3 Ho3] & Hd3). cbn [mbind option_bind].
  assert (values "Signature" kids3 = values "Signature" kids) as Es by (rewrite Ho3, Ho2 by done; done).
  destruct (write_signature_run d l m3 ps1 kids3 Hf Hwf3 Ht3) as (m4 & kids4 & -> & [Hwf4 Ht4 En4 Ho4] & Hl4 & Hs4);
    [by rewrite (first_child_same _ _ _ Es)|by rewrite Es|]. cbn [mbind option_bind].
  change DATAOBJECT_ATTRIBUTE_NAME with "Attr".
  destruct (kernel_remove_run m4 ps1 kids4 "Attr" Hwf4) as (m5 & -> & Hwf5 & En5 & _). cbn [mbind option_bind].
  assert (Hv5 : ∀ n, values n (filter (λ x : string * kmeta, x.1 ≠ "Attr") kids4) = if decide (n = "Attr") then [] else values n kids4).
  { intros n. destruct (decide (n = "Attr")) as [->|Hne]; [|by apply values_filter_ne]. apply values_none.
    intros (y & -> & [Hy _]%list_elem_of_filter)%list_elem_of_fmap. done. }
  assert (Ht5 : tidy m5).
  { apply (tidy_changed m4 m5 ps1 kids4 ps1 _ Ht4 Hwf4 Hwf5). intros n c. rewrite Hv5. case_decide; [by intros ?%elem_of_nil|by left]. }
  rewrite (entries_spec _ _ (aw_rep _ _ (ft_attrs _ _ Hf))). cbn [mbind option_bind].
  destruct (write_attrs_run l m5 ps1 _ Hwf5 Ht5 (ft_values _ _ Hf)) as (m6 & ks & -> & Hwf6 & Ht6 & En6 & Hks). cbn [mbind option_bind].
  eexists m6, ps1, _. split; [done|]. split; [congruence|]. split; [exact Hwf6|]. split; [done|].
  assert (Hv : ∀ n, values n (filter (λ x : string * kmeta, x.1 ≠ "Attr") kids4 ++ (pair "Attr" <$> ks)) = if decide (n = "Attr") then ks else values n kids4).
  { intros n. rewrite values_app, Hv5, values_tagged. destruct (decide (n = "Attr")) as [->|Hne]; [done|]. rewrite decide_False by congruence. apply app_nil_r. }
  split.
  - apply lookup_insert_eq.
  - split.
    + unfold time_param, ps1. by rewrite lookup_insert_ne.
    + unfold time_param, ps1. by rewrite lookup_insert_ne.
    + rewrite (first_child_same "Data" kids3); [done|]. rewrite Hv. cbn. by apply Ho4.
    + rewrite (first_child_same "Signature" kids4); [done|]. by rewrite Hv.
    + intros E. unfold signature_says in Hs4. rewrite E in Hs4. by rewrite Hv.
  - by rewrite Hv.
  - unfold signature_says in *. by rewrite Hv.
Qed.

(** The object fits again with the metadata that was written. *)
Lemma says_fits d l m ps kids :
  fits d l → k_name m = "Haggle" → k_wf m ps kids → tidy m → says d l.*2 ps kids → fits (set_metadata d (Some m)) l.
Proof.
  intros [] En Hwf Ht [_ [H1 H2 [Hc (dps & dkids & Hwd & Hp & Hf1 & Hf2 & H3 & H4)] H5 H6] _ _]. split; try done. exists m, ps, kids.
  split_and!; try done. split; try done. split; [done|]. exists dps, dkids. split_and!; try done; intros _; [by apply H3|by apply H4].
Qed.
End Tidy.

(** ** Reading *)

Section Read.
Context {SHA_CTX : Type} (SHA_Init : SHA_CTX) (SHA_Update : SHA_CTX → list Z → SHA_CTX) (SHA_Final : SHA_CTX → list Z).
Context (ctx_buf : list Z) (Hctx : length ctx_buf = 4%nat) (uninit_time : Timeval).
Context (xmlIsBlankNode : string → bool) (xmlStringGetNodeList : string → list xmlNode).
Abbreviation fit := (fits xmlIsBlankNode xmlStringGetNodeList).

Lemma twin_get m m' ps kids name :
  k_wf m ps kids → twin m m' → getParameter m' name = Some (ps !! name).
Proof. intros H Ht. destruct (twin_wf _ _ _ _ Ht H) as (kids' & H' & _). by apply (get_parameter_run _ _ kids'). Qed.

(** The first child with the name. *)
Lemma twin_child m m' ps kids name :
  k_wf m ps kids → twin m m' → ∃ r, getMetadata m' name 0 = Some r ∧
    match head (values name kids) with None => r.1 = None | Some c => ∃ c', r.1 = Some c' ∧ k_content c' = k_content c ∧ twin c c' end.
Proof.
  intros H Ht. destruct (twin_wf _ _ _ _ Ht H) as (kids' & H' & _ & Hv). destruct (get_metadata_run m' ps kids' name 0 H') as (r & rest & -> & _).
  eexists. split; [done|]. cbn [fst]. specialize (Hv name). inversion Hv as [|c c' vs vs' [E Et]]; cbn; [done|by exists c'].
Qed.
Lemma twin_content m m' ps kids name :
  k_wf m ps kids → twin m m' → ∃ c r, getMetadata m' name 0 = Some (c, r) ∧ getContent <$> c = (k_content <$> head (values name kids)).
Proof.
  intros H Ht. destruct (twin_child m m' ps kids name H Ht) as ([c r] & -> & Hc). exists c, r. split; [done|]. cbn [fst] in Hc.
  destruct (head (values name kids)); [|by subst c]. destruct Hc as (c' & -> & E & _). cbn. by rewrite <- E.
Qed.

Lemma read_time ps name t :
  time_param ps name t → (isValid t = true ∧ tv_sec t < 10 ^ 12) ∨ t = invalid_time →
  match ps !! name with Some p => Timeval_string uninit_time p | None => Some invalid_time end = Some t.
Proof.
  intros -> [[Hv Hl]| ->]; [rewrite Hv; by apply time_text_read|done].
Qed.

Lemma parse_head_twin d l m m' ps kids :
  fit d l → k_wf m ps kids → twin m m' → says d l.*2 ps kids →
  ∃ n c, parse_head uninit_time (set_metadata kdobj_new (Some m')) m' =
    Some (set_times (set_flags (set_metadata kdobj_new (Some m')) (k_persistent d) n c) (k_createTime d) (k_updateTime d)).
Proof.
  intros Hf Hwf Ht Hs. pose proof (ft_times _ _ _ _ Hf) as Htm. apply Forall_cons in Htm as [Hct Hut]. apply Forall_cons in Hut as [Hut _].
  unfold parse_head. rewrite !(twin_get m m' ps kids) by done. cbn [mbind option_bind]. rewrite (sy_persistent _ _ _ _ Hs).
  assert (read_persistence (set_metadata kdobj_new (Some m')) (Some (if k_persistent d then "yes" else "no")) = set_flags (set_metadata kdobj_new (Some m')) (k_persistent d) false false) as ->
    by by destruct (k_persistent d).
  unfold read_times. cbn [set_flags set_metadata k_createTime k_updateTime kdobj_new].
  rewrite (read_time ps "create_time" (k_createTime d)), (read_time ps "update_time" (k_updateTime d)); [|apply Hs|done|apply Hs|done].
  cbn [mbind option_bind]. unfold read_marks. destruct (twin_child m m' ps kids NODE_METADATA Hwf Ht) as ([nd r] & -> & _). cbn [mbind option_bind].
  destruct (twin_child m m' ps kids "Application" Hwf Ht) as ([app r'] & -> & Happ). cbn [mbind option_bind fst] in *.
  destruct app as [app|]; [|destruct nd; by eexists _, _].
  destruct (head (values "Application" kids)) as [a|]; [|done]. destruct Happ as (a' & [= ->] & _ & (mt & _ & Ha')). destruct Ha' as [a' mt psa kidsa Hwa _ _ _].
  destruct (get_metadata_run a' psa kidsa "Control" 0 Hwa) as (rc & rest & -> & _). cbn [mbind option_bind].
  destruct nd, (values "Control" kidsa !! 0%nat); by eexists _, _.
Qed.

Lemma parse_attribute_twin a k k' : 0 <= aw a < 2 ^ 63 → attr_element a k → twin k k' → k_content k' = k_content k → parse_attribute k' = Some a.
Proof.
  intros Hw [_ Hc (ps & Hwf & Hn & Hwt)] Ht Hc'. unfold parse_attribute. rewrite !(twin_get k k' ps []) by done. rewrite Hn, Hwt. cbn [mbind option_bind].
  unfold getContent. rewrite Hc', Hc. destruct a as [n v w]. cbn [an av aw default from_option id] in *. destruct (Z.eqb_spec w 0) as [->|]; [done|].
  by rewrite strtoul_dec by lia.
Qed.

Definition data_received (d kd : kdobj) : kdobj :=
  let k := if writes_data d then set_file kd (k_filename d) (k_filepath kd) (k_dataLen d) (k_dataLen d) else kd in
  if dataIsVerifiable d then set_hash k (k_dataHash d) DATA_STATE_NOT_VERIFIED else k.

Lemma hash_content_read h : bytes h → length h = DATAOBJECT_ID_LEN → bytes_of_string (hash_content h) = b64_enc h.
Proof. intros Hb Hl. by apply hash_text. Qed.

Lemma parse_data_twin fs d l kd dm dm' :
  fit d l → data_says true d dm → twin dm dm' → k_filename kd = "" → k_dataState kd = DATA_STATE_UNKNOWN → length (k_dataHash kd) = DATAOBJECT_ID_LEN →
  parse_data ctx_buf fs true kd dm' = Some (true, data_received d kd, dm').
Proof using Hctx.
  intros Hf [_ (dps & dkids & Hwf & Hp & _ & _ & H1 & H2)] Ht Hfn Hst Hlk. destruct H1 as [Hl Hn]; [done|]. specialize (H2 eq_refl). unfold parse_data.
  rewrite (twin_get dm dm' dps dkids), Hl by done. cbn [mbind option_bind].
  destruct (twin_content dm dm' dps dkids "FileName" Hwf Ht) as (fm & r & -> & Hfm). cbn [mbind option_bind].
  destruct (twin_child dm dm' dps dkids "FilePath" Hwf Ht) as ([pm r'] & -> & Hpm). rewrite Hp in Hpm. cbn in Hpm. subst pm. cbn [mbind option_bind negb].
  rewrite Hn in Hfm. set (k1 := match fm with Some _ => _ | None => _ end).
  assert (k1 = if writes_data d then set_file kd (k_filename d) (k_filepath kd) (k_dataLen d) (k_dataLen d) else kd) as ->.
  { unfold k1. pose proof (ft_len _ _ _ _ Hf). destruct (writes_data d), fm as [fm|]; try done. cbn in Hfm. injection Hfm as Hfm.
    by rewrite Hfm, strtoul_dec by lia. }
  unfold parse_filehash, data_received. set (k := if writes_data d then _ else kd).
  assert (k_dataState k = DATA_STATE_UNKNOWN) as -> by (unfold k; by destruct (writes_data d)).
  destruct (twin_content dm dm' dps dkids "FileHash" Hwf Ht) as (hm & r2 & -> & Hhm). cbn [mbind option_bind]. rewrite H2 in Hhm.
  destruct (dataIsVerifiable d), hm as [hm|]; try done.
  change (Some (getContent hm) = Some (hash_content (k_dataHash d))) in Hhm. injection Hhm as Hhm. destruct (ft_hash _ _ _ _ Hf) as (Hb & Hlen & _).
  rewrite Hhm, hash_content_read by done.
  destruct (base64_decode_enc ctx_buf (k_dataHash d) DATAOBJECT_ID_LEN Hctx Hb) as (res & -> & Ok & Eo); [by rewrite Hlen|].
  cbn [mbind option_bind]. rewrite Ok, Eo, Hlen. rewrite drop_ge; [by rewrite app_nil_r|]. unfold k. destruct (writes_data d); cbn; by rewrite Hlk.
Qed.

Lemma set_metadata_self kd : set_metadata kd (k_metadata kd) = kd.
Proof. by destruct kd. Qed.

Lemma data_element_twin fs d l kd m m' ps kids :
  fit d l → k_wf m ps kids → twin m m' → says d l.*2 ps kids →
  k_filename kd = "" → k_dataState kd = DATA_STATE_UNKNOWN → length (k_dataHash kd) = DATAOBJECT_ID_LEN →
  ∃ m2 o r, parse_data_element ctx_buf fs true kd m' = Some (true, set_metadata (data_received d kd) o, m2) ∧ (is_Some (k_metadata kd) → is_Some o) ∧ getMetadata m2 "Signature" 0 = Some r ∧
    match head (values "Signature" kids) with None => r.1 = None | Some c => ∃ c', r.1 = Some c' ∧ k_content c' = k_content c ∧ twin c c' end.
Proof using Hctx.
  intros Hf Hwf Ht Hs Hfn Hst Hlk. destruct (sy_meta _ _ _ _ Hs) as [_ _ Hd _ _]. unfold parse_data_element.
  destruct (twin_wf _ _ _ _ Ht Hwf) as (kids' & Hwf' & _ & Hv). change DATAOBJECT_METADATA_DATA with "Data".
  destruct (get_metadata_run m' ps kids' "Data" 0 Hwf') as (r0 & rest & -> & _). cbn [mbind option_bind].
  pose proof (Hv "Data") as Hvd. unfold first_child in Hd. destruct (values "Data" kids) as [|dm vs].
  - apply Forall2_nil_inv_l in Hvd as ->. cbn [lookup list_lookup head default from_option id] in *.
    destruct Hd as [_ (dps & dkids & Hwd & _ & _ & _ & H1 & H2)]. destruct H1 as [H1 _]; [done|]. specialize (H2 eq_refl).
    destruct (k_wf_unique _ _ _ _ _ (new_wf "Data" "") Hwd) as [<- Ev]. rewrite <- Ev in H2. rewrite lookup_empty in H1. change (values "FileHash" []) with (@nil kmeta) in H2.
    destruct (twin_child m m' ps kids "Signature" Hwf Ht) as (r & Er & Hr). exists m', (k_metadata kd), r. split; [|by split].
    unfold data_received. destruct (writes_data d); [done|]. destruct (dataIsVerifiable d); [done|]. by rewrite set_metadata_self.
  - apply Forall2_cons_inv_l in Hvd as (dm' & vs' & [_ Htd] & _ & Ev'). rewrite Ev'. cbn [lookup list_lookup head default from_option id] in *.
    rewrite (parse_data_twin fs d l kd dm dm') by done. cbn [mbind option_bind].
    destruct (update_first_run m' ps kids' "Data" dm' vs' (λ _, Some dm') dm' Hwf' Ev' eq_refl) as (m2 & -> & Hwf2 & _). cbn [mbind option_bind].
    destruct (get_metadata_run m2 ps _ "Signature" 0 Hwf2) as (r2 & rest2 & E2 & _). exists m2, (Some m2). eexists. split; [done|]. split; [by eexists|]. split; [exact E2|].
    cbn [fst]. rewrite (values_set_first _ _ _ _ _ Ev'), decide_False by done. specialize (Hv "Signature").
    inversion Hv as [|c c' cs cs' [E Et]]; cbn; [done|by exists c'].
Qed.

Definition signature_received (d kd : kdobj) : kdobj :=
  match k_signature d with Some sg => set_signature kd SIGNATURE_UNVERIFIED (k_signee d) (Some sg) | None => kd end.
Lemma parse_signature_twin d l kd m2 r kids :
  fit d l → signature_says d kids → k_signatureStatus kd = SIGNATURE_MISSING → getMetadata m2 "Signature" 0 = Some r →
  match head (values "Signature" kids) with None => r.1 = None | Some c => ∃ c', r.1 = Some c' ∧ k_content c' = k_content c ∧ twin c c' end →
  parse_signature ctx_buf kd m2 = Some (true, signature_received d kd).
Proof using Hctx.
  intros Hf Hs Hst Er Hr. unfold parse_signature, signature_received, signature_says in *. rewrite Hst, Er. destruct r as [sm r]. cbn [mbind option_bind fst] in *.
  destruct (k_signature d) as [sg|] eqn:Es; [|rewrite Hs in Hr; cbn in Hr; by subst sm].
  destruct Hs as (c & sps & Eh & Ec & Hwc & Hsg). rewrite Eh in Hr. destruct Hr as (c' & -> & Ec' & Htc).
  rewrite (twin_get c c' sps []), Hsg by done. cbn [mbind option_bind default from_option id]. unfold getContent. rewrite Ec', Ec.
  destruct (ft_signature _ _ _ _ Hf sg Es) as (_ & Hb & _).
  assert (bytes_of_string (signature_string sg) = b64_enc sg) as -> by (apply (bytes_of_string_of_bytes _ []); by apply b64_enc_text).
  by rewrite decode_alloc_enc.
Qed.

(** What the other kernel has of the object. *)
Record same_object (d : kdobj) (l : list attr) (kd : kdobj) : Prop := SameObject
  { so_attrs : ∃ l', attrs_wf (k_attrs kd) l' ∧ l'.*2 = l;
    so_times : k_createTime kd = k_createTime d ∧ k_updateTime kd = k_updateTime d;
    so_persistent : k_persistent kd = k_persistent d;
    so_data : if writes_data d then k_filename kd = k_filename d ∧ k_dataLen kd = k_dataLen d ∧ k_origDataLen kd = k_dataLen d
              else k_filename kd = "" ∧ k_dataLen kd = 0;
    so_hash : if dataIsVerifiable d then k_dataHash kd = k_dataHash d ∧ k_dataState kd = DATA_STATE_NOT_VERIFIED else k_dataState kd = DATA_STATE_UNKNOWN;
    so_signature : k_signature kd = k_signature d ∧
                   if k_signature d is Some _ then k_signatureStatus kd = SIGNATURE_UNVERIFIED ∧ k_signee kd = k_signee d else k_signatureStatus kd = SIGNATURE_MISSING;
    so_new : k_filepath kd = "" ∧ k_encryptedFilePath kd = "" ∧ k_ABEStatus kd = ABE_NOT_NEEDED ∧ is_Some (k_metadata kd) }.

Lemma parse_attributes_persistent ks : ∀ d d', parse_attributes d ks = Some d' → k_persistent d' = k_persistent d.
Proof.
  induction ks as [|k ks IH]; intros d d'; cbn [parse_attributes]; [by intros [= ->]|].
  destruct (parse_attribute k) as [a|]; [|done]. cbn [mbind option_bind]. set (d1 := if string_eq _ _ then _ else d).
  assert (k_persistent d1 = k_persistent d) as E1 by (unfold d1; by destruct (string_eq _ _)).
  destruct (hasAttribute d1 a) as [[]|]; [|destruct (attrs_add (k_attrs d1) a) as [[]|]; [|done]|done]; cbn [mbind option_bind]; intros H%IH; by rewrite H.
Qed.

Lemma received_ctx d l kd : fit d l → same_object d l.*2 kd → id_ctx SHA_Init SHA_Update kd l.*2 = id_ctx SHA_Init SHA_Update d l.*2.
Proof.
  intros Hf [_ [Ht _] _ Hd Hh _ (_ & He & _)]. unfold id_ctx, hash_data. rewrite Ht, He, (ft_plain _ _ _ _ Hf).
  assert (dataIsVerifiable kd = dataIsVerifiable d) as ->.
  { destruct (dataIsVerifiable d); [destruct Hh as [_ Hh]|]; unfold dataIsVerifiable; by rewrite Hh. }
  destruct (dataIsVerifiable d); [by destruct Hh as [-> _]|]. pose proof (ft_len _ _ _ _ Hf) as Hl.
  assert (nonempty (k_filename d) && (0 <? k_dataLen d) = writes_data d) as ->.
  { unfold writes_data. rewrite andb_comm. f_equal. destruct (Z.ltb_spec 0 (k_dataLen d)), (Z.eqb_spec (k_dataLen d) 0); done || lia. }
  destruct (writes_data d) eqn:Ew; [destruct Hd as (-> & -> & _)|by destruct Hd as [-> _]].
  assert (nonempty (k_filename d) = true ∧ (0 <? k_dataLen d) = true) as [-> ->]; [|done].
  unfold writes_data in Ew. apply andb_true_iff in Ew as [E1 E2]. split; [done|]. apply Z.ltb_lt. destruct (Z.eqb_spec (k_dataLen d) 0); [done|lia].
Qed.

Lemma parse_twin fs d l m m' ps kids :
  fit d l → k_wf m ps kids → twin m m' → says d l.*2 ps kids →
  ∃ kd, parseMetadata SHA_Init SHA_Update SHA_Final ctx_buf uninit_time fs true (set_metadata kdobj_new (Some m')) = Some (0, kd) ∧
    same_object d l.*2 kd ∧ k_id kd = SHA_Final (id_ctx SHA_Init SHA_Update d l.*2) ∧ k_idStr kd = id_string (k_id kd).
Proof using Hctx.
  intros Hf Hwf Ht Hs. unfold parseMetadata. cbn [set_metadata k_metadata].
  destruct (parse_head_twin d l m m' ps kids Hf Hwf Ht Hs) as (n & c & E). cbn [set_metadata kdobj_new] in E |- *. rewrite E. clear E. cbn [mbind option_bind].
  set (d1 := set_times _ _ _). destruct (twin_wf _ _ _ _ Ht Hwf) as (kids' & Hwf' & _ & Hv).
  change DATAOBJECT_ATTRIBUTE_NAME with "Attr". rewrite (children_named_run m' ps kids' "Attr" Hwf'). cbn [mbind option_bind].
  assert (Hks : Forall2 (λ k a, parse_attribute k = Some a) (values "Attr" kids') l.*2).
  { pose proof (sy_attrs _ _ _ _ Hs) as Ha. pose proof (Hv "Attr") as Hva. pose proof (ft_values _ _ _ _ Hf) as Hw. clear -Ha Hva Hw Hctx.
    revert Hva Hw. generalize (values "Attr" kids'). revert Ha. generalize (values "Attr" kids). clear kids kids'. induction l as [|x l IH]; intros ks Ha ks' Hva Hw.
    - apply Forall2_nil_inv_l in Ha as ->. apply Forall2_nil_inv_l in Hva as ->. constructor.
    - rewrite fmap_cons in Ha. apply Forall2_cons_inv_l in Ha as (k & ks2 & Hk & Ha & ->). apply Forall2_cons_inv_l in Hva as (k' & ks3 & [Ec Et] & Hva & ->).
      apply Forall_cons in Hw as [[Hx _] Hw]. rewrite fmap_cons. constructor; [by apply (parse_attribute_twin x.2 k k')|by apply (IH ks2 Ha)]. }
  destruct (parse_attributes_run d1 [] (values "Attr" kids') l.*2 attrs_wf_new Hks) as (p2 & n2 & c2 & am & l' & E & Hwfa & Hperm).
  { rewrite app_nil_r. apply (distinct_perm l.*2); [apply Permutation_rev|apply Hf]. }
  pose proof (parse_attributes_persistent _ _ _ E) as Ep. rewrite E. cbn [mbind option_bind] in *. cbn [fmap list_fmap] in Hperm. rewrite app_nil_r in Hperm.
  assert (Hl : l'.*2 = l.*2) by (apply (sorted_values am); [done|apply (attrs_values_sorted (k_attrs d)), Hf|done]).
  set (d3 := set_attrs _ am) in *.
  destruct (data_element_twin fs d l d3 m m' ps kids Hf Hwf Ht Hs eq_refl eq_refl eq_refl) as (m2 & o & r & -> & Ho & Er & Hr). cbn [mbind option_bind negb].
  specialize (Ho ltac:(by eexists)). set (d4 := set_metadata (data_received d d3) o).
  assert (k_signatureStatus d4 = SIGNATURE_MISSING) as Hst by (unfold d4, data_received; by destruct (writes_data d), (dataIsVerifiable d)).
  rewrite (parse_signature_twin d l d4 m2 r kids Hf (sy_signature _ _ _ _ Hs) Hst Er Hr). cbn [mbind option_bind negb].
  set (d5 := signature_received d d4).
  assert (Hso : same_object d l.*2 d5).
  { unfold d5, signature_received, d4, data_received.
    split; destruct (k_signature d) eqn:Es, (writes_data d) eqn:Ew, (dataIsVerifiable d) eqn:Ev; first [exact Ep | by exists l' | done]. }
  destruct (so_attrs _ _ _ Hso) as (l5 & Hwf5 & Hl5). rewrite (calc_run _ _ _ d5 l5 Hwf5). cbn [mbind option_bind]. eexists. split; [done|].
  rewrite Hl5, (received_ctx d l d5 Hf Hso). split; [|done]. by destruct Hso.
Qed.
End Read.

(** ** From kernel to kernel *)

Section Wire.
Context {SHA_CTX : Type} (SHA_Init : SHA_CTX) (SHA_Update : SHA_CTX → list Z → SHA_CTX) (SHA_Final : SHA_CTX → list Z).
Context (ctx_buf : list Z) (Hctx : length ctx_buf = 4%nat) (uninit_time : Timeval).
Context (xmlIsBlankNode : string → bool) (xmlNodeGetContent : xmlNode → string)
        (xmlNewNode : option string → option xmlNode)
        (xmlNewProp : xmlNode → string → string → option xmlNode)
        (xmlNewChild : option string → option string → option xmlNode)
        (xmlAddChild : xmlNode → xmlNode → xmlNode)
        (xmlParseMemory : list Z → option xmlNode)
        (xmlDocDumpFormatMemory : xmlNode → list Z)
        (xmlStringGetNodeList : string → list xmlNode).
Hypothesis content_text : ∀ n ps t, xmlNodeGetContent (XElement n ps [XText t]) = t.
Hypothesis xmlNewNode_spec : ∀ n, xmlNewNode (Some n) = Some (XElement n [] []).
Hypothesis xmlNewProp_spec : ∀ n ps ks a v, xmlNewProp (XElement n ps ks) a v = Some (XElement n (ps ++ [(a, Some v)]) ks).
Hypothesis xmlNewChild_spec : ∀ n c,
  xmlNewChild (Some n) c = Some (XElement n [] (match c with Some c => xmlStringGetNodeList c | None => [] end)).
Hypothesis xmlAddChild_spec : ∀ n ps ks c, xmlAddChild (XElement n ps ks) c = XElement n ps (ks ++ [c]).
(** A document that is written reads back the same but for blank texts, also without what follows
    its last tag. *)
Context (writable : xmlNode → Prop).
Hypothesis dump_parse : ∀ x, writable x →
  xmlDocDumpFormatMemory x ≠ [] ∧
  ∃ y, xmlParseMemory (xmlDocDumpFormatMemory x) = Some y ∧ strip xmlIsBlankNode y = strip xmlIsBlankNode x ∧
       (plain xmlIsBlankNode x → plain xmlIsBlankNode y).
Hypothesis parse_trimmed : ∀ x, writable x → xmlParseMemory (trim_header (xmlDocDumpFormatMemory x)) = xmlParseMemory (xmlDocDumpFormatMemory x).

Abbreviation fit := (fits xmlIsBlankNode xmlStringGetNodeList).
Abbreviation raw_metadata := (getRawMetadataAlloc xmlNewNode xmlNewProp xmlNewChild xmlAddChild xmlDocDumpFormatMemory).
Abbreviation create_doc := (createXMLDoc xmlNewNode xmlNewProp xmlNewChild xmlAddChild).

Lemma object_roundtrip fs d l :
  fit d l → calcId SHA_Init SHA_Update SHA_Final d = Some d →
  (∀ m d' doc, toMetadata d = Some (Some m, d') → create_doc m = Some (Some doc) → writable doc) →
  ∃ raw d', raw_metadata d = Some (Some raw, d') ∧ fit d' l ∧ calcId SHA_Init SHA_Update SHA_Final d' = Some d' ∧
    ∃ kd, parse_header SHA_Init SHA_Update SHA_Final ctx_buf uninit_time xmlIsBlankNode xmlNodeGetContent xmlParseMemory fs kdobj_new (trim_header raw) = Some (true, kd) ∧
      same_object d l.*2 kd ∧ k_id kd = k_id d ∧ k_idStr kd = k_idStr d ∧ expected kd = (if writes_data d then k_dataLen d else 0).
Proof using All.
  intros Hf Hid Hw. destruct (to_metadata_run xmlIsBlankNode xmlStringGetNodeList d l Hf) as (m & ps & kids & Em & En & Hwf & Ht & Hs).
  destruct (tidy_agrees xmlIsBlankNode xmlStringGetNodeList m Ht) as (mps & mcs & _ & Ha). destruct (Ha None) as [Hag Hpl].
  destruct (write_run xmlIsBlankNode xmlNodeGetContent xmlNewNode xmlNewProp xmlNewChild xmlAddChild xmlParseMemory xmlDocDumpFormatMemory
    xmlStringGetNodeList content_text xmlNewNode_spec xmlNewProp_spec xmlNewChild_spec xmlAddChild_spec writable dump_parse m _ Hag Hpl)
    as (raw & m' & _ & Er & _ & Hplain & El & Hag'); [by intros doc; apply (Hw m _ doc Em)|].
  pose proof (init_same xmlIsBlankNode xmlNodeGetContent content_text xmlParseMemory raw Hplain) as Hi. rewrite El in Hi.
  exists raw, (set_metadata d (Some m)). unfold getRawMetadataAlloc. rewrite Em. cbn [mbind option_bind]. rewrite Er. cbn [mbind option_bind].
  split; [done|]. split; [by apply (says_fits _ _ d l m ps kids)|].
  rewrite (calc_run _ _ _ d l (ft_attrs _ _ _ _ Hf)) in Hid. injection Hid as Hid.
  split.
  { rewrite (calc_run _ _ _ (set_metadata d (Some m)) l (ft_attrs _ _ _ _ Hf)). f_equal.
    exact (f_equal (λ d, set_metadata d (Some m)) Hid). }
  assert (initFromRaw xmlIsBlankNode xmlNodeGetContent xmlParseMemory (trim_header raw) = initFromRaw xmlIsBlankNode xmlNodeGetContent xmlParseMemory raw) as Etrim.
  { unfold getRawAlloc in Er. destruct (create_doc m) as [[doc|]|] eqn:Ed; cbn [mbind option_bind] in Er; [|done..].
    assert (raw = xmlDocDumpFormatMemory doc) as -> by (destruct (length (xmlDocDumpFormatMemory doc) =? 0)%nat; [done|by injection Er]). unfold initFromRaw. by rewrite parse_trimmed by by apply (Hw m _ doc Em). }
  unfold parse_header. rewrite Etrim. destruct (initFromRaw _ _ _ raw) as [[k'|]|]; [|done..]. cbn [mbind option_bind].
  pose proof (agrees_name _ _ Hag'). pose proof (agrees_name _ _ Hi).
  assert (string_ne (k_name k') "Haggle" = false) as -> by (apply not_true_iff_false; rewrite string_ne_iff; intros Hne; apply Hne; congruence).
  destruct (parse_twin SHA_Init SHA_Update SHA_Final ctx_buf Hctx uninit_time xmlIsBlankNode xmlStringGetNodeList fs d l m k' ps kids Hf Hwf)
    as (kd & -> & Hso & Hkid & Hstr); [by exists m'|done|]. cbn [mbind option_bind Z.ltb Z.compare]. exists kd. split; [done|]. split; [done|].
  assert (k_id d = k_id kd) as Eid by (rewrite Hkid; symmetry; exact (f_equal k_id Hid)).
  split_and!; [done| |].
  - rewrite Hstr, Hkid. exact (f_equal k_idStr Hid).
  - unfold expected. destruct (so_new _ _ _ Hso) as (_ & _ & -> & _). pose proof (so_data _ _ _ Hso) as Hd. destruct (writes_data d); [apply Hd|by destruct Hd].
Qed.

(** C5: what one kernel sends of a data object, another takes for the same object: the metadata of
    an object that is not encrypted and not for a local application are written without fail; read
    from the network up to the last tag, they give an object with the same attributes in the same
    order, times, persistence, file name, length, hash, signee and signature - the hash and the
    signature to be verified - and with the identifier the sender has for it.  It expects as much
    data as the sender's object has.  The sender's object stays one of which all this holds. *)
Theorem kernel_object_roundtrip fs d l :
  fit d l → calcId SHA_Init SHA_Update SHA_Final d = Some d →
  (∀ m d' doc, toMetadata d = Some (Some m, d') → create_doc m = Some (Some doc) → writable doc) →
  ∃ raw d', raw_metadata d = Some (Some raw, d') ∧ fit d' l ∧ calcId SHA_Init SHA_Update SHA_Final d' = Some d' ∧
    ∃ kd, parse_header SHA_Init SHA_Update SHA_Final ctx_buf uninit_time xmlIsBlankNode xmlNodeGetContent xmlParseMemory fs kdobj_new (trim_header raw) = Some (true, kd) ∧
      same_object d l.*2 kd ∧ k_id kd = k_id d ∧ k_idStr kd = k_idStr d ∧ expected kd = (if writes_data d then k_dataLen d else 0).
Proof using All. apply object_roundtrip. Qed.

(** ** The whole way *)

Context (storagepath : string) (can_open : string → bool) (send_size recv_size : nat) (maxBlockingTries : Z).
Context (has : list Z → bool) (hasFragmentationParentDataObject hasNetworkCodingParentDataObject : kdobj → bool).
Hypothesis files_open : ∀ path, can_open path = true.
Hypothesis sizes_pos : (0 < send_size)%nat ∧ (0 < recv_size)%nat.

Abbreviation step := (net_step SHA_Init SHA_Update SHA_Final ctx_buf uninit_time xmlIsBlankNode xmlNodeGetContent xmlParseMemory storagepath can_open
  send_size recv_size maxBlockingTries has hasFragmentationParentDataObject hasNetworkCodingParentDataObject).
Abbreviation unwanted kd := (has (k_id kd) || hasFragmentationParentDataObject kd || hasNetworkCodingParentDataObject kd).

(** The end of a transfer of [d] with the data [contents] to a node with the files [fs0]. *)
Inductive arrived (d : kdobj) (l : list attr) (contents : list Z) (fs0 : files) : net → Prop :=
  | arrived_with_data kd path v :
      same_object d l kd → k_id kd = k_id d →
      let o := if k_dataLen d =? 0 then kd else set_file kd (k_filename kd) path (k_dataLen kd) (k_origDataLen kd) in
      unwanted o = false → rv_put v = Put o None → rv_fs v = (if k_dataLen d =? 0 then fs0 else <[path := contents]> fs0) →
      rv_events v = [EVENT_TYPE_DATAOBJECT_INCOMING o; EVENT_TYPE_DATAOBJECT_RECEIVED o] →
      arrived d l contents fs0 (Net (S_Return PROT_EVENT_SUCCESS) [] [] (R_Return PROT_EVENT_SUCCESS v))
  | arrived_unwanted kd e v :
      k_id kd = k_id d → unwanted kd = true → e ∈ [PROT_EVENT_REJECT; PROT_EVENT_REJECT_PARENTDATAOBJECT] → rv_events v = [] →
      arrived d l contents fs0 (Net (S_Return e) [] [] (R_Return PROT_EVENT_SUCCESS v)).

Lemma reply_wanted kd :
  reply_to has hasFragmentationParentDataObject hasNetworkCodingParentDataObject kd = CTRLMSG_TYPE_ACCEPT ↔ unwanted kd = false.
Proof. unfold reply_to. by destruct (has (k_id kd)), (hasFragmentationParentDataObject kd), (hasNetworkCodingParentDataObject kd). Qed.
Lemma restore_plain kd l' : attrs_wf (k_attrs kd) l' → Forall (λ a, an a ≠ "_ABE_") l'.*2 → restoreEncryptedDataObject SHA_Init SHA_Update SHA_Final kd = Some kd.
Proof.
  intros Hwf Habe. unfold restoreEncryptedDataObject, hasABEAttribute.
  destruct (get_attribute_run kd l' "_ABE_" "*" 0 Hwf) as (x & -> & E). cbn [mbind option_bind].
  assert (matched (MkAttr "_ABE_" "*" 0) l'.*2 = false) as Em.
  { apply not_true_iff_false. rewrite matched_iff. intros (b & Hb & [En _]%attribute_eq_iff). rewrite Forall_forall in Habe. by apply (Habe b). }
  rewrite Em in E. apply bool_decide_eq_false, dec_stable in E. by subst x.
Qed.

Lemma transferred_arrived d l kd contents fs0 st :
  same_object d l kd → k_id kd = k_id d → expected kd = k_dataLen d → Forall (λ a, an a ≠ "_ABE_") l →
  transferred SHA_Init SHA_Update SHA_Final storagepath has hasFragmentationParentDataObject hasNetworkCodingParentDataObject fs0 contents kd st →
  arrived d l contents fs0 st.
Proof.
  intros Hso Hid Hex Habe H. destruct (so_attrs _ _ _ Hso) as (l' & Hwf & Hl). rewrite <- Hl in Habe.
  assert (Ha : ∀ now o, announced storagepath kd now = Some o →
    ∃ path, o = if k_dataLen d =? 0 then kd else set_file kd (k_filename kd) path (k_dataLen kd) (k_origDataLen kd)).
  { unfold announced. intros now o. rewrite Hex. destruct (k_dataLen d =? 0); [intros [= <-]; by exists ""|]. unfold createFilePath.
    destruct (getAttribute _ _ _ _); [|done]. destruct (getAsString now); [|done]. cbn [mbind option_bind]. intros [= <-]. by eexists. }
  destruct H as [now o o' v Ho Hr Ho' Hp Hf He|now v Ho Hr Hf He].
  - destruct (Ha now o Ho) as [path Eo]. assert (o' = o) as ->.
    { unfold completed in Ho'. rewrite Hex in Ho'. destruct (k_dataLen d =? 0); [by injection Ho'|].
      rewrite (restore_plain o l') in Ho'; [by injection Ho'|by rewrite Eo|done]. }
    unfold files_with in Hf. rewrite Hex in Hf. apply reply_wanted in Hr. rewrite Eo in *. apply (arrived_with_data d l contents fs0 kd path v); try done.
    by destruct (k_dataLen d =? 0).
  - destruct (Ha now _ Ho) as [path Eo]. apply (arrived_unwanted d l contents fs0 (rv_dobj v)); [|rewrite reply_wanted in Hr; by apply not_false_iff_true| |done].
    + rewrite Eo. by destruct (k_dataLen d =? 0).
    + unfold refusal. destruct (reply_to _ _ _ _ =? _); [by left|right; by left].
Qed.

(** C2: a data object gets from one kernel to the other.  Its metadata are written, sent, read,
    and with them the file: whatever the pieces into which the connection cuts the stream, and
    whatever the order of the steps, the two functions return after a bounded number of steps, no
    state before is stuck, and at the end the receiver has - with the two events INCOMING and
    RECEIVED - an object with the sender's identifier, attributes, times, hash and signature, and
    at its path a file with exactly the sender's data; or it had the object, or one it is a part
    of, already, the sender was told so and no event was made. *)
Theorem kernel_to_kernel fs fs0 d l contents buffer :
  fit d l → calcId SHA_Init SHA_Update SHA_Final d = Some d →
  (∀ m d' doc, toMetadata d = Some (Some m, d') → create_doc m = Some (Some doc) → writable doc) →
  (∀ raw d', raw_metadata d = Some (Some raw, d') → is_header (trim_header raw)) →
  k_ABEStatus d = ABE_NOT_NEEDED → Forall (λ a, an a ≠ "_ABE_") l.*2 → (k_dataLen d ≠ 0 → k_filename d ≠ "") → k_dataLen d ≠ DATAOBJECT_METADATA_PENDING →
  fs !! k_filepath d = Some contents → Z.of_nat (length contents) = k_dataLen d →
  ∃ r d' bound, getDataObjectDataRetriever xmlNewNode xmlNewProp xmlNewChild xmlAddChild xmlDocDumpFormatMemory fs d = Some (r, d') ∧
    let start := Net (sendDataObjectNow send_size false r) [] [] (receiveDataObject buffer fs0) in
    (∀ k st, nsteps step k start st → (k <= bound)%nat ∧ (arrived d l.*2 contents fs0 st ∨ ∃ st', step st st')) ∧
    ∃ k st, nsteps step k start st ∧ arrived d l.*2 contents fs0 st.
Proof using All.
  intros Hf Hid Hw Hhead Habe Hno Hname Hpend Hfile Hlen. destruct sizes_pos as [Hs1 Hs2].
  destruct (object_roundtrip fs0 d l Hf Hid Hw) as (raw & d' & Er & _ & _ & kd & Ek & Hso & Eid & _ & Ex).
  assert (expected kd = k_dataLen d) as Ex'.
  { rewrite Ex. unfold writes_data. destruct (Z.eqb_spec (k_dataLen d) 0) as [E|E]; [done|]. specialize (Hname E).
    assert (nonempty (k_filename d) = true) as ->; [|done]. unfold nonempty. by destruct (k_filename d). }
  pose proof (Hhead _ _ Er) as Hh. pose proof (ft_len _ _ _ _ Hf) as Hl.
  destruct (retriever_run xmlNewNode xmlNewProp xmlNewChild xmlAddChild xmlDocDumpFormatMemory fs d raw d' contents)
    as (r & Eget & Hok & Hhl & Hdl); [done|apply Hf|done| |done|lia|].
  { intros E. pose proof (ih_ends _ Hh) as He. by rewrite E in He. }
  assert (data_left r = contents) as Hdl' by (rewrite Hdl, take_ge; [done|lia]).
  exists (Some r), d', (2 * length (trim_header raw) + 2 * length contents + 4)%nat. split; [done|]. cbv zeta.
  assert (expected kd = Z.of_nat (length contents)) as Exl by lia.
  assert (Z.of_nat (length contents) ≠ DATAOBJECT_METADATA_PENDING) as Hpl by lia.
  destruct (transfer_ends SHA_Init SHA_Update SHA_Final ctx_buf uninit_time xmlIsBlankNode xmlNodeGetContent xmlParseMemory storagepath can_open
    send_size recv_size maxBlockingTries has hasFragmentationParentDataObject hasNetworkCodingParentDataObject Hs1 fs0 (trim_header raw) contents kd Hh Ek
    Exl Hpl files_open Hs2 r buffer Hok Hhl Hdl') as [Hall (k & st & Hk & Hend)].
  assert (Hto := λ st, transferred_arrived d l.*2 kd contents fs0 st Hso Eid Ex' Hno). split.
  - intros k' st' Hk'. destruct (Hall k' st' Hk') as [Hle [Ht|Hn]]; split; [done|left; by apply Hto|done|by right].
  - exists k, st. split; [done|]. by apply Hto.
Qed.
End Wire.

(** ** Witness *)

(** An object with an attribute, a file, a hash and a signature. *)
Definition ex_sent : option kdobj :=
  m ← setParameter (kmeta_new "Haggle" "") "create_time" (time_text (TV 1300000000 42));
  '(_, am) ← attrs_add bm_new (MkAttr "Picture" "dog" 2);
  calcId ex_ctx ex_update fips_sha1
    (KDobj SIGNATURE_VALID "bob" (Some [1; 2; 3]) (Some m) am "a.jpg" "/d/a.jpg" false 3 3 (TV 1300000000 42) invalid_time true false false
       (replicate 20 0) "" (replicate 20 7) DATA_STATE_VERIFIED_OK "" 0 (replicate 20 0) ABE_NOT_NEEDED).
Definition ex_sent_doc : xmlNode :=
  match (d ← ex_sent; '(m, _) ← toMetadata d; m ← (m : option kmeta); createXMLDoc ex_node ex_prop ex_child ex_add m) with
  | Some (Some x) => x | _ => XText "" end.
Definition ex_wire_dump (x : xmlNode) : list Z := ex_header ++ [10].
Definition ex_wire_parse (raw : list Z) : option xmlNode :=
  if decide (raw = ex_header) then Some ex_sent_doc else if decide (raw = ex_header ++ [10]) then Some ex_sent_doc else None.

Lemma ex_text s : ex_nodes s = [XText s] → ex_blank s = false → text ex_blank ex_nodes s.
Proof. by right. Qed.
Lemma ex_sent_fits d : ex_sent = Some d →
  fits ex_blank ex_nodes d [("Picture", MkAttr "Picture" "dog" 2)] ∧ calcId ex_ctx ex_update fips_sha1 d = Some d.
Proof.
  unfold ex_sent.
  destruct (set_parameter_tidy ex_blank ex_nodes (kmeta_new "Haggle" "") ∅ [] "create_time" (time_text (TV 1300000000 42)) (new_wf _ _) (tidy_new _ _ _ _))
    as (m & -> & Hwf & Ht & En & _).
  cbn [mbind option_bind]. destruct (attrs_add_run bm_new [] (MkAttr "Picture" "dog" 2) attrs_wf_new) as (am & l & -> & Hl & Hp). cbn [mbind option_bind].
  set (d0 := KDobj _ _ _ _ _ _ _ _ _ _ _ _ _ _ _ _ _ _ _ _ _ _ _). assert (l = [("Picture", MkAttr "Picture" "dog" 2)]) as ->.
  { pose proof (aw_keys _ _ Hl) as Hk. symmetry in Hp. apply Permutation_singleton_l in Hp. destruct l as [|[k a] [|? ?]]; try done.
    cbn in Hp. injection Hp as <-. apply Forall_cons in Hk as [Hk _]. cbn in Hk. by rewrite Hk. }
  rewrite (calc_run _ _ _ d0 _ Hl). generalize (fips_sha1 (id_ctx ex_ctx ex_update d0 [("Picture", MkAttr "Picture" "dog" 2)].*2)) (calc_with_id ex_ctx ex_update fips_sha1 d0 _ (fips_sha1 (id_ctx ex_ctx ex_update d0 [("Picture", MkAttr "Picture" "dog" 2)].*2)) Hl).
  intros id Hid. injection 1 as <-. split; [|exact Hid]. clear Hid. split.
  - exact Hl.
  - apply distinct_cons; [done|]. apply distinct_nil.
  - apply Forall_cons_2; [split; [cbn; lia|by right]|constructor].
  - done.
  - done.
  - cbn. lia.
  - by right.
  - split; [apply Forall_replicate; unfold is_byte; lia|]. split; [done|by right].
  - intros sg [= <-]. split; [done|]. split; [repeat constructor; unfold is_byte; lia|]. split; [cbn; lia|by right].
  - apply Forall_cons_2; [left; split; [done|cbn; lia]|]. apply Forall_cons_2; [by right|constructor].
  - exists m, (<["create_time" := time_text (TV 1300000000 42)]> ∅), []. split; [done|]. split; [by rewrite En|]. split; [done|]. split; [done|]. split.
    + by unfold time_param; rewrite lookup_insert_eq.
    + by unfold time_param; rewrite lookup_insert_ne.
    + split; [done|]. exists ∅, []. split; [apply new_wf|]. split; [done|]. split; [apply leaf_new|]. split; [apply leaf_new|]. by split.
    + apply leaf_new.
    + done.
Qed.

Lemma kernel_object_roundtrip_witness :
  ∃ d raw d' kd, ex_sent = Some d ∧ getRawMetadataAlloc ex_node ex_prop ex_child ex_add ex_wire_dump d = Some (Some raw, d') ∧
    parse_header ex_ctx ex_update fips_sha1 [0; 0; 0; 0] (TV 7 7) ex_blank ex_content ex_wire_parse ∅ kdobj_new (trim_header raw) = Some (true, kd) ∧
    same_object d [MkAttr "Picture" "dog" 2] kd ∧ k_id kd = k_id d ∧ expected kd = 3.
Proof.
  destruct ex_sent as [d|] eqn:Ed; [|vm_compute in Ed; discriminate Ed]. destruct (ex_sent_fits d Ed) as [Hf Hid].
  destruct (kernel_object_roundtrip ex_ctx ex_update fips_sha1 [0; 0; 0; 0] eq_refl (TV 7 7) ex_blank ex_content ex_node ex_prop ex_child ex_add
              ex_wire_parse ex_wire_dump ex_nodes) with (writable := λ x, x = ex_sent_doc) (fs := (∅ : files)) (d := d) (l := [("Picture", MkAttr "Picture" "dog" 2)])
    as (raw & d' & Er & _ & _ & kd & Ek & Hso & Eid & _ & Ex); try (intros; reflexivity).
  - intros x ->. split; [discriminate|]. exists ex_sent_doc. split; [reflexivity|]. split; [reflexivity|done].
  - exact Hf.
  - exact Hid.
  - intros m d' doc E1 E2. unfold ex_sent_doc. rewrite Ed. cbn [mbind option_bind]. rewrite E1. cbn [mbind option_bind]. by rewrite E2.
  - exists d, raw, d', kd. split; [reflexivity|]. split; [exact Er|]. split; [exact Ek|]. split; [exact Hso|]. split; [exact Eid|].
    rewrite Ex. vm_compute in Ed. by injection Ed as <-.
Defined.

Lemma kernel_to_kernel_witness :
  ∃ d r d' bound, ex_sent = Some d ∧ getDataObjectDataRetriever ex_node ex_prop ex_child ex_add ex_wire_dump ex_files d = Some (r, d') ∧
    let step := net_step ex_ctx ex_update fips_sha1 [0; 0; 0; 0] (TV 7 7) ex_blank ex_content ex_wire_parse "/s" (λ _, true) 16 10 5 (λ _, false) (λ _, false) (λ _, false) in
    let ends := arrived (λ _, false) (λ _, false) (λ _, false) d [MkAttr "Picture" "dog" 2] [97; 98; 99] ∅ in
    let start := Net (sendDataObjectNow 16 false r) [] [] (receiveDataObject (replicate 10 0) ∅) in
    (∀ k st, nsteps step k start st → (k <= bound)%nat ∧ (ends st ∨ ∃ st', step st st')) ∧ ∃ k st, nsteps step k start st ∧ ends st.
Proof.
  destruct ex_sent as [d|] eqn:Ed; [|vm_compute in Ed; discriminate Ed]. destruct (ex_sent_fits d Ed) as [Hf Hid].
  assert (Hraw : ∀ raw d', getRawMetadataAlloc ex_node ex_prop ex_child ex_add ex_wire_dump d = Some (Some raw, d') → trim_header raw = ex_header).
  { intros raw d' E. vm_compute in Ed. injection Ed as <-. vm_compute in E. injection E as <- _. vm_compute. reflexivity. }
  destruct (kernel_to_kernel ex_ctx ex_update fips_sha1 [0; 0; 0; 0] eq_refl (TV 7 7) ex_blank ex_content ex_node ex_prop ex_child ex_add
              ex_wire_parse ex_wire_dump ex_nodes) with (writable := λ x, x = ex_sent_doc) (storagepath := "/s") (can_open := λ _ : string, true)
              (send_size := 16%nat) (recv_size := 10%nat) (maxBlockingTries := 5) (has := λ _ : list Z, false)
              (hasFragmentationParentDataObject := λ _ : kdobj, false) (hasNetworkCodingParentDataObject := λ _ : kdobj, false)
              (fs := ex_files) (fs0 := (∅ : files)) (d := d) (l := [("Picture", MkAttr "Picture" "dog" 2)]) (contents := [97; 98; 99]) (buffer := replicate 10 0)
    as (r & d' & bound & Er & Hend); try (intros; reflexivity).
  - intros x ->. split; [discriminate|]. exists ex_sent_doc. split; [reflexivity|]. split; [reflexivity|done].
  - lia.
  - exact Hf.
  - exact Hid.
  - intros m d' doc E1 E2. unfold ex_sent_doc. rewrite Ed. cbn [mbind option_bind]. rewrite E1. cbn [mbind option_bind]. by rewrite E2.
  - intros raw d' E. rewrite (Hraw raw d' E). exact ex_is_header.
  - vm_compute in Ed. by injection Ed as <-.
  - apply Forall_cons_2; [discriminate|constructor].
  - intros _. vm_compute in Ed. by injection Ed as <-.
  - vm_compute in Ed. by injection Ed as <-.
  - vm_compute in Ed. by injection Ed as <-.
  - vm_compute in Ed. by injection Ed as <-.
  - exists d, r, d', bound. split; [reflexivity|]. split; [exact Er|exact Hend].
Defined.

(** ** What is left behind *)

(** [removeSignature] leaves the [Signature] element in the metadata: after a change that drops the
    signature the old one is sent, over the new identifier. *)
Example stale_signature :
  (d ← ex_sent; '(_, d) ← toMetadata d; '(_, d) ← addAttribute ex_ctx ex_update fips_sha1 d (MkAttr "Picture" "cat" 1); '(m, _) ← toMetadata d;
   '(_, kd) ← parseMetadata ex_ctx ex_update fips_sha1 [0; 0; 0; 0] (TV 7 7) ∅ true (set_metadata kdobj_new m);
   Some (k_signature d, k_signature kd, bool_decide (k_id kd = k_id d))) = Some (None, Some [1; 2; 3], true).
Proof. vm_compute. reflexivity. Qed.
(** A file of length 0 has no [Data] element, and loses its name. *)
Example empty_file_loses_name :
  (d ← ex_sent; '(m, _) ← toMetadata (set_file d "a.jpg" "/d/a.jpg" 0 0);
   '(_, kd) ← parseMetadata ex_ctx ex_update fips_sha1 [0; 0; 0; 0] (TV 7 7) ∅ true (set_metadata kdobj_new m); Some (k_filename kd)) = Some "".
Proof. vm_compute. reflexivity. Qed.
(** The path that was written for a local application is written on when the object goes elsewhere. *)
Example path_goes_along :
  (d ← ex_sent; d ← setIsForLocalApp d true; d ← setIsForLocalApp d false; '(m, _) ← toMetadata d; m ← (m : option kmeta);
   '(dm, _) ← getMetadata m "Data" 0; dm ← (dm : option kmeta); '(p, _) ← getMetadata dm "FilePath" 0; p ← (p : option kmeta); Some (getContent p)) = Some "/d/a.jpg".
Proof. vm_compute. reflexivity. Qed.
