(* ===== verification/Ipc.v ===== *)
(** * Ipc: handles, requests and the event loop, [libhaggle/ipc.c].

    The daemon is at the other end of a datagram socket.  A request is a data object
    whose metadata holds an [Application] element with a [Control] element; it leaves as
    raw bytes in the list [w_sent] of the [world], and the answers of the sockets are
    read off a list of inputs.  The event loop runs over the list of what its waits and
    receives answer; the application's handlers are functions on a state of its own. *)

From S2P Require Import Prelude CList Base64 Sha1 Text Attribute Metadata MetaTree Interface Node DataObject.

(** ** Control types *)

Definition CTRL_TYPE_INVALID : Z := -1.
Definition CTRL_TYPE_REGISTRATION_REQUEST : Z := 0.
Definition CTRL_TYPE_REGISTRATION_REPLY : Z := 1.
Definition CTRL_TYPE_DEREGISTRATION_NOTICE : Z := 2.
Definition CTRL_TYPE_REGISTER_INTEREST : Z := 3.
Definition CTRL_TYPE_REMOVE_INTEREST : Z := 4.
Definition CTRL_TYPE_GET_INTERESTS : Z := 5.
Definition CTRL_TYPE_REGISTER_EVENT_INTEREST : Z := 6.
Definition CTRL_TYPE_MATCHING_DATAOBJECT : Z := 7.
Definition CTRL_TYPE_DELETE_DATAOBJECT : Z := 8.
Definition CTRL_TYPE_GET_DATAOBJECTS : Z := 9.
Definition CTRL_TYPE_SEND_NODE_DESCRIPTION : Z := 10.
Definition CTRL_TYPE_SHUTDOWN : Z := 11.
Definition CTRL_TYPE_EVENT : Z := 12.
Definition CTRL_TYPE_SET_PARAM : Z := 13.
Definition CTRL_TYPE_CONFIGURE_SECURITY : Z := 14.
Definition CTRL_TYPE_DYNAMIC_CONFIGURE : Z := 15.

Definition ctrl_type_names : list string :=
  ["registration_request"; "registration_reply"; "deregistration"; "register_interest"; "remove_interest";
   "get_interests"; "register_event_interest"; "matching_dataobject"; "delete_dataobject"; "get_dataobjects";
   "send_node_description"; "shutdown"; "event"; "set_param"; "configure_security"; "dynamic_configure"].

(** The loop of [ctrl_name_to_type]. *)
Fixpoint ctrl_loop (names : list string) (name : string) (i : Z) : Z :=
  match names with
  | [] => CTRL_TYPE_INVALID
  | n :: names => if strcmp n name =? 0 then i else ctrl_loop names name (i + 1)
  end.
Definition ctrl_name_to_type (name : option string) : Z :=
  match name with None => CTRL_TYPE_INVALID | Some name => ctrl_loop ctrl_type_names name 0 end.

(** [static char intStr[5]]. *)
Definition intTostr (n : Z) : option string := sprintf 5 (fmt_ld n).

(** ** Events and handles *)

Definition LIBHAGGLE_EVENT_SHUTDOWN : Z := 0.
Definition LIBHAGGLE_EVENT_NEIGHBOR_UPDATE : Z := 1.
Definition LIBHAGGLE_EVENT_NEW_DATAOBJECT : Z := 2.
Definition LIBHAGGLE_EVENT_INTEREST_LIST : Z := 3.
Definition LIBHAGGLE_NUM_EVENTS : nat := 4.

Inductive haggle_event :=
  | EvShutdown (shutdown_reason : Z)
  | EvNeighbors (neighbors : nodelist)
  | EvDataobject (dobj : dataobject)
  | EvInterests (interests : list attr).

Section App.
(** The application's own state. *)
Context {A : Type}.

(** A handler: its result, whether it called [haggle_event_loop_stop], the new state. *)
Definition haggle_event_handler : Type := haggle_event → A → Z * bool * A.

(** [hh_th]: whether [hh->th] is the thread that runs the event loop. *)
Record haggle_handle := Handle
  { hh_session_id : Z; hh_num_handlers : Z; hh_event_loop_running : bool; hh_handle_free_final : bool; hh_th : bool;
    hh_name : string; hh_id : list Z; hh_id_base64 : string; hh_start : option (A → A); hh_stop : option (A → A);
    hh_handlers : list (option haggle_event_handler) }.

Definition with_running (hh : haggle_handle) (b : bool) : haggle_handle :=
  Handle (hh_session_id hh) (hh_num_handlers hh) b (hh_handle_free_final hh) (hh_th hh) (hh_name hh) (hh_id hh) (hh_id_base64 hh)
         (hh_start hh) (hh_stop hh) (hh_handlers hh).
Definition with_session (hh : haggle_handle) (id : Z) : haggle_handle :=
  Handle id (hh_num_handlers hh) (hh_event_loop_running hh) (hh_handle_free_final hh) (hh_th hh) (hh_name hh) (hh_id hh) (hh_id_base64 hh)
         (hh_start hh) (hh_stop hh) (hh_handlers hh).
Definition with_free_final (hh : haggle_handle) : haggle_handle :=
  Handle (hh_session_id hh) (hh_num_handlers hh) (hh_event_loop_running hh) true (hh_th hh) (hh_name hh) (hh_id hh) (hh_id_base64 hh)
         (hh_start hh) (hh_stop hh) (hh_handlers hh).
Definition with_th (hh : haggle_handle) : haggle_handle :=
  Handle (hh_session_id hh) (hh_num_handlers hh) (hh_event_loop_running hh) (hh_handle_free_final hh) true (hh_name hh) (hh_id hh) (hh_id_base64 hh)
         (hh_start hh) (hh_stop hh) (hh_handlers hh).
Definition with_handler (hh : haggle_handle) (i : nat) (f : haggle_event_handler) : haggle_handle :=
  Handle (hh_session_id hh) (hh_num_handlers hh + 1) (hh_event_loop_running hh) (hh_handle_free_final hh) (hh_th hh) (hh_name hh) (hh_id hh) (hh_id_base64 hh)
         (hh_start hh) (hh_stop hh) (<[i := Some f]> (hh_handlers hh)).
Definition with_callbacks (hh : haggle_handle) (start stop : option (A → A)) : haggle_handle :=
  Handle (hh_session_id hh) (hh_num_handlers hh) (hh_event_loop_running hh) (hh_handle_free_final hh) (hh_th hh) (hh_name hh) (hh_id hh) (hh_id_base64 hh)
         start stop (hh_handlers hh).

(** ** The world *)

(** What [select] and [recvfrom] answer: an error, a timeout, an error of the receive, or
    a datagram. *)
Inductive net_input := SelectError | SelectTimeout | RecvError | Recv (data : list Z).

Record world := World
  { w_sends : nat; w_sent : list (list Z); w_net : list net_input; w_directory : option string;
    w_num_handles : Z; w_errno : Z }.
Abbreviation WM := (M world).

Definition IO_NO_REPLY : Z := -2.
Definition IO_REPLY_BLOCK : Z := -1.
Definition IO_REPLY_NON_BLOCK : Z := 0.
Definition LIBHAGGLE_ERR_BAD_HANDLE : Z := 1.
Definition HAGGLE_DAEMON_ERROR : Z := HAGGLE_ERROR.

Section Net.
Context {C : MetadataCodec}.
(** [sendto_ok n]: whether the [n]-th send succeeds; [errno]: the socket error noted when
    something fails; [now]: the time of day; the uninitialised objects of the functions
    called. *)
Context (sendto_ok : nat → bool) (errno : Z) (now : Z * Z).
Context (ctx_buf : list Z) (uninit_time : Z * Z) (uninit_sha : SHA1Context).

Definition sendto (data : list Z) : WM bool := fun w =>
  let ok := sendto_ok (w_sends w) in
  Some (ok, World (S (w_sends w)) (if ok then w_sent w ++ [data] else w_sent w) (w_net w) (w_directory w) (w_num_handles w) (w_errno w)).
(** The next answer of the socket; without one, [select] times out. *)
Definition select : WM net_input := fun w =>
  match w_net w with
  | [] => Some (SelectTimeout, w)
  | i :: l => Some (i, World (w_sends w) (w_sent w) l (w_directory w) (w_num_handles w) (w_errno w))
  end.
Definition set_errno (e : Z) : WM unit := fun w =>
  Some (tt, World (w_sends w) (w_sent w) (w_net w) (w_directory w) (w_num_handles w) e).
Definition set_directory (dir : string) : WM unit := fun w =>
  Some (tt, World (w_sends w) (w_sent w) (w_net w) (Some dir) (w_num_handles w) (w_errno w)).
Definition add_handles (n : Z) : WM unit := fun w =>
  Some (tt, World (w_sends w) (w_sent w) (w_net w) (w_directory w) (w_num_handles w + n) (w_errno w)).
Definition lift {B} (o : option B) : WM B := gets (fun _ => o).

(** The result, the reply, and the data object, whose metadata was updated. *)
Definition haggle_ipc_send_dataobject (hh : option haggle_handle) (dobj : option dataobject) (want_reply : bool) (msecs_timeout : Z)
  : WM (Z * option dataobject * option dataobject) :=
  match dobj, hh with
  | Some _, Some _ =>
    '(ret, data, dobj) ← lift (haggle_dataobject_get_raw_alloc dobj);
    if negb (ret =? HAGGLE_NO_ERROR) || (length data =? 0)%nat then mret (HAGGLE_ALLOC_ERROR, None, dobj) else
    ok ← sendto data;
    if negb ok then mret (HAGGLE_SOCKET_ERROR, None, dobj) else
    if negb (msecs_timeout =? IO_NO_REPLY) && want_reply then
      if negb ((msecs_timeout =? IO_REPLY_BLOCK) || (msecs_timeout =? IO_REPLY_NON_BLOCK) || (msecs_timeout >? 0))
      then mret (HAGGLE_INTERNAL_ERROR, None, dobj) else
      i ← select;
      match i with
      | SelectError => mret (HAGGLE_SOCKET_ERROR, None, dobj)
      | SelectTimeout => mret (HAGGLE_TIMEOUT_ERROR, None, dobj)
      | RecvError => _ ← set_errno errno; mret (HAGGLE_SOCKET_ERROR, None, dobj)
      | Recv data =>
        dobj_recv ← lift (haggle_dataobject_new_from_raw ctx_buf uninit_time (Some data));
        match dobj_recv with
        | None => _ ← set_errno errno; mret (HAGGLE_ALLOC_ERROR, None, dobj)
        | Some d => mret (HAGGLE_NO_ERROR, Some d, dobj)
        end
      end
    else mret (HAGGLE_NO_ERROR, None, dobj)
  | _, _ => mret (HAGGLE_PARAM_ERROR, None, dobj)
  end.

(** ** Requests *)

(** The [Application] element, with its [Control] element. *)
Definition application_metadata (hh : haggle_handle) (type : string) : meta :=
  let m := md_set_parameter "name" (hh_name hh) (md_new "Application" None) in
  let m := md_set_parameter "id" (hh_id_base64 hh) m in
  md_add m (md_set_parameter "type" type (md_new "Control" None)).

Definition create_control_dataobject (hh : option haggle_handle) (type : Z) : option (option dataobject) :=
  match hh with
  | None => Some None
  | Some hh =>
    dobj ← haggle_dataobject_new ctx_buf uninit_time;
    match dobj with
    | None => Some None
    | Some dobj =>
      let dobj := (haggle_dataobject_set_createtime now (Some dobj) None).2 in
      dobj ← dobj;
      let dobj := (haggle_dataobject_unset_flags dobj DATAOBJECT_FLAG_PERSISTENT).2 in
      let dobj := (haggle_dataobject_add_attribute dobj (Some "HaggleIPC") (Some (hh_name hh))).2 in
      type ← ctrl_type_names !! Z.to_nat type;
      Some (haggle_dataobject_add_metadata (Some dobj) (Some (application_metadata hh type))).2
    end
  end.

(** Changing the [Control] element through the pointer [ctrl_m]. *)
Definition on_ctrl (f : meta → meta) (dobj : dataobject) : dataobject :=
  with_m dobj (md_update 0 (md_update 0 f) (d_m dobj)).

(** The common tail of the requests: the control object, filled in, is sent without
    asking for a reply. *)
Definition send_control (hh : option haggle_handle) (type : Z) (fill : meta → meta) : WM Z :=
  dobj ← lift (create_control_dataobject hh type);
  match dobj with
  | None => mret HAGGLE_ALLOC_ERROR
  | Some dobj =>
    '(ret, _, _) ← haggle_ipc_send_dataobject hh (Some (on_ctrl fill dobj)) false IO_NO_REPLY;
    mret ret
  end.

Inductive interest_op := INTEREST_OP_ADD | INTEREST_OP_REMOVE.

Definition interest_element (a : attr) : meta :=
  md_set_parameter "weight" (snprintf 10 (dec (aw a)))
    (md_set_parameter "name" (an a) (md_new "Interest" (Some (av a)))).
Definition add_interests (al : list attr) (ctrl_m : meta) : meta :=
  fold_left (fun m a => md_add m (interest_element a)) al ctrl_m.

Definition haggle_ipc_add_or_remove_interests (hh : option haggle_handle) (op : interest_op) (al : option (list attr)) : WM Z :=
  match hh, al with
  | Some _, Some al =>
    send_control hh (match op with INTEREST_OP_ADD => CTRL_TYPE_REGISTER_INTEREST | INTEREST_OP_REMOVE => CTRL_TYPE_REMOVE_INTEREST end)
                 (add_interests al)
  | _, _ => mret HAGGLE_PARAM_ERROR
  end.
Definition haggle_ipc_add_application_interests hh al := haggle_ipc_add_or_remove_interests hh INTEREST_OP_ADD al.
Definition haggle_ipc_remove_application_interests hh al := haggle_ipc_add_or_remove_interests hh INTEREST_OP_REMOVE al.

(** [haggle_attributelist_new_from_attribute (haggle_attribute_new_weighted (...))]: NULL
    without a name or a value. *)
Definition singleton_list (name value : option string) (weight : Z) : option (list attr) :=
  name ← name; value ← value; Some [MkAttr name value weight].

Definition haggle_ipc_add_or_remove_application_interest_weighted hh op (name value : option string) (weight : Z) : WM Z :=
  match singleton_list name value weight with
  | None => mret HAGGLE_INTERNAL_ERROR
  | Some al => haggle_ipc_add_or_remove_interests hh op (Some al)
  end.
Definition haggle_ipc_add_application_interest_weighted hh name value weight :=
  haggle_ipc_add_or_remove_application_interest_weighted hh INTEREST_OP_ADD name value weight.
Definition haggle_ipc_add_application_interest hh name value :=
  haggle_ipc_add_or_remove_application_interest_weighted hh INTEREST_OP_ADD name value 1.
Definition haggle_ipc_remove_application_interest hh name value :=
  haggle_ipc_add_or_remove_application_interest_weighted hh INTEREST_OP_REMOVE name value 1.

Definition haggle_ipc_set_param (hh : option haggle_handle) (name value : string) : WM Z :=
  match hh with
  | None => mret HAGGLE_PARAM_ERROR
  | Some _ => send_control hh CTRL_TYPE_SET_PARAM (md_set_parameter name value)
  end.
Definition haggle_ipc_set_delete_app_state_on_deregister hh (deleteOnDeReg : Z) :=
  haggle_ipc_set_param hh "delete_state_on_dereg" (if nz deleteOnDeReg then "true" else "false").
Definition haggle_ipc_set_max_data_objects_in_match hh (maxDataObjectsInMatch : Z) :=
  haggle_ipc_set_param hh "max_data_objects_in_match" (snprintf 10 (dec maxDataObjectsInMatch)).
Definition haggle_ipc_set_matching_threshold hh (matchingThreshold : Z) :=
  haggle_ipc_set_param hh "matching_threshold" (snprintf 10 (dec matchingThreshold)).

Definition haggle_ipc_update_configuration_dynamic (hh : option haggle_handle) (config : list Z) : WM Z :=
  match hh with
  | None => mret HAGGLE_PARAM_ERROR
  | Some _ =>
    config_m ← lift (metadata_new_from_raw config);
    match config_m with
    | None => mret HAGGLE_PARAM_ERROR
    | Some config_m =>
      send_control hh CTRL_TYPE_DYNAMIC_CONFIGURE
        (fun ctrl_m => md_add ctrl_m (md_add (md_new "DynamicConfiguration" None) config_m))
    end
  end.

Definition haggle_ipc_generate_and_send_control_dataobject (hh : option haggle_handle) (type : Z) : WM Z :=
  match hh with None => mret HAGGLE_PARAM_ERROR | Some _ => send_control hh type (fun m => m) end.
Definition haggle_ipc_get_application_interests_async hh := haggle_ipc_generate_and_send_control_dataobject hh CTRL_TYPE_GET_INTERESTS.
Definition haggle_ipc_get_data_objects_async hh := haggle_ipc_generate_and_send_control_dataobject hh CTRL_TYPE_GET_DATAOBJECTS.
Definition haggle_ipc_send_node_description hh := haggle_ipc_generate_and_send_control_dataobject hh CTRL_TYPE_SEND_NODE_DESCRIPTION.
Definition haggle_ipc_shutdown hh := haggle_ipc_generate_and_send_control_dataobject hh CTRL_TYPE_SHUTDOWN.

(** The handler is registered whatever the send answers. *)
Definition haggle_ipc_register_event_interest_with_arg (hh : option haggle_handle) (eventId : Z) (handler : option haggle_event_handler)
  : WM (Z * option haggle_handle) :=
  match handler with
  | None => mret (HAGGLE_PARAM_ERROR, hh)
  | Some f =>
    if (eventId <? 0) || (Z.of_nat LIBHAGGLE_NUM_EVENTS <=? eventId) then mret (HAGGLE_PARAM_ERROR, hh) else
    match hh with
    | None => mret (HAGGLE_PARAM_ERROR, hh)
    | Some h =>
      str ← lift (intTostr eventId);
      ret ← send_control hh CTRL_TYPE_REGISTER_EVENT_INTEREST (fun m => md_add m (md_set_parameter "type" str (md_new "Event" None)));
      mret (ret, Some (with_handler h (Z.to_nat eventId) f))
    end
  end.

Definition haggle_ipc_register_event_interest hh eventId handler := haggle_ipc_register_event_interest_with_arg hh eventId handler.

Definition haggle_ipc_publish_dataobject (hh : option haggle_handle) (dobj : dataobject) : WM (Z * dataobject) :=
  match hh with
  | None => _ ← set_errno LIBHAGGLE_ERR_BAD_HANDLE; mret (HAGGLE_PARAM_ERROR, dobj)
  | Some _ =>
    let dobj := match haggle_dataobject_get_createtime dobj with
                | None => default dobj (haggle_dataobject_set_createtime now (Some dobj) None).2
                | Some _ => dobj
                end in
    '(ret, _, dobj') ← haggle_ipc_send_dataobject hh (Some dobj) false IO_NO_REPLY;
    mret (ret, default dobj dobj')
  end.

Definition haggle_ipc_delete_data_object_by_id_bloomfilter (hh : option haggle_handle) (id : list Z) (keep_in_bloomfilter : Z) : WM Z :=
  match hh with
  | None => mret HAGGLE_PARAM_ERROR
  | Some _ =>
    let base64str := string_of_bytes (base64_encode id 29) in
    send_control hh CTRL_TYPE_DELETE_DATAOBJECT
      (fun m => md_set_parameter "keep_in_bloomfilter" (if nz keep_in_bloomfilter then "yes" else "no")
                  (md_add m (md_set_parameter "id" base64str (md_new "DataObject" None))))
  end.
Definition haggle_ipc_delete_data_object_by_id hh id := haggle_ipc_delete_data_object_by_id_bloomfilter hh id 0.
Definition haggle_ipc_delete_data_object_bloomfilter hh (dobj : dataobject) (keep_in_bloomfilter : Z) :=
  haggle_ipc_delete_data_object_by_id_bloomfilter hh (haggle_dataobject_calculate_id uninit_sha dobj (replicate HASH_LENGTH 0)).2 keep_in_bloomfilter.
Definition haggle_ipc_delete_data_object hh dobj := haggle_ipc_delete_data_object_bloomfilter hh dobj 0.

(** ** Security configuration *)

Definition haggle_ipc_configure_security (hh : option haggle_handle) (params : option meta) : WM Z :=
  match hh, params with
  | Some _, Some params =>
    send_control hh CTRL_TYPE_CONFIGURE_SECURITY (fun m => md_add m (md_add (md_new "SecurityConfiguration" None) params))
  | _, _ => mret HAGGLE_PARAM_ERROR
  end.

(** The element [top] with one element per attribute. *)
Definition config_list (top : string) (one : attr → meta) (al : list attr) : meta :=
  fold_left (fun m a => md_add m (one a)) al (md_new top None).
Definition config_pair (name p1 p2 v1 v2 : string) : meta :=
  md_set_parameter p2 v2 (md_set_parameter p1 v1 (md_new name None)).

Definition configure_list (top : string) (one : attr → meta) (hh : option haggle_handle) (al : option (list attr)) : WM Z :=
  match hh, al with
  | Some _, Some al => haggle_ipc_configure_security hh (Some (config_list top one al))
  | _, _ => mret HAGGLE_PARAM_ERROR
  end.
Definition haggle_ipc_add_role_shared_secrets :=
  configure_list "Roles" (fun a => config_pair "Role" "name" "shared_secret" (an a) (av a)).
Definition haggle_ipc_add_node_shared_secrets :=
  configure_list "Nodes" (fun a => config_pair "Node" "id" "shared_secret" (an a) (av a)).
Definition haggle_ipc_add_authorities :=
  configure_list "Authorities" (fun a => config_pair "Authority" "name" "id" (an a) (av a)).
Definition haggle_ipc_authorize_nodes_for_certification :=
  configure_list "Authority" (fun a => config_pair "Node" "id" "certify" (an a) "true").

(** The calls with one entry build a list of one attribute. *)
Definition configure_one (many : option haggle_handle → option (list attr) → WM Z) hh (name value : option string) : WM Z :=
  match singleton_list name value 1 with None => mret HAGGLE_INTERNAL_ERROR | Some al => many hh (Some al) end.
Definition haggle_ipc_add_role_shared_secret := configure_one haggle_ipc_add_role_shared_secrets.
Definition haggle_ipc_add_node_shared_secret := configure_one haggle_ipc_add_node_shared_secrets.
Definition haggle_ipc_add_authority := configure_one haggle_ipc_add_authorities.
(** The value of the attribute is NULL. *)
Definition haggle_ipc_authorize_node_for_certification hh (id : option string) :=
  configure_one haggle_ipc_authorize_nodes_for_certification hh id None.

(** A NULL [roleName] leaves the role without a name ([metadata_set_parameter] refuses it). *)
Definition haggle_ipc_authorize_role_for_attributes (hh : option haggle_handle) (roleName : option string)
    (encryption decryption : option (list attr)) : WM Z :=
  match hh, encryption, decryption with
  | Some _, Some encryption, Some decryption =>
    let role := md_new "Role" None in
    let role := match roleName with Some r => md_set_parameter "name" r role | None => role end in
    let role := fold_left (fun m a => md_add m (config_pair "Attribute" "name" "encryption" (an a) "true")) encryption role in
    let role := fold_left (fun m a => md_add m (config_pair "Attribute" "name" "decryption" (an a) "true")) decryption role in
    haggle_ipc_configure_security hh (Some (md_add (md_new "Authority" None) role))
  | _, _, _ => mret HAGGLE_PARAM_ERROR
  end.

(** ** Handles *)

(** [daemon_running]: what [haggle_daemon_pid] found; [socket_ok], [pipe_ok]: whether the
    socket and the pipe could be made. *)
Definition new_handle (name : string) : haggle_handle :=
  let id := (SHA1_Final (replicate 20 0) (SHA1_Update (SHA1_Init uninit_sha) (bytes_of_string name))).1 in
  Handle 0 0 false false false name id (string_of_bytes (base64_encode id 29)) None None (replicate LIBHAGGLE_NUM_EVENTS None).

(** The checks of the registration reply, after the [Message]: the directory, and the
    session unless a busy signal is ignored. *)
Definition finish_registration (hh : haggle_handle) (mc : meta) (ignore_busy_signal : Z) : WM (Z * option haggle_handle) :=
  match md_get mc "Directory" with
  | None => mret (HAGGLE_REGISTRATION_ERROR, None)
  | Some (_, m) =>
    dir ← gets (fun w => Some (w_directory w));
    _ ← (match dir with
         | Some _ => mret tt
         | None => content ← lift (md_content m); set_directory content
         end);
    if ignore_busy_signal =? 0 then
      match md_get mc "Session" with
      | None => mret (HAGGLE_REGISTRATION_ERROR, None)
      | Some (_, m) =>
        content ← lift (md_content m);
        _ ← add_handles 1;
        mret (HAGGLE_NO_ERROR, Some (with_session hh (atoi content)))
      end
    else _ ← add_handles 1; mret (HAGGLE_NO_ERROR, Some hh)
  end.

(** What [haggle_handle_get_internal] does with the reply. *)
Definition check_registration (hh : haggle_handle) (dobj_reply : dataobject) (ignore_busy_signal : Z) : WM (Z * option haggle_handle) :=
  let refuse := mret (HAGGLE_REGISTRATION_ERROR, None) in
  match haggle_dataobject_get_metadata (Some dobj_reply) (Some "Application") with
  | None => refuse
  | Some m =>
    match md_get_parameter m "name", md_get m "Control" with
    | Some _, Some (_, mc) =>
      if negb (ctrl_name_to_type (md_get_parameter mc "type") =? CTRL_TYPE_REGISTRATION_REPLY) then refuse else
      match content ← md_get mc "Message"; md_content content.2 with
      | None => refuse
      | Some msg =>
        if strcmp msg "OK" =? 0 then finish_registration hh mc ignore_busy_signal
        else if strcmp msg "Already registered" =? 0 then
          if ignore_busy_signal =? 0 then mret (HAGGLE_BUSY_ERROR, None) else finish_registration hh mc ignore_busy_signal
        else refuse
      end
    | _, _ => refuse
    end
  end.

Definition haggle_handle_get_internal (daemon_running socket_ok pipe_ok : bool) (name : string) (ignore_busy_signal : Z)
  : WM (Z * option haggle_handle) :=
  if negb daemon_running then mret (HAGGLE_DAEMON_ERROR, None) else
  if negb socket_ok then _ ← set_errno errno; mret (HAGGLE_SOCKET_ERROR, None) else
  if negb pipe_ok then mret (HAGGLE_ERROR, None) else
  let hh := new_handle name in
  dobj ← lift (create_control_dataobject (Some hh) CTRL_TYPE_REGISTRATION_REQUEST);
  match dobj with
  | None => mret (HAGGLE_ALLOC_ERROR, None)
  | Some _ =>
    '(ret, dobj_reply, _) ← haggle_ipc_send_dataobject (Some hh) dobj true 30000;
    if negb (ret =? HAGGLE_NO_ERROR) then mret (if ret >=? 0 then HAGGLE_INTERNAL_ERROR else ret, None) else
    match dobj_reply with
    | None => undefined
    | Some reply => check_registration hh reply ignore_busy_signal
    end
  end.
Definition haggle_handle_get daemon_running socket_ok pipe_ok name := haggle_handle_get_internal daemon_running socket_ok pipe_ok name 0.

Definition haggle_handle_get_session_id (hh : haggle_handle) : Z := hh_session_id hh.
Definition haggle_event_loop_is_running (hh : option haggle_handle) : Z :=
  match hh with Some hh => if hh_event_loop_running hh then 1 else 0 | None => HAGGLE_HANDLE_ERROR end.

(** [haggle_event_loop_stop] of a loop in a thread of its own: from another thread it
    returns when that loop has ended. *)
Definition haggle_event_loop_stop (hh : option haggle_handle) : WM (Z * option haggle_handle) :=
  match hh with
  | None => _ ← set_errno LIBHAGGLE_ERR_BAD_HANDLE; mret (HAGGLE_PARAM_ERROR, None)
  | Some hh =>
    if hh_event_loop_running hh then mret (HAGGLE_NO_ERROR, Some (with_running hh false))
    else mret (HAGGLE_EVENT_LOOP_ERROR, Some hh)
  end.

(** The handle that is left: none once it is freed; in the event loop's own thread it is
    only marked, and freed when the loop exits. *)
Definition haggle_handle_free_final : WM unit := add_handles (-1).
Definition haggle_handle_free (in_loop_thread : bool) (hh : option haggle_handle) : WM (option haggle_handle) :=
  match hh with
  | None => mret None
  | Some h =>
    h ← (if hh_event_loop_running h then '(_, h') ← haggle_event_loop_stop (Some h); mret (default h h') else mret h);
    _ ← send_control (Some h) CTRL_TYPE_DEREGISTRATION_NOTICE (fun m => m);
    if in_loop_thread then mret (Some (with_free_final h))
    else _ ← haggle_handle_free_final; mret None
  end.

Definition haggle_unregister daemon_running socket_ok pipe_ok (name : string) : WM Z :=
  '(_, hh) ← haggle_handle_get_internal daemon_running socket_ok pipe_ok name 1;
  match hh with
  | Some _ => _ ← haggle_handle_free false hh; mret HAGGLE_NO_ERROR
  | None => mret HAGGLE_INTERNAL_ERROR
  end.

Definition haggle_event_loop_register_callbacks (hh : option haggle_handle) (start stop : option (A → A)) : Z * option haggle_handle :=
  match hh with
  | None => (-1, None)
  | Some h =>
    if bool_decide (start = None) && bool_decide (stop = None) then (-1, hh) else
    match hh_start h, hh_stop h with
    | None, None => (HAGGLE_NO_ERROR, Some (with_callbacks h start stop))
    | _, _ => (-1, hh)
    end
  end.
End Net.

(** ** The event loop *)

Section Loop.
Context {C : MetadataCodec} (ctx_buf : list Z) (uninit_time : Z * Z).

(** The store of interfaces, the application's state, the flag [event_loop_running], and
    whether a byte waits in the signal pipe. *)
Record lstate := LState { ls_mem : imem; ls_app : A; ls_running : bool; ls_raised : bool }.
Abbreviation EM := (M lstate).

Definition on_mem {B} (f : IM B) : EM B := fun s =>
  match f (ls_mem s) with
  | Some (b, mem) => Some (b, LState mem (ls_app s) (ls_running s) (ls_raised s))
  | None => None
  end.
(** A handler that calls [haggle_event_loop_stop] (once) raises the signal; the flag is
    cleared where [hh->th] is the calling thread, that is, in a loop that
    [haggle_event_loop_run_async] started. *)
Definition call_handler (hh : haggle_handle) (f : haggle_event_handler) (e : haggle_event) : EM Z := fun s =>
  let '(ret, stop, app) := f e (ls_app s) in
  Some (ret, LState (ls_mem s) app (ls_running s && negb (stop && hh_th hh)) (ls_raised s || stop)).
Definition set_running (b : bool) : EM unit := fun s => Some (tt, LState (ls_mem s) (ls_app s) b (ls_raised s)).

(** The attribute of an [Interest] element: none without a name or a content. *)
Definition read_interest (m : meta) : option attr :=
  name ← md_get_parameter m "name";
  value ← md_content m;
  Some (MkAttr name value (match md_get_parameter m "weight" with Some w => strtoul w | None => 1 end)).
Definition read_interests (event_m : meta) : list attr :=
  fold_left (fun al m => match read_interest m with Some a => seq_insert a al | None => al end) (kids_named "Interest" event_m) [].

(** [metadata_free (app_m)], the first [Application] child. *)
Definition remove_application (dobj : dataobject) : dataobject :=
  match md_get (d_m dobj) "Application" with
  | Some (i, _) => with_m dobj (let 'Md n c ps ks := d_m dobj in Md n c ps (delete i ks))
  | None => dobj
  end.

(** The array of handlers is indexed by the type as it was received. *)
Definition handle_event (hh : haggle_handle) (type : Z) (dobj : dataobject) (event_m : option meta) : EM Z :=
  match event_m with
  | None => mret (-1)
  | Some event_m =>
    if (type <? 0) then undefined else
    match hh_handlers hh !! Z.to_nat type with
    | None => undefined
    | Some None => mret 0
    | Some (Some f) =>
      if type =? LIBHAGGLE_EVENT_INTEREST_LIST then
        _ ← call_handler hh f (EvInterests (read_interests event_m)); mret 0
      else if type =? LIBHAGGLE_EVENT_NEW_DATAOBJECT then
        call_handler hh f (EvDataobject (remove_application dobj))
      else if type =? LIBHAGGLE_EVENT_NEIGHBOR_UPDATE then
        neighbors ← on_mem (haggle_nodelist_new_from_metadata true ctx_buf (Some event_m));
        match neighbors with
        | None => mret (-1)
        | Some nl =>
          ret ← call_handler hh f (EvNeighbors nl);
          _ ← (if ret =? 1 then mret tt else on_mem (haggle_nodelist_free (Some nl)));
          mret 0
        end
      else if type =? LIBHAGGLE_EVENT_SHUTDOWN then _ ← call_handler hh f (EvShutdown 0); mret 0
      else mret 0
    end
  end.

(** What a wait and a receive answer. *)
Inductive loop_input := WaitError | WaitTimeout | SignalRaised | RecvFailed | Datagram (raw : list Z).

(** The body of the loop for a datagram: [false] where the message is dropped with
    [continue], [true] when an event was handled. *)
Definition process (hh : haggle_handle) (raw : list Z) : EM bool :=
  dobj ← gets (fun _ => haggle_dataobject_new_from_raw ctx_buf uninit_time (Some raw));
  match dobj with
  | None => mret false
  | Some dobj =>
    match haggle_dataobject_get_metadata (Some dobj) (Some "Application") with
    | None => mret false
    | Some app_m =>
      name ← gets (fun _ => md_get_parameter app_m "name");
      if negb (strcmp name (hh_name hh) =? 0) && negb (strcmp name "All Applications" =? 0) then mret false else
      match md_get app_m "Control" with
      | None => mret false
      | Some (_, ctrl_m) =>
        type ← gets (fun _ => md_get_parameter ctrl_m "type");
        if negb (strcmp type "event" =? 0) then mret false else
        match md_get ctrl_m "Event" with
        | None => mret false
        | Some (_, event_m) =>
          match md_get_parameter event_m "type" with
          | None => mret false
          | Some event_type_str =>
            _ ← handle_event hh (atoi event_type_str) dobj (Some event_m); mret true
          end
        end
      end
    end
  end.

(** How far the loop comes with the given inputs. *)
Inductive loop_status := Exited (unread : list loop_input) | Waiting (error_retries : Z).

Fixpoint loop (hh : haggle_handle) (inputs : list loop_input) (error_retries : Z) : EM loop_status := fun s =>
  if negb (ls_running s) then Some (Exited inputs, s) else
  if ls_raised s then Some (Exited inputs, LState (ls_mem s) (ls_app s) false false) else
  match inputs with
  | [] => Some (Waiting error_retries, s)
  | i :: inputs =>
    match i with
    | WaitError | RecvFailed =>
      loop hh inputs (error_retries + 1) (LState (ls_mem s) (ls_app s) (if error_retries =? 4 then false else true) (ls_raised s))
    | WaitTimeout => Some (Exited inputs, s)
    | SignalRaised => Some (Exited inputs, LState (ls_mem s) (ls_app s) false false)
    | Datagram raw =>
      match process hh raw s with
      | None => None
      | Some (handled, s) => loop hh inputs (if handled : bool then 0 else error_retries) s
      end
    end
  end.

Definition run_callback (f : option (A → A)) : EM unit := fun s =>
  Some (tt, LState (ls_mem s) (match f with Some f => f (ls_app s) | None => ls_app s end) (ls_running s) (ls_raised s)).

(** The end of the thread leaves the handle alone: [handle_free_final] is set where a handler calls
    [haggle_handle_free], which the handlers of this model do not; the application that frees it
    is in [Threads]. *)
Definition haggle_event_loop (hh : haggle_handle) (inputs : list loop_input) : EM loop_status :=
  _ ← set_running true;
  _ ← run_callback (hh_start hh);
  st ← loop hh inputs 0;
  match st with
  | Exited _ => _ ← run_callback (hh_stop hh); mret st
  | Waiting _ => mret st
  end.

Definition haggle_event_loop_run (hh : option haggle_handle) (inputs : list loop_input) : EM (Z * option loop_status) :=
  match hh with
  | None => mret (HAGGLE_PARAM_ERROR, None)
  | Some h =>
    if hh_num_handlers h =? 0 then mret (HAGGLE_EVENT_HANDLER_ERROR, None) else
    running ← gets (fun s => Some (ls_running s));
    if running : bool then mret (HAGGLE_EVENT_LOOP_ERROR, None) else
    st ← haggle_event_loop h inputs; mret (HAGGLE_NO_ERROR, Some st)
  end.
(** The same in a thread of its own; [thread_ok]: whether it can be created.  The status is
    how far that thread comes. *)
Definition haggle_event_loop_run_async (thread_ok : bool) (hh : option haggle_handle) (inputs : list loop_input) : EM (Z * option loop_status) :=
  match hh with
  | None => mret (HAGGLE_PARAM_ERROR, None)
  | Some h =>
    if hh_num_handlers h =? 0 then mret (HAGGLE_EVENT_HANDLER_ERROR, None) else
    running ← gets (fun s => Some (ls_running s));
    if running : bool then mret (HAGGLE_EVENT_LOOP_ERROR, None) else
    if negb thread_ok then mret (HAGGLE_INTERNAL_ERROR, None) else
    st ← haggle_event_loop (with_th h) inputs; mret (HAGGLE_NO_ERROR, Some st)
  end.
End Loop.
End App.

(** ** Control types *)

Lemma ctrl_types_roundtrip i name : ctrl_type_names !! i = Some name → ctrl_name_to_type (Some name) = Z.of_nat i.
Proof.
  intros E. pose proof (lookup_lt_Some _ _ _ E) as Hi. simpl in Hi.
  do 16 (destruct i as [|i]; [injection E as <-; reflexivity|]). lia.
Qed.

(** ** Requests *)

Section Requests.
Context {A : Type} {C : MetadataCodec} (ok : meta → Prop) `{!MetadataCodecOk C ok}.
Context (sendto_ok : nat → bool) (errno : Z) (now : Z * Z) (ctx_buf : list Z) (uninit_time : Z * Z).
Context (Hnow : 0 < now.1 < 2 ^ 63 ∧ 0 <= now.2 < 10 ^ 6).

(** What a request with the control element [ctrl] says. *)
Definition request (hh : @haggle_handle A) (ctrl m : meta) : Prop :=
  md_name m = Some HAGGLE_TAG ∧ md_get_parameter m "persistent" = Some "no" ∧
  md_get_parameter m "create_time" = Some (createtime_string now) ∧
  ∃ app am, md_kids m = [app; am] ∧ md_name app = Some "Application" ∧
    md_get_parameter app "name" = Some (hh_name hh) ∧ md_get_parameter app "id" = Some (hh_id_base64 hh) ∧
    md_kids app = [ctrl] ∧ read_attribute am = Some (MkAttr "HaggleIPC" (hh_name hh) 1).

(** The world after a send. *)
Definition after_send (w : world) (raw : list Z) : world :=
  World (S (w_sends w)) (if sendto_ok (w_sends w) then w_sent w ++ [raw] else w_sent w) (w_net w) (w_directory w) (w_num_handles w) (w_errno w).

Lemma short_createtime : (String.length (createtime_string now) < 32)%nat.
Proof.
  destruct Hnow as [Hs Hu]. unfold createtime_string, fmt_ld, fmt_06ld, dec_pad.
  destruct (Z.ltb_spec now.1 0), (Z.ltb_spec now.2 0); try lia.
  rewrite !length_app_string, length_zeros. simpl (String.length ".").
  pose proof (length_dec now.1 19 ltac:(lia) ltac:(lia)). pose proof (length_dec now.2 6 ltac:(lia) ltac:(lia)).
  change (10 ^ Z.of_nat 19) with 10000000000000000000 in *. change (10 ^ Z.of_nat 6) with (10 ^ 6) in *. lia.
Qed.

Definition control_dobj (hh : @haggle_handle A) (ctrl : meta) : dataobject :=
  let app := md_set_parameter "id" (hh_id_base64 hh) (md_set_parameter "name" (hh_name hh) (md_new "Application" None)) in
  with_m (with_al (with_createtime (with_flags (zero_dataobject (md_new HAGGLE_TAG None)) 0) now) [MkAttr "HaggleIPC" (hh_name hh) 1])
         (md_add (md_new HAGGLE_TAG None) (md_add app ctrl)).

(** The document a request is sent as. *)
Definition request_document (hh : @haggle_handle A) (ctrl : meta) : option meta :=
  match haggle_dataobject_to_metadata (Some (control_dobj hh ctrl)) with Some (m, _) => m | None => None end.

Lemma create_control_run hh type name fill :
  ctrl_type_names !! Z.to_nat type = Some name →
  ∃ d, create_control_dataobject now ctx_buf uninit_time (Some hh) type = Some (Some d) ∧
       on_ctrl fill d = control_dobj hh (fill (md_set_parameter "type" name (md_new "Control" None))).
Proof.
  intros En. unfold create_control_dataobject. cbn [haggle_dataobject_new haggle_dataobject_new_from_raw mbind option_bind].
  cbn [haggle_dataobject_set_createtime snd mbind option_bind]. rewrite En. cbn [mbind option_bind].
  eexists. split; [reflexivity|]. reflexivity.
Qed.

Lemma control_document hh ctrl :
  md_name ctrl = Some "Control" →
  ∃ m, haggle_dataobject_to_metadata (Some (control_dobj hh ctrl)) = Some (Some m, Some (with_m (control_dobj hh ctrl) m)) ∧ request hh ctrl m.
Proof.
  intros Hc. destruct (write_attribute_ok (MkAttr "HaggleIPC" (hh_name hh) 1)) as (am & Ea & Hn & _ & Hr); [simpl; lia|].
  set (d := control_dobj hh ctrl).
  set (app := md_add (md_set_parameter "id" (hh_id_base64 hh) (md_set_parameter "name" (hh_name hh) (md_new "Application" None))) ctrl).
  set (m0 := md_set_parameter "persistent" "no" (md_add (md_new HAGGLE_TAG None) app)).
  assert (Ed : haggle_dataobject_to_metadata (Some d) =
    (m ← write_createtime d m0; m ← write_attributes [MkAttr "HaggleIPC" (hh_name hh) 1] (md_remove_named "Attr" m);
     Some (Some m, Some (with_m d m)))) by reflexivity.
  rewrite Ed. clear Ed.
  unfold write_createtime. change (d_createtime d) with now.
  destruct (Z.eqb_spec now.1 0); [lia|]. unfold sprintf. rewrite (proj2 (Nat.ltb_lt _ _) short_createtime). cbn [mbind option_bind].
  set (m1 := md_set_parameter "create_time" (createtime_string now) m0).
  assert (Hk : md_kids m1 = [app]) by (unfold m1, m0; by rewrite !md_set_parameter_kids).
  assert (Hname : md_name m1 = Some HAGGLE_TAG) by (unfold m1, m0; by rewrite !md_set_parameter_name).
  assert (Happ : md_name app = Some "Application").
  { unfold app. assert (H : ∀ t k, md_name (md_add t k) = md_name t) by (by intros []). by rewrite H, !md_set_parameter_name. }
  assert (Hrem : md_remove_named "Attr" m1 = m1).
  { destruct m1 as [nm c ps ks]. cbn in Hk |- *. rewrite Hk, filter_cons, decide_True; [done|].
    apply not_true_iff_false. rewrite md_name_is_iff, Happ. done. }
  rewrite Hrem. cbn [write_attributes]. rewrite Ea. cbn [mbind option_bind].
  eexists. split; [reflexivity|]. unfold request.
  assert (Hadd : ∀ t k, md_name (md_add t k) = md_name t ∧ md_params (md_add t k) = md_params t ∧ md_kids (md_add t k) = md_kids t ++ [k]) by (by intros []).
  destruct (Hadd m1 am) as (H1 & H2 & H3). rewrite H1, H3, Hk. unfold md_get_parameter at 1 2. rewrite H2.
  split_and!; [done| | |].
  - fold (md_get_parameter m1 "persistent"). unfold m1. rewrite md_get_set_parameter, decide_False by done.
    unfold m0. rewrite md_get_set_parameter, decide_True by done. done.
  - fold (md_get_parameter m1 "create_time"). unfold m1. by rewrite md_get_set_parameter, decide_True.
  - exists app, am. by split_and!.
Qed.

Lemma send_control_run hh type name fill w :
  ctrl_type_names !! Z.to_nat type = Some name →
  let ctrl := fill (md_set_parameter "type" name (md_new "Control" None)) in
  md_name ctrl = Some "Control" →
  ∃ m, request_document hh ctrl = Some m ∧ request hh ctrl m ∧
    (ok m → ∃ raw, metadata_new_from_raw raw = Some (Some m) ∧
      send_control sendto_ok errno now ctx_buf uninit_time (Some hh) type fill w =
      Some (if sendto_ok (w_sends w) then HAGGLE_NO_ERROR else HAGGLE_SOCKET_ERROR, after_send w raw)).
Proof.
  intros En ctrl Hn. destruct (create_control_run hh type name fill En) as (d & Ed & Eo).
  destruct (control_document hh ctrl Hn) as (m & Em & Hr). exists m.
  split; [unfold request_document; by rewrite Em|]. split; [done|]. intros Hok.
  destruct (codec_roundtrip m Hok) as (raw & Er & Hl & Hraw). exists raw. split; [done|].
  unfold send_control, lift. erewrite bind_run; [|unfold gets; rewrite Ed; cbn [mbind option_bind]; reflexivity].
  cbv beta iota. rewrite Eo. fold ctrl. unfold haggle_ipc_send_dataobject, lift, gets.
  unfold haggle_dataobject_get_raw_alloc. rewrite Em. cbn [mbind option_bind]. rewrite Er.
  destruct (Z.ltb_spec (Z.of_nat (length raw)) 0); [lia|].
  unfold mbind at 1 2, M_bind. cbn. destruct (Nat.eqb_spec (length raw) 0); [lia|].
  unfold sendto, mbind, M_bind, after_send. by destruct (sendto_ok (w_sends w)).
Qed.
End Requests.

(** *** Interests *)

Lemma add_interests_kids al m : md_kids (add_interests al m) = md_kids m ++ map interest_element al ∧ md_name (add_interests al m) = md_name m
                               ∧ md_params (add_interests al m) = md_params m.
Proof.
  unfold add_interests. revert m. induction al as [|a al IH]; intros m; cbn [fold_left map]; [by rewrite app_nil_r|].
  destruct (IH (md_add m (interest_element a))) as (-> & -> & ->). destruct m. cbn. by rewrite <- app_assoc.
Qed.

Lemma read_interest_element a :
  0 <= aw a → read_interest (interest_element a) = Some (MkAttr (an a) (av a) (strtoul (snprintf 10 (dec (aw a))))).
Proof.
  intros Hw. unfold interest_element, read_interest. rewrite !md_get_set_parameter.
  repeat (rewrite decide_True by done || rewrite decide_False by done). by rewrite !md_set_parameter_content.
Qed.

Lemma interest_weight w : 0 <= w < 10 ^ 9 → strtoul (snprintf 10 (dec w)) = w.
Proof.
  intros Hw. rewrite snprintf_id.
  - apply strtoul_dec. lia.
  - pose proof (length_dec w 9 ltac:(lia) ltac:(lia)). change (10 ^ Z.of_nat 9) with (10 ^ 9) in *. lia.
Qed.

(** Reading back the interests of a request. *)
Lemma interests_read_back al ctrl :
  Forall (fun a => 0 <= aw a < 10 ^ 9) al → al_sorted al → md_kids ctrl = [] →
  read_interests (add_interests al ctrl) = al.
Proof.
  intros Hw Hs Hc. unfold read_interests, kids_named. destruct (add_interests_kids al ctrl) as (-> & _ & _). rewrite Hc. cbn [app].
  assert (Hall : filter (fun k => md_name_is k "Interest" = true) (map interest_element al) = map interest_element al).
  { clear. induction al as [|a al IH]; [done|]. cbn [map]. rewrite filter_cons, IH, decide_True; [done|].
    apply md_name_is_iff. unfold interest_element. by rewrite !md_set_parameter_name. }
  rewrite Hall.
  assert (H : ∀ acc, fold_left (fun al m => match read_interest m with Some a => seq_insert a al | None => al end) (map interest_element al) acc =
                     insert_attrs al acc).
  { clear -Hw. induction Hw as [|a al Ha _ IH]; intros acc; [done|]. cbn [map fold_left].
    rewrite read_interest_element, interest_weight by lia. rewrite IH. by destruct a. }
  rewrite H. by apply (insert_attrs_sorted al []).
Qed.

Section RequestClaims.
Context {A : Type} {C : MetadataCodec} (ok : meta → Prop) `{!MetadataCodecOk C ok}.
Context (sendto_ok : nat → bool) (errno : Z) (now : Z * Z) (ctx_buf : list Z) (uninit_time : Z * Z).

(** Every request without an argument sends one datagram, a non-persistent data
    object that carries the application's name and identifier and the name of the
    request, and answers the socket's error if the send fails. *)
Theorem haggle_ipc_requests hh w type name :
  0 < now.1 < 2 ^ 63 ∧ 0 <= now.2 < 10 ^ 6 → ctrl_type_names !! Z.to_nat type = Some name →
  let ctrl := md_set_parameter "type" name (md_new "Control" None) in
  ∃ m, request_document now hh ctrl = Some m ∧ request now hh ctrl m ∧
    (ok m → ∃ raw, metadata_new_from_raw raw = Some (Some m) ∧
      haggle_ipc_generate_and_send_control_dataobject (A := A) sendto_ok errno now ctx_buf uninit_time (Some hh) type w =
      Some (if sendto_ok (w_sends w) then HAGGLE_NO_ERROR else HAGGLE_SOCKET_ERROR, after_send sendto_ok w raw)).
Proof.
  intros Hn Ht. apply (send_control_run ok sendto_ok errno now ctx_buf uninit_time Hn hh type name (fun m => m) w Ht).
  by rewrite md_set_parameter_name.
Qed.

(** The control element of a request about interests. *)
Definition interest_control (op : interest_op) (al : list attr) : meta :=
  add_interests al (md_set_parameter "type"
    (match op with INTEREST_OP_ADD => "register_interest" | INTEREST_OP_REMOVE => "remove_interest" end) (md_new "Control" None)).

(** Registering (or removing) interests sends one request whose control element
    lists them; a reader that parses it like an interest-list event gets exactly the same
    attributes, as long as the weights have at most nine digits. *)
Theorem haggle_ipc_interests hh w op al :
  0 < now.1 < 2 ^ 63 ∧ 0 <= now.2 < 10 ^ 6 → al_sorted al → Forall (fun a => 0 <= aw a < 10 ^ 9) al →
  let ctrl := interest_control op al in
  read_interests ctrl = al ∧
  ∃ m, request_document now hh ctrl = Some m ∧ request now hh ctrl m ∧
    (ok m → ∃ raw, metadata_new_from_raw raw = Some (Some m) ∧
      haggle_ipc_add_or_remove_interests (A := A) sendto_ok errno now ctx_buf uninit_time (Some hh) op (Some al) w =
      Some (if sendto_ok (w_sends w) then HAGGLE_NO_ERROR else HAGGLE_SOCKET_ERROR, after_send sendto_ok w raw)).
Proof.
  intros Hn Hs Hw ctrl. split; [apply interests_read_back; [done..|]; by rewrite md_set_parameter_kids|].
  assert (Hc : md_name ctrl = Some "Control").
  { unfold ctrl, interest_control. destruct (add_interests_kids al (md_set_parameter "type" (match op with INTEREST_OP_ADD => "register_interest" | INTEREST_OP_REMOVE => "remove_interest" end) (md_new "Control" None))) as (_ & H2 & _).
    by rewrite H2, md_set_parameter_name. }
  destruct op.
  - by apply (send_control_run ok sendto_ok errno now ctx_buf uninit_time Hn hh CTRL_TYPE_REGISTER_INTEREST "register_interest" (add_interests al) w eq_refl).
  - by apply (send_control_run ok sendto_ok errno now ctx_buf uninit_time Hn hh CTRL_TYPE_REMOVE_INTEREST "remove_interest" (add_interests al) w eq_refl).
Qed.
End RequestClaims.

(** ** Registration *)

Section Registration.
Context {A : Type} {C : MetadataCodec}.
Context (sendto_ok : nat → bool) (errno : Z) (now : Z * Z) (ctx_buf : list Z) (uninit_time : Z * Z) (uninit_sha : SHA1Context).

(** A registration reply: its message, its directory and its session. *)
Definition registration_reply (reply : dataobject) (msg dir : string) (session : option string) : Prop :=
  ∃ i app name j ctrl k km l kd,
    md_get (d_m reply) "Application" = Some (i, app) ∧ md_get_parameter app "name" = Some name ∧
    md_get app "Control" = Some (j, ctrl) ∧ md_get_parameter ctrl "type" = Some "registration_reply" ∧
    md_get ctrl "Message" = Some (k, km) ∧ md_content km = Some msg ∧
    md_get ctrl "Directory" = Some (l, kd) ∧ md_content kd = Some dir ∧
    match session with
    | Some s => ∃ n ks, md_get ctrl "Session" = Some (n, ks) ∧ md_content ks = Some s
    | None => md_get ctrl "Session" = None
    end.

Definition registered (w : world) (dir : string) : world :=
  World (w_sends w) (w_sent w) (w_net w) (Some (default dir (w_directory w))) (w_num_handles w + 1) (w_errno w).

Lemma finish_run hh reply msg dir session ignore w :
  registration_reply reply msg dir session →
  ∃ ctrl w', check_registration (A := A) hh reply ignore w =
    (if decide (msg = "OK") then finish_registration hh ctrl ignore w
     else if decide (msg = "Already registered")
     then if ignore =? 0 then Some ((HAGGLE_BUSY_ERROR, None), w) else finish_registration hh ctrl ignore w
     else Some ((HAGGLE_REGISTRATION_ERROR, None), w)) ∧
    finish_registration (A := A) hh ctrl ignore w = Some (
      if ignore =? 0 then match session with Some s => ((HAGGLE_NO_ERROR, Some (with_session hh (atoi s))), registered w dir)
                                           | None => ((HAGGLE_REGISTRATION_ERROR, None), w') end
      else ((HAGGLE_NO_ERROR, Some hh), registered w dir)) ∧
    w_num_handles w' = w_num_handles w ∧ w_sent w' = w_sent w ∧ w_net w' = w_net w.
Proof.
  intros (i & app & name & j & ctrl & k & km & l & kd & E1 & E2 & E3 & E4 & E5 & E6 & E7 & E8 & E9).
  exists ctrl, (World (w_sends w) (w_sent w) (w_net w) (Some (default dir (w_directory w))) (w_num_handles w) (w_errno w)).
  split_and!; [| |done..].
  - unfold check_registration. cbn [haggle_dataobject_get_metadata mbind option_bind]. change (strlen "Application" =? 0) with false. cbv iota.
    rewrite E1. cbn [fmap option_fmap option_map snd]. rewrite E2, E3, E4. change (ctrl_name_to_type (Some "registration_reply") =? CTRL_TYPE_REGISTRATION_REPLY) with true.
    cbn [negb]. rewrite E5. cbn [mbind option_bind snd]. rewrite E6.
    destruct (Z.eqb_spec (strcmp msg "OK") 0) as [Z1|Z1]; rewrite strcmp_eq in Z1; [by rewrite decide_True|rewrite decide_False by done].
    destruct (Z.eqb_spec (strcmp msg "Already registered") 0) as [Z2|Z2]; rewrite strcmp_eq in Z2; [rewrite decide_True by done|by rewrite decide_False].
    by destruct (ignore =? 0).
  - unfold finish_registration. rewrite E7, E8. unfold mbind, M_bind, gets, lift, gets, set_directory, add_handles, registered. cbn [mbind option_bind mret M_ret].
    destruct w as [ws wt wn [d|] wh we]; cbn; destruct (ignore =? 0); destruct session as [s|]; try (destruct E9 as (n & ks & -> & ->)); try rewrite E9; reflexivity.
Qed.

Lemma send_reply_run hh d m raw w data net reply :
  haggle_dataobject_to_metadata (Some d) = Some (Some m, Some (with_m d m)) →
  metadata_get_raw_alloc m = (Z.of_nat (length raw), raw) → 0 < Z.of_nat (length raw) →
  sendto_ok (w_sends w) = true → w_net w = Recv data :: net →
  haggle_dataobject_new_from_raw ctx_buf uninit_time (Some data) = Some (Some reply) →
  haggle_ipc_send_dataobject (A := A) sendto_ok errno ctx_buf uninit_time (Some hh) (Some d) true 30000 w =
  Some ((HAGGLE_NO_ERROR, Some reply, Some (with_m d m)),
        World (S (w_sends w)) (w_sent w ++ [raw]) net (w_directory w) (w_num_handles w) (w_errno w)).
Proof.
  intros Em Er Hl Hs Hw Hd. unfold haggle_ipc_send_dataobject, lift.
  erewrite bind_run; [|unfold gets, haggle_dataobject_get_raw_alloc; rewrite Em; cbn [mbind option_bind]; rewrite Er; cbn [mbind option_bind]; reflexivity].
  destruct (Z.ltb_spec (Z.of_nat (length raw)) 0); [lia|]. cbv iota beta.
  destruct (Nat.eqb_spec (length raw) 0); [lia|]. change (HAGGLE_NO_ERROR =? HAGGLE_NO_ERROR) with true. cbn [negb orb].
  erewrite bind_run; [|unfold sendto; rewrite Hs; reflexivity]. cbn [negb]. change (30000 =? IO_NO_REPLY) with false. cbn [negb andb].
  change ((30000 =? IO_REPLY_BLOCK) || (30000 =? IO_REPLY_NON_BLOCK) || (30000 >? 0)) with true. cbn [negb].
  erewrite bind_run; [|unfold select; cbn [w_net]; rewrite Hw; reflexivity]. cbv iota beta.
  erewrite bind_run; [|unfold gets; rewrite Hd; cbn [mbind option_bind]; reflexivity]. reflexivity.
Qed.

(** Obtaining a handle sends the registration request and reads the daemon's reply:
    "OK" with a directory and a session gives a handle with that session, whose identifier
    is the SHA-1 digest of the application's name, and notes the directory if none was
    known; "Already registered" is a busy error, anything else a registration error, and
    then no handle is counted. *)
Theorem haggle_handle_get_spec ok `{!MetadataCodecOk C ok} w name data net reply msg dir session :
  length (Message_Block uninit_sha) = 64%nat → strlen name < 2 ^ 32 → 0 < now.1 < 2 ^ 63 ∧ 0 <= now.2 < 10 ^ 6 →
  sendto_ok (w_sends w) = true → w_net w = Recv data :: net →
  haggle_dataobject_new_from_raw ctx_buf uninit_time (Some data) = Some (Some reply) →
  registration_reply reply msg dir session →
  let hh := new_handle (A := A) uninit_sha name in
  let ctrl := md_set_parameter "type" "registration_request" (md_new "Control" None) in
  hh_id hh = fips_sha1 (bytes_of_string name) ∧
  ∃ m, request_document now hh ctrl = Some m ∧ request now hh ctrl m ∧
    (ok m → ∃ raw ret h w', metadata_new_from_raw raw = Some (Some m) ∧
      haggle_handle_get (A := A) sendto_ok errno now ctx_buf uninit_time uninit_sha true true true name w = Some ((ret, h), w') ∧
      w_sent w' = w_sent w ++ [raw] ∧ w_net w' = net ∧
      match session with
      | Some s => if decide (msg = "OK")
                  then ret = HAGGLE_NO_ERROR ∧ h = Some (with_session hh (atoi s)) ∧ w_num_handles w' = w_num_handles w + 1 ∧
                       w_directory w' = Some (default dir (w_directory w))
                  else h = None ∧ ret = (if decide (msg = "Already registered") then HAGGLE_BUSY_ERROR else HAGGLE_REGISTRATION_ERROR) ∧
                       w_num_handles w' = w_num_handles w
      | None => h = None ∧ ret = (if decide (msg = "Already registered") then HAGGLE_BUSY_ERROR else HAGGLE_REGISTRATION_ERROR) ∧
                w_num_handles w' = w_num_handles w
      end).
Proof.
  intros Hu Hlen Hn Hs Hw Hd Hr hh ctrl0. split.
  { unfold hh, new_handle. cbn [hh_id]. apply (SHA1_Final_represents _ _ ([] ++ bytes_of_string name)).
    apply SHA1_Update_represents; [by apply SHA1_Init_represents|apply bytes_of_string_bytes|].
    cbn [app]. rewrite length_bytes_of_string. unfold strlen in Hlen. lia. }
  destruct (create_control_run now ctx_buf uninit_time hh CTRL_TYPE_REGISTRATION_REQUEST "registration_request" (fun m => m) eq_refl) as (d & Ed & Eo).
  assert (Ed' : d = control_dobj now hh (md_set_parameter "type" "registration_request" (md_new "Control" None))).
  { rewrite <- Eo. unfold create_control_dataobject in Ed. cbn in Ed. injection Ed as <-. reflexivity. }
  destruct (control_document now Hn hh (md_set_parameter "type" "registration_request" (md_new "Control" None))) as (m & Em & Hreq); [done|].
  exists m. split; [unfold request_document, ctrl0; by rewrite Em|]. split; [exact Hreq|]. intros Hok. destruct (codec_roundtrip m Hok) as (raw & Er & Hl & Hraw).
  set (w1 := World (S (w_sends w)) (w_sent w ++ [raw]) net (w_directory w) (w_num_handles w) (w_errno w)).
  assert (E : haggle_handle_get (A := A) sendto_ok errno now ctx_buf uninit_time uninit_sha true true true name w = check_registration hh reply 0 w1).
  { unfold haggle_handle_get, haggle_handle_get_internal. cbn [negb]. fold hh. unfold lift, gets, mbind, M_bind. rewrite Ed. cbn [mbind option_bind].
    rewrite Ed', (send_reply_run hh _ m raw w data net reply Em Er Hl Hs Hw Hd). done. }
  destruct (finish_run hh reply msg dir session 0 w1 Hr) as (ctrl & w' & E1 & E2 & E3 & E4 & E5). rewrite E, E1, E2. cbn [Z.eqb].
  exists raw. destruct session as [s|].
  - destruct (decide (msg = "OK")) as [D|D].
    + eexists _, _, _. split; [done|]. split; [reflexivity|]. by split_and!.
    + destruct (decide (msg = "Already registered")); (eexists _, _, _; split; [done|]; split; [reflexivity|]; by split_and!).
  - destruct (decide (msg = "OK")) as [D|D].
    + destruct (decide (msg = "Already registered")) as [D'|]; [congruence|].
      eexists _, _, w'. split; [done|]. split; [reflexivity|]. by split_and!.
    + destruct (decide (msg = "Already registered")); (eexists _, _, _; split; [done|]; split; [reflexivity|]; by split_and!).
Qed.
End Registration.

(** ** The event loop *)

Section LoopClaims.
Context {A : Type} {C : MetadataCodec} (ctx_buf : list Z) (uninit_time : Z * Z).
Implicit Types (hh : @haggle_handle A) (s : @lstate A).

(** An event addressed to the handle: the type is the text of its parameter. *)
Definition event_message hh (d : dataobject) (type : string) (event_m : meta) : Prop :=
  ∃ i app name j ctrl k,
    md_get (d_m d) "Application" = Some (i, app) ∧ md_get_parameter app "name" = Some name ∧
    (name = hh_name hh ∨ name = "All Applications") ∧
    md_get app "Control" = Some (j, ctrl) ∧ md_get_parameter ctrl "type" = Some "event" ∧
    md_get ctrl "Event" = Some (k, event_m) ∧ md_get_parameter event_m "type" = Some type.

Lemma process_event hh raw d type event_m s :
  haggle_dataobject_new_from_raw ctx_buf uninit_time (Some raw) = Some (Some d) → event_message hh d type event_m →
  process ctx_buf uninit_time hh raw s =
  match handle_event ctx_buf hh (atoi type) d (Some event_m) s with Some (_, s') => Some (true, s') | None => None end.
Proof.
  intros Hd (i & app & name & j & ctrl & k & E1 & E2 & E3 & E4 & E5 & E6 & E7). unfold process.
  erewrite bind_run; [|unfold gets; rewrite Hd; cbn [mbind option_bind]; reflexivity]. cbv iota beta.
  cbn [haggle_dataobject_get_metadata mbind option_bind]. change (strlen "Application" =? 0) with false. cbv iota.
  rewrite E1. cbn [fmap option_fmap option_map snd].
  erewrite bind_run; [|unfold gets; rewrite E2; cbn [mbind option_bind]; reflexivity].
  assert (Hn : negb (strcmp name (hh_name hh) =? 0) && negb (strcmp name "All Applications" =? 0) = false).
  { destruct E3 as [->| ->]; [rewrite (proj2 (strcmp_eq _ _) eq_refl); done|by rewrite andb_false_r]. }
  rewrite Hn, E4. erewrite bind_run; [|unfold gets; rewrite E5; cbn [mbind option_bind]; reflexivity].
  change (negb (strcmp "event" "event" =? 0)) with false. cbv iota. rewrite E6, E7. unfold mbind, M_bind.
  by destruct (handle_event _ _ _ _ _ s) as [[]|].
Qed.

(** The state after a handler has run. *)
Definition after (hh : @haggle_handle A) (f : @haggle_event_handler A) (e : haggle_event) s : lstate :=
  let '(_, stop, app) := f e (ls_app s) in LState (ls_mem s) app (ls_running s && negb (stop && hh_th hh)) (ls_raised s || stop).
Definition answer (f : @haggle_event_handler A) (e : haggle_event) s : Z := let '(ret, _, _) := f e (ls_app s) in ret.
Definition with_mem s (mem : imem) : lstate := LState mem (ls_app s) (ls_running s) (ls_raised s).

Lemma call_handler_run hh f e s : call_handler hh f e s = Some (answer f e s, after hh f e s).
Proof. unfold call_handler, answer, after. by destruct (f e (ls_app s)) as [[ret stop] app]. Qed.

Lemma after_mem hh f e s : ls_mem (after hh f e s) = ls_mem s.
Proof. unfold after. by destruct (f e (ls_app s)) as [[ret stop] app]. Qed.

Lemma handle_dataobject hh dobj event_m s f : hh_handlers hh !! 2%nat = Some (Some f) →
  handle_event ctx_buf hh 2 dobj (Some event_m) s =
  Some (answer f (EvDataobject (remove_application dobj)) s, after hh f (EvDataobject (remove_application dobj)) s).
Proof.
  intros Hf. unfold handle_event. change (Z.to_nat 2) with 2%nat. change (2 <? 0) with false. cbv iota. rewrite Hf. apply call_handler_run.
Qed.

(** C17: a handled event runs exactly its handler: a shutdown, the interests of the
    [Interest] elements in canonical order, the data object without its application
    metadata (kept when the answer is positive), or the neighbors of the [Node] elements;
    the memory of the neighbor list is given back unless the handler keeps it (answers 1);
    an event without a handler changes nothing. *)
Theorem handle_event_spec hh dobj event_m s :
  length ctx_buf = 4%nat →
  (∀ i, hh_handlers hh !! Z.to_nat i = Some None → 0 <= i → handle_event ctx_buf hh i dobj (Some event_m) s = Some (0, s)) ∧
  (∀ f, hh_handlers hh !! 0%nat = Some (Some f) →
     handle_event ctx_buf hh LIBHAGGLE_EVENT_SHUTDOWN dobj (Some event_m) s = Some (0, after hh f (EvShutdown 0) s)) ∧
  (∀ f, hh_handlers hh !! 3%nat = Some (Some f) →
     handle_event ctx_buf hh LIBHAGGLE_EVENT_INTEREST_LIST dobj (Some event_m) s =
     Some (0, after hh f (EvInterests (insert_attrs (omap read_interest (kids_named "Interest" event_m)) [])) s)) ∧
  (∀ f, hh_handlers hh !! 2%nat = Some (Some f) →
     handle_event ctx_buf hh LIBHAGGLE_EVENT_NEW_DATAOBJECT dobj (Some event_m) s =
     Some (answer f (EvDataobject (remove_application dobj)) s, after hh f (EvDataobject (remove_application dobj)) s)) ∧
  (∀ f, hh_handlers hh !! 1%nat = Some (Some f) → Forall node_meta_ok (kids_named "Node" event_m) →
     ∃ nl mem', Forall2 (node_holds mem') (reverse (nl_nodes nl)) (kids_named "Node" event_m) ∧
       added (ls_mem s) mem' (all_interfaces (nl_nodes nl)) ∧
       let s' := after hh f (EvNeighbors nl) (with_mem s mem') in
       handle_event ctx_buf hh LIBHAGGLE_EVENT_NEIGHBOR_UPDATE dobj (Some event_m) s =
       Some (0, if answer f (EvNeighbors nl) s =? 1 then s' else with_mem s' (ls_mem s))).
Proof.
  intros Hb. unfold handle_event. split_and!.
  - intros i Hi H0. destruct (Z.ltb_spec i 0); [lia|]. by rewrite Hi.
  - intros f Hf. change (LIBHAGGLE_EVENT_SHUTDOWN <? 0) with false. change (Z.to_nat LIBHAGGLE_EVENT_SHUTDOWN) with 0%nat. cbv iota. rewrite Hf.
    change (LIBHAGGLE_EVENT_SHUTDOWN =? LIBHAGGLE_EVENT_INTEREST_LIST) with false.
    change (LIBHAGGLE_EVENT_SHUTDOWN =? LIBHAGGLE_EVENT_NEW_DATAOBJECT) with false.
    change (LIBHAGGLE_EVENT_SHUTDOWN =? LIBHAGGLE_EVENT_NEIGHBOR_UPDATE) with false.
    change (LIBHAGGLE_EVENT_SHUTDOWN =? LIBHAGGLE_EVENT_SHUTDOWN) with true. cbv iota. rewrite (bind_run _ _ _ _ _ (call_handler_run _ _ _ _)). done.
  - intros f Hf. change (Z.to_nat LIBHAGGLE_EVENT_INTEREST_LIST) with 3%nat. change (LIBHAGGLE_EVENT_INTEREST_LIST <? 0) with false. cbv iota. rewrite Hf.
    change (LIBHAGGLE_EVENT_INTEREST_LIST =? LIBHAGGLE_EVENT_INTEREST_LIST) with true. cbv iota. rewrite (bind_run _ _ _ _ _ (call_handler_run _ _ _ _)).
    assert (E : read_interests event_m = insert_attrs (omap read_interest (kids_named "Interest" event_m)) []); [|by rewrite E].
    unfold read_interests. generalize (kids_named "Interest" event_m) as ks, (@nil attr) as acc. clear.
    induction ks as [|k ks IH]; intros acc; [done|]. cbn [fold_left omap list_omap]. rewrite IH. by destruct (read_interest k).
  - intros f Hf. by apply handle_dataobject.
  - intros f Hf Hok. destruct (nodelist_run ctx_buf event_m (ls_mem s) Hb Hok) as (nl & mem' & E & _ & Hn & Ha & Hfree).
    exists nl, mem'. split_and!; [done..|]. change (Z.to_nat LIBHAGGLE_EVENT_NEIGHBOR_UPDATE) with 1%nat.
    change (LIBHAGGLE_EVENT_NEIGHBOR_UPDATE <? 0) with false. cbv iota. rewrite Hf.
    change (LIBHAGGLE_EVENT_NEIGHBOR_UPDATE =? LIBHAGGLE_EVENT_INTEREST_LIST) with false.
    change (LIBHAGGLE_EVENT_NEIGHBOR_UPDATE =? LIBHAGGLE_EVENT_NEW_DATAOBJECT) with false.
    change (LIBHAGGLE_EVENT_NEIGHBOR_UPDATE =? LIBHAGGLE_EVENT_NEIGHBOR_UPDATE) with true. cbv iota.
    erewrite bind_run; [|unfold on_mem; rewrite E; reflexivity]. cbv iota beta.
    rewrite (bind_run _ _ _ _ _ (call_handler_run _ _ _ _)). fold (with_mem s mem').
    change (answer f (EvNeighbors nl) (with_mem s mem')) with (answer f (EvNeighbors nl) s).
    destruct (answer f (EvNeighbors nl) s =? 1); [done|].
    erewrite bind_run; [|unfold on_mem; rewrite after_mem; cbn [with_mem ls_mem]; rewrite Hfree; reflexivity]. done.
Qed.

(** The type of a received event is used as an index into the table of four handlers
    without a test: a datagram for "All Applications" with any other number reads past the
    table. *)
Theorem haggle_event_type_unchecked hh raw d type event_m s :
  haggle_dataobject_new_from_raw ctx_buf uninit_time (Some raw) = Some (Some d) → event_message hh d type event_m →
  length (hh_handlers hh) = LIBHAGGLE_NUM_EVENTS → atoi type < 0 ∨ 4 <= atoi type →
  process ctx_buf uninit_time hh raw s = None.
Proof.
  intros Hd He Hl Ht. rewrite (process_event _ _ _ _ _ _ Hd He). unfold handle_event.
  destruct (Z.ltb_spec (atoi type) 0); [done|]. rewrite lookup_ge_None_2; [done|]. rewrite Hl. unfold LIBHAGGLE_NUM_EVENTS. lia.
Qed.

(** Inputs that lead to no handler call: errors, and messages that are dropped. *)
Definition dropped hh (i : loop_input) : Prop :=
  match i with
  | WaitError | RecvFailed => True
  | Datagram raw => ∀ s, process ctx_buf uninit_time hh raw s = Some (false, s)
  | _ => False
  end.
Definition is_error (i : loop_input) : bool := match i with WaitError | RecvFailed => true | _ => false end.
Definition errors (l : list loop_input) : Z := Z.of_nat (length (List.filter is_error l)).

Lemma loop_dropped hh l rest k s :
  ls_running s = true → ls_raised s = false → Forall (dropped hh) l → k + errors l < 5 → 0 <= k →
  loop ctx_buf uninit_time hh (l ++ rest) k s = loop ctx_buf uninit_time hh rest (k + errors l) s.
Proof.
  intros Hr Hs Hl. revert k. induction Hl as [|i l Hi _ IH]; intros k Hk H0; [by rewrite Z.add_0_r|].
  assert (He : errors (i :: l) = (if is_error i then 1 else 0) + errors l).
  { unfold errors. cbn [List.filter]. destruct (is_error i); [|done]. cbn [length]. lia. }
  rewrite He in Hk |- *. cbn [app loop]. rewrite Hr, Hs. cbn [negb].
  pose proof (Nat2Z.is_nonneg (length (List.filter is_error l))) as Hnn. fold (errors l) in Hnn.
  assert (Hst : LState (ls_mem s) (ls_app s) true (ls_raised s) = s) by (destruct s; cbn in *; by subst).
  destruct i; cbn [is_error dropped] in *; try done.
  - destruct (Z.eqb_spec k 4); [lia|]. rewrite <- Hs at 1. rewrite Hst, IH by lia. f_equal. lia.
  - destruct (Z.eqb_spec k 4); [lia|]. rewrite <- Hs at 1. rewrite Hst, IH by lia. f_equal. lia.
  - rewrite Hi, IH by lia. f_equal.
Qed.

(** C39: the loop survives four errors of the wait or the receive and ends at the fifth;
    only an event that is handled starts the count again: messages that are dropped do
    not. *)
Theorem haggle_event_loop_errors hh l e rest s :
  ls_running s = true → ls_raised s = false → Forall (dropped hh) l → is_error e = true →
  (errors l < 5 → loop ctx_buf uninit_time hh l 0 s = Some (Waiting (errors l), s)) ∧
  (errors l = 4 → loop ctx_buf uninit_time hh (l ++ e :: rest) 0 s =
                  Some (Exited rest, LState (ls_mem s) (ls_app s) false (ls_raised s))).
Proof.
  intros Hr Hs Hl He. split; intros Hn.
  - rewrite <- (app_nil_r l), (loop_dropped hh l [] 0 s), app_nil_r by (done || lia). cbn [loop]. by rewrite Hr, Hs.
  - rewrite (loop_dropped hh l (e :: rest) 0 s) by (done || lia). rewrite Hn. cbn [loop]. rewrite Hr, Hs. cbn [negb].
    destruct e; try done; cbn [Z.add Z.eqb]; destruct rest; done.
Qed.

(** An input that ends the loop wherever it comes. *)
Definition ends_loop (i : loop_input) : bool := match i with WaitTimeout | SignalRaised => true | _ => false end.

Lemma loop_ends hh pre e rest : ∀ k s,
  ends_loop e = true → (∀ raw s, Datagram raw ∈ pre → process ctx_buf uninit_time hh raw s ≠ None) →
  ∃ unread s', loop ctx_buf uninit_time hh (pre ++ e :: rest) k s = Some (Exited unread, s') ∧ rest `suffix_of` unread.
Proof.
  assert (Hsuf : ∀ l, rest `suffix_of` (l ++ e :: rest)) by (intros l; exists (l ++ [e]); by rewrite <- app_assoc).
  induction pre as [|i pre IH]; intros k s He Hp; cbn [app loop].
  all: destruct (ls_running s); cbn [negb]; [|eexists _, _; split; [done|apply (Hsuf []) || apply (Hsuf (i :: pre))]].
  all: destruct (ls_raised s); [eexists _, _; split; [done|apply (Hsuf []) || apply (Hsuf (i :: pre))]|].
  - destruct e; try done; eexists _, _; by split.
  - assert (Hp' : ∀ raw s, Datagram raw ∈ pre → process ctx_buf uninit_time hh raw s ≠ None) by (intros raw s' Hin; apply Hp; by right).
    destruct i as [| | | |raw]; [by apply IH| | |by apply IH|].
    1, 2: eexists _, _; split; [done|apply Hsuf].
    destruct (process ctx_buf uninit_time hh raw s) as [[handled s1]|] eqn:E; [by apply IH|].
    exfalso. by eapply Hp; [left|].
Qed.

(** C19: once a wait times out or the signal is raised, the loop has returned, whatever it
    was sent before, and has not read past that point; so has [haggle_event_loop_run], after the stop
    callback. *)
Theorem haggle_event_loop_returns hh pre e rest s :
  ends_loop e = true → (∀ raw s, Datagram raw ∈ pre → process ctx_buf uninit_time hh raw s ≠ None) →
  hh_num_handlers hh ≠ 0 → ls_running s = false →
  ∃ unread s', loop ctx_buf uninit_time hh (pre ++ e :: rest) 0
                 (LState (ls_mem s) (from_option (fun f => f (ls_app s)) (ls_app s) (hh_start hh)) true (ls_raised s)) =
               Some (Exited unread, s') ∧ rest `suffix_of` unread ∧
    haggle_event_loop_run ctx_buf uninit_time (Some hh) (pre ++ e :: rest) s =
    Some ((HAGGLE_NO_ERROR, Some (Exited unread)),
          LState (ls_mem s') (from_option (fun f => f (ls_app s')) (ls_app s') (hh_stop hh)) (ls_running s') (ls_raised s')).
Proof.
  intros He Hp Hn Hr. edestruct (loop_ends hh pre e rest 0) as (unread & s' & E & Hs); [done|done|].
  exists unread, s'. split; [exact E|]. split; [done|]. unfold haggle_event_loop_run. destruct (Z.eqb_spec (hh_num_handlers hh) 0); [done|].
  unfold haggle_event_loop, run_callback, set_running, gets, mbind, M_bind. cbn [mbind option_bind]. rewrite Hr.
  unfold from_option in E. cbn [ls_mem ls_app ls_running ls_raised]. rewrite E. done.
Qed.

Lemma handled_stop hh raw d event_m s f :
  haggle_dataobject_new_from_raw ctx_buf uninit_time (Some raw) = Some (Some d) →
  event_message hh d "2" event_m → hh_handlers hh !! 2%nat = Some (Some f) →
  (f (EvDataobject (remove_application d)) (ls_app s)).1.2 = true →
  process ctx_buf uninit_time hh raw s =
  Some (true, LState (ls_mem s) (f (EvDataobject (remove_application d)) (ls_app s)).2 (ls_running s && negb (hh_th hh)) true).
Proof.
  intros Hd He Hf Hstop. rewrite (process_event _ _ _ _ _ _ Hd He). change (atoi "2") with 2. rewrite (handle_dataobject _ _ _ _ f Hf).
  unfold after. destruct (f (EvDataobject (remove_application d)) (ls_app s)) as [[ret stop] app]. cbn in Hstop. subst stop.
  by rewrite orb_true_r.
Qed.

(** A handler that stops the loop ends it after its own event.  In a loop that
    [haggle_event_loop_run] runs, the byte it wrote in the signal pipe is read; in the
    thread of [haggle_event_loop_run_async] it stays there, and the next run of the loop
    ends at once, before it reads anything. *)
Theorem haggle_event_loop_stop_stale hh raw d event_m rest inputs s f :
  haggle_dataobject_new_from_raw ctx_buf uninit_time (Some raw) = Some (Some d) →
  event_message hh d "2" event_m → hh_handlers hh !! 2%nat = Some (Some f) →
  (f (EvDataobject (remove_application d)) (ls_app s)).1.2 = true →
  hh_start hh = None → hh_stop hh = None → hh_num_handlers hh ≠ 0 → hh_th hh = false →
  ls_running s = false → ls_raised s = false →
  let app := (f (EvDataobject (remove_application d)) (ls_app s)).2 in
  haggle_event_loop_run ctx_buf uninit_time (Some hh) (Datagram raw :: rest) s =
    Some ((HAGGLE_NO_ERROR, Some (Exited rest)), LState (ls_mem s) app false false) ∧
  haggle_event_loop_run_async ctx_buf uninit_time true (Some hh) (Datagram raw :: rest) s =
    Some ((HAGGLE_NO_ERROR, Some (Exited rest)), LState (ls_mem s) app false true) ∧
  haggle_event_loop_run ctx_buf uninit_time (Some hh) inputs (LState (ls_mem s) app false true) =
    Some ((HAGGLE_NO_ERROR, Some (Exited inputs)), LState (ls_mem s) app false false).
Proof.
  intros Hd He Hf Hstop H1 H2 Hnum Hth Hr Hs app. set (s1 := LState (ls_mem s) (ls_app s) true false).
  unfold haggle_event_loop_run, haggle_event_loop_run_async, haggle_event_loop, run_callback, set_running, gets.
  destruct (Z.eqb_spec (hh_num_handlers hh) 0); [done|]. cbn [with_th hh_start hh_stop]. rewrite H1, H2.
  unfold mbind, M_bind. cbn [mbind option_bind negb ls_running]. rewrite Hr. cbn [loop ls_running ls_raised negb ls_mem ls_app]. rewrite Hs. fold s1.
  split_and!.
  - rewrite (handled_stop hh raw d event_m s1 f Hd He Hf Hstop), Hth. by destruct rest.
  - rewrite (handled_stop (with_th hh) raw d event_m s1 f Hd He Hf Hstop). by destruct rest.
  - by destruct inputs.
Qed.
End LoopClaims.

(** ** Witnesses *)

Section Witnesses.
(** An application that counts its events and stops at a data object. *)
Definition ex_handler (e : haggle_event) (n : Z) : Z * bool * Z :=
  match e with EvDataobject _ => (1, true, n + 1) | _ => (0, false, n + 1) end.
Definition ex_handle : @haggle_handle Z :=
  Handle 7 1 false false false "app" [] "YXBw" None None [Some ex_handler; Some ex_handler; Some ex_handler; Some ex_handler].
Definition ex_now : Z * Z := (1300000000, 42).

Definition ex_event (type : string) (body : list meta) : meta :=
  Md (Some "Haggle") None [MkAttr "persistent" "no" 1]
    [Md (Some "Application") None [MkAttr "name" "All Applications" 1]
       [Md (Some "Control") None [MkAttr "type" "event" 1] [Md (Some "Event") None [MkAttr "type" type 1] body]]].
Definition ex_reply : meta :=
  Md (Some "Haggle") None []
    [Md (Some "Application") None [MkAttr "name" "app" 1]
       [Md (Some "Control") None [MkAttr "type" "registration_reply" 1]
          [md_new "Message" (Some "OK"); md_new "Directory" (Some "/home/haggle"); md_new "Session" (Some "23")]]].

(** A wire format with one document to send, written [60]; [1], [2] and [3] are received. *)
Definition ex_wire (doc : option meta) : MetadataCodec :=
  {| metadata_new_from_raw := fun raw =>
       match raw with [60] => Some doc | [1] => Some (Some (ex_event "2" [])) | [2] => Some (Some (ex_event "17" []))
                    | [3] => Some (Some ex_reply) | _ => Some None end;
     metadata_get_raw_alloc := fun _ => (1, [60]) |}.
#[local] Instance ex_wire_ok doc : MetadataCodecOk (ex_wire doc) (fun m => doc = Some m).
Proof. intros m ->. exists [60]. split; [done|]. split; [simpl; lia|done]. Qed.

Definition ex_world (net : list net_input) : world := World 0 [] net None 0 0.

Lemma haggle_ipc_requests_witness :
  let doc := request_document ex_now ex_handle (md_set_parameter "type" "shutdown" (md_new "Control" None)) in
  ∃ raw, @haggle_ipc_generate_and_send_control_dataobject Z (ex_wire doc) (fun _ => true) 5 ex_now [0; 0; 0; 0] (0, 0) (Some ex_handle) CTRL_TYPE_SHUTDOWN (ex_world []) =
         Some (HAGGLE_NO_ERROR, after_send (fun _ => true) (ex_world []) raw).
Proof.
  intros doc.
  destruct (haggle_ipc_requests (C := ex_wire doc) (fun m => doc = Some m) (fun _ => true) 5 ex_now [0; 0; 0; 0] (0, 0) ex_handle (ex_world []) CTRL_TYPE_SHUTDOWN "shutdown")
    as (m & Em & _ & H); [simpl; lia|reflexivity|].
  destruct (H Em) as (raw & _ & E). exists raw. exact E.
Defined.

Definition ex_interests : list attr := [MkAttr "Keyword" "cat" 7; MkAttr "Picture" "dog" 1].

Lemma haggle_ipc_interests_witness :
  let doc := request_document ex_now ex_handle (interest_control INTEREST_OP_ADD ex_interests) in
  read_interests (interest_control INTEREST_OP_ADD ex_interests) = ex_interests ∧
  ∃ raw, @haggle_ipc_add_or_remove_interests Z (ex_wire doc) (fun _ => true) 5 ex_now [0; 0; 0; 0] (0, 0) (Some ex_handle) INTEREST_OP_ADD (Some ex_interests) (ex_world []) =
         Some (HAGGLE_NO_ERROR, after_send (fun _ => true) (ex_world []) raw).
Proof.
  intros doc.
  destruct (haggle_ipc_interests (C := ex_wire doc) (fun m => doc = Some m) (fun _ => true) 5 ex_now [0; 0; 0; 0] (0, 0) ex_handle (ex_world []) INTEREST_OP_ADD ex_interests)
    as (R & m & Em & _ & H); [simpl; lia|repeat constructor|repeat constructor; simpl; lia|].
  split; [exact R|]. destruct (H Em) as (raw & _ & E). exists raw. exact E.
Defined.

Lemma haggle_handle_get_spec_witness :
  let hh := @new_handle Z uninit_ctx "app" in
  let doc := request_document ex_now hh (md_set_parameter "type" "registration_request" (md_new "Control" None)) in
  ∃ w', @haggle_handle_get Z (ex_wire doc) (fun _ => true) 5 ex_now [0; 0; 0; 0] (0, 0) uninit_ctx true true true "app" (ex_world [Recv [3]]) =
        Some ((HAGGLE_NO_ERROR, Some (with_session hh 23)), w') ∧ w_directory w' = Some "/home/haggle".
Proof.
  intros hh doc.
  destruct (haggle_handle_get_spec (A := Z) (C := ex_wire doc) (fun _ => true) 5 ex_now [0; 0; 0; 0] (0, 0) uninit_ctx (fun m => doc = Some m)
              (ex_world [Recv [3]]) "app" [3] []
              (with_flags (zero_dataobject ex_reply) 1) "OK" "/home/haggle" (Some "23")) as (_ & m & Em & _ & H).
  - reflexivity.
  - reflexivity.
  - simpl; lia.
  - reflexivity.
  - reflexivity.
  - reflexivity.
  - do 9 eexists. repeat split; try reflexivity. eexists _, _. split; reflexivity.
  - destruct (H Em) as (raw & ret & h & w' & _ & E & _ & _ & F). rewrite decide_True in F by reflexivity.
    destruct F as (-> & -> & _ & F). exists w'. split; [exact E|exact F].
Defined.

Definition ex_state : @lstate Z := LState ∅ 0 true false.

Lemma handle_event_spec_witness :
  length [0; 0; 0; 0] = 4%nat ∧
  handle_event [0; 0; 0; 0] ex_handle LIBHAGGLE_EVENT_SHUTDOWN (zero_dataobject ex_reply) (Some ex_reply) ex_state = Some (0, LState ∅ 1 true false).
Proof.
  split; [reflexivity|].
  destruct (handle_event_spec [0; 0; 0; 0] ex_handle (zero_dataobject ex_reply) ex_reply ex_state eq_refl) as (_ & H & _).
  exact (H ex_handler eq_refl).
Defined.

Lemma ex_event_message type body d :
  d_m d = ex_event type body → event_message ex_handle d type (Md (Some "Event") None [MkAttr "type" type 1] body).
Proof. intros E. unfold event_message. rewrite E. do 6 eexists. repeat split; try reflexivity. by right. Qed.

Lemma haggle_event_type_unchecked_witness :
  @process Z (ex_wire None) [0; 0; 0; 0] (0, 0) ex_handle [2] ex_state = None.
Proof.
  apply (haggle_event_type_unchecked (C := ex_wire None) [0; 0; 0; 0] (0, 0) ex_handle [2] (with_flags (zero_dataobject (ex_event "17" [])) 0) "17"
           (Md (Some "Event") None [MkAttr "type" "17" 1] []) ex_state).
  - reflexivity.
  - apply ex_event_message. reflexivity.
  - reflexivity.
  - right. vm_compute. discriminate.
Defined.

Lemma haggle_event_loop_errors_witness :
  @loop Z (ex_wire None) [0; 0; 0; 0] (0, 0) ex_handle [WaitError; RecvFailed; Datagram [9]; WaitError; WaitError; WaitError; Datagram [1]] 0 ex_state =
  Some (Exited [Datagram [1]], LState ∅ 0 false false).
Proof.
  destruct (haggle_event_loop_errors (C := ex_wire None) [0; 0; 0; 0] (0, 0) ex_handle [WaitError; RecvFailed; Datagram [9]; WaitError; WaitError] WaitError [Datagram [1]] ex_state)
    as [_ H]; [reflexivity|reflexivity|repeat constructor|reflexivity|].
  exact (H eq_refl).
Defined.

Lemma haggle_event_loop_returns_witness : ∃ unread s',
  @haggle_event_loop_run Z (ex_wire None) [0; 0; 0; 0] (0, 0) (Some ex_handle) [WaitError; Datagram [9]; SignalRaised] (LState ∅ 0 false false) =
  Some ((HAGGLE_NO_ERROR, Some (Exited unread)), s').
Proof.
  destruct (haggle_event_loop_returns (C := ex_wire None) [0; 0; 0; 0] (0, 0) ex_handle [WaitError; Datagram [9]] SignalRaised [] (LState ∅ 0 false false))
    as (unread & s' & _ & _ & E); [reflexivity| |discriminate|reflexivity|].
  - intros raw s Hin. assert (raw = [9]) as -> by (apply elem_of_cons in Hin as [?|[[= ->]| []%elem_of_nil]%elem_of_cons]; [discriminate|reflexivity]).
    discriminate.
  - eexists _, _. exact E.
Defined.

Lemma haggle_event_loop_stop_stale_witness :
  @haggle_event_loop_run Z (ex_wire None) [0; 0; 0; 0] (0, 0) (Some ex_handle) [Datagram [1]; Datagram [1]] (LState ∅ 1 false true) =
  Some ((HAGGLE_NO_ERROR, Some (Exited [Datagram [1]; Datagram [1]])), LState ∅ 1 false false).
Proof.
  destruct (haggle_event_loop_stop_stale (C := ex_wire None) [0; 0; 0; 0] (0, 0) ex_handle [1] (with_flags (zero_dataobject (ex_event "2" [])) 0)
              (Md (Some "Event") None [MkAttr "type" "2" 1] []) [] [Datagram [1]; Datagram [1]] (LState ∅ 0 false false) ex_handler) as (_ & _ & H);
    [reflexivity|apply ex_event_message; reflexivity|reflexivity|reflexivity|reflexivity|reflexivity|discriminate|reflexivity|reflexivity|reflexivity|].
  exact H.
Defined.
End Witnesses.
