(* ===== verification/Utils.v ===== *)
(** * Utils: the pure part of the utility library, [utils/utils.c] and [utils/prng.c].

    Byte-order swaps, hexadecimal strings, the Internet checksum, printable addresses
    (with the static buffers they live in), the time base of the trace, sending a file,
    and the random numbers.  Random draws and [send] are parameters.  The machine is
    little-endian and [char] values are taken as bytes. *)

From S2P Require Import Prelude Text.

(** ** Buffers *)

(** [memcpy]/[strcpy] of [l] to the offset [i]: [None] when it does not fit. *)
Definition store_at (i : nat) (l : list Z) (buf : list Z) : option (list Z) :=
  if (i + length l <=? length buf)%nat then Some (take i buf ++ l ++ drop (i + length l) buf) else None.

(** The C string at the offset [i]: its bytes up to the first NUL, [None] without one. *)
Fixpoint c_string (l : list Z) : option (list Z) :=
  match l with
  | [] => None
  | b :: l => if b =? 0 then Some [] else l ← c_string l; Some (b :: l)
  end.
Definition c_string_at (buf : list Z) (i : nat) : option (list Z) := c_string (drop i buf).

(** ** Byte order and hexadecimal strings *)

(** [d[i] = s[5-i]] for [i] from [i0] on, [n] times; [to] and [from] are offsets into the
    same memory. *)
Fixpoint swap_loop (n : nat) (i : nat) (to from : nat) (mem : list Z) : option (list Z) :=
  match n with
  | O => Some mem
  | S n => b ← mem !! (from + (5 - i))%nat; mem ← store_at (to + i) [b] mem; swap_loop n (S i) to from mem
  end.
Definition swap_6bytes (to from : nat) (mem : list Z) : option (list Z) := swap_loop 6 0 to from mem.

(** [n += sprintf(str+n, "%02x", buf[i] & 0xff)]. *)
Fixpoint buf2str_loop (buf : list Z) (n : nat) (str : list Z) : option (list Z) :=
  match buf with
  | [] => Some str
  | b :: buf => str ← store_at n (sprintf_02x (Z.land b 0xff) ++ [0]) str; buf2str_loop buf (n + 2) str
  end.
Definition buf2str (buf : list Z) (str : list Z) (len : nat) : option (list Z) :=
  if (length buf <? len)%nat then None
  else str ← buf2str_loop (take len buf) 0 str; store_at (len * 2) [0] str.

(** [(c >= '0' || c <= '9' ? c - '0' : c - 'a' + 10)]. *)
Definition str2buf_digit (c : Z) : Z := if (48 <=? c) || (c <=? 57) then c - 48 else c - 97 + 10.
Fixpoint str2buf_loop (n : nat) (i : nat) (str buf : list Z) : option (list Z) :=
  match n with
  | O => Some buf
  | S n =>
    hi ← str !! (2 * i)%nat;
    lo ← str !! (2 * i + 1)%nat;
    buf ← store_at i [Z.land (u8 (u8 (str2buf_digit hi) + str2buf_digit lo)) 0xff] buf;
    str2buf_loop n (S i) str buf
  end.
Definition str2buf (str buf : list Z) (len : nat) : option (list Z) := str2buf_loop len 0 str buf.

(** ** The Internet checksum *)

Definition htons (x : Z) : Z := Z.lor (Z.shiftl (Z.land x 0xff) 8) (Z.shiftr (u16 x) 8).

(** [int] addition: [None] when it overflows. *)
Definition int_add (a b : Z) : option Z := if a + b <? 2 ^ 31 then Some (a + b) else None.

(** The loop over the words, and the odd byte. *)
Fixpoint cksum_loop (addr : list Z) (sum : Z) : option Z :=
  match addr with
  | b0 :: b1 :: addr => sum ← int_add sum (b0 + Z.shiftl b1 8); cksum_loop addr sum
  | [b] => int_add sum (htons (u16 (Z.shiftl b 8)))
  | [] => Some sum
  end.
Definition in_cksum (addr : list Z) (csum : Z) : option Z :=
  sum ← cksum_loop addr csum;
  let sum := Z.shiftr sum 16 + Z.land sum 0xffff in
  let sum := sum + Z.shiftr sum 16 in
  Some (u16 (Z.lnot sum)).

(** ** Printable addresses *)

(** The dotted decimal form of an address in network order. *)
Definition inet_ntoa (addr : Z * Z * Z * Z) : string :=
  let '(a, b, c, d) := addr in dec a +:+ "." +:+ dec b +:+ "." +:+ dec c +:+ "." +:+ dec d.

(** The static variables of [ip_to_str]. *)
Record ip_static := IpStatic { ip_buf : list Z; ip_index : nat }.
Definition ip_init : ip_static := IpStatic (replicate 64 0) 0.
(** The answer is an offset into [buf]. *)
Definition ip_to_str (addr : Z * Z * Z * Z) (s : ip_static) : option (nat * ip_static) :=
  buf ← store_at (ip_index s) (bytes_of_string (inet_ntoa addr) ++ [0]) (ip_buf s);
  Some (ip_index s, IpStatic buf ((ip_index s + 16) `mod` 64)).

(** The bytes written into [static char buf[30]], which the call answers. *)
Definition eth_to_str (addr : list Z) (buf : list Z) : option (list Z) :=
  match addr with
  | a0 :: a1 :: a2 :: a3 :: a4 :: a5 :: _ =>
    store_at 0 (bytes_of_string (hex2 false a0 +:+ ":" +:+ hex2 false a1 +:+ ":" +:+ hex2 false a2 +:+ ":" +:+
                                 hex2 false a3 +:+ ":" +:+ hex2 false a4 +:+ ":" +:+ hex2 false a5) ++ [0]) buf
  | _ => None
  end.

Definition isdigit (c : Z) : bool := (48 <=? c) && (c <=? 57).
Definition isupper (c : Z) : bool := (65 <=? c) && (c <=? 90).
Definition tolower (c : Z) : Z := if isupper c then c - 65 + 97 else c.
Definition isspace (c : Z) : bool := (c =? 32) || (c =? 12) || (c =? 10) || (c =? 13) || (c =? 9) || (c =? 11).
(** The test [(ch < '0' || ch > '9') && (ch < 'a' || ch > 'f')] and the value of a digit. *)
Definition not_hex (ch : Z) : bool := ((ch <? 48) || (57 <? ch)) && ((ch <? 97) || (102 <? ch)).
Definition hex_value (ch : Z) : Z := if isdigit ch then ch - 48 else ch - 97 + 10.

(** The body of the loop: the octet read (or NULL) and the position after it; reading past
    the end of the memory is undefined. *)
Definition ether_octet (cnt : nat) (asc : list Z) : option (option (Z * list Z)) :=
  c ← head asc;
  let ch := tolower c in
  let asc := tail asc in
  if not_hex ch then Some None else
  let number := hex_value ch in
  c ← head asc;
  let ch := tolower c in
  if ((cnt <? 5)%nat && negb (ch =? 58)) || ((cnt =? 5)%nat && negb (ch =? 0) && negb (isspace ch)) then
    let asc := tail asc in
    if not_hex ch then Some None else
    let number := Z.shiftl number 4 + hex_value ch in
    ch ← head asc;
    if (cnt <? 5)%nat && negb (ch =? 58) then Some None else Some (Some (number, tail asc))
  else Some (Some (number, tail asc)).

(** Whether the result is not NULL, and the octets of [addr] afterwards. *)
Fixpoint ether_loop (n : nat) (cnt : nat) (asc addr : list Z) : option (bool * list Z) :=
  match n with
  | O => Some (true, addr)
  | S n =>
    r ← ether_octet cnt asc;
    match r with
    | None => Some (false, addr)
    | Some (number, asc) => addr ← store_at cnt [u8 number] addr; ether_loop n (S cnt) asc addr
    end
  end.
Definition ether_aton_r (asc addr : list Z) : option (bool * list Z) := ether_loop 6 0 asc addr.

(** ** The trace time base *)

(** Seconds and microseconds. *)
Definition timeval_sub_base (trace_base t : Z * Z) : Z * Z :=
  let sec := t.1 - trace_base.1 in
  let usec := t.2 - trace_base.2 in
  let '(sec, usec) := if usec <? 0 then (sec - 1, usec + 1000000) else (sec, usec) in
  if 1000000 <=? usec then (sec + 1, usec - 1000000) else (sec, usec).

(** The [timespec] that [milli_sleep] gives to [nanosleep]. *)
Definition milli_sleep_timespec (milliseconds : Z) : Z * Z :=
  (milliseconds / 1000, (milliseconds `mod` 1000) * 1000000).

(** ** Sending a file *)

Definition MAX_SIZE : nat := 1400.

(** The calls of [send] so far, what the peer was given, and [tot_sent]. *)
Record sending := Sending { sd_calls : nat; sd_wire : list Z; sd_tot : Z }.

Section Send.
(** What the [n]-th call of [send] answers when it is offered these bytes. *)
Context (send : nat → list Z → Z).

(** The [do ... while (len)] loop: true when [send] failed. *)
Fixpoint send_chunk (fuel : nat) (p : list Z) (s : sending) : option (bool * sending) :=
  match fuel with
  | O => None
  | S fuel =>
    let sent := send (sd_calls s) p in
    if sent <? 0 then Some (true, Sending (S (sd_calls s)) (sd_wire s) (sd_tot s))
    else
      let n := Z.to_nat sent in
      let s := Sending (S (sd_calls s)) (sd_wire s ++ take n p) (s32 (sd_tot s + sent)) in
      match drop n p with [] => Some (false, s) | p => send_chunk fuel p s end
  end.

(** The loop over the file: [fread] takes up to [MAX_SIZE] bytes; after a short read the
    file is at its end. *)
Fixpoint send_chunks (fuel : nat) (contents : list Z) (s : sending) : option sending :=
  match fuel with
  | O => None
  | S fuel =>
    let buf := take MAX_SIZE contents in
    match buf with
    | [] => Some s
    | _ =>
      '(failed, s) ← send_chunk fuel buf s;
      if (failed : bool) then Some s
      else if (length buf <? MAX_SIZE)%nat then Some s
      else send_chunks fuel (drop MAX_SIZE contents) s
    end
  end.

(** [None] for a file that cannot be opened: [feof (NULL)]. *)
Definition send_file (fuel : nat) (file : option (list Z)) : option (Z * list Z) :=
  contents ← file;
  s ← send_chunks fuel contents (Sending 0 [] 0);
  Some (sd_tot s, sd_wire s).
End Send.

(** ** Random numbers *)

(** The numbers that [random ()] will answer. *)
Definition RandM (A : Type) : Type := list Z → option (A * list Z).
Definition random : list Z → option (Z * list Z) := fun s => match s with [] => None | r :: s => Some (r, s) end.
Definition prng_uint8 (s : list Z) : option (Z * list Z) := '(r, s) ← random s; Some (Z.land r 0xff, s).
Definition prng_uint32 (s : list Z) : option (Z * list Z) :=
  '(r1, s) ← random s;
  '(r2, s) ← random s;
  Some (Z.lor (Z.shiftl (Z.land r1 0xffff) 16) (Z.shiftl (Z.land r2 0xffff) 0), s).

(** ** The checksum is the one's complement sum (RFC 1071) *)

(** The 16-bit words of a buffer, the last one padded with a zero byte. *)
Fixpoint words16 (l : list Z) : list Z :=
  match l with b0 :: b1 :: l => (b0 + 256 * b1) :: words16 l | [b] => [b] | [] => [] end.
(** Addition with end-around carry. *)
Definition oc_add (a b : Z) : Z := if a + b <? 65536 then a + b else a + b - 65535.
Definition ones_sum (csum : Z) (l : list Z) : Z := fold_left oc_add (words16 l) csum.
Definition zsum (l : list Z) : Z := fold_right Z.add 0 l.

Lemma pair_list_ind {A} (P : list A → Prop) :
  P [] → (∀ x, P [x]) → (∀ x y l, P l → P (x :: y :: l)) → ∀ l, P l.
Proof.
  intros H0 H1 H2. fix IH 1. intros [|x [|y l]]; [done|apply H1|apply H2, IH].
Qed.

Lemma words16_range l : bytes l → Forall is_u16 (words16 l).
Proof.
  induction l as [|x|x y l IH] using pair_list_ind; intros Hl; [constructor|..].
  - apply Forall_cons in Hl as [Hx _]. repeat constructor; unfold is_byte in *; lia.
  - apply Forall_cons in Hl as [Hx Hl]. apply Forall_cons in Hl as [Hy Hl].
    constructor; [unfold is_u16, is_byte in *; lia|auto].
Qed.

Lemma zsum_range l : Forall is_u16 l → 0 <= zsum l <= 65535 * Z.of_nat (length l).
Proof.
  induction 1 as [|x l Hx _ IH]; [cbn; lia|]. cbn [zsum fold_right length]. fold (zsum l). unfold is_u16 in Hx. lia.
Qed.

Lemma length_words16 l : (2 * length (words16 l) <= length l + 1)%nat.
Proof. induction l as [|x|x y l IH] using pair_list_ind; cbn [words16 length] in *; lia. Qed.

Lemma htons_byte b : is_byte b → htons (u16 (Z.shiftl b 8)) = b.
Proof.
  intros Hb. unfold is_byte in Hb. unfold htons. rewrite (Z.shiftl_mul_pow2 b) by lia.
  assert (E : u16 (b * 2 ^ 8) = b * 256) by (unfold u16; apply Z.mod_small; lia).
  rewrite E. change 0xff with (2 ^ 8 - 1). rewrite land_ones_mod by lia.
  assert (E2 : (b * 256) `mod` 2 ^ 8 = 0) by (rewrite Z.mod_eq by lia; change (2 ^ 8) with 256; rewrite Z.div_mul; lia).
  rewrite E2, Z.shiftl_0_l, Z.lor_0_l, Z.shiftr_div_pow2 by lia.
  unfold u16. rewrite Z.mod_small by lia. change (2 ^ 8) with 256. by rewrite Z.div_mul.
Qed.

Lemma cksum_loop_run l s :
  bytes l → 0 <= s → s + 65535 * Z.of_nat (length (words16 l)) < 2 ^ 31 → cksum_loop l s = Some (s + zsum (words16 l)).
Proof.
  revert s. induction l as [|x|x y l IH] using pair_list_ind; intros s Hl Hs Hb.
  - cbn. f_equal. lia.
  - apply Forall_cons in Hl as [Hl _]. cbn [cksum_loop words16 zsum fold_right length] in *. rewrite htons_byte by done.
    unfold int_add, is_byte in *. destruct (Z.ltb_spec (s + x) (2 ^ 31)); [f_equal; lia|lia].
  - apply Forall_cons in Hl as [Hx Hl]. apply Forall_cons in Hl as [Hy Hl].
    cbn [cksum_loop words16 zsum fold_right length] in *. rewrite Z.shiftl_mul_pow2 by lia.
    unfold int_add. unfold is_byte in Hx, Hy. change (2 ^ 8) with 256.
    destruct (Z.ltb_spec (s + (x + y * 256)) (2 ^ 31)); [|lia]. cbn [mbind option_bind].
    rewrite IH by (done || lia). unfold zsum. f_equal. lia.
Qed.

(** The representative of [S] modulo 65535 that end-around carries arrive at. *)
Definition oc (S : Z) : Z := if S =? 0 then 0 else (S - 1) `mod` 65535 + 1.

Lemma oc_small S : 0 <= S < 65536 → oc S = S.
Proof. intros H. unfold oc. destruct (Z.eqb_spec S 0); [lia|]. rewrite Z.mod_small; lia. Qed.
Lemma oc_range S : 0 <= S → 0 <= oc S < 65536.
Proof. intros H. unfold oc. destruct (Z.eqb_spec S 0); [lia|]. pose proof (Z.mod_pos_bound (S - 1) 65535). lia. Qed.

Lemma oc_char S r k : 0 <= S → 0 <= r < 65536 → (r = 0 ↔ S = 0) → S = r + 65535 * k → oc S = r.
Proof.
  intros HS Hr H0 E. unfold oc. destruct (Z.eqb_spec S 0); [lia|].
  assert (1 <= r) by lia. replace (S - 1) with (r - 1 + k * 65535) by lia. rewrite Z_mod_plus_full, Z.mod_small; lia.
Qed.

Lemma oc_quot S : 0 <= S → ∃ k, S = oc S + 65535 * k ∧ (oc S = 0 ↔ S = 0).
Proof.
  intros H. unfold oc. destruct (Z.eqb_spec S 0) as [->|]; [exists 0; lia|].
  exists ((S - 1) / 65535). pose proof (Z.div_mod (S - 1) 65535). pose proof (Z.mod_pos_bound (S - 1) 65535). lia.
Qed.

Lemma oc_add_oc S b : 0 <= S → is_u16 b → oc_add (oc S) b = oc (S + b).
Proof.
  unfold is_u16. intros HS Hb. destruct (oc_quot S HS) as (k & E & Hz). pose proof (oc_range S HS) as Hr. symmetry.
  unfold oc_add. destruct (Z.ltb_spec (oc S + b) 65536).
  - apply (oc_char _ _ k); [lia..| |lia]. lia.
  - apply (oc_char _ _ (k + 1)); lia.
Qed.

Lemma ones_sum_oc l S : Forall is_u16 l → 0 <= S → fold_left oc_add l (oc S) = oc (S + zsum l).
Proof.
  intros Hl. revert S. induction Hl as [|x l Hx _ IH]; intros S HS; cbn [fold_left zsum fold_right]; [f_equal; lia|].
  rewrite oc_add_oc by done. unfold is_u16 in Hx. rewrite IH by lia. f_equal. unfold zsum. lia.
Qed.

Lemma fold_carries S : 0 <= S < 2 ^ 31 →
  let s1 := Z.shiftr S 16 + Z.land S 0xffff in u16 (Z.lnot (s1 + Z.shiftr s1 16)) = 65535 - oc S.
Proof.
  intros HS s1. assert (E1 : s1 = S / 65536 + S `mod` 65536).
  { unfold s1. rewrite Z.shiftr_div_pow2 by lia. change 0xffff with (2 ^ 16 - 1). by rewrite land_ones_mod by lia. }
  clearbody s1. pose proof (Z.div_mod S 65536) as Hd. pose proof (Z.mod_pos_bound S 65536) as Hm.
  assert (Hh : 0 <= S / 65536 < 32768) by (split; [apply Z.div_pos; lia|apply Z.div_lt_upper_bound; lia]).
  rewrite Z.shiftr_div_pow2 by lia. change (2 ^ 16) with 65536.
  unfold Z.lnot, u16. change (2 ^ 16) with 65536.
  destruct (Z.lt_ge_cases s1 65536) as [Hc|Hc].
  - rewrite (Z.div_small s1) by lia. rewrite (oc_char S s1 (S / 65536)) by lia.
    replace (Z.pred (- (s1 + 0))) with (65535 - s1 + (-1) * 65536) by lia. rewrite Z_mod_plus_full, Z.mod_small; lia.
  - assert (E2 : s1 / 65536 = 1) by (symmetry; apply (Z.div_unique s1 65536 1 (s1 - 65536)); lia).
    rewrite E2. rewrite (oc_char S (s1 - 65535) (S / 65536 + 1)) by lia.
    replace (Z.pred (- (s1 + 1))) with (65535 - (s1 - 65535) + (-2) * 65536) by lia. rewrite Z_mod_plus_full, Z.mod_small; lia.
Qed.

Lemma in_cksum_run l csum :
  bytes l → is_u16 csum → Z.of_nat (length l) <= 65534 → in_cksum l csum = Some (65535 - oc (csum + zsum (words16 l))).
Proof.
  unfold is_u16. intros Hl Hc Hn. pose proof (length_words16 l) as Hw. pose proof (zsum_range _ (words16_range l Hl)) as Hz.
  unfold in_cksum. rewrite cksum_loop_run by (done || lia). cbn [mbind option_bind].
  by rewrite (fold_carries (csum + zsum (words16 l))) by lia.
Qed.

Lemma ones_sum_eq l csum : bytes l → is_u16 csum → ones_sum csum l = oc (csum + zsum (words16 l)).
Proof.
  intros Hl Hc. unfold ones_sum. rewrite <- ones_sum_oc; [|by apply words16_range|unfold is_u16 in *; lia].
  by rewrite oc_small.
Qed.

Lemma words16_app l1 l2 : Nat.even (length l1) = true → words16 (l1 ++ l2) = words16 l1 ++ words16 l2.
Proof.
  induction l1 as [|x|x y l1 IH] using pair_list_ind; intros He; [done|done|]. cbn [app words16]. f_equal. by apply IH.
Qed.
Lemma zsum_app l1 l2 : zsum (l1 ++ l2) = zsum l1 + zsum l2.
Proof. unfold zsum. induction l1 as [|x l IH]; cbn [app fold_right] in *; [lia|]. rewrite IH. lia. Qed.

(** The checksum of a buffer of at most 65534 bytes is the complement of the one's
    complement sum of its words, without any overflow of the [int] accumulator; and a
    receiver that sums an even-sized buffer followed by its checksum gets 0. *)
Theorem in_cksum_correct l csum :
  bytes l → is_u16 csum → Z.of_nat (length l) <= 65534 →
  ∃ c, in_cksum l csum = Some c ∧ is_u16 c ∧ c = 65535 - ones_sum csum l ∧
       (Nat.even (length l) = true → Z.of_nat (length l) <= 65532 →
        in_cksum (l ++ [c `mod` 256; c / 256]) csum = Some 0).
Proof.
  intros Hl Hc Hn. pose proof (oc_range (csum + zsum (words16 l))) as Hr. pose proof (zsum_range _ (words16_range l Hl)) as Hz.
  unfold is_u16 in Hc. exists (65535 - oc (csum + zsum (words16 l))). split; [by apply in_cksum_run|].
  specialize (Hr ltac:(lia)). assert (Hcr : 0 <= 65535 - oc (csum + zsum (words16 l)) < 65536) by lia.
  split; [exact Hcr|]. split; [by rewrite ones_sum_eq|]. intros He Hn2.
  set (c := 65535 - oc _) in *.
  assert (Hb : bytes [c `mod` 256; c / 256]).
  { repeat constructor; try (apply Z.mod_pos_bound; lia); [apply Z.div_pos; lia|apply Z.div_lt_upper_bound; lia]. }
  rewrite in_cksum_run; [|apply Forall_app; by split|done|rewrite length_app; cbn; lia].
  rewrite words16_app, zsum_app by done. cbn [words16 zsum fold_right].
  replace (c `mod` 256 + 256 * (c / 256) + 0) with c by (pose proof (Z.div_mod c 256); lia).
  rewrite Z.add_assoc, <- oc_add_oc by (unfold is_u16; lia). unfold oc_add, c.
  replace (oc (csum + zsum (words16 l)) + (65535 - oc (csum + zsum (words16 l)))) with 65535 by lia. done.
Qed.

(** ** Hexadecimal strings *)

Lemma store_at_app pre mid post l i :
  length pre = i → length mid = length l → store_at i l (pre ++ mid ++ post) = Some (pre ++ l ++ post).
Proof.
  intros <- Hm. unfold store_at. rewrite !length_app, <- Hm.
  destruct (Nat.leb_spec (length pre + length mid) (length pre + (length mid + length post))); [|lia].
  rewrite take_app_length, (app_assoc pre mid post), <- length_app, drop_app_length. done.
Qed.

Lemma store_at_fail i l buf : (length buf < i + length l)%nat → store_at i l buf = None.
Proof. intros H. unfold store_at. by destruct (Nat.leb_spec (i + length l) (length buf)); [lia|]. Qed.

Lemma split_length {A} n (l : list A) : (n <= length l)%nat → ∃ l1 l2, l = l1 ++ l2 ∧ length l1 = n.
Proof. intros H. exists (take n l), (drop n l). rewrite take_drop, length_take. split; [done|lia]. Qed.

(** The digits of a buffer. *)
Definition hex_string (buf : list Z) : list Z := concat (map sprintf_02x buf).

Lemma length_hex_string buf : length (hex_string buf) = (2 * length buf)%nat.
Proof. unfold hex_string. induction buf as [|b buf IH]; [done|]. cbn [map concat length]. rewrite length_app, IH. cbn. lia. Qed.

Lemma land_ff b : is_byte b → Z.land b 0xff = b.
Proof. intros H. change 0xff with (2 ^ 8 - 1). rewrite land_ones_mod by lia. by apply Z.mod_small. Qed.

Lemma buf2str_loop_run buf acc rest :
  bytes buf → (2 * length buf + 1 <= length rest)%nat →
  ∃ rest', buf2str_loop buf (length acc) (acc ++ rest) = Some (acc ++ hex_string buf ++ rest') ∧
           length rest = (2 * length buf + length rest')%nat ∧ drop 1 rest' = drop (2 * length buf + 1) rest.
Proof.
  intros Hb. revert acc rest. induction Hb as [|b buf Hb _ IH]; intros acc rest Hl; [exists rest; split_and!; done|].
  cbn [length] in *. destruct (split_length 3 rest) as (mid & post & -> & Hm); [lia|]. rewrite length_app in Hl.
  cbn [buf2str_loop]. rewrite land_ff by done.
  rewrite (store_at_app acc mid post (sprintf_02x b ++ [0])) by done. cbn [mbind option_bind].
  destruct (IH (acc ++ sprintf_02x b) ([0] ++ post)) as (rest' & E & El & Ed); [cbn; lia|].
  exists rest'. replace (length acc + 2)%nat with (length (acc ++ sprintf_02x b)) by (rewrite length_app; done).
  replace (acc ++ (sprintf_02x b ++ [0]) ++ post) with ((acc ++ sprintf_02x b) ++ [0] ++ post) by (by rewrite <- !app_assoc).
  rewrite E. split_and!.
  - f_equal. unfold hex_string. cbn [map concat]. by rewrite <- !app_assoc.
  - rewrite length_app, Hm. cbn [app length] in El. lia.
  - rewrite Ed. replace (2 * S (length buf) + 1)%nat with (2 * length buf + 3)%nat by lia.
    replace (2 * length buf + 1)%nat with (S (2 * length buf)) by lia. cbn [app drop]. rewrite <- Hm. 
    rewrite Nat.add_comm, <- drop_drop, drop_app_length. done.
Qed.

Lemma buf2str_loop_fail buf acc rest :
  buf ≠ [] → (length rest < 2 * length buf + 1)%nat → buf2str_loop buf (length acc) (acc ++ rest) = None.
Proof.
  revert acc rest. induction buf as [|b buf IH]; intros acc rest Hne Hl; [done|]. cbn [buf2str_loop length] in *.
  destruct (decide (3 <= length rest)%nat) as [H3|H3].
  - destruct (split_length 3 rest) as (mid & post & -> & Hm); [lia|]. rewrite length_app in Hl.
    rewrite (store_at_app acc mid post) by done. cbn [mbind option_bind].
    replace (length acc + 2)%nat with (length (acc ++ sprintf_02x (Z.land b 0xff))) by (rewrite length_app; done).
    replace (acc ++ (sprintf_02x (Z.land b 0xff) ++ [0]) ++ post) with ((acc ++ sprintf_02x (Z.land b 0xff)) ++ [0] ++ post)
      by (by rewrite <- !app_assoc).
    destruct buf; [cbn in *; lia|]. apply IH; [done|cbn in *; lia].
  - rewrite store_at_fail; [done|]. rewrite !length_app. cbn. lia.
Qed.

Lemma hex_digit_nonzero d : 0 <= d → hex_digit d ≠ 0.
Proof. unfold hex_digit. intros. destruct (Z.ltb_spec d 10); lia. Qed.

Lemma c_string_app l rest : Forall (.≠ 0) l → c_string (l ++ 0 :: rest) = Some l.
Proof. induction 1 as [|b l Hb _ IH]; [done|]. cbn [app c_string]. destruct (Z.eqb_spec b 0); [done|]. by rewrite IH. Qed.

Lemma hex_string_nonzero buf : bytes buf → Forall (.≠ 0) (hex_string buf).
Proof.
  unfold hex_string. induction 1 as [|b buf Hb _ IH]; [constructor|]. cbn [map concat sprintf_02x app].
  unfold is_byte in Hb. repeat constructor; try done; apply hex_digit_nonzero; [apply Z.div_pos; lia|apply Z.mod_pos_bound; lia].
Qed.

(** What [str2buf] makes of the digits of [b]: the sum of the digits, 39 too much for each
    letter. *)
Definition digit_read (d : Z) : Z := if d <? 10 then d else d + 39.
Definition misread (b : Z) : Z := digit_read (b / 16) + digit_read (b `mod` 16).

Lemma misread_id b : is_byte b → misread b = b ↔ b < 10.
Proof.
  intros Hb. unfold is_byte in Hb. unfold misread, digit_read. pose proof (Z.div_mod b 16). pose proof (Z.mod_pos_bound b 16).
  destruct (Z.ltb_spec (b / 16) 10), (Z.ltb_spec (b `mod` 16) 10); lia.
Qed.

Lemma str2buf_digit_hex d : 0 <= d < 16 → str2buf_digit (hex_digit d) = digit_read d.
Proof.
  intros H. unfold str2buf_digit, hex_digit, digit_read.
  destruct (Z.ltb_spec d 10); destruct (Z.leb_spec 48 (48 + d)), (Z.leb_spec 48 (87 + d)); cbn [orb]; lia.
Qed.

Lemma str2buf_loop_run buf pre post acc rest :
  bytes buf → length pre = (2 * length acc)%nat → length rest = length buf →
  str2buf_loop (length buf) (length acc) (pre ++ hex_string buf ++ post) (acc ++ rest) = Some (acc ++ map misread buf).
Proof.
  intros Hb. revert pre acc rest. induction Hb as [|b buf Hb _ IH]; intros pre acc rest Hp Hr.
  - destruct rest; [|done]. cbn. by rewrite !app_nil_r.
  - cbn [length str2buf_loop] in *. destruct rest as [|r rest]; [done|]. unfold is_byte in Hb.
    assert (Hd : 0 <= b / 16 < 16) by (split; [apply Z.div_pos; lia|apply Z.div_lt_upper_bound; lia]).
    assert (Hm : 0 <= b `mod` 16 < 16) by (apply Z.mod_pos_bound; lia).
    change (hex_string (b :: buf)) with ([hex_digit (b / 16); hex_digit (b `mod` 16)] ++ hex_string buf).
    rewrite <- Hp. rewrite !(lookup_app_r pre) by lia. rewrite Nat.sub_diag.
    replace (length pre + 1 - length pre)%nat with 1%nat by lia. cbn [app lookup list_lookup mbind option_bind].
    rewrite !str2buf_digit_hex by done.
    assert (Hv : Z.land (u8 (u8 (digit_read (b / 16)) + digit_read (b `mod` 16))) 0xff = misread b).
    { unfold misread, digit_read, u8. rewrite Zplus_mod_idemp_l.
      rewrite Z.mod_small by (destruct (Z.ltb_spec (b / 16) 10), (Z.ltb_spec (b `mod` 16) 10); lia).
      apply land_ff. unfold is_byte. destruct (Z.ltb_spec (b / 16) 10), (Z.ltb_spec (b `mod` 16) 10); lia. }
    rewrite Hv, (store_at_app acc [r] rest [misread b]) by done. cbn [mbind option_bind map].
    replace (pre ++ hex_digit (b / 16) :: hex_digit (b `mod` 16) :: hex_string buf ++ post)
      with ((pre ++ sprintf_02x b) ++ hex_string buf ++ post) by (by rewrite <- app_assoc).
    replace (acc ++ [misread b] ++ rest) with ((acc ++ [misread b]) ++ rest) by (by rewrite <- app_assoc).
    replace (S (length acc)) with (length (acc ++ [misread b])) by (rewrite length_app; cbn; lia).
    rewrite IH; [by rewrite <- app_assoc| |by injection Hr]. rewrite !length_app. cbn. lia.
Qed.

(** [buf2str] writes the hexadecimal form of a buffer exactly when the string has room
    for two digits a byte and the terminator, and overruns it otherwise; [str2buf] does not
    invert it: it reads back the sum of the digits, with 39 too much for each letter, which
    is the byte itself only below ten. *)
Theorem buf2str_str2buf buf str out :
  bytes buf → buf ≠ [] → length out = length buf →
  ((length str < 2 * length buf + 1)%nat → buf2str buf str (length buf) = None) ∧
  ((2 * length buf + 1 <= length str)%nat → ∃ str', buf2str buf str (length buf) = Some str' ∧
     length str' = length str ∧ c_string_at str' 0 = Some (hex_string buf) ∧
     drop (2 * length buf + 1) str' = drop (2 * length buf + 1) str ∧
     ∃ out', str2buf str' out (length buf) = Some out' ∧ out' = map misread buf ∧
             (out' = buf ↔ Forall (fun b => b < 10) buf)).
Proof.
  intros Hb Hne Ho. unfold buf2str. rewrite Nat.ltb_irrefl, firstn_all. split; intros Hl.
  - pose proof (buf2str_loop_fail buf [] str Hne Hl) as E. cbn [app length] in E. by rewrite E.
  - destruct (buf2str_loop_run buf [] str Hb Hl) as (rest' & E & El & Ed). cbn [app length] in E. rewrite E. cbn [mbind option_bind].
    destruct rest' as [|r rest']; [cbn in *; lia|]. cbn [drop] in Ed.
    rewrite (store_at_app (hex_string buf) [r] rest' [0]); [|rewrite length_hex_string; lia|done].
    exists (hex_string buf ++ [0] ++ rest'). split; [done|]. cbn [length] in El.
    split; [rewrite !length_app, length_hex_string; cbn; lia|].
    split; [by apply c_string_app, hex_string_nonzero|]. split.
    { rewrite (drop_app_add' (hex_string buf)) by (by rewrite length_hex_string). by rewrite <- Ed. }
    exists (map misread buf). split; [apply (str2buf_loop_run buf [] ([0] ++ rest') [] out); done|]. split; [done|].
    clear -Hb. induction Hb as [|b buf Hb _ IH]; [done|]. cbn [map]. rewrite Forall_cons, <- IH, <- (misread_id b Hb). split; [by intros [= -> ->]|].
    by intros [-> ->].
Qed.

(** ** Printable addresses *)

Definition addr_ok (addr : Z * Z * Z * Z) : Prop :=
  let '(a, b, c, d) := addr in is_byte a ∧ is_byte b ∧ is_byte c ∧ is_byte d.

Lemma inet_ntoa_ok addr : addr_ok addr → no_nul (inet_ntoa addr) ∧ (String.length (inet_ntoa addr) <= 15)%nat.
Proof.
  destruct addr as [[[a b] c] d]. intros (Ha & Hb & Hc & Hd). unfold inet_ntoa, is_byte in *.
  assert (Hdot : no_nul ".") by (split; done). split.
  - repeat apply no_nul_app; try done; apply no_nul_dec; lia.
  - assert (H3 : ∀ n, 0 <= n < 256 → (String.length (dec n) <= 3)%nat) by (intros n Hn; apply length_dec; lia).
    pose proof (H3 a Ha). pose proof (H3 b Hb). pose proof (H3 c Hc). pose proof (H3 d Hd).
    rewrite !length_app_string. cbn [String.length]. lia.
Qed.

(** The slot at [p] holds the string [s]. *)
Definition slot_holds (buf : list Z) (p : nat) (s : string) : Prop :=
  no_nul s ∧ (String.length s <= 15)%nat ∧ take (S (String.length s)) (drop p buf) = bytes_of_string s ++ [0].

Lemma slot_c_string buf p s : slot_holds buf p s → c_string_at buf p = Some (bytes_of_string s).
Proof.
  intros (Hn & _ & E). unfold c_string_at. rewrite <- (take_drop (S (String.length s)) (drop p buf)), E.
  rewrite <- app_assoc. apply c_string_app. by apply no_nul_bytes.
Qed.

Definition ip_wf (s : ip_static) : Prop := length (ip_buf s) = 64%nat ∧ ip_index s ∈ [0; 16; 32; 48]%nat.

(** One call: it writes its own slot, and leaves the three others as they were. *)
Lemma ip_to_str_run addr s :
  addr_ok addr → ip_wf s →
  ∃ s', ip_to_str addr s = Some (ip_index s, s') ∧ ip_wf s' ∧ ip_index s' = ((ip_index s + 16) `mod` 64)%nat ∧
        slot_holds (ip_buf s') (ip_index s) (inet_ntoa addr) ∧
        (∀ p t, p ∈ [0; 16; 32; 48]%nat → p ≠ ip_index s → slot_holds (ip_buf s) p t → slot_holds (ip_buf s') p t).
Proof.
  intros Ha [Hl Hi]. destruct (inet_ntoa_ok addr Ha) as [Hn H15]. unfold ip_to_str.
  set (i := ip_index s) in *. set (l := bytes_of_string (inet_ntoa addr) ++ [0]).
  assert (Hll : length l = S (String.length (inet_ntoa addr))) by (unfold l; rewrite length_app, length_bytes_of_string; cbn; lia).
  assert (Hi' : (i <= 48)%nat) by (rewrite !elem_of_cons, elem_of_nil in Hi; lia).
  unfold store_at. destruct (Nat.leb_spec (i + length l) (length (ip_buf s))); [|lia]. cbn [mbind option_bind].
  eexists. split; [reflexivity|]. unfold ip_wf. cbn [ip_buf ip_index]. split_and!.
  - rewrite !length_app, length_take, length_drop. lia.
  - rewrite !elem_of_cons, elem_of_nil in *. destruct Hi as [-> | [-> | [-> | [-> |[]]]]]; vm_compute; tauto.
  - done.
  - split_and!; [done|done|]. rewrite drop_app_length' by (rewrite length_take; lia). rewrite <- Hll, take_app_length. done.
  - intros p t Hp Hne (Ht & Ht15 & E). split_and!; [done|done|]. rewrite <- E.
    apply list_eq. intros k. destruct (decide (k < S (String.length t))%nat) as [Hk|Hk];
      [|by rewrite !lookup_take_ge by lia].
    rewrite !lookup_take_lt, !lookup_drop by lia.
    assert (Hsep : (p + 16 <= i)%nat ∨ (i + 16 <= p)%nat).
    { rewrite !elem_of_cons, elem_of_nil in *. lia. }
    destruct Hsep.
    + rewrite lookup_app_l by (rewrite length_take; lia). by rewrite lookup_take_lt by lia.
    + rewrite lookup_app_r by (rewrite length_take; lia). rewrite length_take, Nat.min_l by lia.
      rewrite lookup_app_r by lia. rewrite lookup_drop. f_equal. lia.
Qed.

(** A sequence of calls, with their answers. *)
Fixpoint ip_calls (addrs : list (Z * Z * Z * Z)) (s : ip_static) : option (list nat * ip_static) :=
  match addrs with
  | [] => Some ([], s)
  | a :: addrs => '(p, s) ← ip_to_str a s; '(ps, s) ← ip_calls addrs s; Some (p :: ps, s)
  end.

Lemma slot_next i k : i ∈ [0; 16; 32; 48]%nat → ((i + 16 * k) `mod` 64 ∈ [0; 16; 32; 48])%nat.
Proof.
  intros Hi. assert (∃ j, i = 16 * j)%nat as [j ->].
  { rewrite !elem_of_cons, elem_of_nil in Hi. destruct Hi as [-> | [-> | [-> | [-> |[]]]]]; [by exists 0%nat|by exists 1%nat|by exists 2%nat|by exists 3%nat]. }
  replace (16 * j + 16 * k)%nat with (16 * (j + k))%nat by lia. change 64%nat with (16 * 4)%nat.
  rewrite Nat.Div0.mul_mod_distr_l. pose proof (Nat.mod_upper_bound (j + k) 4).
  rewrite !elem_of_cons, elem_of_nil. lia.
Qed.

Lemma ip_calls_run addrs s :
  Forall addr_ok addrs → ip_wf s →
  ∃ ps s', ip_calls addrs s = Some (ps, s') ∧ ip_wf s' ∧
    ps = imap (fun k _ => (ip_index s + 16 * k) `mod` 64)%nat addrs ∧
    (∀ p t, p ∈ [0; 16; 32; 48]%nat → p ∉ ps → slot_holds (ip_buf s) p t → slot_holds (ip_buf s') p t) ∧
    ((length addrs <= 4)%nat → Forall2 (fun a p => slot_holds (ip_buf s') p (inet_ntoa a)) addrs ps).
Proof.
  intros Ha. revert s. induction Ha as [|a addrs Ha _ IH]; intros s Hw.
  - exists [], s. split_and!; try done.
  - destruct (ip_to_str_run a s Ha Hw) as (s1 & E & Hw1 & Ei & Hs & Hk). destruct (IH s1 Hw1) as (ps & s' & E2 & Hw' & Eps & Hk' & Hf).
    assert (Hi : ((ip_index s + 0) `mod` 64 = ip_index s)%nat).
    { destruct Hw as [_ Hi]. rewrite !elem_of_cons, elem_of_nil in Hi. destruct Hi as [-> | [-> | [-> | [-> |[]]]]]; done. }
    assert (Eps' : ps = imap (fun k _ => (ip_index s + 16 * S k) `mod` 64)%nat addrs).
    { rewrite Eps. apply imap_ext. intros k x _. rewrite Ei, Nat.Div0.add_mod_idemp_l. f_equal. lia. }
    exists (ip_index s :: ps), s'. cbn [ip_calls]. rewrite E. cbn [mbind option_bind]. rewrite E2. cbn [mbind option_bind].
    split_and!; [done|done| | |].
    + rewrite imap_cons. rewrite Nat.mul_0_r, Hi. f_equal. exact Eps'.
    + intros p t Hp Hn Ht. apply not_elem_of_cons in Hn as [Hn1 Hn2]. by apply Hk', Hk.
    + intros Hl. cbn [length] in Hl. constructor; [|apply Hf; lia]. apply Hk'; [apply Hw| |done].
      rewrite Eps'. intros Hin. apply elem_of_lookup_imap in Hin as (k & x & E3 & Hx). apply lookup_lt_Some in Hx.
      destruct Hw as [_ Hi']. rewrite !elem_of_cons, elem_of_nil in Hi'.
      assert (k = 0 ∨ k = 1 ∨ k = 2)%nat as [-> | [-> | ->]] by lia;
        destruct Hi' as [Ej | [Ej | [Ej | [Ej |[]]]]]; rewrite Ej in E3; vm_compute in E3; discriminate.
Qed.

(** The static buffer of [ip_to_str] is a ring of four slots: after any number of
    calls, the last four answers (or fewer) still read as the addresses they were made
    from, and no call ever writes outside the buffer; a fifth call answers the pointer of
    the first again. *)
Theorem ip_to_str_ring before addrs s :
  Forall addr_ok before → Forall addr_ok addrs → (length addrs <= 4)%nat → ip_wf s →
  ∃ qs ps s', ip_calls (before ++ addrs) s = Some (qs ++ ps, s') ∧ length qs = length before ∧ ip_wf s' ∧
    Forall2 (fun a p => c_string_at (ip_buf s') p = Some (bytes_of_string (inet_ntoa a))) addrs ps ∧
    (∀ k p, (qs ++ ps) !! k = Some p → ∀ q, (qs ++ ps) !! (k + 4)%nat = Some q → p = q).
Proof.
  intros Hb Ha Hl Hw. destruct (ip_calls_run before s Hb Hw) as (qs & s1 & E1 & Hw1 & Eqs & _).
  destruct (ip_calls_run addrs s1 Ha Hw1) as (ps & s2 & E2 & Hw2 & _ & _ & Hf).
  assert (E : ip_calls (before ++ addrs) s = Some (qs ++ ps, s2)).
  { clear -E1 E2. revert s qs E1. induction before as [|a before IH]; intros s qs E1; cbn [ip_calls app] in *.
    - injection E1 as <- <-. by rewrite E2.
    - destruct (ip_to_str a s) as [[p s3]|]; [|done]. cbn [mbind option_bind] in *.
      destruct (ip_calls before s3) as [[ps3 s4]|] eqn:E3; [|done]. cbn [mbind option_bind] in E1. injection E1 as <- <-.
      rewrite (IH s3 ps3) by done. done. }
  destruct (ip_calls_run (before ++ addrs) s) as (all & s3 & E3 & _ & Eall & _); [by apply Forall_app|done|].
  rewrite E in E3. injection E3 as <- <-. exists qs, ps, s2. split_and!; [done|by rewrite Eqs, length_imap|done| |].
  - eapply Forall2_impl; [by apply Hf|]. intros a p. apply slot_c_string.
  - intros k p Hp q Hq. rewrite Eall in Hp, Hq. rewrite list_lookup_imap in Hp, Hq.
    destruct ((before ++ addrs) !! k); [|done]. destruct ((before ++ addrs) !! (k + 4)%nat); [|done]. apply (inj Some) in Hp as <-, Hq as <-.
    replace (ip_index s + 16 * (k + 4))%nat with (ip_index s + 16 * k + 1 * 64)%nat by lia. by rewrite Nat.Div0.mod_add.
Qed.

(** ** Ethernet addresses *)

Lemma digit_cases (P : Z → Prop) : Forall P [0; 1; 2; 3; 4; 5; 6; 7; 8; 9; 10; 11; 12; 13; 14; 15] → ∀ d, 0 <= d < 16 → P d.
Proof. intros H d Hd. eapply Forall_forall; [exact H|]. rewrite !elem_of_cons. lia. Qed.

Lemma hex_char_value up d : 0 <= d < 16 →
  not_hex (tolower (byte_of_ascii (hex_char up d))) = false ∧ hex_value (tolower (byte_of_ascii (hex_char up d))) = d.
Proof. revert d. apply digit_cases. destruct up; repeat constructor. Qed.

Lemma not_hex_zero c : not_hex (tolower c) = false → c ≠ 0 ∧ tolower c ≠ 58.
Proof.
  unfold tolower. intros H. split; [by intros ->|]. intros Hc. by rewrite Hc in H.
Qed.

Lemma ether_octet_hex2 up cnt b sep rest :
  is_byte b → ((cnt < 5)%nat → sep = 58) → (cnt <= 5)%nat →
  ether_octet cnt (bytes_of_string (hex2 up b) ++ sep :: rest) = Some (Some (b, rest)).
Proof.
  intros Hb Hs Hc. unfold is_byte in Hb. unfold ether_octet, hex2. cbn [bytes_of_string app head tail mbind option_bind].
  destruct (hex_char_value up (b / 16)) as [E1 E2]; [Z.to_euclidean_division_equations; lia|].
  destruct (hex_char_value up (b `mod` 16)) as [E3 E4]; [Z.to_euclidean_division_equations; lia|].
  rewrite E1, E2, E3, E4. pose proof (not_hex_zero _ E3) as [Hz H58].
  set (ch := tolower (byte_of_ascii (hex_char up (b `mod` 16)))) in *.
  assert (Hch : ch ≠ 0 ∧ isspace ch = false).
  { clearbody ch. clear -E3. unfold not_hex, isspace in *. split; [by intros ->|].
    apply andb_false_iff in E3. rewrite !orb_false_iff. lia. }
  destruct Hch as [Hch Hsp]. rewrite Hsp.
  replace (((cnt <? 5)%nat && negb (ch =? 58)) || ((cnt =? 5)%nat && negb (ch =? 0) && negb false)) with true.
  2: { symmetry. destruct (Z.eqb_spec ch 58); [done|]. destruct (Z.eqb_spec ch 0); [done|].
       destruct (Nat.ltb_spec cnt 5); [done|]. replace cnt with 5%nat by lia. done. }
  assert (Hsep : (cnt <? 5)%nat && negb (sep =? 58) = false).
  { destruct (Nat.ltb_spec cnt 5) as [H|H]; [|done]. by rewrite (Hs H). }
  rewrite Hsep. do 3 f_equal. rewrite Z.shiftl_mul_pow2 by lia. pose proof (Z.div_mod b 16). lia.
Qed.

(** Between the octets of a string there is still its terminator to come. *)
Lemma ether_octet_safe cnt asc : 0 ∈ asc →
  ∃ r, ether_octet cnt asc = Some r ∧
       match r with Some (_, asc') => (cnt < 5)%nat → 0 ∈ asc' | None => True end.
Proof.
  intros H0. unfold ether_octet. destruct asc as [|c asc]; [by apply not_elem_of_nil in H0|]. cbn [head tail mbind option_bind].
  destruct (not_hex (tolower c)) eqn:E1; [by eexists|]. pose proof (not_hex_zero c E1) as [Hc _].
  apply elem_of_cons in H0 as [?|H0]; [done|].
  destruct asc as [|c2 asc]; [by apply not_elem_of_nil in H0|]. cbn [head tail mbind option_bind].
  destruct (_ || _) eqn:E.
  - destruct (not_hex (tolower c2)) eqn:E2; [by eexists|]. pose proof (not_hex_zero c2 E2) as [Hc2 _].
    apply elem_of_cons in H0 as [?|H0]; [done|]. destruct asc as [|c3 asc]; [by apply not_elem_of_nil in H0|]. cbn [head tail mbind option_bind].
    destruct ((cnt <? 5)%nat && negb (c3 =? 58)) eqn:E3; eexists; (split; [reflexivity|]); [done|]. intros H5.
    destruct (Nat.ltb_spec cnt 5); [|lia]. cbn [andb] in E3. apply negb_false_iff, Z.eqb_eq in E3. subst c3.
    apply elem_of_cons in H0 as [?|H0]; done.
  - eexists. split; [reflexivity|]. intros H5. destruct (Nat.ltb_spec cnt 5); [|lia]. cbn [andb] in E.
    apply orb_false_iff in E as [E _]. apply negb_false_iff, Z.eqb_eq in E.
    apply elem_of_cons in H0 as [<-|H0]; done.
Qed.

Lemma ether_loop_safe n cnt asc addr : (n + cnt = 6)%nat → 0 ∈ asc → length addr = 6%nat →
  ∃ ok addr', ether_loop n cnt asc addr = Some (ok, addr') ∧ length addr' = 6%nat.
Proof.
  revert cnt asc addr. induction n as [|n IH]; intros cnt asc addr Hn H0 Ha; cbn [ether_loop]; [by exists true, addr|].
  destruct (ether_octet_safe cnt asc H0) as (r & E & Hr). rewrite E. cbn [mbind option_bind].
  destruct r as [[number asc']|]; [|by exists false, addr]. unfold store_at. cbn [length].
  destruct (Nat.leb_spec (cnt + 1) (length addr)); [|lia]. cbn [mbind option_bind].
  set (addr' := take cnt addr ++ _).
  assert (Ha' : length addr' = 6%nat) by (unfold addr'; rewrite !length_app, length_take, length_drop; cbn [length]; lia).
  destruct n as [|n]; [by exists true, addr'|]. apply IH; [lia|apply Hr; lia|done].
Qed.

(** The text of an address. *)
Definition ether_text (up : bool) (l : list Z) : list Z :=
  bytes_of_string (match l with
                   | [a; b; c; d; e; f] => hex2 up a +:+ ":" +:+ hex2 up b +:+ ":" +:+ hex2 up c +:+ ":" +:+
                                           hex2 up d +:+ ":" +:+ hex2 up e +:+ ":" +:+ hex2 up f
                   | _ => "" end).

Lemma ether_loop_text up mac sep rest addr :
  bytes mac → length mac = 6%nat → length addr = 6%nat → ether_loop 6 0 (ether_text up mac ++ sep :: rest) addr = Some (true, mac).
Proof.
  intros Hm Hl Ha. do 7 (destruct mac as [|? mac]; try done). clear Hl. do 7 (destruct addr as [|? addr]; try done). clear Ha.
  rewrite !Forall_cons in Hm. destruct Hm as (?&?&?&?&?&?&_).
  assert (Hu : ∀ b, is_byte b → u8 b = b) by apply u8_small.
  unfold ether_text. rewrite !bytes_of_string_app, <- !app_assoc. 
  assert (Hcolon : ∀ r, bytes_of_string ":" ++ r = 58 :: r) by done. rewrite !Hcolon. clear Hcolon.
  cbn [ether_loop].
  rewrite ether_octet_hex2 by (done || lia). cbn [mbind option_bind]. unfold store_at at 1. cbn [length Nat.add Nat.leb take drop app mbind option_bind].
  do 4 (rewrite ether_octet_hex2 by (done || lia); cbn [mbind option_bind]; unfold store_at at 1;
    cbn [length Nat.add Nat.leb take drop app mbind option_bind]).
  rewrite ether_octet_hex2 by (done || lia). cbn [mbind option_bind]. unfold store_at. cbn [length Nat.add Nat.leb take drop app mbind option_bind].
  by rewrite !Hu.
Qed.

(** Reading an Ethernet address never runs past the end of the string or of the six
    octets, whatever the string; and it reads back what [eth_to_str] prints, in capital
    letters as well. *)
Theorem ether_aton_spec mac buf asc addr :
  bytes mac → length mac = 6%nat → (18 <= length buf)%nat → length addr = 6%nat → 0 ∈ asc →
  (∃ ok addr', ether_aton_r asc addr = Some (ok, addr') ∧ length addr' = 6%nat) ∧
  (∃ buf', eth_to_str mac buf = Some buf' ∧ c_string_at buf' 0 = Some (ether_text false mac) ∧
           ether_aton_r buf' addr = Some (true, mac)) ∧
  (∀ rest, ether_aton_r (ether_text true mac ++ 0 :: rest) addr = Some (true, mac)).
Proof.
  intros Hm Hl Hb Ha H0. split_and!.
  - by apply ether_loop_safe.
  - assert (E : ∃ rest, eth_to_str mac buf = Some (ether_text false mac ++ 0 :: rest)).
    { do 7 (destruct mac as [|? mac]; try done). exists (drop 18 buf). unfold eth_to_str.
      unfold store_at. rewrite length_app, length_bytes_of_string, !length_app_string. cbn [String.length hex2 length Nat.add].
      destruct (Nat.leb_spec 18 (length buf)); [|lia]. cbn [take app]. by rewrite <- app_assoc. }
    destruct E as [rest E]. eexists. split; [exact E|]. split; [|by apply ether_loop_text].
    apply c_string_app. unfold ether_text. do 7 (destruct mac as [|? mac]; try done). apply no_nul_bytes.
    rewrite !Forall_cons in Hm. destruct Hm as (?&?&?&?&?&?&_). repeat apply no_nul_app; try (by apply hex2_no_nul); split; done.
  - intros rest. by apply ether_loop_text.
Qed.

(** ** The trace time base *)

(** For two normalised times the difference is exact and normalised, also when it is
    negative. *)
Lemma timeval_sub_base_spec base t :
  0 <= base.2 < 10 ^ 6 → 0 <= t.2 < 10 ^ 6 →
  let r := timeval_sub_base base t in
  0 <= r.2 < 10 ^ 6 ∧ r.1 * 10 ^ 6 + r.2 = (t.1 * 10 ^ 6 + t.2) - (base.1 * 10 ^ 6 + base.2).
Proof.
  intros Hb Ht. unfold timeval_sub_base. destruct (Z.ltb_spec (t.2 - base.2) 0).
  - destruct (Z.leb_spec 1000000 (t.2 - base.2 + 1000000)); cbn [fst snd]; lia.
  - destruct (Z.leb_spec 1000000 (t.2 - base.2)); cbn [fst snd]; lia.
Qed.

Lemma milli_sleep_spec ms : 0 <= ms →
  let r := milli_sleep_timespec ms in 0 <= r.2 < 10 ^ 9 ∧ r.1 * 10 ^ 9 + r.2 = ms * 10 ^ 6.
Proof.
  intros H. unfold milli_sleep_timespec. cbn [fst snd]. pose proof (Z.div_mod ms 1000). pose proof (Z.mod_pos_bound ms 1000). lia.
Qed.

(** ** Sending a file *)

Section SendClaims.
Context (send : nat → list Z → Z).
(** What the documentation of [send] says of a blocking socket: it fails, or takes at least
    one and at most all of the bytes it is offered. *)
Hypothesis send_ok : ∀ n p, p ≠ [] → send n p = -1 ∨ 1 <= send n p <= Z.of_nat (length p).

Lemma s32_small z : 0 <= z < 2 ^ 31 → s32 z = z.
Proof. intros H. unfold s32, u32. rewrite Z.mod_small by lia. cbv zeta. destruct (Z.ltb_spec z (2 ^ 31)); lia. Qed.

(** [q] was sent, all of [p] unless a call failed. *)
Definition sent_prefix (p : list Z) (failed : bool) (s s' : sending) : Prop :=
  ∃ q, q `prefix_of` p ∧ sd_wire s' = sd_wire s ++ q ∧ sd_tot s' = sd_tot s + Z.of_nat (length q) ∧
       (failed = false → q = p) ∧ (failed = true → ∃ n p', p' ≠ [] ∧ send n p' < 0).

Lemma send_chunk_run fuel p s :
  p ≠ [] → (length p <= fuel)%nat → 0 <= sd_tot s → sd_tot s + Z.of_nat (length p) < 2 ^ 31 →
  ∃ failed s', send_chunk send fuel p s = Some (failed, s') ∧ sent_prefix p failed s s'.
Proof.
  revert p s. induction fuel as [|fuel IH]; intros p s Hp Hf H0 Ht; [by destruct p; cbn in *; [|lia]|].
  cbn [send_chunk]. destruct (send_ok (sd_calls s) p Hp) as [E|E].
  - rewrite E. cbn. eexists true, _. split; [reflexivity|]. exists []. cbn [sd_wire sd_tot length]. split_and!.
    + apply prefix_nil.
    + by rewrite app_nil_r.
    + lia.
    + done.
    + intros _. exists (sd_calls s), p. split; [done|lia].
  - set (sent := send (sd_calls s) p) in *. destruct (Z.ltb_spec sent 0); [lia|]. set (n := Z.to_nat sent).
    rewrite s32_small by lia. assert (Hn : (0 < n <= length p)%nat) by lia.
    assert (Hd : length (drop n p) = (length p - n)%nat) by apply length_drop.
    assert (Htk : length (take n p) = n) by (rewrite length_take; lia).
    destruct (drop n p) as [|b r] eqn:Ed.
    + eexists false, _. split; [reflexivity|]. exists p. cbn [sd_wire sd_tot length] in *. split_and!; try done; [|lia].
      f_equal. rewrite <- (take_drop n p) at 2. by rewrite Ed, app_nil_r.
    + set (s1 := Sending _ _ _). destruct (IH (b :: r) s1) as (failed & s' & E2 & q & Hq & Hw & Htot & Hff & Hft).
      * done.
      * rewrite Hd. lia.
      * cbn. lia.
      * cbn [s1 sd_tot]. rewrite Hd. lia.
      * exists failed, s'. split; [done|]. exists (take n p ++ q). split_and!; [| | | |done].
        -- rewrite <- (take_drop n p) at 2. rewrite Ed. by apply prefix_app.
        -- rewrite Hw. cbn [s1 sd_wire]. by rewrite app_assoc.
        -- rewrite Htot. cbn [s1 sd_tot]. rewrite length_app. lia.
        -- intros Hfl. rewrite (Hff Hfl), <- Ed. apply take_drop.
Qed.

Lemma send_chunks_run fuel contents s :
  (length contents + 2 <= fuel)%nat → 0 <= sd_tot s → sd_tot s + Z.of_nat (length contents) < 2 ^ 31 →
  ∃ failed s', send_chunks send fuel contents s = Some s' ∧ sent_prefix contents failed s s'.
Proof.
  revert contents s. induction fuel as [|fuel IH]; intros contents s Hf H0 Ht; [lia|]. cbn [send_chunks].
  destruct (take MAX_SIZE contents) as [|b l] eqn:Et.
  { assert (contents = []) as -> by (destruct contents; done). exists false, s. split; [done|]. exists []. rewrite app_nil_r. cbn.
    split_and!; try done. lia. }
  assert (Hlen : (length (b :: l) <= length contents)%nat) by (rewrite <- Et, length_take; lia).
  destruct (send_chunk_run fuel (b :: l) s) as (failed & s1 & E & q & Hq & Hw & Htot & Hff & Hft); [done|lia|done|lia|].
  rewrite E. cbn [mbind option_bind]. destruct failed.
  { exists true, s1. split; [done|]. exists q. split_and!; try done. trans (b :: l); [done|]. rewrite <- Et. apply prefix_take. }
  rewrite (Hff eq_refl) in *. clear Hff Hft.
  destruct (Nat.ltb_spec (length (b :: l)) MAX_SIZE) as [Hs|Hs].
  - exists false, s1. split; [done|]. assert (b :: l = contents) as Ec.
    { rewrite <- Et. apply take_ge. rewrite <- Et, length_take in Hs. lia. }
    rewrite <- Ec. exists (b :: l). by split_and!.
  - assert (Hd : (length (drop MAX_SIZE contents) + length (b :: l) = length contents)%nat).
    { rewrite <- Et, length_take, length_drop. lia. }
    assert (1 <= MAX_SIZE)%nat by (unfold MAX_SIZE; lia).
    destruct (IH (drop MAX_SIZE contents) s1) as (failed & s' & E2 & q2 & Hq2 & Hw2 & Htot2 & Hff2 & Hft2); [lia|lia|lia|].
    exists failed, s'. split; [done|]. exists ((b :: l) ++ q2). split_and!; [| | | |done].
    + rewrite <- (take_drop MAX_SIZE contents), Et. by apply prefix_app.
    + by rewrite Hw2, Hw, app_assoc.
    + rewrite Htot2, Htot, length_app. lia.
    + intros Hfl. rewrite (Hff2 Hfl), <- Et. apply take_drop.
Qed.

(** Sending a file returns, however [send] cuts the chunks of 1400 bytes: the peer gets
    a prefix of the file, the answer is its length, and it is the whole file unless a
    call of [send] failed. *)
Theorem send_file_spec contents :
  Z.of_nat (length contents) < 2 ^ 31 →
  ∃ wire, send_file send (length contents + 2) (Some contents) = Some (Z.of_nat (length wire), wire) ∧
          wire `prefix_of` contents ∧ ((∀ n p, p ≠ [] → 0 <= send n p) → wire = contents).
Proof using send_ok.
  intros Hl. destruct (send_chunks_run (length contents + 2) contents (Sending 0 [] 0)) as (failed & s' & E & q & Hq & Hw & Ht & Hf & Hft);
    [lia|done|cbn; lia|].
  exists q. unfold send_file. cbn [mbind option_bind]. rewrite E. cbn [mbind option_bind sd_wire sd_tot app] in *. rewrite Hw, Ht.
  split_and!; [do 2 f_equal; lia|done|]. intros Hnn. destruct failed; [|by apply Hf].
  destruct (Hft eq_refl) as (n & p & Hp & Hneg). specialize (Hnn n p Hp). lia.
Qed.
End SendClaims.

(** A [send] that takes nothing keeps the loop going for ever, and a file that cannot be
    opened is an access to NULL. *)
Lemma send_file_stuck send contents fuel :
  (∀ n p, send n p = 0) → contents ≠ [] → send_file send fuel (Some contents) = None ∧ send_file send fuel None = None.
Proof.
  intros H0 Hc. split; [|done]. unfold send_file. cbn [mbind option_bind].
  assert (Hs : ∀ fuel p s, p ≠ [] → send_chunk send fuel p s = None).
  { clear fuel. intros fuel. induction fuel as [|fuel IH]; intros p s Hp; [done|]. cbn [send_chunk]. rewrite H0. cbn. destruct p; [done|]. by apply IH. }
  destruct fuel as [|fuel]; [done|]. cbn [send_chunks].
  destruct (take MAX_SIZE contents) as [|b l] eqn:E; [by destruct contents|]. by rewrite Hs.
Qed.

(** ** Random numbers *)

Lemma prng_uint32_value r1 r2 s :
  0 <= r1 → 0 <= r2 → prng_uint32 (r1 :: r2 :: s) = Some ((r1 `mod` 65536) * 65536 + r2 `mod` 65536, s).
Proof.
  intros H1 H2. unfold prng_uint32, random. cbn [mbind option_bind]. change 0xffff with (2 ^ 16 - 1).
  rewrite !land_ones_mod, Z.shiftl_0_r, Z.shiftl_mul_pow2 by lia. rewrite lor_add by (try apply Z.mod_pos_bound; lia). done.
Qed.

(** ** Swapping six bytes *)

Lemma store_at_1 i b mem : (i < length mem)%nat → store_at i [b] mem = Some (<[i := b]> mem).
Proof.
  intros H. unfold store_at. cbn [length]. destruct (Nat.leb_spec (i + 1) (length mem)); [|lia].
  f_equal. rewrite insert_take_drop by done. cbn [app]. by rewrite Nat.add_1_r.
Qed.

(** Between disjoint places the copy is reversed; in place, the second half overwrites the
    first before it is read. *)
Lemma swap_6bytes_spec to from mem :
  (to + 6 <= length mem)%nat → (from + 6 <= length mem)%nat → (to + 6 <= from ∨ from + 6 <= to)%nat →
  ∃ mem', swap_6bytes to from mem = Some mem' ∧
          (∀ i, (i < 6)%nat → mem' !! (to + i)%nat = mem !! (from + (5 - i))%nat) ∧
          (∀ j, (j < to ∨ to + 6 <= j)%nat → mem' !! j = mem !! j).
Proof.
  intros H1 H2 Hd.
  assert (Hl : ∀ n i m, (n + i = 6)%nat → length m = length mem → (∀ j, (j < to ∨ to + 6 <= j)%nat → m !! j = mem !! j) →
    (∀ k, (k < i)%nat → m !! (to + k)%nat = mem !! (from + (5 - k))%nat) →
    ∃ m', swap_loop n i to from m = Some m' ∧ (∀ k, (k < 6)%nat → m' !! (to + k)%nat = mem !! (from + (5 - k))%nat) ∧
          (∀ j, (j < to ∨ to + 6 <= j)%nat → m' !! j = mem !! j)).
  { intros n. induction n as [|n IH]; intros i m Hn Hlm Ho Hi; cbn [swap_loop].
    - exists m. split_and!; [done| |done]. intros k Hk. apply Hi. lia.
    - destruct (lookup_lt_is_Some_2 m (from + (5 - i))) as [b Eb]; [lia|]. rewrite Eb. cbn [mbind option_bind].
      rewrite store_at_1 by lia. cbn [mbind option_bind]. apply IH; [lia|by rewrite length_insert| |].
      + intros j Hj. rewrite list_lookup_insert_ne by lia. by apply Ho.
      + intros k Hk. destruct (decide (k = i)) as [->|].
        * rewrite list_lookup_insert_eq by lia. rewrite <- Eb. apply Ho. lia.
        * rewrite list_lookup_insert_ne by lia. apply Hi. lia. }
  destruct (Hl 6%nat 0%nat mem) as (m' & E & Hm); [done|done|done|lia|]. exists m'. by split.
Qed.

Example swap_6bytes_in_place : swap_6bytes 0 0 [1; 2; 3; 4; 5; 6] = Some [6; 5; 4; 4; 5; 6].
Proof. reflexivity. Qed.

(** ** Witnesses *)

Lemma in_cksum_correct_witness :
  ∃ c, in_cksum [1; 2; 255; 255] 0 = Some c ∧ in_cksum ([1; 2; 255; 255] ++ [c `mod` 256; c / 256]) 0 = Some 0.
Proof.
  destruct (in_cksum_correct [1; 2; 255; 255] 0) as (c & E & _ & _ & H).
  - repeat constructor; vm_compute; done.
  - split; vm_compute; done.
  - vm_compute. discriminate.
  - exists c. split; [exact E|]. apply H; [reflexivity|]. vm_compute. discriminate.
Defined.

Lemma buf2str_str2buf_witness :
  buf2str [160; 7] (replicate 4 255) 2 = None ∧
  ∃ str', buf2str [160; 7] (replicate 5 255) 2 = Some str' ∧ str2buf str' [0; 0] 2 = Some [49; 7].
Proof.
  assert (Hb : bytes [160; 7]) by (repeat constructor; vm_compute; done). split.
  - apply (buf2str_str2buf [160; 7] (replicate 4 255) [0; 0]); [exact Hb|discriminate|reflexivity|cbn; lia].
  - destruct (buf2str_str2buf [160; 7] (replicate 5 255) [0; 0]) as [_ H]; [exact Hb|discriminate|reflexivity|].
    destruct H as (str' & E & _ & _ & _ & out & E2 & Eo & _); [cbn; lia|]. exists str'. split; [exact E|].
    rewrite Eo in E2. exact E2.
Defined.

Definition ex_addrs : list (Z * Z * Z * Z) := [(10, 0, 0, 1); (192, 168, 100, 200); (8, 8, 8, 8); (127, 0, 0, 1)].

Lemma ip_to_str_ring_witness :
  ∃ qs ps s', ip_calls ([(1, 2, 3, 4); (255, 255, 255, 255)] ++ ex_addrs) ip_init = Some (qs ++ ps, s') ∧
    Forall2 (fun a p => c_string_at (ip_buf s') p = Some (bytes_of_string (inet_ntoa a))) ex_addrs ps.
Proof.
  destruct (ip_to_str_ring [(1, 2, 3, 4); (255, 255, 255, 255)] ex_addrs ip_init) as (qs & ps & s' & E & _ & _ & H & _).
  - repeat constructor; vm_compute; done.
  - repeat constructor; vm_compute; done.
  - cbn. lia.
  - split; [reflexivity|]. cbn. constructor.
  - exists qs, ps, s'. split; [exact E|exact H].
Defined.

Lemma ether_aton_spec_witness :
  ∃ buf', eth_to_str [0; 27; 119; 255; 160; 9] (replicate 30 0) = Some buf' ∧
          ether_aton_r buf' (replicate 6 0) = Some (true, [0; 27; 119; 255; 160; 9]).
Proof.
  destruct (ether_aton_spec [0; 27; 119; 255; 160; 9] (replicate 30 0) [0] (replicate 6 0)) as (_ & (buf' & E & _ & R) & _).
  - repeat constructor; vm_compute; done.
  - reflexivity.
  - cbn. lia.
  - reflexivity.
  - constructor.
  - exists buf'. split; [exact E|exact R].
Defined.

(** A peer that takes at most 1000 bytes a call. *)
Definition ex_send (n : nat) (p : list Z) : Z := Z.min 1000 (Z.of_nat (length p)).

Lemma send_file_spec_witness : ∃ wire, send_file ex_send 3002 (Some (replicate 3000 7)) = Some (Z.of_nat (length wire), wire) ∧ wire = replicate 3000 7.
Proof.
  destruct (send_file_spec ex_send) with (contents := replicate 3000 7) as (wire & E & _ & H).
  - intros n p Hp. right. unfold ex_send. destruct p; [done|]. cbn [length]. lia.
  - rewrite length_replicate. lia.
  - rewrite length_replicate in E. exists wire. split; [exact E|]. apply H. intros n p Hp. unfold ex_send. lia.
Defined.
