(* ===== verification/Platform.v ===== *)
(** * Platform: paths and the portable [strtok_r], [libhaggle/platform.c].

    The Linux and Android versions of the path functions, on the static arrays they
    answer pointers into; and the [strtok_r] of the Windows build, on memory, which is
    shown to compute the function [Attribute.strtok] that stands for the C library's one
    in the attribute parser.  What the operating system answers (user names, whether a
    directory exists) is a parameter. *)

From S2P Require Import Prelude Text CList Attribute Utils.

(** ** [strtok_r] *)

(** The delimiters are the bytes of the C string [delim].  Pointers are offsets into one
    memory. *)
Fixpoint is_delim (c : Z) (spanp : list Z) : bool :=
  match spanp with [] => false | sc :: spanp => if c =? sc then true else is_delim c spanp end.

(** From the label [cont]: the first byte that is no delimiter, and the position after it. *)
Fixpoint cont (fuel : nat) (delim : list Z) (mem : list Z) (s : nat) : option (Z * nat) :=
  match fuel with
  | O => None
  | S fuel =>
    c ← mem !! s;
    if is_delim c delim then cont fuel delim mem (S s) else Some (c, S s)
  end.

(** The scan for the end of the token: the new memory and [s]. *)
Fixpoint scan_token (fuel : nat) (delim : list Z) (mem : list Z) (s : nat) : option (list Z * option nat) :=
  match fuel with
  | O => None
  | S fuel =>
    c ← mem !! s;
    if is_delim c delim then mem ← store_at s [0] mem; Some (mem, Some (S s))
    else if c =? 0 then Some (mem, None)
    else scan_token fuel delim mem (S s)
  end.

(** The token, [*last] and the memory afterwards. *)
Definition strtok_r (fuel : nat) (s : option nat) (delim : list Z) (last : option nat) (mem : list Z)
  : option (option nat * option nat * list Z) :=
  match (match s with Some s => Some s | None => last end) with
  | None => Some (None, last, mem)
  | Some s =>
    '(c, s) ← cont fuel delim mem s;
    if c =? 0 then Some (None, None, mem)
    else
      let tok := (s - 1)%nat in
      '(mem, s) ← scan_token fuel delim mem s;
      Some (Some tok, s, mem)
  end.

(** ** Paths on Linux *)

Definition MAX_PATH_DEFAULT_LEN : Z := 256.
Definition MAX_PATH_LEN : Z := MAX_PATH_DEFAULT_LEN.
Definition DEFAULT_STORAGE_PATH_PREFIX : string := "/home/".
Definition DEFAULT_STORAGE_PATH_POSTFIX : string := "/.Haggle".

Inductive path_type_t :=
  | PLATFORM_PATH_HAGGLE_EXE | PLATFORM_PATH_HAGGLE_PRIVATE | PLATFORM_PATH_HAGGLE_DATA
  | PLATFORM_PATH_HAGGLE_TEMP | PLATFORM_PATH_APP_DATA.

(** A write of the string [s] and its NUL into a path array at [len]. *)
Definition put_string (len : Z) (s : string) (path : list Z) : option (list Z) :=
  store_at (Z.to_nat len) (bytes_of_string s ++ [0]) path.

(** The string at the start of a path array. *)
Definition path_strlen (path : list Z) : option Z := l ← c_string path; Some (Z.of_nat (length l)).

Section Linux.
(** [getpwuid (getuid ())] and its name; [getlogin ()]. *)
Context (pw_name : option string) (getlogin : option string).

Definition login : option string := match pw_name with Some n => Some n | None => getlogin end.

(** [if (append) ...]: the length test and the [strcpy]. *)
Definition append_path (append : option string) (path : list Z) : option (bool * list Z) :=
  match append with
  | None => Some (true, path)
  | Some a =>
    len ← path_strlen path;
    if len + strlen a >? MAX_PATH_LEN then Some (false, path)
    else path ← put_string len a path; Some (true, path)
  end.

(** Whether the answer is [path] (or NULL), and the array. *)
Definition libhaggle_platform_get_path (type : path_type_t) (append : option string) (path : list Z) : option (bool * list Z) :=
  path ← store_at 0 [0] path;
  match type with
  | PLATFORM_PATH_HAGGLE_EXE => path ← put_string 0 "/usr/bin" path; append_path append path
  | PLATFORM_PATH_HAGGLE_PRIVATE | PLATFORM_PATH_HAGGLE_DATA =>
    match login with
    | None => Some (false, path)
    | Some login =>
      if strlen DEFAULT_STORAGE_PATH_PREFIX + strlen login + strlen DEFAULT_STORAGE_PATH_POSTFIX >? MAX_PATH_LEN
      then Some (false, path)
      else path ← put_string 0 (snprintf (Z.to_nat MAX_PATH_LEN) (DEFAULT_STORAGE_PATH_PREFIX +:+ login +:+ DEFAULT_STORAGE_PATH_POSTFIX)) path;
           append_path append path
    end
  | PLATFORM_PATH_HAGGLE_TEMP => path ← put_string 0 "/tmp" path; append_path append path
  | PLATFORM_PATH_APP_DATA => Some (false, path)
  end.
End Linux.

(** ** Paths on Android *)

Module Android.
(** The static variables: [path], [path_app_data], [path_app_data_valid]. *)
Record statics := Statics { st_path : list Z; st_app_data : list Z; st_valid : bool }.

Definition libhaggle_platform_set_path_android (type : path_type_t) (path : option string) (st : statics) : option (Z * statics) :=
  match path with
  | None => Some (-1, st)
  | Some p =>
    if strlen p =? 0 then Some (-1, st) else
    match type with
    | PLATFORM_PATH_APP_DATA =>
      if strlen p >? MAX_PATH_LEN then Some (-1, st)
      else a ← put_string 0 p (st_app_data st); Some (1, Statics (st_path st) a true)
    | _ => Some (0, st)
    end
  end.

Section Get.
(** [stat ("/sdcard/haggle")] finds a directory. *)
Context (sdcard : bool).

(** The answer is NULL, [path] or [path_app_data]. *)
Inductive which := Null | Path | AppData.

Definition on_path (s : string) (append : option string) (st : statics) : option (which * statics) :=
  p ← put_string 0 s (st_path st);
  '(ok, p) ← append_path append p;
  Some (if (ok : bool) then Path else Null, Statics p (st_app_data st) (st_valid st)).

Definition libhaggle_platform_get_path_android (type : path_type_t) (append : option string) (st : statics) : option (which * statics) :=
  match type with
  | PLATFORM_PATH_HAGGLE_EXE => on_path "/system/bin" append st
  | PLATFORM_PATH_HAGGLE_PRIVATE => on_path "/data/data/org.haggle.kernel/files" append st
  | PLATFORM_PATH_HAGGLE_DATA => on_path (if sdcard then "/sdcard/haggle" else "/data/data/org.haggle.kernel/files") append st
  | PLATFORM_PATH_HAGGLE_TEMP => on_path "/data/local/tmp" append st
  | PLATFORM_PATH_APP_DATA =>
    if st_valid st then
      '(ok, a) ← append_path append (st_app_data st);
      Some (if (ok : bool) then AppData else Null, Statics (st_path st) a (st_valid st))
    else Some (Null, st)
  end.
End Get.
End Android.

(** ** [strtok_r] computes [strtok] *)

Section Strtok.
Context (d : ascii).
Let dz := byte_of_ascii d.
Hypothesis Hd : dz ≠ 0.

Lemma is_delim_0 : is_delim 0 [dz] = false.
Proof using Hd. unfold is_delim. destruct (Z.eqb_spec 0 dz) as [E|E]; [by destruct (Hd (eq_sym E))|done]. Qed.

Lemma is_delim_iff a : is_delim (byte_of_ascii a) [dz] = bool_decide (a = d).
Proof.
  unfold is_delim, dz. destruct (Z.eqb_spec (byte_of_ascii a) (byte_of_ascii d)) as [E|E]; symmetry.
  - apply bool_decide_eq_true. by apply byte_of_ascii_inj.
  - apply bool_decide_eq_false. by intros ->.
Qed.

Lemma skip_delim_split s : ∃ n, bytes_of_string s = replicate n dz ++ bytes_of_string (skip_delim d s) ∧ (n + String.length (skip_delim d s) = String.length s)%nat.
Proof.
  induction s as [|a s (n & E & El)]; [by exists 0%nat|]. cbn [skip_delim]. destruct (bool_decide (a = d)) eqn:Ea.
  - apply bool_decide_eq_true in Ea as ->. exists (S n). cbn [bytes_of_string replicate app String.length]. split; [by rewrite E|lia].
  - by exists 0%nat.
Qed.

Lemma skip_delim_head s a s' : skip_delim d s = String a s' → a ≠ d.
Proof.
  induction s as [|b s IH]; cbn [skip_delim]; [done|]. destruct (bool_decide (b = d)) eqn:E; [done|]. intros [= -> ->].
  by apply bool_decide_eq_false in E.
Qed.

(** The token holds no delimiter, and what follows it is the delimiter and the rest, or the
    end of the string. *)
Lemma until_delim_split s :
  let '(t, r) := until_delim d s in
  (bytes_of_string s = bytes_of_string t ++ dz :: bytes_of_string r) ∨ (s = t ∧ r = "").
Proof.
  induction s as [|a s IH]; cbn [until_delim]; [by right|]. destruct (bool_decide (a = d)) eqn:Ea.
  - left. apply bool_decide_eq_true in Ea as ->. done.
  - destruct (until_delim d s) as [t r]. destruct IH as [IH | [-> ->]]; [left|by right]. cbn [bytes_of_string app]. by rewrite IH.
Qed.

Lemma skip_no_nul s : no_nul s → no_nul (skip_delim d s).
Proof.
  induction s as [|a s IH]; [done|]. intros [Ha Hs]. cbn [skip_delim]. destruct (bool_decide (a = d)); [by apply IH|done].
Qed.

Lemma cont_run fuel pre s post :
  no_nul s → (String.length s < fuel)%nat →
  cont fuel [dz] (pre ++ bytes_of_string s ++ 0 :: post) (length pre) =
  let n := (String.length s - String.length (skip_delim d s))%nat in
  Some (match skip_delim d s with String a _ => byte_of_ascii a | EmptyString => 0 end, S (length pre + n)).
Proof using Hd.
  intros Hs. revert pre fuel. induction s as [|a s IH]; intros pre fuel Hf; (destruct fuel as [|fuel]; [cbn in Hf; lia|]); cbn [cont].
  - rewrite lookup_app_r, Nat.sub_diag by lia. cbn [bytes_of_string app lookup list_lookup mbind option_bind].
    rewrite is_delim_0. cbn. by rewrite Nat.add_0_r.
  - rewrite lookup_app_r, Nat.sub_diag by lia. cbn [bytes_of_string app lookup list_lookup mbind option_bind].
    rewrite is_delim_iff. cbn [skip_delim]. destruct Hs as [Ha Hs]. destruct (bool_decide (a = d)) eqn:E.
    + replace (pre ++ byte_of_ascii a :: bytes_of_string s ++ 0 :: post) with ((pre ++ [byte_of_ascii a]) ++ bytes_of_string s ++ 0 :: post)
        by (by rewrite <- app_assoc).
      replace (S (length pre)) with (length (pre ++ [byte_of_ascii a])) by (rewrite length_app; cbn; lia).
      cbn [String.length] in Hf. rewrite IH by (done || lia). cbv zeta. f_equal. f_equal. rewrite length_app. cbn [length String.length].
      destruct (skip_delim_split s) as (n & _ & El). lia.
    + cbn [String.length]. rewrite Nat.sub_diag. by rewrite Nat.add_0_r.
Qed.

Lemma scan_token_run fuel pre s post :
  no_nul s → (String.length s < fuel)%nat →
  let '(t, r) := until_delim d s in
  ∃ last, scan_token fuel [dz] (pre ++ bytes_of_string s ++ 0 :: post) (length pre) =
    Some (match last with
          | Some _ => pre ++ bytes_of_string t ++ 0 :: bytes_of_string r ++ 0 :: post
          | None => pre ++ bytes_of_string t ++ 0 :: post end, last) ∧
    match last with Some l => l = (length pre + String.length t + 1)%nat ∧ bytes_of_string s = bytes_of_string t ++ dz :: bytes_of_string r
                  | None => s = t ∧ r = "" end.
Proof using Hd.
  revert pre fuel. induction s as [|a s IH]; intros pre fuel Hs Hf; (destruct fuel as [|fuel]; [cbn in Hf; lia|]); cbn [scan_token until_delim].
  - exists None. rewrite lookup_app_r, Nat.sub_diag by lia. cbn [bytes_of_string app lookup list_lookup mbind option_bind].
    by rewrite is_delim_0.
  - rewrite lookup_app_r, Nat.sub_diag by lia. cbn [bytes_of_string app lookup list_lookup mbind option_bind].
    rewrite is_delim_iff. destruct Hs as [Ha Hs]. destruct (bool_decide (a = d)) eqn:E.
    + apply bool_decide_eq_true in E as ->. exists (Some (S (length pre))).
      pose proof (store_at_app pre [byte_of_ascii d] (bytes_of_string s ++ 0 :: post) [0] (length pre) eq_refl eq_refl) as Ew.
      cbn [app] in Ew. rewrite Ew.
      cbn [mbind option_bind bytes_of_string app]. split; [done|]. cbn [String.length]. split; [lia|done].
    + destruct (Z.eqb_spec (byte_of_ascii a) 0); [done|].
      replace (pre ++ byte_of_ascii a :: bytes_of_string s ++ 0 :: post) with ((pre ++ [byte_of_ascii a]) ++ bytes_of_string s ++ 0 :: post)
        by (by rewrite <- app_assoc).
      replace (S (length pre)) with (length (pre ++ [byte_of_ascii a])) by (rewrite length_app; cbn; lia).
      cbn [String.length] in Hf. specialize (IH (pre ++ [byte_of_ascii a]) fuel Hs ltac:(lia)).
      destruct (until_delim d s) as [t r]. destruct IH as (last & E2 & Hl). exists last. rewrite E2. clear E2. split.
      * destruct last; cbn [bytes_of_string app]; by rewrite <- app_assoc.
      * destruct last as [l|].
        -- destruct Hl as [-> El]. rewrite length_app. cbn [length String.length bytes_of_string app]. split; [lia|by rewrite El].
        -- destruct Hl as [-> ->]. done.
Qed.

(** One call at the string [s], which lies between [pre] and its terminator: no token, or
    the token, and the memory where the next call continues, behind the token. *)
Definition call_result (pre : list Z) (s : string) (post : list Z) (r : option (option nat * option nat * list Z)) : Prop :=
  match strtok d s with
  | None => r = Some (None, None, pre ++ bytes_of_string s ++ 0 :: post)
  | Some (token, save_ptr) =>
    ∃ tok last mem, r = Some (Some tok, last, mem) ∧ take (length pre) mem = pre ∧ c_string_at mem tok = Some (bytes_of_string token) ∧
      match last with
      | Some l => (tok + String.length token < l)%nat ∧ ∃ pre', mem = pre' ++ bytes_of_string save_ptr ++ 0 :: post ∧ length pre' = l
      | None => save_ptr = "" ∧ drop (length pre + String.length s) mem = 0 :: post
      end
  end.

Lemma until_no_nul s : no_nul s → no_nul (until_delim d s).1 ∧ no_nul (until_delim d s).2.
Proof.
  induction s as [|a s IH]; [done|]. intros [Ha Hs]. cbn [until_delim]. destruct (bool_decide (a = d)); [done|].
  destruct (IH Hs) as [H1 H2]. destruct (until_delim d s) as [t r]. cbn in *. done.
Qed.

Lemma strtok_r_run fuel pre s post :
  no_nul s → (String.length s < fuel)%nat →
  call_result pre s post
    ('(c, p) ← cont fuel [dz] (pre ++ bytes_of_string s ++ 0 :: post) (length pre);
     if c =? 0 then Some (None, None, pre ++ bytes_of_string s ++ 0 :: post)
     else '(mem, l) ← scan_token fuel [dz] (pre ++ bytes_of_string s ++ 0 :: post) p; Some (Some (p - 1)%nat, l, mem)).
Proof using Hd.
  intros Hs Hf. rewrite cont_run by done. cbv zeta. cbn [mbind option_bind].
  destruct (skip_delim_split s) as (n & Es & El). unfold call_result, strtok. pose proof (skip_no_nul s Hs) as Hns.
  destruct (skip_delim d s) as [|a s'] eqn:Ek; [done|]. pose proof (skip_delim_head s a s' Ek) as Had. destruct Hns as [Ha Hs'].
  destruct (Z.eqb_spec (byte_of_ascii a) 0); [done|]. cbn [until_delim]. rewrite bool_decide_eq_false_2 by done.
  set (pre1 := pre ++ replicate n dz ++ [byte_of_ascii a]).
  assert (Em : pre ++ bytes_of_string s ++ 0 :: post = pre1 ++ bytes_of_string s' ++ 0 :: post).
  { rewrite Es. unfold pre1. cbn [bytes_of_string]. by rewrite <- !app_assoc. }
  cbn [String.length] in El.
  assert (Ep : S (length pre + (String.length s - String.length (String a s'))) = length pre1).
  { unfold pre1. rewrite !length_app, length_replicate. cbn [length String.length]. lia. }
  rewrite Em, Ep. pose proof (scan_token_run fuel pre1 s' post Hs' ltac:(lia)) as Hscan.
  destruct (until_no_nul s' Hs') as [Ht Hr]. destruct (until_delim d s') as [t r]. destruct Hscan as (last & E & Hl). cbn [fst snd] in *.
  rewrite E. cbn [mbind option_bind]. eexists _, _, _. split; [reflexivity|].
  assert (Hpre : ∀ x, take (length pre) (pre1 ++ x) = pre) by (intros x; unfold pre1; by rewrite <- app_assoc, take_app_length).
  assert (Htok : ∀ x, c_string_at (pre1 ++ bytes_of_string t ++ 0 :: x) (length pre1 - 1) = Some (bytes_of_string (String a t))).
  { intros x. unfold c_string_at, pre1. replace (length (pre ++ replicate n dz ++ [byte_of_ascii a]) - 1)%nat with (length (pre ++ replicate n dz))
      by (rewrite !length_app; cbn; lia).
    rewrite (app_assoc pre), <- (app_assoc _ [_]), drop_app_length. cbn [app].
    change (byte_of_ascii a :: bytes_of_string t ++ 0 :: x) with (bytes_of_string (String a t) ++ 0 :: x).
    apply c_string_app. apply no_nul_bytes. by split. }
  destruct last as [l|].
  - destruct Hl as [-> Er]. split; [apply Hpre|]. split; [apply Htok|]. split; [cbn [String.length]; lia|].
    exists (pre1 ++ bytes_of_string t ++ [0]). split; [by rewrite <- !app_assoc|]. rewrite !length_app, length_bytes_of_string. cbn. lia.
  - destruct Hl as [-> ->]. split; [apply Hpre|]. split; [apply Htok|]. split; [done|].
    replace (length pre + String.length s)%nat with (length (pre1 ++ bytes_of_string t)).
    + by rewrite app_assoc, drop_app_length.
    + rewrite length_app, <- Ep, length_bytes_of_string. cbn [String.length]. lia.
Qed.
End Strtok.

(** The [strtok_r] of the Windows build does on memory what the attribute parser takes
    it to do on strings, first call or continued: it answers NULL exactly when only
    delimiters are left, and otherwise a pointer to the next token; the string before is
    untouched, the rest of the string stands, unchanged, where the next call continues,
    and the end of the string is remembered as NULL, for which it answers NULL again. *)
Theorem strtok_r_refines d pre s post last fuel :
  byte_of_ascii d ≠ 0 → no_nul s → (String.length s < fuel)%nat →
  let mem := pre ++ bytes_of_string s ++ 0 :: post in
  call_result d pre s post (strtok_r fuel (Some (length pre)) [byte_of_ascii d] last mem) ∧
  call_result d pre s post (strtok_r fuel None [byte_of_ascii d] (Some (length pre)) mem) ∧
  strtok_r fuel None [byte_of_ascii d] None mem = Some (None, None, mem) ∧ strtok d "" = None.
Proof. intros Hd Hs Hf mem. split_and!; [by apply strtok_r_run..|done|done]. Qed.

(** ** Paths *)

Lemma put_string_run len s path :
  (len + String.length s < length path)%nat →
  ∃ post, put_string (Z.of_nat len) s path = Some (take len path ++ bytes_of_string s ++ 0 :: post).
Proof.
  intros H. unfold put_string, store_at. rewrite Nat2Z.id, length_app, length_bytes_of_string. cbn [length].
  destruct (Nat.leb_spec (len + (String.length s + 1)) (length path)); [|lia]. eexists. by rewrite <- app_assoc.
Qed.

Lemma put_string_length len s path path' : put_string len s path = Some path' → length path' = length path.
Proof.
  unfold put_string, store_at. destruct (Nat.leb_spec (Z.to_nat len + length (bytes_of_string s ++ [0])) (length path)); [|done].
  intros [= <-]. rewrite !length_app, length_take, length_drop. rewrite length_app in *. cbn [length] in *. lia.
Qed.

(** An array that holds the string [s]. *)
Definition path_holds (path : list Z) (s : string) : Prop :=
  Z.of_nat (length path) = MAX_PATH_LEN + 1 ∧ ∃ post, path = bytes_of_string s ++ 0 :: post.

Lemma put_at_start s path : Z.of_nat (length path) = MAX_PATH_LEN + 1 → strlen s <= MAX_PATH_LEN →
  ∃ path', put_string 0 s path = Some path' ∧ path_holds path' s.
Proof.
  unfold strlen. intros Hl Hs. destruct (put_string_run 0 s path) as [post E]; [lia|]. rewrite take_0 in E. change ([] ++ ?x) with x in E.  exists (bytes_of_string s ++ 0 :: post).
  split; [exact E|]. split; [by rewrite (put_string_length _ _ _ _ E)|by exists post].
Qed.

(** Appending to an array that holds [s]. *)
Lemma append_run s append path :
  no_nul s → path_holds path s →
  ∃ ok path', append_path append path = Some (ok, path') ∧
    match append with
    | None => ok = true ∧ path' = path
    | Some a => if strlen s + strlen a <=? MAX_PATH_LEN then ok = true ∧ path_holds path' (s +:+ a) else ok = false ∧ path' = path
    end.
Proof.
  intros Hn [Hl [post ->]]. destruct append as [a|]; [|by eexists _, _]. unfold append_path, path_strlen.
  rewrite c_string_app by (by apply no_nul_bytes). cbn [mbind option_bind]. rewrite length_bytes_of_string. fold (strlen s).
  destruct (Z.leb_spec (strlen s + strlen a) MAX_PATH_LEN) as [H|H]; destruct (Z.gtb_spec (strlen s + strlen a) MAX_PATH_LEN); try lia;
    [|by eexists _, _].
  unfold strlen in *. rewrite length_app, length_bytes_of_string in Hl. cbn [length] in Hl.
  destruct (put_string_run (String.length s) a (bytes_of_string s ++ 0 :: post)) as [post' E].
  { rewrite length_app, length_bytes_of_string. cbn [length]. lia. }
  rewrite E. cbn [mbind option_bind]. eexists _, _. split; [reflexivity|]. split; [done|]. split.
  - rewrite (put_string_length _ _ _ _ E), length_app, length_bytes_of_string. cbn [length]. lia.
  - exists post'. rewrite take_app_length' by (by rewrite length_bytes_of_string). by rewrite bytes_of_string_app, <- app_assoc.
Qed.

Lemma strlen_nonneg s : 0 <= strlen s.
Proof. unfold strlen. lia. Qed.
Lemma strlen_app s t : strlen (s +:+ t) = strlen s + strlen t.
Proof. unfold strlen. rewrite length_app_string. lia. Qed.
Lemma strlen_path l : strlen (DEFAULT_STORAGE_PATH_PREFIX +:+ l +:+ DEFAULT_STORAGE_PATH_POSTFIX) =
  strlen DEFAULT_STORAGE_PATH_PREFIX + strlen l + strlen DEFAULT_STORAGE_PATH_POSTFIX.
Proof. rewrite !strlen_app. lia. Qed.

Lemma print_path l : strlen DEFAULT_STORAGE_PATH_PREFIX + strlen l + strlen DEFAULT_STORAGE_PATH_POSTFIX < MAX_PATH_LEN →
  snprintf (Z.to_nat MAX_PATH_LEN) (DEFAULT_STORAGE_PATH_PREFIX +:+ l +:+ DEFAULT_STORAGE_PATH_POSTFIX) =
  DEFAULT_STORAGE_PATH_PREFIX +:+ l +:+ DEFAULT_STORAGE_PATH_POSTFIX.
Proof. rewrite <- strlen_path. unfold strlen. intros H. apply snprintf_id. unfold MAX_PATH_LEN, MAX_PATH_DEFAULT_LEN in *. lia. Qed.

Lemma path_holds_string path s : no_nul s → path_holds path s → c_string path = Some (bytes_of_string s).
Proof. intros Hs [_ [post ->]]. apply c_string_app. by apply no_nul_bytes. Qed.

(** The directory [b] and the suffix. *)
Lemma path_main b append p :
  Z.of_nat (length p) = MAX_PATH_LEN + 1 → no_nul b → strlen b <= MAX_PATH_LEN → no_nul (default "" append) →
  ∃ ok path', (path ← put_string 0 b p; append_path append path) = Some (ok, path') ∧ Z.of_nat (length path') = MAX_PATH_LEN + 1 ∧
    (if strlen b + strlen (default "" append) <=? MAX_PATH_LEN
     then ok = true ∧ c_string path' = Some (bytes_of_string (b +:+ default "" append)) else ok = false).
Proof.
  intros Hp Hn Hlen Hna. destruct (put_at_start b p Hp Hlen) as (p' & -> & Hh). cbn [mbind option_bind].
  destruct (append_run b append p' Hn Hh) as (ok & p'' & E & Ha). exists ok, p''. split; [done|].
  destruct append as [a|]; cbn [default from_option id] in *.
  - destruct (Z.leb_spec (strlen b + strlen a) MAX_PATH_LEN); destruct Ha as [-> Ha].
    + split; [apply Ha|]. split; [done|]. apply path_holds_string; [by apply no_nul_app|done].
    + subst. split; [apply Hh|done].
  - destruct Ha as [-> ->]. split; [apply Hh|]. change (strlen "") with 0. destruct (Z.leb_spec (strlen b + 0) MAX_PATH_LEN); [|lia].
    split; [done|]. rewrite app_empty_r. by apply path_holds_string.
Qed.

(** The directory of each type. *)
Definition base_path (login : option string) (type : path_type_t) : option string :=
  match type with
  | PLATFORM_PATH_HAGGLE_EXE => Some "/usr/bin"
  | PLATFORM_PATH_HAGGLE_PRIVATE | PLATFORM_PATH_HAGGLE_DATA => l ← login; Some (DEFAULT_STORAGE_PATH_PREFIX +:+ l +:+ DEFAULT_STORAGE_PATH_POSTFIX)
  | PLATFORM_PATH_HAGGLE_TEMP => Some "/tmp"
  | PLATFORM_PATH_APP_DATA => None
  end.

Lemma no_nul_base pw_name getlogin type b :
  (∀ l, login pw_name getlogin = Some l → no_nul l) → base_path (login pw_name getlogin) type = Some b → no_nul b.
Proof.
  intros Hn. destruct type; cbn; try (intros [= <-]; cbn; by repeat split).
  all: destruct (login _ _) as [l|]; [|done]; intros [= <-]; repeat apply no_nul_app; try (by apply Hn); cbn; by repeat split.
Qed.

(** On Linux a path is answered, without leaving the array, exactly when its directory
    is known and directory and suffix together have at most 256 characters; it is then the
    directory followed by the suffix.  (A storage directory of exactly 256 characters is
    the exception: the print is one character short.) *)
Theorem libhaggle_platform_get_path_spec pw_name getlogin type append path :
  Z.of_nat (length path) = MAX_PATH_LEN + 1 → (∀ l, login pw_name getlogin = Some l → no_nul l) → no_nul (default "" append) →
  (∀ b, base_path (login pw_name getlogin) type = Some b → strlen b ≠ MAX_PATH_LEN) →
  ∃ ok path', libhaggle_platform_get_path pw_name getlogin type append path = Some (ok, path') ∧
    Z.of_nat (length path') = MAX_PATH_LEN + 1 ∧
    match base_path (login pw_name getlogin) type with
    | None => ok = false
    | Some b => if strlen b + strlen (default "" append) <=? MAX_PATH_LEN
                then ok = true ∧ c_string path' = Some (bytes_of_string (b +:+ default "" append)) else ok = false
    end.
Proof.
  intros Hl Hlog Hna Hb. pose proof (no_nul_base pw_name getlogin type) as Hnb. unfold libhaggle_platform_get_path.
  assert (Ew : ∃ p, store_at 0 [0] path = Some p ∧ length p = length path).
  { unfold MAX_PATH_LEN, MAX_PATH_DEFAULT_LEN in Hl. unfold store_at. cbn [length Nat.add]. destruct (Nat.leb_spec 1 (length path)); [|lia]. eexists. split; [reflexivity|].
    rewrite !length_app, length_take, length_drop. cbn. lia. }
  destruct Ew as (p & -> & Hp). cbn [mbind option_bind]. rewrite <- Hp in Hl.
  assert (Hl0 := strlen_nonneg (default "" append)).
  destruct type; cbn [base_path] in *; try (by eexists _, _); try (apply path_main; [done|cbn; by repeat split|done|done]).
  all: destruct (login pw_name getlogin) as [l|]; [|by eexists _, _]; cbn [mbind option_bind] in *.
  all: specialize (Hnb _ Hlog eq_refl); specialize (Hb _ eq_refl); rewrite strlen_path in *;
    destruct (Z.gtb_spec (strlen DEFAULT_STORAGE_PATH_PREFIX + strlen l + strlen DEFAULT_STORAGE_PATH_POSTFIX) MAX_PATH_LEN) as [Hg|Hg];
    [eexists _, _; split; [reflexivity|]; split; [done|]; by rewrite (proj2 (Z.leb_gt _ _)) by lia|].
  all: rewrite print_path by lia; rewrite <- strlen_path; apply path_main; [done|done| |done]; rewrite strlen_path; lia.
Qed.

(** The Android version answers a pointer to the application directory itself when it
    appends to it: the suffix stays, and the next call appends behind it. *)
Lemma android_path_grows sdcard p a st :
  Z.of_nat (length (Android.st_app_data st)) = MAX_PATH_LEN + 1 → no_nul p → no_nul a → p ≠ "" →
  strlen p + strlen a + strlen a <= MAX_PATH_LEN →
  ∃ st1 st2 st3, Android.libhaggle_platform_set_path_android PLATFORM_PATH_APP_DATA (Some p) st = Some (1, st1) ∧
    c_string (Android.st_app_data st1) = Some (bytes_of_string p) ∧
    Android.libhaggle_platform_get_path_android sdcard PLATFORM_PATH_APP_DATA (Some a) st1 = Some (Android.AppData, st2) ∧
    c_string (Android.st_app_data st2) = Some (bytes_of_string (p +:+ a)) ∧
    Android.libhaggle_platform_get_path_android sdcard PLATFORM_PATH_APP_DATA (Some a) st2 = Some (Android.AppData, st3) ∧
    c_string (Android.st_app_data st3) = Some (bytes_of_string ((p +:+ a) +:+ a)).
Proof.
  intros Hl Hp Ha Hne Hlen. pose proof (strlen_nonneg a). unfold Android.libhaggle_platform_set_path_android.
  assert (H0 : 0 < strlen p) by (destruct p; [done|]; unfold strlen; cbn [String.length]; lia).
  destruct (Z.eqb_spec (strlen p) 0); [lia|]. destruct (Z.gtb_spec (strlen p) MAX_PATH_LEN); [lia|].
  destruct (put_at_start p _ Hl) as (b1 & -> & Hh1); [lia|]. cbn [mbind option_bind].
  destruct (append_run p (Some a) b1 Hp Hh1) as (ok & b2 & E2 & Hh2). rewrite (proj2 (Z.leb_le _ _)) in Hh2 by lia. destruct Hh2 as [-> Hh2].
  assert (Hpa : no_nul (p +:+ a)) by (by apply no_nul_app).
  destruct (append_run (p +:+ a) (Some a) b2 Hpa Hh2) as (ok & b3 & E3 & Hh3).
  rewrite (proj2 (Z.leb_le _ _)) in Hh3 by (rewrite strlen_app; lia). destruct Hh3 as [-> Hh3].
  eexists _, _, _. split; [reflexivity|]. cbn [Android.st_app_data Android.st_path Android.st_valid Android.libhaggle_platform_get_path_android].
  rewrite E2. cbn [mbind option_bind Android.st_app_data Android.st_path Android.st_valid]. split; [by apply path_holds_string|].
  split; [reflexivity|]. cbn [Android.st_app_data Android.st_path Android.st_valid]. split; [by apply path_holds_string|].
  rewrite E3. cbn [mbind option_bind]. split; [reflexivity|]. apply path_holds_string; [by apply no_nul_app|done].
Qed.

(** ** Witnesses *)

Lemma strtok_r_refines_witness :
  ∃ tok last mem, strtok_r 9 (Some 1%nat) [61] None [7; 61; 97; 98; 61; 99; 0; 8] = Some (Some tok, last, mem) ∧
                  c_string_at mem tok = Some [97; 98].
Proof.
  destruct (strtok_r_refines "="%char [7] "=ab=c" [8] None 9) as ((tok & last & mem & E & _ & T & _) & _).
  - discriminate.
  - cbn. by repeat split.
  - cbn. lia.
  - exists tok, last, mem. split; [exact E|exact T].
Defined.

Lemma libhaggle_platform_get_path_spec_witness :
  ∃ path', libhaggle_platform_get_path None (Some "alice") PLATFORM_PATH_HAGGLE_PRIVATE (Some "/haggle.pid") (replicate 257 0) = Some (true, path') ∧
           c_string path' = Some (bytes_of_string "/home/alice/.Haggle/haggle.pid").
Proof.
  destruct (libhaggle_platform_get_path_spec None (Some "alice") PLATFORM_PATH_HAGGLE_PRIVATE (Some "/haggle.pid") (replicate 257 0))
    as (ok & path' & E & _ & H).
  - reflexivity.
  - intros l [= <-]. cbn. by repeat split.
  - cbn. by repeat split.
  - intros b [= <-]. discriminate.
  - cbn in H. destruct H as [-> H]. exists path'. split; [exact E|exact H].
Defined.
