(* ===== verification/Daemon.v ===== *)
(** * Daemon: finding and starting the Haggle daemon, [haggle_daemon_pid] and
    [haggle_daemon_spawn] of [libhaggle/ipc.c] (Linux).

    Files, the [/proc] entries among them, are a map from names to contents; [system],
    the sockets and what [select] answers are parameters.  The callback of the caller is
    a function of the time waited; the model records its calls. *)

From S2P Require Import Prelude Text DataObject Ipc Utils.

Definition HAGGLE_DAEMON_NOT_RUNNING : Z := HAGGLE_NO_ERROR.
Definition HAGGLE_DAEMON_RUNNING : Z := 1.
Definition HAGGLE_DAEMON_CRASHED : Z := 2.
Definition PIDBUFLEN : nat := 200.
Definition PATH_LEN : nat := 200.
Definition HAGGLE_PROCESS_NAME : string := "haggle".
Definition VALGRIND_PROCESS_NAME : string := "valgrind".

(** ** The pid file *)

Fixpoint starts_with (needle hay : list Z) : bool :=
  match needle, hay with
  | [], _ => true
  | n :: needle, h :: hay => (n =? h) && starts_with needle hay
  | _, [] => false
  end.
Fixpoint occurs (needle hay : list Z) : bool :=
  starts_with needle hay || match hay with [] => false | _ :: hay => occurs needle hay end.

(** [strstr (buf, name) != NULL]: undefined when the search runs past the buffer. *)
Definition strstr (buf : list Z) (name : string) : option bool :=
  match c_string buf with
  | Some l => Some (occurs (bytes_of_string name) l)
  | None => if occurs (bytes_of_string name) buf then Some true else None
  end.

(** [strtoul (buf, NULL, 10)]: undefined when the number runs past the buffer. *)
Definition strtoul_buf (buf : list Z) : option Z :=
  match c_string buf with
  | Some l => Some (strtoul (string_of_bytes l))
  | None => let s := string_of_bytes buf in if decide ((scan_number s).2 = "") then None else Some (strtoul s)
  end.

(** [fread (buf, 1, n, fp)] into the start of a buffer of [n] bytes. *)
Definition fread (contents buf : list Z) : nat * list Z :=
  let got := take (length buf) contents in (length got, got ++ drop (length got) buf).

(** ["%ld"] of an unsigned long. *)
Definition proc_path (pid : Z) : string := "/proc/" +:+ fmt_ld (if pid <? 2 ^ 63 then pid else pid - 2 ^ 64) +:+ "/cmdline".

Section Daemon.
Context (pid_file : string) (fs : files).

(** The result and [*pid]. *)
Definition haggle_daemon_pid : option (Z * Z) :=
  match fs !! pid_file with
  | None => Some (HAGGLE_DAEMON_NOT_RUNNING, 0)
  | Some contents =>
    let '(ret, buf) := fread contents (replicate PIDBUFLEN 0) in
    if (ret =? 0)%nat then Some (HAGGLE_DAEMON_ERROR, 0) else
    pid ← strtoul_buf buf;
    buf ← store_at 0 (bytes_of_string (snprintf PIDBUFLEN (proc_path pid)) ++ [0]) buf;
    match fs !! snprintf PIDBUFLEN (proc_path pid) with
    | None => Some (HAGGLE_DAEMON_CRASHED, pid)
    | Some cmdline =>
      let '(nitems, buf) := fread cmdline buf in
      named ← (if (nitems =? 0)%nat then Some false else strstr buf HAGGLE_PROCESS_NAME);
      running ← (if (named : bool) then Some true else strstr buf VALGRIND_PROCESS_NAME);
      Some (if running : bool then HAGGLE_DAEMON_RUNNING else HAGGLE_DAEMON_CRASHED, pid)
    end
  end.

(** ** Starting the daemon *)

Inductive select_answer := SelError | SelTimeout | SelReadable.

Section Spawn.
(** Whether the callback socket can be opened and bound; [system (cmd)]; the callback. *)
Context (socket_ok bind_ok : bool) (system : string → Z) (callback : option (Z → Z)).

(** The result and the calls of the callback; [None] while it still waits for an answer of
    [select]. *)
Fixpoint wait_loop (inputs : list select_answer) (time_left time_passed : Z) (calls : list Z) : option (Z * list Z) :=
  match inputs with
  | [] => None
  | SelError :: _ => Some (HAGGLE_SOCKET_ERROR, calls)
  | SelTimeout :: inputs =>
    let time_left := u32 (time_left - 1) in
    let time_passed := u32 (time_passed + 1000) in
    if time_left =? 0 then Some (HAGGLE_DAEMON_ERROR, calls)
    else match callback with
         | Some f => if f time_passed =? -1 then Some (HAGGLE_DAEMON_ERROR, calls ++ [time_passed])
                     else wait_loop inputs time_left time_passed (calls ++ [time_passed])
         | None => wait_loop inputs time_left time_passed calls
         end
  | SelReadable :: _ => Some (HAGGLE_NO_ERROR, match callback with Some _ => calls ++ [0] | None => calls end)
  end.

Definition spawn_daemon_internal (daemonpath : option string) (inputs : list select_answer) : option (Z * list Z) :=
  if negb socket_ok then Some (HAGGLE_SOCKET_ERROR, []) else
  if negb bind_ok then Some (HAGGLE_SOCKET_ERROR, []) else
  match daemonpath with
  | None => Some (HAGGLE_ERROR, [])
  | Some daemonpath =>
    let cmd := snprintf PATH_LEN (daemonpath +:+ " -d") in
    if negb (system cmd =? 0) then Some (HAGGLE_ERROR, []) else wait_loop inputs 90 0 []
  end.

Definition haggle_paths : list string :=
  ["./haggle"; "./bin/haggle"; "/bin/haggle"; "/usr/bin/haggle"; "/usr/local/bin/haggle"; "/opt/bin/haggle"; "/opt/local/bin/haggle"].

(** The loop over the guesses: the first one that can be opened. *)
Fixpoint try_paths (paths : list string) (inputs : list select_answer) : option (Z * list Z) :=
  match paths with
  | [] => Some (HAGGLE_ERROR, [])
  | p :: paths => match fs !! p with Some _ => spawn_daemon_internal (Some p) inputs | None => try_paths paths inputs end
  end.

Definition haggle_daemon_spawn_with_callback (daemonpath : option string) (inputs : list select_answer) : option (Z * list Z) :=
  '(running, _) ← haggle_daemon_pid;
  if running =? HAGGLE_DAEMON_RUNNING then Some (HAGGLE_NO_ERROR, []) else
  match daemonpath with
  | Some _ => spawn_daemon_internal daemonpath inputs
  | None => try_paths haggle_paths inputs
  end.
End Spawn.

Definition haggle_daemon_spawn (socket_ok bind_ok : bool) (system : string → Z) (daemonpath : option string) (inputs : list select_answer)
  : option (Z * list Z) := haggle_daemon_spawn_with_callback socket_ok bind_ok system None daemonpath inputs.

(** ** What they do *)

Lemma fread_short contents n : (length contents < n)%nat →
  ∃ post, fread contents (replicate n 0) = (length contents, contents ++ 0 :: post).
Proof.
  intros H. unfold fread. rewrite length_replicate, take_ge by lia. rewrite drop_replicate.
  destruct (n - length contents)%nat as [|k] eqn:E; [lia|]. by exists (replicate k 0).
Qed.

Lemma string_of_bytes_of_string s : no_nul s → string_of_bytes (bytes_of_string s) = s.
Proof.
  induction s as [|a s IH]; [done|]. intros [Ha Hs]. cbn [bytes_of_string string_of_bytes].
  rewrite u8_small by apply byte_of_ascii_byte. destruct (Z.eqb_spec (byte_of_ascii a) 0); [done|]. rewrite IH by done.
  f_equal. unfold byte_of_ascii. by rewrite N2Z.id, ascii_N_embedding.
Qed.

Lemma proc_path_short pid : 0 <= pid < 2 ^ 63 →
  proc_path pid = "/proc/" +:+ dec pid +:+ "/cmdline" ∧ (String.length (proc_path pid) <= 40)%nat.
Proof.
  intros H. unfold proc_path. destruct (Z.ltb_spec pid (2 ^ 63)); [|lia]. unfold fmt_ld. destruct (Z.ltb_spec pid 0); [lia|].
  split; [done|]. pose proof (length_dec pid 19 ltac:(lia) ltac:(lia)) as Hd. change (10 ^ Z.of_nat 19) with 10000000000000000000 in Hd.
  rewrite !length_app_string. cbn [String.length]. lia.
Qed.

(** The process with the command line [cmdline] is the daemon: its first argument names
    it. *)
Definition is_daemon (argv0 : string) : bool :=
  occurs (bytes_of_string HAGGLE_PROCESS_NAME) (bytes_of_string argv0) || occurs (bytes_of_string VALGRIND_PROCESS_NAME) (bytes_of_string argv0).

Lemma daemon_pid_run pid nl :
  0 <= pid < 2 ^ 63 → no_digit nl → no_nul nl → (String.length nl <= 100)%nat →
  fs !! pid_file = Some (bytes_of_string (dec pid +:+ nl)) →
  (fs !! ("/proc/" +:+ dec pid +:+ "/cmdline") = None → haggle_daemon_pid = Some (HAGGLE_DAEMON_CRASHED, pid)) ∧
  (∀ argv0 rest, no_nul argv0 → (String.length argv0 < PIDBUFLEN)%nat →
     fs !! ("/proc/" +:+ dec pid +:+ "/cmdline") = Some (bytes_of_string argv0 ++ 0 :: rest) →
     haggle_daemon_pid = Some (if is_daemon argv0 then HAGGLE_DAEMON_RUNNING else HAGGLE_DAEMON_CRASHED, pid)).
Proof.
  intros Hp Hnd Hnn Hl Hf. unfold haggle_daemon_pid. rewrite Hf. pose proof (length_dec pid 19 ltac:(lia) ltac:(lia)) as Hd.
  change (10 ^ Z.of_nat 19) with 10000000000000000000 in Hd. destruct (dec_head pid ltac:(lia)) as (d0 & r0 & Edec & _).
  assert (Hlen : (length (bytes_of_string (dec pid +:+ nl)) < PIDBUFLEN)%nat).
  { rewrite length_bytes_of_string, length_app_string. unfold PIDBUFLEN. lia. }
  destruct (fread_short _ _ Hlen) as [post E]. 
  assert (Hbl : length (bytes_of_string (dec pid +:+ nl) ++ 0 :: post) = PIDBUFLEN).
  { apply (f_equal (fun x => length x.2)) in E. cbn [snd] in E. rewrite <- E. unfold fread. cbn [snd].
    rewrite length_app, length_drop, length_take, length_replicate. lia. }
  rewrite E. cbn [fst snd].
  assert (Hne : (length (bytes_of_string (dec pid +:+ nl)) =? 0)%nat = false).
  { rewrite length_bytes_of_string, Edec. done. }
  rewrite Hne. assert (Hnul : no_nul (dec pid +:+ nl)) by (apply no_nul_app; [by apply no_nul_dec; lia|done]).
  unfold strtoul_buf. rewrite c_string_app by (by apply no_nul_bytes). rewrite string_of_bytes_of_string by done. cbn [mbind option_bind].
  assert (Epid : strtoul (dec pid +:+ nl) = pid).
  { unfold strtoul. rewrite scan_dec by (done || lia). cbn [fst default from_option id].
    destruct (Z.leb_spec (2 ^ 64) (Z.abs pid)); [lia|]. apply Z.mod_small. lia. }
  rewrite Epid. destruct (proc_path_short pid Hp) as [<- Hpl].
  rewrite snprintf_id by (unfold PIDBUFLEN; lia).
  set (buf := bytes_of_string (dec pid +:+ nl) ++ 0 :: post) in *.
  assert (Ew : ∃ post', store_at 0 (bytes_of_string (proc_path pid) ++ [0]) buf = Some (bytes_of_string (proc_path pid) ++ 0 :: post') ∧
                        length (bytes_of_string (proc_path pid) ++ 0 :: post') = PIDBUFLEN).
  { unfold store_at. rewrite length_app, length_bytes_of_string, Hbl. cbn [length Nat.add].
    destruct (Nat.leb_spec (String.length (proc_path pid) + 1) PIDBUFLEN) as [H|H]; [|unfold PIDBUFLEN in H; lia].
    exists (drop (String.length (proc_path pid) + 1) buf). cbn [take app]. rewrite <- app_assoc. split; [done|].
    rewrite length_app, length_bytes_of_string. cbn [length app]. rewrite length_drop, Hbl. lia. }
  destruct Ew as (post' & Ew & Hl'). rewrite Ew. cbn [mbind option_bind]. split; [by intros ->|].
  intros argv0 rest Hn Ha ->. set (buf' := bytes_of_string (proc_path pid) ++ 0 :: post') in *.
  assert (Ef : ∃ n post2, fread (bytes_of_string argv0 ++ 0 :: rest) buf' = (S n, bytes_of_string argv0 ++ 0 :: post2)).
  { unfold fread. rewrite Hl'. rewrite take_app_ge by (rewrite length_bytes_of_string; lia). rewrite length_bytes_of_string.
    destruct (PIDBUFLEN - String.length argv0)%nat as [|k] eqn:Ek; [lia|]. cbn [take]. rewrite length_app. cbn [length].
    rewrite Nat.add_succ_r. eexists _, _. f_equal. by rewrite <- app_assoc. }
  destruct Ef as (n & post2 & ->). cbn [Nat.eqb].
  assert (Hs : ∀ name, strstr (bytes_of_string argv0 ++ 0 :: post2) name = Some (occurs (bytes_of_string name) (bytes_of_string argv0))).
  { intros name. unfold strstr. by rewrite c_string_app by (by apply no_nul_bytes). }
  rewrite !Hs. cbn [mbind option_bind]. unfold is_daemon. destruct (occurs (bytes_of_string HAGGLE_PROCESS_NAME) _); done.
Qed.

(** The daemon is not running when there is no pid file, an error is answered for an
    empty one, and otherwise the process with the number in the file decides: it runs when
    its first argument names Haggle (or valgrind), and has crashed when the process is
    gone or is another program. *)
Theorem haggle_daemon_pid_spec pid nl :
  0 <= pid < 2 ^ 63 → no_digit nl → no_nul nl → (String.length nl <= 100)%nat →
  (fs !! pid_file = None → haggle_daemon_pid = Some (HAGGLE_DAEMON_NOT_RUNNING, 0)) ∧
  (fs !! pid_file = Some [] → haggle_daemon_pid = Some (HAGGLE_DAEMON_ERROR, 0)) ∧
  (fs !! pid_file = Some (bytes_of_string (dec pid +:+ nl)) →
   (fs !! ("/proc/" +:+ dec pid +:+ "/cmdline") = None → haggle_daemon_pid = Some (HAGGLE_DAEMON_CRASHED, pid)) ∧
   (∀ argv0 rest, no_nul argv0 → (String.length argv0 < PIDBUFLEN)%nat →
      fs !! ("/proc/" +:+ dec pid +:+ "/cmdline") = Some (bytes_of_string argv0 ++ 0 :: rest) →
      haggle_daemon_pid = Some (if is_daemon argv0 then HAGGLE_DAEMON_RUNNING else HAGGLE_DAEMON_CRASHED, pid))).
Proof.
  intros Hp Hd Hn Hl. split_and!; [by unfold haggle_daemon_pid; intros ->..|]. intros Hf. by apply (daemon_pid_run pid nl).
Qed.

(** ** Waiting for the daemon *)

Section Waiting.
Context (callback : option (Z → Z)).

(** The callback is told the milliseconds waited, and goes on. *)
Definition goes_on (k : Z) : Prop := match callback with Some f => f (1000 * k) ≠ -1 | None => True end.
Definition told (ks : list Z) : list Z := match callback with Some _ => map (Z.mul 1000) ks | None => [] end.

Lemma told_app l1 l2 : told (l1 ++ l2) = told l1 ++ told l2.
Proof. unfold told. destruct callback; [apply map_app|done]. Qed.

Lemma seqZ_one n : seqZ n 1 = [n].
Proof. unfold seqZ. change (Z.to_nat 1) with 1%nat. reflexivity. Qed.

(** [k] timeouts without an end leave the loop waiting, with [k] seconds less. *)
Lemma wait_timeouts k j rest :
  0 <= j → j + Z.of_nat k < 90 → (∀ i, j < i <= j + Z.of_nat k → goes_on i) →
  wait_loop callback (replicate k SelTimeout ++ rest) (90 - j) (1000 * j) (told (seqZ 1 j)) =
  wait_loop callback rest (90 - (j + Z.of_nat k)) (1000 * (j + Z.of_nat k)) (told (seqZ 1 (j + Z.of_nat k))).
Proof.
  revert j. induction k as [|k IH]; intros j Hj Hk Hg; [by rewrite Z.add_0_r|]. cbn [replicate app wait_loop].
  rewrite !u32_small by (unfold is_u32; lia). destruct (Z.eqb_spec (90 - j - 1) 0); [lia|].
  replace (90 - j - 1) with (90 - (j + 1)) by lia. replace (1000 * j + 1000) with (1000 * (j + 1)) by lia.
  assert (Et : told (seqZ 1 (j + 1)) = match callback with Some _ => told (seqZ 1 j) ++ [1000 * (j + 1)] | None => told (seqZ 1 j) end).
  { rewrite seqZ_app, told_app, seqZ_one by lia. unfold told. rewrite (Z.add_comm 1 j).
    by destruct callback. }
  specialize (IH (j + 1) ltac:(lia) ltac:(lia)). rewrite Et in IH. specialize (Hg (j + 1) ltac:(lia)) as Hg1. unfold goes_on in Hg1.
  replace (j + Z.of_nat (S k)) with (j + 1 + Z.of_nat k) by lia.
  destruct callback as [f|].
  - destruct (Z.eqb_spec (f (1000 * (j + 1))) (-1)); [done|]. apply IH. intros i Hi. apply Hg. lia.
  - apply IH. intros i Hi. apply Hg. lia.
Qed.

(** Starting the daemon always returns: after at most ninety seconds of silence it
    gives up with an error; before that it returns as soon as the daemon answers, the
    socket fails or the callback refuses, and the callback has been told each second that
    passed, and zero at the end. *)
Theorem wait_loop_returns k rest :
  (k < 90)%nat → (∀ i, 1 <= i <= Z.of_nat k → goes_on i) →
  wait_loop callback (replicate k SelTimeout ++ SelReadable :: rest) 90 0 [] =
    Some (HAGGLE_NO_ERROR, told (seqZ 1 (Z.of_nat k)) ++ told [0]) ∧
  wait_loop callback (replicate k SelTimeout ++ SelError :: rest) 90 0 [] = Some (HAGGLE_SOCKET_ERROR, told (seqZ 1 (Z.of_nat k))) ∧
  (k = 89%nat → wait_loop callback (replicate k SelTimeout ++ SelTimeout :: rest) 90 0 [] = Some (HAGGLE_DAEMON_ERROR, told (seqZ 1 89))) ∧
  ((k < 89)%nat → ¬ goes_on (Z.of_nat k + 1) →
   wait_loop callback (replicate k SelTimeout ++ SelTimeout :: rest) 90 0 [] = Some (HAGGLE_DAEMON_ERROR, told (seqZ 1 (Z.of_nat k + 1)))) ∧
  (∀ inputs, (90 <= length inputs)%nat → is_Some (wait_loop callback inputs 90 0 [])).
Proof.
  intros Hk Hg.
  assert (E : ∀ r, wait_loop callback (replicate k SelTimeout ++ r) 90 0 [] =
                   wait_loop callback r (90 - Z.of_nat k) (1000 * Z.of_nat k) (told (seqZ 1 (Z.of_nat k)))).
  { intros r. pose proof (wait_timeouts k 0 r ltac:(lia) ltac:(lia)) as H. unfold told at 1 in H. cbn [seqZ] in H.
    replace (match callback with Some _ => map (Z.mul 1000) (seqZ 1 0) | None => [] end) with (@nil Z) in H by (by destruct callback).
    apply H. intros i Hi. apply Hg. lia. }
  rewrite !E. cbn [wait_loop]. split_and!.
  - f_equal. f_equal. unfold told. destruct callback; [done|]. done.
  - done.
  - intros ->. rewrite u32_small by (unfold is_u32; lia). done.
  - intros Hk' Hn. rewrite !u32_small by (unfold is_u32; lia). destruct (Z.eqb_spec (90 - Z.of_nat k - 1) 0); [lia|].
    unfold goes_on in Hn. rewrite seqZ_app, told_app, seqZ_one by lia. unfold told. destruct callback as [f|]; [|done].
    replace (1000 * Z.of_nat k + 1000) with (1000 * (Z.of_nat k + 1)) by lia.
    destruct (Z.eqb_spec (f (1000 * (Z.of_nat k + 1))) (-1)) as [|Hf]; [|by apply Hn in Hf]. by rewrite (Z.add_comm 1).
  - intros inputs Hi.
    assert (Hgen : ∀ inputs left passed calls, 0 < left <= 90 → left <= Z.of_nat (length inputs) → is_Some (wait_loop callback inputs left passed calls)).
    { clear. intros inputs. induction inputs as [|[| |] inputs IH]; intros left passed calls Hl Hi; cbn [wait_loop length] in *; [lia|done| |done].
      rewrite (u32_small (left - 1)) by (unfold is_u32; lia). destruct (Z.eqb_spec (left - 1) 0); [done|].
      destruct callback as [f|]; [destruct (f _ =? -1); [done|]|]; apply IH; lia. }
    apply Hgen; lia.
Qed.
End Waiting.
End Daemon.

(** ** Witnesses *)

Definition ex_fs : files :=
  {["/home/haggle.pid" := [52; 50; 10]; "/proc/42/cmdline" := bytes_of_string "/bin/haggle" ++ [0; 45; 100; 0]]}.

Lemma haggle_daemon_pid_spec_witness : haggle_daemon_pid "/home/haggle.pid" ex_fs = Some (HAGGLE_DAEMON_RUNNING, 42).
Proof.
  assert (Hp : 0 <= 42 < 2 ^ 63) by lia.
  destruct (haggle_daemon_pid_spec "/home/haggle.pid" ex_fs 42 (String "010" "")) as (_ & _ & H).
  - exact Hp.
  - reflexivity.
  - split; [discriminate|exact I].
  - cbn. lia.
  - destruct (H eq_refl) as [_ Hrun]. apply (Hrun "/bin/haggle" [45; 100; 0]); [cbn; by repeat split|cbn; unfold PIDBUFLEN; lia|reflexivity].
Defined.

Definition ex_callback (t : Z) : Z := if t =? 3000 then -1 else 0.
Lemma wait_loop_returns_witness :
  wait_loop (Some ex_callback) [SelTimeout; SelTimeout; SelReadable] 90 0 [] = Some (HAGGLE_NO_ERROR, [1000; 2000; 0]) ∧
  wait_loop (Some ex_callback) [SelTimeout; SelTimeout; SelTimeout] 90 0 [] = Some (HAGGLE_DAEMON_ERROR, [1000; 2000; 3000]).
Proof.
  destruct (wait_loop_returns (Some ex_callback) 2 []) as (H1 & _ & _ & H2 & _).
  - lia.
  - intros i Hi. cbn. unfold ex_callback. destruct (Z.eqb_spec (1000 * i) 3000); lia.
  - split; [exact H1|]. apply H2; [lia|]. cbn. intros H. by apply H.
Defined.
