(* ===== verification/Threads.v ===== *)
(** * Threads: the event loop and the application as two threads, [libhaggle/ipc.c].

    [Ipc] runs the loop by itself.  Here it runs beside the thread of the application,
    which starts it, stops it and frees the handle.  A state holds the fields of the
    handle that the threads share and a program counter for each; [fire] makes one atomic
    step of one of them.  What the messages hold does not matter here: a wait ends with
    the signal, an error, or a message, which is handled or dropped (only the former
    resets [error_retries]); it has no timeout.  Not covered: two threads that stop
    the loop, a handler that frees the handle, and [haggle_event_loop_run] on a handle whose
    [th] is that of an earlier thread which nobody joined. *)

From stdpp Require Import relations.
From S2P Require Import Prelude.

(** ** State *)

(** The loop: not there, created, at the test of [while], in [wait_for_event], with a message or in its
    handler, behind the loop, over. *)
Inductive loop_pc := LNone | LCreated | LTop | LWait | LHandle | LExit | LDone.
(** The application: in none of the functions; in [haggle_handle_free], in
    [haggle_event_loop_stop] before the test of the flag, before the signal is raised, or
    before the join (the argument: called from [haggle_handle_free]); before
    [haggle_handle_free_final]; behind it; or with two loops on one handle. *)
Inductive app_pc := AIdle | AFree | ACheck (k : bool) | ARaise (k : bool) | AJoin (k : bool) | AFinal | ADone | ATwoLoops.
#[export] Instance loop_pc_eq_dec : EqDecision loop_pc.
Proof. solve_decision. Defined.
#[export] Instance app_pc_eq_dec : EqDecision app_pc.
Proof. solve_decision. Defined.

(** [event_loop_running]; the bytes in the pipe [signal]; whether [th] is set; whether the
    handle is freed; [error_retries]; the result of the last [haggle_event_loop_stop]. *)
Record state := State
  { t_running : bool; t_signal : nat; t_th : bool; t_freed : bool; t_retries : nat; t_ret : Z; t_loop : loop_pc; t_app : app_pc }.

Definition start_state : state := State false 0 false false 0 HAGGLE_NO_ERROR LNone AIdle.

Definition at_loop (s : state) (pc : loop_pc) (running : bool) (signal retries : nat) : state :=
  State running signal (t_th s) (t_freed s) retries (t_ret s) pc (t_app s).
Definition at_app (s : state) (pc : app_pc) : state :=
  State (t_running s) (t_signal s) (t_th s) (t_freed s) (t_retries s) (t_ret s) (t_loop s) pc.
(** [haggle_event_loop_stop] returns, to the application or to [haggle_handle_free]. *)
Definition return_stop (s : state) (k : bool) (ret : Z) (th : bool) : state :=
  State (t_running s) (t_signal s) th (t_freed s) (t_retries s) ret (t_loop s) (if k then AFinal else AIdle).

(** The thread of the loop may still use the handle. *)
Definition loop_alive (s : state) : bool := match t_loop s with LNone | LDone => false | _ => true end.

(** ** Steps *)

Inductive label :=
  | LoopStart | LoopTest | WaitSignalled | WaitFailed | WaitReadable | MessageDropped | HandlerReturns | HandlerStops | LoopEnds
  | AppRun (own_thread : bool) | AppStop | AppFree | FreeTest | StopTest | StopRaise | StopJoin | FreeFinal.

(** A thread in [haggle_event_loop]. *)
Definition fire_loop (l : label) (s : state) : option state :=
  match l, t_loop s with
  | LoopStart, LCreated => Some (at_loop s LTop true (t_signal s) 0)
  | LoopTest, LTop => Some (at_loop s (if t_running s then LWait else LExit) (t_running s) (t_signal s) (t_retries s))
  | WaitSignalled, LWait =>
    match t_signal s with O => None | S n => Some (at_loop s LExit false n (t_retries s)) end
  | WaitFailed, LWait =>
    Some (at_loop s LTop (if (t_retries s =? 4)%nat then false else t_running s) (t_signal s) (S (t_retries s)))
  | WaitReadable, LWait =>
    match t_signal s with O => Some (at_loop s LHandle (t_running s) 0 (t_retries s)) | S _ => None end
  | MessageDropped, LHandle => Some (at_loop s LTop (t_running s) (t_signal s) (t_retries s))
  | HandlerReturns, LHandle => Some (at_loop s LTop (t_running s) (t_signal s) 0)
  | HandlerStops, LHandle =>
    if t_running s then Some (at_loop s LTop (negb (t_th s)) (S (t_signal s)) 0)
    else Some (at_loop s LTop false (t_signal s) 0)
  | LoopEnds, LExit => Some (at_loop s LDone (t_running s) (t_signal s) (t_retries s))
  | _, _ => None
  end.

(** [haggle_event_loop_run_async], or without a thread of its own [haggle_event_loop_run]
    in another thread of the application, with [th] 0.  A second loop on the handle is
    possible while [event_loop_running] is not (or no longer) set. *)
Definition fire_run (own : bool) (s : state) : option state :=
  match t_app s with
  | AIdle =>
    if t_running s then None
    else if loop_alive s then Some (at_app s ATwoLoops)
    else if negb own && t_th s then None
    else Some (State false (t_signal s) own (t_freed s) (t_retries s) (t_ret s) LCreated AIdle)
  | _ => None
  end.

(** [haggle_event_loop_stop]. *)
Definition fire_stop (l : label) (s : state) : option state :=
  match l, t_app s with
  | AppStop, AIdle => Some (at_app s (ACheck false))
  | StopTest, ACheck k =>
    Some (if t_running s then at_app s (ARaise k) else return_stop s k HAGGLE_EVENT_LOOP_ERROR (t_th s))
  | StopRaise, ARaise k =>
    Some (State (t_running s) (S (t_signal s)) (t_th s) (t_freed s) (t_retries s) (t_ret s) (t_loop s) (AJoin k))
  | StopJoin, AJoin k =>
    if t_th s && negb (bool_decide (t_loop s = LDone)) then None else Some (return_stop s k HAGGLE_NO_ERROR false)
  | _, _ => None
  end.

(** [haggle_handle_free]. *)
Definition fire_free (l : label) (s : state) : option state :=
  match l, t_app s with
  | AppFree, AIdle => Some (at_app s AFree)
  | FreeTest, AFree => Some (at_app s (if t_running s then ACheck true else AFinal))
  | FreeFinal, AFinal => Some (State (t_running s) (t_signal s) (t_th s) true (t_retries s) (t_ret s) (t_loop s) ADone)
  | _, _ => None
  end.

Definition fire_app (l : label) (s : state) : option state :=
  match l with
  | AppRun own => fire_run own s
  | AppFree | FreeTest | FreeFinal => fire_free l s
  | _ => fire_stop l s
  end.

Definition fire (l : label) (s : state) : option state :=
  match fire_loop l s with Some s' => Some s' | None => fire_app l s end.
Definition loop_step (s s' : state) : Prop := ∃ l, fire_loop l s = Some s'.
Definition step (s s' : state) : Prop := ∃ l, fire l s = Some s'.

(** A run that is given by its labels. *)
Fixpoint fires (ls : list label) (s : state) : option state :=
  match ls with [] => Some s | l :: ls => s ← fire l s; fires ls s end.

(** The loop thread is going to use a handle that is freed. *)
Definition use_after_free (s : state) : bool := t_freed s && loop_alive s.

Lemma fires_steps ls : ∀ s s', fires ls s = Some s' → rtc step s s'.
Proof.
  induction ls as [|l ls IH]; intros s s' H; cbn [fires] in H; [by injection H as <-|].
  destruct (fire l s) as [s1|] eqn:E; [|done]. cbn [mbind option_bind] in H. eapply rtc_l; [by exists l|by apply IH].
Qed.

(** ** The protocol under which it is safe *)

(** The application starts the loop in a thread of its own, and calls nothing more before
    that thread has set [event_loop_running]; the loop ends neither by itself (five errors
    in a row) nor by a handler. *)
Definition allowed (l : label) (s : state) : bool :=
  match l with
  | AppRun own => own && negb (bool_decide (t_loop s = LCreated))
  | AppStop | AppFree => negb (bool_decide (t_loop s = LCreated))
  | HandlerStops => false
  | WaitFailed => negb (t_retries s =? 4)%nat
  | _ => true
  end.
Definition safe_step (s s' : state) : Prop := ∃ l, allowed l s = true ∧ fire l s = Some s'.

(** Inside the loop: the flag is set exactly there. *)
Definition in_loop (pc : loop_pc) : bool := match pc with LTop | LWait | LHandle => true | _ => false end.

Record safe (s : state) : Prop := Safe
  { safe_running : t_running s = in_loop (t_loop s);
    safe_th : loop_alive s = true → t_th s = true;
    safe_signal : match t_app s with
                  | AJoin _ => if in_loop (t_loop s) then t_signal s = 1%nat else t_signal s = 0%nat ∧ (t_loop s = LExit ∨ t_loop s = LDone)
                  | ARaise _ => t_signal s = 0%nat ∧ in_loop (t_loop s) = true
                  | _ => t_signal s = 0%nat ∧ t_loop s ≠ LExit
                  end;
    safe_app : match t_app s with
               | AFree | ACheck _ => t_loop s ≠ LCreated
               | AFinal | ADone => loop_alive s = false
               | ATwoLoops => False
               | _ => True
               end;
    safe_freed : t_freed s = true → t_app s = ADone }.

Lemma safe_loop_step l s s' : allowed l s = true → fire_loop l s = Some s' → safe s → safe s'.
Proof.
  intros Ha Hf [H1 H2 H3 H4 H5]. destruct s as [running signal th freed retries ret pc app].
  destruct l; destruct pc; cbn in Hf, Ha; try discriminate; cbn in H1, H2, H3, H4, H5; subst running.
  all: try destruct (retries =? 4)%nat; try discriminate; try destruct signal; try discriminate; injection Hf as <-.
  all: split; cbn; try done; destruct app; cbn in *; intuition (congruence || lia).
Qed.

Lemma safe_app_step l s s' : allowed l s = true → fire_app l s = Some s' → safe s → safe s'.
Proof.
  intros Ha Hf [H1 H2 H3 H4 H5]. destruct s as [running signal th freed retries ret pc app].
  destruct l; destruct app; cbn in Hf, Ha; try discriminate; cbn in H1, H2, H3, H4, H5; subst running.
  all: destruct pc; cbn in *; try discriminate; try destruct own_thread; try discriminate; try destruct th; try discriminate;
    injection Hf as <-; try destruct k.
  all: split; cbn; try done; intuition (congruence || lia).
Qed.

Lemma start_safe : safe start_state.
Proof. by split. Qed.

Lemma safe_reachable s : rtc safe_step start_state s → safe s.
Proof.
  apply (rtc_ind_r (fun s => safe s)); [apply start_safe|]. intros s1 s2 _ (l & Ha & Hf) Hs. unfold fire in Hf.
  destruct (fire_loop l s1) as [s'|] eqn:E; [injection Hf as <-; by eapply safe_loop_step|by eapply safe_app_step].
Qed.

(** C20: under the protocol, however the two threads interleave, the loop thread never uses
    a freed handle, no handle gets two loops, the handle is freed only when the loop is
    over, and no signal is left behind for the next loop. *)
Theorem handle_protocol_safe s :
  rtc safe_step start_state s →
  use_after_free s = false ∧ t_app s ≠ ATwoLoops ∧ (t_app s = AFinal ∨ t_app s = ADone → loop_alive s = false) ∧
  (t_app s = AIdle → t_signal s = 0%nat ∧ t_running s = in_loop (t_loop s)).
Proof.
  intros Hs%safe_reachable. destruct Hs as [H1 H2 H3 H4 H5]. unfold use_after_free. split_and!.
  - destruct (t_freed s); [|done]. rewrite (H5 eq_refl) in H4. by rewrite H4.
  - intros E. by rewrite E in H4.
  - intros [E|E]; by rewrite E in H4.
  - intros E. rewrite E in H3. by split; [apply H3|].
Qed.

(** ** A stop returns *)

(** What holds in every reachable state, protocol or not. *)
Record wf (s : state) : Prop := Wf
  { wf_running : t_running s = true → in_loop (t_loop s) = true;
    wf_waiting : match t_loop s with LWait | LHandle => t_running s = true | _ => True end;
    wf_retries : t_running s = true → (t_retries s <= 4)%nat;
    wf_stopping : match t_app s with
                  | ARaise _ => t_loop s ≠ LNone ∧ t_loop s ≠ LCreated
                  | AJoin _ => t_loop s ≠ LNone ∧ t_loop s ≠ LCreated ∧ (t_running s = true → t_signal s ≠ 0%nat)
                  | _ => True
                  end }.

Lemma wf_loop_step l s s' : fire_loop l s = Some s' → wf s → wf s'.
Proof.
  intros Hf [H1 H2 H3 H4]. destruct s as [running signal th freed retries ret pc app].
  destruct l; destruct pc; cbn in Hf; try discriminate; cbn in H1, H2, H3, H4.
  all: try destruct (Nat.eqb_spec retries 4); try destruct running; try discriminate; try destruct signal; try discriminate; injection Hf as <-.
  all: split; cbn; try done; destruct app; cbn in *; try destruct th; cbn in *; intuition (congruence || lia).
Qed.
Lemma wf_app_step l s s' : fire_app l s = Some s' → wf s → wf s'.
Proof.
  intros Hf [H1 H2 H3 H4]. destruct s as [running signal th freed retries ret pc app].
  destruct l; destruct app; cbn in Hf; try discriminate; cbn in H1, H2, H3, H4.
  all: destruct pc; cbn in *; try destruct running; try discriminate; try destruct own_thread; cbn in *; try discriminate;
    try destruct th; cbn in *; try discriminate; injection Hf as <-; try destruct k.
  all: split; cbn; try done; intuition (congruence || lia).
Qed.
Lemma wf_reachable s : rtc step start_state s → wf s.
Proof.
  apply (rtc_ind_r (fun s => wf s)); [by split|]. intros s1 s2 _ (l & Hf) Hs. unfold fire in Hf.
  destruct (fire_loop l s1) as [s'|] eqn:E; [injection Hf as <-; by eapply wf_loop_step|by eapply wf_app_step].
Qed.

(** The steps of the loop thread that are left, at most, once the signal is raised. *)
Definition steps_left (s : state) : nat :=
  match t_loop s with
  | LNone | LDone => 0 | LExit => 1 | LWait => 2 + 3 * (5 - t_retries s) | LTop => 3 + 3 * (5 - t_retries s)
  | LHandle => 19 | LCreated => 20
  end.

Lemma joining_step s s' k : wf s → t_app s = AJoin k → loop_step s s' → wf s' ∧ t_app s' = AJoin k ∧ t_th s' = t_th s ∧ (steps_left s' < steps_left s)%nat.
Proof.
  intros Hw Ha (l & Hf). split; [by eapply wf_loop_step|]. destruct Hw as [H1 H2 H3 H4].
  destruct s as [running signal th freed retries ret pc app]. cbn in Ha. subst app. unfold steps_left.
  destruct l; destruct pc; cbn in Hf; try discriminate; cbn in H1, H2, H3, H4; unfold at_loop in Hf;
    cbn [t_running t_signal t_th t_freed t_retries t_ret t_loop t_app] in Hf.
  - by destruct H4 as (_ & ? & _).
  - injection Hf as <-. destruct running; cbn [t_loop t_retries t_app t_th]; split_and!; done || lia.
  - destruct signal; [done|]. injection Hf as <-. cbn [t_loop t_retries t_app t_th]. split_and!; done || lia.
  - pose proof (H3 H2). injection Hf as <-. cbn [t_loop t_retries t_app t_th]. split_and!; done || lia.
  - destruct H4 as (_ & _ & H4). destruct signal; [by destruct (H4 H2)|done].
  - injection Hf as <-. cbn [t_loop t_retries t_app t_th]. split_and!; done || lia.
  - injection Hf as <-. cbn [t_loop t_retries t_app t_th]. split_and!; done || lia.
  - destruct running; injection Hf as <-; cbn [t_loop t_retries t_app t_th]; split_and!; done || lia.
  - injection Hf as <-. cbn [t_loop t_retries t_app t_th]. split_and!; done || lia.
Qed.

Lemma loop_progress s k : wf s → t_app s = AJoin k → t_loop s ≠ LDone → ∃ s', loop_step s s'.
Proof.
  intros [H1 H2 H3 H4] Ha Hd. rewrite Ha in H4. destruct s as [running signal th freed retries ret pc app]. cbn in *. unfold loop_step.
  destruct pc; try tauto; [exists (at_loop (State running signal th freed retries ret LTop app) (if running then LWait else LExit) running signal retries); by exists LoopTest|
    eexists; exists WaitFailed; reflexivity|eexists; exists HandlerReturns; reflexivity|eexists; exists LoopEnds; reflexivity].
Qed.

(** C33: when [haggle_event_loop_stop] has raised the signal and waits for the thread of the
    loop, that thread is over after at most twenty steps of its own, whatever it was doing
    and however its waits fail, can always make the next one, and then the call returns
    [HAGGLE_NO_ERROR]. *)
Theorem stop_returns s k n s' :
  rtc step start_state s → t_app s = AJoin k → nsteps loop_step n s s' →
  (n <= 20)%nat ∧
  ((∃ s'', loop_step s' s'') ∨
   (t_loop s' = LDone ∧ fire StopJoin s' = Some (return_stop s' k HAGGLE_NO_ERROR false))).
Proof.
  intros Hw%wf_reachable Ha Hn.
  assert (H : wf s' ∧ t_app s' = AJoin k ∧ (n + steps_left s' <= steps_left s)%nat).
  { revert Hw Ha. induction Hn as [|n s s1 s' Hs _ IH]; intros Hw Ha; [by split_and!|].
    destruct (joining_step s s1 k Hw Ha Hs) as (Hw1 & Ha1 & _ & Hl). destruct (IH Hw1 Ha1) as (? & ? & ?). split_and!; [done|done|lia]. }
  destruct H as (Hw' & Ha' & Hl). split.
  - unfold steps_left in Hl. destruct (t_loop s); lia.
  - destruct (decide (t_loop s' = LDone)) as [Ed|Hd]; [right|left; by eapply loop_progress]. split; [done|].
    unfold fire. cbn [fire_loop fire_app fire_stop]. rewrite Ha'. rewrite Ed. rewrite bool_decide_eq_true_2 by done. by rewrite andb_false_r.
Qed.

(** ** Outside the protocol *)

Definition start_loop : list label := [AppRun true; LoopStart; LoopTest].
Definition free_handle : list label := [AppFree; FreeTest; FreeFinal].

Lemma fires_to (P : state → Prop) ls : match fires ls start_state with Some s => P s | None => False end → ∃ s, fires ls start_state = Some s ∧ P s.
Proof. destruct (fires ls start_state); [eauto|done]. Qed.

(** Every condition of the protocol is needed.  A stop that comes before the new thread
    has set its flag fails, and the loop goes on; a second loop can be started then; and
    the handle is freed under the loop when [haggle_handle_free] comes that early, after a
    handler has stopped the loop, after the fifth error, or while another thread is in
    [haggle_event_loop_run]. *)
Theorem handle_races :
  (∃ s, fires ([AppRun true; AppStop; StopTest; LoopStart; LoopTest]) start_state = Some s ∧
        t_ret s = HAGGLE_EVENT_LOOP_ERROR ∧ t_app s = AIdle ∧ t_loop s = LWait ∧ t_signal s = 0%nat) ∧
  (∃ s, fires [AppRun true; AppRun true] start_state = Some s ∧ t_app s = ATwoLoops) ∧
  Forall (fun ls => ∃ s, fires ls start_state = Some s ∧ use_after_free s = true)
    [ AppRun true :: free_handle;
      start_loop ++ [WaitReadable; HandlerStops] ++ free_handle;
      start_loop ++ [WaitFailed; LoopTest; WaitFailed; LoopTest; WaitFailed; LoopTest; WaitFailed; LoopTest; WaitFailed] ++ free_handle;
      [AppRun false; LoopStart; LoopTest; AppFree; FreeTest; StopTest; StopRaise; StopJoin; FreeFinal] ].
Proof.
  split; [apply fires_to; vm_compute; by split|]. split; [apply fires_to; vm_compute; reflexivity|].
  apply Forall_cons_2; [apply fires_to; vm_compute; reflexivity|].
  apply Forall_cons_2; [apply fires_to; vm_compute; reflexivity|].
  apply Forall_cons_2; [apply fires_to; vm_compute; reflexivity|].
  apply Forall_cons_2; [apply fires_to; vm_compute; reflexivity|].
  apply Forall_nil_2.
Qed.

(** ** Witnesses *)

Definition ex_labels : list label := start_loop ++ [WaitReadable; AppFree; FreeTest; StopTest; StopRaise].
Definition ex_state : state := State true 1 true false 0 HAGGLE_NO_ERROR LHandle (AJoin true).

Fixpoint all_allowed (ls : list label) (s : state) : bool :=
  match ls with [] => true | l :: ls => allowed l s && match fire l s with Some s => all_allowed ls s | None => false end end.
Lemma safe_fires ls : ∀ s s', all_allowed ls s = true → fires ls s = Some s' → rtc safe_step s s'.
Proof.
  induction ls as [|l ls IH]; intros s s' Ha H; cbn [fires all_allowed] in *; [by injection H as <-|].
  apply andb_true_iff in Ha as [Hl Ha]. destruct (fire l s) as [s1|] eqn:E; [|done]. cbn [mbind option_bind] in H.
  eapply rtc_l; [by exists l|by apply IH].
Qed.

Lemma handle_protocol_safe_witness :
  fires ex_labels start_state = Some ex_state ∧ use_after_free ex_state = false.
Proof.
  split; [reflexivity|]. apply (handle_protocol_safe ex_state). by apply (safe_fires ex_labels).
Defined.

Lemma stop_returns_witness : ∃ s', nsteps loop_step 4 ex_state s' ∧ fire StopJoin s' = Some (return_stop s' true HAGGLE_NO_ERROR false).
Proof.
  exists (State false 0 true false 0 HAGGLE_NO_ERROR LDone (AJoin true)).
  assert (Hn : nsteps loop_step 4 ex_state (State false 0 true false 0 HAGGLE_NO_ERROR LDone (AJoin true))).
  { eapply nsteps_l; [by exists HandlerReturns|]. eapply nsteps_l; [by exists LoopTest|]. eapply nsteps_l; [by exists WaitSignalled|].
    eapply nsteps_l; [by exists LoopEnds|apply nsteps_O]. }
  split; [exact Hn|].
  destruct (stop_returns ex_state true 4 _ (fires_steps ex_labels start_state ex_state eq_refl) eq_refl Hn) as [_ [(s'' & l & H)|[_ H]]]; [|exact H].
  destruct l; discriminate.
Defined.
