(* ===== verification/Delivery.v ===== *)
(** * Delivery: what [haggle_ipc_publish_dataobject] puts on the socket.

    The conversion of the object, the wire format, the send and the parse of the library are
    composed here: what an application publishes, and what the library makes of the datagram at the
    other end.  What the daemon does in between is in the files that start with [Kernel]; the event
    by which it announces an object to an application is read in [Ipc]. *)

From S2P Require Import Prelude Sha1 Base64 Attribute Metadata Text MetaTree Interface Node DataObject Ipc.

Section Delivery.
Context {A : Type} {C : MetadataCodec} (ok : meta → Prop) `{!MetadataCodecOk C ok}.
Context (sendto_ok : nat → bool) (errno : Z) (now : Z * Z) (ctx_buf : list Z) (uninit_time : Z * Z) (uninit_sha : SHA1Context).
Context (Hctx : length ctx_buf = 4%nat) (Hnow : 0 < now.1 < 2 ^ 63 ∧ 0 <= now.2 < 10 ^ 6).

(** The object that is sent: publishing stamps it with the time if it has none. *)
Definition stamped (d : dataobject) : dataobject :=
  match haggle_dataobject_get_createtime d with None => with_createtime d now | Some _ => d end.

Lemma stamped_ok d : dobj_ok d → dobj_ok (stamped d).
Proof using Hnow.
  intros [H1 H2 H3 H4 H5 H6]. unfold stamped, haggle_dataobject_get_createtime.
  destruct (Z.eqb_spec (d_createtime d).1 0); [|by split]. split; try done. by right.
Qed.

Lemma publish_run (hh : @haggle_handle A) d m raw w :
  haggle_dataobject_to_metadata (Some (stamped d)) = Some (Some m, Some (with_m (stamped d) m)) →
  metadata_get_raw_alloc m = (Z.of_nat (length raw), raw) → 0 < Z.of_nat (length raw) →
  haggle_ipc_publish_dataobject sendto_ok errno now ctx_buf uninit_time (Some hh) d w =
  Some ((if sendto_ok (w_sends w) then HAGGLE_NO_ERROR else HAGGLE_SOCKET_ERROR, with_m (stamped d) m), after_send sendto_ok w raw).
Proof.
  intros Em Er Hl. unfold haggle_ipc_publish_dataobject. fold (stamped d).
  assert (Es : haggle_ipc_send_dataobject sendto_ok errno ctx_buf uninit_time (Some hh) (Some (stamped d)) false IO_NO_REPLY w =
    Some ((if sendto_ok (w_sends w) then HAGGLE_NO_ERROR else HAGGLE_SOCKET_ERROR, None, Some (with_m (stamped d) m)), after_send sendto_ok w raw)).
  { unfold haggle_ipc_send_dataobject, lift, gets. unfold haggle_dataobject_get_raw_alloc. rewrite Em. cbn [mbind option_bind]. rewrite Er.
    destruct (Z.ltb_spec (Z.of_nat (length raw)) 0); [lia|].
    unfold mbind at 1 2, M_bind. cbn. destruct (Nat.eqb_spec (length raw) 0); [lia|].
    unfold sendto, mbind, M_bind, after_send. by destruct (sendto_ok (w_sends w)). }
  rewrite (bind_run _ _ _ _ _ Es). done.
Qed.

(** The datagram reads back as the object, and is not taken for an event. *)
Lemma published_read d m raw :
  dobj_ok d → d_m d = md_new HAGGLE_TAG None → haggle_dataobject_to_metadata (Some d) = Some (Some m, Some (with_m d m)) →
  metadata_new_from_raw raw = Some (Some m) →
  haggle_dataobject_new_from_raw ctx_buf uninit_time (Some raw) = Some (Some (received d m)) ∧ md_get m "Application" = None.
Proof using Hctx.
  intros Hok Hm Em Hraw. destruct (to_metadata_new ctx_buf Hctx d Hok Hm) as (ams & m0 & Hf & E & Hn & Hp & Hc & Hkids & _).
  rewrite E in Em. injection Em as ->. pose proof (written_known d ams Hf) as Hkn. split.
  - eapply read_back; [done|done|exact Hf|done|exact Hp|exact Hc| |exact Hraw]. rewrite Hkids. by apply filter_known, written_known.
  - unfold md_get. apply list_find_None. rewrite Hkids. eapply Forall_impl; [exact Hkn|]. intros k Hk. cbn.
    unfold known_child in Hk. apply orb_true_iff in Hk. rewrite !md_name_is_iff in Hk. rewrite md_name_is_iff. destruct Hk as [-> | ->]; done.
Qed.

(** C18: publishing sends the object: [haggle_ipc_publish_dataobject] of a new object gives it the time of the
    call unless it has a creation time, leaves the rest of it as it was, and puts one datagram on the socket, or reports
    a socket error.  Whoever reads that datagram with the library gets an object with the same
    attributes, data, flags and creation time, and of the same identifier; the event loop of an application that
    is sent it directly drops it, since it is no event. *)
Theorem publish_dataobject_spec (hh : @haggle_handle A) d w :
  dobj_ok d → d_m d = md_new HAGGLE_TAG None →
  ∃ m, haggle_dataobject_to_metadata (Some (stamped d)) = Some (Some m, Some (with_m (stamped d) m)) ∧
    (ok m → ∃ raw,
       haggle_ipc_publish_dataobject sendto_ok errno now ctx_buf uninit_time (Some hh) d w =
       Some ((if sendto_ok (w_sends w) then HAGGLE_NO_ERROR else HAGGLE_SOCKET_ERROR, with_m (stamped d) m), after_send sendto_ok w raw) ∧
       haggle_dataobject_new_from_raw ctx_buf uninit_time (Some raw) = Some (Some (received (stamped d) m)) ∧
       (∀ id, haggle_dataobject_calculate_id uninit_sha (received (stamped d) m) id = haggle_dataobject_calculate_id uninit_sha (stamped d) id) ∧
       ∀ s, process ctx_buf uninit_time hh raw s = Some (false, s)).
Proof using Hctx Hnow MetadataCodecOk0.
  intros Hok Hm. pose proof (stamped_ok d Hok) as Hok'.
  assert (Hm' : d_m (stamped d) = md_new HAGGLE_TAG None) by (unfold stamped; by destruct (haggle_dataobject_get_createtime d)).
  destruct (to_metadata_new ctx_buf Hctx _ Hok' Hm') as (ams & m & Hf & E & _). exists m. split; [done|].
  intros Ho. destruct (codec_roundtrip m Ho) as (raw & Er & Hl & Hr). exists raw. destruct (published_read _ m raw Hok' Hm' E Hr) as [Hread Happ]. split_and!.
  - by apply publish_run.
  - done.
  - intros id. by apply received_id.
  - intros s. unfold process, mbind, M_bind, gets. rewrite Hread. unfold haggle_dataobject_get_metadata. cbn [received d_m mbind option_bind fmap option_fmap option_map]. by rewrite Happ.
Qed.
End Delivery.

(** ** Witness *)

Definition ex_published : meta :=
  match haggle_dataobject_to_metadata (Some (stamped ex_now ex_dobj)) with Some (Some m, _) => m | _ => md_new "" None end.
(** A wire format that knows this document. *)
#[local] Instance ex_one_document : MetadataCodec :=
  {| metadata_new_from_raw := fun raw => Some (Some ex_published); metadata_get_raw_alloc := fun _ => (1, [60]) |}.
#[local] Instance ex_one_document_ok : MetadataCodecOk ex_one_document (fun m => m = ex_published).
Proof. intros m ->. exists [60]. split; [done|]. split; [simpl; lia|]. done. Qed.

Lemma publish_dataobject_spec_witness :
  ∃ m raw, haggle_ipc_publish_dataobject (A := Z) (fun _ => true) 5 ex_now [0; 0; 0; 0] (0, 0) (Some ex_handle) ex_dobj (ex_world []) =
             Some ((HAGGLE_NO_ERROR, with_m (stamped ex_now ex_dobj) m), after_send (fun _ => true) (ex_world []) raw) ∧
             haggle_dataobject_new_from_raw [0; 0; 0; 0] (0, 0) (Some raw) = Some (Some (received (stamped ex_now ex_dobj) m)).
Proof.
  assert (Hnow : 0 < ex_now.1 < 2 ^ 63 ∧ 0 <= ex_now.2 < 10 ^ 6) by (vm_compute; repeat split; discriminate).
  pose proof (publish_dataobject_spec (A := Z) (fun m => m = ex_published) (fun _ => true) 5 ex_now [0; 0; 0; 0] (0, 0) ex_sha
              eq_refl Hnow ex_handle ex_dobj (ex_world []) ex_dobj_ok eq_refl) as D.
  destruct D as (m & E & H1).
  assert (Em : m = ex_published) by (unfold ex_published; by rewrite E).
  destruct (H1 Em) as (raw & Es & Hread & _). exists m, raw. split; [exact Es|exact Hread].
Defined.
