(* ===== verification/LuckyMe.v ===== *)
(** * LuckyMe: the test application [luckyMe/luckyme.c] as a client of the library
    (Unix, without a data trace).

    Its interests and data objects are random, or follow a grid of nodes.  The draws of
    [random], the binomial weight (floating point), the files, the time and the network
    are parameters; the rest is the library's own definitions. *)

From S2P Require Import Prelude Text Sha1 CList Attribute Metadata MetaTree Interface Node DataObject Ipc Utils Delivery.

Definition APP_NAME : string := "LuckyMe".

(** [snprintf (buf, 32, "%lu", n)]. *)
Definition ulong_to_str (n : Z) : string := snprintf 32 (dec n).

(** The globals of the application, with the numbers [random] will answer and the world of
    the library. *)
Record luckyme := LuckyMe
  { lm_received : Z; lm_created : Z; lm_num_neighbors : Z; lm_neighbors : option (list string);
    lm_stop_now : bool; lm_rand : list Z; lm_world : world }.
Abbreviation LM := (M luckyme).

Definition with_rand (s : luckyme) (l : list Z) : luckyme :=
  LuckyMe (lm_received s) (lm_created s) (lm_num_neighbors s) (lm_neighbors s) (lm_stop_now s) l (lm_world s).
Definition with_world (s : luckyme) (w : world) : luckyme :=
  LuckyMe (lm_received s) (lm_created s) (lm_num_neighbors s) (lm_neighbors s) (lm_stop_now s) (lm_rand s) w.
Definition with_neighbors (s : luckyme) (n : Z) (l : option (list string)) : luckyme :=
  LuckyMe (lm_received s) (lm_created s) n l (lm_stop_now s) (lm_rand s) (lm_world s).
Definition with_created (s : luckyme) (n : Z) : luckyme :=
  LuckyMe (lm_received s) n (lm_num_neighbors s) (lm_neighbors s) (lm_stop_now s) (lm_rand s) (lm_world s).
Definition with_received (s : luckyme) (n : Z) : luckyme :=
  LuckyMe n (lm_created s) (lm_num_neighbors s) (lm_neighbors s) (lm_stop_now s) (lm_rand s) (lm_world s).
Definition with_stop_now (s : luckyme) : luckyme :=
  LuckyMe (lm_received s) (lm_created s) (lm_num_neighbors s) (lm_neighbors s) true (lm_rand s) (lm_world s).

Definition on_world {B} (f : M world B) : LM B := fun s => '(b, w) ← f (lm_world s); Some (b, with_world s w).

Section LuckyMe.
Context {A : Type} {C : MetadataCodec}.
(** The library's parameters, the files, and the handle. *)
Context (sendto_ok : nat → bool) (errno : Z) (now : Z * Z) (ctx_buf : list Z) (uninit_time : Z * Z) (uninit_sha : SHA1Context) (fs : files).
Context (hh : option (@haggle_handle A)).
(** The options of the command line, the number of the node, and
    [(unsigned long) (100 * fac (n) / (fac (n - i) * fac (i)) * pow (p, i) * pow (1 - p, n - i))]. *)
Context (grid_size attribute_pool_size num_dataobject_attributes num_interest_attributes num_dataobjects : Z).
Context (use_node_number repeatableSeed : bool) (filename single_source_name : option string) (hostname : string) (node_number : Z).
Context (binomial_weight : Z → Z → Z).

Definition draw (l : list Z) : option (Z * list Z) :=
  '(r, l) ← (if repeatableSeed then random l else prng_uint32 l); Some (u32 r, l).
Definition luckyme_prng_uint32 : LM Z := fun s => '(r, l) ← draw (lm_rand s); Some (r, with_rand s l).

Definition luckyme_dataobject_set_createtime (d : dataobject) : LM dataobject := fun s =>
  let t := if repeatableSeed then Some (lm_created s, node_number) else None in
  Some (default d (haggle_dataobject_set_createtime now (Some d) t).2, s).

(** ** Interests *)

Definition add_interest (value : Z) (weight : Z) (al : list attr) : list attr :=
  seq_insert (MkAttr APP_NAME (ulong_to_str value) weight) al.

(** The loop [for (i = 0; i <= n; i++)], [count] turns of it from [i] on.  The mean [u] is
    computed in floating point, exactly for the [n] below 2 ^ 53. *)
Fixpoint binomial_loop (count : nat) (i luck n u : Z) (al : list attr) : list attr :=
  match count with
  | O => al
  | S count =>
    let interest := u64 (luck + i - u + attribute_pool_size) `mod` attribute_pool_size in
    let weight := binomial_weight n i in
    let weight := if weight <? 1 then 1 else weight in
    binomial_loop count (i + 1) luck n u (add_interest interest weight al)
  end.
Definition create_interest_binomial : LM Z :=
  luck ← (if use_node_number then mret node_number
          else r ← luckyme_prng_uint32;
               (if attribute_pool_size =? 0 then undefined else mret (r `mod` attribute_pool_size)));
  let n := u64 (num_interest_attributes - 1) in
  let u := n / 2 in
  if attribute_pool_size =? 0 then undefined else
  let al := binomial_loop (S (Z.to_nat n)) 0 luck n u [] in
  _ ← on_world (haggle_ipc_add_application_interests sendto_ok errno now ctx_buf uninit_time hh (Some al));
  mret (s32 (n + 1 + 1)).

Definition grid_interests : list Z := [u32 (node_number / grid_size); u32 (node_number `mod` grid_size + grid_size)].
Definition grid_interest_list : list attr := fold_left (fun al v => add_interest v 1 al) grid_interests [].
Definition create_interest_grid : LM Z :=
  if grid_size =? 0 then undefined else
  _ ← on_world (haggle_ipc_add_application_interests sendto_ok errno now ctx_buf uninit_time hh (Some grid_interest_list));
  mret 2.

Definition create_interest_node_number : LM Z :=
  _ ← on_world (haggle_ipc_add_application_interests sendto_ok errno now ctx_buf uninit_time hh (Some (add_interest node_number 1 [])));
  mret (s32 node_number).

(** ** Data objects *)

(** The object from the file, with its hash, or a new one. *)
Definition base_dataobject : LM (option dataobject) :=
  gets (fun _ =>
    match haggle_dataobject_new_from_file fs filename with
    | Some d => '(_, d) ← haggle_dataobject_add_hash uninit_sha fs (Some d); Some d
    | None => haggle_dataobject_new ctx_buf uninit_time
    end).

Definition add_value (d : dataobject) (value : Z) : dataobject :=
  (haggle_dataobject_add_attribute d (Some APP_NAME) (Some (ulong_to_str value))).2.

(** The [while] loop: the values so far, the first one first, and the object; a value that
    was drawn before is drawn again. *)
Fixpoint random_loop (fuel : nat) (values : list Z) (d : dataobject) : LM (list Z * dataobject) :=
  match fuel with
  | O => undefined
  | S fuel =>
    if Z.of_nat (length values) <? num_dataobject_attributes then
      r ← luckyme_prng_uint32;
      if attribute_pool_size =? 0 then undefined else
      let value := r `mod` attribute_pool_size in
      if bool_decide (value ∈ values) then random_loop fuel values d
      else random_loop fuel (values ++ [value]) (add_value d value)
    else mret (values, d)
  end.

(** The time, the send, and the count. *)
Definition publish (d : dataobject) : LM unit :=
  d ← luckyme_dataobject_set_createtime d;
  _ ← on_world (haggle_ipc_publish_dataobject sendto_ok errno now ctx_buf uninit_time hh d);
  modify (fun s => Some (with_created s (u64 (lm_created s + 1)))).

(** Each turn of the loop draws at least once, so there are no more turns than draws. *)
Definition create_dataobject_random : LM Z :=
  if num_dataobject_attributes =? 0 then mret (-1) else
  d ← base_dataobject;
  match d with
  | None => mret (-1)
  | Some d =>
    draws ← gets (fun s => Some (length (lm_rand s)));
    '(_, d) ← random_loop (S draws) [] d;
    _ ← publish d;
    mret 1
  end.

(** The attributes of the grid: the bits of the number of objects created.  [1 << (2 *
    grid_size)], which nothing uses, is a shift of an [int]. *)
Definition grid_attributes (created : Z) (d : dataobject) : dataobject :=
  fold_left (fun d i => if Z.testbit created i then add_value d i else d) [0; 1; 2; 3; 4; 5] d.
Definition create_dataobject_grid : LM Z :=
  if 31 <=? u64 (2 * grid_size) then undefined else
  d ← base_dataobject;
  match d with
  | None => mret (-1)
  | Some d =>
    created ← gets (fun s => Some (lm_created s));
    _ ← publish (grid_attributes created d);
    mret 1
  end.

(** ** Event handlers *)

(** The raw document is only asked for to be printed. *)
Definition on_dataobject (d : dataobject) : LM Z :=
  _ ← modify (fun s => Some (with_received s (u64 (lm_received s + 1))));
  _ ← gets (fun _ => haggle_dataobject_get_raw (Some d));
  mret 0.

Definition neighbor_list_clear : LM unit := fun s => Some (tt, with_neighbors s 0 None).

(** [strlen] of a node without a name is undefined. *)
Fixpoint node_names (l : list node) : option (list string) :=
  match l with [] => Some [] | n :: l => s ← haggle_node_get_name (Some n); ss ← node_names l; Some (s :: ss) end.
Definition on_neighbor_update (nl : nodelist) : LM Z :=
  _ ← neighbor_list_clear;
  let num := haggle_nodelist_size (Some nl) in
  _ ← (if num >? 0 then names ← gets (fun _ => node_names (nl_nodes nl)); modify (fun s => Some (with_neighbors s num (Some names)))
       else modify (fun s => Some (with_neighbors s num None)));
  mret 0.

Definition on_shutdown : LM Z := fun s => Some (0, with_stop_now s).

(** New interests only when there are none yet. *)
Definition on_interests (interests : list attr) : LM Z :=
  match seq_find APP_NAME interests with
  | Some _ => mret 0
  | None => _ ← (if grid_size >? 0 then create_interest_grid else create_interest_binomial); mret 0
  end.

Definition on_event_loop_start : LM unit :=
  _ ← on_world (haggle_ipc_get_application_interests_async sendto_ok errno now ctx_buf uninit_time hh); mret tt.

(** ** The main loop *)

(** [while (milliseconds >= 1000)]. *)
Fixpoint milliseconds_loop (fuel : nat) (sec milliseconds : Z) : option (Z * Z) :=
  match fuel with
  | O => None
  | S fuel => if 1000 <=? milliseconds then milliseconds_loop fuel (sec + 1) (milliseconds - 1000) else Some (sec, milliseconds)
  end.
Definition milliseconds_to_timeval (milliseconds : Z) : option (Z * Z) := milliseconds_loop (S (Z.to_nat milliseconds)) 0 milliseconds.

(** What [select] answers: an error (is it [EINTR]?), a timeout, or a byte in the pipe,
    which its writers, [on_shutdown] and [signal_handler], write after [stop_now]. *)
Inductive wait_answer := WaitFailed (eintr : bool) | WaitElapsed | WaitSignal.

(** How far the loop comes: it ended, or it waits. *)
Fixpoint test_loop (inputs : list wait_answer) : LM bool := fun s =>
  if lm_stop_now s then Some (true, s) else
  match inputs with
  | [] => Some (false, s)
  | i :: inputs =>
    match i with
    | WaitFailed eintr => test_loop inputs (if eintr : bool then s else with_stop_now s)
    | WaitElapsed =>
      (_ ← (if ((num_dataobjects =? 0) || (lm_created s <? num_dataobjects)) &&
               (match single_source_name with None => true | Some n => strcmp hostname n =? 0 end)
            then (if grid_size >? 0 then create_dataobject_grid else create_dataobject_random) else mret 0);
       test_loop inputs) s
    | WaitSignal => test_loop inputs (with_stop_now s)
    end
  end.

(** The number after the first dash of the host name: the loop runs from the end and the
    last dash it meets, the first one of the name, wins. *)
Fixpoint node_number_loop (i : nat) (hostname : string) (node_number : Z) : Z :=
  match i with
  | O => node_number
  | S i => node_number_loop i hostname
             (match String.get i hostname with
              | Some a => if bool_decide (a = "-"%char) then strtoul (String.substring (S i) (String.length hostname) hostname) else node_number
              | None => node_number end)
  end.
Definition node_number_of (hostname : string) : Z := node_number_loop (String.length hostname) hostname 0.
End LuckyMe.

(** ** Random objects *)

Section Random.
Context (attribute_pool_size num_dataobject_attributes : Z) (repeatableSeed : bool) (Hpool : 0 < attribute_pool_size).

(** The values that successive draws give, and the numbers left. *)
Inductive drawn : list Z → list Z → list Z → Prop :=
  | drawn_nil l : drawn l [] l
  | drawn_cons l r l1 vs l2 : draw repeatableSeed l = Some (r, l1) → drawn l1 vs l2 → drawn l (r :: vs) l2.

Lemma draw_shorter l r l1 : draw repeatableSeed l = Some (r, l1) → 0 <= r ∧ (S (length l1) <= length l)%nat.
Proof.
  unfold draw, prng_uint32, random. intros H.
  destruct repeatableSeed, l as [|r1 [|r2 l]]; cbn [mbind option_bind] in H; try done; injection H as <- <-;
    (split; [apply u32_range|simpl; lia]).
Qed.
Lemma drawn_shorter l vs l2 : drawn l vs l2 → (length vs + length l2 <= length l)%nat.
Proof. induction 1 as [|l r l1 vs l2 Hd _ IH]; [simpl; lia|]. apply draw_shorter in Hd as [_ Hd]. simpl. lia. Qed.

Definition residues (vs : list Z) : gset Z := list_to_set (map (fun v => v `mod` attribute_pool_size) vs).
Definition value_attr (v : Z) : attr := MkAttr APP_NAME (ulong_to_str v) 1.

Lemma loop_turn fuel values d s r l1 :
  Z.of_nat (length values) < num_dataobject_attributes → draw repeatableSeed (lm_rand s) = Some (r, l1) →
  random_loop attribute_pool_size num_dataobject_attributes repeatableSeed (S fuel) values d s =
  let value := r `mod` attribute_pool_size in
  if bool_decide (value ∈ values)
  then random_loop attribute_pool_size num_dataobject_attributes repeatableSeed fuel values d (with_rand s l1)
  else random_loop attribute_pool_size num_dataobject_attributes repeatableSeed fuel (values ++ [value]) (add_value d value) (with_rand s l1).
Proof using Hpool.
  intros Hlt Hd. cbn [random_loop]. destruct (Z.ltb_spec (Z.of_nat (length values)) num_dataobject_attributes); [|lia].
  assert (E : luckyme_prng_uint32 repeatableSeed s = Some (r, with_rand s l1)) by (unfold luckyme_prng_uint32; by rewrite Hd).
  rewrite (bind_run _ _ _ _ _ E). destruct (Z.eqb_spec attribute_pool_size 0); [lia|]. cbv zeta. by case_bool_decide.
Qed.

Lemma loop_stop fuel values d s :
  num_dataobject_attributes <= Z.of_nat (length values) →
  random_loop attribute_pool_size num_dataobject_attributes repeatableSeed (S fuel) values d s = Some ((values, d), s).
Proof. intros H. cbn [random_loop]. destruct (Z.ltb_spec (Z.of_nat (length values)) num_dataobject_attributes); [lia|done]. Qed.

(** What the loop keeps: distinct values of the pool, at most as many as asked for. *)
Definition pool_values (values : list Z) : Prop :=
  NoDup values ∧ Forall (fun v => 0 <= v < attribute_pool_size) values ∧ Z.of_nat (length values) <= num_dataobject_attributes.

Lemma pool_values_snoc values r :
  pool_values values → Z.of_nat (length values) < num_dataobject_attributes → r `mod` attribute_pool_size ∉ values →
  pool_values (values ++ [r `mod` attribute_pool_size]).
Proof using Hpool.
  intros (H1 & H2 & H3) Hlt Hr. split; [|split].
  - apply NoDup_app. split; [done|]. split; [|apply NoDup_singleton]. intros x Hx ->%list_elem_of_singleton. done.
  - apply Forall_app. split; [done|]. constructor; [|constructor]. by apply Z.mod_pos_bound.
  - rewrite length_app. simpl. lia.
Qed.

Lemma random_loop_enough vs : ∀ fuel values d s l2,
  drawn (lm_rand s) vs l2 → (length vs < fuel)%nat → pool_values values →
  num_dataobject_attributes <= Z.of_nat (size (list_to_set values ∪ residues vs)) →
  ∃ new l1, random_loop attribute_pool_size num_dataobject_attributes repeatableSeed fuel values d s =
    Some ((values ++ new, foldl add_value d new), with_rand s l1) ∧
    pool_values (values ++ new) ∧ Z.of_nat (length (values ++ new)) = num_dataobject_attributes.
Proof using Hpool.
  induction vs as [|v vs IH]; intros fuel values d s l2 Hdr Hf Hv Hn.
  all: destruct fuel as [|fuel]; [simpl in Hf; lia|].
  all: destruct (Z.ltb_spec (Z.of_nat (length values)) num_dataobject_attributes) as [Hlt|Hge].
  2, 4: exists [], (lm_rand s); rewrite loop_stop, app_nil_r by done; split; [by destruct s|]; split; [done|];
        destruct Hv as (_ & _ & ?); lia.
  - exfalso. unfold residues in Hn. cbn [map list_to_set] in Hn. rewrite union_empty_r_L, size_list_to_set in Hn by apply Hv. lia.
  - inversion Hdr as [|? ? l1 ? ? Hd Hdr']; subst. rewrite (loop_turn _ _ _ _ _ _ Hlt Hd). cbv zeta. case_bool_decide as Hin.
    + destruct (IH fuel values d (with_rand s l1) l2 Hdr') as (new & l3 & E & H); [simpl in Hf; lia|done| |].
      * etrans; [exact Hn|]. apply Nat2Z.inj_le, subseteq_size. unfold residues. cbn [map list_to_set]. set_solver.
      * exists new, l3. rewrite E. split; [done|exact H].
    + destruct (IH fuel (values ++ [v `mod` attribute_pool_size]) (add_value d (v `mod` attribute_pool_size)) (with_rand s l1) l2 Hdr')
        as (new & l3 & E & H); [simpl in Hf; lia|by apply pool_values_snoc| |].
      * etrans; [exact Hn|]. apply Nat2Z.inj_le, subseteq_size. unfold residues. cbn [map list_to_set]. rewrite list_to_set_app. set_solver.
      * exists (v `mod` attribute_pool_size :: new), l3. rewrite <- app_assoc in E, H. split; [exact E|exact H].
Qed.

Lemma add_values_al new : ∀ d, d_al (foldl add_value d new) ≡ₚ map value_attr new ++ d_al d.
Proof.
  induction new as [|v new IH]; intros d; [done|]. cbn [foldl map app]. rewrite IH.
  change (d_al (add_value d v)) with (seq_insert (value_attr v) (d_al d)). rewrite seq_insert_perm. by rewrite Permutation_middle.
Qed.

(** With fewer values in the pool than asked for, the loop draws for ever: whatever numbers
    it is given, it asks for another. *)
Lemma random_loop_stuck fuel : ∀ values d s, attribute_pool_size < num_dataobject_attributes → pool_values values →
  random_loop attribute_pool_size num_dataobject_attributes repeatableSeed fuel values d s = None.
Proof using Hpool.
  induction fuel as [|fuel IH]; intros values d s Hlt Hv; [done|].
  assert (Hl : Z.of_nat (length values) < num_dataobject_attributes).
  { destruct Hv as (Hnd & Hr & _). enough (length values <= Z.to_nat attribute_pool_size)%nat by lia.
    rewrite <- (length_seqZ 0 attribute_pool_size). apply submseteq_length, NoDup_submseteq; [done|].
    intros x Hx. rewrite Forall_forall in Hr. apply elem_of_seqZ. specialize (Hr x Hx). lia. }
  destruct (draw repeatableSeed (lm_rand s)) as [[r l1]|] eqn:Hd.
  - rewrite (loop_turn _ _ _ _ _ _ Hl Hd). cbv zeta. case_bool_decide as Hin; apply IH; try done. by apply pool_values_snoc.
  - cbn [random_loop]. destruct (Z.ltb_spec (Z.of_nat (length values)) num_dataobject_attributes); [|lia].
    unfold luckyme_prng_uint32, mbind at 1, M_bind. rewrite Hd. done.
Qed.
End Random.

Section Objects.
Context {A : Type} {C : MetadataCodec}.
Context (sendto_ok : nat → bool) (errno : Z) (now : Z * Z) (ctx_buf : list Z) (uninit_time : Z * Z) (uninit_sha : SHA1Context) (fs : files).
Context (hh : option (@haggle_handle A)) (grid_size attribute_pool_size num_dataobject_attributes num_dataobjects : Z).
Context (repeatableSeed : bool) (filename single_source_name : option string) (hostname : string) (node_number : Z).

Lemma create_random_unfold d s :
  base_dataobject ctx_buf uninit_time uninit_sha fs filename s = Some (Some d, s) → num_dataobject_attributes ≠ 0 →
  create_dataobject_random sendto_ok errno now ctx_buf uninit_time uninit_sha fs hh attribute_pool_size num_dataobject_attributes
    repeatableSeed filename node_number s =
  ('(_, d) ← random_loop attribute_pool_size num_dataobject_attributes repeatableSeed (S (length (lm_rand s))) [] d;
   _ ← publish sendto_ok errno now ctx_buf uninit_time hh repeatableSeed node_number d; mret 1) s.
Proof.
  intros Hb Hn. unfold create_dataobject_random. destruct (Z.eqb_spec num_dataobject_attributes 0); [done|].
  rewrite (bind_run _ _ _ _ _ Hb). done.
Qed.

(** As soon as the numbers drawn have enough different residues, a random data object
    is made: it gets exactly [num_dataobject_attributes] different values of the pool, and
    is published.  (With a smaller pool than that it never is: [create_dataobject_random_stuck].) *)
Theorem create_dataobject_random_returns d s vs l2 :
  0 < attribute_pool_size → 0 < num_dataobject_attributes →
  base_dataobject ctx_buf uninit_time uninit_sha fs filename s = Some (Some d, s) →
  drawn repeatableSeed (lm_rand s) vs l2 →
  num_dataobject_attributes <= Z.of_nat (size (residues attribute_pool_size vs)) →
  ∃ values d' l1, NoDup values ∧ Z.of_nat (length values) = num_dataobject_attributes ∧
    Forall (fun v => 0 <= v < attribute_pool_size) values ∧ d_al d' ≡ₚ map value_attr values ++ d_al d ∧
    create_dataobject_random sendto_ok errno now ctx_buf uninit_time uninit_sha fs hh attribute_pool_size num_dataobject_attributes
      repeatableSeed filename node_number s =
    (_ ← publish sendto_ok errno now ctx_buf uninit_time hh repeatableSeed node_number d'; mret 1) (with_rand s l1).
Proof.
  intros Hp Hn Hb Hdr Hs. rewrite (create_random_unfold d s Hb) by lia.
  destruct (random_loop_enough attribute_pool_size num_dataobject_attributes repeatableSeed Hp vs (S (length (lm_rand s))) [] d s l2 Hdr)
    as (new & l1 & E & (H1 & H2 & _) & H4).
  - apply drawn_shorter in Hdr. lia.
  - split; [constructor|]. split; [constructor|]. simpl. lia.
  - etrans; [exact Hs|]. apply Nat2Z.inj_le, subseteq_size. set_solver.
  - rewrite (bind_run _ _ _ _ _ E). exists new, (foldl add_value d new), l1. split_and!; try done. apply add_values_al.
Qed.

Lemma create_dataobject_random_stuck d s :
  0 < attribute_pool_size < num_dataobject_attributes →
  base_dataobject ctx_buf uninit_time uninit_sha fs filename s = Some (Some d, s) →
  create_dataobject_random sendto_ok errno now ctx_buf uninit_time uninit_sha fs hh attribute_pool_size num_dataobject_attributes
    repeatableSeed filename node_number s = None.
Proof.
  intros Hp Hb. rewrite (create_random_unfold d s Hb) by lia. unfold mbind at 1, M_bind.
  rewrite random_loop_stuck; [done|lia|lia|]. split; [constructor|]. split; [constructor|]. simpl. lia.
Qed.

(** ** The main loop *)

Definition frame (s s' : luckyme) : Prop := lm_created s' = lm_created s.

Lemma base_frame s d s' : base_dataobject ctx_buf uninit_time uninit_sha fs filename s = Some (d, s') → s' = s.
Proof.
  unfold base_dataobject. intros H. by apply gets_some in H as [_ ->].
Qed.
Lemma prng_frame s r s' : luckyme_prng_uint32 repeatableSeed s = Some (r, s') → frame s s'.
Proof.
  unfold luckyme_prng_uint32. destruct (draw repeatableSeed (lm_rand s)) as [[r1 l]|]; [|done]. cbn [mbind option_bind]. by intros [= <- <-].
Qed.
Lemma random_loop_frame fuel : ∀ values d s r s',
  random_loop attribute_pool_size num_dataobject_attributes repeatableSeed fuel values d s = Some (r, s') → frame s s'.
Proof.
  induction fuel as [|fuel IH]; intros values d s r s' H; [done|]. cbn [random_loop] in H.
  destruct (_ <? _) in H; [|by injection H as <- <-].
  apply bind_some in H as (b & s1 & Hp%prng_frame & H). unfold frame in *. rewrite <- Hp.
  destruct (_ =? _) in H; [done|]. case_bool_decide; by apply IH in H.
Qed.
Lemma publish_created d s r s' :
  publish sendto_ok errno now ctx_buf uninit_time hh repeatableSeed node_number d s = Some (r, s') →
  lm_created s' = u64 (lm_created s + 1).
Proof.
  unfold publish. intros H. apply bind_some in H as (d1 & s1 & H1 & H). injection H1 as <- <-.
  apply bind_some in H as (b & s2 & H2 & H). unfold on_world in H2.
  destruct (haggle_ipc_publish_dataobject _ _ _ _ _ _ _ _) as [[b' w]|]; [|done]. cbn [mbind option_bind] in H2. injection H2 as <- <-.
  unfold modify in H. cbn [mbind option_bind] in H. by injection H as <- <-.
Qed.

(** Creating an object counts it, if one is created. *)
Definition counted (s s' : luckyme) : Prop := lm_created s' = lm_created s ∨ lm_created s' = u64 (lm_created s + 1).

Lemma create_random_counted s r s' :
  create_dataobject_random sendto_ok errno now ctx_buf uninit_time uninit_sha fs hh attribute_pool_size num_dataobject_attributes
    repeatableSeed filename node_number s = Some (r, s') → counted s s'.
Proof.
  unfold create_dataobject_random. destruct (_ =? _); [intros [= <- <-]; by left|]. intros H.
  apply bind_some in H as (d & s1 & ->%base_frame & H). destruct d as [d|]; [|injection H as <- <-; by left].
  apply bind_some in H as (n & s1 & H1 & H). injection H1 as <- <-.
  apply bind_some in H as ([vs d'] & s1 & H1%random_loop_frame & H).
  apply bind_some in H as (u & s2 & H2%publish_created & H). injection H as <- <-. right. by rewrite H2, H1.
Qed.
Lemma create_grid_counted s r s' :
  create_dataobject_grid sendto_ok errno now ctx_buf uninit_time uninit_sha fs hh grid_size repeatableSeed filename node_number s =
  Some (r, s') → counted s s'.
Proof.
  unfold create_dataobject_grid. destruct (_ <=? _); [done|]. intros H.
  apply bind_some in H as (d & s1 & ->%base_frame & H). destruct d as [d|]; [|injection H as <- <-; by left].
  apply bind_some in H as (n & s1 & H1 & H). injection H1 as <- <-.
  apply bind_some in H as (u & s2 & H2%publish_created & H). injection H as <- <-. by right.
Qed.

(** However the waits of the main loop end, no more than [num_dataobjects] objects are
    created; a node that is not the single source creates none and leaves the world alone;
    and the loop is over once the signal is read. *)
Theorem test_loop_limit inputs : ∀ s b s',
  0 < num_dataobjects < 2 ^ 64 → 0 <= lm_created s <= num_dataobjects →
  test_loop sendto_ok errno now ctx_buf uninit_time uninit_sha fs hh grid_size attribute_pool_size num_dataobject_attributes num_dataobjects
    repeatableSeed filename single_source_name hostname node_number inputs s = Some (b, s') →
  0 <= lm_created s' <= num_dataobjects ∧
  (∀ n, single_source_name = Some n → n ≠ hostname → lm_created s' = lm_created s ∧ lm_world s' = lm_world s) ∧
  (WaitSignal ∈ inputs → b = true).
Proof.
  induction inputs as [|i inputs IH]; intros s b s' Hn Hc H; cbn [test_loop] in H.
  all: destruct (lm_stop_now s); [by injection H as <- <-|].
  { injection H as <- <-. split_and!; [lia|lia|done|]. by intros ?%elem_of_nil. }
  assert (Hstep : ∀ s1, 0 <= lm_created s1 <= num_dataobjects →
     (∀ n, single_source_name = Some n → n ≠ hostname → lm_created s1 = lm_created s ∧ lm_world s1 = lm_world s) → i ≠ WaitSignal →
     test_loop sendto_ok errno now ctx_buf uninit_time uninit_sha fs hh grid_size attribute_pool_size num_dataobject_attributes num_dataobjects
       repeatableSeed filename single_source_name hostname node_number inputs s1 = Some (b, s') →
     0 <= lm_created s' <= num_dataobjects ∧
     (∀ n, single_source_name = Some n → n ≠ hostname → lm_created s' = lm_created s ∧ lm_world s' = lm_world s) ∧
     (WaitSignal ∈ i :: inputs → b = true)).
  { intros s1 Hc1 Hs Hi Hr. destruct (IH s1 b s' Hn Hc1 Hr) as (H1 & H2 & H3). split; [done|]. split.
    - intros n En Hne. destruct (H2 n En Hne) as [-> ->]. by apply (Hs n).
    - intros [?|?]%elem_of_cons; [done|]. by apply H3. }
  destruct i as [eintr| |].
  - apply (Hstep (if eintr then s else with_stop_now s)); try done; destruct eintr; done.
  - apply bind_some in H as (r & s1 & H1 & H). apply (Hstep s1); try done.
    + destruct (_ && _) eqn:Eg in H1; [|by injection H1 as <- <-].
      apply andb_true_iff in Eg as [[Eg|Eg]%orb_true_iff _]; [apply Z.eqb_eq in Eg; lia|apply Z.ltb_lt in Eg].
      assert (Hcnt : counted s s1) by (destruct (_ >? _); eauto using create_grid_counted, create_random_counted).
      destruct Hcnt as [-> | ->]; [lia|]. unfold u64. rewrite Z.mod_small; lia.
    + intros n En Hne. rewrite En in H1. destruct (Z.eqb_spec (strcmp hostname n) 0) as [E|_].
      * apply strcmp_eq in E. congruence.
      * rewrite andb_false_r in H1. by injection H1 as <- <-.
  - destruct inputs; cbn [test_loop lm_stop_now with_stop_now] in H; injection H as <- <-; done.
Qed.
End Objects.

(** ** The grid of nodes *)

Lemma ulong_to_str_inj n m : 0 <= n < 2 ^ 64 → 0 <= m < 2 ^ 64 → ulong_to_str n = ulong_to_str m → n = m.
Proof.
  assert (Hl : ∀ k, 0 <= k < 2 ^ 64 → ulong_to_str k = dec k).
  { intros k Hk. unfold ulong_to_str. apply snprintf_id. enough (String.length (dec k) <= 31)%nat by lia.
    apply length_dec; [lia|lia|]. etrans; [apply Hk|]. by vm_compute. }
  intros Hn Hm E. rewrite !Hl in E by done. apply dec_inj in E; lia.
Qed.

Lemma grid_interest_list_elem g a x :
  x ∈ grid_interest_list g a ↔ x = value_attr (u32 (a / g)) ∨ x = value_attr (u32 (a `mod` g + g)).
Proof.
  unfold grid_interest_list, grid_interests, add_interest, value_attr. cbn [fold_left]. rewrite !seq_insert_perm.
  rewrite !elem_of_cons, elem_of_nil. naive_solver.
Qed.

(** In a grid of [g] times [g] nodes two nodes have an interest in common exactly when
    they are in the same row or in the same column. *)
Theorem create_interest_grid_meet g a b :
  0 < g → 2 * g < 2 ^ 32 → 0 <= a < g * g → 0 <= b < g * g →
  (∃ x, x ∈ grid_interest_list g a ∧ x ∈ grid_interest_list g b) ↔ a / g = b / g ∨ a `mod` g = b `mod` g.
Proof.
  intros Hg Hg2 Ha Hb.
  assert (Hr : ∀ c, 0 <= c < g * g → 0 <= c / g < g) by (intros c Hc; split; [apply Z.div_pos; lia|apply Z.div_lt_upper_bound; lia]).
  pose proof (Hr a Ha) as Ra. pose proof (Hr b Hb) as Rb.
  pose proof (Z.mod_pos_bound a g Hg) as Ca. pose proof (Z.mod_pos_bound b g Hg) as Cb.
  assert (Hu : ∀ n, 0 <= n < 2 * g → u32 n = n) by (intros n Hn; apply u32_small; unfold is_u32; lia).
  assert (Hinj : ∀ n m, 0 <= n < 2 * g → 0 <= m < 2 * g → value_attr n = value_attr m → n = m).
  { intros n m Hn Hm E. apply (f_equal av) in E. cbn [av value_attr] in E. apply ulong_to_str_inj in E; lia. }
  setoid_rewrite grid_interest_list_elem. rewrite !Hu by lia. split.
  - intros (x & Hx & Hy). destruct Hx as [-> | ->], Hy as [E|E]; apply Hinj in E; lia.
  - intros [E|E]; rewrite E; eauto.
Qed.

(** [tv_usec] gets milliseconds: the fraction of a second waited is a thousandth of the
    one asked for. *)
Lemma milliseconds_to_timeval_spec ms : 0 <= ms → milliseconds_to_timeval ms = Some (ms / 1000, ms `mod` 1000).
Proof.
  intros Hms. unfold milliseconds_to_timeval.
  enough (H : ∀ fuel sec m, (Z.to_nat m < fuel)%nat → 0 <= m → milliseconds_loop fuel sec m = Some (sec + m / 1000, m `mod` 1000))
    by (rewrite H by lia; done).
  induction fuel as [|fuel IH]; intros sec m Hf Hm; [lia|]. cbn [milliseconds_loop]. destruct (Z.leb_spec 1000 m).
  - rewrite IH by lia. replace m with (m - 1000 + 1 * 1000) at 3 4 by lia. rewrite Z.div_add, Z.mod_add by lia. do 2 f_equal. lia.
  - rewrite Z.div_small, Z.mod_small by lia. do 2 f_equal. lia.
Qed.

(** ** Witnesses *)

#[local] Existing Instance ex_one_document.
Definition ex_lucky (rand : list Z) : luckyme := LuckyMe 0 0 0 None false rand (ex_world []).

Lemma create_dataobject_random_returns_witness :
  ∃ values d' l1, NoDup values ∧ Z.of_nat (length values) = 2 ∧ Forall (fun v => 0 <= v < 10) values ∧
    d_al d' ≡ₚ map value_attr values ++ [] ∧
    create_dataobject_random (fun _ => true) 5 ex_now [0; 0; 0; 0] (0, 0) ex_sha ∅ (Some ex_handle) 10 2 true None 7 (ex_lucky [13; 23; 4]) =
    (_ ← publish (fun _ => true) 5 ex_now [0; 0; 0; 0] (0, 0) (Some ex_handle) true 7 d'; mret 1) (with_rand (ex_lucky [13; 23; 4]) l1).
Proof.
  pose proof (create_dataobject_random_returns (fun _ => true) 5 ex_now [0; 0; 0; 0] (0, 0) ex_sha ∅ (Some ex_handle) 10 2 true None 7
    (haggle_dataobject_set_flags (zero_dataobject (md_new HAGGLE_TAG None)) DATAOBJECT_FLAG_PERSISTENT).2 (ex_lucky [13; 23; 4]) [13; 23; 4] []) as D.
  apply D; [lia|lia|reflexivity| |vm_compute; discriminate].
  repeat (eapply drawn_cons; [reflexivity|]). apply drawn_nil.
Defined.

Lemma create_interest_grid_meet_witness : ∃ x, x ∈ grid_interest_list 3 4 ∧ x ∈ grid_interest_list 3 7.
Proof. apply (create_interest_grid_meet 3 4 7); [lia|lia|lia|lia|]. right. reflexivity. Defined.

Lemma test_loop_limit_witness : ∃ b s',
  test_loop (fun _ => true) 5 ex_now [0; 0; 0; 0] (0, 0) ex_sha ∅ (Some ex_handle) 0 10 2 1 true None (Some "n2") "n1" 7 [WaitElapsed; WaitSignal]
    (ex_lucky []) = Some (b, s') ∧ 0 <= lm_created s' <= 1 ∧ lm_world s' = ex_world [] ∧ b = true.
Proof.
  eexists _, _. split; [reflexivity|].
  pose proof (test_loop_limit (fun _ => true) 5 ex_now [0; 0; 0; 0] (0, 0) ex_sha ∅ (Some ex_handle) 0 10 2 1 true None (Some "n2") "n1" 7
    [WaitElapsed; WaitSignal] (ex_lucky [])) as D.
  edestruct D as (H1 & H2 & H3); [lia|simpl; lia|reflexivity|]. split; [exact H1|]. split; [|reflexivity].
  by apply (H2 "n2").
Defined.
