(* ===== verification/Galois.v ===== *)
(** * Galois: the field of 256 elements of the network coding ([networkcoding/galois.h]), and
    linear combinations over it.

    [Init] fills two tables, of logarithms and of powers of the generator 2; [Mul] and [Div] look
    up.  The arrays start uninitialised: an element that was never written, or is outside, cannot
    be read.  The theorem of the file is that the lookups never go wrong and make the bytes a
    field: it rests on checks of the tables of at most 512 steps, and on algebra, since
    multiplying by 2 commutes with exclusive or.

    The second half is about vectors: what the encoder sends is a linear combination of the
    blocks, and [NetworkCoding] solves for them. *)

From S2P Require Import Prelude.

Definition GF8 : Z := 256.
(** Octal 0435. *)
Definition PP8 : Z := 285.

Record galois := Galois { Log : list (option Z); ALog : list (option Z) }.

(** ** The tables *)

Definition rd (a : list (option Z)) (i : Z) : option Z := if i <? 0 then None else mjoin (a !! Z.to_nat i).
Definition wr (a : list (option Z)) (i v : Z) : option (list (option Z)) :=
  if (0 <=? i) && (i <? Z.of_nat (length a)) then Some (<[Z.to_nat i := Some (u8 v)]> a) else None.

(** [n] rounds from [j]. *)
Fixpoint clear_loop (n : nat) (j : Z) (g : galois) : option galois :=
  match n with
  | O => Some g
  | S n => l ← wr (Log g) j (GF8 - 1); al ← wr (ALog g) j 0; clear_loop n (j + 1) (Galois l al)
  end.
Definition next_power (b : Z) : Z :=
  let b := b * 2 in if Z.land b GF8 =? 0 then b else Z.land (Z.lxor b PP8) (GF8 - 1).
Fixpoint power_loop (n : nat) (j b : Z) (g : galois) : option galois :=
  match n with
  | O => Some g
  | S n => l ← wr (Log g) b j; al ← wr (ALog g) j b; power_loop n (j + 1) (next_power b) (Galois l al)
  end.
Fixpoint repeat_loop (n : nat) (j : Z) (g : galois) : option galois :=
  match n with
  | O => Some g
  | S n => v ← rd (ALog g) (j `mod` (GF8 - 1)); al ← wr (ALog g) j v; repeat_loop n (j + 1) (Galois (Log g) al)
  end.
Definition Init : option galois :=
  let g := Galois (replicate 256 None) (replicate 512 None) in
  g ← clear_loop 256 0 g;
  g ← power_loop 255 0 1 g;
  g ← repeat_loop 254 255 g;
  v ← rd (ALog g) 254; al ← wr (ALog g) ((GF8 - 1) * 2 - 1) v; Some (Galois (Log g) al).

Definition Add (a b : Z) : Z := Z.lxor a b.
Definition Sub (a b : Z) : Z := Z.lxor a b.
Definition Mul (g : galois) (a b : Z) : option Z :=
  if (a =? 0) || (b =? 0) then Some 0 else la ← rd (Log g) a; lb ← rd (Log g) b; rd (ALog g) (la + lb).
Definition Div (g : galois) (a b : Z) : option Z :=
  if (a =? 0) || (b =? 0) then Some 0 else la ← rd (Log g) a; lb ← rd (Log g) b; rd (ALog g) (la - lb + GF8 - 1).

(** The tables that [Init] leaves. *)
Definition gf : galois := Eval vm_compute in default (Galois [] []) Init.
Lemma Init_run : Init = Some gf.
Proof. vm_compute. reflexivity. Qed.

(** ** Powers of the generator *)

Fixpoint pow2 (n : nat) (b : Z) : Z := match n with O => b | S n => pow2 n (next_power b) end.
Fixpoint powers (n : nat) (b : Z) : list Z := match n with O => [] | S n => b :: powers n (next_power b) end.

Lemma lookup_powers n b j : (j < n)%nat → powers n b !! j = Some (pow2 j b).
Proof. revert b j. induction n as [|n IH]; intros b [|j] Hj; [lia..|done|]. cbn. apply IH. lia. Qed.
Lemma pow2_add m n b : pow2 (m + n) b = pow2 m (pow2 n b).
Proof. revert b. induction n as [|n IH]; intros b; [by rewrite Nat.add_0_r|]. rewrite Nat.add_succ_r. apply IH. Qed.

(** Multiplication by 2 is linear. *)
Lemma next_power_alt b : is_byte b → next_power b = Z.lxor (b * 2) (if Z.testbit b 7 then PP8 else 0).
Proof.
  unfold is_byte. intros Hb. unfold next_power, GF8. change 256 with (2 ^ 8).
  assert (E : Z.land (b * 2) (2 ^ 8) = if Z.testbit b 7 then 2 ^ 8 else 0).
  { apply Z.bits_inj'. intros n Hn. rewrite Z.land_spec, Z.pow2_bits_eqb by lia.
    destruct (Z.eqb_spec 8 n) as [<-|Hne].
    - change 8 with (Z.succ 7). rewrite Z.mul_comm, Z.double_bits_succ. by destruct (Z.testbit b 7).
    - rewrite andb_false_r. destruct (Z.testbit b 7); [|by rewrite Z.bits_0]. rewrite Z.pow2_bits_false by lia. done. }
  cbv zeta. rewrite E. destruct (Z.testbit b 7) eqn:H7; [|by rewrite Z.lxor_0_r].
  change (2 ^ 8 =? 0) with false. cbv iota. rewrite land_ones_mod by lia.
  assert (128 <= b) as Hb'.
  { destruct (Z.le_gt_cases 128 b) as [|Hlt]; [done|]. rewrite Z.bits_above_log2 in H7; [done|lia|].
    destruct (decide (b = 0)) as [->|]; [done|]. apply Z.log2_lt_pow2; lia. }
  apply Z.bits_inj'. intros n Hn. destruct (Z.lt_ge_cases n 8) as [|Hn8]; [by rewrite Z.mod_pow2_bits_low|].
  rewrite Z.mod_pow2_bits_high, Z.lxor_spec by lia. destruct (decide (n = 8)) as [->|].
  - change 8 with (Z.succ 7) at 1. by rewrite Z.mul_comm, Z.double_bits_succ, H7.
  - rewrite !Z.bits_above_log2; [done|done| |lia|].
    + change (Z.log2 PP8) with 8. lia.
    + apply Z.log2_lt_pow2; [lia|]. pose proof (Z.pow_le_mono_r 2 9 n). lia.
Qed.
Lemma next_power_range b : is_byte b → is_byte (next_power b).
Proof.
  unfold is_byte, next_power, GF8. intros Hb. destruct (Z.land (b * 2) 256 =? 0) eqn:E.
  - assert (b < 128); [|lia]. destruct (Z.le_gt_cases 128 b) as [H|]; [|done].
    assert (Z.testbit (Z.land (b * 2) 256) 8 = true) as E'.
    { rewrite Z.land_spec. change 8 with (Z.succ 7) at 1. rewrite Z.mul_comm, Z.double_bits_succ.
      change (Z.testbit 256 8) with true. rewrite andb_true_r. rewrite Z.testbit_true by lia.
      replace (b / 2 ^ 7) with 1; [done|]. change (2 ^ 7) with 128. apply (Z.div_unique b 128 1 (b - 128)); lia. }
    apply Z.eqb_eq in E. by rewrite E in E'.
  - change (256 - 1) with (2 ^ 8 - 1). rewrite land_ones_mod by lia. apply Z.mod_pos_bound. lia.
Qed.
Lemma lxor_byte a b : is_byte a → is_byte b → is_byte (Z.lxor a b).
Proof. intros. apply (lxor_range a b 8); done. Qed.
Lemma next_power_lxor a b : is_byte a → is_byte b → next_power (Z.lxor a b) = Z.lxor (next_power a) (next_power b).
Proof.
  intros Ha Hb. rewrite !next_power_alt by (done || by apply lxor_byte).
  rewrite Z.lxor_spec. assert (E : Z.lxor a b * 2 = Z.lxor (a * 2) (b * 2)) by (by rewrite <- !(Z.shiftl_mul_pow2 _ 1), Z.shiftl_lxor by lia).
  rewrite E.
  apply Z.bits_inj'. intros n _. destruct (Z.testbit a 7), (Z.testbit b 7); cbn [xorb];
    rewrite !Z.lxor_spec, ?Z.bits_0; destruct (Z.testbit (a * 2) n), (Z.testbit (b * 2) n), (Z.testbit PP8 n); reflexivity.
Qed.
Lemma next_power_0 : next_power 0 = 0.
Proof. done. Qed.

Lemma pow2_range n b : is_byte b → is_byte (pow2 n b).
Proof. revert b. induction n as [|n IH]; intros b Hb; [done|]. apply IH. by apply next_power_range. Qed.
Lemma pow2_lxor n a b : is_byte a → is_byte b → pow2 n (Z.lxor a b) = Z.lxor (pow2 n a) (pow2 n b).
Proof.
  revert a b. induction n as [|n IH]; intros a b Ha Hb; [done|]. cbn [pow2]. rewrite next_power_lxor by done.
  apply IH; by apply next_power_range.
Qed.
Lemma pow2_0 n : pow2 n 0 = 0.
Proof. induction n as [|n IH]; [done|]. exact IH. Qed.

Definition exp (n : nat) : Z := pow2 n 1.
Definition lg (a : Z) : nat := Z.to_nat (default 0 (rd (Log gf) a)).

(** ** What the tables hold *)

Lemma table_alog : take 510 (ALog gf) = Some <$> powers 510 1.
Proof. vm_compute. reflexivity. Qed.
Definition log_ok (a : Z) : bool :=
  match rd (Log gf) a with Some l => (0 <=? l) && (l <? 255) && (exp (Z.to_nat l) =? a) | None => false end.
Lemma table_log : forallb log_ok (Z.of_nat <$> seq 1 255) = true.
Proof. vm_compute. reflexivity. Qed.
Lemma table_exp : forallb (λ n, (lg (exp n) =? n)%nat && negb (exp n =? 0)) (seq 0 255) = true.
Proof. vm_compute. reflexivity. Qed.
Lemma exp_255 : exp 255 = 1.
Proof. vm_compute. reflexivity. Qed.

Lemma alog_exp n : (n < 510)%nat → rd (ALog gf) (Z.of_nat n) = Some (exp n).
Proof.
  intros Hn. unfold rd. rewrite (proj2 (Z.ltb_ge _ _)), Nat2Z.id by lia.
  assert (E : take 510 (ALog gf) !! n = Some (Some (exp n))) by by rewrite table_alog, list_lookup_fmap, lookup_powers.
  rewrite lookup_take_lt in E by done. by rewrite E.
Qed.
Lemma log_spec a : is_byte a → a ≠ 0 → rd (Log gf) a = Some (Z.of_nat (lg a)) ∧ (lg a < 255)%nat ∧ exp (lg a) = a.
Proof.
  unfold is_byte. intros Ha Hn. pose proof table_log as H. rewrite forallb_forall in H.
  assert (Hin : In a (Z.of_nat <$> seq 1 255)).
  { apply list_elem_of_In, list_elem_of_fmap. exists (Z.to_nat a). split; [lia|]. apply elem_of_seq. lia. }
  specialize (H a Hin). unfold log_ok in H. unfold lg. destruct (rd (Log gf) a) as [l|]; [|done].
  rewrite !andb_true_iff, Z.leb_le, Z.ltb_lt, Z.eqb_eq in H. cbn [default from_option id]. rewrite Z2Nat.id by lia.
  split; [done|]. split; [lia|apply H].
Qed.
Lemma exp_spec n : (n < 255)%nat → lg (exp n) = n ∧ exp n ≠ 0.
Proof.
  intros Hn. pose proof table_exp as H. rewrite forallb_forall in H. specialize (H n). rewrite andb_true_iff, Nat.eqb_eq, negb_true_iff, Z.eqb_neq in H.
  apply H, list_elem_of_In, elem_of_seq. lia.
Qed.
Lemma exp_range n : is_byte (exp n).
Proof. apply pow2_range. done. Qed.
Lemma exp_add m n : exp (m + n) = pow2 m (exp n).
Proof. apply pow2_add. Qed.
Lemma pow2_255 b : is_byte b → pow2 255 b = b.
Proof.
  intros Hb. destruct (decide (b = 0)) as [->|Hn]; [apply pow2_0|].
  destruct (log_spec b Hb Hn) as (_ & _ & <-). rewrite <- exp_add, Nat.add_comm, exp_add, exp_255. done.
Qed.
Lemma exp_mod n : exp (n `mod` 255) = exp n.
Proof.
  rewrite (Nat.div_mod_eq n 255) at 2. generalize (n / 255)%nat (n `mod` 255)%nat. intros q r.
  induction q as [|q IH]; [done|]. replace (255 * S q + r)%nat with (255 + (255 * q + r))%nat by lia.
  rewrite exp_add, pow2_255; [done|apply exp_range].
Qed.
Lemma exp_nonzero n : exp n ≠ 0.
Proof. rewrite <- exp_mod. apply exp_spec, Nat.mod_upper_bound. lia. Qed.
Lemma lg_exp n : lg (exp n) = (n `mod` 255)%nat.
Proof. rewrite <- exp_mod. apply exp_spec, Nat.mod_upper_bound. lia. Qed.

(** ** The field *)

Definition gmul (a b : Z) : Z := if (a =? 0) || (b =? 0) then 0 else exp (lg a + lg b).
Definition gdiv (a b : Z) : Z := if (a =? 0) || (b =? 0) then 0 else exp (lg a + 255 - lg b).

Lemma Mul_run a b : is_byte a → is_byte b → Mul gf a b = Some (gmul a b).
Proof.
  intros Ha Hb. unfold Mul, gmul. destruct (Z.eqb_spec a 0) as [|Hna]; [done|]. destruct (Z.eqb_spec b 0) as [|Hnb]; [done|]. cbn [orb].
  destruct (log_spec a Ha Hna) as (-> & ? & _), (log_spec b Hb Hnb) as (-> & ? & _). cbn [mbind option_bind].
  rewrite <- Nat2Z.inj_add. apply alog_exp. lia.
Qed.
Lemma Div_run a b : is_byte a → is_byte b → Div gf a b = Some (gdiv a b).
Proof.
  intros Ha Hb. unfold Div, gdiv. destruct (Z.eqb_spec a 0) as [|Hna]; [done|]. destruct (Z.eqb_spec b 0) as [|Hnb]; [done|]. cbn [orb].
  destruct (log_spec a Ha Hna) as (-> & ? & _), (log_spec b Hb Hnb) as (-> & ? & _). cbn [mbind option_bind].
  unfold GF8. replace (Z.of_nat (lg a) - Z.of_nat (lg b) + 256 - 1) with (Z.of_nat (lg a + 255 - lg b)) by lia. apply alog_exp. lia.
Qed.

Lemma gmul_range a b : is_byte (gmul a b).
Proof. unfold gmul. destruct (_ || _); [done|apply exp_range]. Qed.
Lemma gdiv_range a b : is_byte (gdiv a b).
Proof. unfold gdiv. destruct (_ || _); [done|apply exp_range]. Qed.
Lemma gmul_0_l a : gmul 0 a = 0.
Proof. done. Qed.
Lemma gmul_0_r a : gmul a 0 = 0.
Proof. unfold gmul. by rewrite orb_true_r. Qed.
Lemma gmul_comm a b : gmul a b = gmul b a.
Proof. unfold gmul. by rewrite orb_comm, Nat.add_comm. Qed.
Lemma gmul_nonzero a b : a ≠ 0 → b ≠ 0 → gmul a b = exp (lg a + lg b).
Proof. intros Ha Hb. unfold gmul. by rewrite (proj2 (Z.eqb_neq a 0)), (proj2 (Z.eqb_neq b 0)). Qed.
Lemma gmul_zero a b : gmul a b = 0 ↔ a = 0 ∨ b = 0.
Proof.
  split; [|intros [->| ->]; [done|apply gmul_0_r]]. intros E. destruct (decide (a = 0)) as [|Ha]; [by left|].
  destruct (decide (b = 0)) as [|Hb]; [by right|]. rewrite gmul_nonzero in E by done. by apply exp_nonzero in E.
Qed.

(** Multiplying by [a] is multiplying by 2 [lg a] times. *)
Lemma gmul_pow2 a b : is_byte b → a ≠ 0 → gmul a b = pow2 (lg a) b.
Proof.
  intros Hb Ha. destruct (decide (b = 0)) as [->|Hn]; [by rewrite gmul_0_r, pow2_0|].
  rewrite gmul_nonzero, exp_add by done. by destruct (log_spec b Hb Hn) as (_ & _ & ->).
Qed.
Lemma gmul_lxor a b c : is_byte b → is_byte c → gmul a (Z.lxor b c) = Z.lxor (gmul a b) (gmul a c).
Proof.
  intros Hb Hc. destruct (decide (a = 0)) as [->|Ha]; [done|]. rewrite !gmul_pow2 by (done || by apply lxor_byte). by apply pow2_lxor.
Qed.
Lemma gmul_1 a : is_byte a → gmul 1 a = a.
Proof. intros Ha. by rewrite gmul_pow2. Qed.
Lemma gmul_assoc a b c : is_byte a → is_byte b → is_byte c → gmul a (gmul b c) = gmul (gmul a b) c.
Proof.
  intros Ha Hb Hc. destruct (decide (a = 0)) as [->|Hna]; [done|]. destruct (decide (b = 0)) as [->|Hnb]; [by rewrite gmul_0_l, !gmul_0_r|].
  assert (gmul a b ≠ 0) as Hab by (rewrite gmul_zero; tauto).
  rewrite (gmul_pow2 b c), (gmul_pow2 a (pow2 (lg b) c)), (gmul_pow2 (gmul a b) c) by (done || by apply pow2_range).
  rewrite <- pow2_add, gmul_nonzero, lg_exp by done. destruct (decide (c = 0)) as [->|Hn]; [by rewrite !pow2_0|].
  destruct (log_spec c Hc Hn) as (_ & _ & <-). rewrite <- !exp_add.
  rewrite <- (exp_mod (lg a + lg b + lg c)), <- (exp_mod (_ + lg c)). f_equal. by rewrite Nat.Div0.add_mod_idemp_l.
Qed.

(** Dividing by [b] is multiplying by its inverse. *)
Definition ginv (b : Z) : Z := exp (255 - lg b).
Lemma gmul_inv b : is_byte b → b ≠ 0 → gmul (ginv b) b = 1.
Proof.
  intros Hb Hn. unfold ginv. rewrite gmul_nonzero by (done || apply exp_nonzero). rewrite lg_exp, <- exp_mod, Nat.Div0.add_mod_idemp_l.
  destruct (log_spec b Hb Hn) as (_ & ? & _). replace (255 - lg b + lg b)%nat with 255%nat by lia. done.
Qed.
Lemma gdiv_mul a b : is_byte a → is_byte b → b ≠ 0 → gdiv a b = gmul a (ginv b).
Proof.
  intros Ha Hb Hn. destruct (decide (a = 0)) as [->|Hna]; [done|]. unfold gdiv.
  rewrite (proj2 (Z.eqb_neq a 0)), (proj2 (Z.eqb_neq b 0)) by done. cbn [orb].
  rewrite gmul_nonzero by (done || apply exp_nonzero). unfold ginv. rewrite lg_exp.
  destruct (log_spec b Hb Hn) as (_ & ? & _). rewrite <- exp_mod, <- (exp_mod (lg a + _)). f_equal.
  rewrite Nat.Div0.add_mod_idemp_r. f_equal. lia.
Qed.
Lemma gdiv_cancel a b : is_byte a → is_byte b → b ≠ 0 → gdiv (gmul a b) b = a.
Proof.
  intros Ha Hb Hn. rewrite gdiv_mul by (done || apply gmul_range).
  rewrite <- gmul_assoc by (done || apply exp_range). rewrite (gmul_comm b), gmul_inv, gmul_comm by done. by apply gmul_1.
Qed.
Lemma gdiv_gmul a b c : is_byte a → is_byte b → is_byte c → c ≠ 0 → gdiv (gmul a b) c = gmul (gdiv a c) b.
Proof.
  intros Ha Hb Hc Hn. rewrite !gdiv_mul by (done || apply gmul_range).
  rewrite <- !gmul_assoc by (done || apply exp_range). f_equal. apply gmul_comm.
Qed.

(** Multiplication of polynomials over the bits, modulo the polynomial of [PP8]. *)
Fixpoint poly_mul (n : nat) (a b : Z) : Z :=
  match n with O => 0 | S n => Z.lxor (if Z.odd a then b else 0) (poly_mul n (a / 2) (next_power b)) end.

Lemma gmul_2 a : is_byte a → gmul 2 a = next_power a.
Proof. intros Ha. by rewrite gmul_pow2. Qed.
Lemma next_power_small x : 0 <= x < 128 → next_power x = 2 * x.
Proof.
  intros Hx. rewrite next_power_alt by (unfold is_byte; lia).
  assert (Z.testbit x 7 = false) as ->; [|by rewrite Z.lxor_0_r, Z.mul_comm].
  destruct (decide (x = 0)) as [->|]; [done|]. apply Z.bits_above_log2; [lia|]. apply Z.log2_lt_pow2; [lia|]. change (2 ^ 7) with 128. lia.
Qed.
Lemma gmul_poly n a b : 0 <= a < 2 ^ Z.of_nat n → (n <= 8)%nat → is_byte b → gmul a b = poly_mul n a b.
Proof.
  revert a b. induction n as [|n IH]; intros a b Ha Hn Hb; cbn [poly_mul].
  - assert (a = 0) as -> by (cbn in Ha; lia). done.
  - rewrite Nat2Z.inj_succ, Z.pow_succ_r in Ha by lia.
    assert (0 <= a / 2 < 2 ^ Z.of_nat n) as Hq by (split; [apply Z.div_pos; lia|apply Z.div_lt_upper_bound; lia]).
    assert (2 ^ Z.of_nat n <= 128) as Hp by (apply (Z.pow_le_mono_r 2 _ 7); lia).
    rewrite <- IH by (done || lia || by apply next_power_range).
    assert (Hq' : is_byte (a / 2)) by (unfold is_byte; lia).
    assert (E : gmul (a / 2) (next_power b) = gmul (2 * (a / 2)) b).
    { rewrite <- (gmul_2 b), <- (next_power_small (a / 2)), <- (gmul_2 (a / 2)) by (done || lia).
      rewrite (gmul_comm 2 (a / 2)), gmul_assoc by done. done. }
    rewrite E. assert (Hodd : Z.lxor (if Z.odd a then 1 else 0) (2 * (a / 2)) = a).
    { rewrite (Zdiv2_odd_eqn a) at 3. rewrite Zdiv2_div. apply Z.bits_inj'. intros i Hi. rewrite Z.lxor_spec.
      destruct (decide (i = 0)) as [->|Hi0].
      - rewrite !Z.bit0_odd, Z.odd_add, !Z.odd_mul. by destruct (Z.odd a).
      - replace i with (Z.succ (i - 1)) by lia. destruct (Z.odd a); [|by rewrite Z.testbit_0_l, Z.add_0_r].
        rewrite Z.double_bits_succ, Z.testbit_odd_succ by lia. rewrite Z.bits_above_log2; [done|lia|cbn; lia]. }
    rewrite <- Hodd at 1. rewrite gmul_comm, gmul_lxor, (gmul_comm b (2 * _)).
    + f_equal. destruct (Z.odd a); [rewrite gmul_comm; by apply gmul_1|apply gmul_0_r].
    + by destruct (Z.odd a).
    + unfold is_byte in *. lia.
Qed.

(** C31: multiplication and division by the tables are those of the field of polynomials over the
    bits modulo [PP8], for all bytes, and never read a table outside what [Init] has written: the
    sum of two logarithms and the difference of two, raised by 255, stay below 510.  Results are
    bytes; multiplication commutes, associates, distributes over the exclusive or and has no
    divisors of zero; division undoes it. *)
Theorem galois_field :
  ∃ g, Init = Some g ∧ ∀ a b c, is_byte a → is_byte b → is_byte c →
    ∃ p q, Mul g a b = Some p ∧ Div g a b = Some q ∧ is_byte p ∧ is_byte q ∧ p = poly_mul 8 a b ∧
      Mul g b a = Some p ∧ Mul g 1 a = Some a ∧ (p = 0 ↔ a = 0 ∨ b = 0) ∧
      (b ≠ 0 → Div g p b = Some a ∧ Mul g q b = Some a) ∧
      (x ← Mul g b c; Mul g a x) = Mul g p c ∧
      Mul g a (Add b c) = (y ← Mul g a c; Some (Add p y)).
Proof.
  exists gf. split; [apply Init_run|]. intros a b c Ha Hb Hc. exists (gmul a b), (gdiv a b).
  rewrite (Mul_run a b), (Div_run a b), (Mul_run b a), (Mul_run 1 a), (Mul_run b c), (Mul_run a c) by done. cbn [mbind option_bind].
  unfold Add. rewrite !Mul_run, Div_run by (done || apply gmul_range || apply gdiv_range || by apply lxor_byte).
  split_and!; try done; try apply gmul_range; try apply gdiv_range.
  - by apply gmul_poly.
  - by rewrite gmul_comm.
  - by rewrite gmul_1.
  - apply gmul_zero.
  - intros Hn. rewrite gdiv_cancel by done. split; [done|]. rewrite gdiv_mul, <- gmul_assoc by (done || apply exp_range).
    by rewrite gmul_inv, gmul_comm, gmul_1.
  - by rewrite gmul_assoc.
  - by rewrite gmul_lxor.
Qed.

(** ** Vectors *)

Definition vec (n : nat) (v : list Z) : Prop := length v = n ∧ bytes v.
Definition vzero (n : nat) : list Z := replicate n 0.
Definition vxor (u v : list Z) : list Z := zip_with Z.lxor u v.
Definition vscale (c : Z) (v : list Z) : list Z := gmul c <$> v.

Create HintDb gvec.

Lemma gf_byte_0 : is_byte 0.
Proof. done. Qed.
Lemma vec_lookup n v i : vec n v → (i < n)%nat → ∃ x, v !! i = Some x ∧ is_byte x.
Proof. intros [Hl Hb] Hi. destruct (lookup_lt_is_Some_2 v i) as [x Hx]; [lia|]. exists x. split; [done|]. by rewrite Forall_lookup in Hb; eapply Hb. Qed.
Lemma vec_zero n : vec n (vzero n).
Proof. split; [apply length_replicate|]. by apply Forall_replicate. Qed.
Lemma vec_vxor n u v : vec n u → vec n v → vec n (vxor u v).
Proof.
  intros [Hu Hbu] [Hv Hbv]. split; [unfold vxor; rewrite length_zip_with; lia|]. apply Forall_lookup. intros i x.
  unfold vxor. rewrite lookup_zip_with_Some. intros (a & b & -> & Ha & Hb). rewrite Forall_lookup in Hbu, Hbv. apply lxor_byte; eauto.
Qed.
Lemma vec_vscale n c v : vec n v → vec n (vscale c v).
Proof. intros [Hl _]. split; [unfold vscale; by rewrite length_fmap|]. apply Forall_fmap, Forall_true. intros x. apply gmul_range. Qed.
#[export] Hint Resolve gf_byte_0 gmul_range gdiv_range lxor_byte vec_zero vec_vxor vec_vscale : gvec.

Lemma lookup_vxor u v i x y : u !! i = Some x → v !! i = Some y → vxor u v !! i = Some (Z.lxor x y).
Proof. intros Hx Hy. apply lookup_zip_with_Some. by exists x, y. Qed.
Lemma lookup_vscale c v i : vscale c v !! i = gmul c <$> v !! i.
Proof. apply list_lookup_fmap. Qed.

Lemma vxor_comm u v : vxor u v = vxor v u.
Proof. unfold vxor. revert v. induction u as [|x u IH]; intros [|y v]; cbn; [done..|]. by rewrite Z.lxor_comm, IH. Qed.
Lemma vxor_assoc u v w : vxor u (vxor v w) = vxor (vxor u v) w.
Proof. unfold vxor. revert v w. induction u as [|x u IH]; intros [|y v] [|z w]; cbn; [done..|]. by rewrite Z.lxor_assoc, IH. Qed.
Lemma vxor_0_l n v : length v = n → vxor (vzero n) v = v.
Proof. intros <-. unfold vxor, vzero. induction v as [|x v IH]; cbn; [done|]. by rewrite IH. Qed.
Lemma vxor_0_r n v : length v = n → vxor v (vzero n) = v.
Proof. intros Hl. rewrite vxor_comm. by apply vxor_0_l. Qed.
Lemma vxor_self v : vxor v v = vzero (length v).
Proof. unfold vxor, vzero. induction v as [|x v IH]; cbn; [done|]. by rewrite Z.lxor_nilpotent, IH. Qed.
Lemma vxor_cancel n u v : length u = n → length v = n → vxor u (vxor u v) = v.
Proof. intros Hu Hv. rewrite vxor_assoc, vxor_self. apply vxor_0_l. by rewrite Hv. Qed.
Lemma vxor_swap a b c d : vxor (vxor a b) (vxor c d) = vxor (vxor a c) (vxor b d).
Proof. rewrite <- !vxor_assoc. f_equal. rewrite !vxor_assoc. f_equal. apply vxor_comm. Qed.

Lemma vscale_0 n v : length v = n → vscale 0 v = vzero n.
Proof. intros <-. unfold vscale, vzero. induction v as [|x v IH]; cbn; [done|]. by rewrite IH. Qed.
Lemma vscale_zero n c : vscale c (vzero n) = vzero n.
Proof. unfold vscale, vzero. rewrite fmap_replicate. by rewrite gmul_0_r. Qed.
Lemma vscale_1 v : bytes v → vscale 1 v = v.
Proof. unfold vscale. induction 1 as [|x v Hx _ IH]; cbn; [done|]. by rewrite gmul_1, IH. Qed.
Lemma vscale_vxor c u v : bytes u → bytes v → vscale c (vxor u v) = vxor (vscale c u) (vscale c v).
Proof.
  unfold vscale, vxor. intros Hu. revert v. induction Hu as [|x u Hx _ IH]; intros v Hv; [done|].
  destruct Hv as [|y v Hy Hv]; [done|]. cbn. by rewrite gmul_lxor, IH.
Qed.
Lemma vscale_lxor a b v : is_byte a → is_byte b → vscale (Z.lxor a b) v = vxor (vscale a v) (vscale b v).
Proof.
  intros Ha Hb. unfold vscale, vxor. induction v as [|x v IH]; cbn; [done|].
  by rewrite (gmul_comm _ x), gmul_lxor, (gmul_comm x a), (gmul_comm x b), IH.
Qed.
Lemma vscale_vscale a b v : is_byte a → is_byte b → bytes v → vscale a (vscale b v) = vscale (gmul a b) v.
Proof. intros Ha Hb. unfold vscale. induction 1 as [|x v Hx _ IH]; cbn; [done|]. by rewrite gmul_assoc, IH. Qed.

(** ** Linear combinations *)

Fixpoint comb (n : nat) (cs : list Z) (vs : list (list Z)) : list Z :=
  match cs, vs with c :: cs, v :: vs => vxor (vscale c v) (comb n cs vs) | _, _ => vzero n end.

Lemma comb_vec n cs vs : Forall (vec n) vs → vec n (comb n cs vs).
Proof. intros Hv. revert cs. induction Hv as [|v vs Hv _ IH]; intros [|c cs]; cbn [comb]; auto with gvec. Qed.
Lemma comb_app n cs ds vs ws :
  Forall (vec n) ws → length cs = length vs → comb n (cs ++ ds) (vs ++ ws) = vxor (comb n cs vs) (comb n ds ws).
Proof.
  intros Hw. revert vs. induction cs as [|c cs IH]; intros [|v vs] Hl; try discriminate Hl; cbn [comb app].
  - rewrite vxor_0_l; [done|]. by apply comb_vec.
  - rewrite IH, vxor_assoc; [done|]. by injection Hl.
Qed.
Lemma comb_zero n m vs : Forall (vec n) vs → comb n (vzero m) vs = vzero n.
Proof.
  intros Hv. revert m. induction Hv as [|v vs [Hl _] _ IH]; intros [|m]; [done..|]. change (vzero (S m)) with (0 :: vzero m). cbn [comb].
  rewrite IH, (vscale_0 n) by done. apply vxor_0_l. apply length_replicate.
Qed.
Lemma comb_vxor n m cs ds vs :
  Forall (vec n) vs → vec m cs → vec m ds → comb n (vxor cs ds) vs = vxor (comb n cs vs) (comb n ds vs).
Proof.
  intros Hv. revert m cs ds. induction Hv as [|v vs Hv Hvs IH]; intros m [|c cs] [|d ds] [Hc Hbc] [Hd Hbd]; cbn [comb vxor zip_with];
    rewrite ?(vxor_0_l n) by apply length_replicate; try done; [cbn in *; lia..|].
  apply Forall_cons in Hbc as [Hbc Hbcs], Hbd as [Hbd Hbds]. fold (vxor cs ds).
  rewrite (IH (pred m) cs ds), vscale_lxor by (done || (split; [cbn in *; lia|done])). apply vxor_swap.
Qed.
Lemma comb_vscale n c cs vs : Forall (vec n) vs → is_byte c → bytes cs → comb n (vscale c cs) vs = vscale c (comb n cs vs).
Proof.
  intros Hv Hc Hb. revert vs Hv. induction Hb as [|d cs Hd Hb IH]; intros vs Hv; [symmetry; apply vscale_zero|].
  change (vscale c (d :: cs)) with (gmul c d :: vscale c cs). destruct Hv as [|v vs Hv Hvs]; cbn [comb]; [by rewrite vscale_zero|].
  pose proof (vec_vscale n d v Hv) as [_ H1]. pose proof (comb_vec n cs vs Hvs) as [_ H2]. destruct Hv as [_ H3].
  by rewrite IH, vscale_vxor, vscale_vscale.
Qed.

Definition in_span (n : nat) (vs : list (list Z)) (v : list Z) : Prop := ∃ cs, vec (length vs) cs ∧ v = comb n cs vs.

Section Span.
Context (n : nat).
Implicit Types vs ws : list (list Z).

Lemma span_vec vs v : Forall (vec n) vs → in_span n vs v → vec n v.
Proof. intros Hv (cs & _ & ->). by apply comb_vec. Qed.
Lemma span_zero vs : Forall (vec n) vs → in_span n vs (vzero n).
Proof. intros Hv. exists (vzero (length vs)). split; [apply vec_zero|]. by rewrite comb_zero. Qed.
Lemma span_vxor vs u v : Forall (vec n) vs → in_span n vs u → in_span n vs v → in_span n vs (vxor u v).
Proof.
  intros Hv (cs & Hc & ->) (ds & Hd & ->). exists (vxor cs ds). split; [by apply vec_vxor|]. by rewrite (comb_vxor n (length vs)).
Qed.
Lemma span_vscale vs c v : Forall (vec n) vs → is_byte c → in_span n vs v → in_span n vs (vscale c v).
Proof. intros Hv Hc (cs & [Hl Hb] & ->). exists (vscale c cs). split; [by apply vec_vscale|]. by rewrite comb_vscale. Qed.
Lemma span_cons w vs v :
  Forall (vec n) (w :: vs) → in_span n (w :: vs) v ↔ ∃ c u, is_byte c ∧ in_span n vs u ∧ v = vxor (vscale c w) u.
Proof.
  intros [Hw Hv]%Forall_cons. split.
  - intros ([|c cs] & [Hl Hb] & ->); [discriminate Hl|]. apply Forall_cons in Hb as [Hc Hb]. exists c, (comb n cs vs).
    split; [done|]. split; [|done]. exists cs. split; [|done]. split; [by injection Hl|done].
  - intros (c & u & Hc & (cs & [Hl Hb] & ->) & ->). exists (c :: cs). split; [|done]. split; [cbn; lia|by constructor].
Qed.
Lemma span_weaken w vs v : Forall (vec n) (w :: vs) → in_span n vs v → in_span n (w :: vs) v.
Proof.
  intros Hv Hs. apply span_cons; [done|]. exists 0, v. split; [done|]. split; [done|]. apply Forall_cons in Hv as [[Hl _] Hv].
  rewrite (vscale_0 n), vxor_0_l; [done| |done]. by apply (span_vec vs).
Qed.
Lemma span_elem vs v : Forall (vec n) vs → v ∈ vs → in_span n vs v.
Proof.
  intros Hv. induction 1 as [w vs|v w vs _ IH] using list_elem_of_ind.
  - apply span_cons; [done|]. apply Forall_cons in Hv as [[Hl Hb] Hv]. exists 1, (vzero n). split; [done|]. split; [by apply span_zero|].
    rewrite vscale_1, vxor_0_r; done.
  - apply span_weaken; [done|]. apply IH. by apply Forall_cons in Hv as [_ ?].
Qed.
(** What is spanned by vectors of a span is in the span. *)
Lemma span_trans vs ws v : Forall (vec n) vs → Forall (in_span n vs) ws → in_span n ws v → in_span n vs v.
Proof.
  intros Hv Hw. assert (Forall (vec n) ws) as Hww by (eapply Forall_impl; [exact Hw|]; intros; by apply (span_vec vs)).
  revert v. induction Hw as [|w ws Hw Hws IH]; intros v.
  - intros (cs & [Hl _] & ->). destruct cs; [|discriminate Hl]. by apply span_zero.
  - rewrite span_cons by done. apply Forall_cons in Hww as [_ Hww]. intros (c & u & Hc & Hu & ->). apply span_vxor; [done|by apply span_vscale|by apply IH].
Qed.
Lemma span_vxor_iff vs u v : Forall (vec n) vs → vec n v → in_span n vs u → in_span n vs (vxor u v) ↔ in_span n vs v.
Proof.
  intros Hv Hl Hu. split; [|by apply span_vxor]. intros H. apply (span_vec vs) in Hu as Hul; [|done].
  rewrite <- (vxor_cancel n u v) by (apply Hul || apply Hl). by apply span_vxor.
Qed.
End Span.

(** ** Witness *)

Lemma galois_field_witness :
  ∃ g p, Init = Some g ∧ Mul g 87 131 = Some p ∧ p = 49 ∧ p = poly_mul 8 87 131 ∧ Div g p 131 = Some 87.
Proof.
  destruct galois_field as (g & E & H). destruct (H 87 131 1) as (p & q & Em & _ & _ & _ & Ep & _ & _ & _ & Hd & _); [unfold is_byte; lia..|].
  exists g, p. split; [exact E|]. split; [exact Em|]. split; [rewrite Ep; vm_compute; reflexivity|]. split; [exact Ep|].
  apply Hd. discriminate.
Defined.
