(* ===== verification/NetworkCoding.v ===== *)
(** * NetworkCoding: random linear network coding ([networkcoding/nc.cpp], [nc.h]).

    A generation of [n] data blocks is sent as coded blocks, each a linear combination of the data
    blocks over [Galois] with its coefficients.  Blocks are combined again on the way
    ([ReEncodeBlock]); a receiver keeps those that are not combinations of what it has
    ([IsHelpful]) and solves for the data when it has [n] ([Decode], by elimination into an upper
    triangular matrix and back substitution).

    The buffers are lists, updated in place in the order of the C++ loops; [None] is an access
    outside of a buffer, or a loop of draws of [rand] that finds no coefficient.  The overloads of
    [IncrementalDecode] and [BackSubstitution] for an array of generations ([unsigned char ***]) are the same code on [m[gen]]; [IsHelpful]
    is modelled on [m_helpful[gen]] and [rank_vec[gen]].  The overload of [Decode] is not the same: it
    passes over what the other two answer, and always answers true ([Decode_generations]); nothing calls it. *)

From S2P Require Import Prelude Galois.

#[local] Open Scope nat_scope.

Record CodedBlock := CB { gen : nat; num_blocks_gen : nat; block_size : nat; coeffs : list Z; sums : list Z }.

(** [memset (p, 0, n)] and [memcpy] of [n] bytes from [p]. *)
Definition clear (l : list Z) (n : nat) : option (list Z) :=
  if n <=? length l then Some (replicate n 0%Z ++ drop n l) else None.
Definition copy (l : list Z) (n : nat) : option (list Z) := if n <=? length l then Some (take n l) else None.
Definition store (l : list Z) (i : nat) (v : Z) : option (list Z) := if i <? length l then Some (<[i := v]> l) else None.
Definition at2 (m : list (list Z)) (i j : nat) : option Z := r ← m !! i; r !! j.

(** Drawing a coefficient: [while (!(c = (unsigned char) (rand () % field_limit)));]. *)
Fixpoint draw (field_limit : Z) (draws : list Z) : option (Z * list Z) :=
  match draws with
  | [] => None
  | r :: draws => let c := u8 (Z.rem r field_limit) in if (c =? 0)%Z then draw field_limit draws else Some (c, draws)
  end.

Section NC.
Context (g : galois) (field_size : Z) (is_sim : bool).

Definition width (block_size : nat) : nat := if is_sim then 1 else block_size.
Definition field_limit : Z := Z.shiftl 1 field_size.

(** [dst[j] = Add (Mul (src[j], c), dst[j])] for [n] indices from [j]. *)
Fixpoint mul_add (n j : nat) (src : list Z) (c : Z) (dst : list Z) : option (list Z) :=
  match n with
  | O => Some dst
  | S n =>
    x ← src !! j; m ← Mul g x c; z ← dst !! j;
    mul_add n (S j) src c (<[j := Add m z]> dst)
  end.

(** ** Encoding *)

Fixpoint encode_loop (n i : nat) (data : list (list Z)) (w : nat) (draws cs ss : list Z) : option (list Z * list Z * list Z) :=
  match n with
  | O => Some (cs, ss, draws)
  | S n =>
    '(c, draws) ← draw field_limit draws;
    cs ← store cs i c; d ← data !! i; ss ← mul_add w 0 d c ss;
    encode_loop n (S i) data w draws cs ss
  end.
Definition EncodeBlock (data : list (list Z)) (out : CodedBlock) (draws : list Z) : option (CodedBlock * list Z) :=
  let n := num_blocks_gen out in
  cs ← clear (coeffs out) n; ss ← clear (sums out) (block_size out);
  '(cs, ss, draws) ← encode_loop n 0 data (width (block_size out)) draws cs ss;
  Some (CB (gen out) n (block_size out) cs ss, draws).

Fixpoint single_loop (n i : nat) (data : list (list Z)) (blockIdInGen : nat) (w : nat) (cs ss : list Z) : option (list Z * list Z) :=
  match n with
  | O => Some (cs, ss)
  | S n =>
    let c := if i =? blockIdInGen then 1%Z else 0%Z in
    cs ← store cs i c; d ← data !! i; ss ← mul_add w 0 d c ss;
    single_loop n (S i) data blockIdInGen w cs ss
  end.
Definition EncodeSingleBlock (data : list (list Z)) (out : CodedBlock) (blockIdInGen : nat) : option CodedBlock :=
  let n := num_blocks_gen out in
  cs ← clear (coeffs out) n; ss ← clear (sums out) (block_size out);
  '(cs, ss) ← single_loop n 0 data blockIdInGen (width (block_size out)) cs ss;
  Some (CB (gen out) n (block_size out) cs ss).

Definition GetRank (buffer : list CodedBlock) : nat := length buffer.

(** The coefficients are drawn first, into an array of [num_blocks_gen]. *)
Fixpoint draw_loop (n i : nat) (draws randCoeffs : list Z) : option (list Z * list Z) :=
  match n with
  | O => Some (randCoeffs, draws)
  | S n =>
    '(c, draws) ← draw field_limit draws;
    randCoeffs ← store randCoeffs i c; draw_loop n (S i) draws randCoeffs
  end.
Fixpoint reencode_loop (n i : nat) (buffer : list CodedBlock) (randCoeffs : list Z) (num_blocks w : nat) (cs ss : list Z)
  : option (list Z * list Z) :=
  match n with
  | O => Some (cs, ss)
  | S n =>
    b ← buffer !! i; c ← randCoeffs !! i;
    cs ← mul_add num_blocks 0 (coeffs b) c cs; ss ← mul_add w 0 (sums b) c ss;
    reencode_loop n (S i) buffer randCoeffs num_blocks w cs ss
  end.
(** [uninit]: the new array [randCoeffs]. *)
Definition ReEncodeBlock (uninit : list Z) (buffer : list CodedBlock) (out : CodedBlock) (draws : list Z)
  : option (bool * CodedBlock * list Z) :=
  let n := num_blocks_gen out in
  let w := width (block_size out) in
  if GetRank buffer =? 0 then Some (false, out, draws)
  else
    cs ← clear (coeffs out) n; ss ← clear (sums out) w;
    '(randCoeffs, draws) ← draw_loop (GetRank buffer) 0 draws uninit;
    '(cs, ss) ← reencode_loop (GetRank buffer) 0 buffer randCoeffs n w cs ss;
    Some (true, CB (gen out) n (block_size out) cs ss, draws).

(** ** Elimination *)

(** [for (k = i + n - 1; k >= i; k--)] over the row [row] with pivot [row[i]]: [new_vec[i]], read
    in every round, changes in the last. *)
Fixpoint eliminate (n i : nat) (row new_vec : list Z) : option (list Z) :=
  match n with
  | O => Some new_vec
  | S n =>
    let k := i + n in
    x ← new_vec !! i; r ← row !! k; m ← Mul g x r; p ← row !! i; q ← Div g m p; v ← new_vec !! k;
    eliminate n i row (<[k := Sub v q]> new_vec)
  end.

(** The columns from [i] on: the vector when it is done, and the index of the first element that no
    row can eliminate.  [total] is the length of the rows. *)
Fixpoint reduce (n i total : nat) (rows : list (list Z)) (new_vec : list Z) : option (option nat * list Z) :=
  match n with
  | O => Some (None, new_vec)
  | S n =>
    row ← rows !! i; p ← row !! i; x ← new_vec !! i;
    if negb (p =? 0)%Z && negb (x =? 0)%Z then
      new_vec ← eliminate (total - i) i row new_vec; reduce n (S i) total rows new_vec
    else if negb (x =? 0)%Z then Some (Some i, new_vec)
    else reduce n (S i) total rows new_vec
  end.

(** Copying [total] elements into row [i]. *)
Definition put_row (rows : list (list Z)) (i total : nat) (v : list Z) : option (list (list Z)) :=
  row ← rows !! i;
  if total <=? length row then Some (<[i := take total v ++ drop total row]> rows) else None.

Definition IsHelpful (rank : nat) (m_helpful : list (list Z)) (b : CodedBlock) : option (bool * list (list Z)) :=
  let n := num_blocks_gen b in
  if rank =? n then Some (false, m_helpful)
  else
    new_vec ← copy (coeffs b) n;
    '(found, new_vec) ← reduce n 0 n m_helpful new_vec;
    match found with
    | None => Some (false, m_helpful)
    | Some firstNonZeroIdx => m ← put_row m_helpful firstNonZeroIdx n new_vec; Some (true, m)
    end.

Definition IncrementalDecode (m_upper : list (list Z)) (b : CodedBlock) : option (bool * list (list Z)) :=
  let n := num_blocks_gen b in
  let total := n + width (block_size b) in
  cs ← copy (coeffs b) n; ss ← copy (sums b) (width (block_size b));
  '(found, new_vec) ← reduce n 0 total m_upper (cs ++ ss);
  match found with
  | None => Some (false, m_upper)
  | Some firstNonZeroIdx => m ← put_row m_upper firstNonZeroIdx total new_vec; Some (true, m)
  end.

(** ** Back substitution *)

(** The sum over [k], [n] rounds. *)
Fixpoint sum_loop (n k : nat) (row : list Z) (m_data : list (list Z)) (j : nat) (tmp : Z) : option Z :=
  match n with
  | O => Some tmp
  | S n => r ← row !! k; d ← at2 m_data k j; m ← Mul g r d; sum_loop n (S k) row m_data j (Add tmp m)
  end.
Definition store2 (m : list (list Z)) (i j : nat) (v : Z) : option (list (list Z)) :=
  r ← m !! i; r ← store r j v; Some (<[i := r]> m).
(** Row [i], [n] columns from [j]. *)
Fixpoint column_loop (n j i : nat) (num_blocks : nat) (row : list Z) (m_data : list (list Z)) : option (list (list Z)) :=
  match n with
  | O => Some m_data
  | S n =>
    tmp ← sum_loop (num_blocks - S i) (S i) row m_data j 0%Z;
    x ← row !! (num_blocks + j); p ← row !! i; q ← Div g (Sub x tmp) p;
    m_data ← store2 m_data i j q;
    column_loop n (S j) i num_blocks row m_data
  end.
(** The rows below [i], from the last. *)
Fixpoint row_loop (i : nat) (num_blocks w : nat) (m_upper m_data : list (list Z)) : option (list (list Z)) :=
  match i with
  | O => Some m_data
  | S i =>
    row ← m_upper !! i; m_data ← column_loop w 0 i num_blocks row m_data;
    row_loop i num_blocks w m_upper m_data
  end.
Definition BackSubstitution (buffer : list CodedBlock) (m_upper m_data : list (list Z)) : option (bool * list (list Z)) :=
  b ← buffer !! 0; let n := num_blocks_gen b in
  if negb (GetRank buffer =? n) then Some (false, m_data)
  else m_data ← row_loop n n (width (block_size b)) m_upper m_data; Some (true, m_data).

(** The first [n] blocks of the buffer, from block [j]. *)
Fixpoint decode_loop (n j : nat) (buffer : list CodedBlock) (m_upper : list (list Z)) : option (bool * list (list Z)) :=
  match n with
  | O => Some (true, m_upper)
  | S n =>
    b ← buffer !! j; '(isInnovative, m_upper) ← IncrementalDecode m_upper b;
    if isInnovative : bool then decode_loop n (S j) buffer m_upper else Some (false, m_upper)
  end.
Definition Decode (buffer : list CodedBlock) (m_data : list (list Z)) : option (bool * list (list Z)) :=
  b ← buffer !! 0; let n := num_blocks_gen b in
  '(ok, m_upper) ← decode_loop n 0 buffer (replicate n (replicate (n + width (block_size b)) 0%Z));
  if ok : bool then BackSubstitution buffer m_upper m_data else Some (false, m_data).

(** The overload for an array of generations: a block goes to the matrix of the generation it names, whether or not it is innovative. *)
Fixpoint decode_generation (n j : nat) (buffer : list CodedBlock) (m_upper : list (list (list Z))) : option (list (list (list Z))) :=
  match n with
  | O => Some m_upper
  | S n =>
    b ← buffer !! j; m ← m_upper !! gen b; '(_, m) ← IncrementalDecode m b;
    decode_generation n (S j) buffer (<[gen b := m]> m_upper)
  end.
Fixpoint decode_generations (n i : nat) (buffers : list (list CodedBlock)) (m_upper m_data : list (list (list Z))) : option (list (list (list Z))) :=
  match n with
  | O => Some m_data
  | S n =>
    buffer ← buffers !! i; b ← buffer !! 0; m_upper ← decode_generation (num_blocks_gen b) 0 buffer m_upper;
    m ← m_upper !! i; d ← m_data !! i; '(_, d) ← BackSubstitution buffer m d;
    decode_generations n (S i) buffers m_upper (<[i := d]> m_data)
  end.
Definition Decode_generations (buffers : list (list CodedBlock)) (m_data : list (list (list Z))) (num_gens : nat) : option (bool * list (list (list Z))) :=
  m_upper ← mapM (λ buffer, b ← buffer !! 0; let n := num_blocks_gen b in Some (replicate n (replicate (n + width (block_size b)) 0%Z))) (take num_gens buffers);
  m_data ← decode_generations num_gens 0 buffers m_upper m_data; Some (true, m_data).
End NC.

(** ** Loops over vectors *)

Lemma mul_add_run n j src c dst :
  bytes src → is_byte c → bytes dst → j + n <= length src → j + n <= length dst →
  ∃ dst', mul_add gf n j src c dst = Some dst' ∧
    ∀ k, dst' !! k = if decide (j <= k < j + n) then x ← src !! k; z ← dst !! k; Some (Z.lxor (gmul x c) z) else dst !! k.
Proof.
  intros Hs Hc. revert j dst. induction n as [|n IH]; intros j dst Hd Hls Hld; cbn [mul_add].
  - exists dst. split; [done|]. intros k. by rewrite decide_False by lia.
  - destruct (lookup_lt_is_Some_2 src j) as [x Hx]; [lia|]. destruct (lookup_lt_is_Some_2 dst j) as [z Hz]; [lia|]. rewrite Hx, Hz.
    assert (is_byte x ∧ is_byte z) as [Hbx Hbz] by (rewrite Forall_lookup in Hs, Hd; eauto).
    cbn [mbind option_bind]. rewrite Mul_run by done. cbn [mbind option_bind].
    destruct (IH (S j) (<[j := Add (gmul x c) z]> dst)) as (dst' & -> & Hl).
    + apply Forall_insert; [done|]. apply lxor_byte; [apply gmul_range|done].
    + lia.
    + rewrite length_insert. lia.
    + exists dst'. split; [done|]. intros k. rewrite Hl. destruct (decide (k = j)) as [->|Hne].
      * rewrite decide_False, decide_True, list_lookup_insert_eq, Hx, Hz by lia. done.
      * rewrite !list_lookup_insert_ne by done. destruct (decide (S j <= k < S j + n)); [rewrite decide_True by lia|rewrite decide_False by lia]; done.
Qed.

Lemma mul_add_vec n src c dst :
  vec n src → is_byte c → vec n dst → mul_add gf n 0 src c dst = Some (vxor dst (vscale c src)).
Proof.
  intros [Hls Hs] Hc [Hld Hd]. destruct (mul_add_run n 0 src c dst) as (dst' & -> & Hl); [done..|lia|lia|]. f_equal.
  apply list_eq. intros k. rewrite Hl. destruct (decide (0 <= k < 0 + n)) as [Hk|Hk].
  - destruct (lookup_lt_is_Some_2 src k) as [x Hx]; [lia|]. destruct (lookup_lt_is_Some_2 dst k) as [z Hz]; [lia|]. rewrite Hx, Hz.
    cbn [mbind option_bind]. symmetry. rewrite (lookup_vxor _ _ _ z (gmul c x)), (gmul_comm x), Z.lxor_comm; [done..|].
    by rewrite lookup_vscale, Hx.
  - rewrite lookup_ge_None_2 by lia. symmetry. apply lookup_ge_None_2. unfold vxor. rewrite length_zip_with. lia.
Qed.

Lemma eliminate_run m i row nv x p :
  bytes row → bytes nv → i + m <= length row → i + m <= length nv → row !! i = Some p → p ≠ 0%Z → nv !! i = Some x →
  ∃ nv', eliminate gf m i row nv = Some nv' ∧
    ∀ k, nv' !! k = if decide (i <= k < i + m) then v ← nv !! k; r ← row !! k; Some (Z.lxor v (gmul (gdiv x p) r)) else nv !! k.
Proof.
  intros Hr. revert nv. induction m as [|m IH]; intros nv Hnv Hlr Hln Hp Hpn Hx; cbn [eliminate].
  - exists nv. split; [done|]. intros k. by rewrite decide_False by lia.
  - destruct (lookup_lt_is_Some_2 row (i + m)) as [r Hrk]; [lia|]. destruct (lookup_lt_is_Some_2 nv (i + m)) as [v Hv]; [lia|].
    rewrite Hx, Hrk, Hp, Hv. assert (Hb : ∀ l k y, bytes l → l !! k = Some y → is_byte y) by (intros l k y Hl; rewrite Forall_lookup in Hl; eauto).
    assert (is_byte x ∧ is_byte r ∧ is_byte p ∧ is_byte v) as (Hbx & Hbr & Hbp & Hbv) by (split_and!; eauto).
    cbn [mbind option_bind]. rewrite Mul_run by done. cbn [mbind option_bind]. rewrite Div_run by (done || apply gmul_range).
    cbn [mbind option_bind]. rewrite gdiv_gmul by done. set (nv1 := <[i + m := _]> nv).
    assert (Hl1 : length nv1 = length nv) by apply length_insert.
    destruct (decide (m = 0)) as [->|Hm].
    + cbn [eliminate]. exists nv1. split; [done|]. intros k. unfold nv1. destruct (decide (k = i + 0)) as [->|Hne].
      * rewrite list_lookup_insert_eq, decide_True, Hv, Hrk by lia. done.
      * rewrite list_lookup_insert_ne, decide_False by lia. done.
    + destruct (IH nv1) as (nv' & -> & Hl).
      * apply Forall_insert; [done|]. apply lxor_byte; [done|apply gmul_range].
      * lia.
      * lia.
      * done.
      * done.
      * unfold nv1. by rewrite list_lookup_insert_ne by lia.
      * exists nv'. split; [done|]. intros k. rewrite Hl. unfold nv1. destruct (decide (k = i + m)) as [->|Hne].
        -- rewrite decide_False, decide_True, list_lookup_insert_eq, Hv, Hrk by lia. done.
        -- rewrite !list_lookup_insert_ne by done. destruct (decide (i <= k < i + m)); [rewrite decide_True by lia|rewrite decide_False by lia]; done.
Qed.

(** A row that starts with [i] zeros eliminates element [i] of a vector. *)
Lemma eliminate_vec l i row nv x p :
  vec l row → vec l nv → i <= l → (∀ k, k < i → row !! k = Some 0%Z) → row !! i = Some p → p ≠ 0%Z → nv !! i = Some x →
  eliminate gf (l - i) i row nv = Some (vxor nv (vscale (gdiv x p) row)).
Proof.
  intros [Hlr Hr] [Hln Hn] Hi Hz Hp Hpn Hx. destruct (eliminate_run (l - i) i row nv x p) as (nv' & -> & Hl); [done..|lia|lia|done|done|done|].
  f_equal. apply list_eq. intros k. rewrite Hl. destruct (decide (k < l)) as [Hk|Hk].
  - destruct (lookup_lt_is_Some_2 nv k) as [v Hv]; [lia|]. destruct (lookup_lt_is_Some_2 row k) as [r Hrk]; [lia|].
    rewrite (lookup_vxor _ _ _ v (gmul (gdiv x p) r)); [|done|by rewrite lookup_vscale, Hrk]. rewrite Hv, Hrk. cbn [mbind option_bind].
    destruct (decide (i <= k < i + (l - i))) as [|Hki]; [done|]. rewrite Hz in Hrk by lia. injection Hrk as <-.
    by rewrite gmul_0_r, Z.lxor_0_r.
  - rewrite decide_False, lookup_ge_None_2 by lia. symmetry. apply lookup_ge_None_2. unfold vxor. rewrite length_zip_with. lia.
Qed.

(** The element it eliminates. *)
Lemma eliminated x p : is_byte x → is_byte p → p ≠ 0%Z → Z.lxor x (gmul (gdiv x p) p) = 0%Z.
Proof.
  intros Hx Hp Hn. rewrite gdiv_mul, <- gmul_assoc by (done || apply exp_range). rewrite gmul_inv, gmul_comm, gmul_1 by done. apply Z.lxor_nilpotent.
Qed.

(** ** The triangular matrix *)

(** Row [i] has zeros before the diagonal, and is zero when its diagonal element is. *)
Record tri (n : nat) (R : list (list Z)) : Prop := Tri
  { tri_length : length R = n;
    tri_vec : Forall (vec n) R;
    tri_row : ∀ i r, R !! i = Some r → (∀ k, k < i → r !! k = Some 0%Z) ∧ (r !! i = Some 0%Z → r = vzero n) }.

(** Row [i] is in use. *)
Definition pivot (R : list (list Z)) (i : nat) : Z := default 0%Z (at2 R i i).
Definition rank (R : list (list Z)) : nat := length (filter (λ i, pivot R i ≠ 0%Z) (seq 0 (length R))).

Lemma tri_zero n : tri n (replicate n (vzero n)).
Proof.
  split; [apply length_replicate|by apply Forall_replicate, vec_zero|]. intros i r [-> Hi]%lookup_replicate.
  split; [|done]. intros k Hk. unfold vzero. rewrite lookup_replicate. split; [done|lia].
Qed.
Lemma filter_out (P : nat → Prop) `{∀ i, Decision (P i)} (l : list nat) : (∀ i, i ∈ l → ¬ P i) → filter P l = [].
Proof.
  induction l as [|x l IH]; intros H'; [done|]. rewrite filter_cons_False by (apply H'; by left). apply IH. intros i Hi. apply H'. by right.
Qed.
Lemma filter_every (P : nat → Prop) `{∀ i, Decision (P i)} (l : list nat) : (∀ i, i ∈ l → P i) → filter P l = l.
Proof.
  induction l as [|x l IH]; intros H'; [done|]. rewrite filter_cons_True by (apply H'; by left). f_equal. apply IH. intros i Hi. apply H'. by right.
Qed.
Lemma filter_same (P Q : nat → Prop) `{∀ i, Decision (P i)} `{∀ i, Decision (Q i)} (l : list nat) : (∀ i, i ∈ l → P i ↔ Q i) → filter P l = filter Q l.
Proof.
  induction l as [|x l IH]; intros H'; [done|]. rewrite !filter_cons. rewrite IH by (intros i Hi; apply H'; by right).
  assert (P x ↔ Q x) as E by (apply H'; by left). destruct (decide (P x)), (decide (Q x)); tauto || done.
Qed.
Lemma rank_zero n : rank (replicate n (vzero n)) = 0.
Proof.
  unfold rank. rewrite filter_out; [done|]. intros i Hi%elem_of_seq. rewrite length_replicate in Hi.
  unfold pivot, at2. rewrite lookup_replicate_2 by lia. cbn [mbind option_bind]. unfold vzero. rewrite lookup_replicate_2 by lia. tauto.
Qed.

Lemma in_range_filter (P : nat → Prop) `{∀ i, Decision (P i)} n : length (filter P (seq 0 n)) <= n.
Proof. rewrite <- (length_seq n 0) at 2. apply length_filter. Qed.
Lemma filter_all (P : nat → Prop) `{∀ i, Decision (P i)} n i : n <= length (filter P (seq 0 n)) → i < n → P i.
Proof.
  intros Hl Hi. destruct (decide (P i)) as [|Hn]; [done|]. exfalso.
  assert (length (filter P (seq 0 n)) < length (seq 0 n)) as H'; [|rewrite length_seq in H'; lia].
  apply (length_filter_lt _ _ i); [|done]. apply elem_of_seq. lia.
Qed.
Lemma filter_one_more (P Q : nat → Prop) `{∀ i, Decision (P i)} `{∀ i, Decision (Q i)} n f :
  f < n → ¬ P f → Q f → (∀ i, i ≠ f → P i ↔ Q i) → length (filter Q (seq 0 n)) = S (length (filter P (seq 0 n))).
Proof.
  intros Hf HP HQ Heq. replace (seq 0 n) with (seq 0 f ++ f :: seq (S f) (n - S f)).
  - rewrite !filter_app, !filter_cons, decide_True, decide_False by done. rewrite !length_app. cbn [length].
    assert (∀ l : list nat, f ∉ l → filter P l = filter Q l) as E.
    { intros l Hl. apply filter_same. intros i Hi. apply Heq. by intros ->. }
    rewrite !E; [lia|rewrite elem_of_seq; lia..].
  - replace n with (f + S (n - S f)) at 2 by lia. rewrite seq_app. done.
Qed.

Section Triangle.
Context (n : nat).
Implicit Types R : list (list Z).

Lemma tri_lookup R i : tri n R → i < n → ∃ r p, R !! i = Some r ∧ vec n r ∧ r !! i = Some p ∧ is_byte p ∧ pivot R i = p.
Proof.
  intros [Hl Hv _] Hi. destruct (lookup_lt_is_Some_2 R i) as [r Hr]; [lia|]. rewrite Forall_lookup in Hv. specialize (Hv _ _ Hr).
  destruct (vec_lookup n r i Hv Hi) as (p & Hp & Hb). exists r, p. unfold pivot, at2. rewrite Hr. cbn [mbind option_bind]. by rewrite Hp.
Qed.
Lemma tri_insert R f v x :
  tri n R → f < n → vec n v → (∀ k, k < f → v !! k = Some 0%Z) → v !! f = Some x → x ≠ 0%Z → tri n (<[f := v]> R).
Proof.
  intros [Hl Hv Hrow] Hf Hvec Hz Hx Hn. split; [by rewrite length_insert|by apply Forall_insert|]. intros i r.
  destruct (decide (i = f)) as [->|Hne].
  - rewrite list_lookup_insert_eq by lia. intros [= <-]. split; [done|]. congruence.
  - rewrite list_lookup_insert_ne by done. apply Hrow.
Qed.
Lemma rank_insert R f v x : tri n R → f < n → pivot R f = 0%Z → v !! f = Some x → x ≠ 0%Z → rank (<[f := v]> R) = S (rank R).
Proof.
  intros Ht Hf Hp Hx Hn. pose proof (tri_length _ _ Ht) as Hl. unfold rank. rewrite length_insert. apply (filter_one_more _ _ _ f).
  - lia.
  - tauto.
  - unfold pivot, at2. rewrite list_lookup_insert_eq by lia. cbn [mbind option_bind]. by rewrite Hx.
  - intros i Hne. unfold pivot, at2. by rewrite list_lookup_insert_ne.
Qed.

Lemma comb_at_zero rs cs m : m < n → Forall (λ r, r !! m = Some 0%Z) rs → comb n cs rs !! m = Some 0%Z.
Proof.
  intros Hm Hrz. revert cs. induction Hrz as [|y rs Hy Hrz IH]; intros [|c cs]; cbn [comb];
    try (unfold vzero; rewrite lookup_replicate; split; [done|lia]).
  rewrite (lookup_vxor _ _ _ 0 0); [done|by rewrite lookup_vscale, Hy; cbn; rewrite gmul_0_r|]. apply IH.
Qed.
Lemma rows_after R m : tri n R → Forall (λ r, r !! m = Some 0%Z) (drop (S m) R).
Proof.
  intros Ht. apply Forall_lookup. intros i y Hy. rewrite lookup_drop in Hy. destruct (tri_row _ _ Ht _ _ Hy) as [Hy' _]. apply Hy'. lia.
Qed.

(** The rows from [m] on span what they and the earlier rows span, among the vectors that start
    with [m] zeros. *)
Lemma span_drop R w m : tri n R → m <= n → in_span n R w → (∀ k, k < m → w !! k = Some 0%Z) → in_span n (drop m R) w.
Proof.
  intros Ht Hm Hs. pose proof (tri_vec _ _ Ht) as Hv. induction m as [|m IH]; intros Hz; [done|].
  assert (IH' : in_span n (drop m R) w) by (apply IH; [lia|]; intros k Hk; apply Hz; lia).
  destruct (tri_lookup R m Ht) as (r & p & Hr & Hvr & Hp & Hbp & _); [lia|].
  rewrite (drop_S _ _ _ Hr) in IH'. apply span_cons in IH'; [|constructor; [done|by apply Forall_drop]].
  destruct IH' as (c & u & Hc & Hu & ->). assert (vec n u) as Hvu by (eapply span_vec; [|exact Hu]; by apply Forall_drop).
  assert (u !! m = Some 0%Z) as Hum.
  { destruct Hu as (cs & _ & ->). apply comb_at_zero; [lia|by apply rows_after]. }
  assert (E : vscale c r = vzero n).
  { specialize (Hz m). rewrite (lookup_vxor _ _ _ (gmul c p) 0) in Hz; [|by rewrite lookup_vscale, Hp|done]. specialize (Hz ltac:(lia)). injection Hz as Hz.
    rewrite Z.lxor_0_r in Hz. apply gmul_zero in Hz as [->| ->]; [apply vscale_0, Hvr|].
    destruct (tri_row _ _ Ht _ _ Hr) as [_ Hzero]. rewrite Hzero by done. apply vscale_zero. }
  rewrite E, vxor_0_l; [done|apply Hvu].
Qed.

(** A vector of the span has its first element that is not zero where a row is in use. *)
Lemma span_first R w f x : tri n R → f < n → in_span n R w → (∀ k, k < f → w !! k = Some 0%Z) → w !! f = Some x → x ≠ 0%Z → pivot R f ≠ 0%Z.
Proof.
  intros Ht Hf Hs Hz Hx Hn Hp. apply (span_drop R w f) in Hs; [|done|lia|done].
  destruct (tri_lookup R f Ht Hf) as (r & p & Hr & Hvr & Hrp & _ & Ep). rewrite Hp in Ep. subst p.
  destruct (tri_row _ _ Ht _ _ Hr) as [_ Hzero]. specialize (Hzero Hrp). subst r.
  assert (Hs' : in_span n (drop (S f) R) w).
  { rewrite (drop_S _ _ _ Hr), span_cons in Hs by (rewrite <- (drop_S _ _ _ Hr); apply Forall_drop, Ht).
    destruct Hs as (c & u & _ & Hu & ->). rewrite vscale_zero, vxor_0_l; [done|]. eapply span_vec; [|exact Hu]. apply Forall_drop, Ht. }
  destruct Hs' as (cs & _ & ->). rewrite comb_at_zero in Hx; [congruence|done|by apply rows_after].
Qed.
End Triangle.

(** ** Reduction *)

Section Reduction.
(** Rows of [n] coefficients, each with the combination of the data blocks that they describe; no
    blocks where only the coefficients are of interest. *)
Context (n w : nat) (D : list (list Z)) (HD : Forall (vec w) D).
Definition ext (cs : list Z) : list Z := cs ++ comb w cs D.

Lemma ext_vec cs : vec n cs → vec (n + w) (ext cs).
Proof using HD.
  intros [Hl Hb]. destruct (comb_vec w cs D HD) as [Hlc Hbc]. unfold ext. split; [rewrite length_app; lia|by apply Forall_app].
Qed.
Lemma ext_lookup cs i : vec n cs → i < n → ext cs !! i = cs !! i.
Proof. intros [Hl _] Hi. unfold ext. apply lookup_app_l. lia. Qed.
Lemma ext_combine a b c : vec n a → vec n b → is_byte c → ext (vxor a (vscale c b)) = vxor (ext a) (vscale c (ext b)).
Proof using HD.
  intros Ha Hb Hc. unfold ext. rewrite (comb_vxor w n) by auto with gvec. rewrite comb_vscale by (done || apply Hb).
  unfold vxor, vscale. rewrite fmap_app. unfold vxor. rewrite <- zip_with_app by (rewrite length_fmap; destruct Ha, Hb; lia). done.
Qed.

(** What [reduce] leaves of a vector differs from it by a combination of the rows. *)
Lemma reduce_run R v m i :
  tri n R → i + m = n → vec n v → (∀ k, k < i → v !! k = Some 0%Z) →
  ∃ found v', reduce gf m i (n + w) (ext <$> R) (ext v) = Some (found, ext v') ∧ vec n v' ∧ in_span n R (vxor v v') ∧
    match found with
    | None => v' = vzero n
    | Some f => f < n ∧ (∀ k, k < f → v' !! k = Some 0%Z) ∧ pivot R f = 0%Z ∧ ∃ x, v' !! f = Some x ∧ x ≠ 0%Z
    end.
Proof using HD.
  intros Ht. pose proof (tri_vec _ _ Ht) as HR. revert v i. induction m as [|m IH]; intros v i Hi Hv Hz; cbn [reduce].
  - exists None, v. split; [done|]. split; [done|]. split; [|].
    + rewrite vxor_self. destruct Hv as [-> _]. by apply span_zero.
    + apply list_eq. intros k. destruct (decide (k < n)) as [Hk|Hk].
      * rewrite Hz by lia. unfold vzero. by rewrite lookup_replicate_2.
      * destruct Hv as [Hl _]. rewrite !lookup_ge_None_2; [done| |lia]. unfold vzero. rewrite length_replicate. lia.
  - destruct (tri_lookup n R i Ht) as (r & p & Hr & Hvr & Hp & Hbp & Ep); [lia|]. destruct (vec_lookup n v i Hv) as (x & Hx & Hbx); [lia|].
    rewrite list_lookup_fmap, Hr. cbn [fmap option_fmap option_map mbind option_bind]. rewrite !ext_lookup, Hp, Hx by (done || lia). cbn [mbind option_bind].
    destruct (Z.eqb_spec x 0) as [->|Hxn].
    + rewrite andb_false_r. cbn [negb]. apply IH; [lia|done|]. intros k Hk. destruct (decide (k = i)) as [->|]; [done|]. apply Hz. lia.
    + destruct (Z.eqb_spec p 0) as [->|Hpn]; cbn [negb andb].
      * exists (Some i), v. split; [done|]. split; [done|]. split; [|split; [lia|]].
        -- rewrite vxor_self. destruct Hv as [-> _]. by apply span_zero.
        -- split; [done|]. split; [done|]. by exists x.
      * destruct (tri_row _ _ Ht _ _ Hr) as [Hrz _].
        rewrite (eliminate_vec (n + w) i (ext r) (ext v) x p); [|by apply ext_vec|by apply ext_vec|lia| |by rewrite ext_lookup by (done || lia)|done|by rewrite ext_lookup by (done || lia)].
        2:{ intros k Hk. rewrite ext_lookup by (done || lia). by apply Hrz. }
        cbn [mbind option_bind]. rewrite <- ext_combine by (done || apply gdiv_range).
        destruct (IH (vxor v (vscale (gdiv x p) r)) (S i)) as (found & v' & -> & Hv' & Hs & Hf); [lia|auto with gvec| |].
        -- intros k Hk. destruct (decide (k = i)) as [->|Hne].
           ++ rewrite (lookup_vxor _ _ _ x (gmul (gdiv x p) p)); [|done|by rewrite lookup_vscale, Hp]. by rewrite eliminated.
           ++ rewrite (lookup_vxor _ _ _ 0 0); [done|apply Hz; lia|]. rewrite lookup_vscale, Hrz by lia. cbn. by rewrite gmul_0_r.
        -- exists found, v'. split; [done|]. split; [done|]. split; [|done].
           rewrite <- vxor_assoc, (vxor_comm _ v'), vxor_assoc in Hs. apply (span_vxor n R _ (vscale (gdiv x p) r)) in Hs; [|done|].
           ++ rewrite <- vxor_assoc, vxor_self in Hs. destruct (vec_vscale n (gdiv x p) r Hvr) as [El _]. rewrite El in Hs.
              rewrite vxor_0_r in Hs; [done|]. apply vec_vxor; done.
           ++ apply span_vscale; [done|apply gdiv_range|]. apply span_elem; [done|]. by apply list_elem_of_lookup_2 in Hr.
Qed.

(** Reducing a vector and putting what is left into its row. *)
Record stepped (R : list (list Z)) (v : list Z) (ok : bool) (R' : list (list Z)) : Prop := Stepped
  { st_tri : tri n R';
    st_elem : in_span n R' v;
    st_mono : Forall (in_span n R') R;
    st_sound : ∀ V, Forall (vec n) V → Forall (in_span n V) R → in_span n V v → Forall (in_span n V) R';
    st_rank : rank R' = rank R + (if ok then 1 else 0);
    st_ok : ok = true ↔ ¬ in_span n R v;
    st_same : ok = false → R' = R }.

Lemma put_row_run R f v : length R = n → f < n → Forall (vec n) R → vec n v → put_row (ext <$> R) f (n + w) (ext v) = Some (ext <$> <[f := v]> R).
Proof using HD.
  intros Hl Hf HR Hv. destruct (lookup_lt_is_Some_2 R f) as [r Hr]; [lia|]. unfold put_row. rewrite list_lookup_fmap, Hr.
  cbn [fmap option_fmap option_map mbind option_bind]. assert (vec n r) as Hvr by (rewrite Forall_lookup in HR; eauto).
  destruct (ext_vec r Hvr) as [Hlr _], (ext_vec v Hv) as [Hlv _]. destruct (Nat.leb_spec (n + w) (length (ext r))); [|lia].
  rewrite take_ge, drop_ge, app_nil_r by lia. by rewrite list_fmap_insert.
Qed.

Lemma step_run R v :
  tri n R → vec n v →
  ∃ found v' R', reduce gf n 0 (n + w) (ext <$> R) (ext v) = Some (found, ext v') ∧
    match found with None => R' = R | Some f => put_row (ext <$> R) f (n + w) (ext v') = Some (ext <$> R') end ∧
    stepped R v (bool_decide (found ≠ None)) R'.
Proof using HD.
  intros Ht Hv. pose proof (tri_vec _ _ Ht) as HR. destruct (reduce_run R v n 0 Ht) as (found & v' & -> & Hv' & Hs & Hf); [lia|done|lia|].
  exists found, v'. destruct found as [f|].
  - destruct Hf as (Hf & Hz & Hp & x & Hx & Hn). exists (<[f := v']> R). split; [done|]. split; [by apply put_row_run; [apply Ht|..]|].
    rewrite bool_decide_true by done. pose proof (tri_insert n R f v' x Ht Hf Hv' Hz Hx Hn) as Ht'. pose proof (tri_vec _ _ Ht') as HR'.
    destruct (tri_lookup n R f Ht Hf) as (r & p & Hr & Hvr & Hrp & _ & Ep). rewrite Hp in Ep. subst p.
    assert (r = vzero n) as -> by by apply (tri_row _ _ Ht f).
    assert (Hmono : Forall (in_span n (<[f := v']> R)) R).
    { apply Forall_lookup. intros i y Hy. destruct (decide (i = f)) as [->|Hne]; [rewrite Hr in Hy; injection Hy as <-; by apply span_zero|].
      apply span_elem; [done|]. apply list_elem_of_lookup. exists i. by rewrite list_lookup_insert_ne. }
    assert (Hin : in_span n (<[f := v']> R) v').
    { apply span_elem; [done|]. apply list_elem_of_lookup. exists f. apply list_lookup_insert_eq. rewrite (tri_length _ _ Ht). lia. }
    assert (Hvv : v = vxor v' (vxor v v')).
    { rewrite (vxor_comm v), (vxor_cancel n); [done|apply Hv'|apply Hv]. }
    split; try done.
    + rewrite Hvv. apply span_vxor; [done|done|]. by apply (span_trans n _ R).
    + intros V HV HRV HvV. apply Forall_insert; [done|].
      assert (E : v' = vxor v (vxor v v')) by (rewrite (vxor_cancel n); [done|apply Hv|apply Hv']). rewrite E. apply span_vxor; [done|done|].
      by apply (span_trans n V R).
    + rewrite (rank_insert n R f v' x); [lia|done..].
    + split; [|done]. intros _ Hsv. assert (in_span n R v') as Hv's.
      { rewrite <- (vxor_cancel n v v') by (apply Hv || apply Hv'). by apply span_vxor. }
      by apply (span_first n R v' f x Ht Hf Hv's Hz Hx Hn).
  - subst v'. exists R. split; [done|]. split; [done|]. rewrite bool_decide_false by tauto.
    rewrite vxor_0_r in Hs by apply Hv. split; try done.
    apply Forall_forall. intros y Hy. by apply span_elem.
Qed.
End Reduction.

(** ** Rank *)

Section Rank.
Context (n : nat).

Definition full_rank (V : list (list Z)) : Prop := ∀ v, vec n v → in_span n V v.
Definition unit_vec (i : nat) : list Z := <[i := 1%Z]> (vzero n).

Lemma unit_vec_ok i : vec n (unit_vec i).
Proof. destruct (vec_zero n) as [Hl Hb]. split; [by unfold unit_vec; rewrite length_insert|by apply Forall_insert]. Qed.
Lemma full_rank_pivots R V i : tri n R → Forall (vec n) V → Forall (in_span n R) V → full_rank V → i < n → pivot R i ≠ 0%Z.
Proof.
  intros Ht HV HRV Hfull Hi. apply (span_first n R (unit_vec i) i 1); [done|done| | | |done].
  - apply (span_trans n R V); [apply Ht|done|]. apply Hfull, unit_vec_ok.
  - intros k Hk. unfold unit_vec. rewrite list_lookup_insert_ne by lia. unfold vzero. by rewrite lookup_replicate_2 by lia.
  - unfold unit_vec. apply list_lookup_insert_eq. unfold vzero. by rewrite length_replicate.
Qed.
Lemma pivots_rank R : length R = n → (∀ i, i < n → pivot R i ≠ 0%Z) ↔ rank R = n.
Proof.
  intros Hl. unfold rank. rewrite Hl. split.
  - intros H. rewrite filter_every; [apply length_seq|]. intros i Hi%elem_of_seq. apply H. lia.
  - intros H i Hi. apply (filter_all (λ i, pivot R i ≠ 0%Z) n); [lia|done].
Qed.
Lemma rank_full R : tri n R → rank R = n → full_rank R.
Proof.
  intros Ht Hr v Hv. destruct (reduce_run n 0 [] (Forall_nil_2 _) R v n 0 Ht) as (found & v' & _ & Hv' & Hs & Hf); [lia|done|lia|].
  destruct found as [f|].
  - destruct Hf as (Hf & _ & Hp & _). by apply (proj2 (pivots_rank R (tri_length _ _ Ht)) Hr f Hf) in Hp.
  - subst v'. rewrite vxor_0_r in Hs; [done|apply Hv].
Qed.

Lemma step_exists R v : tri n R → vec n v → ∃ ok R', stepped n R v ok R'.
Proof. intros Ht Hv. destruct (step_run n 0 [] (Forall_nil_2 _) R v Ht Hv) as (f & v' & R' & _ & _ & H). by eexists _, R'. Qed.
Lemma extend R vs :
  tri n R → Forall (vec n) vs →
  ∃ R', tri n R' ∧ Forall (in_span n R') R ∧ Forall (in_span n R') vs ∧ rank R' <= rank R + length vs.
Proof.
  intros Ht Hvs. revert R Ht. induction Hvs as [|v vs Hv Hvs IH]; intros R Ht.
  - exists R. split; [done|]. split; [|split; [done|cbn; lia]]. apply Forall_forall. intros y Hy. apply span_elem; [apply Ht|done].
  - destruct (step_exists R v Ht Hv) as (ok & R1 & [Ht1 He Hm _ Hr _ _]). destruct (IH R1 Ht1) as (R' & Ht' & HR & Hvs' & Hr').
    pose proof (tri_vec _ _ Ht') as HV. exists R'. split; [done|]. split; [|split].
    + eapply Forall_impl; [exact Hm|]. intros y Hy. by apply (span_trans n R' R1).
    + constructor; [by apply (span_trans n R' R1)|done].
    + cbn [length]. destruct ok; lia.
Qed.
(** [n] vectors with one in the span of the earlier ones do not have full rank. *)
Lemma dependent R vs V :
  tri n R → Forall (vec n) vs → Forall (vec n) V → Forall (in_span n R) V → rank R + length vs < n → ¬ full_rank (V ++ vs).
Proof.
  intros Ht Hvs HV HRV Hlt Hfull. destruct (extend R vs Ht Hvs) as (R' & Ht' & HR & Hvs' & Hr).
  assert (rank R' = n) as E; [|lia]. apply pivots_rank; [apply Ht'|]. intros i Hi. apply (full_rank_pivots R' (V ++ vs)); [done| | |done|done].
  - by apply Forall_app.
  - apply Forall_app. split; [|done]. eapply Forall_impl; [exact HRV|]. intros y Hy. apply (span_trans n R' R); [apply Ht'|done|done].
Qed.
End Rank.

(** ** Coded blocks *)

Record coded (n w : nat) (D : list (list Z)) (b : CodedBlock) : Prop := Coded
  { cd_n : num_blocks_gen b = n; cd_w : block_size b = w;
    cd_coeffs : vec n (coeffs b); cd_sums : sums b = comb w (coeffs b) D }.

Section Blocks.
Context (n w : nat) (D : list (list Z)) (HD : Forall (vec w) D).
Abbreviation ext := (ext w D).

Lemma coded_row b : coded n w D b → copy (coeffs b) n = Some (coeffs b) ∧ copy (sums b) w = Some (sums b) ∧ coeffs b ++ sums b = ext (coeffs b).
Proof using HD.
  intros [_ _ [Hl _] Hs]. destruct (comb_vec w (coeffs b) D HD) as [Hls _]. unfold copy. rewrite Hs, Hl, Hls.
  rewrite !Nat.leb_refl, !take_ge by lia. done.
Qed.

Lemma incremental_run R b :
  tri n R → coded n w D b →
  ∃ ok R', IncrementalDecode gf false (ext <$> R) b = Some (ok, ext <$> R') ∧ stepped n R (coeffs b) ok R'.
Proof using HD.
  intros Ht Hb. destruct (coded_row b Hb) as (Ec & Es & Er). destruct Hb as [Hn Hw Hc Hs]. unfold IncrementalDecode, width.
  rewrite Hn, Hw, Ec, Es. cbn [mbind option_bind]. rewrite Er.
  destruct (step_run n w D HD R (coeffs b) Ht Hc) as (found & v' & R' & -> & Hput & Hst). cbn [mbind option_bind].
  exists (bool_decide (found ≠ None)), R'. split; [|done]. destruct found as [f|].
  - rewrite Hput. by rewrite bool_decide_true.
  - subst R'. by rewrite bool_decide_false by tauto.
Qed.

(** The blocks of the buffer from [j] on; [V] are the coefficients of all of them. *)
Lemma decode_loop_run m j buffer R :
  Forall (coded n w D) buffer → j + m <= length buffer → tri n R → rank R = j →
  Forall (in_span n R) (take j (coeffs <$> buffer)) → Forall (in_span n (coeffs <$> buffer)) R →
  ∃ ok R', decode_loop gf false m j buffer (ext <$> R) = Some (ok, ext <$> R') ∧ tri n R' ∧ Forall (in_span n (coeffs <$> buffer)) R' ∧
    if ok : bool then rank R' = j + m
    else ∃ i, i < j + m ∧ rank R' = i ∧ Forall (in_span n R') (take (S i) (coeffs <$> buffer)).
Proof using HD.
  intros Hb. assert (HV : Forall (vec n) (coeffs <$> buffer)) by (apply Forall_fmap; eapply Forall_impl; [exact Hb|]; by intros b []).
  revert j R. induction m as [|m IH]; intros j R Hl Ht Hr Hin Hsp; cbn [decode_loop].
  - exists true, R. split; [done|]. split; [done|]. split; [done|lia].
  - destruct (lookup_lt_is_Some_2 buffer j) as [b Hbj]; [lia|]. rewrite Hbj. cbn [mbind option_bind].
    assert (Hcb : coded n w D b) by (rewrite Forall_lookup in Hb; eauto).
    assert (Hj : (coeffs <$> buffer) !! j = Some (coeffs b)) by (by rewrite list_lookup_fmap, Hbj).
    destruct (incremental_run R b Ht Hcb) as (ok & R1 & -> & [Ht1 He Hm Hs Hr1 Hok Hsame]). cbn [mbind option_bind].
    assert (Htake : Forall (in_span n R1) (take (S j) (coeffs <$> buffer))).
    { rewrite (take_S_r _ _ _ Hj). apply Forall_app. split; [|by constructor].
      eapply Forall_impl; [exact Hin|]. intros y Hy. apply (span_trans n R1 R); [apply Ht1|done|done]. }
    assert (Hsp1 : Forall (in_span n (coeffs <$> buffer)) R1).
    { apply Hs; [done|done|]. apply span_elem; [done|]. by apply list_elem_of_lookup_2 in Hj. }
    destruct ok.
    + destruct (IH (S j) R1) as (ok & R' & -> & Ht' & Hsp' & H); [lia|done|lia|done|done|]. exists ok, R'. split; [done|].
      split; [done|]. split; [done|]. destruct ok; [lia|]. destruct H as (i & ? & ? & ?). exists i. split; [lia|done].
    + exists false, R1. split; [done|]. split; [done|]. split; [done|]. exists j. split; [lia|]. split; [lia|done].
Qed.
End Blocks.

(** ** Back substitution finds the data *)

Section Solving.
Context (n w : nat) (D : list (list Z)) (HD : Forall (vec w) D) (HDn : length D = n).
Abbreviation ext := (ext w D).

Lemma block_lookup k j : k < n → j < w → ∃ d x, D !! k = Some d ∧ vec w d ∧ d !! j = Some x ∧ is_byte x ∧ at2 D k j = Some x.
Proof using HD HDn.
  intros Hk Hj. destruct (lookup_lt_is_Some_2 D k) as [d Hd]; [lia|]. assert (vec w d) as Hv by (rewrite Forall_lookup in HD; eauto).
  destruct (vec_lookup w d j Hv Hj) as (x & Hx & Hb). exists d, x. unfold at2. by rewrite Hd.
Qed.

(** The blocks from [k] on are in [m_data]. *)
Definition solved (k : nat) (m_data : list (list Z)) : Prop := ∀ k' j, k <= k' < n → j < w → at2 m_data k' j = at2 D k' j.

Lemma sum_loop_run m k cs m_data j tmp :
  vec n cs → k + m = n → j < w → solved k m_data →
  ∃ s, comb w (drop k cs) (drop k D) !! j = Some s ∧ sum_loop gf m k (ext cs) m_data j tmp = Some (Z.lxor tmp s).
Proof using HD HDn.
  intros Hc. revert k tmp. induction m as [|m IH]; intros k tmp Hk Hj Hs; cbn [sum_loop].
  - exists 0%Z. rewrite (drop_ge cs) by (destruct Hc; lia). cbn [comb]. unfold vzero. rewrite lookup_replicate_2, Z.lxor_0_r by done. done.
  - destruct (vec_lookup n cs k Hc) as (c & Hck & Hbc); [lia|]. destruct (block_lookup k j) as (d & x & Hd & Hvd & Hx & Hbx & Hat); [lia|done|].
    rewrite (ext_lookup n), Hck, Hs, Hat by (done || lia). cbn [mbind option_bind]. rewrite Mul_run by done. cbn [mbind option_bind].
    destruct (IH (S k) (Add tmp (gmul c x))) as (s & Hcomb & ->); [lia|done|intros ? ? ? ?; apply Hs; lia|].
    exists (Z.lxor (gmul c x) s). rewrite (drop_S _ _ _ Hck), (drop_S _ _ _ Hd). cbn [comb]. split.
    + apply lookup_vxor; [by rewrite lookup_vscale, Hx|done].
    + unfold Add. by rewrite Z.lxor_assoc.
Qed.

Lemma column_loop_run m j i cs p m_data r d :
  vec n cs → (∀ k, k < i → cs !! k = Some 0%Z) → cs !! i = Some p → p ≠ 0%Z → i < n → j + m = w →
  D !! i = Some d → m_data !! i = Some r → w <= length r → solved (S i) m_data →
  ∃ r', column_loop gf m j i n (ext cs) m_data = Some (<[i := r']> m_data) ∧ length r' = length r ∧
    ∀ k, r' !! k = if decide (j <= k < w) then d !! k else r !! k.
Proof using HD HDn.
  intros Hc Hz Hp Hpn Hi. revert j m_data r. induction m as [|m IH]; intros j m_data r Hj Hd Hr Hlr Hs; cbn [column_loop].
  - exists r. rewrite list_insert_id by done. split; [done|]. split; [done|]. intros k. by rewrite decide_False by lia.
  - destruct (sum_loop_run (n - S i) (S i) cs m_data j 0 Hc) as (s & Hcomb & ->); [lia|lia|done|]. cbn [mbind option_bind].
    destruct (block_lookup i j Hi) as (d0 & x & Hd0 & Hvd & Hx & Hbx & _); [lia|]. simplify_eq.
    assert (Hbp : is_byte p) by (destruct Hc as [_ Hb]; rewrite Forall_lookup in Hb; eauto).
    assert (Hrow : ext cs !! (n + j) = Some (Z.lxor (gmul p x) s)).
    { destruct Hc as [Hlc Hbc]. unfold NetworkCoding.ext. rewrite lookup_app_r by lia. replace (n + j - length cs) with j by lia.
      rewrite <- (take_drop_middle cs i p Hp) at 1. rewrite <- (take_drop_middle D i d Hd) at 1.
      rewrite comb_app; [|constructor; [done|by apply Forall_drop]|rewrite !length_take; lia].
      assert (take i cs = vzero i) as ->.
      { apply list_eq. intros k. destruct (decide (k < i)) as [Hk|Hk].
        - rewrite lookup_take_lt by done. rewrite Hz by done. unfold vzero. by rewrite lookup_replicate_2.
        - rewrite !lookup_ge_None_2; [done| |rewrite length_take; lia]. unfold vzero. rewrite length_replicate. lia. }
      rewrite comb_zero by by apply Forall_take. cbn [comb]. rewrite vxor_0_l.
      - apply lookup_vxor; [by rewrite lookup_vscale, Hx|done].
      - apply (vec_vxor w); [by apply vec_vscale|apply comb_vec; by apply Forall_drop]. }
    rewrite Hrow. cbn [mbind option_bind]. rewrite (ext_lookup n), Hp by done. cbn [mbind option_bind].
    unfold Sub. rewrite Z.lxor_0_l, Z.lxor_assoc, Z.lxor_nilpotent, Z.lxor_0_r.
    rewrite Div_run by (done || apply gmul_range). cbn [mbind option_bind]. rewrite (gmul_comm p), gdiv_cancel by done.
    unfold store2, store. rewrite Hr. cbn [mbind option_bind]. destruct (Nat.ltb_spec j (length r)); [|lia]. cbn [mbind option_bind].
    apply lookup_lt_Some in Hr as Hlen.
    destruct (IH (S j) (<[i := <[j := x]> r]> m_data) (<[j := x]> r)) as (r' & -> & Hl' & Hlk).
    + lia.
    + done.
    + by apply list_lookup_insert_eq.
    + by rewrite length_insert.
    + intros k' j' Hk' Hj'. unfold at2. rewrite list_lookup_insert_ne by lia. apply Hs; lia.
    + exists r'. rewrite list_insert_insert_eq. split; [done|]. split; [by rewrite Hl', length_insert|].
      intros k. rewrite Hlk. destruct (decide (k = j)) as [->|Hne].
      * rewrite decide_False, decide_True, list_lookup_insert_eq by lia. done.
      * rewrite list_lookup_insert_ne by done. destruct (decide (S j <= k < w)); [rewrite decide_True by lia|rewrite decide_False by lia]; done.
Qed.

(** [m_data] with the first [w] elements of its first [m] rows from the blocks. *)
Definition filled (m : nat) (m_data m_data' : list (list Z)) : Prop :=
  ∀ k, m_data' !! k = if decide (k < m) then d ← D !! k; r ← m_data !! k; Some (d ++ drop w r) else m_data !! k.

Lemma row_loop_run i R m_data :
  tri n R → (∀ i, i < n → pivot R i ≠ 0%Z) → i <= n → n <= length m_data → (∀ k r, k < n → m_data !! k = Some r → w <= length r) →
  solved i m_data → ∃ m_data', row_loop gf i n w (ext <$> R) m_data = Some m_data' ∧ filled i m_data m_data'.
Proof using HD HDn.
  intros Ht Hpiv. revert m_data. induction i as [|i IH]; intros m_data Hi Hlen Hrows Hs; cbn [row_loop].
  - exists m_data. split; [done|]. intros k. by rewrite decide_False by lia.
  - destruct (tri_lookup n R i Ht) as (cs & p & HR & Hvc & Hp & _ & Ep); [lia|]. rewrite list_lookup_fmap, HR. cbn [fmap option_fmap option_map mbind option_bind].
    assert (p ≠ 0%Z) as Hpn by (rewrite <- Ep; apply Hpiv; lia).
    destruct (lookup_lt_is_Some_2 D i) as [d Hd]; [lia|]. destruct (lookup_lt_is_Some_2 m_data i) as [r Hr]; [lia|].
    assert (Hlr : w <= length r) by (apply (Hrows i); [lia|done]).
    assert (Hvd : vec w d) by (rewrite Forall_lookup in HD; eauto).
    destruct (column_loop_run w 0 i cs p m_data r d) as (r' & -> & Hl' & Hlk);
      [done|by apply (tri_row _ _ Ht)|done|done|lia|lia|done|done|done|done|]. cbn [mbind option_bind].
    assert (r' = d ++ drop w r) as ->.
    { apply list_eq. intros k. rewrite Hlk. destruct Hvd as [Hld _]. destruct (decide (0 <= k < w)) as [Hk|Hk].
      - by rewrite lookup_app_l by lia.
      - rewrite lookup_app_r, lookup_drop by lia. f_equal. lia. }
    assert (Hlen' : i < length m_data) by lia.
    destruct (IH (<[i := d ++ drop w r]> m_data)) as (m' & -> & Hf).
    + lia.
    + by rewrite length_insert.
    + intros k r2 Hk. destruct (decide (k = i)) as [->|Hne]; [rewrite list_lookup_insert_eq by done; intros [= <-]; rewrite length_app; destruct Hvd; lia|].
      rewrite list_lookup_insert_ne by done. by apply Hrows.
    + intros k j Hk Hj. unfold at2. destruct (decide (k = i)) as [->|Hne].
      * rewrite list_lookup_insert_eq, Hd by done. cbn [mbind option_bind]. rewrite lookup_app_l; [done|]. destruct Hvd. lia.
      * rewrite list_lookup_insert_ne by done. apply Hs; lia.
    + exists m'. split; [done|]. intros k. rewrite Hf. destruct (decide (k = i)) as [->|Hne].
      * rewrite decide_False, decide_True, list_lookup_insert_eq, Hd, Hr by lia. done.
      * rewrite !list_lookup_insert_ne by done. destruct (decide (k < i)); [rewrite decide_True by lia|rewrite decide_False by lia]; done.
Qed.

Lemma decode_run buffer m_data :
  0 < n → length buffer = n → Forall (coded n w D) buffer → n <= length m_data → Forall (λ r, length r = w) (take n m_data) →
  ∃ ok m_data', Decode gf false buffer m_data = Some (ok, m_data') ∧
    (ok = true ↔ full_rank n (coeffs <$> buffer)) ∧
    m_data' = if ok then D ++ drop n m_data else m_data.
Proof using HD HDn.
  intros Hn Hl Hb Hlen Hrows. assert (HV : Forall (vec n) (coeffs <$> buffer)) by (apply Forall_fmap; eapply Forall_impl; [exact Hb|]; by intros b []).
  unfold Decode. destruct (lookup_lt_is_Some_2 buffer 0) as [b Hb0]; [lia|]. rewrite Hb0. cbn [mbind option_bind].
  assert (coded n w D b) as [-> Hbw _ _] by (rewrite Forall_lookup in Hb; eauto).
  assert (replicate n (replicate (n + width false (block_size b)) 0%Z) = ext <$> replicate n (vzero n)) as ->.
  { rewrite fmap_replicate. f_equal. unfold width, NetworkCoding.ext. rewrite Hbw, comb_zero by done. unfold vzero. by rewrite <- replicate_add. }
  destruct (decode_loop_run n w D HD n 0 buffer (replicate n (vzero n))) as (ok & R & -> & Ht & Hsp & H); [done|lia|apply tri_zero|apply rank_zero|constructor| |].
  { apply Forall_replicate. by apply span_zero. }
  cbn [mbind option_bind]. destruct ok.
  - unfold BackSubstitution, width, GetRank. rewrite Hb0. cbn [mbind option_bind].
    assert (coded n w D b) as [-> -> _ _] by (rewrite Forall_lookup in Hb; eauto). rewrite Hl, Nat.eqb_refl. cbn [negb].
    destruct (row_loop_run n R m_data) as (m' & -> & Hf); [done|by apply pivots_rank; [apply Ht|]|done|done| |intros k j Hk; lia|].
    { intros k r Hk Hr. rewrite Forall_lookup in Hrows. rewrite (Hrows k r); [done|]. by rewrite lookup_take_lt. }
    cbn [mbind option_bind]. exists true, m'. split; [done|]. split.
    + split; [|done]. intros _ v Hv. apply (span_trans n _ R); [done|done|]. by apply rank_full.
    + apply list_eq. intros k. rewrite Hf. destruct (decide (k < n)) as [Hk|Hk].
      * rewrite lookup_app_l by lia. destruct (lookup_lt_is_Some_2 D k) as [d Hd]; [lia|]. destruct (lookup_lt_is_Some_2 m_data k) as [r Hr]; [lia|].
        rewrite Hd, Hr. cbn [mbind option_bind]. rewrite drop_ge, app_nil_r; [done|].
        rewrite Forall_lookup in Hrows. rewrite (Hrows k r); [done|]. by rewrite lookup_take_lt.
      * rewrite lookup_app_r, lookup_drop by lia. f_equal. lia.
  - destruct H as (i & Hi & Hr & Hin). exists false, m_data. split; [done|]. split; [|done]. split; [done|]. intros Hfull. exfalso.
    rewrite <- (take_drop (S i) (coeffs <$> buffer)) in Hfull. revert Hfull. apply (dependent n R); [done|by apply Forall_drop|by apply Forall_take|done|].
    rewrite length_drop, length_fmap. lia.
Qed.

(** C16: decoding inverts coding: from [n] coded blocks of a generation [Decode] succeeds exactly
    when their coefficients have full rank - whatever the order of the blocks, and within the
    bounds of every buffer - and then the first rows of [m_data] are the data blocks; otherwise
    [m_data] is as it was. *)
Theorem nc_decode_correct buffer m_data :
  0 < n → length buffer = n → Forall (coded n w D) buffer → n <= length m_data → Forall (λ r, length r = w) (take n m_data) →
  ∃ ok m_data', Decode gf false buffer m_data = Some (ok, m_data') ∧
    (ok = true ↔ full_rank n (coeffs <$> buffer)) ∧
    m_data' = if ok then D ++ drop n m_data else m_data.
Proof using HD HDn. apply decode_run. Qed.
End Solving.

(** Two blocks that are the same: the decoder of one generation refuses them, that of many answers true and changes the data. *)
Definition ex_dependent : list CodedBlock := [CB 0 2 2 [1; 1]%Z [4; 6]%Z; CB 0 2 2 [1; 1]%Z [4; 6]%Z].
Example decode_dependent : Decode gf false ex_dependent [[9; 9]; [9; 9]]%Z = Some (false, [[9; 9]; [9; 9]]%Z).
Proof. vm_compute. reflexivity. Qed.
Example decode_generations_dependent :
  option_map (λ x, (x.1, bool_decide (x.2 = [[[9; 9]; [9; 9]]]%Z))) (Decode_generations gf false [ex_dependent] [[[9; 9]; [9; 9]]]%Z 1) = Some (true, false).
Proof. vm_compute. reflexivity. Qed.

Lemma nc_decode_correct_witness :
  ∃ ok m_data', Decode gf false [CB 0 2 2 [1; 1]%Z [4; 6]%Z; CB 0 2 2 [0; 2]%Z [6; 8]%Z] [[0; 0]; [0; 0]; [9; 9]]%Z = Some (ok, m_data') ∧
    (ok = true ↔ full_rank 2 [[1; 1]; [0; 2]]%Z) ∧
    m_data' = if ok then [[7; 2]; [3; 4]; [9; 9]]%Z else [[0; 0]; [0; 0]; [9; 9]]%Z.
Proof.
  apply (nc_decode_correct 2 2 [[7; 2]; [3; 4]]%Z) with
    (buffer := [CB 0 2 2 [1; 1]%Z [4; 6]%Z; CB 0 2 2 [0; 2]%Z [6; 8]%Z]) (m_data := [[0; 0]; [0; 0]; [9; 9]]%Z); try (cbn; lia).
  - repeat constructor; unfold is_byte; lia.
  - repeat constructor; unfold is_byte; (lia || (vm_compute; reflexivity)).
  - repeat constructor.
Defined.

(** ** Encoding makes coded blocks *)

(** The draws that give a coefficient. *)
Definition good (limit : Z) (draws : list Z) : nat := length (filter (λ r, u8 (Z.rem r limit) ≠ 0%Z) draws).

Lemma draw_run limit draws m :
  S m <= good limit draws → ∃ c draws', draw limit draws = Some (c, draws') ∧ is_byte c ∧ c ≠ 0%Z ∧ m <= good limit draws'.
Proof.
  unfold good. induction draws as [|r draws IH]; intros Hg; [cbn in Hg; lia|]. cbn [draw]. cbv zeta.
  destruct (Z.eqb_spec (u8 (Z.rem r limit)) 0) as [E|E].
  - rewrite filter_cons_False in Hg by tauto. by apply IH.
  - rewrite filter_cons_True in Hg by done. cbn [length] in Hg. eexists _, _. split; [done|]. split; [apply u8_byte|]. split; [done|lia].
Qed.

Lemma nc_clear_run l n : length l = n → clear l n = Some (vzero n).
Proof. intros <-. unfold clear. by rewrite Nat.leb_refl, drop_all, app_nil_r. Qed.
Lemma store_middle (l1 : list Z) x y l2 i : length l1 = i → store (l1 ++ x :: l2) i y = Some (l1 ++ y :: l2).
Proof.
  intros <-. unfold store. rewrite length_app. cbn [length]. destruct (Nat.ltb_spec (length l1) (length l1 + S (length l2))); [|lia].
  by rewrite insert_app_r_alt, Nat.sub_diag by lia.
Qed.

Section Encoding.
Context (field_size : Z) (w : nat) (D : list (list Z)) (HD : Forall (vec w) D).

(** One more coefficient and one more block. *)
Lemma comb_snoc cs c d ds : length cs = length ds → vec w d → comb w (cs ++ [c]) (ds ++ [d]) = vxor (comb w cs ds) (vscale c d).
Proof.
  intros Hl Hd. rewrite comb_app by (done || by constructor). cbn [comb]. rewrite (vxor_0_r w); [done|]. by apply vec_vscale.
Qed.

Lemma encode_loop_run m draws C1 D1 D2 :
  D = D1 ++ D2 → length C1 = length D1 → length D2 = m → bytes C1 → m <= good (field_limit field_size) draws →
  ∃ C2 draws', encode_loop gf field_size m (length C1) D w draws (C1 ++ vzero m) (comb w C1 D1) =
    Some (C1 ++ C2, comb w (C1 ++ C2) D, draws') ∧ vec m C2 ∧ Forall (λ c, c ≠ 0%Z) C2.
Proof using HD.
  revert draws C1 D1 D2. induction m as [|m IH]; intros draws C1 D1 D2 E Hl Hm Hb Hg; cbn [encode_loop].
  - destruct D2; [|discriminate Hm]. rewrite app_nil_r in E. exists [], draws. rewrite !app_nil_r, E. done.
  - destruct D2 as [|d D2]; [discriminate Hm|]. injection Hm as Hm. destruct (draw_run _ _ _ Hg) as (c & draws1 & -> & Hbc & Hn & Hg').
    cbn [mbind option_bind]. change (vzero (S m)) with (0%Z :: vzero m). rewrite store_middle by done. cbn [mbind option_bind].
    assert (D !! length C1 = Some d) as -> by (by rewrite E, Hl, lookup_app_r, Nat.sub_diag by lia). cbn [mbind option_bind].
    assert (Hd : vec w d ∧ Forall (vec w) D1) by (rewrite E in HD; apply Forall_app in HD as [? HD2]; by apply Forall_cons in HD2 as [? _]). destruct Hd as [Hd HD1].
    rewrite (mul_add_vec w) by (done || by apply comb_vec). cbn [mbind option_bind]. rewrite <- comb_snoc by done.
    destruct (IH draws1 (C1 ++ [c]) (D1 ++ [d]) D2) as (C2 & draws' & E2 & Hv & Hnz).
    + by rewrite <- app_assoc.
    + rewrite !length_app. cbn. lia.
    + done.
    + apply Forall_app. split; [done|by constructor].
    + done.
    + rewrite length_app, Nat.add_1_r in E2. rewrite <- !app_assoc in E2. cbn [app] in E2. rewrite E2.
      exists (c :: C2), draws'. split; [done|]. destruct Hv as [Hlv Hbv]. split; [split; [cbn; lia|by constructor]|by constructor].
Qed.

Lemma single_loop_run m id C1 D1 D2 :
  D = D1 ++ D2 → C1 = (λ i, if i =? id then 1%Z else 0%Z) <$> seq 0 (length D1) → length D2 = m →
  single_loop gf m (length D1) D id w (C1 ++ vzero m) (comb w C1 D1) =
    Some ((λ i, if i =? id then 1%Z else 0%Z) <$> seq 0 (length D), comb w ((λ i, if i =? id then 1%Z else 0%Z) <$> seq 0 (length D)) D).
Proof using HD.
  set (f := λ i, if i =? id then 1%Z else 0%Z).
  revert C1 D1 D2. induction m as [|m IH]; intros C1 D1 D2 E EC Hm; cbn [single_loop].
  - destruct D2; [|discriminate Hm]. rewrite app_nil_r in E |- *. by rewrite EC, E.
  - destruct D2 as [|d D2]; [discriminate Hm|]. injection Hm as Hm.
    assert (Hlc : length C1 = length D1) by (by rewrite EC, length_fmap, length_seq).
    change (vzero (S m)) with (0%Z :: vzero m). rewrite store_middle by done. cbn [mbind option_bind].
    assert (D !! length D1 = Some d) as -> by (by rewrite E, lookup_app_r, Nat.sub_diag by lia). cbn [mbind option_bind].
    assert (Hd : vec w d ∧ Forall (vec w) D1) by (rewrite E in HD; apply Forall_app in HD as [? HD2]; by apply Forall_cons in HD2 as [? _]). destruct Hd as [Hd HD1].
    rewrite (mul_add_vec w) by (done || (by apply comb_vec) || by destruct (_ =? _)). cbn [mbind option_bind]. fold (f (length D1)). rewrite <- comb_snoc by done.
    specialize (IH (C1 ++ [f (length D1)]) (D1 ++ [d]) D2). rewrite length_app, Nat.add_1_r in IH. rewrite <- !app_assoc in IH. cbn [app] in IH.
    apply IH; [done| |done]. by rewrite EC, seq_S, fmap_app.
Qed.

Lemma comb_comb n A V :
  length A = length V → bytes A → Forall (vec n) V → comb w (comb n A V) D = comb w A ((λ v, comb w v D) <$> V).
Proof using HD.
  intros Hl Hb. revert V Hl. induction Hb as [|a A Ha Hb IH]; intros [|v V] Hl HV; try discriminate Hl; cbn [comb fmap list_fmap]; [by apply comb_zero|].
  apply Forall_cons in HV as [Hv HV]. rewrite (comb_vxor w n) by (done || (by apply vec_vscale) || by apply comb_vec).
  rewrite comb_vscale by (done || apply Hv). f_equal. apply IH; [by injection Hl|done].
Qed.

Lemma draw_loop_run m draws C1 U :
  m <= length U → m <= good (field_limit field_size) draws →
  ∃ C2 draws', draw_loop field_size m (length C1) draws (C1 ++ U) = Some (C1 ++ C2 ++ drop m U, draws') ∧ vec m C2.
Proof.
  revert draws C1 U. induction m as [|m IH]; intros draws C1 U Hl Hg; cbn [draw_loop].
  - exists [], draws. by rewrite drop_0.
  - destruct U as [|u U]; [cbn in Hl; lia|]. destruct (draw_run _ _ _ Hg) as (c & draws1 & -> & Hbc & _ & Hg'). cbn [mbind option_bind].
    rewrite store_middle by done. cbn [mbind option_bind drop]. destruct (IH draws1 (C1 ++ [c]) U) as (C2 & draws' & E & Hv2 & Hb2); [cbn in Hl; lia|done|].
    rewrite length_app, Nat.add_1_r, <- !app_assoc in E. cbn [app] in E. rewrite E. exists (c :: C2), draws'. split; [done|].
    split; [cbn; lia|by constructor].
Qed.

Lemma reencode_loop_run n m A1 A2 B1 B2 U buffer :
  buffer = B1 ++ B2 → length A1 = length B1 → length A2 = length B2 → length B2 = m → bytes (A1 ++ A2) → Forall (coded n w D) buffer →
  reencode_loop gf m (length A1) buffer (A1 ++ A2 ++ U) n w (comb n A1 (coeffs <$> B1)) (comb w A1 (sums <$> B1)) =
    Some (comb n (A1 ++ A2) (coeffs <$> buffer), comb w (A1 ++ A2) (sums <$> buffer)).
Proof using HD.
  revert A1 A2 B1 B2. induction m as [|m IH]; intros A1 A2 B1 B2 E H1 H2 Hm Hb Hc; cbn [reencode_loop].
  - destruct B2; [|discriminate Hm]. destruct A2; [|discriminate H2]. rewrite app_nil_r in E |- *. by subst.
  - destruct B2 as [|b B2]; [discriminate Hm|]. destruct A2 as [|a A2]; [discriminate H2|]. injection Hm as Hm. injection H2 as H2.
    assert (buffer !! length A1 = Some b) as -> by (by rewrite E, H1, lookup_app_r, Nat.sub_diag by lia). cbn [mbind option_bind app].
    rewrite lookup_app_r, Nat.sub_diag by lia. cbn [lookup list_lookup mbind option_bind].
    assert (Hcb : coded n w D b ∧ Forall (coded n w D) B1) by (rewrite E in Hc; apply Forall_app in Hc as [? HC]; by apply Forall_cons in HC as [? _]).
    destruct Hcb as [Hcb HC1]. assert (is_byte a) as Ha by (apply Forall_app in Hb as [_ Hb2]; by apply Forall_cons in Hb2 as [? _]).
    assert (HV : Forall (vec n) (coeffs <$> B1)) by (apply Forall_fmap; eapply Forall_impl; [exact HC1|]; by intros ? []).
    assert (HS : Forall (vec w) (sums <$> B1)) by (apply Forall_fmap; eapply Forall_impl; [exact HC1|]; intros y [_ _ _ Hy]; cbn; rewrite Hy; by apply comb_vec).
    assert (Hvs : vec w (sums b)) by (destruct Hcb as [_ _ _ ->]; by apply comb_vec). pose proof (cd_coeffs _ _ _ _ Hcb) as Hvc.
    rewrite (mul_add_vec n) by (done || by apply comb_vec). cbn [mbind option_bind]. rewrite (mul_add_vec w) by (done || by apply comb_vec). cbn [mbind option_bind].
    assert (∀ k (f : CodedBlock → list Z), Forall (vec k) (f <$> B1) → vec k (f b) →
              vxor (comb k A1 (f <$> B1)) (vscale a (f b)) = comb k (A1 ++ [a]) (f <$> (B1 ++ [b]))) as Hsn.
    { intros k f HF Hf. rewrite fmap_app. cbn [fmap list_fmap]. rewrite comb_app by (rewrite ?length_fmap; done || by constructor). cbn [comb].
      rewrite (vxor_0_r k); [done|]. by apply vec_vscale. }
    rewrite !Hsn by done. specialize (IH (A1 ++ [a]) A2 (B1 ++ [b]) B2). rewrite <- !app_assoc in IH. cbn [app] in IH.
    rewrite length_app, Nat.add_1_r in IH. apply IH; try done. rewrite !length_app. cbn. lia.
Qed.

Definition room (n : nat) (out : CodedBlock) : Prop :=
  num_blocks_gen out = n ∧ block_size out = w ∧ length (coeffs out) = n ∧ length (sums out) = w.

Lemma EncodeBlock_run n out draws :
  length D = n → room n out → n <= good (field_limit field_size) draws →
  ∃ b draws', EncodeBlock gf field_size false D out draws = Some (b, draws') ∧ coded n w D b ∧ gen b = gen out ∧ Forall (λ c, c ≠ 0%Z) (coeffs b).
Proof using HD.
  intros HDn (Hn & Hw & Hc & Hs) Hg. unfold EncodeBlock, width. rewrite Hn, Hw, !nc_clear_run by done. cbn [mbind option_bind].
  destruct (encode_loop_run n draws [] [] D) as (C2 & draws' & E & Hv & Hnz); [done..|]. cbn [length app comb] in E. rewrite E. cbn [mbind option_bind].
  eexists _, _. split; [done|]. by split; [split|].
Qed.

Lemma unit_list n id : id < n → ((λ i, if i =? id then 1%Z else 0%Z) <$> seq 0 n) = vzero id ++ 1%Z :: vzero (n - S id).
Proof.
  intros Hid. unfold vzero. apply list_eq. intros k. rewrite list_lookup_fmap. destruct (decide (k < n)) as [Hk|Hk].
  - rewrite lookup_seq_lt by done. cbn [fmap option_fmap option_map Nat.add]. destruct (Nat.eqb_spec k id) as [->|Hne].
    + rewrite lookup_app_r; rewrite ?length_replicate, ?Nat.sub_diag; done || lia.
    + destruct (decide (k < id)).
      * rewrite lookup_app_l by (rewrite length_replicate; lia). by rewrite lookup_replicate_2.
      * rewrite lookup_app_r by (rewrite length_replicate; lia). rewrite length_replicate.
        destruct (k - id) as [|k'] eqn:Ek; [lia|]. change (Some 0%Z = replicate (n - S id) 0%Z !! k'). by rewrite lookup_replicate_2 by lia.
  - rewrite lookup_seq_ge by lia. symmetry. apply lookup_ge_None_2. rewrite length_app. cbn. rewrite !length_replicate. lia.
Qed.
Lemma comb_unit id : id < length D → Some (comb w ((λ i, if i =? id then 1%Z else 0%Z) <$> seq 0 (length D)) D) = D !! id.
Proof using HD.
  intros Hid. rewrite unit_list by done. destruct (lookup_lt_is_Some_2 D id) as [d Hd]; [done|].
  assert (vec w d) as Hvd by (rewrite Forall_lookup in HD; eauto). rewrite Hd. f_equal. rewrite <- (take_drop_middle D id d Hd) at 2.
  rewrite comb_app; [|constructor; [done|by apply Forall_drop]|unfold vzero; rewrite length_replicate, length_take; lia].
  rewrite comb_zero by by apply Forall_take. cbn [comb]. rewrite comb_zero by by apply Forall_drop. rewrite vscale_1 by apply Hvd.
  rewrite (vxor_0_r w), vxor_0_l; [done|apply Hvd..].
Qed.
Lemma EncodeSingleBlock_run n out id :
  length D = n → room n out → id < n →
  ∃ b, EncodeSingleBlock gf false D out id = Some b ∧ coded n w D b ∧ gen b = gen out ∧ Some (sums b) = D !! id.
Proof using HD.
  intros HDn (Hn & Hw & Hc & Hs) Hid. unfold EncodeSingleBlock, width. rewrite Hn, Hw, !nc_clear_run by done. cbn [mbind option_bind].
  pose proof (single_loop_run n id [] [] D eq_refl eq_refl HDn) as E. cbn [length app comb] in E. rewrite E. cbn [mbind option_bind].
  eexists. split; [done|]. split; [|split; [done|by apply comb_unit; rewrite HDn]].
  split; [done|done| |done]. cbn [coeffs]. split; [by rewrite length_fmap, length_seq|].
  apply Forall_fmap, Forall_true. intros i. cbn. by destruct (i =? id).
Qed.

Lemma ReEncodeBlock_run n uninit buffer out draws :
  room n out → Forall (coded n w D) buffer → length uninit = n → length buffer <= n → length buffer <= good (field_limit field_size) draws →
  ∃ b draws', ReEncodeBlock gf field_size false uninit buffer out draws = Some (negb (length buffer =? 0), b, draws') ∧
    if length buffer =? 0 then b = out else coded n w D b ∧ gen b = gen out.
Proof using HD.
  intros (Hn & Hw & Hc & Hs) Hb Hu Hl Hg. unfold ReEncodeBlock, width, GetRank. rewrite Hn, Hw.
  destruct (Nat.eqb_spec (length buffer) 0); [by eexists _, _|]. cbn [negb]. rewrite !nc_clear_run by done. cbn [mbind option_bind].
  destruct (draw_loop_run (length buffer) draws [] uninit) as (C2 & draws' & E & Hv); [lia|done|]. cbn [length app] in E. rewrite E. cbn [mbind option_bind].
  pose proof (reencode_loop_run n (length buffer) [] C2 [] buffer (drop (length buffer) uninit) buffer eq_refl eq_refl (proj1 Hv) eq_refl (proj2 Hv) Hb) as E2.
  cbn [length app comb fmap list_fmap] in E2. rewrite E2. cbn [mbind option_bind]. eexists _, _. split; [done|]. split; [|done].
  assert (HV : Forall (vec n) (coeffs <$> buffer)) by (apply Forall_fmap; eapply Forall_impl; [exact Hb|]; by intros ? []).
  split; cbn [num_blocks_gen block_size coeffs sums]; [done|done|by apply comb_vec|].
  rewrite comb_comb by (rewrite ?length_fmap; done || apply Hv). f_equal. rewrite <- list_fmap_compose. apply list_fmap_ext.
  intros i b Hi. rewrite Forall_lookup in Hb. by destruct (Hb _ _ Hi) as [_ _ _ ->].
Qed.

End Encoding.


(** ** Helpful blocks *)

Lemma ext_nil cs : ext 0 [] cs = cs.
Proof. unfold ext. destruct cs; cbn [comb]; apply app_nil_r. Qed.

(** [IsHelpful] answers true exactly when the coefficients are not a combination of the rows. *)
Lemma IsHelpful_run n R b :
  tri n R → num_blocks_gen b = n → vec n (coeffs b) →
  ∃ ok R', IsHelpful gf (rank R) R b = Some (ok, R') ∧ stepped n R (coeffs b) ok R'.
Proof.
  intros Ht Hn Hv. unfold IsHelpful. rewrite Hn. destruct (Nat.eqb_spec (rank R) n) as [E|E].
  - exists false, R. split; [done|]. pose proof (tri_vec _ _ Ht) as HV. split; try done.
    + by apply rank_full.
    + apply Forall_forall. intros y Hy. by apply span_elem.
    + split; [done|]. intros H. destruct H. by apply rank_full.
  - unfold copy. pose proof (proj1 Hv) as Hl. rewrite Hl, Nat.leb_refl, take_ge by lia. cbn [mbind option_bind].
    destruct (step_run n 0 [] (Forall_nil_2 _) R (coeffs b) Ht) as (found & v' & R' & Er & Hput & Hst); [done|].
    assert (∀ R1 : list (list Z), ext 0 [] <$> R1 = R1) as Eid.
    { intros R0. induction R0 as [|r R0 IH]; [done|]. cbn. by rewrite ext_nil, IH. }
    rewrite Eid, !ext_nil, Nat.add_0_r in Er. rewrite Er. cbn [mbind option_bind]. destruct found as [f|].
    + rewrite !Eid, ext_nil, Nat.add_0_r in Hput. rewrite Hput. exists true, R'. split; [done|]. by rewrite bool_decide_true in Hst.
    + subst R'. exists false, R. split; [done|]. by rewrite bool_decide_false in Hst by tauto.
Qed.
