(* ===== verification/CodeTorrent.v ===== *)
(** * CodeTorrent: files through network coding ([networkcoding/codetorrent.cpp],
    [codetorrentencoder.cpp], [codetorrentdecoder.cpp]).

    The server reads a file into data blocks, a generation at a time, and gives coded blocks of
    [NetworkCoding]; the client keeps the helpful ones, in memory or - when the memory buffer is
    full - appended to a file per generation, and decodes when every generation has full rank.

    Files are a map from paths to contents; opening, reading and writing succeed where the file is
    there.  Sizes and counts are [int]s: a [size_t] or a [long] is reduced to 32 bits where it is handed to a
    [CodeTorrent] ([to_int]), and a product or a count that does not fit is undefined behaviour ([int]).
    [None] is undefined behaviour, an assertion that fails, an array of a negative size, a size that is negative after the
    reduction, or a loop of draws of [rand] that does not end.  Block counts are quotients of doubles in the
    code; below 2^31 a quotient of integers cannot be rounded across an integer, and they are
    integer quotients here. *)

From S2P Require Import Prelude Text Galois NetworkCoding.

#[local] Open Scope nat_scope.

Abbreviation ct_files := (gmap string (list Z)).
Definition MAX_FILE_NAME_LEN : nat := 256.

(** The result of [int] arithmetic on numbers that are not negative, or of the conversion of a [double]. *)
Definition int (n : nat) : option nat := if (Z.of_nat n <? 2 ^ 31)%Z then Some n else None.
(** A [size_t] or a [long] as an [int]. *)
Definition to_int (n : nat) : option nat := let z := s32 (Z.of_nat n) in if (z <? 0)%Z then None else Some (Z.to_nat z).

(** [ceil (file_size * 8 / field_size / block_size)]; sizes of zero are left out. *)
Definition num_blocks_of (file_size field_size block_size : nat) : option nat :=
  if (field_size =? 0) || (block_size =? 0) then None
  else int ((file_size * 8 + field_size * block_size - 1) / (field_size * block_size)).

(** The products here are at most one of their [int]s.  The block counts of the generations, as [LoadFileInfo] and [InitClient] compute them. *)
Definition server_gens (num_blocks in_num_blocks_per_gen : nat) : option (list Z) :=
  if in_num_blocks_per_gen =? 0 then None
  else
    let num_gens := num_blocks / in_num_blocks_per_gen in
    let num_gens := if num_gens =? 0 then 1 else num_gens in
    let full := replicate num_gens (Z.of_nat in_num_blocks_per_gen) in
    if in_num_blocks_per_gen * num_gens =? num_blocks then Some full
    else Some (full ++ [(Z.of_nat num_blocks - Z.of_nat in_num_blocks_per_gen * Z.of_nat num_gens)%Z]).
Definition client_gens (num_blocks in_num_blocks_per_gen : nat) : option (list nat) :=
  if in_num_blocks_per_gen =? 0 then None
  else
    let num_gens := num_blocks / in_num_blocks_per_gen in
    let full := replicate num_gens in_num_blocks_per_gen in
    if in_num_blocks_per_gen * num_gens =? num_blocks then Some full
    else Some (full ++ [num_blocks - in_num_blocks_per_gen * num_gens]).

(** ** Server *)

(** [gen_in_memory] is [None] for -1. *)
Record server := Server
  { s_filename : string; s_file_size : nat; s_field_size : nat; s_block_size : nat; s_gens : list Z;
    gen_in_memory : option nat; s_data : list (list Z) }.
Definition set_data (s : server) (m : option nat) (d : list (list Z)) : server :=
  Server (s_filename s) (s_file_size s) (s_field_size s) (s_block_size s) (s_gens s) m d.

Definition InitServer (field_size in_num_blocks_per_gen block_size : nat) (filename : string) (file_size : nat) : option server :=
  if MAX_FILE_NAME_LEN <=? String.length filename then None
  else
    num_blocks ← num_blocks_of file_size field_size block_size; gens ← server_gens num_blocks in_num_blocks_per_gen;
    Some (Server filename file_size field_size block_size gens None []).

Definition NthSymbol (in_buf : list Z) (fsize at_ : nat) : option Z :=
  if negb (fsize mod 2 =? 0) then None
  else
    let numsyms := 8 / fsize in
    if (fsize =? 0) || (numsyms =? 0) then None
    else
      sym ← in_buf !! (at_ / numsyms);
      Some (Z.land (Z.shiftr sym (Z.of_nat ((numsyms - at_ mod numsyms - 1) * fsize))) (Z.shiftr 255 (Z.of_nat (8 - fsize)))).

(** The first [n] elements of a block, from element [j]. *)
Fixpoint symbol_loop (n j : nat) (fbuf : list Z) (fsize base : nat) (pblk : list Z) : option (list Z) :=
  match n with
  | O => Some pblk
  | S n => x ← NthSymbol fbuf fsize (base + j); pblk ← store pblk j x; symbol_loop n (S j) fbuf fsize base pblk
  end.
Fixpoint block_loop (n i : nat) (nbg : nat) (fbuf : list Z) (last_gen : bool) (fsize bs : nat) (data : list (list Z)) : option (list (list Z)) :=
  match n with
  | O => Some data
  | S n =>
    let len := if last_gen && (i =? nbg - 1) then length fbuf - (nbg - 1) * bs else bs in
    pblk ← symbol_loop len 0 fbuf fsize (bs * i) (replicate bs 0%Z);
    block_loop n (S i) nbg fbuf last_gen fsize bs (data ++ [pblk])
  end.

(** [fbuf] is what [fread] has read. *)
Definition LoadFile (fs : ct_files) (s : server) (gen : nat) : option server :=
  let s := set_data s (gen_in_memory s) [] in
  match fs !! s_filename s with
  | None => Some s
  | Some contents =>
    nbg ← s_gens s !! gen;
    if (nbg <? 0)%Z then None
    else
      gen_size ← int (s_block_size s * Z.to_nat nbg);
      pos ← int (Z.to_nat (foldr Z.add 0%Z (take gen (s_gens s))) * s_block_size s);
      let fbuf := take gen_size (drop pos contents) in
      read ← int (length fbuf + pos);
      let last_gen := (read =? s_file_size s) && (gen =? length (s_gens s) - 1) in
      if negb last_gen && negb (length fbuf =? gen_size) then Some s
      else
        data ← block_loop (Z.to_nat nbg) 0 (Z.to_nat nbg) fbuf last_gen (s_field_size s) (s_block_size s) [];
        Some (set_data s (Some gen) data)
  end.

(** [uninit]: what the buffers of a new coded block hold. *)
Definition AllocCodedBlock (uninit : nat → list Z) (gen n bs : nat) : CodedBlock := CB gen n bs (uninit n) (uninit bs).

(** [Some (None, ..)] is NULL. *)
Definition Encode (g : galois) (uninit : nat → list Z) (fs : ct_files) (s : server) (gen : nat) (draws : list Z)
  : option (option CodedBlock * server * list Z) :=
  s ← (if bool_decide (gen_in_memory s = Some gen) then Some (false, s) else s ← LoadFile fs s gen; Some (length (s_data s) =? 0, s));
  let '(failed, s) := s in
  if failed : bool then Some (None, s, draws)
  else
    nbg ← s_gens s !! gen;
    '(b, draws) ← EncodeBlock g (Z.of_nat (s_field_size s)) false (s_data s) (AllocCodedBlock uninit gen (Z.to_nat nbg) (s_block_size s)) draws;
    Some (Some b, s, draws).

(** ** Client *)

Record client := Client
  { c_filename : string; c_file_size : nat; c_field_size : nat; c_block_size : nat; c_gens : list nat;
    gen_completed : nat; buffer_size : nat; buf : list CodedBlock; m_gdata : list (list Z); m_helpful : list (list (list Z));
    rank_vec : list nat; rank_vec_in_buf : list nat }.

Definition InitClient (fs : ct_files) (field_size in_num_blocks_per_gen block_size : nat) (filename : string) (file_size : nat)
  : option (client * ct_files) :=
  if MAX_FILE_NAME_LEN <=? String.length filename then None
  else
    num_blocks ← num_blocks_of file_size field_size block_size; gens ← client_gens num_blocks in_num_blocks_per_gen;
    n0 ← gens !! 0; buffer_size ← int (in_num_blocks_per_gen * 2);
    Some (Client filename file_size field_size block_size gens 0 buffer_size [] (replicate n0 (replicate block_size 0%Z))
            ((λ n, replicate n (vzero n)) <$> gens) (replicate (length gens) 0) (replicate (length gens) 0),
          delete filename fs).

Definition CopyCodedBlock (b : CodedBlock) : option CodedBlock :=
  cs ← copy (coeffs b) (num_blocks_gen b); ss ← copy (sums b) (block_size b);
  Some (CB (gen b) (num_blocks_gen b) (block_size b) cs ss).

(** [<filename>.temp<gen>]; the number is printed into three bytes. *)
Definition temp_name (filename : string) (gen : nat) : option string :=
  let ext2 := dec (Z.of_nat gen) in
  if String.length ext2 <=? 2 then Some (filename +:+ ".temp" +:+ ext2) else None.
Definition PushGenBuf (fs : ct_files) (c : client) (b : CodedBlock) : option ct_files :=
  name ← temp_name (c_filename c) (gen b); n ← c_gens c !! gen b;
  cs ← copy (coeffs b) n; ss ← copy (sums b) (c_block_size c);
  Some (<[name := default [] (fs !! name) ++ cs ++ ss]> fs).
(** A block that is not all in the file has elements that were never written. *)
Definition ReadGenBuf (fs : ct_files) (c : client) (gen k : nat) : option CodedBlock :=
  name ← temp_name (c_filename c) gen; n ← c_gens c !! gen; contents ← fs !! name;
  size ← int (n + c_block_size c); pos ← int (size * k);
  let rest := drop pos contents in
  cs ← copy rest n; ss ← copy (drop n rest) (c_block_size c);
  Some (CB gen n (c_block_size c) cs ss).

(** ** Storing *)

Definition set_buf (c : client) (b : list CodedBlock) (in_buf : list nat) : client :=
  Client (c_filename c) (c_file_size c) (c_field_size c) (c_block_size c) (c_gens c) (gen_completed c) (buffer_size c) b (m_gdata c)
    (m_helpful c) (rank_vec c) in_buf.
Definition set_rank (c : client) (h : list (list (list Z))) (r : list nat) : client :=
  Client (c_filename c) (c_file_size c) (c_field_size c) (c_block_size c) (c_gens c) (gen_completed c) (buffer_size c) (buf c) (m_gdata c)
    h r (rank_vec_in_buf c).
Definition set_completed (c : client) (n : nat) : client :=
  Client (c_filename c) (c_file_size c) (c_field_size c) (c_block_size c) (c_gens c) n (buffer_size c) (buf c) (m_gdata c)
    (m_helpful c) (rank_vec c) (rank_vec_in_buf c).
Definition set_gdata (c : client) (m : list (list Z)) : client :=
  Client (c_filename c) (c_file_size c) (c_field_size c) (c_block_size c) (c_gens c) (gen_completed c) (buffer_size c) (buf c) m
    (m_helpful c) (rank_vec c) (rank_vec_in_buf c).

(** The generation to evict: drawn until one has blocks in the buffer. *)
Fixpoint evict_loop (in_buf : list nat) (draws : list Z) : option (nat * list Z) :=
  match draws with
  | [] => None
  | r :: draws =>
    let g := Z.to_nat (Z.rem r (Z.of_nat (length in_buf))) in
    n ← in_buf !! g; if n =? 0 then evict_loop in_buf draws else Some (g, draws)
  end.
(** The blocks below [i], from the last. *)
Fixpoint flush_loop (i : nat) (fs : ct_files) (c : client) (gen_to_evict : nat) : option (client * ct_files) :=
  match i with
  | O => Some (c, fs)
  | S i =>
    b ← buf c !! i;
    '(c, fs) ← (if gen b =? gen_to_evict then
                  fs ← PushGenBuf fs c b; n ← rank_vec_in_buf c !! gen_to_evict;
                  Some (set_buf c (delete i (buf c)) (<[gen_to_evict := n - 1]> (rank_vec_in_buf c)), fs)
                else Some (c, fs));
    n ← rank_vec_in_buf c !! gen_to_evict;
    if n =? 0 then Some (c, fs) else flush_loop i fs c gen_to_evict
  end.
Definition FlushBuf (fs : ct_files) (c : client) (draws : list Z) : option (client * ct_files * list Z) :=
  if negb (buffer_size c <=? length (buf c)) then Some (c, fs, draws)
  else
    '(g, draws) ← evict_loop (rank_vec_in_buf c) draws;
    '(c, fs) ← flush_loop (length (buf c)) fs c g; Some (c, fs, draws).

Definition StoreBlock (g : galois) (fs : ct_files) (c : client) (b : CodedBlock) (draws : list Z)
  : option (bool * client * ct_files * list Z) :=
  rank ← rank_vec c !! gen b; h ← m_helpful c !! gen b;
  '(helpful, h) ← IsHelpful g rank h b;
  if negb helpful then Some (false, c, fs, draws)
  else
    b' ← CopyCodedBlock b; n ← rank_vec_in_buf c !! gen b;
    let c := set_rank c (<[gen b := h]> (m_helpful c)) (<[gen b := S rank]> (rank_vec c)) in
    let c := set_buf c (buf c ++ [b']) (<[gen b := S n]> (rank_vec_in_buf c)) in
    '(c, fs, draws) ← (if buffer_size c <=? length (buf c) then FlushBuf fs c draws else Some (c, fs, draws));
    rank ← rank_vec c !! gen b; nbg ← c_gens c !! gen b;
    Some (true, if rank =? nbg then set_completed c (S (gen_completed c)) else c, fs, draws).

(** ** Decoding and combining again *)

Fixpoint read_blocks (n k : nat) (fs : ct_files) (c : client) (gen : nat) : option (list CodedBlock) :=
  match n with O => Some [] | S n => b ← ReadGenBuf fs c gen k; l ← read_blocks n (S k) fs c gen; Some (b :: l) end.
(** The copies of the blocks of a generation, in memory and then in the file. *)
Definition gather (fs : ct_files) (c : client) (g : nat) : option (list CodedBlock) :=
  l ← mapM CopyCodedBlock (filter (λ b, gen b = g) (buf c));
  rank ← rank_vec c !! g; in_buf ← rank_vec_in_buf c !! g;
  l' ← read_blocks (rank - in_buf) 0 fs c g; Some (l ++ l').

(** [fwrite] of the rows [j], [j + 1], .. appends to [out]. *)
Fixpoint write_loop (n j : nat) (c : client) (gen nbg : nat) (out : list Z) : option (list Z) :=
  match n with
  | O => Some out
  | S n =>
    r ← m_gdata c !! j;
    let num_gens := length (c_gens c) in
    let last := (gen =? num_gens - 1) && (j =? nbg - 1) in
    let before := foldr Nat.add 0 (take (num_gens - 1) (c_gens c)) in
    pos ← (if last then int ((before + nbg - 1) * c_block_size c) else Some 0);
    if last && (c_file_size c <? pos) then None
    else
      x ← copy r (if last then c_file_size c - pos else c_block_size c);
      write_loop n (S j) c gen nbg (out ++ x)
  end.
Definition WriteFile (fs : ct_files) (c : client) (gen : nat) : option ct_files :=
  nbg ← c_gens c !! gen; out ← write_loop nbg 0 c gen nbg []; Some (<[c_filename c := out]> fs).

Definition DecodeGen (g : galois) (fs : ct_files) (c : client) (gen : nat) : option (bool * client * ct_files) :=
  tempBuf ← gather fs c gen;
  '(isDecode, m) ← NetworkCoding.Decode g false tempBuf (m_gdata c);
  let c := set_gdata c m in
  if negb isDecode then Some (false, c, fs) else fs ← WriteFile fs c gen; Some (true, c, fs).
Fixpoint decode_gens (g : galois) (n i : nat) (fs : ct_files) (c : client) : option (bool * client * ct_files) :=
  match n with
  | O => Some (true, c, fs)
  | S n =>
    '(ok, c, fs) ← DecodeGen g fs c i;
    if ok : bool then decode_gens g n (S i) fs c else Some (false, c, fs)
  end.
(** The length of the suffix is taken before it is printed: the name has none. *)
Fixpoint clean_loop (n i : nat) (fs : ct_files) (filename : string) : option ct_files :=
  match n with
  | O => Some fs
  | S n => _ ← temp_name filename i; clean_loop n (S i) (delete (filename +:+ ".temp") fs) filename
  end.
Definition DownloadCompleted (c : client) : bool := gen_completed c =? length (c_gens c).
Definition Decode (g : galois) (fs : ct_files) (c : client) : option (bool * client * ct_files) :=
  if negb (DownloadCompleted c) then Some (false, c, fs)
  else
    '(ok, c, fs) ← decode_gens g (length (c_gens c)) 0 fs c;
    if negb ok then Some (false, c, fs)
    else fs ← clean_loop (length (c_gens c)) 0 fs (c_filename c); Some (true, set_buf c [] (rank_vec_in_buf c), fs).

(** NULL when there is nothing to combine. *)
Definition ReEncode (g : galois) (uninit : nat → list Z) (fs : ct_files) (c : client) (gen : nat) (draws : list Z)
  : option (option CodedBlock * list Z) :=
  n ← c_gens c !! gen; tempBuf ← gather fs c gen;
  '(ok, b, draws) ← ReEncodeBlock g (Z.of_nat (c_field_size c)) false (uninit n) tempBuf (AllocCodedBlock uninit gen n (c_block_size c)) draws;
  Some (if ok : bool then Some b else None, draws).

(** ** Encoder and decoder of one generation *)

Definition NETWORKCODING_FIELDSIZE : nat := 8.
Definition blocks_for (fileSize blockSize : nat) : nat := (fileSize + blockSize - 1) / blockSize.
Definition codetorrentencoder (file : string) (blockSize fileSize : nat) : option server :=
  if blockSize =? 0 then None
  else
    numBlocksPerGen ← int (blocks_for fileSize blockSize); bs ← to_int blockSize; size ← to_int fileSize;
    InitServer NETWORKCODING_FIELDSIZE numBlocksPerGen bs file size.
Definition encode (g : galois) (uninit : nat → list Z) (fs : ct_files) (s : server) (draws : list Z) : option (option CodedBlock * server * list Z) :=
  Encode g uninit fs s 0 draws.
Definition codetorrentdecoder (fs : ct_files) (fieldsize blockSize : nat) (outputFile : string) (fileSize : nat) : option (client * ct_files) :=
  blockSize ← to_int blockSize;
  if blockSize =? 0 then None
  else
    numBlocksPerGen ← int (blocks_for fileSize blockSize);
    let numBlocksPerGen := if numBlocksPerGen =? 0 then 1 else numBlocksPerGen in
    size ← to_int fileSize;
    InitClient fs fieldsize numBlocksPerGen blockSize outputFile size.
Definition store_block (g : galois) (fs : ct_files) (c : client) (gen : nat) (cs ss : list Z) (draws : list Z)
  : option (bool * client * ct_files * list Z) :=
  n ← c_gens c !! gen; StoreBlock g fs c (CB gen n (c_block_size c) cs ss) draws.

(** [SingleBlockEncoder::EncodeSingleBlock]: the fragment is one block among blocks of zeros. *)
Definition SingleBlockEncoder_EncodeSingleBlock (g : galois) (uninit : nat → list Z) (gen blockIdInGen : nat) (fragBlockData : list Z)
    (fragDataSize num_blocks_gen : nat) : option CodedBlock :=
  fakeData ← mapM (λ i, if i =? blockIdInGen then copy fragBlockData fragDataSize else Some (replicate fragDataSize 0%Z)) (seq 0 num_blocks_gen);
  EncodeSingleBlock g false fakeData (AllocCodedBlock uninit gen num_blocks_gen fragDataSize) blockIdInGen.

Lemma rank_bound R : rank R <= length R.
Proof. unfold rank. etransitivity; [apply length_filter|]. by rewrite length_seq. Qed.
Lemma int_fits n : (Z.of_nat n < 2 ^ 31)%Z → int n = Some n.
Proof. unfold int. by intros ->%Z.ltb_lt. Qed.
Lemma to_int_fits n : (Z.of_nat n < 2 ^ 31)%Z → to_int n = Some n.
Proof.
  intros H. unfold to_int, s32. rewrite u32_small by (unfold is_u32; lia). destruct (Z.ltb_spec (Z.of_nat n) (2 ^ 31)); [|lia].
  cbv zeta. destruct (Z.ltb_spec (Z.of_nat n) 0); [lia|]. by rewrite Nat2Z.id.
Qed.

(** ** Names of the files *)

Lemma temp_name_some name g : g < 100 → temp_name name g = Some (name +:+ ".temp" +:+ dec (Z.of_nat g)).
Proof.
  intros Hg. unfold temp_name. pose proof (length_dec (Z.of_nat g) 2) as H. change (10 ^ Z.of_nat 2)%Z with 100%Z in H.
  destruct (Nat.leb_spec (String.length (dec (Z.of_nat g))) 2); [done|]. lia.
Qed.
Lemma temp_name_inj name g g' nm : temp_name name g = Some nm → temp_name name g' = Some nm → g = g'.
Proof.
  unfold temp_name. destruct (_ <=? _); [|done]. destruct (_ <=? _); [|done]. intros [= <-] [= E].
  do 2 apply app_string_inj_l in E. apply dec_inj in E; lia.
Qed.
Lemma longer_name name s : String.length s ≠ 0 → name +:+ s ≠ name.
Proof. intros Hs E. apply (f_equal String.length) in E. rewrite length_app_string in E. lia. Qed.
Lemma temp_name_ne name g nm : temp_name name g = Some nm → nm ≠ name ∧ nm ≠ name +:+ ".temp".
Proof.
  unfold temp_name. destruct (_ <=? _); [|done]. intros [= <-]. split; [by apply longer_name|]. intros E.
  destruct (dec_head (Z.of_nat g)) as (d & r & Er & _); [lia|]. rewrite Er in E.
  apply app_string_inj_l, (f_equal String.length) in E. rewrite length_app_string in E. cbn [String.length] in E. lia.
Qed.

(** ** Copies, and blocks in files *)

Definition ser (b : CodedBlock) : list Z := coeffs b ++ sums b.

Section Blocks.
Context (n bs : nat) (D : list (list Z)) (HD : Forall (vec bs) D).

Lemma coded_lengths b : coded n bs D b → length (coeffs b) = n ∧ length (sums b) = bs.
Proof using HD. intros [_ _ [Hl _] ->]. split; [done|]. by apply comb_vec. Qed.
Lemma copy_all l m : length l = m → copy l m = Some l.
Proof. intros <-. unfold copy. by rewrite Nat.leb_refl, take_ge by lia. Qed.
Lemma copy_app l1 l2 m : length l1 = m → copy (l1 ++ l2) m = Some l1.
Proof. intros <-. unfold copy. rewrite length_app. destruct (Nat.leb_spec (length l1) (length l1 + length l2)); [|lia]. by rewrite take_app_length. Qed.
Lemma CopyCodedBlock_run b : coded n bs D b → CopyCodedBlock b = Some b.
Proof using HD.
  intros Hb. destruct (coded_lengths b Hb) as [Hc Hs]. destruct Hb as [Hn Hw _ _]. unfold CopyCodedBlock. rewrite Hn, Hw, !copy_all by done.
  cbn [mbind option_bind]. destruct b. cbn in *. by subst.
Qed.
Lemma copies_run l : Forall (coded n bs D) l → mapM CopyCodedBlock l = Some l.
Proof using HD. induction 1 as [|b l Hb _ IH]; [done|]. cbn. rewrite (CopyCodedBlock_run b Hb). cbn [mbind option_bind]. by rewrite IH. Qed.

Lemma length_ser b : coded n bs D b → length (ser b) = n + bs.
Proof using HD. intros Hb. destruct (coded_lengths b Hb). unfold ser. rewrite length_app. lia. Qed.
Lemma drop_ser F k : Forall (coded n bs D) F → drop ((n + bs) * k) (concat (ser <$> F)) = concat (ser <$> drop k F).
Proof using HD.
  intros HF. revert k. induction HF as [|b F Hb _ IH]; intros [|k]; [by rewrite Nat.mul_0_r|cbn [fmap list_fmap concat]; by rewrite !drop_nil|by rewrite Nat.mul_0_r|].
  cbn [fmap list_fmap concat drop]. replace ((n + bs) * S k) with (length (ser b) + (n + bs) * k) by (rewrite (length_ser b Hb); lia).
  rewrite drop_app_add. apply IH.
Qed.
End Blocks.

(** ** What a client has received *)

Section Client.
(** The generations of a file: their block counts, and their data blocks. *)
Context (name : string) (fsz bs : nat) (ns : list nat) (D : nat → list (list Z)).
Hypothesis HD : ∀ g n, ns !! g = Some n → length (D g) = n ∧ Forall (vec bs) (D g).
Hypothesis Hgens : length ns <= 100.

Definition mem (c : client) (g : nat) : list CodedBlock := filter (λ b, gen b = g) (buf c).
Definition of_gen (g : nat) (l : list CodedBlock) : list (list Z) := coeffs <$> filter (λ b, gen b = g) l.

(** One generation: [H] are the rows that decide what is helpful, [F] the blocks in the file, [recv]
    all blocks that have come. *)
Record gen_inv (fs : ct_files) (c : client) (recv : list CodedBlock) (g n : nat) (H : list (list Z)) (F : list CodedBlock) : Prop := GenInv
  { gi_helpful : m_helpful c !! g = Some H;
    gi_tri : tri n H;
    gi_rank : rank_vec c !! g = Some (rank H);
    gi_in_buf : rank_vec_in_buf c !! g = Some (length (mem c g));
    gi_count : rank H = length (mem c g) + length F;
    gi_coded : Forall (λ b, coded n bs (D g) b ∧ gen b = g) (mem c g ++ F);
    gi_file : ∃ nm, temp_name name g = Some nm ∧ default [] (fs !! nm) = concat (ser <$> F);
    gi_stored : Forall (in_span n (coeffs <$> (mem c g ++ F))) H;
    gi_sound : Forall (in_span n (of_gen g recv)) H;
    gi_all : Forall (in_span n H) (of_gen g recv) }.

Record client_inv (fs : ct_files) (c : client) (recv : list CodedBlock) : Prop := ClientInv
  { ci_gens : c_gens c = ns;
    ci_bs : c_block_size c = bs;
    ci_name : c_filename c = name;
    ci_size : c_file_size c = fsz;
    ci_field : c_field_size c = 8;
    ci_lengths : length (m_helpful c) = length ns ∧ length (rank_vec c) = length ns ∧ length (rank_vec_in_buf c) = length ns;
    ci_buf : Forall (λ b, gen b < length ns) (buf c);
    ci_buffer : 0 < buffer_size c;
    ci_gdata : length (m_gdata c) = default 0 (ns !! 0) ∧ Forall (λ r, length r = bs) (m_gdata c);
    ci_gen : ∀ g n, ns !! g = Some n → ∃ H F, gen_inv fs c recv g n H F }.

(** The count of the generations of full rank. *)
Definition completed_ok (c : client) : Prop := gen_completed c = length (filter (λ g, rank_vec c !! g = ns !! g) (seq 0 (length ns))).

(** A block for one of the generations. *)
Definition valid (b : CodedBlock) : Prop := ∃ n, ns !! gen b = Some n ∧ coded n bs (D (gen b)) b.

Lemma recv_vec g n recv : ns !! g = Some n → Forall valid recv → Forall (vec n) (of_gen g recv).
Proof.
  intros Hg Hr. apply Forall_fmap, Forall_forall. intros b [Hb Hin]%list_elem_of_filter. rewrite Forall_forall in Hr.
  destruct (Hr b Hin) as (n' & Hn & [_ _ Hc _]). cbn. rewrite Hb, Hg in Hn. by injection Hn as ->.
Qed.
Lemma stored_vec fs c recv g n H F : gen_inv fs c recv g n H F → Forall (vec n) (coeffs <$> (mem c g ++ F)).
Proof. intros G. apply Forall_fmap. eapply Forall_impl; [exact (gi_coded _ _ _ _ _ _ _ G)|]. by intros b [[_ _ Hc _] _]. Qed.

(** Blocks stored in another order span the same. *)
Lemma span_perm n V V' v : Forall (vec n) V → V ≡ₚ V' → in_span n V v → in_span n V' v.
Proof.
  intros HV HP. assert (HV' : Forall (vec n) V') by by rewrite <- HP. apply span_trans; [done|].
  apply Forall_forall. intros x Hx. apply span_elem; [done|]. by rewrite <- HP.
Qed.

(** The rank is full when that of the received coefficients is. *)
Lemma rank_received fs c recv g n H F :
  gen_inv fs c recv g n H F → Forall (vec n) (of_gen g recv) → rank H = n ↔ full_rank n (of_gen g recv).
Proof.
  intros [_ Ht _ _ _ _ _ _ Hs Ha] HV. split.
  - intros Hr v Hv. apply (span_trans n _ H); [done|done|]. by apply rank_full.
  - intros Hf. apply pivots_rank; [apply Ht|]. intros i Hi. by apply (full_rank_pivots n H (of_gen g recv)).
Qed.
Lemma rank_stored fs c recv g n H F : gen_inv fs c recv g n H F → rank H = n → full_rank n (coeffs <$> (mem c g ++ F)).
Proof.
  intros G Hr v Hv. apply (span_trans n _ H); [by apply (stored_vec fs c recv g n H F)|exact (gi_stored _ _ _ _ _ _ _ G)|].
  apply rank_full; [exact (gi_tri _ _ _ _ _ _ _ G)|done..].
Qed.

(** ** Moving a block into its file *)

Lemma mem_delete c i b g in_buf :
  buf c !! i = Some b → mem c g ≡ₚ (if decide (gen b = g) then [b] else []) ++ mem (set_buf c (delete i (buf c)) in_buf) g.
Proof.
  intros Hi. unfold mem. cbn [set_buf buf]. rewrite delete_take_drop. rewrite <- (take_drop_middle _ _ _ Hi) at 1.
  rewrite !filter_app, filter_cons. destruct (decide (gen b = g)); [|done]. cbn [app]. by rewrite Permutation_middle.
Qed.

Lemma push_run fs c recv i b n0 :
  client_inv fs c recv → buf c !! i = Some b → rank_vec_in_buf c !! gen b = Some n0 →
  ∃ fs', PushGenBuf fs c b = Some fs' ∧
    client_inv fs' (set_buf c (delete i (buf c)) (<[gen b := n0 - 1]> (rank_vec_in_buf c))) recv.
Proof using HD Hgens.
  intros I Hi Hn0. set (c' := set_buf c _ _). pose proof (ci_buf _ _ _ I) as Hb. rewrite Forall_lookup in Hb. specialize (Hb _ _ Hi).
  destruct (lookup_lt_is_Some_2 ns (gen b) Hb) as [n Hn]. destruct (ci_gen _ _ _ I _ _ Hn) as (H & F & G).
  assert (Hbm : b ∈ mem c (gen b)) by (apply list_elem_of_filter; split; [done|by apply list_elem_of_lookup_2 in Hi]).
  pose proof (gi_coded _ _ _ _ _ _ _ G) as Hc. assert (Hcb : coded n bs (D (gen b)) b).
  { rewrite Forall_app, Forall_forall in Hc. destruct Hc as [Hc _]. by apply Hc in Hbm as [? _]. }
  destruct (HD _ _ Hn) as [_ HDv]. destruct (coded_lengths n bs _ HDv b Hcb) as [Hlc Hls].
  destruct (gi_file _ _ _ _ _ _ _ G) as (nm & Hnm & Hfile).
  unfold PushGenBuf. rewrite (ci_name _ _ _ I), Hnm, (ci_gens _ _ _ I), Hn, (ci_bs _ _ _ I). cbn [mbind option_bind].
  rewrite !copy_all by done. cbn [mbind option_bind]. rewrite Hfile. eexists. split; [done|]. set (fs' := <[nm := _]> fs).
  assert (Hdel : delete i (buf c) ⊆+ buf c) by apply sublist_submseteq, sublist_delete.
  destruct I as [I1 I2 I3 I4 I4' I5 I6 I7 I8 I10]. split; try done.
  - cbn [c' set_buf m_helpful rank_vec rank_vec_in_buf]. by rewrite length_insert.
  - cbn [c' set_buf buf]. apply Forall_forall. intros x Hx. rewrite Forall_forall in I6. apply I6. eapply elem_of_submseteq; [|exact Hdel]. done.
  - intros g m Hg. destruct (decide (g = gen b)) as [->|Hne].
    + rewrite Hn in Hg. injection Hg as <-. pose proof (mem_delete c i b (gen b) (<[gen b := n0 - 1]> (rank_vec_in_buf c)) Hi) as HP. rewrite decide_True in HP by done. fold c' in HP.
      assert (HP' : mem c (gen b) ++ F ≡ₚ mem c' (gen b) ++ (F ++ [b])).
      { rewrite HP, <- app_assoc. by rewrite (Permutation_app_comm [b]), <- app_assoc. }
      assert (Hlen : length (mem c (gen b)) = S (length (mem c' (gen b)))) by by rewrite HP.
      pose proof (stored_vec _ _ _ _ _ _ _ G) as HV. destruct G as [G1 G2 G3 G4 G5 G6 G7 G8 G9 G10]. exists H, (F ++ [b]). split; try done.
      * cbn [c' set_buf rank_vec_in_buf]. rewrite list_lookup_insert_eq by by apply lookup_lt_Some in Hn0.
        rewrite Hn0 in G4. injection G4 as ->. f_equal. fold c'. lia.
      * rewrite length_app. cbn [length]. lia.
      * by rewrite <- HP'.
      * exists nm. split; [done|]. unfold fs'. rewrite lookup_insert_eq. cbn [default from_option id].
        rewrite fmap_app, concat_app. cbn. by rewrite app_nil_r.
      * eapply Forall_impl; [exact G8|]. intros x Hx. eapply span_perm; [done| |exact Hx]. by rewrite HP'.
    + destruct (I10 g m Hg) as (H' & F' & [G1 G2 G3 G4 G5 G6 G7 G8 G9 G10]). exists H', F'.
      assert (Em : mem c' g = mem c g).
      { unfold mem. cbn [c' set_buf buf]. rewrite delete_take_drop. rewrite <- (take_drop_middle _ _ _ Hi) at 3.
        rewrite !filter_app, filter_cons, decide_False by done. done. }
      split; rewrite ?Em; try done.
      * cbn [c' set_buf rank_vec_in_buf]. by rewrite list_lookup_insert_ne.
      * destruct G7 as (nm' & Hnm' & Hf'). exists nm'. split; [done|]. unfold fs'. rewrite lookup_insert_ne; [done|].
        intros ->. apply Hne. by apply (temp_name_inj name _ _ nm').
Qed.

(** The counts of the blocks in memory, as the vector has them. *)
Lemma in_buf_lookup fs c recv g : client_inv fs c recv → g < length ns → rank_vec_in_buf c !! g = Some (length (mem c g)).
Proof. intros I Hg. destruct (lookup_lt_is_Some_2 ns g Hg) as [n Hn]. destruct (ci_gen _ _ _ I _ _ Hn) as (H & F & G). apply G. Qed.

Lemma flush_loop_run i fs c recv g :
  client_inv fs c recv → g < length ns → i <= length (buf c) →
  ∃ c' fs', flush_loop i fs c g = Some (c', fs') ∧ client_inv fs' c' recv ∧ rank_vec c' = rank_vec c ∧ gen_completed c' = gen_completed c.
Proof using HD Hgens.
  intros I Hg. revert fs c I. induction i as [|i IH]; intros fs c I Hi; cbn [flush_loop]; [by exists c, fs|].
  destruct (lookup_lt_is_Some_2 (buf c) i) as [b Hb]; [lia|]. rewrite Hb. cbn [mbind option_bind].
  pose proof (in_buf_lookup fs c recv g I Hg) as Hn0. destruct (Nat.eqb_spec (gen b) g) as [<-|Hne].
  - destruct (push_run fs c recv i b _ I Hb Hn0) as (fs' & -> & I'). cbn [mbind option_bind]. rewrite Hn0. cbn [mbind option_bind].
    set (c' := set_buf c _ _) in *. rewrite (in_buf_lookup fs' c' recv (gen b) I' Hg). cbn [mbind option_bind].
    destruct (_ =? 0); [by exists c', fs'|]. destruct (IH fs' c' I') as (c2 & fs2 & -> & I2 & E1 & E2); [cbn [c' set_buf buf]; rewrite length_delete by done; lia|].
    exists c2, fs2. by rewrite E1, E2.
  - cbn [mbind option_bind]. rewrite Hn0. cbn [mbind option_bind]. destruct (_ =? 0); [by exists c, fs|]. apply IH; [done|lia].
Qed.

(** The draws that evict: every generation is drawn. *)
Definition covers (draws : list Z) : Prop := ∀ g, g < length ns → ∃ r, r ∈ draws ∧ (0 <= r)%Z ∧ Z.rem r (Z.of_nat (length ns)) = Z.of_nat g.

Lemma evict_loop_run in_buf draws :
  length in_buf = length ns → 0 < length ns → Forall (λ r, 0 <= r)%Z draws →
  (∃ g n r, r ∈ draws ∧ Z.rem r (Z.of_nat (length ns)) = Z.of_nat g ∧ in_buf !! g = Some n ∧ n ≠ 0) →
  ∃ g draws', evict_loop in_buf draws = Some (g, draws') ∧ g < length ns.
Proof.
  intros Hl Hns. induction 1 as [|r draws Hr _ IH]; intros (g & n & r0 & Hin & Hg & Hn & Hnz); [by apply elem_of_nil in Hin|].
  cbn [evict_loop]. cbv zeta. rewrite Hl. pose proof (Z.rem_bound_pos r (Z.of_nat (length ns)) Hr ltac:(lia)) as Hb.
  destruct (lookup_lt_is_Some_2 in_buf (Z.to_nat (Z.rem r (Z.of_nat (length ns))))) as [m Hm]; [lia|]. rewrite Hm. cbn [mbind option_bind].
  destruct (Nat.eqb_spec m 0) as [->|Hmz]; [|eexists _, _; split; [done|]; lia].
  apply IH. apply elem_of_cons in Hin as [->|Hin].
  - rewrite Hg, Nat2Z.id, Hn in Hm. by injection Hm.
  - by exists g, n, r0.
Qed.

Lemma FlushBuf_run fs c recv b draws :
  client_inv fs c recv → covers draws → Forall (λ r, 0 <= r)%Z draws → b ∈ buf c →
  ∃ c' fs' draws', FlushBuf fs c draws = Some (c', fs', draws') ∧ client_inv fs' c' recv ∧ rank_vec c' = rank_vec c ∧ gen_completed c' = gen_completed c.
Proof using HD Hgens.
  intros I Hcov Hpos Hb. unfold FlushBuf. destruct (Nat.leb_spec (buffer_size c) (length (buf c))); cbn [negb]; [|by exists c, fs, draws].
  pose proof (ci_buf _ _ _ I) as Hbg. rewrite Forall_forall in Hbg. specialize (Hbg b Hb). cbn in Hbg.
  destruct (Hcov (gen b) Hbg) as (r & Hr & _ & Er). pose proof (in_buf_lookup fs c recv (gen b) I Hbg) as Hn.
  destruct (evict_loop_run (rank_vec_in_buf c) draws) as (g & draws' & -> & Hg).
  - apply I.
  - lia.
  - done.
  - exists (gen b), (length (mem c (gen b))), r. split_and!; [done..|]. intros E%length_zero_iff_nil.
    assert (b ∈ mem c (gen b)) as Hin by by apply list_elem_of_filter. rewrite E in Hin. by apply elem_of_nil in Hin.
  - cbn [mbind option_bind]. destruct (flush_loop_run (length (buf c)) fs c recv g I Hg) as (c' & fs' & -> & H'); [lia|]. cbn [mbind option_bind].
    by exists c', fs', draws'.
Qed.

(** ** Storing a block *)

Lemma of_gen_cons g b recv : of_gen g (b :: recv) = (if decide (gen b = g) then [coeffs b] else []) ++ of_gen g recv.
Proof. unfold of_gen. rewrite filter_cons. by destruct (decide (gen b = g)). Qed.
Lemma span_sub n V V' v : Forall (vec n) V' → (∀ x, x ∈ V → x ∈ V') → in_span n V v → in_span n V' v.
Proof. intros HV' Hsub. apply span_trans; [done|]. apply Forall_forall. intros x Hx. apply span_elem; [done|]. by apply Hsub. Qed.

(** The received blocks grow; the client does not change. *)
Lemma gen_inv_other fs c recv g n H F b :
  gen_inv fs c recv g n H F → Forall valid recv → ns !! g = Some n → valid b → (gen b = g → in_span n H (coeffs b)) →
  gen_inv fs c (b :: recv) g n H F.
Proof.
  intros [G1 G2 G3 G4 G5 G6 G7 G8 G9 G10] Hr Hg Hv Hin. pose proof (recv_vec g n (b :: recv) Hg ltac:(by constructor)) as HV. split; try done.
  - eapply Forall_impl; [exact G9|]. intros x Hx. eapply span_sub; [exact HV| |exact Hx]. intros y Hy. rewrite of_gen_cons. apply elem_of_app. by right.
  - rewrite of_gen_cons. apply Forall_app. split; [|done]. destruct (decide (gen b = g)); [|done]. constructor; [by apply Hin|done].
Qed.

(** A helpful block is in memory. *)
Definition stored_client (c : client) (b : CodedBlock) (H' : list (list Z)) (r k : nat) : client :=
  set_buf (set_rank c (<[gen b := H']> (m_helpful c)) (<[gen b := S r]> (rank_vec c))) (buf c ++ [b]) (<[gen b := S k]> (rank_vec_in_buf c)).

Lemma stored_inv fs c recv b n H H' F :
  client_inv fs c recv → Forall valid recv → ns !! gen b = Some n → coded n bs (D (gen b)) b →
  gen_inv fs c recv (gen b) n H F → stepped n H (coeffs b) true H' →
  client_inv fs (stored_client c b H' (rank H) (length (mem c (gen b)))) (b :: recv).
Proof using HD Hgens.
  intros I Hr Hn Hcb G St. set (c1 := stored_client c b H' (rank H) (length (mem c (gen b)))).
  assert (Hvalid : valid b) by by exists n. pose proof (recv_vec (gen b) n (b :: recv) Hn ltac:(by constructor)) as HV.
  assert (Hbv : vec n (coeffs b)) by apply Hcb. apply lookup_lt_Some in Hn as Hlt.
  destruct I as [I1 I2 I3 I4 I4' (I5 & I5' & I5'') I6 I7 I8 I10]. split; try done.
  - cbn. by rewrite !length_insert.
  - cbn. apply Forall_app. split; [done|]. by constructor.
  - intros g m Hg. destruct (decide (g = gen b)) as [->|Hne].
    + rewrite Hn in Hg. injection Hg as <-. exists H', F.
      assert (Em : mem c1 (gen b) = mem c (gen b) ++ [b]) by (unfold mem; cbn; by rewrite filter_app, filter_cons, decide_True).
      pose proof (stored_vec _ _ _ _ _ _ _ G) as HVs. destruct G as [G1 G2 G3 G4 G5 G6 G7 G8 G9 G10]. destruct St as [S1 S2 S3 S4 S5 S6 S7].
      assert (HVb : Forall (vec n) (coeffs <$> ((mem c (gen b) ++ [b]) ++ F))).
      { rewrite !fmap_app, !Forall_app in *. destruct HVs. split_and!; [done|by constructor|done]. }
      assert (Hsub : ∀ x, x ∈ coeffs <$> (mem c (gen b) ++ F) → x ∈ coeffs <$> ((mem c (gen b) ++ [b]) ++ F)).
      { intros x. rewrite !fmap_app, !elem_of_app. tauto. }
      split; rewrite ?Em; try done.
      * cbn. by rewrite list_lookup_insert_eq by lia.
      * cbn. rewrite list_lookup_insert_eq by lia. f_equal. lia.
      * cbn. rewrite list_lookup_insert_eq by lia. f_equal. rewrite length_app. cbn. lia.
      * rewrite length_app. cbn. lia.
      * rewrite !Forall_app in *. destruct G6. split; [split; [done|by constructor]|done].
      * apply S4; [done| |].
        -- eapply Forall_impl; [exact G8|]. intros x Hx. by eapply span_sub; [exact HVb|exact Hsub|].
        -- apply span_elem; [done|]. rewrite !fmap_app, !elem_of_app. left. right. by left.
      * apply S4; [done| |].
        -- eapply Forall_impl; [exact G9|]. intros x Hx. eapply span_sub; [exact HV| |exact Hx]. intros y Hy. rewrite of_gen_cons. apply elem_of_app. by right.
        -- apply span_elem; [done|]. rewrite of_gen_cons, decide_True by done. by left.
      * rewrite of_gen_cons, decide_True by done. constructor; [done|]. eapply Forall_impl; [exact G10|]. intros x Hx.
        apply (span_trans n H' H); [apply S1|done|done].
    + destruct (I10 g m Hg) as (H2 & F2 & G2). exists H2, F2.
      apply (gen_inv_other _ _ _ _ _ _ _ b) in G2; [|done|done|done|by intros <-].
      assert (Em : mem c1 g = mem c g) by (unfold mem; cbn; by rewrite filter_app, filter_cons, decide_False, app_nil_r).
      destruct G2 as [G1 G2 G3 G4 G5 G6 G7 G8 G9 G10].
      split; rewrite ?Em; try done; cbn; by rewrite list_lookup_insert_ne.
Qed.

Lemma completed_count (c c' : client) g r n :
  completed_ok c → ns !! g = Some n → rank_vec c !! g = Some r → r ≠ n → rank_vec c' = <[g := S r]> (rank_vec c) →
  length (filter (λ g, rank_vec c' !! g = ns !! g) (seq 0 (length ns))) = gen_completed c + (if S r =? n then 1 else 0).
Proof.
  intros Hc Hg Hr Hne E. rewrite Hc. apply lookup_lt_Some in Hg as Hlt. apply lookup_lt_Some in Hr as Hlr. destruct (Nat.eqb_spec (S r) n) as [En|En].
  - rewrite Nat.add_1_r. apply (filter_one_more _ _ _ g).
    + done.
    + rewrite Hr, Hg. congruence.
    + rewrite E, list_lookup_insert_eq, Hg by done. congruence.
    + intros i Hi. by rewrite E, list_lookup_insert_ne.
  - rewrite Nat.add_0_r. f_equal. apply filter_same. intros i Hi. rewrite E. destruct (decide (i = g)) as [->|Hn].
    + rewrite list_lookup_insert_eq, Hg, Hr by done. split; congruence.
    + by rewrite list_lookup_insert_ne.
Qed.

Lemma client_inv_completed fs c recv k : client_inv fs c recv → client_inv fs (set_completed c k) recv.
Proof.
  intros [I1 I2 I3 I4 I4' I5 I6 I7 I8 I10]. split; try done. intros g n Hg. destruct (I10 g n Hg) as (H & F & [G1 G2 G3 G4 G5 G6 G7 G8 G9 G10]).
  exists H, F. by split.
Qed.

(** A block is stored when it is not a combination of those received before, and then counted. *)
Lemma StoreBlock_run fs c recv b draws :
  client_inv fs c recv → completed_ok c → Forall valid recv → valid b → covers draws → Forall (λ r, 0 <= r)%Z draws →
  ∃ ok c' fs' draws', StoreBlock gf fs c b draws = Some (ok, c', fs', draws') ∧ client_inv fs' c' (b :: recv) ∧ completed_ok c' ∧
    (ok = true ↔ ¬ in_span (length (D (gen b))) (of_gen (gen b) recv) (coeffs b)).
Proof using HD Hgens.
  intros I Hcomp Hr Hv Hcov Hpos. pose proof Hv as (n & Hn & Hcb). destruct (ci_gen _ _ _ I _ _ Hn) as (H & F & G).
  destruct (HD _ _ Hn) as [HDn HDv]. pose proof (recv_vec _ _ recv Hn Hr) as HV. unfold StoreBlock.
  rewrite (gi_rank _ _ _ _ _ _ _ G), (gi_helpful _ _ _ _ _ _ _ G). cbn [mbind option_bind].
  assert (Hspan : in_span n H (coeffs b) ↔ in_span n (of_gen (gen b) recv) (coeffs b)).
  { split; [apply span_trans; [done|exact (gi_sound _ _ _ _ _ _ _ G)]|apply span_trans; [apply (gi_tri _ _ _ _ _ _ _ G)|exact (gi_all _ _ _ _ _ _ _ G)]]. }
  destruct (IsHelpful_run n H b (gi_tri _ _ _ _ _ _ _ G)) as (ok & H' & -> & St); [apply Hcb..|]. cbn [mbind option_bind]. destruct ok; cbn [negb].
  - rewrite (CopyCodedBlock_run n bs _ HDv b Hcb), (in_buf_lookup fs c recv _ I) by by apply lookup_lt_Some in Hn. cbn [mbind option_bind].
    set (c1 := stored_client c b H' (rank H) (length (mem c (gen b)))). cbv zeta. change (set_buf (set_rank c _ _) _ _) with c1.
    pose proof (stored_inv fs c recv b n H H' F I Hr Hn Hcb G St) as I1. fold c1 in I1.
    assert (Hflush : ∃ c' fs' draws', (if buffer_size c1 <=? length (buf c1) then FlushBuf fs c1 draws else Some (c1, fs, draws)) = Some (c', fs', draws') ∧
              client_inv fs' c' (b :: recv) ∧ rank_vec c' = rank_vec c1 ∧ gen_completed c' = gen_completed c1).
    { destruct (_ <=? _); [|by exists c1, fs, draws]. apply (FlushBuf_run fs c1 (b :: recv) b); [done..|]. cbn. apply elem_of_app. right. by left. }
    destruct Hflush as (c' & fs' & draws' & -> & I' & Erank & Ecomp). cbn [mbind option_bind]. rewrite Erank, (ci_gens _ _ _ I').
    pose proof (lookup_lt_Some _ _ _ Hn) as Hlt. destruct (ci_lengths _ _ _ I) as (_ & Hlr & _).
    assert (rank_vec c1 !! gen b = Some (S (rank H))) as Er by (cbn; by rewrite list_lookup_insert_eq by lia). rewrite Er, Hn. cbn [mbind option_bind].
    pose proof (completed_count c c' (gen b) (rank H) n Hcomp Hn (gi_rank _ _ _ _ _ _ _ G)) as Hcount. rewrite Erank in Hcount. cbn in Ecomp.
    assert (rank H ≠ n) as Hne.
    { intros Er'. apply (st_ok _ _ _ _ _ St); [done|]. apply rank_full; [apply (gi_tri _ _ _ _ _ _ _ G)|done|apply Hcb]. }
    specialize (Hcount Hne eq_refl). eexists true, _, fs', draws'. split; [done|]. rewrite HDn.
    split; [|split].
    + destruct (_ =? _); [by apply client_inv_completed|done].
    + destruct (_ =? _); unfold completed_ok; cbn; rewrite Erank; lia.
    + rewrite <- Hspan. apply (st_ok _ _ _ _ _ St).
  - exists false, c, fs, draws. split; [done|]. rewrite HDn. split; [|split; [done|rewrite <- Hspan; apply (st_ok _ _ _ _ _ St)]].
    assert (in_span n H (coeffs b)) as Hin by (rewrite <- (st_same _ _ _ _ _ St eq_refl) at 1; apply St).
    destruct I as [I1 I2 I3 I4 I4' I5 I6 I7 I8 I10]. split; try done. intros g m Hg. destruct (I10 g m Hg) as (H2 & F2 & G2). exists H2, F2.
    apply gen_inv_other; [done|done|done|by exists n|]. intros <-. rewrite Hn in Hg. injection Hg as <-.
    assert (H2 = H) as ->; [|done]. pose proof (gi_helpful _ _ _ _ _ _ _ G2) as E. rewrite (gi_helpful _ _ _ _ _ _ _ G) in E. by injection E.
Qed.

(** ** Decoding *)

Hypothesis Hbs : 0 < bs.
Hypothesis Hpos : ∀ g n, ns !! g = Some n → 0 < n ≤ default 0 (ns !! 0).
(** What the file holds of the last block. *)
Definition before : nat := foldr Nat.add 0 (take (length ns - 1) ns).
Hypothesis Hlast : ∀ n, ns !! (length ns - 1) = Some n → (before + n - 1) * bs <= fsz <= (before + n) * bs.
(** The file, and the block file of each generation, are below 2 GB. *)
Hypothesis Hfsz : (Z.of_nat fsz < 2 ^ 31)%Z.
Hypothesis Hfit : ∀ g n, ns !! g = Some n → (Z.of_nat ((n + bs) * n) < 2 ^ 31)%Z.

Lemma read_blocks_run fs c recv g n H F m k :
  client_inv fs c recv → ns !! g = Some n → gen_inv fs c recv g n H F → k + m = length F →
  read_blocks m k fs c g = Some (drop k F).
Proof using All.
  intros I Hg G. pose proof (Hfit _ _ Hg) as Hfit_n.
  assert (length F <= n) as HFn by (pose proof (rank_bound H); pose proof (tri_length _ _ (gi_tri _ _ _ _ _ _ _ G)); pose proof (gi_count _ _ _ _ _ _ _ G); lia). destruct (HD _ _ Hg) as [_ HDv]. destruct (gi_file _ _ _ _ _ _ _ G) as (nm & Hnm & Hfile).
  assert (HF : Forall (λ b, coded n bs (D g) b ∧ gen b = g) F).
  { pose proof (gi_coded _ _ _ _ _ _ _ G) as Hc. by apply Forall_app in Hc as [_ ?]. }
  assert (HF' : Forall (coded n bs (D g)) F) by (eapply Forall_impl; [exact HF|]; by intros b []).
  revert k. induction m as [|m IH]; intros k Hk; cbn [read_blocks]; [by rewrite drop_ge by lia|].
  destruct (lookup_lt_is_Some_2 F k) as [b Hb]; [lia|]. rewrite Forall_lookup in HF. destruct (HF _ _ Hb) as [Hcb Hgb].
  destruct (coded_lengths n bs _ HDv b Hcb) as [Hlc Hls].
  assert (Hrest : drop ((n + bs) * k) (concat (ser <$> F)) = coeffs b ++ sums b ++ concat (ser <$> drop (S k) F)).
  { rewrite (drop_ser n bs _ HDv F k HF'), (drop_S _ _ _ Hb). cbn [fmap list_fmap concat]. unfold ser. by rewrite <- app_assoc. }
  assert (fs !! nm = Some (concat (ser <$> F))) as Efs.
  { destruct (fs !! nm) as [l|]; cbn [default from_option id] in Hfile; [by rewrite Hfile|]. rewrite <- Hfile, drop_nil in Hrest.
    apply (f_equal length) in Hrest. rewrite !length_app in Hrest. cbn in Hrest. lia. }
  unfold ReadGenBuf. rewrite (ci_name _ _ _ I), Hnm, (ci_gens _ _ _ I), Hg, (ci_bs _ _ _ I). cbn [mbind option_bind]. rewrite Efs. cbn [mbind option_bind].
  rewrite int_fits by nia. cbn [mbind option_bind]. rewrite int_fits by nia. cbn [mbind option_bind]. cbv zeta.
  rewrite Hrest, copy_app by done. cbn [mbind option_bind]. rewrite drop_app_length', copy_app by done. cbn [mbind option_bind].
  rewrite IH by lia. cbn [mbind option_bind]. rewrite (drop_S _ _ _ Hb). do 2 f_equal.
  destruct Hcb as [Hn Hw _ _]. destruct b. cbn in *. by subst.
Qed.
Lemma gather_run fs c recv g n H F :
  client_inv fs c recv → ns !! g = Some n → gen_inv fs c recv g n H F → gather fs c g = Some (mem c g ++ F).
Proof using All.
  intros I Hg G. unfold gather. fold (mem c g). destruct (HD _ _ Hg) as [_ HDv].
  rewrite (copies_run n bs _ HDv).
  - cbn [mbind option_bind]. rewrite (gi_rank _ _ _ _ _ _ _ G), (gi_in_buf _ _ _ _ _ _ _ G), (gi_count _ _ _ _ _ _ _ G). cbn [mbind option_bind].
    replace (length (mem c g) + length F - length (mem c g)) with (length F) by lia.
    by rewrite (read_blocks_run fs c recv g n H F).
  - pose proof (gi_coded _ _ _ _ _ _ _ G) as Hc. apply Forall_app in Hc as [Hc _]. eapply Forall_impl; [exact Hc|]. by intros b [].
Qed.

(** The part of the file that generation [g] is. *)
Definition piece (g n j : nat) (d : list Z) : list Z :=
  take (if (g =? length ns - 1) && (j =? n - 1) then fsz - (before + n - 1) * bs else bs) d.
Definition gen_out (g n : nat) : list Z := concat (imap (piece g n) (D g)).

Lemma write_loop_run c g n m j rest out :
  c_gens c = ns → c_file_size c = fsz → c_block_size c = bs → m_gdata c = D g ++ rest → ns !! g = Some n → j + m = n →
  write_loop m j c g n out = Some (out ++ concat (imap (λ k, piece g n (j + k)) (drop j (D g)))).
Proof using All.
  intros E1 E2 E3 E4 Hg. destruct (HD _ _ Hg) as [HDn HDv]. revert j out. induction m as [|m IH]; intros j out Hj; cbn [write_loop].
  - rewrite drop_ge by lia. cbn. by rewrite app_nil_r.
  - destruct (lookup_lt_is_Some_2 (D g) j) as [d Hd]; [lia|]. rewrite E1, E2, E3, E4, lookup_app_l, Hd by lia. cbn [mbind option_bind]. cbv zeta.
    fold before. assert (vec bs d) as [Hld _] by (rewrite Forall_lookup in HDv; eauto).
    assert (Hle : (g =? length ns - 1) && (j =? n - 1) = true → (before + n - 1) * bs <= fsz <= (before + n) * bs).
    { intros [->%Nat.eqb_eq _]%andb_true_iff. by apply Hlast. }
    destruct (Hpos _ _ Hg) as [Hn0 _].
    set (last := (g =? length ns - 1) && (j =? n - 1)) in *.
    assert ((if last then int ((before + n - 1) * bs) else Some 0) = Some (if last then (before + n - 1) * bs else 0)) as ->.
    { destruct last; [|done]. specialize (Hle eq_refl). apply int_fits. lia. }
    cbn [mbind option_bind].
    assert (last && (fsz <? (if last then (before + n - 1) * bs else 0)) = false) as ->.
    { destruct last; [|done]. apply Nat.ltb_ge. specialize (Hle eq_refl). lia. }
    assert (copy d (if last then fsz - (if last then (before + n - 1) * bs else 0) else bs) = Some (piece g n j d)) as ->.
    { assert (piece g n j d = take (if last then fsz - (before + n - 1) * bs else bs) d) as -> by done. unfold copy. destruct last.
      - specialize (Hle eq_refl). destruct (Nat.leb_spec (fsz - (before + n - 1) * bs) (length d)); [done|nia].
      - destruct (Nat.leb_spec bs (length d)); [done|lia]. }
    cbn [mbind option_bind]. rewrite IH by lia. rewrite (drop_S _ _ _ Hd). cbn [imap concat]. rewrite Nat.add_0_r, <- app_assoc. do 3 f_equal.
    f_equal. apply imap_ext. intros k x _. cbn. f_equal. lia.
Qed.

Lemma set_gdata_inv fs c recv g n :
  client_inv fs c recv → ns !! g = Some n →
  client_inv fs (set_gdata c (D g ++ drop n (m_gdata c))) recv.
Proof using All.
  intros [I1 I2 I3 I4 I4' I5 I6 I7 [I8 I8'] I10] Hg. destruct (HD _ _ Hg) as [HDn HDv]. destruct (Hpos _ _ Hg) as [_ Hn0]. split; try done.
  - cbn. split; [rewrite length_app, length_drop; lia|]. apply Forall_app. split; [|by apply Forall_drop].
    eapply Forall_impl; [exact HDv|]. by intros d [].
  - intros g' m Hg'. destruct (I10 g' m Hg') as (H & F & [G1 G2 G3 G4 G5 G6 G7 G8 G9 G10]). exists H, F. by split.
Qed.
(** The output file is none of the block files. *)
Lemma output_inv fs c recv out : client_inv fs c recv → client_inv (<[name := out]> fs) c recv.
Proof.
  intros [I1 I2 I3 I4 I4' I5 I6 I7 I8 I10]. split; try done. intros g n Hg. destruct (I10 g n Hg) as (H & F & [G1 G2 G3 G4 G5 G6 G7 G8 G9 G10]).
  exists H, F. split; try done. destruct G7 as (nm & Hnm & Hf). exists nm. split; [done|]. rewrite lookup_insert_ne; [done|].
  destruct (temp_name_ne _ _ _ Hnm). congruence.
Qed.

Lemma DecodeGen_run fs c recv g n :
  client_inv fs c recv → ns !! g = Some n → rank_vec c !! g = Some n →
  ∃ c', DecodeGen gf fs c g = Some (true, c', <[name := gen_out g n]> fs) ∧ client_inv (<[name := gen_out g n]> fs) c' recv ∧ rank_vec c' = rank_vec c.
Proof using All.
  intros I Hg Hr. destruct (ci_gen _ _ _ I _ _ Hg) as (H & F & G). destruct (HD _ _ Hg) as [HDn HDv]. destruct (Hpos _ _ Hg) as [Hn0 Hn1].
  assert (rank H = n) as Hrk by (pose proof (gi_rank _ _ _ _ _ _ _ G); congruence). destruct (ci_gdata _ _ _ I) as [Hm1 Hm2].
  unfold DecodeGen. rewrite (gather_run fs c recv g n H F I Hg G). cbn [mbind option_bind].
  assert (Hlen : length (mem c g ++ F) = n) by (rewrite length_app; pose proof (gi_count _ _ _ _ _ _ _ G); lia).
  destruct (decode_run n bs (D g) HDv HDn (mem c g ++ F) (m_gdata c)) as (ok & m' & -> & Hok & Em'); [lia|done| |lia|by apply Forall_take|].
  { eapply Forall_impl; [exact (gi_coded _ _ _ _ _ _ _ G)|]. by intros b []. }
  cbn [mbind option_bind]. destruct ok.
  2:{ exfalso. assert (false = true) as E; [|discriminate E]. apply Hok. by apply (rank_stored fs c recv g n H F). }
  cbn [negb]. subst m'. set (c' := set_gdata c _). assert (I' : client_inv fs c' recv) by by apply set_gdata_inv.
  unfold WriteFile. rewrite (ci_gens _ _ _ I'), Hg. cbn [mbind option_bind].
  rewrite (write_loop_run c' g n n 0 (drop n (m_gdata c))); [|apply I'|apply I'|apply I'|done|done|lia]. cbn [mbind option_bind app].
  rewrite (ci_name _ _ _ I'), drop_0. exists c'. split; [done|]. split; [by apply output_inv|done].
Qed.

Lemma decode_gens_run fs c recv m g :
  client_inv fs c recv → g + m = length ns → (∀ g n, ns !! g = Some n → rank_vec c !! g = Some n) → 0 < length ns →
  (0 < m ∨ ∃ n, ns !! (length ns - 1) = Some n ∧ fs !! name = Some (gen_out (length ns - 1) n)) →
  ∃ c' fs', decode_gens gf m g fs c = Some (true, c', fs') ∧ client_inv fs' c' recv ∧
    ∃ n, ns !! (length ns - 1) = Some n ∧ fs' !! name = Some (gen_out (length ns - 1) n).
Proof using All.
  revert fs c g. induction m as [|m IH]; intros fs c g I Hg Hfull Hns Hfile; cbn [decode_gens].
  - exists c, fs. split; [done|]. split; [done|]. destruct Hfile; [lia|done].
  - destruct (lookup_lt_is_Some_2 ns g) as [n Hn]; [lia|]. destruct (DecodeGen_run fs c recv g n I Hn (Hfull _ _ Hn)) as (c' & -> & I' & Er).
    cbn [mbind option_bind]. apply IH; [done|lia|by rewrite Er|done|]. destruct m; [|left; lia]. right. exists n.
    replace (length ns - 1) with g by lia. by rewrite lookup_insert_eq.
Qed.
Lemma clean_loop_run fs m g : g + m <= 100 → ∃ fs', clean_loop m g fs name = Some fs' ∧ fs' !! name = fs !! name.
Proof.
  revert fs g. induction m as [|m IH]; intros fs g Hm; cbn [clean_loop]; [by exists fs|]. rewrite temp_name_some by lia. cbn [mbind option_bind].
  destruct (IH (delete (name +:+ ".temp") fs) (S g)) as (fs' & -> & E); [lia|]. exists fs'. split; [done|]. rewrite E. apply lookup_delete_ne.
  by apply longer_name.
Qed.

(** Decoding succeeds when what has come has full rank in every generation; the file is then the
    part that the last generation is. *)
Lemma Decode_run fs c recv :
  client_inv fs c recv → completed_ok c → Forall valid recv → 0 < length ns →
  ∃ ok c' fs', Decode gf fs c = Some (ok, c', fs') ∧ (ok = true ↔ ∀ g n, ns !! g = Some n → full_rank n (of_gen g recv)) ∧
    (ok = true → ∃ n, ns !! (length ns - 1) = Some n ∧ fs' !! name = Some (gen_out (length ns - 1) n)).
Proof using All.
  intros I Hc Hr Hns. assert (Hfull : (∀ g n, ns !! g = Some n → rank_vec c !! g = Some n) ↔ ∀ g n, ns !! g = Some n → full_rank n (of_gen g recv)).
  { split; intros Hx g n Hg; specialize (Hx g n Hg); destruct (ci_gen _ _ _ I _ _ Hg) as (H & F & G); pose proof (gi_rank _ _ _ _ _ _ _ G) as Er;
      pose proof (rank_received _ _ _ _ _ _ _ G (recv_vec _ _ _ Hg Hr)) as Hrr; [apply Hrr; congruence|]. rewrite Er. f_equal. by apply Hrr. }
  unfold Decode, DownloadCompleted. rewrite (ci_gens _ _ _ I). destruct (Nat.eqb_spec (gen_completed c) (length ns)) as [E|E]; cbn [negb].
  - assert (Hall : ∀ g n, ns !! g = Some n → rank_vec c !! g = Some n).
    { intros g n Hg. rewrite <- Hg. apply (filter_all (λ g, rank_vec c !! g = ns !! g) (length ns)); [|by apply lookup_lt_Some in Hg].
      unfold completed_ok in Hc. lia. }
    destruct (decode_gens_run fs c recv (length ns) 0 I) as (c' & fs' & -> & I' & n & Hn & Hf); [done|done|done|by left|]. cbn [mbind option_bind negb].
    rewrite (ci_name _ _ _ I'), (ci_gens _ _ _ I'). destruct (clean_loop_run fs' (length ns) 0) as (fs2 & -> & E2); [lia|]. cbn [mbind option_bind].
    eexists true, _, fs2. split; [done|]. split; [by rewrite <- Hfull|]. intros _. exists n. by rewrite E2.
  - exists false, c, fs. split; [done|]. split; [|done]. split; [done|]. intros Hx. exfalso. apply E. rewrite Hc.
    rewrite filter_every; [apply length_seq|]. intros g [_ Hg]%elem_of_seq. destruct (lookup_lt_is_Some_2 ns g Hg) as [n Hn]. rewrite Hn. by apply Hfull.
Qed.
(** Combining again what has come gives a coded block again, or NULL when nothing has. *)
Lemma ReEncode_run uninit fs c recv g n draws :
  client_inv fs c recv → ns !! g = Some n → (∀ k, length (uninit k) = k) → n <= good 256 draws →
  ∃ b draws', ReEncode gf uninit fs c g draws = Some (b, draws') ∧ (b = None ↔ rank_vec c !! g = Some 0) ∧ ∀ b', b = Some b' → coded n bs (D g) b' ∧ gen b' = g.
Proof using All.
  intros I Hg Hu Hd. destruct (ci_gen _ _ _ I _ _ Hg) as (H & F & G). destruct (HD _ _ Hg) as [HDn HDv]. unfold ReEncode.
  rewrite (ci_gens _ _ _ I), Hg, (gather_run fs c recv g n H F I Hg G). cbn [mbind option_bind]. rewrite (ci_bs _ _ _ I), (ci_field _ _ _ I).
  pose proof (gi_count _ _ _ _ _ _ _ G) as Hc. rewrite <- length_app in Hc.
  assert (rank H <= n) as Hle by (unfold rank; etransitivity; [apply length_filter|]; rewrite length_seq, (tri_length _ _ (gi_tri _ _ _ _ _ _ _ G)); lia).
  destruct (ReEncodeBlock_run (Z.of_nat 8) bs (D g) HDv n (uninit n) (mem c g ++ F) (AllocCodedBlock uninit g n bs) draws) as (b & draws' & -> & Hb).
  - unfold room, AllocCodedBlock; cbn. by rewrite !Hu.
  - eapply Forall_impl; [exact (gi_coded _ _ _ _ _ _ _ G)|]. by intros b [].
  - apply Hu.
  - lia.
  - change (field_limit (Z.of_nat 8)) with 256%Z. lia.
  - cbn [mbind option_bind]. rewrite (gi_rank _ _ _ _ _ _ _ G), Hc. destruct (Nat.eqb_spec (length (mem c g ++ F)) 0) as [E|E]; cbn [negb].
    + exists None, draws'. split; [done|]. split; [by rewrite E|done].
    + exists (Some b), draws'. split; [done|]. split; [split; [done|congruence]|]. by intros b' [= <-].
Qed.
End Client.

(** ** The data blocks of a file *)

Definition pad (bs : nat) (l : list Z) : list Z := l ++ replicate (bs - length l) 0%Z.
Fixpoint gen_blocks (n bs : nat) (l : list Z) : list (list Z) :=
  match n with O => [] | S n => pad bs (take bs l) :: gen_blocks n bs (drop bs l) end.

Section File.
Context (bs : nat).

Lemma gen_blocks_ok n l : bytes l → length (gen_blocks n bs l) = n ∧ Forall (vec bs) (gen_blocks n bs l).
Proof.
  revert l. induction n as [|n IH]; intros l Hl; cbn [gen_blocks length]; [by split|]. destruct (IH (drop bs l)) as [E H]; [by apply Forall_drop|].
  split; [by rewrite E|]. constructor; [|done]. unfold pad. split.
  - rewrite length_app, length_replicate, length_take. lia.
  - apply Forall_app. split; [by apply Forall_take|]. by apply Forall_replicate.
Qed.

(** The blocks, the last one cut, are the file. *)
Lemma gen_blocks_concat n l f :
  0 < n → (n - 1) * bs <= length l <= n * bs →
  (∀ j d, j < n - 1 → f j d = take bs d) → (∀ d, f (n - 1) d = take (length l - (n - 1) * bs) d) →
  concat (imap f (gen_blocks n bs l)) = l.
Proof.
  revert l f. induction n as [|n IH]; intros l f Hn Hl Hf Hlast; [lia|]. cbn [gen_blocks imap concat]. destruct n as [|n].
  - cbn [gen_blocks imap concat]. rewrite app_nil_r. specialize (Hlast (pad bs (take bs l))). cbn in Hlast. rewrite Nat.sub_0_r in Hlast. rewrite Hlast.
    unfold pad. rewrite (take_ge l bs) by lia. rewrite take_app_le by lia. by rewrite take_ge by lia.
  - rewrite (Hf 0) by lia. unfold pad. rewrite length_take. replace (bs - Nat.min bs (length l)) with 0 by lia.
    cbn [replicate]. rewrite app_nil_r, (take_ge (take bs l)) by (rewrite length_take; lia).
    rewrite (IH (drop bs l) (f ∘ S)).
    + apply take_drop.
    + lia.
    + rewrite length_drop. lia.
    + intros j d Hj. apply Hf. lia.
    + intros d. unfold compose. replace (S (S n - 1)) with (S (S n) - 1) by lia. rewrite Hlast, length_drop. f_equal. lia.
Qed.

(** ** Reading the file into blocks *)

Lemma NthSymbol_8 l i x : l !! i = Some x → is_byte x → NthSymbol l 8 i = Some x.
Proof.
  intros Hi Hx. unfold NthSymbol. cbn [Nat.modulo Nat.divmod Nat.eqb negb snd fst Nat.sub]. change (8 / 8) with 1. cbn [Nat.eqb orb].
  rewrite Nat.div_1_r, Nat.mod_1_r, Hi. cbn [mbind option_bind Nat.sub Nat.mul]. change (Z.of_nat 0) with 0%Z. rewrite !Z.shiftr_0_r.
  change 255%Z with (2 ^ 8 - 1)%Z. rewrite land_ones_mod by lia. f_equal. apply Z.mod_small. exact Hx.
Qed.

Lemma take_own_length (l : list Z) : take (length (take bs l)) l = take bs l.
Proof. rewrite length_take. destruct (Nat.min_spec bs (length l)) as [[? ->]|[? ->]]; [done|]. by rewrite !take_ge by lia. Qed.
Lemma symbol_loop_run m fbuf base done_ rest :
  bytes fbuf → base + (length done_ + m) <= length fbuf → m <= length rest →
  symbol_loop m (length done_) fbuf 8 base (done_ ++ rest) = Some (done_ ++ take m (drop (base + length done_) fbuf) ++ drop m rest).
Proof.
  intros Hb. revert done_ rest. induction m as [|m IH]; intros dn rest Hl Hr; cbn [symbol_loop]; [by rewrite drop_0|].
  destruct rest as [|y rest]; [cbn in Hr; lia|]. destruct (lookup_lt_is_Some_2 fbuf (base + length dn)) as [x Hx]; [lia|].
  rewrite (NthSymbol_8 _ _ x) by (done || (rewrite Forall_lookup in Hb; eauto)). cbn [mbind option_bind].
  rewrite store_middle by done. cbn [mbind option_bind]. rewrite (drop_S _ _ _ Hx). cbn [take drop app].
  specialize (IH (dn ++ [x]) rest). rewrite length_app, Nat.add_1_r, <- !app_assoc in IH. cbn [app] in IH.
  rewrite IH by (cbn in Hr; lia). by rewrite Nat.add_succ_r.
Qed.

(** A generation of which the last block may be short. *)
Lemma block_loop_run m i nbg fbuf acc :
  bytes fbuf → i + m = nbg → (nbg - 1) * bs <= length fbuf <= nbg * bs →
  block_loop m i nbg fbuf true 8 bs acc = Some (acc ++ gen_blocks m bs (drop (i * bs) fbuf)).
Proof.
  intros Hb Hi Hl. revert i acc Hi. induction m as [|m IH]; intros i acc Hi; cbn [block_loop gen_blocks]; [by rewrite app_nil_r|].
  set (len := if true && (i =? nbg - 1) then _ else _).
  assert (Hlen : len = length (take bs (drop (i * bs) fbuf))).
  { unfold len. rewrite length_take, length_drop. destruct (Nat.eqb_spec i (nbg - 1)) as [->|Hne]; cbn [andb]; [|nia].
    destruct nbg; [lia|]. cbn [Nat.sub Nat.mul] in *. rewrite Nat.sub_0_r in *. lia. }
  assert (Hlb : len <= bs) by (rewrite Hlen, length_take; lia). assert (bs * i + len <= length fbuf \/ len = 0) as Hin.
  { rewrite Hlen, length_take, length_drop. lia. }
  assert (E : symbol_loop len 0 fbuf 8 (bs * i) (replicate bs 0%Z) = Some (pad bs (take bs (drop (i * bs) fbuf)))).
  { destruct Hin as [Hin|Hz].
    - pose proof (symbol_loop_run len fbuf (bs * i) [] (replicate bs 0%Z) Hb) as H. cbn [length app] in H. rewrite Nat.add_0_r in H.
      rewrite H by (rewrite ?length_replicate; lia). f_equal. unfold pad. rewrite <- Hlen. f_equal; [|apply drop_replicate].
      rewrite (Nat.mul_comm bs). rewrite Hlen at 1. by rewrite take_own_length.
    - rewrite Hz. cbn [symbol_loop]. f_equal. rewrite Hz in Hlen. symmetry in Hlen. apply length_zero_iff_nil in Hlen. rewrite Hlen. unfold pad. cbn. by rewrite Nat.sub_0_r. }
  rewrite E. cbn [mbind option_bind]. rewrite IH by lia. rewrite <- app_assoc. cbn [app]. do 4 f_equal. rewrite drop_drop. f_equal. lia.
Qed.
End File.

(** ** One generation: encoder and decoder *)

Section RoundTrip.
Context (contents : list Z) (bs : nat) (Hbytes : bytes contents) (Hne : 0 < length contents) (Hbs : 0 < bs).
Abbreviation fsz := (length contents).
Abbreviation nblk := (blocks_for fsz bs).
(** The data blocks. *)
Definition data_blocks : list (list Z) := gen_blocks nblk bs contents.

Lemma blocks_for_bounds : 0 < nblk ∧ (nblk - 1) * bs < fsz <= nblk * bs.
Proof using Hne Hbs.
  unfold blocks_for. pose proof (Nat.div_mod_eq (fsz + bs - 1) bs) as H. pose proof (Nat.mod_upper_bound (fsz + bs - 1) bs).
  set (q := (fsz + bs - 1) / bs) in *. assert (0 < q) by (destruct q; lia). destruct q; nia.
Qed.
(** A block file of the generation is below 2 GB. *)
Hypothesis Hfits : (Z.of_nat ((nblk + bs) * nblk) < 2 ^ 31)%Z.
Lemma sizes_fit : (Z.of_nat nblk < 2 ^ 31 ∧ Z.of_nat (nblk * 2) < 2 ^ 31 ∧ Z.of_nat bs < 2 ^ 31 ∧ Z.of_nat fsz < 2 ^ 31 ∧ Z.of_nat (bs * nblk) < 2 ^ 31)%Z.
Proof using Hne Hbs Hfits. pose proof blocks_for_bounds as [Hn Hb]. assert (nblk <= nblk * nblk) by nia. destruct (decide (nblk = 1)); nia. Qed.
Lemma num_blocks_8 : num_blocks_of fsz 8 bs = Some nblk.
Proof using Hne Hbs Hfits.
  unfold num_blocks_of. destruct (Nat.eqb_spec bs 0); [lia|]. cbn [Nat.eqb orb]. pose proof blocks_for_bounds as [Hn Hb].
  assert ((fsz * 8 + 8 * bs - 1) / (8 * bs) = nblk) as ->; [|apply int_fits, sizes_fit].
  symmetry. apply (Nat.div_unique _ _ _ (fsz * 8 + 8 * bs - 1 - 8 * bs * nblk)); nia.
Qed.
Lemma data_blocks_ok : length data_blocks = nblk ∧ Forall (vec bs) data_blocks.
Proof using Hbytes. by apply gen_blocks_ok. Qed.

(** The encoder, before and after it has read the file. *)
Definition encoder (name : string) (m : option nat) : server :=
  Server name fsz 8 bs [Z.of_nat nblk] m (if m is Some _ then data_blocks else []).

Lemma encoder_run name : String.length name < MAX_FILE_NAME_LEN → codetorrentencoder name bs fsz = Some (encoder name None).
Proof using Hne Hbs Hfits.
  intros Hname. unfold codetorrentencoder, InitServer. destruct (Nat.eqb_spec bs 0); [lia|]. pose proof sizes_fit as (Hf1 & _ & Hf2 & Hf3 & _).
  rewrite int_fits by done. cbn [mbind option_bind]. rewrite !to_int_fits by done. cbn [mbind option_bind].
  destruct (Nat.leb_spec MAX_FILE_NAME_LEN (String.length name)); [lia|]. unfold NETWORKCODING_FIELDSIZE. rewrite num_blocks_8. cbn [mbind option_bind].
  unfold server_gens. pose proof blocks_for_bounds as [Hn _]. destruct (Nat.eqb_spec nblk 0); [lia|]. rewrite Nat.div_same by lia. cbn [Nat.eqb].
  rewrite Nat.mul_1_r, Nat.eqb_refl. done.
Qed.

Lemma LoadFile_run fs name m : fs !! name = Some contents → LoadFile fs (encoder name m) 0 = Some (encoder name (Some 0)).
Proof using Hbytes Hne Hbs Hfits.
  intros Hf. pose proof blocks_for_bounds as [Hn Hb]. pose proof sizes_fit as (_ & _ & _ & Hf1 & Hf2). unfold LoadFile. cbn [set_data encoder s_filename s_gens s_block_size s_file_size s_field_size gen_in_memory].
  rewrite Hf. cbn [lookup list_lookup mbind option_bind]. destruct (Z.ltb_spec (Z.of_nat nblk) 0); [lia|]. cbn [take foldr length]. cbv zeta.
  rewrite Nat2Z.id, (int_fits (bs * nblk)) by done. cbn [mbind option_bind]. change (Z.to_nat 0 * bs) with 0. rewrite (int_fits 0) by done. cbn [mbind option_bind].
  cbv zeta. rewrite drop_0, Nat.add_0_r, take_ge by lia. rewrite (int_fits fsz) by done. cbn [mbind option_bind]. rewrite Nat.eqb_refl. cbn [Nat.sub Nat.eqb andb negb].
  rewrite (block_loop_run bs nblk 0 nblk contents []) by (done || lia). cbn [Nat.mul]. rewrite drop_0. done.
Qed.

Lemma encode_run fs uninit name m draws :
  fs !! name = Some contents → (∀ k, length (uninit k) = k) → m = None ∨ m = Some 0 → nblk <= good 256 draws →
  ∃ b draws', encode gf uninit fs (encoder name m) draws = Some (Some b, encoder name (Some 0), draws') ∧ coded nblk bs data_blocks b ∧ gen b = 0.
Proof using Hbytes Hne Hbs Hfits.
  intros Hf Hu Hm Hg. pose proof blocks_for_bounds as [Hn _]. destruct data_blocks_ok as [HDn HD]. unfold encode, Encode.
  assert (∃ b : bool, (if bool_decide (gen_in_memory (encoder name m) = Some 0) then Some (false, encoder name m)
                     else s ← LoadFile fs (encoder name m) 0; Some (length (s_data s) =? 0, s)) = Some (b, encoder name (Some 0)) ∧ b = false) as (b & -> & ->).
  { destruct Hm as [->| ->]; [|by exists false]. cbn [encoder gen_in_memory]. rewrite bool_decide_false by done.
    change (Server name fsz 8 bs [Z.of_nat nblk] None []) with (encoder name None). rewrite (LoadFile_run fs name None Hf).
    cbn [mbind option_bind encoder s_data]. rewrite HDn. eexists. split; [done|]. by apply Nat.eqb_neq; lia. }
  cbn [mbind option_bind encoder s_gens lookup list_lookup s_field_size s_data s_block_size]. rewrite Nat2Z.id.
  destruct (EncodeBlock_run (Z.of_nat 8) bs data_blocks HD nblk (AllocCodedBlock uninit 0 nblk bs) draws HDn) as (b & draws' & -> & Hb & Hgen & _).
  - unfold room, AllocCodedBlock; cbn. by rewrite !Hu.
  - done.
  - cbn [mbind option_bind]. by exists b, draws'.
Qed.

(** As many blocks as there are lists of draws. *)
Fixpoint encode_all (uninit : nat → list Z) (fs : ct_files) (s : server) (dss : list (list Z)) : option (list (option CodedBlock)) :=
  match dss with
  | [] => Some []
  | draws :: dss => '(b, s, _) ← encode gf uninit fs s draws; l ← encode_all uninit fs s dss; Some (b :: l)
  end.
Lemma encode_all_run fs uninit name m dss :
  fs !! name = Some contents → (∀ k, length (uninit k) = k) → m = None ∨ m = Some 0 → Forall (λ draws, nblk <= good 256 draws) dss →
  ∃ sent, encode_all uninit fs (encoder name m) dss = Some (Some <$> sent) ∧ Forall (λ b, coded nblk bs data_blocks b ∧ gen b = 0) sent ∧ length sent = length dss.
Proof using Hbytes Hne Hbs Hfits.
  intros Hf Hu Hm Hd. revert m Hm. induction Hd as [|draws dss Hg _ IH]; intros m Hm; cbn [encode_all]; [by exists []|].
  destruct (encode_run fs uninit name m draws Hf Hu Hm Hg) as (b & draws' & -> & Hb). cbn [mbind option_bind].
  destruct (IH (Some 0)) as (sent & -> & Hs & Hl); [by right|]. cbn [mbind option_bind]. exists (b :: sent). split; [done|]. split; [by constructor|cbn; lia].
Qed.

(** The decoder is given the blocks one by one. *)
Fixpoint store_all (fs : ct_files) (c : client) (l : list (CodedBlock * list Z)) : option (client * ct_files) :=
  match l with
  | [] => Some (c, fs)
  | (b, draws) :: l => '(_, c, fs, _) ← store_block gf fs c (gen b) (coeffs b) (sums b) draws; store_all fs c l
  end.

Section Decoder.
Context (fs : ct_files) (out : string).
Hypothesis Hname : String.length out < MAX_FILE_NAME_LEN.
(** No block files are left of an earlier download. *)
Hypothesis Hclean : ∀ nm, temp_name out 0 = Some nm → fs !! nm = None.
Abbreviation ns := [nblk].
Definition gen_data (g : nat) : list (list Z) := data_blocks.

Lemma one_gen g m : ns !! g = Some m → g = 0 ∧ m = nblk.
Proof. destruct g as [|[|g]]; cbn; [|done..]. by intros [= <-]. Qed.
Lemma gen_data_ok g m : ns !! g = Some m → length (gen_data g) = m ∧ Forall (vec bs) (gen_data g).
Proof using Hbytes. intros [-> ->]%one_gen. apply data_blocks_ok. Qed.

Lemma decoder_run :
  ∃ c fs0, codetorrentdecoder fs 8 bs out fsz = Some (c, fs0) ∧ client_inv out fsz bs ns gen_data fs0 c [] ∧ completed_ok ns c.
Proof using All.
  pose proof blocks_for_bounds as [Hn _]. pose proof sizes_fit as (Hf1 & Hf2 & Hf3 & Hf4 & _). unfold codetorrentdecoder, InitClient.
  rewrite (to_int_fits bs) by done. cbn [mbind option_bind]. destruct (Nat.eqb_spec bs 0); [lia|]. rewrite (int_fits nblk) by done. cbn [mbind option_bind]. cbv zeta.
  destruct (Nat.eqb_spec nblk 0); [lia|]. rewrite (to_int_fits fsz) by done. cbn [mbind option_bind]. destruct (Nat.leb_spec MAX_FILE_NAME_LEN (String.length out)); [lia|].
  rewrite num_blocks_8. cbn [mbind option_bind]. unfold client_gens. destruct (Nat.eqb_spec nblk 0); [lia|]. rewrite Nat.div_same by lia.
  rewrite Nat.mul_1_r, Nat.eqb_refl. cbn [replicate mbind option_bind lookup list_lookup]. rewrite int_fits by done. cbn [mbind option_bind]. eexists _, _. split; [done|]. split.
  - split; try done; cbn [c_gens buffer_size m_gdata m_helpful rank_vec rank_vec_in_buf].
    + cbn [buffer_size]. lia.
    + split; [apply length_replicate|]. apply Forall_replicate. apply length_replicate.
    + intros g m [-> ->]%one_gen. exists (replicate nblk (vzero nblk)), []. split; try done.
      * apply tri_zero.
      * cbn. by rewrite rank_zero.
      * rewrite rank_zero. done.
      * rewrite temp_name_some by lia. eexists. split; [done|]. rewrite lookup_delete_ne.
        -- rewrite Hclean; [done|]. by apply temp_name_some; lia.
        -- intros E. destruct (temp_name_ne out 0 _ (temp_name_some out 0 ltac:(lia))) as [Hx _]. by apply Hx.
      * apply Forall_replicate. by apply span_zero.
      * apply Forall_replicate. by apply span_zero.
  - unfold completed_ok. cbn. rewrite decide_False; [done|]. intros [= E]. lia.
Qed.

Lemma covers_one draws : draws ≠ [] → Forall (λ r, 0 <= r)%Z draws → covers ns draws.
Proof.
  intros Hd Hp g Hg. destruct draws as [|r draws]; [done|]. exists r. apply Forall_cons in Hp as [Hr _]. cbn in Hg.
  split; [by left|]. split; [done|]. cbn [length]. change (Z.of_nat 1) with 1%Z. rewrite Z.rem_1_r. lia.
Qed.

Lemma store_all_run fs1 c recv l :
  client_inv out fsz bs ns gen_data fs1 c recv → completed_ok ns c → Forall (valid bs ns gen_data) recv →
  Forall (λ x, coded nblk bs data_blocks x.1 ∧ gen x.1 = 0 ∧ x.2 ≠ [] ∧ Forall (λ r, 0 <= r)%Z x.2) l →
  ∃ c' fs', store_all fs1 c l = Some (c', fs') ∧ client_inv out fsz bs ns gen_data fs' c' (rev l.*1 ++ recv) ∧ completed_ok ns c' ∧
    Forall (valid bs ns gen_data) (rev l.*1 ++ recv).
Proof using All.
  intros I Hc Hr Hl. revert fs1 c recv I Hc Hr. induction Hl as [|[b draws] l (Hb & Hg & Hd & Hp) _ IH]; intros fs1 c recv I Hc Hr; cbn [store_all]; [by exists c, fs1|].
  cbn [fst snd] in *. assert (Hv : valid bs ns gen_data b) by (exists nblk; by rewrite Hg).
  unfold store_block. rewrite (ci_gens _ _ _ _ _ _ _ _ I), (ci_bs _ _ _ _ _ _ _ _ I), Hg. cbn [lookup list_lookup mbind option_bind].
  assert (CB 0 nblk bs (coeffs b) (sums b) = b) as -> by (destruct Hb as [Hb1 Hb2 _ _]; destruct b; cbn in *; by subst).
  destruct (StoreBlock_run out fsz bs ns gen_data gen_data_ok ltac:(cbn; lia) fs1 c recv b draws I Hc Hr Hv (covers_one _ Hd Hp) Hp)
    as (ok & c' & fs' & draws' & -> & I' & Hc' & _). cbn [mbind option_bind].
  destruct (IH fs' c' (b :: recv) I' Hc') as (c2 & fs2 & -> & H2); [by constructor|]. exists c2, fs2. split; [done|].
  rewrite fmap_cons. cbn [rev fst]. by rewrite <- app_assoc.
Qed.
End Decoder.
End RoundTrip.


Lemma of_gen_all l : Forall (λ b, gen b = 0) l → of_gen 0 l = coeffs <$> l.
Proof. unfold of_gen. induction 1 as [|b l Hb _ IH]; [done|]. rewrite filter_cons_True by done. rewrite !fmap_cons. by f_equal. Qed.
Lemma full_rank_perm n V V' : Forall (vec n) V → V ≡ₚ V' → full_rank n V → full_rank n V'.
Proof. intros HV Hp Hf v Hv. apply (span_perm n V); [done|done|by apply Hf]. Qed.
Lemma gen_out_one contents bs :
  bytes contents → 0 < length contents → 0 < bs →
  gen_out (length contents) bs [blocks_for (length contents) bs] (gen_data contents bs) 0 (blocks_for (length contents) bs) = contents.
Proof.
  intros Hb Hne Hbs. pose proof (blocks_for_bounds contents bs Hne Hbs) as [Hn Hl]. unfold gen_out, gen_data, data_blocks.
  apply (gen_blocks_concat bs); [done|lia|..].
  - intros j d Hj. unfold piece. cbn [length Nat.sub Nat.eqb andb]. destruct (Nat.eqb_spec j (blocks_for (length contents) bs - 1)); [lia|done].
  - intros d. unfold piece. cbn [length Nat.sub Nat.eqb andb]. by rewrite Nat.eqb_refl.
Qed.

(** C8: a file that is sent in coded blocks and received is the same file.  [codetorrentencoder]
    succeeds, and [encode] gives a coded block of the file each time it is called.  Whatever of
    these the decoder is given - some lost, some twice, in any order -
    [Decode] succeeds exactly when the coefficients received
    have full rank, and the output file then holds the contents, the last block cut to the length
    of the file.  For the [n] blocks of [bs] bytes of the file, [(n + bs) * n] is below 2^31, so that neither the sizes nor the
    offsets, which are [int]s, overflow; [rand] gives enough numbers that do not reduce to zero, the one generation of
    [codetorrentencoder] is used, and no block file of an earlier download is left. *)
Theorem codetorrent_roundtrip contents bs name out fs fs2 uninit dss :
  bytes contents → 0 < length contents → 0 < bs →
  (let n := blocks_for (length contents) bs in Z.of_nat ((n + bs) * n) < 2 ^ 31)%Z →
  String.length name < MAX_FILE_NAME_LEN → String.length out < MAX_FILE_NAME_LEN →
  fs !! name = Some contents → fs2 !! (out +:+ ".temp0") = None → (∀ k, length (uninit k) = k) →
  Forall (λ draws, blocks_for (length contents) bs <= good 256 draws) dss →
  ∃ s sent, codetorrentencoder name bs (length contents) = Some s ∧ encode_all uninit fs s dss = Some (Some <$> sent) ∧ length sent = length dss ∧
    ∀ recv : list (CodedBlock * list Z), Forall (λ x, x.1 ∈ sent ∧ x.2 ≠ [] ∧ Forall (λ r, 0 <= r)%Z x.2) recv →
      ∃ c fs0 c1 fs1 ok c2 fs3,
        codetorrentdecoder fs2 8 bs out (length contents) = Some (c, fs0) ∧ store_all fs0 c recv = Some (c1, fs1) ∧
        Decode gf fs1 c1 = Some (ok, c2, fs3) ∧
        (ok = true ↔ full_rank (blocks_for (length contents) bs) (coeffs <$> recv.*1)) ∧ (ok = true → fs3 !! out = Some contents).
Proof.
  intros Hb Hne Hbs Hfits Hname Hout Hf Hf2 Hu Hd. set (n := blocks_for (length contents) bs) in *.
  destruct (encode_all_run contents bs Hb Hne Hbs Hfits fs uninit name None dss Hf Hu (or_introl eq_refl) Hd) as (sent & He & Hs & Hl).
  exists (encoder contents bs name None), sent. split; [by apply encoder_run|]. split; [done|]. split; [done|]. intros recv Hr.
  assert (Hclean : ∀ nm, temp_name out 0 = Some nm → fs2 !! nm = None).
  { intros nm Hnm. rewrite temp_name_some in Hnm by lia. by injection Hnm as <-. }
  destruct (decoder_run contents bs Hb Hne Hbs Hfits fs2 out Hout Hclean) as (c & fs0 & Ec & I & Hc).
  assert (Hr' : Forall (λ x : CodedBlock * list Z, coded n bs (data_blocks contents bs) x.1 ∧ gen x.1 = 0 ∧ x.2 ≠ [] ∧ Forall (λ r, 0 <= r)%Z x.2) recv).
  { eapply Forall_impl; [exact Hr|]. intros x (Hx & ? & ?). rewrite Forall_forall in Hs. by destruct (Hs _ Hx). }
  destruct (store_all_run contents bs Hb Hne Hbs Hfits fs2 out Hout Hclean fs0 c [] recv I Hc (Forall_nil_2 _) Hr') as (c1 & fs1 & Es & I1 & Hc1 & Hv).
  rewrite app_nil_r in I1, Hv. pose proof (blocks_for_bounds contents bs Hne Hbs) as [Hn Hl2]. fold n in Hn, Hl2.
  destruct (Decode_run out (length contents) bs [n] (gen_data contents bs)) with (fs := fs1) (c := c1) (recv := rev recv.*1) as (ok & c2 & fs3 & Ed & Hok & Hfile);
    [by apply gen_data_ok|cbn; lia|done| | |apply (sizes_fit contents bs Hne Hbs Hfits)|by intros g m [-> ->]%one_gen|done|done|done|cbn; lia|].
  { intros g m [-> ->]%one_gen. cbn. fold n. lia. }
  { intros m [= <-]. cbn. lia. }
  exists c, fs0, c1, fs1, ok, c2, fs3. split; [done|]. split; [done|]. split; [done|].
  assert (Hg0 : Forall (λ b, gen b = 0) (rev recv.*1)).
  { apply Forall_rev, Forall_fmap. eapply Forall_impl; [exact Hr'|]. cbn. tauto. }
  assert (HV : Forall (vec n) (coeffs <$> recv.*1)).
  { rewrite <- list_fmap_compose. apply Forall_fmap. eapply Forall_impl; [exact Hr'|]. intros x (Hx & _). apply Hx. }
  assert (Hp : coeffs <$> rev recv.*1 ≡ₚ coeffs <$> recv.*1) by (apply fmap_Permutation; by rewrite <- Permutation_rev).
  split.
  - rewrite Hok. split.
    + intros H. specialize (H 0 n eq_refl). rewrite of_gen_all in H by done. apply (full_rank_perm n (coeffs <$> rev recv.*1)); [by rewrite Hp|done|done].
    + intros H g m [-> ->]%one_gen. fold n. rewrite of_gen_all by done. by apply (full_rank_perm n (coeffs <$> recv.*1)).
  - intros Hk. destruct (Hfile Hk) as (m & [= <-] & E). rewrite E. f_equal. cbn [length Nat.sub]. by apply gen_out_one.
Qed.
Lemma codetorrent_roundtrip_witness :
  ∃ s sent, codetorrentencoder "f" 2 3 = Some s ∧
    encode_all (λ k, replicate k 0%Z) {[ "f" := [7; 8; 9]%Z ]} s [[1; 2]; [1; 3]]%Z = Some (Some <$> sent) ∧ length sent = 2 ∧
    ∀ recv : list (CodedBlock * list Z), Forall (λ x, x.1 ∈ sent ∧ x.2 ≠ [] ∧ Forall (λ r, 0 <= r)%Z x.2) recv →
      ∃ c fs0 c1 fs1 ok c2 fs3,
        codetorrentdecoder ∅ 8 2 "g" 3 = Some (c, fs0) ∧ store_all fs0 c recv = Some (c1, fs1) ∧ Decode gf fs1 c1 = Some (ok, c2, fs3) ∧
        (ok = true ↔ full_rank 2 (coeffs <$> recv.*1)) ∧ (ok = true → fs3 !! "g" = Some [7; 8; 9]%Z).
Proof.
  apply (codetorrent_roundtrip [7; 8; 9]%Z 2 "f" "g" {[ "f" := [7; 8; 9]%Z ]} ∅ (λ k, replicate k 0%Z) [[1; 2]; [1; 3]]%Z).
  - repeat constructor; unfold is_byte; lia.
  - cbn; lia.
  - lia.
  - vm_compute; reflexivity.
  - cbn; unfold MAX_FILE_NAME_LEN; lia.
  - cbn; unfold MAX_FILE_NAME_LEN; lia.
  - apply lookup_singleton_eq.
  - apply lookup_empty.
  - intros k. apply length_replicate.
  - repeat constructor.
Defined.

(** ** A fragment as a coded block *)

(** The block of a fragment is a coded block of any data of which it is that part, so fragments and
    coded blocks can be given to one decoder. *)
Lemma single_block_coded uninit g id frag bs n :
  (∀ k, length (uninit k) = k) → id < n → vec bs frag →
  ∃ b, SingleBlockEncoder_EncodeSingleBlock gf uninit g id frag bs n = Some b ∧ gen b = g ∧
    ∀ D, Forall (vec bs) D → length D = n → D !! id = Some frag → coded n bs D b.
Proof.
  intros Hu Hid Hf. unfold SingleBlockEncoder_EncodeSingleBlock.
  set (D0 := (λ i, if i =? id then frag else vzero bs) <$> seq 0 n).
  assert (mapM (λ i, if i =? id then copy frag bs else Some (replicate bs 0%Z)) (seq 0 n) = Some D0) as ->.
  { unfold D0. induction (seq 0 n) as [|i l IH]; [done|]. cbn [mapM fmap list_fmap]. rewrite IH.
    assert (copy frag bs = Some frag) as -> by (unfold copy; rewrite (proj1 Hf), Nat.leb_refl, take_ge; [done|rewrite (proj1 Hf); lia]).
    by destruct (i =? id). }
  assert (HD0 : Forall (vec bs) D0).
  { unfold D0. apply Forall_fmap, Forall_forall. intros i _. cbn. destruct (i =? id); [done|apply vec_zero]. }
  assert (Hl0 : length D0 = n) by (unfold D0; by rewrite length_fmap, length_seq).
  cbn [mbind option_bind]. unfold EncodeSingleBlock, AllocCodedBlock, width. cbn [num_blocks_gen block_size coeffs sums gen].
  rewrite !nc_clear_run by done. cbn [mbind option_bind].
  pose proof (single_loop_run bs D0 HD0 n id [] [] D0 eq_refl eq_refl Hl0) as E. cbn [length app comb] in E. rewrite E. cbn [mbind option_bind].
  eexists. split; [done|]. split; [done|]. intros D HD Hl Hd. split; cbn [num_blocks_gen block_size coeffs sums]; [done|done| |].
  - split; [by rewrite length_fmap, length_seq|]. apply Forall_fmap, Forall_true. intros i. cbn. destruct (i =? id); unfold is_byte; lia.
  - apply (inj Some). etransitivity; [apply (comb_unit bs D0 HD0 id); lia|]. rewrite Hl0, <- Hl, (comb_unit bs D HD id) by lia.
    rewrite Hd. unfold D0. rewrite list_lookup_fmap, lookup_seq_lt by done. cbn. by rewrite Nat.eqb_refl.
Qed.

(** The whole way, computed: three bytes in blocks of two, and two coded blocks. *)
Example codetorrent_run :
  (s ← codetorrentencoder "f" 2 3;
   sent ← encode_all (λ k, replicate k 0%Z) {[ "f" := [7; 8; 9]%Z ]} s [[1; 2]; [1; 3]]%Z;
   '(c, fs) ← codetorrentdecoder ∅ 8 2 "g" 3;
   '(c, fs) ← store_all fs c ((λ b, (b, [0%Z])) <$> omap id sent);
   '(ok, _, fs) ← Decode gf fs c; Some (ok, fs !! "g")) = Some (true, Some [7; 8; 9]%Z).
Proof. vm_compute. reflexivity. Qed.

(** A file of 2 GB has no encoder and no decoder: its size is negative as an [int]. *)
Lemma large_file name bs n fs fieldsize :
  (2 ^ 31 <= Z.of_nat n < 2 ^ 32)%Z → codetorrentencoder name bs n = None ∧ codetorrentdecoder fs fieldsize bs name n = None.
Proof.
  intros H. assert (to_int n = None) as E.
  { unfold to_int, s32. rewrite u32_small by (unfold is_u32; lia). destruct (Z.ltb_spec (Z.of_nat n) (2 ^ 31)); [lia|]. cbv zeta.
    by destruct (Z.ltb_spec (Z.of_nat n - 2 ^ 32) 0); [|lia]. }
  unfold codetorrentencoder, codetorrentdecoder. rewrite E. split.
  - destruct (bs =? 0); [done|]. destruct (int _); [|done]. by destruct (to_int bs).
  - destruct (to_int bs) as [b|]; [|done]. cbn [mbind option_bind]. destruct (b =? 0); [done|]. by destruct (int _).
Qed.
(** With two generations the file is opened again for the second, and the first is gone. *)
Example two_generations_lose_the_first :
  ('(c, fs) ← InitClient ∅ 8 2 2 "g" 8;
   '(_, c, fs, _) ← StoreBlock gf fs c (CB 0 2 2 [1; 0]%Z [1; 2]%Z) [];
   '(_, c, fs, _) ← StoreBlock gf fs c (CB 0 2 2 [0; 1]%Z [3; 4]%Z) [];
   '(_, c, fs, _) ← StoreBlock gf fs c (CB 1 2 2 [1; 0]%Z [5; 6]%Z) [];
   '(_, c, fs, _) ← StoreBlock gf fs c (CB 1 2 2 [0; 1]%Z [7; 8]%Z) [0%Z];
   '(ok, _, fs) ← Decode gf fs c; Some (ok, fs !! "g", fs !! "g.temp0")) = Some (true, Some [5; 6; 7; 8]%Z, Some [0; 1; 3; 4; 1; 0; 1; 2]%Z).
Proof. vm_compute. reflexivity. Qed.
(** The last of fewer blocks than a generation has: a negative count on one side, one generation on the other. *)
Example generations_differ : server_gens 3 5 = Some [5; -2]%Z ∧ client_gens 3 5 = Some [3].
Proof. by split. Qed.
