(* ===== verification/Fragmentation.v ===== *)
(** * Fragmentation: data objects sent in fragments (the encoder of [hagglekernel/fragmentation]).

    [FragmentationDataObjectUtility] computes how many fragments a file has - with a quotient of
    [double]s - and where each begins; [FragmentationEncoderService] writes a fragment file with
    some of them and makes a data object of it, whose attributes say which fragments these are and
    of what object; [FragmentationEncoderStorage] remembers the fragments made.  [Reassembly] has
    the other side.

    Files are a map from paths to contents; [can_write] says which can be opened for writing, the
    files that are there can be read.  The clock and the name made of it, and the draws of [rand],
    are arguments.  An answer [None] is undefined behaviour or an allocation that throws,
    [Some None] is NULL or [false].  The flag of stored objects is not part of the record. *)

From S2P Require Import Prelude Text Timeval Base64 Sha1 Attribute CppString CppMap KernelMetadata KernelDataObject.

(** ** [double], as far as it is used: non-negative numbers [m * 2 ^ e] *)

Record double := Double { d_mant : Z; d_exp : Z }.

(** The mantissa nearest to [n / d], the even one of two. *)
Definition round_even (n d : Z) : Z :=
  let q := n / d in let r := n mod d in
  if 2 * r <? d then q else if d <? 2 * r then q + 1 else if Z.even q then q else q + 1.
(** [n / d] with 53 bits. *)
Definition round_double (n d : Z) : double :=
  if n =? 0 then Double 0 0
  else
    let k := Z.log2 n - Z.log2 d in
    let k := if n * 2 ^ Z.max 0 (- k) <? d * 2 ^ Z.max 0 k then k - 1 else k in
    let e := k - 52 in
    Double (round_even (n * 2 ^ Z.max 0 (- e)) (d * 2 ^ Z.max 0 e)) e.
Definition double_of (n : Z) : double := round_double n 1.
(** Division by zero gives an infinity or no number. *)
Definition double_div (a b : double) : option double :=
  if d_mant b =? 0 then None
  else
    let e := d_exp a - d_exp b in
    Some (round_double (d_mant a * 2 ^ Z.max 0 e) (d_mant b * 2 ^ Z.max 0 (- e))).
(** [ceil], as a number. *)
Definition double_ceil (a : double) : Z :=
  if 0 <=? d_exp a then d_mant a * 2 ^ d_exp a else - (- d_mant a / 2 ^ (- d_exp a)).
(** The conversion to [size_t] of what it cannot hold is undefined. *)
Definition size_t (z : Z) : option Z := if (0 <=? z) && (z <? 2 ^ 64) then Some z else None.

(** ** Fragments of a file *)

Definition calculateTotalNumberOfFragments (dataLen fragmentSize : Z) : option Z :=
  q ← double_div (double_of dataLen) (double_of fragmentSize);
  n ← size_t (double_ceil q);
  Some (if n =? 0 then 1 else n).

Record FragmentationPositionInfo := PositionInfo { startPosition : Z; actualFragmentSize : Z }.

Definition calculateFragmentationPositionInfo (sequenceNumber fragmentSize fileSize : Z) : option FragmentationPositionInfo :=
  let start := u64 (u64 (sequenceNumber - 1) * fragmentSize) in
  let endPosition := u64 (start + fragmentSize - 1) in
  let actual := if fileSize <? endPosition then u64 (fileSize - start) else fragmentSize in
  total ← calculateTotalNumberOfFragments fileSize fragmentSize;
  let actual := if (sequenceNumber =? total) && (endPosition =? fileSize) then u64 (fileSize - start) else actual in
  Some (PositionInfo start actual).

(** [new char[n]] throws when there are not so many addresses. *)
Definition alloc (n : Z) : option nat := if (0 <=? n) && (n <? 2 ^ 63) then Some (Z.to_nat n) else None.
(** [fseek], [fread] into a buffer of zeros. *)
Definition read_at (contents : list Z) (start : Z) (len : nat) : list Z := take len (drop (Z.to_nat start) contents).
Definition pad (len : nat) (read : list Z) : list Z := read ++ replicate (len - length read) 0.
(** [fwrite] at a position, behind the end after zeros. *)
Definition write_at (contents : list Z) (start : Z) (data : list Z) : list Z :=
  let start := Z.to_nat start in pad start (take start contents) ++ data ++ drop (start + length data) contents.

Definition allocateFile (can_write : string → bool) (fs : files) (filePath : string) (fileSize : Z) : option (bool * files) :=
  if can_write filePath then n ← alloc fileSize; Some (true, <[filePath := replicate n 0]> fs) else Some (false, fs).

Definition storeFragmentToDataObject (fs : files) (originalPath fragmentPath : string)
    (parentStart fragmentSize fragmentStart : Z) : option (bool * files) :=
  match fs !! fragmentPath with
  | None => Some (false, fs)
  | Some fragment =>
    if 2 ^ 63 <=? fragmentStart then Some (false, fs)
    else
      _ ← alloc (u64 (fragmentSize + 1)); n ← alloc fragmentSize;
      let read := read_at fragment fragmentStart n in
      if (length read =? 0)%nat then Some (false, fs)
      else match fs !! originalPath with
           | None => Some (false, fs)
           | Some parent =>
             if 2 ^ 63 <=? parentStart then Some (false, fs)
             else Some (true, <[originalPath := write_at parent parentStart (pad n read)]> fs)
           end
  end.

(** ** Attributes of fragments *)

Definition HAGGLE_ATTR_FRAGMENTATION_PARENT_DATAOBJECT_ID : string := "_FR_ORIG_ID_".
Definition HAGGLE_ATTR_FRAGMENTATION_SEQUENCE_NUMBER : string := "_FR_SEQ_NUM_".
Definition HAGGLE_ATTR_FRAGMENTATION_PARENT_ORIG_LEN : string := "_FR_ORIG_DATA_LEN_".
Definition HAGGLE_ATTR_FRAGMENTATION_PARENT_ORIG_NAME : string := "_FR_ORIG_FILE_NAME_".
Definition HAGGLE_ATTR_FRAGMENTATION_PARENT_CREATION_TIME : string := "_FR_ORIG_CREATE_TIME_".
Definition HAGGLE_ATTR_FRAGMENTATION_PARENT_ORIG_SIGNEE : string := "_FR_ORIG_SIGNEE_".
Definition HAGGLE_ATTR_FRAGMENTATION_PARENT_ORIG_SIGNATURE : string := "_FR_ORIG_SIGNATURE_".

Definition isFragmentationDataObject (d : kdobj) : option bool :=
  b ← hasAttribute d (MkAttr HAGGLE_ATTR_FRAGMENTATION_NAME "TRUE" 1);
  if negb b then Some false else b ← hasAttribute d (MkAttr HAGGLE_ATTR_NETWORKCODING_NAME "TRUE" 1); Some (negb b).

(** The members that an early return leaves out: strings are empty, the size is not initialised. *)
Record FragmentParentDataObjectInfo := ParentInfo
  { i_dataObjectId : string; i_fileSize : option Z; i_sequenceNumberList : list string; i_fileName : string; i_createTime : string }.

(** The calls of [strtok]. *)
Fixpoint strtok_loop (fuel : nat) (p : option (string * string)) : option (list string) :=
  match fuel with
  | O => None
  | S fuel =>
    match p with None => Some [] | Some (token, rest) => l ← strtok_loop fuel (strtok "," rest); Some (token :: l) end
  end.
Definition sequence_numbers (csv : string) : option (list string) := strtok_loop (S (String.length csv)) (strtok "," csv).

Definition getFragmentParentDataObjectInfo (d : kdobj) : option FragmentParentDataObjectInfo :=
  a ← getAttribute d HAGGLE_ATTR_FRAGMENTATION_PARENT_DATAOBJECT_ID "*" 1;
  match a with None => Some (ParentInfo "" None [] "" "") | Some a =>
  let id := av a in
  a ← getAttribute d HAGGLE_ATTR_FRAGMENTATION_PARENT_ORIG_LEN "*" 1;
  match a with None => Some (ParentInfo id None [] "" "") | Some a =>
  let fileSize := u64 (strtol (av a)) in
  if fileSize =? 0 then Some (ParentInfo id (Some fileSize) [] "" "") else
  a ← getAttribute d HAGGLE_ATTR_FRAGMENTATION_SEQUENCE_NUMBER "*" 1;
  match a with None => Some (ParentInfo id (Some fileSize) [] "" "") | Some a =>
  l ← sequence_numbers (av a);
  a ← getAttribute d HAGGLE_ATTR_FRAGMENTATION_PARENT_ORIG_NAME "*" 1;
  match a with None => Some (ParentInfo id (Some fileSize) l "" "") | Some a =>
  let name := av a in
  a ← getAttribute d HAGGLE_ATTR_FRAGMENTATION_PARENT_CREATION_TIME "*" 1;
  Some (ParentInfo id (Some fileSize) l name (match a with None => "" | Some a => av a end))
  end end end end.

Definition encryption_done (st : ABEStatus_t) : bool :=
  match st with ABE_NOT_NEEDED | ABE_ENCRYPTION_NEEDED => false | _ => true end.
Definition getFilePath (d : kdobj) : string := if encryption_done (k_ABEStatus d) then k_encryptedFilePath d else k_filepath d.
Definition getFileLength (d : kdobj) : Z := if encryption_done (k_ABEStatus d) then k_encryptedFileLength d else k_dataLen d.

(** ** The encoder *)

(** A call that answers NULL or [false] ends the function. *)
Definition or_null {A B} (x : option (option A)) (f : A → option (option B)) : option (option B) :=
  match x with None => None | Some None => Some None | Some (Some a) => f a end.

(** [new int[n]] with 1, 2 and so on; a counter beyond [int] overflows. *)
Definition getIndexesOfFragmentsToCreate (total : Z) : option (list Z) :=
  if 2 ^ 31 <? total then None else Some (Z.of_nat <$> seq 1 (Z.to_nat total)).

(** ["%d"] of a [size_t]. *)
Definition sprintf_d (n : Z) : string := fmt_ld (s32 n).

(** The [count] fragments from [startIndex]: the file with them and the list of their numbers. *)
Fixpoint encode_loop (count : nat) (indexes : list Z) (original : list Z) (startIndex total fragmentSize fileSize : Z)
    (csv : string) (fragment : list Z) : option (string * list Z) :=
  match count with
  | O => Some (csv, fragment)
  | S count =>
    if total <=? startIndex then Some (csv, fragment)
    else
      n ← indexes !! Z.to_nat startIndex;
      p ← calculateFragmentationPositionInfo n fragmentSize fileSize;
      let csv := csv +:+ sprintf_d n +:+ "," in
      _ ← alloc (u64 (actualFragmentSize p + 1)); len ← alloc (actualFragmentSize p);
      encode_loop count indexes original (startIndex + 1) total fragmentSize fileSize csv
        (fragment ++ pad len (read_at original (startPosition p) len))
  end.

Definition drop_last (s : string) : string := CppString.substr s 0 (match slen s with O => None | S n => Some n end).

(** ["%d"] of an [int]. *)
Definition data_len_text (d : kdobj) : string := fmt_ld (s32 (getFileLength d)).

Record FragmentationEncoderStorage := EncoderStorage
  { es_objects : gmap string kdobj; es_fragments : gmap string (gmap Z kdobj); es_sendTime : gmap string string }.
Definition encoder_storage_new : FragmentationEncoderStorage := EncoderStorage ∅ ∅ ∅.
Definition addDataObject (st : FragmentationEncoderStorage) (id : string) (d : kdobj) : FragmentationEncoderStorage :=
  EncoderStorage (<[id := d]> (es_objects st)) (es_fragments st) (es_sendTime st).
Definition addFragment (st : FragmentationEncoderStorage) (id : string) (n : Z) (f : kdobj) : FragmentationEncoderStorage :=
  EncoderStorage (es_objects st) (<[id := <[n := f]> (default ∅ (es_fragments st !! id))]> (es_fragments st)) (es_sendTime st).
Definition getFragment (st : FragmentationEncoderStorage) (id : string) (n : Z) : option kdobj :=
  m ← es_fragments st !! id; m !! n.
Definition trackSendEvent (st : FragmentationEncoderStorage) (now : Timeval) (id : string) : option FragmentationEncoderStorage :=
  s ← getAsString now; Some (EncoderStorage (es_objects st) (es_fragments st) (<[id := s]> (es_sendTime st))).
Definition deleteFromStorageByDataObjectId (st : FragmentationEncoderStorage) (id : string) : FragmentationEncoderStorage :=
  EncoderStorage (delete id (es_objects st)) (delete id (es_fragments st)) (es_sendTime st).

Section Encoder.
Context {SHA_CTX : Type} (SHA_Init : SHA_CTX) (SHA_Update : SHA_CTX → list Z → SHA_CTX) (SHA_Final : SHA_CTX → list Z).
Context (uninit_time : Timeval) (storagepath : string) (can_write : string → bool).

(** [addAttribute (name, value, 0)]. *)
Definition add_attr (d : kdobj) (name value : string) : option (option kdobj) :=
  '(ok, d) ← addAttribute SHA_Init SHA_Update SHA_Final d (MkAttr name value 0); Some (if ok : bool then Some d else None).
Fixpoint copy_attributes (l : list attr) (d : kdobj) : option (option kdobj) :=
  match l with
  | [] => Some (Some d)
  | a :: l =>
    '(ok, d) ← addAttribute SHA_Init SHA_Update SHA_Final d a;
    if ok : bool then copy_attributes l d else Some None
  end.
Definition add_signature (o d : kdobj) : option (option kdobj) :=
  match k_signature o with
  | None => Some (Some d)
  | Some sg =>
    or_null (add_attr d HAGGLE_ATTR_FRAGMENTATION_PARENT_ORIG_SIGNEE (k_signee o)) (λ d,
    match base64_encode_alloc malloc_succeeds sg with
    | (ret, Some text) =>
      if ret <=? 0 then Some None else add_attr d HAGGLE_ATTR_FRAGMENTATION_PARENT_ORIG_SIGNATURE (string_of_bytes text)
    | (ret, None) => Some None
    end)
  end.
Definition addAttributes (o d : kdobj) (csv : string) : option (option kdobj) :=
  l ← entries (k_attrs o);
  or_null (copy_attributes l.*2 d) (λ d,
  or_null (add_attr d HAGGLE_ATTR_FRAGMENTATION_SEQUENCE_NUMBER csv) (λ d,
  or_null (add_attr d HAGGLE_ATTR_FRAGMENTATION_NAME "TRUE") (λ d,
  if s32 (getFileLength o) =? 0 then Some None else
  or_null (add_attr d HAGGLE_ATTR_FRAGMENTATION_PARENT_ORIG_LEN (data_len_text o)) (λ d,
  or_null (add_attr d HAGGLE_ATTR_FRAGMENTATION_PARENT_DATAOBJECT_ID (k_idStr o)) (λ d,
  or_null (add_attr d HAGGLE_ATTR_FRAGMENTATION_PARENT_ORIG_NAME (k_filename o)) (λ d,
  time ← getAsString (k_createTime o);
  or_null (add_attr d HAGGLE_ATTR_FRAGMENTATION_PARENT_CREATION_TIME time) (λ d,
  createTime ← Timeval_string uninit_time time;
  d ← setCreateTime SHA_Init SHA_Update SHA_Final d createTime;
  add_signature o d))))))).

Definition createFragmentFileName (name timestamp : string) : string :=
  storagepath +:+ "/" +:+ name +:+ "." +:+ timestamp +:+ ".frag".

Definition encodeDataObject (numberFragmentsPerDataObject : Z) (st : FragmentationEncoderStorage) (fs : files) (now : Timeval)
    (timestamp : string) (o : kdobj) (startIndex fragmentSize : Z) : option (option kdobj * FragmentationEncoderStorage * files) :=
  let fragmentFile := createFragmentFileName (k_filename o) timestamp in
  match fs !! getFilePath o with
  | None => Some (None, st, fs)
  | Some _ =>
    if negb (can_write fragmentFile) then Some (None, st, fs)
    else
      let fs := <[fragmentFile := []]> fs in
      let st := addDataObject st (k_idStr o) o in
      original ← fs !! getFilePath o;
      total ← calculateTotalNumberOfFragments (getFileLength o) fragmentSize;
      indexes ← getIndexesOfFragmentsToCreate total;
      let n := Z.min numberFragmentsPerDataObject total in
      '(csv, fragment) ← encode_loop (Z.to_nat n) indexes original startIndex total fragmentSize (Z.of_nat (length original)) "" [];
      let fs := <[fragmentFile := fragment]> fs in
      d ← create_from_file SHA_Init SHA_Update SHA_Final fs now fragmentFile (k_filename o);
      match d with
      | None => Some (None, st, fs)
      | Some d =>
        r ← addAttributes o d (drop_last csv);
        Some (r, st, match r with Some _ => fs | None => (deleteData fs d).2 end)
      end
  end.

(** [getAllFragmentsForDataObject]: the loop over the start indexes, which asks the node for every
    fragment, and the choice of one that it does not have.  [clock i] is the time and the name of
    the file when the fragment with index [i] is made. *)
Fixpoint fragments_loop (fuel : nat) (perObject : Z) (st : FragmentationEncoderStorage) (fs : files) (clock : Z → Timeval * string)
    (o : kdobj) (fragmentSize : Z) (has : kdobj → bool) (startIndex total : Z) (missing : list kdobj)
    : option (list kdobj * FragmentationEncoderStorage * files) :=
  match fuel with
  | O => None
  | S fuel =>
    if total <=? u64 startIndex then Some (missing, st, fs)
    else
      '(f, st, fs) ← (match getFragment st (k_idStr o) startIndex with
                      | Some f => Some (Some f, st, fs)
                      | None =>
                        '(f, st, fs) ← encodeDataObject perObject st fs (clock startIndex).1 (clock startIndex).2 o startIndex fragmentSize;
                        Some (f, match f with Some f => addFragment st (k_idStr o) startIndex f | None => st end, fs)
                      end);
      let missing := match f with Some f => if has f then missing else f :: missing | None => missing end in
      fragments_loop fuel perObject st fs clock o fragmentSize has (s32 (startIndex + perObject)) total missing
  end.
Definition getAllFragmentsForDataObject (perObject : Z) (st : FragmentationEncoderStorage) (fs : files) (clock : Z → Timeval * string)
    (rand : Z) (o : kdobj) (fragmentSize : Z) (has : kdobj → bool) : option (list kdobj * FragmentationEncoderStorage * files) :=
  total ← calculateTotalNumberOfFragments (getFileLength o) fragmentSize;
  '(missing, st, fs) ← fragments_loop (S (Z.to_nat total)) perObject st fs clock o fragmentSize has 0 total [];
  match missing with
  | [] => Some ([], st, fs)
  | _ => f ← missing !! Z.to_nat (rand mod Z.of_nat (length missing)); Some ([f], st, fs)
  end.
End Encoder.

(** ** The number of fragments *)

Definition ceil_div (a b : Z) : Z := (a + b - 1) / b.

Lemma ceil_div_spec a b : 0 < b → (ceil_div a b - 1) * b < a <= ceil_div a b * b.
Proof.
  intros Hb. unfold ceil_div. pose proof (Z.div_mod (a + b - 1) b ltac:(lia)). pose proof (Z.mod_pos_bound (a + b - 1) b Hb). nia.
Qed.
Lemma ceil_div_unique a b c : 0 < b → (c - 1) * b < a <= c * b → ceil_div a b = c.
Proof. intros Hb H. pose proof (ceil_div_spec a b Hb). nia. Qed.
Lemma ceil_neg_div m p : 0 < p → - (- m / p) = ceil_div m p.
Proof.
  intros Hp. symmetry. apply ceil_div_unique; [done|]. pose proof (Z.div_mod (- m) p ltac:(lia)). pose proof (Z.mod_pos_bound (- m) p Hp). nia.
Qed.

Lemma round_even_near n d : 0 < d → - d <= 2 * round_even n d * d - 2 * n <= d.
Proof.
  intros Hd. unfold round_even. pose proof (Z.div_mod n d ltac:(lia)). pose proof (Z.mod_pos_bound n d Hd).
  destruct (Z.ltb_spec (2 * (n mod d)) d), (Z.ltb_spec d (2 * (n mod d))), (Z.even (n / d)); nia.
Qed.
Lemma round_even_exact n : round_even n 1 = n.
Proof. unfold round_even. by rewrite Z.div_1_r, Z.mod_1_r. Qed.

Lemma double_of_exact n : 0 < n < 2 ^ 53 → double_of n = Double (n * 2 ^ (52 - Z.log2 n)) (Z.log2 n - 52).
Proof.
  intros Hn. unfold double_of, round_double. destruct (Z.eqb_spec n 0); [lia|]. change (Z.log2 1) with 0.
  pose proof (Z.log2_nonneg n). assert (Z.log2 n < 53) by (apply Z.log2_lt_pow2; lia). destruct (Z.log2_spec n); [lia|].
  rewrite Z.sub_0_r, (Z.max_l 0 (- Z.log2 n)), (Z.max_r 0 (Z.log2 n)) by lia.
  destruct (Z.ltb_spec (n * 2 ^ 0) (1 * 2 ^ Z.log2 n)); [lia|]. rewrite (Z.max_l 0 (Z.log2 n - 52)), (Z.max_r 0 (- (Z.log2 n - 52))) by lia.
  change (1 * 2 ^ 0) with 1. rewrite round_even_exact. do 2 f_equal. f_equal. lia.
Qed.

(** The exponent of the leading bit of a quotient. *)
Lemma quotient_exponent n d : 0 < n → 0 < d →
  let k := Z.log2 n - Z.log2 d in
  let k := if n * 2 ^ Z.max 0 (- k) <? d * 2 ^ Z.max 0 k then k - 1 else k in
  d * 2 ^ Z.max 0 k <= n * 2 ^ Z.max 0 (- k).
Proof.
  intros Hn Hd k0. cbv zeta. destruct (Z.ltb_spec (n * 2 ^ Z.max 0 (- k0)) (d * 2 ^ Z.max 0 k0)); [|lia].
  destruct (Z.log2_spec n Hn) as [Hn1 _], (Z.log2_spec d Hd) as [_ Hd2].
  pose proof (Z.log2_nonneg n). pose proof (Z.log2_nonneg d). destruct (Z.le_gt_cases 1 k0).
  - rewrite Z.max_r, Z.max_l by lia. rewrite Z.mul_1_r. transitivity (2 ^ Z.succ (Z.log2 d) * 2 ^ (k0 - 1)); [nia|].
    rewrite <- Z.pow_add_r by lia. etrans; [|exact Hn1]. apply Z.pow_le_mono_r; lia.
  - rewrite Z.max_l, Z.max_r by lia. rewrite Z.mul_1_r. transitivity (2 ^ Z.log2 n * 2 ^ (- (k0 - 1))); [|nia].
    rewrite <- Z.pow_add_r by lia. etrans; [apply Z.lt_le_incl, Hd2|]. apply Z.pow_le_mono_r; lia.
Qed.

(** A quotient of numbers below [2 ^ 52] is not rounded past an integer. *)
Lemma round_double_ceil a b s : 0 < a < 2 ^ 52 → 0 < b → 0 < s → double_ceil (round_double (a * s) (b * s)) = ceil_div a b.
Proof.
  intros Ha Hb Hs. unfold round_double. destruct (Z.eqb_spec (a * s) 0); [nia|].
  pose proof (quotient_exponent (a * s) (b * s) ltac:(nia) ltac:(nia)) as Hk. cbv zeta in Hk |- *. revert Hk.
  generalize (if a * s * 2 ^ Z.max 0 (- (Z.log2 (a * s) - Z.log2 (b * s))) <? b * s * 2 ^ Z.max 0 (Z.log2 (a * s) - Z.log2 (b * s))
              then Z.log2 (a * s) - Z.log2 (b * s) - 1 else Z.log2 (a * s) - Z.log2 (b * s)). intros k Hk'.
  assert (Hk : b * 2 ^ Z.max 0 k <= a * 2 ^ Z.max 0 (- k)) by (apply (Z.mul_le_mono_pos_r _ _ s Hs); lia). clear Hk'.
  assert (Hk52 : k < 52).
  { destruct (Z.le_gt_cases 52 k) as [H|]; [exfalso|done]. rewrite Z.max_r, Z.max_l, Z.mul_1_r in Hk by lia.
    pose proof (Z.pow_le_mono_r 2 52 k ltac:(lia) H). assert (1 * 2 ^ k <= b * 2 ^ k) by (apply Z.mul_le_mono_nonneg_r; lia). lia. }
  assert (HP : b < 2 ^ (52 - k)).
  { destruct (Z.le_gt_cases 0 k).
    - rewrite Z.max_r, Z.max_l, Z.mul_1_r in Hk by lia. assert (2 ^ 52 = 2 ^ k * 2 ^ (52 - k)) as E by (rewrite <- Z.pow_add_r by lia; f_equal; lia).
      apply (Z.mul_lt_mono_pos_r (2 ^ k)); [by apply Z.pow_pos_nonneg|lia].
    - rewrite Z.max_l, Z.max_r, Z.mul_1_r in Hk by lia. assert (2 ^ (52 - k) = 2 ^ 52 * 2 ^ (- k)) as E by (rewrite <- Z.pow_add_r by lia; f_equal; lia).
      assert (a * 2 ^ (- k) < 2 ^ 52 * 2 ^ (- k)); [|lia]. apply Z.mul_lt_mono_pos_r; [apply Z.pow_pos_nonneg; lia|lia]. }
  rewrite (Z.max_l 0 (k - 52)), (Z.max_r 0 (- (k - 52))) by lia. rewrite Z.mul_1_r. unfold double_ceil. cbn [d_mant d_exp].
  destruct (Z.leb_spec 0 (k - 52)); [lia|]. replace (- (k - 52)) with (52 - k) by lia. revert HP.
  generalize (2 ^ (52 - k)). intros P HP. rewrite ceil_neg_div by lia.
  pose proof (round_even_near (a * s * P) (b * s) ltac:(nia)) as Hm. revert Hm. generalize (round_even (a * s * P) (b * s)). intros m Hm.
  pose proof (ceil_div_spec a b Hb) as Hc. revert Hc. generalize (ceil_div a b). intros c Hc.
  apply ceil_div_unique; [lia|].
  assert (- b <= 2 * (m * b) - 2 * (a * P) <= b) as Hm' by (split; apply (Z.mul_le_mono_pos_l _ _ s Hs); lia).
  assert (a * P <= c * P * b) by (replace (c * P * b) with (c * b * P) by ring; apply Z.mul_le_mono_nonneg_r; lia).
  assert ((c - 1) * P * b + P <= a * P) by (replace ((c - 1) * P * b + P) with (((c - 1) * b + 1) * P) by ring; apply Z.mul_le_mono_nonneg_r; lia).
  split; apply (Z.mul_lt_mono_pos_r b) || (apply Z.lt_succ_r, (Z.mul_lt_mono_pos_r b)); lia.
Qed.

Lemma total_run a b : 0 < a < 2 ^ 52 → 0 < b < 2 ^ 52 → calculateTotalNumberOfFragments a b = Some (ceil_div a b).
Proof.
  intros Ha Hb. unfold calculateTotalNumberOfFragments, double_div. rewrite !double_of_exact by lia. cbn [d_mant d_exp].
  assert (Hlog : ∀ n, 0 < n < 2 ^ 52 → 0 < 2 ^ (52 - Z.log2 n)).
  { intros n Hn. apply Z.pow_pos_nonneg; [lia|]. assert (Z.log2 n < 52); [apply Z.log2_lt_pow2; lia|lia]. }
  assert (Hla : Z.log2 a < 52) by (apply Z.log2_lt_pow2; lia). assert (Hlb : Z.log2 b < 52) by (apply Z.log2_lt_pow2; lia).
  destruct (Z.eqb_spec (b * 2 ^ (52 - Z.log2 b)) 0); [specialize (Hlog b Hb); nia|]. cbn [mbind option_bind].
  set (M := Z.max (52 - Z.log2 a) (52 - Z.log2 b)).
  assert (double_ceil (round_double (a * 2 ^ M) (b * 2 ^ M)) = ceil_div a b) as E by (apply round_double_ceil; [lia|lia|apply Z.pow_pos_nonneg; lia]).
  rewrite <- !Z.mul_assoc, <- !Z.pow_add_r by lia.
  replace (52 - Z.log2 a + _) with M by lia. replace (52 - Z.log2 b + _) with M by lia. rewrite E. clear E.
  pose proof (ceil_div_spec a b ltac:(lia)) as Hc. unfold size_t.
  assert (0 < ceil_div a b <= a) as Hr by nia.
  destruct (Z.leb_spec 0 (ceil_div a b)), (Z.ltb_spec (ceil_div a b) (2 ^ 64)); try lia. cbn [andb mbind option_bind].
  by destruct (Z.eqb_spec (ceil_div a b) 0); [lia|].
Qed.

Lemma u64_small n : 0 <= n < 2 ^ 64 → u64 n = n.
Proof. apply Z.mod_small. Qed.

Lemma position_run a b n : 0 < a < 2 ^ 52 → 0 < b < 2 ^ 52 → 1 <= n <= ceil_div a b →
  calculateFragmentationPositionInfo n b a = Some (PositionInfo ((n - 1) * b) (Z.min b (a - (n - 1) * b))) ∧ 0 <= (n - 1) * b < a.
Proof.
  intros Ha Hb Hn. pose proof (ceil_div_spec a b ltac:(lia)) as Hc.
  assert (0 <= (n - 1) * b < a) as Hs by nia. split; [|done].
  unfold calculateFragmentationPositionInfo. rewrite total_run by lia. cbn [mbind option_bind].
  assert (0 <= n - 1 <= (n - 1) * b) by nia. rewrite (u64_small (n - 1)), (u64_small ((n - 1) * b)), (u64_small ((n - 1) * b + b - 1)), (u64_small (a - (n - 1) * b)) by lia.
  do 2 f_equal. destruct (Z.ltb_spec a ((n - 1) * b + b - 1)); [destruct (_ && _); lia|].
  destruct (Z.eqb_spec ((n - 1) * b + b - 1) a); [|rewrite andb_false_r; lia].
  destruct (Z.eqb_spec n (ceil_div a b)); cbn [andb]; nia.
Qed.

(** ** The pieces of a file *)

Definition piece (contents : list Z) (fragmentSize n : Z) : list Z :=
  take (Z.to_nat fragmentSize) (drop (Z.to_nat ((n - 1) * fragmentSize)) contents).
(** The numbers of [count] fragments from an index. *)
Definition numbers (start count : nat) : list Z := Z.of_nat <$> seq (S start) count.

Lemma length_piece contents b n : 0 < b → 0 <= (n - 1) * b < Z.of_nat (length contents) →
  Z.of_nat (length (piece contents b n)) = Z.min b (Z.of_nat (length contents) - (n - 1) * b).
Proof. intros Hb Hn. unfold piece. rewrite length_take, length_drop. lia. Qed.
Lemma piece_read contents b n : 0 < b → 0 <= (n - 1) * b < Z.of_nat (length contents) →
  read_at contents ((n - 1) * b) (Z.to_nat (Z.min b (Z.of_nat (length contents) - (n - 1) * b))) = piece contents b n.
Proof.
  intros Hb Hn. unfold piece, read_at. apply list_eq. intros i. destruct (decide (i < Z.to_nat b)%nat).
  - destruct (decide (Z.to_nat ((n - 1) * b) + i < length contents)%nat) as [H|H].
    + rewrite !lookup_take_lt by lia. done.
    + rewrite (lookup_ge_None_2 (take _ (drop _ contents))); [|rewrite length_take, length_drop; lia].
      rewrite (lookup_ge_None_2 (take (Z.to_nat b) _)); [done|rewrite length_take, length_drop; lia].
  - rewrite !(lookup_ge_None_2 (take _ _)); [done|rewrite length_take; lia..].
Qed.
Lemma pad_full len l : length l = len → pad len l = l.
Proof. intros <-. unfold pad. rewrite Nat.sub_diag. apply app_nil_r. Qed.

(** Consecutive pieces are a part of the file. *)
Lemma pieces_concat contents b start count : 0 < b →
  concat (piece contents b <$> numbers start count) = take (count * Z.to_nat b) (drop (start * Z.to_nat b) contents).
Proof.
  intros Hb. unfold numbers. revert start. induction count as [|count IH]; intros start; [done|].
  cbn [seq fmap list_fmap concat]. rewrite IH. unfold piece.
  replace (Z.to_nat ((Z.of_nat (S start) - 1) * b)) with (start * Z.to_nat b)%nat by (rewrite Z2Nat.inj_mul by lia; lia).
  rewrite <- (take_drop (Z.to_nat b) (drop (start * Z.to_nat b) contents)) at 2.
  rewrite take_app, drop_drop, length_take, length_drop. rewrite (take_ge (take _ _)) by (rewrite length_take; lia). f_equal.
  destruct (decide (start * Z.to_nat b + Z.to_nat b <= length contents)%nat).
  - f_equal; [lia|]. f_equal. lia.
  - rewrite (drop_ge contents (S start * _)), (drop_ge contents (start * _ + _)) by lia. by rewrite !take_nil.
Qed.
Lemma pieces_all contents b : 0 < b → concat (piece contents b <$> numbers 0 (Z.to_nat (ceil_div (Z.of_nat (length contents)) b))) = contents.
Proof.
  intros Hb. rewrite pieces_concat by done. cbn [Nat.mul drop]. apply take_ge.
  pose proof (ceil_div_spec (Z.of_nat (length contents)) b Hb). rewrite <- Z2Nat.inj_mul by nia. lia.
Qed.

(** C30: a file is cut into as many fragments as its size divided by that of a fragment, rounded up -
    although the quotient is one of [double]s - and the fragments have their places: every one is in the
    file, none is empty or larger than a fragment, and one after the other they are the file, so that
    no byte is sent twice or left out.  No computation overflows. *)
Theorem fragments_cover contents b :
  0 < Z.of_nat (length contents) < 2 ^ 52 → 0 < b < 2 ^ 52 →
  let a := Z.of_nat (length contents) in
  ∃ total, calculateTotalNumberOfFragments a b = Some total ∧ (total - 1) * b < a <= total * b ∧
  ∃ ps, Forall2 (λ n p, calculateFragmentationPositionInfo n b a = Some p) (numbers 0 (Z.to_nat total)) ps ∧
    Forall (λ p, 0 < actualFragmentSize p <= b ∧ 0 <= startPosition p ∧ startPosition p + actualFragmentSize p <= a) ps ∧
    concat ((λ p, pad (Z.to_nat (actualFragmentSize p)) (read_at contents (startPosition p) (Z.to_nat (actualFragmentSize p)))) <$> ps) = contents.
Proof.
  intros Ha Hb a. exists (ceil_div a b). split; [by apply total_run|]. split; [apply ceil_div_spec; lia|].
  set (pos n := PositionInfo ((n - 1) * b) (Z.min b (a - (n - 1) * b))). exists (pos <$> numbers 0 (Z.to_nat (ceil_div a b))).
  assert (Hn : Forall (λ n, 1 <= n <= ceil_div a b) (numbers 0 (Z.to_nat (ceil_div a b)))).
  { apply Forall_fmap, Forall_forall. intros i Hi%elem_of_seq. cbn in *. lia. }
  split; [|split].
  - apply Forall2_fmap_r, Forall_Forall2_diag. eapply Forall_impl; [exact Hn|]. intros n Hr. by apply position_run.
  - apply Forall_fmap. eapply Forall_impl; [exact Hn|]. intros n Hr. destruct (position_run a b n Ha Hb Hr) as [_ Hp].
    unfold compose, pos. cbn. lia.
  - transitivity (concat (piece contents b <$> numbers 0 (Z.to_nat (ceil_div a b)))); [|apply pieces_all; lia]. rewrite <- list_fmap_compose. f_equal. apply list_fmap_ext. intros i n Hi.
    destruct (position_run a b n Ha Hb) as [_ Hp]; [by apply (Forall_lookup_1 _ _ _ _ Hn Hi)|].
    unfold compose, pos. cbn [startPosition actualFragmentSize]. unfold a in *. rewrite piece_read by lia. apply pad_full.
    pose proof (length_piece contents b n ltac:(lia) Hp). lia.
Qed.

(** ** The numbers in the attribute *)

Fixpoint joined (l : list Z) : string :=
  match l with [] => "" | [n] => dec n | n :: l => dec n +:+ "," +:+ joined l end.
Fixpoint csv_text (l : list Z) : string := match l with [] => "" | n :: l => dec n +:+ "," +:+ csv_text l end.

Lemma csv_text_joined n l : csv_text (n :: l) = joined (n :: l) +:+ ",".
Proof.
  revert n. induction l as [|n' l IH]; intros n; [done|]. change (dec n +:+ "," +:+ csv_text (n' :: l) = (dec n +:+ "," +:+ joined (n' :: l)) +:+ ",").
  rewrite IH. by rewrite !app_assoc_string.
Qed.
Lemma drop_last_comma w : drop_last (w +:+ ",") = w.
Proof.
  unfold drop_last. assert (slen (w +:+ ",") = S (slen w)) as -> by (unfold slen; rewrite length_app_string; cbn; lia).
  exact (substr_spec "" w ",").
Qed.

Lemma dec_ne n : 0 <= n → dec n ≠ "".
Proof. intros Hn. destruct (dec_head n Hn) as (d & r & -> & _). done. Qed.
Lemma of_digits_clean l s : Forall (λ d, 0 <= d < 10) l → clean "," s → clean "," (of_digits l s).
Proof.
  revert s. induction l as [|d l IH]; intros s; [done|]. intros [Hd Hl]%Forall_cons Hs. apply IH; [done|]. split; [|done].
  intros E. apply (f_equal byte_of_ascii) in E. rewrite byte_of_digit_char in E by done.
  change (byte_of_ascii ",") with 44 in E. lia.
Qed.
Lemma dec_clean n : 0 <= n → clean "," (dec n).
Proof. intros Hn. apply of_digits_clean; [by apply dec_digits_range|done]. Qed.

Lemma strtok_loop_joined l : ∀ fuel, Forall (Z.le 0) l → (length l < fuel)%nat → strtok_loop fuel (strtok "," (joined l)) = Some (dec <$> l).
Proof.
  induction l as [|n l IH]; intros [|fuel] Hl Hf; cbn [length] in Hf; try lia; [done|]. apply Forall_cons in Hl as [Hn Hl].
  destruct l as [|n' l].
  - cbn [joined]. rewrite strtok_end by (apply dec_ne || apply dec_clean; done). cbn [strtok_loop]. destruct fuel; [lia|]. done.
  - change (joined (n :: n' :: l)) with (dec n +:+ String "," (joined (n' :: l))).
    rewrite strtok_clean by (apply dec_ne || apply dec_clean; done). cbn [strtok_loop]. rewrite IH by (done || (cbn in *; lia)). done.
Qed.
Lemma length_joined l : Forall (Z.le 0) l → (length l <= String.length (joined l))%nat.
Proof.
  induction l as [|n l IH]; [done|]. intros [Hn Hl]%Forall_cons. pose proof (dec_ne n Hn) as Hd. destruct (dec n) as [|c r] eqn:E; [done|].
  destruct l as [|n' l]; [cbn [joined]; rewrite E; cbn; lia|]. change (joined (n :: n' :: l)) with (dec n +:+ "," +:+ joined (n' :: l)).
  rewrite !length_app_string, E. specialize (IH Hl). cbn [length String.length] in *. lia.
Qed.
Lemma sequence_numbers_joined l : Forall (Z.le 0) l → sequence_numbers (joined l) = Some (dec <$> l).
Proof. intros Hl. apply strtok_loop_joined; [done|]. pose proof (length_joined l Hl). lia. Qed.
Lemma strtol_dec n : 0 <= n < 2 ^ 63 → strtol (dec n) = n.
Proof.
  intros Hn. unfold strtol. rewrite <- (app_empty_r (dec n)), scan_dec by (done || lia). cbn [fst default from_option id]. unfold clamp. lia.
Qed.
Lemma sprintf_d_dec n : 0 <= n < 2 ^ 31 → sprintf_d n = dec n.
Proof.
  intros Hn. unfold sprintf_d, fmt_ld, s32. rewrite u32_small by (unfold is_u32; lia). destruct (Z.ltb_spec n (2 ^ 31)); [|lia].
  by destruct (Z.ltb_spec n 0); [lia|].
Qed.

(** ** What the encoder writes *)

(** The fragments of the call with an index. *)
Definition fragment_numbers (perObject total : Z) (start : nat) : list Z :=
  numbers start (Nat.min (Z.to_nat (Z.min perObject total)) (Z.to_nat total - start)).

Lemma fragment_loop_run contents b count : 0 < Z.of_nat (length contents) < 2 ^ 52 → 0 < b < 2 ^ 52 →
  let a := Z.of_nat (length contents) in let total := ceil_div a b in total < 2 ^ 31 →
  ∀ start csv fragment, let ns := numbers start (Nat.min count (Z.to_nat total - start)) in
  encode_loop count (Z.of_nat <$> seq 1 (Z.to_nat total)) contents (Z.of_nat start) total b a csv fragment =
    Some (csv +:+ csv_text ns, fragment ++ concat (piece contents b <$> ns)).
Proof.
  intros Ha Hb a total Ht. induction count as [|count IH]; intros start csv fragment ns; cbn [encode_loop].
  { by rewrite app_empty_r, app_nil_r. }
  destruct (Z.leb_spec total (Z.of_nat start)).
  { unfold ns. replace (Z.to_nat total - start)%nat with O by lia. rewrite Nat.min_0_r. by rewrite app_empty_r, app_nil_r. }
  assert ((Z.of_nat <$> seq 1 (Z.to_nat total)) !! Z.to_nat (Z.of_nat start) = Some (Z.of_nat (S start))) as ->.
  { rewrite list_lookup_fmap, Nat2Z.id, lookup_seq_lt by lia. done. }
  cbn [mbind option_bind]. destruct (position_run a b (Z.of_nat (S start))) as [-> Hp]; [done..|lia|]. cbn [mbind option_bind actualFragmentSize startPosition].
  assert (Hal : ∀ n, 0 <= n < 2 ^ 63 → alloc n = Some (Z.to_nat n)).
  { intros n Hn. unfold alloc. destruct (Z.leb_spec 0 n), (Z.ltb_spec n (2 ^ 63)); done || lia. }
  rewrite u64_small, !Hal by lia. cbn [mbind option_bind].
  unfold a in Hp |- *. rewrite piece_read by lia. rewrite pad_full by (pose proof (length_piece contents b _ ltac:(lia) Hp); lia).
  rewrite sprintf_d_dec by lia. replace (Z.of_nat start + 1) with (Z.of_nat (S start)) by lia. fold a. rewrite IH.
  unfold ns. replace (Nat.min (S count) (Z.to_nat total - start)) with (S (Nat.min count (Z.to_nat total - S start))) by lia.
  unfold numbers. cbn [seq fmap list_fmap csv_text concat]. by rewrite !app_assoc_string, <- app_assoc.
Qed.

(** ** Building an object: what adding attributes and setting the time leave alone *)

Record stays (d d' : kdobj) : Prop := Stays
  { st_file : k_filename d' = k_filename d ∧ k_filepath d' = k_filepath d ∧ k_dataLen d' = k_dataLen d;
    st_hash : k_dataHash d' = k_dataHash d ∧ k_dataState d' = k_dataState d;
    st_plain : k_encryptedFilePath d' = k_encryptedFilePath d ∧ k_ABEStatus d' = k_ABEStatus d;
    st_unsigned : isSigned d = false → isSigned d' = false ∧ k_signature d' = k_signature d }.
#[export] Instance stays_preorder : PreOrder stays.
Proof. split; [by intros d|]. intros d1 d2 d3 [? ? ? H1] [? ? ? H2]. split; [naive_solver congruence..|]. intros H. destruct (H1 H) as [Hs E]. destruct (H2 Hs). split; congruence. Qed.

Lemma remove_signature_stays d : stays d (removeSignature d).
Proof. unfold removeSignature. destruct (isSigned d) eqn:E; [|reflexivity]. split; try done. congruence. Qed.
Definition unnamed (name : string) (l : list attr) : Prop := Forall (λ a, an a ≠ name) l.
Lemma unnamed_matched name value n l : unnamed name l → matched (MkAttr name value n) l = false.
Proof.
  intros H. apply not_true_iff_false. rewrite matched_iff. intros (b & Hb & E%attribute_eq_iff). unfold unnamed in H. rewrite Forall_forall in H.
  apply (H b Hb). symmetry. apply E.
Qed.
#[export] Instance unnamed_perm name : Proper ((≡ₚ) ==> iff) (unnamed name).
Proof. intros l l' H. unfold unnamed. by rewrite H. Qed.

Section Build.
Context {SHA_CTX : Type} (SHA_Init : SHA_CTX) (SHA_Update : SHA_CTX → list Z → SHA_CTX) (SHA_Final : SHA_CTX → list Z).
Abbreviation ok := (kd_ok SHA_Init SHA_Update SHA_Final).
Abbreviation add := (addAttribute SHA_Init SHA_Update SHA_Final).
Abbreviation set_time := (setCreateTime SHA_Init SHA_Update SHA_Final).

Lemma calc_stays d d' : calcId SHA_Init SHA_Update SHA_Final d = Some d' → stays d d' ∧ k_createTime d' = k_createTime d.
Proof.
  unfold calcId. destruct (entries (k_attrs d)); [|done]. cbn [mbind option_bind]. destruct (if isValid (k_createTime d) then _ else _); [|done].
  cbn [mbind option_bind]. by intros [= <-].
Qed.
Lemma add_stays d a b d' : add d a = Some (b, d') → stays d d' ∧ k_createTime d' = k_createTime d.
Proof.
  unfold addAttribute. destruct (hasAttribute d a) as [[]|]; cbn [mbind option_bind]; [by intros [= <- <-]| |done].
  destruct (attrs_add (k_attrs d) a) as [[r m]|]; [|done]. cbn [mbind option_bind]. set (d1 := removeSignature _).
  destruct (calcId _ _ _ d1) as [d2|] eqn:E; [|done]. cbn [mbind option_bind]. intros [= _ <-]. destruct (calc_stays _ _ E) as [Hs Ht].
  assert (stays d (set_attrs d m)) as H1 by done. split; [|rewrite Ht; unfold d1, removeSignature; by destruct (isSigned (set_attrs d m))].
  etrans; [exact H1|]. etrans; [apply remove_signature_stays|exact Hs].
Qed.
Lemma set_time_stays d t d' : set_time d t = Some d' → stays d d'.
Proof.
  unfold setCreateTime. destruct (k_metadata d) as [m|]; [|by intros [= <-]]. destruct (set_time_parameter m "create_time" t) as [m'|]; [|done].
  cbn [mbind option_bind]. intros [Hs _]%calc_stays. etrans; [|exact Hs].
  transitivity (set_metadata (set_times d t (k_updateTime d)) (Some m')); [done|apply remove_signature_stays].
Qed.

Lemma plain_add_run d l a : ok d l → matched a l.*2 = false →
  ∃ d' l', add d a = Some (true, d') ∧ ok d' l' ∧ l'.*2 ≡ₚ a :: l.*2 ∧ stays d d' ∧ k_createTime d' = k_createTime d.
Proof.
  intros Hok Hm. assert (∃ d' l', add d a = Some (true, d') ∧ ok d' l' ∧ l'.*2 ≡ₚ a :: l.*2) as (d' & l' & E & Hok' & Hp).
  { unfold addAttribute. rewrite (has_attribute_run d l a), Hm by apply Hok. cbn [mbind option_bind].
    destruct (attrs_add_run (k_attrs d) l a (kd_attrs _ _ _ _ _ Hok)) as (m' & l' & -> & Hwf & Hp). cbn [mbind option_bind].
    destruct (refresh_ok SHA_Init SHA_Update SHA_Final (set_attrs d m') l' Hwf) as (d' & -> & Hok' & _); [|apply Hok|].
    { apply (distinct_perm (a :: l.*2)); [done|]. apply distinct_cons; [done|apply Hok]. }
    cbn [mbind option_bind]. by exists d', l'. }
  exists d', l'. split_and!; [done..| |]; by destruct (add_stays _ _ _ _ E).
Qed.

Lemma add_attr_run d l name value : ok d l → unnamed name l.*2 →
  ∃ d' l', add_attr SHA_Init SHA_Update SHA_Final d name value = Some (Some d') ∧ ok d' l' ∧ l'.*2 ≡ₚ MkAttr name value 0 :: l.*2 ∧
    stays d d' ∧ k_createTime d' = k_createTime d.
Proof.
  intros Hok Hu. destruct (plain_add_run d l (MkAttr name value 0) Hok (unnamed_matched _ _ _ _ Hu)) as (d' & l' & E & H).
  exists d', l'. unfold add_attr. by rewrite E.
Qed.
Lemma copy_run al : ∀ d l, ok d l → distinct (al ++ l.*2) →
  ∃ d' l', copy_attributes SHA_Init SHA_Update SHA_Final al d = Some (Some d') ∧ ok d' l' ∧ l'.*2 ≡ₚ al ++ l.*2 ∧
    stays d d' ∧ k_createTime d' = k_createTime d.
Proof.
  induction al as [|a al IH]; intros d l Hok Hd; cbn [copy_attributes].
  { by exists d, l. }
  assert (matched a l.*2 = false) as Hm.
  { refine (proj1 (distinct_cons_inv a l.*2 _)). apply (distinct_app al). apply (distinct_perm ((a :: al) ++ l.*2)); [|done].
    apply Permutation_middle. }
  destruct (plain_add_run d l a Hok Hm) as (d1 & l1 & -> & Hok1 & Hp1 & Hs1 & Ht1). cbn [mbind option_bind].
  destruct (IH d1 l1 Hok1) as (d' & l' & -> & Hok' & Hp & Hs & Ht).
  { apply (distinct_perm ((a :: al) ++ l.*2)); [|done]. rewrite Hp1. apply Permutation_middle. }
  exists d', l'. split_and!; [done|done| |by etrans|congruence]. rewrite Hp, Hp1. symmetry. apply Permutation_middle.
Qed.

(** ** An object from a file *)

Lemma hash_file_total fuel : ∀ ctx rest, (length rest < fuel)%nat → is_Some (hash_file SHA_Update fuel ctx rest).
Proof.
  induction fuel as [|fuel IH]; intros ctx rest Hf; [lia|]. cbn [hash_file]. destruct (Nat.ltb_spec (length (take 4096 rest)) 4096); [by eexists|].
  apply IH. rewrite length_drop. rewrite length_take in *. lia.
Qed.
(** The digest of a file, as its object has it. *)
Definition file_hash (contents : list Z) : option (list Z) :=
  ctx ← hash_file SHA_Update (S (length contents)) SHA_Init contents; Some (SHA_Final ctx).

Record made_from (path name : string) (contents : list Z) (d : kdobj) : Prop := MadeFrom
  { mf_file : k_filepath d = path ∧ k_filename d = name ∧ k_dataLen d = Z.of_nat (length contents);
    mf_hash : file_hash contents = Some (k_dataHash d) ∧ k_dataState d = DATA_STATE_VERIFIED_OK;
    mf_plain : k_encryptedFilePath d = "" ∧ k_ABEStatus d = ABE_NOT_NEEDED }.

Lemma made_from_stays path name contents d d' : made_from path name contents d → stays d d' → made_from path name contents d'.
Proof. intros [(? & ? & ?) [? ?] [? ?]] [(? & ? & ?) [? ?] [? ?] _]. split; split_and?; congruence. Qed.

Lemma created_run (fs : files) now path name contents :
  path ≠ "" → name ≠ "" → fs !! path = Some contents → Z.of_nat (length contents) < 2 ^ 64 →
  ∃ d, create_from_file SHA_Init SHA_Update SHA_Final fs now path name = Some (Some d) ∧ ok d [] ∧ made_from path name contents d ∧
    isSigned d = false ∧ k_signature d = None ∧ k_createTime d = now.
Proof.
  intros Hpath Hname Hfs Hlen. unfold create_from_file.
  assert (Hne : ∀ s : string, s ≠ "" → (slen s =? 0)%nat = false) by (by intros []). rewrite !Hne, Hfs by done. cbn [mbind option_bind].
  destruct (hash_file_total (S (length contents)) SHA_Init contents) as [ctx Ectx]; [lia|]. rewrite Ectx. cbn [mbind option_bind].
  set (d0 := set_hash _ _ _).
  destruct (set_create_time_run SHA_Init SHA_Update SHA_Final d0 [] now attrs_wf_new distinct_nil) as (d & E & Hok & Hu & Ht).
  { eexists _, _, _. split; [reflexivity|apply new_wf]. }
  rewrite E. cbn [mbind option_bind]. rewrite (kd_id _ _ _ _ _ Hok). cbn [mbind option_bind]. exists d. split; [done|]. split; [done|].
  pose proof (set_time_stays _ _ _ E) as Hs. split; [|split; [done|split; [by destruct (st_unsigned _ _ Hs)|done]]].
  apply (made_from_stays path name contents d0); [|done]. split.
  - split_and!; [done|done|]. cbn. by rewrite u64_small by lia.
  - split; [|done]. unfold file_hash. by rewrite Ectx.
  - done.
Qed.

(** ** A fragment and its object *)

Definition reserved : list string :=
  [HAGGLE_ATTR_FRAGMENTATION_NAME; HAGGLE_ATTR_FRAGMENTATION_PARENT_DATAOBJECT_ID; HAGGLE_ATTR_FRAGMENTATION_SEQUENCE_NUMBER;
   HAGGLE_ATTR_FRAGMENTATION_PARENT_ORIG_LEN; HAGGLE_ATTR_FRAGMENTATION_PARENT_ORIG_NAME;
   HAGGLE_ATTR_FRAGMENTATION_PARENT_CREATION_TIME; HAGGLE_ATTR_FRAGMENTATION_PARENT_ORIG_SIGNEE;
   HAGGLE_ATTR_FRAGMENTATION_PARENT_ORIG_SIGNATURE].

Definition signature_text (sg : list Z) : string := string_of_bytes (b64_enc sg ++ [0]).
Definition signature_attrs (o : kdobj) : list attr :=
  match k_signature o with
  | Some sg => [MkAttr HAGGLE_ATTR_FRAGMENTATION_PARENT_ORIG_SIGNATURE (signature_text sg) 0;
                MkAttr HAGGLE_ATTR_FRAGMENTATION_PARENT_ORIG_SIGNEE (k_signee o) 0]
  | None => []
  end.
(** What the encoder adds to the attributes of the object. *)
Definition fragment_attrs (o : kdobj) (csv : string) : list attr :=
  signature_attrs o ++
  [MkAttr HAGGLE_ATTR_FRAGMENTATION_PARENT_CREATION_TIME (time_text (k_createTime o)) 0;
   MkAttr HAGGLE_ATTR_FRAGMENTATION_PARENT_ORIG_NAME (k_filename o) 0;
   MkAttr HAGGLE_ATTR_FRAGMENTATION_PARENT_DATAOBJECT_ID (k_idStr o) 0;
   MkAttr HAGGLE_ATTR_FRAGMENTATION_PARENT_ORIG_LEN (dec (k_dataLen o)) 0;
   MkAttr HAGGLE_ATTR_FRAGMENTATION_NAME "TRUE" 0;
   MkAttr HAGGLE_ATTR_FRAGMENTATION_SEQUENCE_NUMBER csv 0].

(** The objects whose fragments can be put together again: a file of less than 2 GB, not empty and
    not encrypted, none of the attributes that fragments have, a creation time and a name; if there is a signature, a signee. *)
Record fragmentable (o : kdobj) (l : list (string * attr)) (contents : list Z) : Prop := Fragmentable
  { fr_ok : ok o l;
    fr_plain : k_ABEStatus o = ABE_NOT_NEEDED ∧ k_encryptedFilePath o = "";
    fr_attrs : Forall (λ a, an a ∉ reserved ∧ an a ≠ "_ABE_") l.*2;
    fr_len : k_dataLen o = Z.of_nat (length contents) ∧ 0 < k_dataLen o < 2 ^ 31;
    fr_name : k_filename o ≠ "";
    fr_time : isValid (k_createTime o) = true ∧ tv_sec (k_createTime o) < 10 ^ 12;
    fr_signature : ∀ sg, k_signature o = Some sg → sg ≠ [] ∧ bytes sg ∧ Z.of_nat (length sg) < 2 ^ 60 ∧ k_signee o ≠ "" }.

(** A fragment with some of the pieces. *)
Record fragment_of (fs : files) (o : kdobj) (l : list (string * attr)) (contents : list Z) (b : Z) (ns : list Z) (f : kdobj) : Prop := FragmentOf
  { fo_attrs : ∃ lf, attrs_wf (k_attrs f) lf ∧ lf.*2 ≡ₚ fragment_attrs o (joined ns) ++ l.*2;
    fo_file : fs !! k_filepath f = Some (concat (piece contents b <$> ns)) }.

Lemma fragmentable_unnamed o l contents name : fragmentable o l contents → name ∈ reserved → unnamed name l.*2.
Proof. intros H Hn. eapply Forall_impl; [apply (fr_attrs _ _ _ H)|]. intros a [Ha _] <-. done. Qed.

Lemma data_len_text_dec o l contents : fragmentable o l contents → data_len_text o = dec (k_dataLen o) ∧ s32 (getFileLength o) ≠ 0 ∧ getFileLength o = k_dataLen o.
Proof.
  intros H. destruct (fr_plain _ _ _ H) as [Hp _]. destruct (fr_len _ _ _ H) as [_ Hl]. unfold data_len_text, getFileLength. rewrite Hp. cbn [encryption_done].
  split; [by apply sprintf_d_dec; lia|]. split; [|done]. unfold s32. rewrite u32_small by (unfold is_u32; lia).
  destruct (Z.ltb_spec (k_dataLen o) (2 ^ 31)); lia.
Qed.

(** An object that began as [d0] and now has the attributes [added] and [l]. *)
Definition grown (d0 : kdobj) (added l : list attr) (d : kdobj) : Prop := ∃ l', ok d l' ∧ l'.*2 ≡ₚ added ++ l ∧ stays d0 d.

Lemma grown_add d0 added l d name value : grown d0 added l d → unnamed name l → unnamed name added →
  ∃ d', add_attr SHA_Init SHA_Update SHA_Final d name value = Some (Some d') ∧ grown d0 (MkAttr name value 0 :: added) l d' ∧
        k_createTime d' = k_createTime d.
Proof.
  intros (l1 & Hok & Hp & Hs) Hl Ha.
  destruct (add_attr_run d l1 name value Hok) as (d' & l' & -> & Hok' & Hp' & Hs' & Ht).
  { rewrite Hp. by apply Forall_app. }
  exists d'. split; [done|]. split; [|done]. exists l'. split; [done|]. split; [by rewrite Hp', Hp|by etrans].
Qed.
Lemma grown_time d0 added l d t : grown d0 added l d →
  ∃ d', set_time d t = Some d' ∧ grown d0 added l d' ∧ k_createTime d' = t.
Proof.
  intros (l1 & Hok & Hp & Hs).
  destruct (set_create_time_run SHA_Init SHA_Update SHA_Final d l1 t) as (d' & E & Hok' & _ & Ht); [apply Hok..| |].
  { destruct (kd_meta _ _ _ _ _ Hok) as (m & ps & kids & ? & ? & _). by exists m, ps, kids. }
  exists d'. split; [done|]. split; [|done]. exists l1. split; [done|]. split; [done|]. etrans; [exact Hs|]. by apply (set_time_stays _ _ _ E).
Qed.

Lemma add_signature_run d0 added l o d :
  grown d0 added l d → (∀ sg, k_signature o = Some sg → sg ≠ [] ∧ bytes sg ∧ Z.of_nat (length sg) < 2 ^ 60) →
  unnamed HAGGLE_ATTR_FRAGMENTATION_PARENT_ORIG_SIGNEE l → unnamed HAGGLE_ATTR_FRAGMENTATION_PARENT_ORIG_SIGNATURE l →
  unnamed HAGGLE_ATTR_FRAGMENTATION_PARENT_ORIG_SIGNEE added → unnamed HAGGLE_ATTR_FRAGMENTATION_PARENT_ORIG_SIGNATURE added →
  ∃ d', add_signature SHA_Init SHA_Update SHA_Final o d = Some (Some d') ∧ grown d0 (signature_attrs o ++ added) l d' ∧ k_createTime d' = k_createTime d.
Proof.
  intros Hg Hsg H1 H2 H3 H4. unfold add_signature, signature_attrs. destruct (k_signature o) as [sg|]; [|by exists d].
  destruct (Hsg sg eq_refl) as (Hne & Hb & Hl). destruct (grown_add _ _ _ _ HAGGLE_ATTR_FRAGMENTATION_PARENT_ORIG_SIGNEE (k_signee o) Hg H1 H3) as (d1 & -> & Hg1 & Ht1).
  cbn [or_null]. rewrite encode_alloc_ok by (done || (unfold BASE64_LENGTH; Z.to_euclidean_division_equations; lia)).
  assert (0 < BASE64_LENGTH (Z.of_nat (length sg))) as Hpos.
  { destruct sg; [done|]. unfold BASE64_LENGTH. cbn [length]. Z.to_euclidean_division_equations. lia. }
  destruct (Z.leb_spec (BASE64_LENGTH (Z.of_nat (length sg))) 0); [lia|]. fold (signature_text sg).
  destruct (grown_add _ _ _ _ HAGGLE_ATTR_FRAGMENTATION_PARENT_ORIG_SIGNATURE (signature_text sg) Hg1 H2) as (d2 & -> & Hg2 & Ht2).
  { apply Forall_cons. split; [discriminate|done]. }
  exists d2. split; [done|]. split; [exact Hg2|congruence].
Qed.

Lemma fragment_attributes_run uninit_time o l contents d csv :
  fragmentable o l contents → ok d [] →
  ∃ d', addAttributes SHA_Init SHA_Update SHA_Final uninit_time o d csv = Some (Some d') ∧
    grown d (fragment_attrs o csv) l.*2 d' ∧ k_createTime d' = k_createTime o.
Proof.
  intros H Hok. pose proof (λ name, fragmentable_unnamed o l contents name H) as Hres. destruct (fr_time _ _ _ H) as [Hv Ht].
  destruct (data_len_text_dec _ _ _ H) as (Elen & Hlen & _).
  assert (Hmem : Forall (λ n, unnamed n l.*2) reserved) by (by apply Forall_forall). repeat (apply Forall_cons in Hmem as [? Hmem]). clear Hmem.
  unfold addAttributes. rewrite (entries_spec _ _ (aw_rep _ _ (kd_attrs _ _ _ _ _ (fr_ok _ _ _ H)))). cbn [mbind option_bind].
  destruct (copy_run l.*2 d [] Hok) as (d0 & l0 & -> & Hok0 & Hp0 & Hs0 & _).
  { cbn [fmap list_fmap]. rewrite app_nil_r. apply (fr_ok _ _ _ H). }
  cbn [fmap list_fmap] in Hp0. rewrite app_nil_r in Hp0. cbn [or_null].
  assert (grown d [] l.*2 d0) as Hg by (by exists l0).
  destruct (grown_add _ _ _ _ HAGGLE_ATTR_FRAGMENTATION_SEQUENCE_NUMBER csv Hg) as (d1 & -> & Hg1 & _); [done|constructor|]. cbn [or_null].
  destruct (grown_add _ _ _ _ HAGGLE_ATTR_FRAGMENTATION_NAME "TRUE" Hg1) as (d2 & -> & Hg2 & _); [done|by repeat constructor|]. cbn [or_null].
  destruct (Z.eqb_spec (s32 (getFileLength o)) 0); [done|].
  destruct (grown_add _ _ _ _ HAGGLE_ATTR_FRAGMENTATION_PARENT_ORIG_LEN (data_len_text o) Hg2) as (d3 & -> & Hg3 & _); [done|by repeat constructor|]. cbn [or_null].
  destruct (grown_add _ _ _ _ HAGGLE_ATTR_FRAGMENTATION_PARENT_DATAOBJECT_ID (k_idStr o) Hg3) as (d4 & -> & Hg4 & _); [done|by repeat constructor|]. cbn [or_null].
  destruct (grown_add _ _ _ _ HAGGLE_ATTR_FRAGMENTATION_PARENT_ORIG_NAME (k_filename o) Hg4) as (d5 & -> & Hg5 & _); [done|by repeat constructor|]. cbn [or_null].
  rewrite getAsString_valid by done. cbn [mbind option_bind].
  destruct (grown_add _ _ _ _ HAGGLE_ATTR_FRAGMENTATION_PARENT_CREATION_TIME (time_text (k_createTime o)) Hg5) as (d6 & -> & Hg6 & _); [done|by repeat constructor|]. cbn [or_null].
  rewrite time_text_read by done. cbn [mbind option_bind].
  destruct (grown_time _ _ _ _ (k_createTime o) Hg6) as (d7 & -> & Hg7 & Ht7). cbn [mbind option_bind]. rewrite Elen in Hg7.
  destruct (add_signature_run _ _ _ o d7 Hg7) as (d8 & -> & Hg8 & Ht8); [|done|done|by repeat constructor|by repeat constructor|].
  { intros sg Hsg. destruct (fr_signature _ _ _ H sg Hsg) as (? & ? & ? & _). done. }
  exists d8. split; [done|]. split; [exact Hg8|congruence].
Qed.

Lemma joined_numbers start count : drop_last (csv_text (numbers start count)) = joined (numbers start count).
Proof. unfold numbers. destruct count; [done|]. cbn [seq fmap list_fmap]. by rewrite csv_text_joined, drop_last_comma. Qed.

Lemma fragment_encoded uninit_time storagepath (can_write : string → bool) perObject st (fs : files) now timestamp o l contents start b :
  fragmentable o l contents → fs !! k_filepath o = Some contents → 0 < b < 2 ^ 52 →
  let total := ceil_div (k_dataLen o) b in let ns := fragment_numbers perObject total start in
  let path := createFragmentFileName storagepath (k_filename o) timestamp in
  can_write path = true → path ≠ k_filepath o →
  ∃ f, encodeDataObject SHA_Init SHA_Update SHA_Final uninit_time storagepath can_write perObject st fs now timestamp o (Z.of_nat start) b
         = Some (Some f, addDataObject st (k_idStr o) o, <[path := concat (piece contents b <$> ns)]> fs) ∧
       fragment_of (<[path := concat (piece contents b <$> ns)]> fs) o l contents b ns f ∧
       k_filepath f = path ∧ (∃ lf, ok f lf) ∧ k_createTime f = k_createTime o.
Proof.
  intros H Hfs Hb total ns path Hw Hne. destruct (fr_plain _ _ _ H) as [Hp _]. destruct (fr_len _ _ _ H) as [El Hl].
  destruct (data_len_text_dec _ _ _ H) as (_ & _ & Elen).
  assert (getFilePath o = k_filepath o) as Epath by (unfold getFilePath; by rewrite Hp).
  unfold encodeDataObject. fold path. rewrite Epath, Hfs, Hw. cbn [negb]. rewrite lookup_insert_ne, Hfs by done. cbn [mbind option_bind].
  rewrite Elen, total_run by lia. fold total. cbn [mbind option_bind].
  pose proof (ceil_div_spec (k_dataLen o) b ltac:(lia)) as Hc. fold total in Hc. assert (0 < total <= k_dataLen o) as Ht by nia.
  unfold getIndexesOfFragmentsToCreate. destruct (Z.ltb_spec (2 ^ 31) total); [lia|]. cbn [mbind option_bind].
  pose proof (fragment_loop_run contents b (Z.to_nat (Z.min perObject total))) as Hloop. cbv zeta in Hloop. rewrite <- El in Hloop. fold total in Hloop.
  rewrite <- El, Hloop by lia. clear Hloop. cbn [mbind option_bind app]. fold (fragment_numbers perObject total start). fold ns. rewrite insert_insert_eq.
  set (fs' := <[path := _]> fs).
  assert (Hlen : Z.of_nat (length (concat (piece contents b <$> ns))) < 2 ^ 64).
  { unfold ns, fragment_numbers. rewrite pieces_concat, length_take, length_drop by lia.
    match goal with |- Z.of_nat (Nat.min ?x (_ - ?y)) < _ => generalize x y end. lia. }
  destruct (created_run fs' now path (k_filename o) (concat (piece contents b <$> ns))) as (d & -> & Hok & Hmf & _).
  { unfold path, createFragmentFileName. by destruct storagepath. }
  { apply (fr_name _ _ _ H). }
  { by apply lookup_insert_eq. }
  { done. }
  cbn [mbind option_bind]. change ("" +:+ csv_text ns) with (csv_text ns). 
  assert (drop_last (csv_text ns) = joined ns) as -> by apply joined_numbers.
  destruct (fragment_attributes_run uninit_time o l contents d (joined ns) H Hok) as (f & -> & (lf & Hokf & Hpf & Hsf) & Htf).
  cbn [mbind option_bind]. exists f. split; [done|]. destruct (st_file _ _ Hsf) as (_ & Ep & _).
  assert (k_filepath f = path) as Ef by (rewrite Ep; apply Hmf). split; [|split; [done|split; [by exists lf|done]]].
  split; [exists lf; split; [apply Hokf|done]|]. rewrite Ef. by apply lookup_insert_eq.
Qed.

(** ** What to send next *)

Section Round.
Context (uninit_time : Timeval) (storagepath : string) (can_write : string → bool) (perObject b : Z).
Context (o : kdobj) (l : list (string * attr)) (contents : list Z) (clock : Z → Timeval * string) (has : kdobj → bool).
Abbreviation total := (ceil_div (k_dataLen o) b).
Abbreviation fragment fs start f := (fragment_of fs o l contents b (fragment_numbers perObject total start) f).
Abbreviation new_path start := (createFragmentFileName storagepath (k_filename o) (clock (Z.of_nat start)).2).
Hypothesis Ho : fragmentable o l contents.
Hypothesis Hb : 0 < b < 2 ^ 52.
Hypothesis Hp : 0 < perObject < 2 ^ 31.
Hypothesis Hw : ∀ start, can_write (new_path start) = true.
Hypothesis Hclock : ∀ start start', new_path start = new_path start' → start = start'.

(** The fragments that are remembered are fragments of the object. *)
Definition remembered (st : FragmentationEncoderStorage) (fs : files) : Prop :=
  fs !! k_filepath o = Some contents ∧ ∀ start f, getFragment st (k_idStr o) (Z.of_nat start) = Some f → fragment fs start f.
(** The names from an index on are not taken. *)
Definition free_from (start : nat) (fs : files) : Prop := ∀ start', (start <= start')%nat → fs !! new_path start' = None.

Lemma fragment_keeps (fs : files) start f path v : fs !! path = None → fragment fs start f → fragment (<[path := v]> fs) start f.
Proof. intros Hn [Ha Hf]. split; [done|]. rewrite lookup_insert_ne; [done|]. intros ->. congruence. Qed.

Lemma get_add_fragment st id n f n' : getFragment (addFragment st id n f) id n' = if decide (n' = n) then Some f else getFragment st id n'.
Proof.
  unfold getFragment, addFragment. cbn [es_fragments]. rewrite lookup_insert_eq. cbn [mbind option_bind]. destruct (decide (n' = n)) as [->|Hn].
  - by rewrite lookup_insert_eq.
  - rewrite lookup_insert_ne by done. destruct (es_fragments st !! id) as [m|]; cbn; [done|]. by rewrite lookup_empty.
Qed.
Lemma get_add_object st id o' n : getFragment (addDataObject st id o') id n = getFragment st id n.
Proof. done. Qed.

(** One turn of the loop: the fragment is there afterwards, old or new. *)
Lemma fragment_turn st fs start :
  remembered st fs → free_from start fs →
  ∃ f st' fs', (match getFragment st (k_idStr o) (Z.of_nat start) with
                | Some f => Some (Some f, st, fs)
                | None =>
                  '(f, st, fs) ← encodeDataObject SHA_Init SHA_Update SHA_Final uninit_time storagepath can_write perObject st fs
                     (clock (Z.of_nat start)).1 (clock (Z.of_nat start)).2 o (Z.of_nat start) b;
                  Some (f, match f with Some f => addFragment st (k_idStr o) (Z.of_nat start) f | None => st end, fs)
                end) = Some (Some f, st', fs') ∧
    remembered st' fs' ∧ free_from (S start) fs' ∧ getFragment st' (k_idStr o) (Z.of_nat start) = Some f ∧
    (∀ n f', getFragment st (k_idStr o) n = Some f' → getFragment st' (k_idStr o) n = Some f').
Proof using Ho Hb Hw Hclock.
  intros [Hfile Hr] Hfree. destruct (getFragment st (k_idStr o) (Z.of_nat start)) as [f|] eqn:E.
  { exists f, st, fs. split; [done|]. split; [done|]. split; [|done]. intros start' Hs. apply Hfree. lia. }
  assert (Hn : fs !! new_path start = None) by (by apply Hfree).
  destruct (fragment_encoded uninit_time storagepath can_write perObject st fs (clock (Z.of_nat start)).1 (clock (Z.of_nat start)).2 o l contents start b Ho Hfile Hb (Hw start))
    as (f & -> & Hf & Ep & _); [intros E'; congruence|]. cbn [mbind option_bind].
  eexists f, _, _. split; [done|]. split; [split|split; [|split]].
  - rewrite lookup_insert_ne; [done|]. intros E'. congruence.
  - intros start' f' Hg. rewrite get_add_fragment, get_add_object in Hg. case_decide as Hd.
    + injection Hg as <-. assert (start' = start) as -> by lia. exact Hf.
    + apply fragment_keeps; [done|]. by apply Hr.
  - intros start' Hs. rewrite lookup_insert_ne; [apply Hfree; lia|]. intros E'%Hclock. lia.
  - rewrite get_add_fragment. by rewrite decide_True.
  - intros n f' Hg. rewrite get_add_fragment, get_add_object. case_decide; [congruence|done].
Qed.

Lemma fragments_loop_run fuel : ∀ i st fs missing,
  (Z.to_nat total - i * Z.to_nat perObject < fuel)%nat → Z.of_nat i * perObject < total + perObject → remembered st fs → free_from (i * Z.to_nat perObject) fs →
  ∃ missing' st' fs', fragments_loop SHA_Init SHA_Update SHA_Final uninit_time storagepath can_write fuel perObject st fs clock o b has
      (s32 (Z.of_nat i * perObject)) total missing = Some (missing', st', fs') ∧ remembered st' fs' ∧
    (∀ n f', getFragment st (k_idStr o) n = Some f' → getFragment st' (k_idStr o) n = Some f') ∧
    (∀ j : nat, (i <= j)%nat → Z.of_nat j * perObject < total →
       ∃ f, getFragment st' (k_idStr o) (Z.of_nat (j * Z.to_nat perObject)) = Some f ∧ (has f = false → f ∈ missing')) ∧
    (∀ f, f ∈ missing → f ∈ missing') ∧
    (∀ f, f ∈ missing' → f ∈ missing ∨ has f = false ∧ ∃ start, getFragment st' (k_idStr o) (Z.of_nat start) = Some f ∧ Z.of_nat start < total).
Proof using Ho Hb Hp Hw Hclock.
  destruct (fr_len _ _ _ Ho) as [_ Hl]. pose proof (ceil_div_spec (k_dataLen o) b ltac:(lia)) as Hc. assert (0 < total <= k_dataLen o) as Ht by nia.
  induction fuel as [|fuel IH]; intros i st fs missing Hf Hi Hr Hfree; [lia|]. cbn [fragments_loop].
  destruct (Z.le_gt_cases total (Z.of_nat i * perObject)) as [Hge|Hlt].
  - assert (total <= u64 (s32 (Z.of_nat i * perObject))) as Hu.
    { unfold s32, u32, u64. rewrite (Z.mod_small _ (2 ^ 32)) by lia. destruct (Z.ltb_spec (Z.of_nat i * perObject) (2 ^ 31)); [rewrite Z.mod_small; lia|].
      rewrite <- (Z.mod_add _ 1), Z.mod_small by lia. lia. }
    destruct (Z.leb_spec total (u64 (s32 (Z.of_nat i * perObject)))); [|lia]. exists missing, st, fs. split; [done|]. split; [done|]. split; [done|].
    split; [|split; [done|by left]]. intros j Hj Hj'. nia.
  - assert (s32 (Z.of_nat i * perObject) = Z.of_nat (i * Z.to_nat perObject)) as ->.
    { unfold s32, u32. rewrite Z.mod_small by lia. destruct (Z.ltb_spec (Z.of_nat i * perObject) (2 ^ 31)); [|lia]. rewrite Nat2Z.inj_mul. lia. }
    assert (Hz : Z.of_nat (i * Z.to_nat perObject) = Z.of_nat i * perObject) by (rewrite Nat2Z.inj_mul; lia).
    rewrite u64_small by lia. destruct (Z.leb_spec total (Z.of_nat (i * Z.to_nat perObject))); [lia|].
    destruct (fragment_turn st fs (i * Z.to_nat perObject) Hr Hfree) as (f & st1 & fs1 & -> & Hr1 & Hfree1 & Hg1 & Hk1). cbn [mbind option_bind].
    replace (Z.of_nat (i * Z.to_nat perObject) + perObject) with (Z.of_nat (S i) * perObject) by lia.
    destruct (IH (S i) st1 fs1 (if has f then missing else f :: missing)) as (missing' & st' & fs' & E & Hr' & Hk' & Hall & Hsub & Hfrom); [nia|lia|done| |].
    { intros start' Hs. apply Hfree1. nia. }
    exists missing', st', fs'. split; [exact E|]. split; [done|]. split; [intros n f' Hn; by apply Hk', Hk1|]. split; [|split].
    + intros j Hj Hj'. destruct (decide (j = i)) as [->|]; [|apply Hall; lia]. exists f. split; [by apply Hk'|]. intros Hh. apply Hsub. rewrite Hh. by left.
    + intros f' Hf'. apply Hsub. destruct (has f); [done|by right].
    + intros f' [Hin|Hin]%Hfrom; [|by right]. destruct (has f) eqn:Eh; [by left|]. apply elem_of_cons in Hin as [->|Hin]; [|by left].
      right. split; [done|]. exists (i * Z.to_nat perObject)%nat. split; [by apply Hk'|lia].
Qed.

(** C13: every round of sending an object in fragments sends one of its fragments that the other
    node does not have, whatever [rand] answers, and none only when the node has them all; it makes the fragments that have not been
    made yet, and remembers them. *)
Theorem get_all_fragments_spec st fs rand :
  remembered st fs → free_from 0 fs → 0 <= rand →
  ∃ r st' fs', getAllFragmentsForDataObject SHA_Init SHA_Update SHA_Final uninit_time storagepath can_write perObject st fs clock rand o b has = Some (r, st', fs') ∧
    remembered st' fs' ∧
    (∀ i : nat, Z.of_nat i * perObject < total → is_Some (getFragment st' (k_idStr o) (Z.of_nat (i * Z.to_nat perObject)))) ∧
    match r with
    | [] => ∀ i : nat, Z.of_nat i * perObject < total →
              ∃ f, getFragment st' (k_idStr o) (Z.of_nat (i * Z.to_nat perObject)) = Some f ∧ has f = true
    | f :: rest => rest = [] ∧ has f = false ∧ ∃ start, Z.of_nat start < total ∧ getFragment st' (k_idStr o) (Z.of_nat start) = Some f ∧ fragment fs' start f
    end.
Proof using Ho Hb Hp Hw Hclock.
  intros Hr Hfree Hrand. destruct (fr_len _ _ _ Ho) as [_ Hl]. destruct (data_len_text_dec _ _ _ Ho) as (_ & _ & Elen).
  pose proof (ceil_div_spec (k_dataLen o) b ltac:(lia)) as Hc. assert (0 < total <= k_dataLen o) as Ht by nia.
  unfold getAllFragmentsForDataObject. rewrite Elen, total_run by lia. cbn [mbind option_bind].
  destruct (fragments_loop_run (S (Z.to_nat total)) 0 st fs [] ltac:(lia) ltac:(lia) Hr Hfree) as (missing & st' & fs' & E & Hr' & _ & Hall & _ & Hfrom).
  change (s32 (Z.of_nat 0 * perObject)) with 0 in E. rewrite E. cbn [mbind option_bind].
  assert (Hsome : ∀ i : nat, Z.of_nat i * perObject < total → is_Some (getFragment st' (k_idStr o) (Z.of_nat (i * Z.to_nat perObject)))).
  { intros i Hi. destruct (Hall i ltac:(lia) Hi) as (f & -> & _). done. }
  destruct missing as [|f0 rest] eqn:Em.
  - exists [], st', fs'. split; [done|]. split; [done|]. split; [done|]. intros i Hi. destruct (Hall i ltac:(lia) Hi) as (f & Hg & Hh). exists f. split; [done|].
    apply not_false_iff_true. intros Hf%Hh. by apply not_elem_of_nil in Hf.
  - rewrite <- Em in *. assert (0 <= rand mod Z.of_nat (length missing) < Z.of_nat (length missing)) as Hm by (apply Z.mod_pos_bound; subst; cbn [length]; lia).
    destruct (lookup_lt_is_Some_2 missing (Z.to_nat (rand mod Z.of_nat (length missing)))) as [f Hf]; [lia|]. rewrite Hf. cbn [mbind option_bind].
    exists [f], st', fs'. split; [done|]. split; [done|]. split; [done|]. split; [done|]. apply list_elem_of_lookup_2, Hfrom in Hf as [Hin|[Hh (start & Hg & Hlt)]].
    { by apply not_elem_of_nil in Hin. }
    split; [done|]. exists start. split; [done|]. split; [done|]. by apply Hr'.
Qed.
End Round.
End Build.

Lemma fragments_cover_witness :
  ∃ total, calculateTotalNumberOfFragments 5 2 = Some total ∧ (total - 1) * 2 < 5 <= total * 2 ∧
  ∃ ps, Forall2 (λ n p, calculateFragmentationPositionInfo n 2 5 = Some p) (numbers 0 (Z.to_nat total)) ps ∧
    Forall (λ p, 0 < actualFragmentSize p <= 2 ∧ 0 <= startPosition p ∧ startPosition p + actualFragmentSize p <= 5) ps ∧
    concat ((λ p, pad (Z.to_nat (actualFragmentSize p)) (read_at [1; 2; 3; 4; 5] (startPosition p) (Z.to_nat (actualFragmentSize p)))) <$> ps) = [1; 2; 3; 4; 5].
Proof. apply (fragments_cover [1; 2; 3; 4; 5] 2); cbn; lia. Defined.

(** A file of exactly as many bytes as fragments hold, and one byte more. *)
Example position_last : calculateFragmentationPositionInfo 3 2 6 = Some (PositionInfo 4 2). Proof. reflexivity. Qed.
Example position_one : calculateFragmentationPositionInfo 4 2 7 = Some (PositionInfo 6 1). Proof. reflexivity. Qed.
Example quotient_of_doubles : calculateTotalNumberOfFragments (2 ^ 40 + 1) 3 = Some ((2 ^ 40 + 3) / 3). Proof. reflexivity. Qed.
(** With 54 bits the number of bytes itself is rounded: a byte is lost. *)
Example rounded_length : calculateTotalNumberOfFragments (2 ^ 53 + 1) 1 = Some (2 ^ 53). Proof. reflexivity. Qed.
(** The length goes into the attribute as an [int]: 2 GB are negative, 4 GB are an error. *)
Example large_file_text : data_len_text (set_file kdobj_new "" "" (2 ^ 31) 0) = "-2147483648". Proof. reflexivity. Qed.
Example large_file_zero : s32 (getFileLength (set_file kdobj_new "" "" (2 ^ 32) 0)) = 0. Proof. reflexivity. Qed.

(** ** Witnesses *)

Definition ex_fr_files : files := {["/d/a.jpg" := [1; 2; 3; 4; 5]]}.
Abbreviation ex_fragmentable o := (fragmentable ex_ctx ex_update fips_sha1 o [] [1; 2; 3; 4; 5]).
Lemma ex_made_fragmentable : ∃ o, ex_fragmentable o ∧ k_filepath o = "/d/a.jpg" ∧ k_filename o = "a.jpg".
Proof.
  destruct (created_run ex_ctx ex_update fips_sha1 ex_fr_files (TV 1300000000 42) "/d/a.jpg" "a.jpg" [1; 2; 3; 4; 5]) as (o & _ & Hok & [(E1 & E2 & E3) _ [E6 E7]] & _ & Hs & Ht); [done..|].
  exists o. split; [|done]. split; [done|done|constructor| |by rewrite E2|by rewrite Ht|by rewrite Hs].
  rewrite E3. cbn. lia.
Qed.

Lemma dec_inj_nat n m : dec (Z.of_nat n) = dec (Z.of_nat m) → n = m.
Proof. intros E%dec_inj; lia. Qed.
Lemma get_all_fragments_spec_witness :
  ∃ o r st fs f, ex_fragmentable o ∧
    getAllFragmentsForDataObject ex_ctx ex_update fips_sha1 (TV 7 7) "/s" (λ _, true) 1 encoder_storage_new ex_fr_files
      (λ n, (TV 1300000000 42, dec n)) 7 o 3 (λ _, false) = Some (r, st, fs) ∧ r = [f] ∧
    is_Some (getFragment st (k_idStr o) 1).
Proof.
  destruct ex_made_fragmentable as (o & H & Ep & En). destruct (fr_len _ _ _ _ _ _ H) as [El _].
  assert (Hpath : ∀ start, createFragmentFileName "/s" (k_filename o) (dec (Z.of_nat start)) = "/s/a.jpg." +:+ dec (Z.of_nat start) +:+ ".frag").
  { intros start. by rewrite En. }
  destruct (get_all_fragments_spec ex_ctx ex_update fips_sha1 (TV 7 7) "/s" (λ _, true) 1 3 o [] [1; 2; 3; 4; 5] (λ n, (TV 1300000000 42, dec n)) (λ _, false)
    H ltac:(lia) ltac:(lia) ltac:(done)) with (st := encoder_storage_new) (fs := ex_fr_files) (rand := 7) as (r & st & fs & E & _ & Hall & Hr).
  - intros n m E. cbn [snd] in E. rewrite !Hpath in E. apply app_string_inj_l in E. apply dec_inj_nat.
    apply (f_equal (λ s, (scan_number s).1)) in E. rewrite !scan_dec in E by (done || lia). injection E as E. by rewrite E.
  - split; [by rewrite Ep|]. intros start f Hf. done.
  - intros start _. cbn [snd]. rewrite Hpath. apply lookup_singleton_ne. done.
  - lia.
  - rewrite El in Hall, Hr. change (ceil_div (Z.of_nat (length [1; 2; 3; 4; 5])) 3) with 2 in *. destruct r as [|f r].
    + destruct (Hr 0%nat) as (f & _ & Hf); [lia|discriminate Hf].
    + destruct Hr as [-> _]. exists o, [f], st, fs, f. split; [exact H|]. split; [exact E|]. split; [done|]. exact (Hall 1%nat ltac:(lia)).
Defined.
