(* ===== verification/Reassembly.v ===== *)
(** * Reassembly: data objects from their fragments (the decoder of [hagglekernel/fragmentation]).

    [FragmentationDecoderStorage] keeps, for every object that is being put together, the file it
    is written to, how many fragments are missing and which have been seen, and the fragments to
    delete later; [FragmentationDecoderService] adds a fragment and makes the object when it was
    the last.

    The maps hold what their operators find: an entry that [operator []] creates with NULL, with
    no numbers or with an empty string is one that is not there.  The calls of the data store are
    the identifiers they delete.  The receive time and the stored flag are not part of the record
    of an object.  The loop of [ageOffDecoder] over the times of last use is not
    modelled, what it does with an expired entry is. *)

From S2P Require Import Prelude Text Timeval Base64 Sha1 Attribute CppString CppMap KernelMetadata KernelDataObject KernelPut KernelWire Fragmentation.

Record FragmentDecoderStruct := DecoderStruct { filePath : string; fileSize : Z; segmentsRemaining : Z }.
Record FragmentationDecoderStorage := DecoderStorage
  { ds_decoders : gmap string FragmentDecoderStruct; ds_numbers : gmap string (gset Z); ds_lastUsed : gmap string string;
    ds_fragments : gmap string (list string); ds_reconstructed : gmap string string }.
Definition decoder_storage_new : FragmentationDecoderStorage := DecoderStorage ∅ ∅ ∅ ∅ ∅.

Definition set_decoders (st : FragmentationDecoderStorage) (m : gmap string FragmentDecoderStruct) : FragmentationDecoderStorage :=
  DecoderStorage m (ds_numbers st) (ds_lastUsed st) (ds_fragments st) (ds_reconstructed st).
Definition set_numbers (st : FragmentationDecoderStorage) (m : gmap string (gset Z)) : FragmentationDecoderStorage :=
  DecoderStorage (ds_decoders st) m (ds_lastUsed st) (ds_fragments st) (ds_reconstructed st).
Definition set_lastUsed (st : FragmentationDecoderStorage) (m : gmap string string) : FragmentationDecoderStorage :=
  DecoderStorage (ds_decoders st) (ds_numbers st) m (ds_fragments st) (ds_reconstructed st).
Definition set_fragments (st : FragmentationDecoderStorage) (m : gmap string (list string)) : FragmentationDecoderStorage :=
  DecoderStorage (ds_decoders st) (ds_numbers st) (ds_lastUsed st) m (ds_reconstructed st).
Definition set_reconstructed (st : FragmentationDecoderStorage) (m : gmap string string) : FragmentationDecoderStorage :=
  DecoderStorage (ds_decoders st) (ds_numbers st) (ds_lastUsed st) (ds_fragments st) m.

(** ** The storage *)

Definition trackDecoderLastUsedTime (st : FragmentationDecoderStorage) (now : Timeval) (id : string) : option FragmentationDecoderStorage :=
  s ← getAsString now; Some (set_lastUsed st (<[id := s]> (ds_lastUsed st))).
Definition getFragmentDecoderStruct (st : FragmentationDecoderStorage) (now : Timeval) (id : string)
    : option (option FragmentDecoderStruct * FragmentationDecoderStorage) :=
  match ds_decoders st !! id with
  | None => Some (None, st)
  | Some d => st ← trackDecoderLastUsedTime st now id; Some (Some d, st)
  end.
Definition isCompleted (st : FragmentationDecoderStorage) (now : Timeval) (id : string) : option (bool * FragmentationDecoderStorage) :=
  '(found, st) ← getFragmentDecoderStruct st now id;
  Some (match found with None => false | Some d => segmentsRemaining d =? 0 end, st).
Definition trackFragment (st : FragmentationDecoderStorage) (id fragmentId : string) : FragmentationDecoderStorage :=
  set_fragments st (<[id := fragmentId :: default [] (ds_fragments st !! id)]> (ds_fragments st)).
Definition trackReconstructedDataObject (st : FragmentationDecoderStorage) (now : Timeval) (id : string) : option FragmentationDecoderStorage :=
  s ← getAsString now; Some (set_reconstructed st (<[id := s]> (ds_reconstructed st))).

(** [--] on the structure that the map refers to. *)
Definition decrement (d : FragmentDecoderStruct) : FragmentDecoderStruct :=
  DecoderStruct (filePath d) (fileSize d) (u64 (segmentsRemaining d - 1)).

(** The fragments in the file of [fragmentPath], from [fragmentStart] on; [tracking] is the local
    copy of the numbers seen. *)
Fixpoint add_loop (l : list string) (fragmentSize size : Z) (id path fragmentPath : string) (fragmentStart : Z) (tracking : gset Z)
    (st : FragmentationDecoderStorage) (fs : files) : option (bool * FragmentationDecoderStorage * files) :=
  match l with
  | [] => Some (true, st, fs)
  | s :: l =>
    let n := u64 (strtol s) in
    p ← calculateFragmentationPositionInfo n fragmentSize size;
    let next := u64 (fragmentStart + actualFragmentSize p) in
    if bool_decide (n ∈ tracking) then add_loop l fragmentSize size id path fragmentPath next tracking st fs
    else
      '(ok, fs) ← storeFragmentToDataObject fs path fragmentPath (startPosition p) (actualFragmentSize p) fragmentStart;
      if negb (ok : bool) then Some (false, st, fs)
      else
        let tracking := {[n]} ∪ tracking in
        let st := set_numbers st (<[id := tracking]> (ds_numbers st)) in
        let st := set_decoders st (alter decrement id (ds_decoders st)) in
        add_loop l fragmentSize size id path fragmentPath next tracking st fs
  end.

(** Giving up an object: the partial file goes, and the structure with it. *)
Definition cleanUpPartialReconstructedObject (st : FragmentationDecoderStorage) (fs : files) (now : Timeval) (id : string)
    : option (FragmentationDecoderStorage * files) :=
  '(completed, st) ← isCompleted st now id;
  if completed : bool then Some (st, fs)
  else
    '(found, st) ← getFragmentDecoderStruct st now id;
    Some (st, match found with None => fs | Some d => delete (filePath d) fs end).
Definition deleteDecoderFromStorageByDataObjectId (st : FragmentationDecoderStorage) (fs : files) (now : Timeval) (id : string)
    : option (FragmentationDecoderStorage * files) :=
  '(st, fs) ← cleanUpPartialReconstructedObject st fs now id;
  let st := set_decoders st (delete id (ds_decoders st)) in
  Some (set_lastUsed st (delete id (ds_lastUsed st)), fs).
(** The identifiers of the fragments that the data store is asked to delete. *)
Definition disposeAssociatedFragments (st : FragmentationDecoderStorage) (id : string) : list string * FragmentationDecoderStorage :=
  match default [] (ds_fragments st !! id) with
  | [] => ([], st)
  | l => (l, set_fragments st (delete id (ds_fragments st)))
  end.
(** What [ageOffDecoder] does with an entry that has expired. *)
Definition expire (st : FragmentationDecoderStorage) (fs : files) (now : Timeval) (id : string)
    : option (list string * FragmentationDecoderStorage * files) :=
  '(st, fs) ← deleteDecoderFromStorageByDataObjectId st fs now id;
  Some (disposeAssociatedFragments st id, fs).
Definition deleteFromStorage (st : FragmentationDecoderStorage) (id : string) : list string * FragmentationDecoderStorage :=
  let '(l, st) := disposeAssociatedFragments st id in
  let st := set_decoders st (delete id (ds_decoders st)) in
  let st := set_numbers st (delete id (ds_numbers st)) in
  (l, set_reconstructed st (delete id (ds_reconstructed st))).

(** ** Adding and decoding *)

Section Decoder.
Context {SHA_CTX : Type} (SHA_Init : SHA_CTX) (SHA_Update : SHA_CTX → list Z → SHA_CTX) (SHA_Final : SHA_CTX → list Z).
Context (ctx_buf : list Z) (uninit_time : Timeval) (storagepath : string) (can_write : string → bool).

Definition reconstructedFile (name timestamp : string) : string :=
  storagepath +:+ "/" +:+ name +:+ "." +:+ timestamp +:+ ".recon".

Definition addFragment (st : FragmentationDecoderStorage) (fs : files) (now : Timeval) (timestamp : string) (f : kdobj) (fragmentSize : Z)
    : option (bool * FragmentationDecoderStorage * files) :=
  info ← getFragmentParentDataObjectInfo f;
  let id := i_dataObjectId info in
  size ← i_fileSize info;
  let tracking := default ∅ (ds_numbers st !! id) in
  '(found, st) ← getFragmentDecoderStruct st now id;
  '(ok, path, st, fs) ← (match found with
    | Some d => Some (true, filePath d, st, fs)
    | None =>
      let path := reconstructedFile (i_fileName info) timestamp in
      total ← calculateTotalNumberOfFragments size fragmentSize;
      let st := set_decoders st (<[id := DecoderStruct path size total]> (ds_decoders st)) in
      st ← trackDecoderLastUsedTime st now id;
      '(ok, fs) ← allocateFile can_write fs path size;
      Some (ok, path, st, fs)
    end);
  if negb ok then Some (false, st, fs)
  else
    '(ok, st, fs) ← add_loop (i_sequenceNumberList info) fragmentSize size id path (k_filepath f) 0 tracking st fs;
    if negb ok then Some (false, st, fs)
    else st ← trackDecoderLastUsedTime st now id; Some (true, trackFragment st id (k_idStr f), fs).

Definition skipped (name : string) : bool :=
  string_eq name HAGGLE_ATTR_FRAGMENTATION_NAME || string_eq name HAGGLE_ATTR_FRAGMENTATION_PARENT_ORIG_NAME ||
  string_eq name HAGGLE_ATTR_FRAGMENTATION_PARENT_DATAOBJECT_ID || string_eq name HAGGLE_ATTR_FRAGMENTATION_PARENT_ORIG_LEN ||
  string_eq name HAGGLE_ATTR_FRAGMENTATION_SEQUENCE_NUMBER.

(** The loop over the attributes: the object, the signature and the signee. *)
Fixpoint copy_loop (l : list attr) (d : kdobj) (signature signee : string) : option (option (kdobj * string * string)) :=
  match l with
  | [] => Some (Some (d, signature, signee))
  | a :: l =>
    if string_eq (an a) HAGGLE_ATTR_FRAGMENTATION_PARENT_CREATION_TIME then
      t ← Timeval_string uninit_time (av a); d ← setCreateTime SHA_Init SHA_Update SHA_Final d t; copy_loop l d signature signee
    else if string_eq (an a) HAGGLE_ATTR_FRAGMENTATION_PARENT_ORIG_SIGNATURE then copy_loop l d (av a) signee
    else if string_eq (an a) HAGGLE_ATTR_FRAGMENTATION_PARENT_ORIG_SIGNEE then copy_loop l d signature (av a)
    else if skipped (an a) then copy_loop l d signature signee
    else
      '(ok, d) ← addAttribute SHA_Init SHA_Update SHA_Final d a;
      if ok : bool then copy_loop l d signature signee else Some None
  end.
Definition copyAttributesToDataObject (d f : kdobj) : option (option kdobj) :=
  l ← entries (k_attrs f);
  or_null (copy_loop l.*2 d "" "") (λ '(d, signature, signee),
  if (slen signee =? 0)%nat || (slen signature =? 0)%nat then Some (Some d)
  else
    '(ok, out) ← base64_decode_alloc malloc_succeeds (base64_decode_ctx_init ctx_buf) (bytes_of_string signature);
    Some (if ok : bool then Some (set_signature d SIGNATURE_UNVERIFIED signee out) else None)).

(** The object of the completed file. *)
Definition make_object (fs : files) (now : Timeval) (path name : string) (f : kdobj) : option (option kdobj) :=
  or_null (create_from_file SHA_Init SHA_Update SHA_Final fs now path name) (λ d,
  let d := set_flags d true (k_isNodeDesc d) (k_controlMessage d) in
  or_null (copyAttributesToDataObject d f) (λ d,
  d ← restoreEncryptedDataObject SHA_Init SHA_Update SHA_Final d; Some (Some d))).

Definition decode (st : FragmentationDecoderStorage) (fs : files) (now : Timeval) (timestamp : string) (f : kdobj) (fragmentSize : Z)
    : option (option kdobj * FragmentationDecoderStorage * files) :=
  info ← getFragmentParentDataObjectInfo f;
  let id := i_dataObjectId info in
  '(completed, st) ← isCompleted st now id;
  if completed : bool then Some (None, st, fs)
  else
    '(ok, st, fs) ← addFragment st fs now timestamp f fragmentSize;
    if negb (ok : bool) then Some (None, st, fs)
    else
      '(completed, st) ← isCompleted st now id;
      if negb (completed : bool) then Some (None, st, fs)
      else
        '(found, st) ← getFragmentDecoderStruct st now id;
        s ← found;
        d ← make_object fs now (filePath s) (i_fileName info) f;
        match d with
        | None => Some (None, st, fs)
        | Some d => st ← trackReconstructedDataObject st now (k_idStr d); Some (Some d, st, fs)
        end.

(** Fragments as they come in, each with the time and the name made of it. *)
Fixpoint decode_all (ds : list (Timeval * string * kdobj)) (fragmentSize : Z) (st : FragmentationDecoderStorage) (fs : files)
    : option (list (option kdobj) * FragmentationDecoderStorage * files) :=
  match ds with
  | [] => Some ([], st, fs)
  | (now, timestamp, f) :: ds =>
    '(r, st, fs) ← decode st fs now timestamp f fragmentSize;
    '(rs, st, fs) ← decode_all ds fragmentSize st fs;
    Some (r :: rs, st, fs)
  end.
End Decoder.

(** ** What a fragment says *)

Lemma get_named d l name v n :
  attrs_wf (k_attrs d) l → MkAttr name v 0 ∈ l.*2 → (∀ a, a ∈ l.*2 → an a = name → a = MkAttr name v 0) →
  getAttribute d name "*" n = Some (Some (MkAttr name v 0)).
Proof.
  intros Hwf Hin Hu. unfold getAttribute. destruct (attrs_find_run _ _ (MkAttr name "*" n) Hwf) as (it & -> & Hit). cbn [mbind option_bind].
  destruct it as [i|].
  - destruct Hit as (x & Hx & E). unfold deref. cbn [mbind option_bind]. rewrite (rep_slot _ _ _ _ (aw_rep _ _ Hwf) Hx). cbn [mbind option_bind].
    do 2 f_equal. apply Hu; [apply list_elem_of_fmap_2; by apply list_elem_of_lookup_2 in Hx|]. apply attribute_eq_iff in E. by destruct E.
  - apply list_elem_of_fmap in Hin as (x & Ex & Hx). specialize (Hit x Hx). rewrite <- Ex in Hit.
    exfalso. apply not_true_iff_false in Hit. apply Hit, attribute_eq_iff. cbn. naive_solver.
Qed.

Section Fragment.
Context {SHA_CTX : Type} (SHA_Init : SHA_CTX) (SHA_Update : SHA_CTX → list Z → SHA_CTX) (SHA_Final : SHA_CTX → list Z).
Abbreviation fragmentable := (fragmentable SHA_Init SHA_Update SHA_Final).

Lemma fragment_attr_unique o l contents csv a a' :
  fragmentable o l contents → a ∈ fragment_attrs o csv → a' ∈ fragment_attrs o csv ++ l.*2 → an a' = an a → a' = a.
Proof.
  intros H Ha [Ha'|Ha']%elem_of_app E.
  - unfold fragment_attrs, signature_attrs in Ha, Ha'. destruct (k_signature o); cbn [app] in Ha, Ha';
      repeat (apply elem_of_cons in Ha as [->|Ha]; [repeat (apply elem_of_cons in Ha' as [->|Ha']; [done || discriminate E|]); by apply not_elem_of_nil in Ha'|]);
      by apply not_elem_of_nil in Ha.
  - exfalso. pose proof (fr_attrs _ _ _ _ _ _ H) as Hr. rewrite Forall_forall in Hr. apply (proj1 (Hr a' Ha')). rewrite E. revert Ha. clear.
    unfold fragment_attrs, signature_attrs. intros Ha. destruct (k_signature o); cbn [app] in Ha;
      repeat (apply elem_of_cons in Ha as [->|Ha]; [unfold reserved; cbn [an]; set_solver|]); by apply not_elem_of_nil in Ha.
Qed.

Lemma fragment_get fs o l contents b ns f a n :
  fragmentable o l contents → fragment_of fs o l contents b ns f → a ∈ fragment_attrs o (joined ns) → aw a = 0 →
  getAttribute f (an a) "*" n = Some (Some a).
Proof.
  intros H [(lf & Hwf & Hp) _] Ha Hw. destruct a as [name v w]. cbn in Hw. subst w. apply (get_named _ lf); [done| |].
  - rewrite Hp. apply elem_of_app. by left.
  - intros a' Ha' E. rewrite Hp in Ha'. by apply (fragment_attr_unique o l contents (joined ns)).
Qed.

Lemma info_run fs o l contents b ns f :
  fragmentable o l contents → fragment_of fs o l contents b ns f → Forall (Z.le 0) ns →
  getFragmentParentDataObjectInfo f =
    Some (ParentInfo (k_idStr o) (Some (Z.of_nat (length contents))) (dec <$> ns) (k_filename o) (time_text (k_createTime o))).
Proof.
  intros H Hf Hns. destruct (fr_len _ _ _ _ _ _ H) as [El Hl]. unfold getFragmentParentDataObjectInfo.
  assert (Hget : ∀ name v, MkAttr name v 0 ∈ fragment_attrs o (joined ns) → getAttribute f name "*" 1 = Some (Some (MkAttr name v 0))).
  { intros name v Hin. by apply (fragment_get fs o l contents b ns f (MkAttr name v 0)). }
  rewrite (Hget HAGGLE_ATTR_FRAGMENTATION_PARENT_DATAOBJECT_ID (k_idStr o)) by (unfold fragment_attrs; apply elem_of_app; right; rewrite !elem_of_cons; tauto). cbn [mbind option_bind av].
  rewrite (Hget HAGGLE_ATTR_FRAGMENTATION_PARENT_ORIG_LEN (dec (k_dataLen o))) by (unfold fragment_attrs; apply elem_of_app; right; rewrite !elem_of_cons; tauto). cbn [mbind option_bind av].
  rewrite strtol_dec, u64_small by lia. destruct (Z.eqb_spec (k_dataLen o) 0); [lia|].
  rewrite (Hget HAGGLE_ATTR_FRAGMENTATION_SEQUENCE_NUMBER (joined ns)) by (unfold fragment_attrs; apply elem_of_app; right; rewrite !elem_of_cons; tauto). cbn [mbind option_bind av].
  rewrite sequence_numbers_joined by done. cbn [mbind option_bind].
  rewrite (Hget HAGGLE_ATTR_FRAGMENTATION_PARENT_ORIG_NAME (k_filename o)) by (unfold fragment_attrs; apply elem_of_app; right; rewrite !elem_of_cons; tauto). cbn [mbind option_bind av].
  rewrite (Hget HAGGLE_ATTR_FRAGMENTATION_PARENT_CREATION_TIME (time_text (k_createTime o))) by (unfold fragment_attrs; apply elem_of_app; right; rewrite !elem_of_cons; tauto). cbn [mbind option_bind av]. by rewrite El.
Qed.
End Fragment.

(** ** Pieces in their places *)

(** The number of the fragment with a byte. *)
Definition piece_of (b : Z) (i : nat) : Z := Z.of_nat i / b + 1.

Lemma piece_of_iff b i n : 0 < b → piece_of b i = n ↔ (n - 1) * b <= Z.of_nat i < n * b.
Proof.
  intros Hb. unfold piece_of. pose proof (Z.div_mod (Z.of_nat i) b ltac:(lia)). pose proof (Z.mod_pos_bound (Z.of_nat i) b Hb).
  split; [intros <-; nia|]. intros Hn. nia.
Qed.

Lemma write_piece contents file b n :
  0 < b → length file = length contents → 1 <= n → (n - 1) * b < Z.of_nat (length contents) →
  let file' := write_at file ((n - 1) * b) (piece contents b n) in
  length file' = length contents ∧
  ∀ i, (i < length contents)%nat → file' !! i = if decide (piece_of b i = n) then contents !! i else file !! i.
Proof.
  intros Hb Hl Hn Hlt file'. assert (0 <= (n - 1) * b) as H0 by nia. unfold file', write_at.
  pose proof (length_piece contents b n Hb ltac:(lia)) as Hp. set (s := Z.to_nat ((n - 1) * b)) in *.
  rewrite pad_full by (rewrite length_take; lia). split.
  - rewrite !length_app, length_take, length_drop. lia.
  - intros i Hi. destruct (decide (i < s)%nat).
    { rewrite lookup_app_l, lookup_take_lt by (rewrite ?length_take; lia). rewrite decide_False; [done|]. rewrite piece_of_iff by done. lia. }
    rewrite lookup_app_r by (rewrite length_take; lia). rewrite length_take, Nat.min_l by lia.
    destruct (decide (i < s + length (piece contents b n))%nat).
    + rewrite lookup_app_l by lia. rewrite decide_True.
      * unfold piece. fold s. rewrite lookup_take_lt, lookup_drop by lia. f_equal. lia.
      * apply piece_of_iff; [done|]. lia.
    + rewrite lookup_app_r, lookup_drop by lia. rewrite decide_False; [f_equal; lia|]. rewrite piece_of_iff by done. lia.
Qed.

Lemma alloc_small n : 0 <= n < 2 ^ 63 → alloc n = Some (Z.to_nat n).
Proof. intros Hn. unfold alloc. destruct (Z.leb_spec 0 n), (Z.ltb_spec n (2 ^ 63)); done || lia. Qed.

(** A piece that is in the fragment goes to its place. *)
Lemma store_run (fs : files) path fpath contents file b n before after :
  0 < b < 2 ^ 52 → length file = length contents → Z.of_nat (length contents) < 2 ^ 52 → 1 <= n → (n - 1) * b < Z.of_nat (length contents) →
  fs !! path = Some file → fs !! fpath = Some (before ++ piece contents b n ++ after) → Z.of_nat (length before) < 2 ^ 63 →
  storeFragmentToDataObject fs path fpath ((n - 1) * b) (Z.min b (Z.of_nat (length contents) - (n - 1) * b)) (Z.of_nat (length before)) =
    Some (true, <[path := write_at file ((n - 1) * b) (piece contents b n)]> fs).
Proof.
  intros Hb Hl Hl2 Hn Hlt Hpath Hf Hbe. assert (0 <= (n - 1) * b) as H0 by nia. unfold storeFragmentToDataObject. rewrite Hf.
  pose proof (length_piece contents b n ltac:(lia) ltac:(lia)) as Hp. rewrite <- Hp.
  destruct (Z.leb_spec (2 ^ 63) (Z.of_nat (length before))); [lia|]. rewrite u64_small, !alloc_small by lia. cbn [mbind option_bind].
  unfold read_at. rewrite !Nat2Z.id, drop_app_length, take_app_length.
  destruct (Nat.eqb_spec (length (piece contents b n)) 0); [lia|]. rewrite Hpath.
  destruct (Z.leb_spec (2 ^ 63) ((n - 1) * b)); [lia|]. by rewrite pad_full.
Qed.

(** ** The state of an object that is being put together *)

Definition all_numbers (total : Z) : gset Z := list_to_set (numbers 0 (Z.to_nat total)).
Lemma elem_of_all n total : n ∈ all_numbers total ↔ 1 <= n <= total.
Proof.
  unfold all_numbers, numbers. rewrite elem_of_list_to_set, list_elem_of_fmap. split.
  - intros (i & -> & Hi%elem_of_seq). lia.
  - intros Hn. exists (Z.to_nat n). split; [lia|]. apply elem_of_seq. lia.
Qed.
Lemma size_all total : 0 <= total → Z.of_nat (size (all_numbers total)) = total.
Proof.
  intros Ht. unfold all_numbers, numbers. rewrite size_list_to_set; [rewrite length_fmap, length_seq; lia|].
  apply NoDup_fmap_2; [intros ? ? ?; lia|apply NoDup_seq].
Qed.

Section Assembling.
(** [L] are numbers that count as seen although their pieces are not in the file. *)
Context (contents : list Z) (b : Z) (id path : string) (L : gset Z).
Abbreviation len := (Z.of_nat (length contents)).
Abbreviation total := (ceil_div len b).

Record assembling (st : FragmentationDecoderStorage) (fs : files) (D : gset Z) : Prop := Assembling
  { as_struct : ds_decoders st !! id = Some (DecoderStruct path len (total - Z.of_nat (size D) + Z.of_nat (size L)));
    as_numbers : default ∅ (ds_numbers st !! id) = D;
    as_range : D ⊆ all_numbers total;
    as_lost : L ⊆ D;
    as_file : ∃ file, fs !! path = Some file ∧ length file = length contents ∧
                ∀ i, (i < length contents)%nat → piece_of b i ∈ D ∖ L → file !! i = contents !! i }.

Hypothesis sizes : 0 < len < 2 ^ 52 ∧ 0 < b < 2 ^ 52.

Lemma total_pos : 0 < total <= len.
Proof using sizes. pose proof (ceil_div_spec len b ltac:(lia)). nia. Qed.

Lemma assembling_add st fs D n file : assembling st fs D → n ∈ all_numbers total → n ∉ D →
  fs !! path = Some file → (∀ i, (i < length contents)%nat → piece_of b i ∈ D ∖ L → file !! i = contents !! i) → length file = length contents →
  assembling (set_decoders (set_numbers st (<[id := {[n]} ∪ D]> (ds_numbers st))) (alter decrement id (ds_decoders st)))
             (<[path := write_at file ((n - 1) * b) (piece contents b n)]> fs) ({[n]} ∪ D).
Proof using sizes.
  intros [Hs Hn Hr HL _] Hin Hnot Hfs Hi Hl. pose proof total_pos as Ht. assert ({[n]} ∪ D ⊆ all_numbers total) as Hr' by set_solver.
  assert (Z.of_nat (size ({[n]} ∪ D)) = Z.of_nat (size D) + 1) as Hsz by (rewrite size_union by set_solver; rewrite size_singleton; lia).
  assert (Z.of_nat (size L) <= Z.of_nat (size D)) as HLD by (apply inj_le; by apply subseteq_size).
  assert (Z.of_nat (size ({[n]} ∪ D)) <= total) as Hle by (rewrite <- (size_all total) by lia; apply inj_le; by apply subseteq_size).
  apply elem_of_all in Hin. pose proof (ceil_div_spec len b ltac:(lia)).
  destruct (write_piece contents file b n) as [Hl' Hi']; [lia|done|lia|nia|]. split.
  - cbn. rewrite lookup_alter_eq, Hs. cbn. do 2 f_equal. unfold decrement. cbn. f_equal. rewrite u64_small by lia. lia.
  - cbn. by rewrite lookup_insert_eq.
  - done.
  - set_solver.
  - eexists. split; [by apply lookup_insert_eq|]. split; [done|]. intros i Hlt Hp. rewrite Hi' by done. case_decide; [done|]. apply Hi; [done|]. set_solver.
Qed.

Lemma add_loop_run fpath ns : ∀ before st fs D,
  assembling st fs D → path ≠ fpath → fs !! fpath = Some (concat (piece contents b <$> (before ++ ns))) →
  Forall (λ n, n ∈ all_numbers total) ns → Z.of_nat (length (concat (piece contents b <$> (before ++ ns)))) < 2 ^ 63 →
  ∃ st' fs', add_loop (dec <$> ns) b len id path fpath (Z.of_nat (length (concat (piece contents b <$> before)))) D st fs = Some (true, st', fs') ∧
    assembling st' fs' (list_to_set ns ∪ D) ∧ ∀ q, q ≠ path → fs' !! q = fs !! q.
Proof using sizes.
  induction ns as [|n ns IH]; intros before st fs D Has Hne Hf Hns Hlen; cbn [fmap list_fmap add_loop].
  { exists st, fs. split; [done|]. split; [|done]. cbn [list_to_set]. by rewrite union_empty_l_L. }
  apply Forall_cons in Hns as [Hn Hns]. pose proof (proj1 (elem_of_all _ _) Hn) as Hr. pose proof total_pos as Ht.
  pose proof (as_numbers _ _ _ Has) as Hnum. rewrite strtol_dec, u64_small by lia.
  destruct (position_run len b n) as [-> Hp]; [lia..|]. cbn [mbind option_bind startPosition actualFragmentSize].
  pose proof (length_piece contents b n ltac:(lia) Hp) as Hlp. rewrite <- Hlp.
  assert (Hsplit : before ++ n :: ns = (before ++ [n]) ++ ns) by (by rewrite <- app_assoc).
  assert (Hlen' : length (concat (piece contents b <$> (before ++ [n]))) = (length (concat (piece contents b <$> before)) + length (piece contents b n))%nat).
  { rewrite fmap_app, concat_app, length_app. cbn. by rewrite app_nil_r. }
  assert (Z.of_nat (length (concat (piece contents b <$> (before ++ [n])))) < 2 ^ 63).
  { rewrite Hsplit in Hlen. rewrite fmap_app, concat_app, length_app in Hlen. lia. }
  assert (u64 (Z.of_nat (length (concat (piece contents b <$> before))) + Z.of_nat (length (piece contents b n))) =
          Z.of_nat (length (concat (piece contents b <$> (before ++ [n]))))) as -> by (rewrite u64_small; lia).
  case_bool_decide as Hin.
  - rewrite Hsplit in Hf, Hlen. destruct (IH (before ++ [n]) st fs D Has Hne Hf Hns Hlen) as (st' & fs' & E & Has' & Ho).
    exists st', fs'. split; [exact E|]. split; [|done]. cbn [list_to_set]. replace ({[n]} ∪ list_to_set ns ∪ D) with (list_to_set ns ∪ D) by set_solver. done.
  - destruct (as_file _ _ _ Has) as (file & Hfs & Hl & Hi).
    rewrite Hlp, (store_run fs path fpath contents file b n (concat (piece contents b <$> before)) (concat (piece contents b <$> ns))); [|lia|done|lia|lia|lia|done| |lia].
    2: { rewrite Hf, fmap_app, concat_app. done. }
    cbn [mbind option_bind negb]. pose proof (assembling_add st fs D n file Has Hn Hin Hfs Hi Hl) as Has1.
    set (fs1 := <[path := _]> fs) in *. set (st1 := set_decoders _ _) in *.
    destruct (IH (before ++ [n]) st1 fs1 ({[n]} ∪ D) Has1 Hne) as (st' & fs' & E & Has' & Ho).
    { unfold fs1. by rewrite lookup_insert_ne, <- Hsplit. }
    { done. }
    { by rewrite <- Hsplit. }
    exists st', fs'. split; [exact E|]. split.
    + cbn [list_to_set]. replace ({[n]} ∪ list_to_set ns ∪ D) with (list_to_set ns ∪ ({[n]} ∪ D)) by set_solver. done.
    + intros q Hq. rewrite Ho by done. unfold fs1. by rewrite lookup_insert_ne.
Qed.
End Assembling.

(** When all fragments are there, the file is the one that was sent. *)
Lemma assembled contents b id path st (fs : files) :
  0 < Z.of_nat (length contents) < 2 ^ 52 ∧ 0 < b < 2 ^ 52 →
  assembling contents b id path ∅ st fs (all_numbers (ceil_div (Z.of_nat (length contents)) b)) → fs !! path = Some contents.
Proof.
  intros sizes [_ _ _ _ (file & Hfs & Hl & Hi)]. rewrite Hfs. f_equal. apply list_eq. intros i. destruct (decide (i < length contents)%nat) as [Hlt|Hge].
  - apply Hi; [done|]. rewrite difference_empty_L. apply elem_of_all. pose proof (ceil_div_spec (Z.of_nat (length contents)) b ltac:(lia)).
    pose proof (proj1 (piece_of_iff b i (piece_of b i) ltac:(lia)) eq_refl). split; nia.
  - by rewrite !lookup_ge_None_2 by lia.
Qed.


(** ** The object of a completed file *)

Lemma in_list_filter_perm (l fr base : list attr) (P : attr → Prop) `{!∀ a, Decision (P a)} :
  l ≡ₚ fr ++ base → Forall (λ a, ¬ P a) fr → Forall P base → filter P l ≡ₚ base.
Proof.
  intros Hp Hf Hb. rewrite Hp, filter_app.
  assert (filter P fr = []) as -> by (clear Hp; induction Hf; [done|rewrite filter_cons; by case_decide]).
  assert (filter P base = base) as -> by (clear Hp; induction Hb; [done|rewrite filter_cons; case_decide; [by f_equal|done]]). done.
Qed.

(** The last value of a name, or the one from before. *)
Definition value_of (name v : string) (l : list attr) : string :=
  fold_left (λ acc a, if string_eq (an a) name then av a else acc) l v.
Lemma value_of_all name v w l : (∀ a, a ∈ l → an a = name → av a = w) → (v = w ∨ ∃ a, a ∈ l ∧ an a = name) → value_of name v l = w.
Proof.
  revert v. induction l as [|a l IH]; intros v Hall Hex; cbn [value_of fold_left].
  - destruct Hex as [->|(a & Ha & _)]; [done|]. by apply not_elem_of_nil in Ha.
  - apply IH; [intros a' Ha'; apply Hall; by right|]. destruct (string_eq (an a) name) eqn:E.
    + left. apply string_eq_iff in E. apply Hall; [by left|done].
    + destruct Hex as [->|(a' & [->|Ha']%elem_of_cons & E')]; [by left|apply not_true_iff_false in E; rewrite string_eq_iff in E; done|right; by exists a'].
Qed.
Lemma value_of_none name v l : unnamed name l → value_of name v l = v.
Proof. intros H. apply value_of_all; [|by left]. intros a Ha E. unfold unnamed in H. rewrite Forall_forall in H. by destruct (H a Ha). Qed.

Ltac in_reserved := unfold reserved; rewrite !elem_of_cons; tauto.

Section Object.
Context {SHA_CTX : Type} (SHA_Init : SHA_CTX) (SHA_Update : SHA_CTX → list Z → SHA_CTX) (SHA_Final : SHA_CTX → list Z).
Context (ctx_buf : list Z) (Hctx : length ctx_buf = 4%nat) (uninit_time : Timeval).
Abbreviation ok := (kd_ok SHA_Init SHA_Update SHA_Final).
Abbreviation fragmentable := (fragmentable SHA_Init SHA_Update SHA_Final).
Abbreviation copied := (λ a, an a ∉ reserved).

Lemma copied_run t al : ∀ d ld sig signee,
  ok d ld → distinct (filter copied al ++ ld.*2) →
  (∀ a, a ∈ al → an a = HAGGLE_ATTR_FRAGMENTATION_PARENT_CREATION_TIME → Timeval_string uninit_time (av a) = Some t) →
  ∃ d' l', copy_loop SHA_Init SHA_Update SHA_Final uninit_time al d sig signee =
      Some (Some (d', value_of HAGGLE_ATTR_FRAGMENTATION_PARENT_ORIG_SIGNATURE sig al, value_of HAGGLE_ATTR_FRAGMENTATION_PARENT_ORIG_SIGNEE signee al)) ∧
    ok d' l' ∧ l'.*2 ≡ₚ filter copied al ++ ld.*2 ∧ stays d d' ∧
    ((∃ a, a ∈ al ∧ an a = HAGGLE_ATTR_FRAGMENTATION_PARENT_CREATION_TIME) ∨ k_createTime d = t → k_createTime d' = t).
Proof.
  induction al as [|a al IH]; intros d ld sig signee Hok Hd Ht; cbn [copy_loop value_of fold_left].
  { exists d, ld. split_and!; [done..|]. intros [(a & Ha & _)|]; [by apply not_elem_of_nil in Ha|done]. }
  assert (Ht' : ∀ a', a' ∈ al → an a' = HAGGLE_ATTR_FRAGMENTATION_PARENT_CREATION_TIME → Timeval_string uninit_time (av a') = Some t) by (intros a' Ha'; apply Ht; by right).
  rewrite filter_cons in Hd |- *.
  destruct (string_eq (an a) HAGGLE_ATTR_FRAGMENTATION_PARENT_CREATION_TIME) eqn:E1.
  { apply string_eq_iff in E1. rewrite (Ht a) by (done || by left). cbn [mbind option_bind].
    destruct (set_create_time_run SHA_Init SHA_Update SHA_Final d ld t) as (d1 & E & Hok1 & _ & Ht1); [apply Hok..| |].
    { destruct (kd_meta _ _ _ _ _ Hok) as (m & ps & kids & ? & ? & _). by exists m, ps, kids. }
    rewrite E. cbn [mbind option_bind]. rewrite decide_False in Hd |- * by (intros Hn; apply Hn; rewrite E1; in_reserved).
    assert (string_eq (an a) HAGGLE_ATTR_FRAGMENTATION_PARENT_ORIG_SIGNATURE = false) as -> by by rewrite E1.
    assert (string_eq (an a) HAGGLE_ATTR_FRAGMENTATION_PARENT_ORIG_SIGNEE = false) as -> by by rewrite E1.
    destruct (IH d1 ld sig signee Hok1 Hd Ht') as (d' & l' & -> & Hok' & Hp & Hs & Htt). exists d', l'. split_and!; [done|done|done| |].
    - etrans; [by apply (set_time_stays _ _ _ _ _ _ E)|done].
    - intros _. apply Htt. by right. }
  assert (Hne : an a ≠ HAGGLE_ATTR_FRAGMENTATION_PARENT_CREATION_TIME) by (intros E; apply string_eq_iff in E; congruence).
  assert (Htime : (∃ a0, a0 ∈ a :: al ∧ an a0 = HAGGLE_ATTR_FRAGMENTATION_PARENT_CREATION_TIME) ∨ k_createTime d = t →
                  (∃ a0, a0 ∈ al ∧ an a0 = HAGGLE_ATTR_FRAGMENTATION_PARENT_CREATION_TIME) ∨ k_createTime d = t).
  { intros [(a0 & [->|Ha0]%elem_of_cons & E0)|?]; [done|left; by exists a0|by right]. }
  destruct (decide (an a ∉ reserved)) as [Hn|Hr].
  - assert (Hno : ∀ s, s ∈ reserved → string_eq (an a) s = false).
    { intros s Hs. apply not_true_iff_false. rewrite string_eq_iff. by intros <-. }
    unfold skipped. rewrite !Hno by in_reserved. cbn [orb].
    assert (matched a ld.*2 = false) as Hm.
    { refine (proj1 (distinct_cons_inv a ld.*2 _)). apply (distinct_app (filter copied al)). apply (distinct_perm ((a :: filter copied al) ++ ld.*2)); [|done].
      apply Permutation_middle. }
    destruct (plain_add_run SHA_Init SHA_Update SHA_Final d ld a Hok Hm) as (d1 & l1 & -> & Hok1 & Hp1 & Hs1 & Ht1). cbn [mbind option_bind].
    destruct (IH d1 l1 sig signee Hok1) as (d' & l' & -> & Hok' & Hp & Hs & Htt).
    { apply (distinct_perm ((a :: filter copied al) ++ ld.*2)); [|done]. rewrite Hp1. apply Permutation_middle. }
    { done. }
    exists d', l'. split_and!; [done|done| |by etrans|by rewrite Ht1 in Htt; auto]. rewrite Hp, Hp1. symmetry. apply Permutation_middle.
  - destruct (string_eq (an a) HAGGLE_ATTR_FRAGMENTATION_PARENT_ORIG_SIGNATURE) eqn:E2.
    { assert (string_eq (an a) HAGGLE_ATTR_FRAGMENTATION_PARENT_ORIG_SIGNEE = false) as -> by (apply string_eq_iff in E2; by rewrite E2).
      destruct (IH d ld (av a) signee Hok Hd Ht') as (d' & l' & -> & Hok' & Hp & Hs & Htt). exists d', l'. split_and!; auto. }
    destruct (string_eq (an a) HAGGLE_ATTR_FRAGMENTATION_PARENT_ORIG_SIGNEE) eqn:E3.
    { destruct (IH d ld sig (av a) Hok Hd Ht') as (d' & l' & -> & Hok' & Hp & Hs & Htt). exists d', l'. split_and!; auto. }
    assert (skipped (an a) = true) as ->.
    { apply dec_stable in Hr. unfold skipped. rewrite !orb_true_iff, !string_eq_iff.
      apply not_true_iff_false in E1, E2, E3. rewrite string_eq_iff in E1, E2, E3. unfold reserved in Hr. rewrite !elem_of_cons, elem_of_nil in Hr. tauto. }
    destruct (IH d ld sig signee Hok Hd Ht') as (d' & l' & -> & Hok' & Hp & Hs & Htt). exists d', l'. split_and!; auto.
Qed.

(** The object that comes out: the file, the name, the attributes, the time, the signature - and,
    for an object whose hash is that of its file, the identifier - are the original's. *)
Record reassembled (fs : files) (o : kdobj) (l : list (string * attr)) (contents : list Z) (d : kdobj) : Prop := Reassembled
  { re_file : fs !! k_filepath d = Some contents ∧ k_filename d = k_filename o ∧ k_dataLen d = k_dataLen o;
    re_attrs : ∃ l', ok d l' ∧ l'.*2 = l.*2;
    re_time : k_createTime d = k_createTime o;
    re_hash : file_hash SHA_Init SHA_Update SHA_Final contents = Some (k_dataHash d) ∧ k_dataState d = DATA_STATE_VERIFIED_OK;
    re_signature : k_signature d = k_signature o ∧ (is_Some (k_signature o) → k_signee d = k_signee o ∧ k_signatureStatus d = SIGNATURE_UNVERIFIED);
    re_id : dataIsVerifiable o = true → file_hash SHA_Init SHA_Update SHA_Final contents = Some (k_dataHash o) →
            k_id d = k_id o ∧ k_idStr d = k_idStr o }.

Lemma ok_changed (g : kdobj → kdobj) d l :
  ok d l → (∀ d, k_attrs (g d) = k_attrs d) → (∀ d, k_metadata (g d) = k_metadata d) → (∀ d, k_createTime (g d) = k_createTime d) →
  (∀ d, calcId SHA_Init SHA_Update SHA_Final (g d) = g <$> calcId SHA_Init SHA_Update SHA_Final d) → ok (g d) l.
Proof. intros [Ha Hd Hm Hi] E1 E2 E3 E4. split; [by rewrite E1|done|by rewrite E2, E3|by rewrite E4, Hi]. Qed.
Lemma calc_flags p n c d :
  calcId SHA_Init SHA_Update SHA_Final (set_flags d p n c) = (λ d, set_flags d p n c) <$> calcId SHA_Init SHA_Update SHA_Final d.
Proof.
  unfold calcId. cbn [set_flags k_attrs k_createTime]. destruct (entries (k_attrs d)); [|done]. cbn [mbind option_bind].
  by destruct (if isValid (k_createTime d) then _ else _).
Qed.
Lemma calc_signature st signee sg d :
  calcId SHA_Init SHA_Update SHA_Final (set_signature d st signee sg) = (λ d, set_signature d st signee sg) <$> calcId SHA_Init SHA_Update SHA_Final d.
Proof.
  unfold calcId. cbn [set_signature k_attrs k_createTime]. destruct (entries (k_attrs d)); [|done]. cbn [mbind option_bind].
  by destruct (if isValid (k_createTime d) then _ else _).
Qed.

(** Equal attributes, times and hashes of the file: equal identifiers. *)
Lemma same_id o l d l' contents :
  ok o l → ok d l' → l'.*2 = l.*2 → k_createTime d = k_createTime o → k_encryptedFilePath o = "" → k_encryptedFilePath d = "" →
  file_hash SHA_Init SHA_Update SHA_Final contents = Some (k_dataHash d) → dataIsVerifiable d = true →
  dataIsVerifiable o = true → file_hash SHA_Init SHA_Update SHA_Final contents = Some (k_dataHash o) →
  k_id d = k_id o ∧ k_idStr d = k_idStr o.
Proof.
  intros Ho Hd El Et Eo Ed Hhd Hvd Hvo Hho. pose proof (kd_id _ _ _ _ _ Ho) as Io. pose proof (kd_id _ _ _ _ _ Hd) as Id.
  rewrite (calc_run _ _ _ o l) in Io by apply Ho. rewrite (calc_run _ _ _ d l') in Id by apply Hd.
  assert (id_ctx SHA_Init SHA_Update d l'.*2 = id_ctx SHA_Init SHA_Update o l.*2) as E.
  { unfold id_ctx, hash_data. rewrite El, Et, Hvd, Hvo, Eo, Ed. replace (k_dataHash d) with (k_dataHash o) by congruence. done. }
  rewrite E in Id. revert Io Id. generalize (SHA_Final (id_ctx SHA_Init SHA_Update o l.*2)). intros h [= Io] [= Id].
  rewrite <- Io, <- Id. done.
Qed.

Lemma fragment_value o l contents csv lf a v :
  fragmentable o l contents → lf ≡ₚ fragment_attrs o csv ++ l.*2 → a ∈ fragment_attrs o csv → value_of (an a) v lf = av a.
Proof.
  intros H Hp Ha. apply value_of_all.
  - intros a' Ha' E. rewrite Hp in Ha'. f_equal. by apply (fragment_attr_unique SHA_Init SHA_Update SHA_Final o l contents csv).
  - right. exists a. split; [|done]. rewrite Hp. apply elem_of_app. by left.
Qed.
Lemma no_signature_values o l contents csv lf name v :
  fragmentable o l contents → lf ≡ₚ fragment_attrs o csv ++ l.*2 → k_signature o = None →
  name ∈ [HAGGLE_ATTR_FRAGMENTATION_PARENT_ORIG_SIGNEE; HAGGLE_ATTR_FRAGMENTATION_PARENT_ORIG_SIGNATURE] → value_of name v lf = v.
Proof.
  intros H Hp Hs Hn. apply value_of_none. rewrite Hp. apply Forall_app. split.
  - unfold fragment_attrs, signature_attrs. rewrite Hs. apply elem_of_cons in Hn as [->|Hn%list_elem_of_singleton]; [|subst name]; by repeat constructor.
  - apply (fragmentable_unnamed SHA_Init SHA_Update SHA_Final o l contents); [done|]. apply elem_of_cons in Hn as [->|Hn%list_elem_of_singleton]; [|subst name]; in_reserved.
Qed.
Lemma signature_text_bytes sg : bytes sg → bytes_of_string (signature_text sg) = b64_enc sg.
Proof. intros Hb. apply (bytes_of_string_of_bytes _ []). by apply b64_enc_text. Qed.
Lemma signature_text_ne sg : bytes sg → sg ≠ [] → slen (signature_text sg) ≠ 0%nat.
Proof.
  intros Hb Hne. unfold slen. rewrite <- length_bytes_of_string, signature_text_bytes by done. pose proof (length_b64_enc sg) as E.
  destruct sg as [|z sg]; [done|]. unfold BASE64_LENGTH in E. cbn [length] in E. Z.to_euclidean_division_equations. lia.
Qed.

Lemma copy_attributes_run o l contents csv d f lf :
  fragmentable o l contents → attrs_wf (k_attrs f) lf → lf.*2 ≡ₚ fragment_attrs o csv ++ l.*2 → ok d [] → isSigned d = false → k_signature d = None →
  ∃ d' l', copyAttributesToDataObject SHA_Init SHA_Update SHA_Final ctx_buf uninit_time d f = Some (Some d') ∧ ok d' l' ∧ l'.*2 = l.*2 ∧
    k_createTime d' = k_createTime o ∧ (∀ c path name, made_from SHA_Init SHA_Update SHA_Final path name c d → made_from SHA_Init SHA_Update SHA_Final path name c d') ∧
    k_signature d' = k_signature o ∧ (is_Some (k_signature o) → k_signee d' = k_signee o ∧ k_signatureStatus d' = SIGNATURE_UNVERIFIED).
Proof using Hctx.
  intros H Hwf Hp Hok Hu Hsn. destruct (fr_time _ _ _ _ _ _ H) as [Hv Ht]. unfold copyAttributesToDataObject.
  rewrite (entries_spec _ _ (aw_rep _ _ Hwf)). cbn [mbind option_bind].
  assert (Hfil : filter copied lf.*2 ≡ₚ l.*2).
  { apply (in_list_filter_perm _ (fragment_attrs o csv)); [done| |].
    - unfold fragment_attrs, signature_attrs. destruct (k_signature o); repeat (apply Forall_cons; split; [cbn [an]; intros Hn; apply Hn; in_reserved|]); constructor.
    - eapply Forall_impl; [apply (fr_attrs _ _ _ _ _ _ H)|]. by intros a [? _]. }
  assert (HT : MkAttr HAGGLE_ATTR_FRAGMENTATION_PARENT_CREATION_TIME (time_text (k_createTime o)) 0 ∈ fragment_attrs o csv).
  { unfold fragment_attrs. apply elem_of_app. right. by left. }
  destruct (copied_run (k_createTime o) lf.*2 d [] "" "" Hok) as (d1 & l1 & -> & Hok1 & Hp1 & Hs1 & Ht1).
  { cbn [fmap list_fmap]. rewrite app_nil_r. apply (distinct_perm l.*2); [done|apply (fr_ok _ _ _ _ _ _ H)]. }
  { intros a Ha E. rewrite Hp in Ha. rewrite (fragment_attr_unique SHA_Init SHA_Update SHA_Final o l contents csv _ a H HT Ha E). by apply time_text_read. }
  cbn [fmap list_fmap] in Hp1. rewrite app_nil_r in Hp1. cbn [or_null].
  assert (El1 : l1.*2 = l.*2).
  { apply (sorted_values (k_attrs d1)); [apply Hok1| |by rewrite Hp1]. apply (attrs_values_sorted (k_attrs o)), (fr_ok _ _ _ _ _ _ H). }
  assert (Et1 : k_createTime d1 = k_createTime o).
  { apply Ht1. left. eexists. split; [rewrite Hp; apply elem_of_app; left; exact HT|done]. }
  destruct (st_unsigned _ _ Hs1 Hu) as [Hu1 Hsg1].
  assert (Hmade : ∀ c path name, made_from SHA_Init SHA_Update SHA_Final path name c d → made_from SHA_Init SHA_Update SHA_Final path name c d1).
  { intros c path name Hmf. by apply (made_from_stays _ _ _ _ _ _ d). }
  destruct (k_signature o) as [sg|] eqn:Esg.
  - destruct (fr_signature _ _ _ _ _ _ H sg Esg) as (Hne & Hb & Hl & Hse).
    assert (HS : MkAttr HAGGLE_ATTR_FRAGMENTATION_PARENT_ORIG_SIGNATURE (signature_text sg) 0 ∈ fragment_attrs o csv).
    { unfold fragment_attrs, signature_attrs. rewrite Esg. by left. }
    assert (HE : MkAttr HAGGLE_ATTR_FRAGMENTATION_PARENT_ORIG_SIGNEE (k_signee o) 0 ∈ fragment_attrs o csv).
    { unfold fragment_attrs, signature_attrs. rewrite Esg. right. by left. }
    rewrite (fragment_value o l contents csv lf.*2 _ "" H Hp HS : value_of HAGGLE_ATTR_FRAGMENTATION_PARENT_ORIG_SIGNATURE _ _ = _).
    rewrite (fragment_value o l contents csv lf.*2 _ "" H Hp HE : value_of HAGGLE_ATTR_FRAGMENTATION_PARENT_ORIG_SIGNEE _ _ = _). cbn [av].
    destruct (Nat.eqb_spec (slen (k_signee o)) 0) as [E|_]; [by destruct (k_signee o)|].
    destruct (Nat.eqb_spec (slen (signature_text sg)) 0) as [E|_]; [by apply signature_text_ne in E|]. cbn [orb].
    rewrite signature_text_bytes, decode_alloc_enc by done. cbn [mbind option_bind]. eexists _, l1. split; [done|].
    split; [by apply (ok_changed (λ d, set_signature d SIGNATURE_UNVERIFIED (k_signee o) (Some sg))); [done..|apply calc_signature]|].
    split_and!; [done|done| |done|done]. intros c path name Hmf. destruct (Hmade c path name Hmf). by split.
  - rewrite !(no_signature_values o l contents csv lf.*2) by (done || (rewrite !elem_of_cons; tauto)). cbn [slen Nat.eqb orb].
    exists d1, l1. split; [done|]. split_and!; [done..|congruence|by intros []].
Qed.

Lemma make_object_run (fs : files) now path o l contents csv f lf :
  fragmentable o l contents → attrs_wf (k_attrs f) lf → lf.*2 ≡ₚ fragment_attrs o csv ++ l.*2 → path ≠ "" → fs !! path = Some contents →
  ∃ d, make_object SHA_Init SHA_Update SHA_Final ctx_buf uninit_time fs now path (k_filename o) f = Some (Some d) ∧ reassembled fs o l contents d.
Proof using Hctx.
  intros H Hwf Hp Hpath Hfs. destruct (fr_len _ _ _ _ _ _ H) as [El Hl]. unfold make_object.
  destruct (created_run SHA_Init SHA_Update SHA_Final fs now path (k_filename o) contents Hpath (fr_name _ _ _ _ _ _ H) Hfs) as (d0 & -> & Hok0 & Hm0 & Hu0 & Hs0 & _); [lia|].
  cbn [or_null]. set (d1 := set_flags d0 _ _ _).
  assert (ok d1 []) as Hok1 by (apply (ok_changed (λ d, set_flags d true (k_isNodeDesc d0) (k_controlMessage d0))); [done..|apply calc_flags]).
  destruct (copy_attributes_run o l contents csv d1 f lf H Hwf Hp Hok1) as (d2 & l2 & -> & Hok2 & El2 & Et2 & Hm2 & Hs2 & Hss2); [done..|]. cbn [or_null].
  destruct (Hm2 contents path (k_filename o)) as [(E1 & E2 & E3) [E4 E5] [E6 E7]]; [by destruct Hm0|].
  rewrite (restore_plain _ _ _ d2 l2); [|apply Hok2|]. 2: { rewrite El2. eapply Forall_impl; [apply (fr_attrs _ _ _ _ _ _ H)|]. by intros a [_ ?]. }
  cbn [mbind option_bind]. exists d2. split; [done|]. split.
  - rewrite E1, E2, E3. by rewrite El.
  - by exists l2.
  - done.
  - done.
  - done.
  - intros Hvo Hho. apply (same_id o l d2 l2 contents); try done; [apply (fr_ok _ _ _ _ _ _ H)|apply (fr_plain _ _ _ _ _ _ H)|].
    unfold dataIsVerifiable. by rewrite E5.
Qed.
End Object.

(** ** A fragment comes in *)

Definition same_core (st st' : FragmentationDecoderStorage) : Prop := ds_decoders st' = ds_decoders st ∧ ds_numbers st' = ds_numbers st.
Lemma struct_run st now id : isValid now = true → ∃ st', getFragmentDecoderStruct st now id = Some (ds_decoders st !! id, st') ∧ same_core st st'.
Proof.
  intros Hv. unfold getFragmentDecoderStruct, trackDecoderLastUsedTime. destruct (ds_decoders st !! id); [|by exists st].
  rewrite getAsString_valid by done. cbn [mbind option_bind]. by eexists.
Qed.
Lemma completed_run st now id : isValid now = true →
  ∃ st', isCompleted st now id = Some (match ds_decoders st !! id with None => false | Some d => segmentsRemaining d =? 0 end, st') ∧ same_core st st'.
Proof. intros Hv. unfold isCompleted. destruct (struct_run st now id Hv) as (st' & -> & Hc). cbn [mbind option_bind]. by exists st'. Qed.
Lemma assembling_core contents b id path L st st' fs D : assembling contents b id path L st fs D → same_core st st' → assembling contents b id path L st' fs D.
Proof. intros [? ? ? ? ?] [E1 E2]. split; [by rewrite E1|by rewrite E2|done..]. Qed.

Section Delivery.
Context {SHA_CTX : Type} (SHA_Init : SHA_CTX) (SHA_Update : SHA_CTX → list Z → SHA_CTX) (SHA_Final : SHA_CTX → list Z).
Context (ctx_buf : list Z) (Hctx : length ctx_buf = 4%nat) (uninit_time : Timeval) (storagepath : string) (can_write : string → bool).
Abbreviation fragmentable := (fragmentable SHA_Init SHA_Update SHA_Final).
Abbreviation reassembled := (reassembled SHA_Init SHA_Update SHA_Final).
Abbreviation decode := (decode SHA_Init SHA_Update SHA_Final ctx_buf uninit_time storagepath can_write).
Abbreviation recon o timestamp := (reconstructedFile storagepath (k_filename o) timestamp).

Context (o : kdobj) (l : list (string * attr)) (contents : list Z) (b : Z) (fragment_path : string → Prop).
Abbreviation len := (Z.of_nat (length contents)).
Abbreviation total := (ceil_div len b).
Hypothesis Ho : fragmentable o l contents.
Hypothesis Hb : 0 < b < 2 ^ 52.

Inductive awaiting (L : gset Z) (st : FragmentationDecoderStorage) (fs : files) (D : gset Z) : Prop :=
  | awaiting_fresh : ds_decoders st !! k_idStr o = None → default ∅ (ds_numbers st !! k_idStr o) = L → L ⊆ all_numbers total → D = L → awaiting L st fs D
  | awaiting_begun path : assembling contents b (k_idStr o) path L st fs D → ¬ fragment_path path → path ≠ "" → awaiting L st fs D.

(** What comes in: a fragment with some consecutive pieces, at a time with a file name to use. *)
Record comes (fs : files) (now : Timeval) (timestamp : string) (f : kdobj) (ns : list Z) : Prop := Comes
  { co_fragment : fragment_of fs o l contents b ns f;
    co_numbers : ∃ start count, ns = numbers start count ∧ Z.of_nat (start + count) <= total;
    co_path : fragment_path (k_filepath f);
    co_time : isValid now = true;
    co_recon : can_write (recon o timestamp) = true ∧ ¬ fragment_path (recon o timestamp) }.

Lemma sizes_ok : 0 < len < 2 ^ 52 ∧ 0 < b < 2 ^ 52.
Proof using All. destruct (fr_len _ _ _ _ _ _ Ho). lia. Qed.
Lemma recon_ne timestamp : recon o timestamp ≠ "".
Proof. unfold reconstructedFile. by destruct storagepath. Qed.

Lemma comes_numbers fs now timestamp f ns : comes fs now timestamp f ns →
  Forall (λ n, n ∈ all_numbers total) ns ∧ Z.of_nat (length (concat (piece contents b <$> ns))) < 2 ^ 63 ∧ Forall (Z.le 0) ns.
Proof using All.
  intros [_ (start & count & -> & Hc) _ _ _]. pose proof sizes_ok.
  assert (Hr : Forall (λ n, 1 <= n <= total) (numbers start count)).
  { apply Forall_fmap, Forall_forall. intros i Hi%elem_of_seq. cbn. lia. }
  split; [|split].
  - eapply Forall_impl; [exact Hr|]. intros n. by rewrite elem_of_all.
  - rewrite pieces_concat, length_take, length_drop by lia. match goal with |- Z.of_nat (Nat.min ?x (_ - ?y)) < _ => generalize x y end. lia.
  - eapply Forall_impl; [exact Hr|]. intros n Hn. cbn beta in Hn. lia.
Qed.

Lemma assembling_new L st (fs : files) timestamp : default ∅ (ds_numbers st !! k_idStr o) = L → L ⊆ all_numbers total →
  assembling contents b (k_idStr o) (recon o timestamp) L
    (set_decoders st (<[k_idStr o := DecoderStruct (recon o timestamp) len total]> (ds_decoders st))) (<[recon o timestamp := replicate (length contents) 0]> fs) L.
Proof.
  intros Hn HL. split.
  - cbn. rewrite lookup_insert_eq. do 2 f_equal. lia.
  - done.
  - done.
  - done.
  - eexists. split; [by apply lookup_insert_eq|]. split; [by rewrite length_replicate|]. set_solver.
Qed.

Lemma add_fragment_run L st fs D now timestamp f ns :
  awaiting L st fs D → comes fs now timestamp f ns →
  ∃ st' fs' path, addFragment storagepath can_write st fs now timestamp f b = Some (true, st', fs') ∧
    assembling contents b (k_idStr o) path L st' fs' (list_to_set ns ∪ D) ∧ ¬ fragment_path path ∧ path ≠ "" ∧ (∀ q, fragment_path q → fs' !! q = fs !! q).
Proof using All.
  intros Ha Hc. destruct (comes_numbers _ _ _ _ _ Hc) as (Hns & Hlen & Hpos). pose proof Hc as [Hf _ Hp Hv [Hw Hr]]. pose proof sizes_ok as Hs.
  unfold addFragment. rewrite (info_run SHA_Init SHA_Update SHA_Final fs o l contents b ns f Ho Hf Hpos). cbn [mbind option_bind i_fileSize i_dataObjectId i_sequenceNumberList i_fileName].
  assert (∃ path st1 fs1, ('(found, st) ← getFragmentDecoderStruct st now (k_idStr o);
      match found with
      | Some d => Some (true, filePath d, st, fs)
      | None =>
        total ← calculateTotalNumberOfFragments len b;
        st ← trackDecoderLastUsedTime (set_decoders st (<[k_idStr o := DecoderStruct (recon o timestamp) len total]> (ds_decoders st))) now (k_idStr o);
        '(ok, fs) ← allocateFile can_write fs (recon o timestamp) len;
        Some (ok, recon o timestamp, st, fs)
      end) = Some (true, path, st1, fs1) ∧
    assembling contents b (k_idStr o) path L st1 fs1 D ∧ ¬ fragment_path path ∧ path ≠ "" ∧ (∀ q, fragment_path q → fs1 !! q = fs !! q)) as (path & st1 & fs1 & E & Has & Hnp & Hne & Ho1).
  { destruct (struct_run st now (k_idStr o) Hv) as (st1 & -> & Hc1). cbn [mbind option_bind]. destruct Ha as [Hd Hn HL ->|path Has Hnp Hne].
    - rewrite Hd, total_run by lia. cbn [mbind option_bind]. unfold trackDecoderLastUsedTime. rewrite getAsString_valid by done. cbn [mbind option_bind].
      unfold allocateFile. rewrite Hw, alloc_small, Nat2Z.id by lia. cbn [mbind option_bind]. eexists _, _, _. split; [done|]. destruct Hc1 as [Ec1 Ec2]. split; [|split; [done|split; [apply recon_ne|]]].
      + eapply assembling_core; [apply (assembling_new L st1); [by rewrite Ec2|done]|done].
      + intros q Hq. apply lookup_insert_ne. by intros <-.
    - rewrite (as_struct _ _ _ _ _ _ _ _ Has). eexists _, _, _. split; [done|]. split; [by eapply assembling_core|]. done. }
  destruct (getFragmentDecoderStruct st now (k_idStr o)) as [[found st0]|]; [|done]. cbn [mbind option_bind] in E |- *. rewrite E. clear E. cbn [mbind option_bind negb].
  assert (default ∅ (ds_numbers st !! k_idStr o) = D) as -> by (destruct Ha as [_ Hn _ ->|? [_ Hn _ _ _] _ _]; exact Hn).
  destruct (add_loop_run contents b (k_idStr o) path L Hs (k_filepath f) ns [] st1 fs1 D Has) as (st2 & fs2 & E & Has2 & Ho2); [by intros ->| |done|done|].
  { rewrite Ho1 by done. apply Hf. }
  cbn [fmap list_fmap concat length] in E. change (Z.of_nat 0) with 0 in E. rewrite E. cbn [mbind option_bind negb].
  unfold trackDecoderLastUsedTime. rewrite getAsString_valid by done. cbn [mbind option_bind]. eexists _, _, path. split; [done|].
  split; [by eapply assembling_core|]. split; [done|]. split; [done|]. intros q Hq. rewrite Ho2 by (by intros ->). by apply Ho1.
Qed.

Lemma awaiting_core L st st' fs D : awaiting L st fs D → same_core st st' → awaiting L st' fs D.
Proof.
  intros Ha [E1 E2]. destruct Ha as [? ? ? ?|path ? ? ?]; [apply awaiting_fresh; [by rewrite E1|by rewrite E2|done|done]|apply (awaiting_begun _ _ _ _ path); [|done..]].
  by eapply assembling_core.
Qed.

Lemma complete_iff D : D ⊆ all_numbers total → (total - Z.of_nat (size D) =? 0) = bool_decide (D = all_numbers total).
Proof using All.
  intros Hsub. pose proof (total_pos contents b sizes_ok) as Ht. pose proof (size_all total ltac:(lia)) as Hs. case_bool_decide as E.
  - rewrite E. apply Z.eqb_eq. lia.
  - apply Z.eqb_neq. intros E'. apply E. apply set_subseteq_size_eq; [done|]. lia.
Qed.

(** What is there after a fragment, and whether it was the one that completed the object. *)
Definition completes (D D' : gset Z) : bool := bool_decide (D ≠ all_numbers total) && bool_decide (D' = all_numbers total).

Lemma awaiting_incomplete st fs D : awaiting ∅ st fs D →
  match ds_decoders st !! k_idStr o with None => false | Some d => segmentsRemaining d =? 0 end = bool_decide (D = all_numbers total).
Proof using All.
  intros [-> _ _ ->|path [-> _ Hr _ _] _ _]; [|cbn [segmentsRemaining]; rewrite size_empty, Z.add_0_r; by apply complete_iff]. symmetry. apply bool_decide_eq_false. intros E.
  pose proof (total_pos contents b sizes_ok) as Ht. pose proof (size_all total ltac:(lia)) as Hs. rewrite <- E, size_empty in Hs. lia.
Qed.

Lemma fragment_decoded st fs D now timestamp f ns :
  awaiting ∅ st fs D → comes fs now timestamp f ns →
  ∃ r st' fs', decode st fs now timestamp f b = Some (r, st', fs') ∧ awaiting ∅ st' fs' (list_to_set ns ∪ D) ∧
    (∀ q, fragment_path q → fs' !! q = fs !! q) ∧ (D = all_numbers total → fs' = fs) ∧
    if completes D (list_to_set ns ∪ D) then ∃ d, r = Some d ∧ reassembled fs' o l contents d else r = None.
Proof using All.
  intros Ha Hc. destruct (comes_numbers _ _ _ _ _ Hc) as (Hns & _ & Hpos). pose proof Hc as [Hf _ Hp Hv _].
  unfold Reassembly.decode. rewrite (info_run SHA_Init SHA_Update SHA_Final fs o l contents b ns f Ho Hf Hpos). cbn [mbind option_bind i_dataObjectId i_fileName].
  destruct (completed_run st now (k_idStr o) Hv) as (st1 & -> & Hc1). rewrite (awaiting_incomplete st fs D Ha). cbn [mbind option_bind].
  pose proof (awaiting_core ∅ st st1 fs D Ha Hc1) as Ha1.
  unfold completes. destruct (bool_decide_reflect (D = all_numbers total)) as [->|HD].
  { rewrite bool_decide_false by naive_solver. exists None, st1, fs. split; [done|]. split; [|done].
    replace (list_to_set ns ∪ all_numbers total) with (all_numbers total); [done|]. apply set_eq. intros n. rewrite elem_of_union, elem_of_list_to_set.
    rewrite Forall_forall in Hns. naive_solver. }
  rewrite (bool_decide_true (D ≠ _)) by done. cbn [andb].
  destruct (add_fragment_run ∅ st1 fs D now timestamp f ns Ha1 Hc) as (st2 & fs2 & path & -> & Has2 & Hnp & Hne & Ho2). cbn [mbind option_bind negb].
  destruct (completed_run st2 now (k_idStr o) Hv) as (st3 & -> & Hc3). rewrite (as_struct _ _ _ _ _ _ _ _ Has2). cbn [mbind option_bind segmentsRemaining].
  rewrite size_empty, Z.add_0_r, complete_iff by apply Has2. pose proof (assembling_core _ _ _ _ _ _ st3 _ _ Has2 Hc3) as Has3.
  destruct (bool_decide_reflect (list_to_set ns ∪ D = all_numbers total)) as [E|E]; cbn [negb].
  2: { exists None, st3, fs2. split; [done|]. split; [by apply (awaiting_begun _ _ _ _ path)|]. done. }
  destruct (struct_run st3 now (k_idStr o) Hv) as (st4 & -> & Hc4). rewrite (as_struct _ _ _ _ _ _ _ _ Has3). cbn [mbind option_bind filePath].
  destruct (fo_attrs _ _ _ _ _ _ _ Hf) as (lf & Hwf & Hpf).
  assert (fs2 !! path = Some contents) as Hfile by (apply (assembled contents b (k_idStr o) path st2 fs2 sizes_ok); by rewrite <- E).
  destruct (make_object_run SHA_Init SHA_Update SHA_Final ctx_buf Hctx uninit_time fs2 now path o l contents (joined ns) f lf Ho Hwf Hpf Hne Hfile) as (d & -> & Hre).
  cbn [mbind option_bind]. unfold trackReconstructedDataObject. rewrite getAsString_valid by done. cbn [mbind option_bind].
  eexists (Some d), _, fs2. split; [done|]. split; [|split; [done|split; [done|by exists d]]]. apply (awaiting_begun _ _ _ _ path); [|done..].
  apply (assembling_core _ _ _ _ _ st4); [|done]. by eapply assembling_core.
Qed.

(** Fragments that come in one after the other, in any order and any number of times: the object
    comes out with the fragment that was the last one missing. *)
Fixpoint outcome (D : gset Z) (nss : list (list Z)) (rs : list (option kdobj)) (good : kdobj → Prop) : Prop :=
  match nss, rs with
  | [], [] => True
  | ns :: nss, r :: rs =>
    (if completes D (list_to_set ns ∪ D) then ∃ d, r = Some d ∧ good d else r = None) ∧ outcome (list_to_set ns ∪ D) nss rs good
  | _, _ => False
  end.

Lemma comes_later (fs fs' : files) now timestamp f ns : comes fs now timestamp f ns → (∀ q, fragment_path q → fs' !! q = fs !! q) → comes fs' now timestamp f ns.
Proof. intros [[Ha Hf] ? Hp ? ?] He. split; [split; [done|by rewrite He]|done..]. Qed.

Lemma decode_all_run ds nss : ∀ st fs D,
  awaiting ∅ st fs D → Forall2 (λ x ns, comes fs x.1.1 x.1.2 x.2 ns) ds nss →
  ∃ rs st' fs', decode_all SHA_Init SHA_Update SHA_Final ctx_buf uninit_time storagepath can_write ds b st fs = Some (rs, st', fs') ∧
    awaiting ∅ st' fs' (list_to_set (concat nss) ∪ D) ∧ (∀ q, fragment_path q → fs' !! q = fs !! q) ∧
    (D = all_numbers total → fs' = fs) ∧ outcome D nss rs (reassembled fs' o l contents).
Proof using All.
  revert nss. induction ds as [|[[now timestamp] f] ds IH]; intros nss st fs D Ha Hc.
  - apply Forall2_nil_inv_l in Hc as ->. exists [], st, fs. cbn. by rewrite union_empty_l_L.
  - apply Forall2_cons_inv_l in Hc as (ns & nss' & Hx & Hc & ->). cbn [fst snd] in Hx. cbn [decode_all].
    destruct (fragment_decoded st fs D now timestamp f ns Ha Hx) as (r & st1 & fs1 & -> & Ha1 & Ho1 & Hsame1 & Hr). cbn [mbind option_bind].
    destruct (IH nss' st1 fs1 (list_to_set ns ∪ D) Ha1) as (rs & st2 & fs2 & -> & Ha2 & Ho2 & Hsame2 & Hrs).
    { eapply Forall2_impl; [exact Hc|]. intros x ns' Hx'. by apply (comes_later fs). }
    cbn [mbind option_bind]. exists (r :: rs), st2, fs2. split; [done|]. split.
    { cbn [concat]. rewrite list_to_set_app_L. replace (list_to_set ns ∪ list_to_set (concat nss') ∪ D) with (list_to_set (concat nss') ∪ (list_to_set ns ∪ D)); [done|].
      set_solver. }
    split; [intros q Hq; rewrite Ho2 by done; by apply Ho1|]. split; [|split; [|done]].
    + intros HD. rewrite Hsame2, Hsame1; [done..|]. rewrite HD. destruct (comes_numbers _ _ _ _ _ Hx) as (Hns & _). apply set_eq. intros n.
      rewrite elem_of_union, elem_of_list_to_set. rewrite Forall_forall in Hns. naive_solver.
    + unfold completes in *. destruct (bool_decide_reflect (list_to_set ns ∪ D = all_numbers total)) as [E|]; [|by rewrite andb_false_r in *].
      by rewrite (Hsame2 E).
Qed.

(** ** An object that was given up *)

Lemma lost_incomplete L st fs D : L ≠ ∅ → awaiting L st fs D →
  match ds_decoders st !! k_idStr o with None => false | Some d => segmentsRemaining d =? 0 end = false.
Proof using All.
  intros HL [-> _ _ _|path [-> _ Hr _ _] _ _]; [done|]. cbn [segmentsRemaining]. apply Z.eqb_neq.
  pose proof (total_pos contents b sizes_ok) as Ht. pose proof (size_all total ltac:(lia)) as Hs. pose proof (subseteq_size _ _ Hr).
  assert (size L ≠ 0%nat) by (intros E; by apply size_empty_inv, leibniz_equiv in E). lia.
Qed.
Lemma decode_lost L st fs D now timestamp f ns :
  L ≠ ∅ → awaiting L st fs D → comes fs now timestamp f ns →
  ∃ st' fs', decode st fs now timestamp f b = Some (None, st', fs') ∧ awaiting L st' fs' (list_to_set ns ∪ D) ∧ (∀ q, fragment_path q → fs' !! q = fs !! q).
Proof using All.
  intros HL Ha Hc. destruct (comes_numbers _ _ _ _ _ Hc) as (Hns & _ & Hpos). pose proof Hc as [Hf _ Hp Hv _].
  unfold Reassembly.decode. rewrite (info_run SHA_Init SHA_Update SHA_Final fs o l contents b ns f Ho Hf Hpos). cbn [mbind option_bind i_dataObjectId i_fileName].
  destruct (completed_run st now (k_idStr o) Hv) as (st1 & -> & Hc1). rewrite (lost_incomplete L st fs D HL Ha). cbn [mbind option_bind].
  destruct (add_fragment_run L st1 fs D now timestamp f ns (awaiting_core L st st1 fs D Ha Hc1) Hc) as (st2 & fs2 & path & -> & Has2 & Hnp & Hne & Ho2). cbn [mbind option_bind negb].
  destruct (completed_run st2 now (k_idStr o) Hv) as (st3 & -> & Hc3). pose proof (assembling_core _ _ _ _ _ _ st3 _ _ Has2 Hc3) as Has3.
  rewrite (lost_incomplete L st2 fs2 (list_to_set ns ∪ D) HL) by by apply (awaiting_begun _ _ _ _ path). cbn [mbind option_bind negb].
  exists st3, fs2. split; [done|]. split; [by apply (awaiting_begun _ _ _ _ path)|done].
Qed.
Lemma decode_all_lost L ds : ∀ nss st fs D,
  L ≠ ∅ → awaiting L st fs D → Forall2 (λ x ns, comes fs x.1.1 x.1.2 x.2 ns) ds nss →
  ∃ rs st' fs', decode_all SHA_Init SHA_Update SHA_Final ctx_buf uninit_time storagepath can_write ds b st fs = Some (rs, st', fs') ∧
    length rs = length ds ∧ Forall (.= None) rs.
Proof using All.
  induction ds as [|[[now timestamp] f] ds IH]; intros nss st fs D HL Ha Hc; [by exists [], st, fs|].
  apply Forall2_cons_inv_l in Hc as (ns & nss' & Hx & Hc & ->). cbn [fst snd] in Hx. cbn [decode_all].
  destruct (decode_lost L st fs D now timestamp f ns HL Ha Hx) as (st1 & fs1 & -> & Ha1 & Ho1). cbn [mbind option_bind].
  destruct (IH nss' st1 fs1 (list_to_set ns ∪ D) HL Ha1) as (rs & st2 & fs2 & -> & Hl & Hrs).
  { eapply Forall2_impl; [exact Hc|]. intros x ns' Hx'. by apply (comes_later fs). }
  cbn [mbind option_bind]. exists (None :: rs), st2, fs2. split; [done|]. split; [cbn; by rewrite Hl|by constructor].
Qed.

Lemma expire_run L st fs D path now : assembling contents b (k_idStr o) path L st fs D → total - Z.of_nat (size D) + Z.of_nat (size L) ≠ 0 → isValid now = true →
  ∃ ids st', expire st fs now (k_idStr o) = Some (ids, st', delete path fs) ∧
    ds_decoders st' = delete (k_idStr o) (ds_decoders st) ∧ ds_numbers st' = ds_numbers st.
Proof using All.
  intros Has Hne Hv. unfold expire, deleteDecoderFromStorageByDataObjectId, cleanUpPartialReconstructedObject.
  destruct (completed_run st now (k_idStr o) Hv) as (st1 & -> & [E1 E2]). rewrite (as_struct _ _ _ _ _ _ _ _ Has). cbn [mbind option_bind segmentsRemaining].
  rewrite (proj2 (Z.eqb_neq _ _) Hne). destruct (struct_run st1 now (k_idStr o) Hv) as (st2 & -> & [E3 E4]).
  rewrite E1, (as_struct _ _ _ _ _ _ _ _ Has). cbn [mbind option_bind filePath]. unfold disposeAssociatedFragments.
  destruct (default [] _) as [|fid ids]; eexists _, _; (split; [done|]); cbn; by rewrite E3, E1, E4, E2.
Qed.

(** C27: an object of which some fragments, but not all, had come in when its decoder was given up for
    its age never comes out any more: the numbers of the fragments that were written to the
    deleted file still count as seen, so that they are skipped when they come again, and however
    often all fragments come in, every answer is NULL.  ([deleteFromStorage] forgets the numbers
    too; [ageOffDecoder] does not.) *)
Theorem expired_object_lost st fs path D now ds nss :
  assembling contents b (k_idStr o) path ∅ st fs D → D ≠ ∅ → D ≠ all_numbers total → isValid now = true →
  ∃ ids st1, expire st fs now (k_idStr o) = Some (ids, st1, delete path fs) ∧
  (Forall2 (λ x ns, comes (delete path fs) x.1.1 x.1.2 x.2 ns) ds nss →
   ∃ rs st2 fs2, decode_all SHA_Init SHA_Update SHA_Final ctx_buf uninit_time storagepath can_write ds b st1 (delete path fs) = Some (rs, st2, fs2) ∧
     length rs = length ds ∧ Forall (.= None) rs).
Proof using All.
  intros Has HD Hall Hv. pose proof (as_range _ _ _ _ _ _ _ _ Has) as Hr.
  destruct (expire_run ∅ st fs D path now Has) as (ids & st1 & E & E1 & E2); [|done|].
  { rewrite size_empty, Z.add_0_r. apply Z.eqb_neq. rewrite complete_iff by done. by apply bool_decide_eq_false. }
  exists ids, st1. split; [exact E|]. intros Hc. apply (decode_all_lost D ds nss st1 (delete path fs) D HD); [|done].
  apply awaiting_fresh; [by rewrite E1, lookup_delete_eq|by rewrite E2, (as_numbers _ _ _ _ _ _ _ _ Has)|done|done].
Qed.
End Delivery.

Lemma outcome_some all D nss rs (good : kdobj → Prop) contents b :
  all = all_numbers (ceil_div (Z.of_nat (length contents)) b) → outcome contents b D nss rs good → D ≠ all → list_to_set (concat nss) ∪ D = all →
  Forall (λ ns, list_to_set ns ⊆ all) nss → ∃ d, Some d ∈ rs ∧ good d.
Proof.
  intros ->. revert D rs. induction nss as [|ns nss IH]; intros D [|r rs] Ho HD E Hns; try done.
  { cbn in E. by rewrite union_empty_l_L in E. }
  apply Forall_cons in Hns as [Hn Hns]. destruct Ho as [Hr Ho]. unfold completes in Hr. rewrite (bool_decide_true (D ≠ _)) in Hr by done. cbn [andb] in Hr.
  case_bool_decide.
  - destruct Hr as (d & -> & Hd). exists d. split; [by left|done].
  - destruct (IH _ rs Ho) as (d & Hin & Hd); [done| |done|exists d; split; [by right|done]].
    rewrite <- E. cbn [concat]. rewrite list_to_set_app_L. set_solver.
Qed.

(** ** From one node to the other *)

Section Roundtrip.
Context {SHA_CTX : Type} (SHA_Init : SHA_CTX) (SHA_Update : SHA_CTX → list Z → SHA_CTX) (SHA_Final : SHA_CTX → list Z).
Context (ctx_buf : list Z) (Hctx : length ctx_buf = 4%nat) (uninit_time : Timeval).
Context (sender_path storagepath : string) (sender_can_write can_write : string → bool).
Context (o : kdobj) (l : list (string * attr)) (contents : list Z) (b perObject : Z).
Abbreviation encode := (encodeDataObject SHA_Init SHA_Update SHA_Final uninit_time sender_path sender_can_write perObject).
Abbreviation total := (ceil_div (Z.of_nat (length contents)) b).

(** The object [f] and its file are those the sender made when it encoded from the index [start]. *)
Inductive sent_from (start : nat) (fs : files) (f : kdobj) : Prop :=
  | sent_from_encoded st fs0 now timestamp f0 st' fs0' lf lf' :
      fs0 !! k_filepath o = Some contents → createFragmentFileName sender_path (k_filename o) timestamp ≠ k_filepath o →
      encode st fs0 now timestamp o (Z.of_nat start) b = Some (Some f0, st', fs0') →
      attrs_wf (k_attrs f0) lf → attrs_wf (k_attrs f) lf' → lf'.*2 = lf.*2 → fs !! k_filepath f = fs0' !! k_filepath f0 → sent_from start fs f.

Lemma attrs_wf_unique m k k' : attrs_wf m k → attrs_wf m k' → k = k'.
Proof. intros H H'. pose proof (entries_spec _ _ (aw_rep _ _ H)) as E. rewrite (entries_spec _ _ (aw_rep _ _ H')) in E. by injection E. Qed.

Lemma sent_fragment start fs f :
  fragmentable SHA_Init SHA_Update SHA_Final o l contents → 0 < b < 2 ^ 52 → sent_from start fs f →
  fragment_of fs o l contents b (fragment_numbers perObject total start) f.
Proof.
  intros Ho Hb [st fs0 now timestamp f0 st' fs0' lf lf' Hfile Hne E Hwf Hwf' El Ef].
  destruct (fr_len _ _ _ _ _ _ Ho) as [Elen _]. destruct (fr_plain _ _ _ _ _ _ Ho) as [Hpl _].
  destruct (sender_can_write (createFragmentFileName sender_path (k_filename o) timestamp)) eqn:Ew.
  - destruct (fragment_encoded SHA_Init SHA_Update SHA_Final uninit_time sender_path sender_can_write perObject st fs0 now timestamp o l contents start b Ho Hfile Hb Ew Hne)
      as (f1 & E1 & [(lf1 & Hwf1 & Hp1) Hfi] & Epath & _). rewrite Elen in E1, Hp1, Hfi. rewrite E in E1. injection E1 as -> _ ->. split.
    + exists lf'. split; [done|]. by rewrite El, (attrs_wf_unique _ _ _ Hwf Hwf1).
    + by rewrite Ef.
  - exfalso. unfold encodeDataObject in E. assert (getFilePath o = k_filepath o) as Ep by (unfold getFilePath; by rewrite Hpl).
    rewrite Ep, Hfile, Ew in E. done.
Qed.

(** The indexes of one round of [getAllFragmentsForDataObject]. *)
Lemma all_sent starts : 0 < perObject → 0 < total →
  (∀ i : nat, Z.of_nat i * perObject < total → (i * Z.to_nat perObject)%nat ∈ starts) →
  all_numbers total ⊆ list_to_set (concat (fragment_numbers perObject total <$> starts)).
Proof.
  intros Hp Ht Hall n Hn%elem_of_all. apply elem_of_list_to_set.
  pose proof (Z.div_mod (n - 1) perObject ltac:(lia)) as Hdm. pose proof (Z.mod_pos_bound (n - 1) perObject Hp) as Hmod.
  assert (0 <= (n - 1) / perObject) as Hq by (apply Z.div_pos; lia). set (i := Z.to_nat ((n - 1) / perObject)).
  assert (Hi : Z.of_nat i = (n - 1) / perObject) by lia.
  assert (Hin : (i * Z.to_nat perObject)%nat ∈ starts) by (apply Hall; rewrite Hi; nia).
  assert (Hsub : n ∈ fragment_numbers perObject total (i * Z.to_nat perObject)).
  { unfold fragment_numbers, numbers. apply list_elem_of_fmap. exists (Z.to_nat n). split; [lia|]. apply elem_of_seq.
    assert (Z.of_nat (i * Z.to_nat perObject) = perObject * ((n - 1) / perObject)) by (rewrite Nat2Z.inj_mul; lia). lia. }
  clear -Hin Hsub. induction starts as [|s starts IH]; [by apply not_elem_of_nil in Hin|]. cbn [fmap list_fmap concat]. apply elem_of_app.
  apply elem_of_cons in Hin as [<-|Hin]; [by left|right; by apply IH].
Qed.

(** C4: a data object that is sent in fragments arrives: the fragments the encoder makes of an object
    with a file of 1 byte to 2 GB, whatever the fragment size and however many of them it puts into
    one data object, may come in in any order, any number of times, with others lost - the decoder
    answers NULL until the last missing piece is there, then with the object, and with NULL again
    afterwards.  The object has the original's contents, file name, attributes, creation time, signature and
    signee, and - where the original's hash is that of its file - the original's identifier; and it comes out as soon as
    every index of the encoder's loop has been seen. *)
Theorem fragmentation_roundtrip ds starts st fs :
  fragmentable SHA_Init SHA_Update SHA_Final o l contents → 0 < b < 2 ^ 52 → 0 < perObject →
  ds_decoders st !! k_idStr o = None → ds_numbers st !! k_idStr o = None →
  Forall2 (λ x start, Z.of_nat start < total ∧ sent_from start fs x.2 ∧ isValid x.1.1 = true ∧
                      can_write (reconstructedFile storagepath (k_filename o) x.1.2) = true) ds starts →
  (∀ x y, x ∈ ds → y ∈ ds → reconstructedFile storagepath (k_filename o) x.1.2 ≠ k_filepath y.2) →
  ∃ rs st' fs', decode_all SHA_Init SHA_Update SHA_Final ctx_buf uninit_time storagepath can_write ds b st fs = Some (rs, st', fs') ∧
    outcome contents b ∅ (fragment_numbers perObject total <$> starts) rs (reassembled SHA_Init SHA_Update SHA_Final fs' o l contents) ∧
    ((∀ i : nat, Z.of_nat i * perObject < total → (i * Z.to_nat perObject)%nat ∈ starts) →
     ∃ d, Some d ∈ rs ∧ reassembled SHA_Init SHA_Update SHA_Final fs' o l contents d).
Proof using Hctx.
  intros Ho Hb Hp Hd Hn Hds Hne. set (fpath q := ∃ y, y ∈ ds ∧ k_filepath y.2 = q).
  assert (Hsz : 0 < Z.of_nat (length contents) < 2 ^ 52 ∧ 0 < b < 2 ^ 52) by (destruct (fr_len _ _ _ _ _ _ Ho); lia).
  pose proof (total_pos contents b Hsz) as Ht.
  assert (Hc : Forall2 (λ x ns, comes storagepath can_write o l contents b fpath fs x.1.1 x.1.2 x.2 ns) ds (fragment_numbers perObject total <$> starts)).
  { apply Forall2_fmap_r, Forall2_same_length_lookup. split; [by apply Forall2_length in Hds|]. intros i x start Hx Hs.
    destruct (Forall2_lookup_lr _ _ _ _ _ _ Hds Hx Hs) as (Hlt & Hsent & Hv & Hw). apply list_elem_of_lookup_2 in Hx. split; [by apply sent_fragment| | |done|].
    - exists start. eexists. split; [done|]. lia.
    - by exists x.
    - split; [done|]. intros (y & Hy & E). by apply (Hne x y). }
  destruct (decode_all_run SHA_Init SHA_Update SHA_Final ctx_buf Hctx uninit_time storagepath can_write o l contents b fpath Ho Hb ds (fragment_numbers perObject total <$> starts) st fs ∅) as (rs & st' & fs' & E & _ & _ & _ & Hout).
  { apply awaiting_fresh; [done|by rewrite Hn|set_solver|done]. }
  { exact Hc. }
  exists rs, st', fs'. split; [exact E|]. split; [exact Hout|]. intros Hall.
  assert (Hin : Forall (λ ns : list Z, list_to_set ns ⊆ all_numbers total) (fragment_numbers perObject total <$> starts)).
  { apply Forall_forall. intros ns (i & Hi)%list_elem_of_lookup. destruct (Forall2_lookup_r _ _ _ _ _ Hc Hi) as (x & Hx & Hcx).
    destruct (comes_numbers SHA_Init SHA_Update SHA_Final ctx_buf Hctx uninit_time storagepath can_write o l contents b fpath Ho Hb _ _ _ _ _ Hcx) as [Hns _].
    intros n Hin%elem_of_list_to_set. rewrite Forall_forall in Hns. by apply Hns. }
  apply (outcome_some (all_numbers total) ∅ _ rs _ contents b eq_refl Hout); [| |done].
  - intros E0. pose proof (size_all total ltac:(lia)) as Hs. rewrite <- E0, size_empty in Hs. lia.
  - rewrite union_empty_r_L. apply (anti_symm (⊆)); [|by apply all_sent; [|lia|]].
    intros n Hn'%elem_of_list_to_set. revert Hn'. clear -Hin. intros Hn'. induction Hin as [|ns nss Hns _ IH]; [by apply not_elem_of_nil in Hn'|].
    cbn [concat] in Hn'. apply elem_of_app in Hn' as [Hn'|Hn']; [|by apply IH]. apply Hns. by apply elem_of_list_to_set.
Qed.
End Roundtrip.

(** ** A file of five bytes in three fragments *)

Definition ex_original : option kdobj :=
  d ← create_from_file ex_ctx ex_update fips_sha1 ex_fr_files ex_now "/d/a.jpg" ""; d ← (d : option kdobj);
  '(_, d) ← addAttribute ex_ctx ex_update fips_sha1 d (MkAttr "A" "x" 1); Some (set_signature d SIGNATURE_VALID "node" (Some [9; 8; 7])).
Definition ex_fragment (start : Z) : option (kdobj * files) :=
  o ← ex_original;
  '(f, _, fs) ← encodeDataObject ex_ctx ex_update fips_sha1 (TV 7 7) "/s" (λ _, true) 1 encoder_storage_new ex_fr_files ex_now (dec start) o start 2;
  f ← (f : option kdobj); Some (f, fs).
(** The fragments with the indexes, and a node that has their files. *)
Fixpoint ex_fragments (starts : list Z) : option (list (Timeval * string * kdobj) * files) :=
  match starts with
  | [] => Some ([], ∅)
  | n :: starts => '(f, fs) ← ex_fragment n; '(l, fs') ← ex_fragments starts; Some ((ex_now, "r" +:+ dec n, f) :: l, fs ∪ fs')
  end.
Definition ex_decode := decode_all ex_ctx ex_update fips_sha1 [0; 0; 0; 0] (TV 7 7) "/r" (λ _, true).
Definition ex_summary (fs : files) (r : option kdobj) : option (string * list Z * option (list Z) * option (list Z)) :=
  d ← r; Some (k_filename d, k_id d, k_signature d, fs !! k_filepath d).

Example three_fragments :
  (o ← ex_original; '(ds, fs) ← ex_fragments [2; 0; 0; 1; 2]; '(rs, _, fs') ← ex_decode ds 2 decoder_storage_new fs;
   Some (bool_decide (map (ex_summary fs') rs = [None; None; None; Some ("a.jpg", k_id o, Some [9; 8; 7], Some [1; 2; 3; 4; 5]); None]))) = Some true.
Proof. vm_compute. reflexivity. Qed.

(** Given up after the first fragment, the object does not come out again: one number is always missing. *)
Example expired_example :
  (o ← ex_original; '(ds, fs) ← ex_fragments [0; 1; 2; 0; 1; 2]; '(_, st1, fs1) ← ex_decode (take 1 ds) 2 decoder_storage_new fs;
   '(_, st2, fs2) ← expire st1 fs1 ex_now (k_idStr o); '(rs, st3, _) ← ex_decode ds 2 st2 fs2;
   Some (map (ex_summary fs) rs, option_map segmentsRemaining (ds_decoders st3 !! k_idStr o))) = Some (replicate 6 None, Some 1).
Proof. vm_compute. reflexivity. Qed.

(** A fragment that says nothing of its object: the size is read from a variable that was never set. *)
Example fragment_without_attributes :
  decode ex_ctx ex_update fips_sha1 [0; 0; 0; 0] (TV 7 7) "/r" (λ _, true) decoder_storage_new ∅ ex_now "r" kdobj_new 2 = None.
Proof. vm_compute. reflexivity. Qed.

(** ** Witnesses *)

(** The two fragments of three bytes at most. *)
Definition ex_path (start : nat) : string := createFragmentFileName "/s" "a.jpg" (dec (Z.of_nat start)).
Definition ex_piece (start : nat) : list Z := concat (piece [1; 2; 3; 4; 5] 3 <$> fragment_numbers 1 2 start).
Lemma ex_encode o start : ex_fragmentable o → k_filepath o = "/d/a.jpg" → k_filename o = "a.jpg" →
  ∃ f st' fs' lf, encodeDataObject ex_ctx ex_update fips_sha1 (TV 7 7) "/s" (λ _, true) 1 encoder_storage_new ex_fr_files ex_now (dec (Z.of_nat start)) o (Z.of_nat start) 3
      = Some (Some f, st', fs') ∧ fs' !! k_filepath f = Some (ex_piece start) ∧
    attrs_wf (k_attrs f) lf ∧ lf.*2 ≡ₚ fragment_attrs o (joined (fragment_numbers 1 2 start)) ++ [] ∧ k_filepath f = ex_path start.
Proof.
  intros H Ep En. destruct (fr_len _ _ _ _ _ _ H) as [El _].
  destruct (fragment_encoded ex_ctx ex_update fips_sha1 (TV 7 7) "/s" (λ _, true) 1 encoder_storage_new ex_fr_files ex_now (dec (Z.of_nat start)) o [] [1; 2; 3; 4; 5] start 3 H)
    as (f & E & [(lf & Hwf & Hp) Hfi] & Epath & _); [by rewrite Ep|lia|done| |].
  { rewrite Ep. done. }
  rewrite El in E, Hp, Hfi. change (ceil_div (Z.of_nat (length [1; 2; 3; 4; 5])) 3) with 2 in *. rewrite En in Epath.
  eexists f, _, _, lf. split; [exact E|]. split; [exact Hfi|]. split; [done|]. split; [exact Hp|done].
Qed.

Lemma fragmentation_roundtrip_witness :
  ∃ o ds fs rs st' fs' d, ex_fragmentable o ∧ length ds = 3%nat ∧
    decode_all ex_ctx ex_update fips_sha1 [0; 0; 0; 0] (TV 7 7) "/r" (λ _, true) ds 3 decoder_storage_new fs = Some (rs, st', fs') ∧
    Some d ∈ rs ∧ reassembled ex_ctx ex_update fips_sha1 fs' o [] [1; 2; 3; 4; 5] d.
Proof.
  destruct ex_made_fragmentable as (o & H & Ep & En).
  destruct (ex_encode o 0 H Ep En) as (f0 & st0 & fs0 & lf0 & E0 & F0 & W0 & _ & P0). destruct (ex_encode o 1 H Ep En) as (f1 & st1 & fs1 & lf1 & E1 & F1 & W1 & _ & P1).
  set (fs := <[ex_path 0 := ex_piece 0]> (<[ex_path 1 := ex_piece 1]> ∅) : files).
  assert (S0 : sent_from ex_ctx ex_update fips_sha1 (TV 7 7) "/s" (λ _, true) o [1; 2; 3; 4; 5] 3 1 0 fs f0).
  { eapply sent_from_encoded; [|rewrite Ep; done|exact E0|exact W0|exact W0|done|]; [by rewrite Ep|by rewrite F0, P0]. }
  assert (S1 : sent_from ex_ctx ex_update fips_sha1 (TV 7 7) "/s" (λ _, true) o [1; 2; 3; 4; 5] 3 1 1 fs f1).
  { eapply sent_from_encoded; [|rewrite Ep; done|exact E1|exact W1|exact W1|done|]; [by rewrite Ep|by rewrite F1, P1]. }
  destruct (fragmentation_roundtrip ex_ctx ex_update fips_sha1 [0; 0; 0; 0] eq_refl (TV 7 7) "/s" "/r" (λ _, true) (λ _, true) o [] [1; 2; 3; 4; 5] 3 1
    [(ex_now, "x", f1); (ex_now, "y", f1); (ex_now, "z", f0)] [1%nat; 1%nat; 0%nat] decoder_storage_new fs H) as (rs & st' & fs' & E & _ & Hall); [lia|lia|done|done| | |].
  - by repeat constructor.
  - intros x y Hx Hy. rewrite En. assert (k_filepath y.2 = ex_path 0 ∨ k_filepath y.2 = ex_path 1) as [->| ->].
    { rewrite !elem_of_cons, elem_of_nil in Hy. destruct Hy as [->|[->|[->|[]]]]; auto. }
    + rewrite !elem_of_cons, elem_of_nil in Hx. by destruct Hx as [->|[->|[->|[]]]].
    + rewrite !elem_of_cons, elem_of_nil in Hx. by destruct Hx as [->|[->|[->|[]]]].
  - destruct Hall as (d & Hd & Hre).
    { intros i Hi. change (ceil_div _ _) with 2 in Hi. destruct i as [|[|i]]; [by right; right; left|by left|lia]. }
    by exists o, [(ex_now, "x", f1); (ex_now, "y", f1); (ex_now, "z", f0)], fs, rs, st', fs', d.
Defined.

Lemma expired_object_lost_witness :
  ∃ o f st fs ids st1 rs st2 fs2, ex_fragmentable o ∧ ds_numbers st !! k_idStr o = Some {[1]} ∧ fs !! "/r/x" = Some [1; 2; 3; 0; 0] ∧
    expire st fs ex_now (k_idStr o) = Some (ids, st1, delete "/r/x" fs) ∧
    decode_all ex_ctx ex_update fips_sha1 [0; 0; 0; 0] (TV 7 7) "/r" (λ _, true) [(ex_now, "y", f)] 3 st1 (delete "/r/x" fs) = Some (rs, st2, fs2) ∧
    rs = [None].
Proof.
  destruct ex_made_fragmentable as (o & H & Ep & En). destruct (ex_encode o 1 H Ep En) as (f & _ & _ & lf & _ & _ & W & Hp & P).
  set (fs := <["/r/x" := [1; 2; 3; 0; 0]]> (<[ex_path 1 := ex_piece 1]> ∅) : files).
  set (st := DecoderStorage {[k_idStr o := DecoderStruct "/r/x" 5 1]} {[k_idStr o := {[1]}]} ∅ ∅ ∅).
  assert (Has : assembling [1; 2; 3; 4; 5] 3 (k_idStr o) "/r/x" ∅ st fs {[1]}).
  { split.
    - unfold st. cbn. by rewrite lookup_singleton_eq.
    - unfold st. cbn. by rewrite lookup_singleton_eq.
    - intros n ->%elem_of_singleton. by apply elem_of_all.
    - set_solver.
    - exists [1; 2; 3; 0; 0]. split; [done|]. split; [done|]. intros i Hi Hpc. rewrite difference_empty_L in Hpc. apply elem_of_singleton in Hpc.
      apply piece_of_iff in Hpc; [|done]. destruct i as [|[|[|i]]]; done || lia. }
  destruct (expired_object_lost ex_ctx ex_update fips_sha1 [0; 0; 0; 0] eq_refl (TV 7 7) "/r" (λ _, true) o [] [1; 2; 3; 4; 5] 3 (.= ex_path 1) H ltac:(lia)
    st fs "/r/x" {[1]} ex_now [(ex_now, "y", f)] [fragment_numbers 1 2 1] Has) as (ids & st1 & E & Hlost); [set_solver|..|done|].
  { intros Hall. assert (2 ∈ ({[1]} : gset Z)) as Hin by (rewrite Hall; by apply elem_of_all). set_solver. }
  destruct Hlost as (rs & st2 & fs2 & E2 & Hl & Hrs).
  { constructor; [|constructor]. split; [|by exists 1%nat, 1%nat|exact P|done|].
    - split; [by exists lf|]. cbn [snd]. rewrite P. done.
    - rewrite En. done. }
  exists o, f, st, fs, ids, st1, rs, st2, fs2. split; [done|]. split; [apply lookup_singleton_eq|]. split; [done|]. split; [exact E|]. split; [exact E2|].
  destruct rs as [|r [|? ?]]; try done. by apply Forall_cons in Hrs as [-> _].
Defined.
