(* ===== verification/Knapsack.v ===== *)
(** * Knapsack: which data objects to keep, and which to replicate
    ([CacheKnapsackOptimizer.cpp], [ReplicationKnapsackOptimizer.cpp]).

    Both optimizers put the objects into a heap by their marginal utility, take them out highest
    first, sort those that are equal by their creation time - with a second heap - and fill the
    bag.  They differ in what they answer, in the option [mem_only], and in how the marginal
    utility of a possible tie is computed.

    [double] is binary64 as the Standard Library specifies it.  The heap's items are positions in
    the list of the item objects, which the model makes before the first insertion.  An object is
    given by [P]: a pointer that [meta] follows ([None]: it dangles), or NULL.  Signed overflow
    and division by zero have no result.  Allocation succeeds; the time taken is not modelled. *)

From Stdlib Require Import SpecFloat.
From S2P Require Import Prelude Timeval Heap.

(** ** [double] and [int] *)

Abbreviation double := spec_float.
Definition double_of_int (n : Z) : double := binary_normalize 53 1024 n 0 false.
Definition dplus : double → double → double := SFadd 53 1024.
Definition dminus : double → double → double := SFsub 53 1024.
Definition dmult : double → double → double := SFmul 53 1024.
Definition ddiv : double → double → double := SFdiv 53 1024.
Definition dgt (a b : double) : bool := SFltb b a.
Definition is_nan (d : double) : bool := match d with S754_nan => true | _ => false end.

(** An [int] result: [None] on overflow. *)
Definition int (z : Z) : option Z := if (- 2 ^ 31 <=? z) && (z <? 2 ^ 31) then Some z else None.
Definition int_quot (a b : Z) : option Z := if b =? 0 then None else int (Z.quot a b).

(** What the optimizers ask of an object. *)
Record utility_info := Info { getCost : Z; getUtility : double; getCreateTime : Timeval }.

Definition discrete_cost (discrete_size cost : Z) : option Z :=
  q ← int_quot cost discrete_size; c ← int (discrete_size * q); Some (if c <=? 0 then 1 else c).
Definition utility_per (util_bump utility : double) (cost : Z) : double :=
  ddiv (dmult util_bump (dplus utility (double_of_int 1))) (double_of_int cost).

(** ** Sorting with a heap *)

(** The insertions of the items [i] to [i + n - 1] into a new heap. *)
Fixpoint insert_items (compare_greater : nat → nat → bool) (n i : nat) (s : heap_t) : option heap_t :=
  match n with
  | O => Some s
  | S n => '(_, s) ← insert compare_greater true s i; insert_items compare_greater n (S i) s
  end.
Definition new_heap : heap_t := heap_new HEAP_DEFAULT_SIZE ∅.

(** [compare] of the tie breaker by creation time, on objects that are not NULL. *)
Definition compare (t1 t2 : Timeval) : Z := if tv_eq t1 t2 then 0 else if tv_lt t1 t2 then -1 else 1.

Definition time_at (times : list Timeval) (i : nat) : Timeval := default zero (times !! i).
Definition tie_less (times : list Timeval) (i j : nat) : bool := compare (time_at times i) (time_at times j) =? 1.
Definition tie_greater (times : list Timeval) (i j : nat) : bool := compare (time_at times i) (time_at times j) =? -1.

Definition util_at {P} (items : list (double * P)) (i : nat) : double := default (S754_zero false) (items.*1 !! i).
Definition item_less {P} (items : list (double * P)) (i j : nat) : bool := dgt (util_at items i) (util_at items j).
Definition item_greater {P} (items : list (double * P)) (i j : nat) : bool := dgt (util_at items j) (util_at items i).

Section Optimizer.
Context {P : Type} (meta : P → option utility_info).

(** The sorted list, without NULL entries: the ties have none. *)
Definition sortList (l : list P) : option (list P) :=
  ms ← mapM meta l;
  let times := getCreateTime <$> ms in
  s ← insert_items (tie_greater times) (length l) 0 new_heap;
  '(es, _) ← drain (tie_less times) (S (length l)) s;
  mapM (λ i, l !! i) es.

(** ** The greedy optimizers *)

(** The first loop: the highest cost, at least 1, and whether there is a NULL. *)
Fixpoint max_cost_loop (l : list (option P)) (max_cost : double) (hadError : bool) : option (double * bool) :=
  match l with
  | [] => Some (max_cost, hadError)
  | None :: l => max_cost_loop l max_cost true
  | Some p :: l =>
    m ← meta p;
    let current_cost := double_of_int (getCost m) in
    max_cost_loop l (if dgt max_cost current_cost then max_cost else current_cost) hadError
  end.

(** [marginal]: the marginal utility of an object.  [tied m m2]: that of [m2] when it is compared
    with [m], which came out of the heap before.  [weight]: what an object takes of the bag. *)
Context (marginal : utility_info → option double) (tied : utility_info → utility_info → option double) (weight : utility_info → Z).

Fixpoint make_items (l : list (option P)) : option (list (double * P)) :=
  match l with
  | [] => Some []
  | None :: l => make_items l
  | Some p :: l => m ← meta p; u ← marginal m; items ← make_items l; Some ((u, p) :: items)
  end.

(** The objects at the front of the heap whose utility is that of [m]. *)
Fixpoint tie_loop (fuel : nat) (items : list (double * P)) (m : utility_info) (u : double) (s : heap_t) (ties : list P)
    : option (list P * heap_t) :=
  match fuel with
  | O => None
  | S fuel =>
    if empty s then Some (ties, s)
    else
      i ← front s; '(_, p2) ← items !! i; m2 ← meta p2; u2 ← tied m m2;
      if negb (SFeqb u u2) then Some (ties, s)
      else '(_, s) ← extractFirst (item_less items) s; tie_loop fuel items m u s (p2 :: ties)
  end.

(** The sorted ties go into the bag, or not. *)
Fixpoint bag_loop (ties : list P) (total_free : Z) (included excluded : list P) : option (Z * list P * list P) :=
  match ties with
  | [] => Some (total_free, included, excluded)
  | p :: ties =>
    m ← meta p; rest ← int (total_free - weight m);
    if 0 <? rest then bag_loop ties rest (included ++ [p]) excluded
    else bag_loop ties total_free included (excluded ++ [p])
  end.

Fixpoint solve_loop (fuel : nat) (items : list (double * P)) (s : heap_t) (total_free : Z) (included excluded : list P)
    : option (list P * list P) :=
  match fuel with
  | O => None
  | S fuel =>
    if empty s then Some (included, excluded)
    else
      '(i, s) ← extractFirst (item_less items) s; i ← i; '(_, p) ← items !! i; m ← meta p; u ← marginal m;
      '(ties, s) ← tie_loop (S (_size s)) items m u s [p];
      ties ← sortList ties;
      '(total_free, included, excluded) ← bag_loop ties total_free included excluded;
      solve_loop fuel items s total_free included excluded
  end.

Definition solve_with (to_process : list (option P)) (bag_size : Z) (included excluded : list P) : option (list P * list P) :=
  items ← make_items to_process;
  s ← insert_items (item_greater items) (length items) 0 new_heap;
  solve_loop (S (length items)) items s bag_size included excluded.
End Optimizer.

(** ** The two optimizers *)

Section Greedy.
Context {P : Type} (meta : P → option utility_info) (discrete_size : Z).

Definition marginal_utility (mem_only : bool) (util_bump : double) (m : utility_info) : option double :=
  c ← discrete_cost discrete_size (getCost m);
  Some (if mem_only then getUtility m else utility_per util_bump (getUtility m) c).
(** The cache divides by the cost of the first object. *)
Definition cache_tied (mem_only : bool) (util_bump : double) (m m2 : utility_info) : option double :=
  _ ← discrete_cost discrete_size (getCost m2); c ← discrete_cost discrete_size (getCost m);
  Some (if mem_only then getUtility m2 else utility_per util_bump (getUtility m2) c).
Definition replication_tied (util_bump : double) (m m2 : utility_info) : option double :=
  c2 ← discrete_cost discrete_size (getCost m2); Some (utility_per util_bump (getUtility m2) c2).
Definition cache_weight (mem_only : bool) (m : utility_info) : Z := if mem_only then 1 else getCost m.

(** [None] for a list is NULL.  The answer is [hadError] and the list of those to delete. *)
Definition CacheKnapsackOptimizerGreedy_solve (to_process : option (list (option P))) (to_delete : option (list P)) (bag_size : Z) (mem_only : bool)
    : option (bool * option (list P)) :=
  match to_process, to_delete with
  | None, _ | _, None => Some (true, to_delete)
  | Some l, Some excluded =>
    '(util_bump, hadError) ← max_cost_loop meta l (double_of_int 1) false;
    '(_, excluded) ← solve_with meta (marginal_utility mem_only util_bump) (cache_tied mem_only util_bump) (cache_weight mem_only) l bag_size [] excluded;
    Some (hadError, Some excluded)
  end.

(** [to_include] is not checked. *)
Definition ReplicationKnapsackOptimizerGreedy_solve (to_process : option (list (option P))) (to_include : list P) (to_exclude : option (list P)) (bag_size : Z)
    : option (bool * list P * option (list P)) :=
  match to_process, to_exclude with
  | None, _ | _, None => Some (true, to_include, to_exclude)
  | Some l, Some excluded =>
    '(util_bump, hadError) ← max_cost_loop meta l (double_of_int 1) false;
    '(included, excluded) ← solve_with meta (marginal_utility false util_bump) (replication_tied util_bump) getCost l bag_size to_include excluded;
    Some (hadError, included, Some excluded)
  end.
End Greedy.

(** ** Doubles in order *)

(** Class, exponent and mantissa, so that the order is that of the triples. *)
Definition key (d : double) : Z * Z * Z :=
  match d with
  | S754_infinity true => (-2, 0, 0)
  | S754_finite true m e => (-1, - e, Z.neg m)
  | S754_zero _ | S754_nan => (0, 0, 0)
  | S754_finite false m e => (1, e, Z.pos m)
  | S754_infinity false => (2, 0, 0)
  end.
Definition key_lt (a b : Z * Z * Z) : Prop :=
  a.1.1 < b.1.1 ∨ a.1.1 = b.1.1 ∧ (a.1.2 < b.1.2 ∨ a.1.2 = b.1.2 ∧ a.2 < b.2).

Lemma compare_key a b : is_nan a = false → is_nan b = false →
  match SFcompare a b with
  | Some Lt => key_lt (key a) (key b) | Some Gt => key_lt (key b) (key a) | Some Eq => key a = key b | None => False
  end.
Proof.
  intros Ha Hb. destruct a as [[]|[]| |[] m1 e1], b as [[]|[]| |[] m2 e2]; try discriminate; cbn [SFcompare key key_lt fst snd]; unfold key_lt; cbn [fst snd]; try lia;
    try reflexivity; destruct (Z.compare_spec e1 e2) as [->|?|?]; try lia;
    change (Pos.compare_cont Eq m1 m2) with (Pos.compare m1 m2); destruct (Pos.compare_spec m1 m2) as [->|?|?]; cbn [CompOpp]; (reflexivity || lia).
Qed.
Lemma dgt_key a b : is_nan a = false → is_nan b = false → dgt a b = true ↔ key_lt (key b) (key a).
Proof.
  intros Ha Hb. unfold dgt, SFltb. pose proof (compare_key b a Hb Ha) as H. destruct (SFcompare b a) as [[]|]; split; try done.
  - intros Hk. rewrite H in Hk. unfold key_lt in Hk. lia.
  - intros Hk. unfold key_lt in *. lia.
Qed.
Lemma dgt_false a b : is_nan a = false → is_nan b = false → dgt a b = false ↔ ¬ key_lt (key b) (key a).
Proof. intros Ha Hb. rewrite <- dgt_key by done. by destruct (dgt a b). Qed.
Lemma deq_key a b : is_nan a = false → is_nan b = false → SFeqb a b = true ↔ key a = key b.
Proof.
  intros Ha Hb. unfold SFeqb. pose proof (compare_key a b Ha Hb) as H. destruct (SFcompare a b) as [[]|]; split; try done;
    intros Hk; rewrite Hk in H; unfold key_lt in H; lia.
Qed.
Lemma key_lt_cases a b : key_lt a b ∨ a = b ∨ key_lt b a.
Proof.
  destruct a as [[a1 a2] a3], b as [[b1 b2] b3]. unfold key_lt. cbn [fst snd].
  destruct (Z.lt_total a1 b1) as [?|[->|?]], (Z.lt_total a2 b2) as [?|[->|?]], (Z.lt_total a3 b3) as [?|[->|?]]; auto; (left; lia) || (right; right; lia).
Qed.
Lemma key_lt_trans a b c : key_lt a b → key_lt b c → key_lt a c.
Proof. unfold key_lt. lia. Qed.
Lemma key_lt_irrefl a : ¬ key_lt a a.
Proof. unfold key_lt. lia. Qed.

(** *** No operation in use makes a NaN *)

Lemma shr_1_nonneg r : 0 <= shr_m r → 0 <= shr_m (shr_1 r).
Proof. destruct r as [[|[]|[]] ? ?]; cbn; lia. Qed.
Lemma iter_nonneg n : ∀ r, 0 <= shr_m r → 0 <= shr_m (SpecFloat.iter_pos shr_1 n r).
Proof. induction n as [n IH|n IH|]; intros r Hr; cbn [SpecFloat.iter_pos]; auto using shr_1_nonneg. Qed.
Lemma shr_fexp_nonneg m e l : 0 <= m → 0 <= shr_m (shr_fexp 53 1024 m e l).1.
Proof.
  intros Hm. assert (H0 : 0 <= shr_m (shr_record_of_loc m l)) by (by destruct l as [|[]]). unfold shr_fexp, shr.
  destruct (_ - e)%Z; [exact H0|cbn [fst]; by apply iter_nonneg|exact H0].
Qed.
Lemma round_even_nonneg m l : 0 <= m → 0 <= round_nearest_even m l.
Proof. destruct l as [|[]]; cbn; [lia|destruct (Z.even m); lia|lia|lia]. Qed.
Lemma round_aux_number s m e l : 0 <= m → is_nan (binary_round_aux 53 1024 s m e l) = false.
Proof.
  intros Hm. unfold binary_round_aux. pose proof (shr_fexp_nonneg m e l Hm) as H1. destruct (shr_fexp 53 1024 m e l) as [r1 e1]. cbn [fst] in H1.
  pose proof (shr_fexp_nonneg (round_nearest_even (shr_m r1) (loc_of_shr_record r1)) e1 loc_Exact ltac:(by apply round_even_nonneg)) as H2.
  destruct (shr_fexp 53 1024 _ e1 loc_Exact) as [r2 e2]. cbn [fst] in H2. destruct (shr_m r2) eqn:E; [done|by case_match|lia].
Qed.
Lemma normalize_number m e s : is_nan (binary_normalize 53 1024 m e s) = false.
Proof.
  destruct m; [done| |]; unfold binary_normalize, binary_round; destruct (shl_align _ _ _) as [mz ez]; by apply round_aux_number.
Qed.

Lemma digits_iter m k : digits2_pos (Pos.iter xO m k) = (digits2_pos m + k)%positive.
Proof.
  induction k as [|k IH] using Pos.peano_ind; [cbn; by rewrite Pos.add_1_r|]. rewrite Pos.iter_succ, Pos.add_succ_r. cbn [digits2_pos]. by rewrite IH.
Qed.
Lemma digits_bound m n : 0 <= n → Z.pos m < 2 ^ n → Z.pos (digits2_pos m) <= n.
Proof.
  revert n. induction m as [m IH|m IH|]; intros n Hn Hm; cbn [digits2_pos].
  1,2: destruct (decide (n = 0)) as [->|]; [lia|]; replace n with (Z.succ (n - 1)) in Hm by lia; rewrite Z.pow_succ_r in Hm by lia;
       specialize (IH (n - 1) ltac:(lia) ltac:(lia)); lia.
  destruct (decide (n = 0)) as [->|]; [cbn in Hm; lia|lia].
Qed.
(** An [int] is a [double] exactly. *)
Lemma round_aux_exact s m e : fexp 53 1024 (Z.pos (digits2_pos m) + e) = e → e <= 971 →
  binary_round_aux 53 1024 s (Z.pos m) e loc_Exact = S754_finite s m e.
Proof.
  intros Hf He. assert (E : shr_fexp 53 1024 (Z.pos m) e loc_Exact = (Build_shr_record (Z.pos m) false false, e)).
  { unfold shr_fexp. cbn [Zdigits2]. rewrite Hf, Z.sub_diag. done. }
  unfold binary_round_aux. rewrite E. cbn [shr_m loc_of_shr_record round_nearest_even]. rewrite E. cbn [shr_m].
  destruct (Z.leb_spec e (1024 - 53)); [done|lia].
Qed.
Lemma round_int s m : Z.pos m < 2 ^ 32 → ∃ m' e, binary_round 53 1024 s m 0 = S754_finite s m' e.
Proof.
  intros Hm. apply (digits_bound m 32) in Hm; [|done]. unfold binary_round, shl_align.
  assert (Hf : fexp 53 1024 (Z.pos (digits2_pos m) + 0) = Z.pos (digits2_pos m) - 53) by (unfold fexp, emin; lia).
  rewrite Hf. destruct (Z.pos (digits2_pos m) - 53 - 0) as [| |d] eqn:Ed; [lia|lia|]. eexists _, _. apply round_aux_exact; [|lia].
  rewrite digits_iter. unfold fexp, emin. lia.
Qed.
Lemma double_of_int_pos n : 0 < n < 2 ^ 32 → ∃ m e, double_of_int n = S754_finite false m e.
Proof. intros Hn. destruct n as [|m|m]; [lia| |lia]. apply round_int. lia. Qed.
Lemma double_of_int_number n : is_nan (double_of_int n) = false.
Proof. apply normalize_number. Qed.

(** Positive and finite. *)
Definition positive_double (d : double) : Prop := ∃ m e, d = S754_finite false m e.

Lemma quotient_number x c : is_nan x = false → positive_double c → is_nan (ddiv x c) = false.
Proof.
  intros Hx (m & e & ->). unfold ddiv, SFdiv. destruct x as [| | |s mx ex]; [done|done|done|].
  unfold SFdiv_core_binary. destruct (Z.div_eucl _ _) as [q r] eqn:E. apply round_aux_number.
  match type of E with Z.div_eucl ?a ?b = _ => assert (q = a / b) as -> by (unfold Z.div; by rewrite E); apply Z.div_pos; [|lia] end.
  destruct (ex - e - _); [lia|apply Z.shiftl_nonneg; lia|lia].
Qed.
Lemma utility_per_number b u c : positive_double b → is_nan u = false → 0 < c < 2 ^ 32 → is_nan (utility_per b u c) = false.
Proof.
  intros (mb & eb & ->) Hu Hc. apply quotient_number; [|by apply double_of_int_pos].
  assert (Hp : is_nan (dplus u (double_of_int 1)) = false).
  { destruct (double_of_int_pos 1) as (m & e & ->); [lia|]. unfold dplus, SFadd. destruct u as [| | |s mu eu]; try done. apply normalize_number. }
  unfold dmult, SFmul. destruct (dplus u _); try done. by apply round_aux_number.
Qed.

(** ** Sorting *)

Lemma tv_trichotomy a b : tv_lt a b = true ∨ tv_eq a b = true ∨ tv_lt b a = true.
Proof.
  unfold tv_lt, tv_eq. rewrite !orb_true_iff, !andb_true_iff, !Z.ltb_lt, !Z.eqb_eq. lia.
Qed.
Lemma tv_lt_spec a b : tv_lt a b = true ↔ tv_sec a < tv_sec b ∨ tv_sec a = tv_sec b ∧ tv_usec a < tv_usec b.
Proof. unfold tv_lt. rewrite orb_true_iff, andb_true_iff, !Z.ltb_lt, Z.eqb_eq. lia. Qed.
Lemma tv_eq_spec a b : tv_eq a b = true ↔ a = b.
Proof. unfold tv_eq. rewrite andb_true_iff, !Z.eqb_eq. destruct a, b; cbn. naive_solver. Qed.
Lemma compare_newer a b : (compare a b =? 1) = tv_lt b a.
Proof.
  unfold compare. destruct (tv_eq a b) eqn:E.
  - apply tv_eq_spec in E as ->. symmetry. apply not_true_iff_false. rewrite tv_lt_spec. lia.
  - destruct (tv_lt a b) eqn:E1; symmetry.
    + apply not_true_iff_false. apply tv_lt_spec in E1. rewrite tv_lt_spec. lia.
    + destruct (tv_trichotomy a b) as [H|[H|H]]; [congruence|congruence|by rewrite H].
Qed.
Lemma compare_older a b : (compare a b =? -1) = tv_lt a b.
Proof.
  unfold compare. destruct (tv_eq a b) eqn:E.
  - apply tv_eq_spec in E as ->. symmetry. apply not_true_iff_false. rewrite tv_lt_spec. lia.
  - by destruct (tv_lt a b).
Qed.

#[export] Instance tie_order times : HeapOrder (tie_less times) (tie_greater times).
Proof.
  unfold tie_less, tie_greater. split; intros *; rewrite ?compare_newer, ?compare_older; [| |done].
  - rewrite <- not_true_iff_false, !tv_lt_spec. lia.
  - rewrite <- !not_true_iff_false, !tv_lt_spec. lia.
Qed.
Lemma item_order {P} (items : list (double * P)) : Forall (λ x, is_nan x.1 = false) items → HeapOrder (item_less items) (item_greater items).
Proof.
  intros H. assert (Hn : ∀ i, is_nan (util_at items i) = false).
  { intros i. unfold util_at. rewrite list_lookup_fmap. destruct (items !! i) eqn:E; [|done]. cbn. rewrite Forall_forall in H. apply H. by apply list_elem_of_lookup_2 in E. }
  split; unfold item_less, item_greater; [| |done].
  - intros a b. rewrite dgt_key, dgt_false by done. intros H1 H2. by apply (key_lt_irrefl _ (key_lt_trans _ _ _ H1 H2)).
  - intros a b c. rewrite !dgt_false by done. intros H1 H2 H3.
    destruct (key_lt_cases (key (util_at items a)) (key (util_at items b))) as [Hab|[Hab|Hab]];
      destruct (key_lt_cases (key (util_at items b)) (key (util_at items c))) as [Hbc|[Hbc|Hbc]]; try rewrite Hab in *; try rewrite Hbc in *; try done.
    all: eauto using key_lt_trans, key_lt_irrefl.
Qed.

(** Positions in the order of a sort, as what is at them. *)
Lemma map_nth_seq {A} (l : list A) d : (λ i, nth i l d) <$> seq 0 (length l) = l.
Proof.
  apply list_eq. intros i. rewrite list_lookup_fmap. destruct (decide (i < length l)%nat) as [Hi|Hi].
  - rewrite lookup_seq_lt by done. cbn. destruct (lookup_lt_is_Some_2 l i Hi) as [x Hx]. rewrite Hx. f_equal. by apply nth_lookup_Some.
  - rewrite (lookup_ge_None_2 l) by lia. by rewrite lookup_seq_ge by lia.
Qed.
Lemma mapM_positions {A} (l : list A) d es : es ≡ₚ seq 0 (length l) → mapM (λ i, l !! i) es = Some ((λ i, nth i l d) <$> es).
Proof.
  intros Hp. apply mapM_Some, Forall2_fmap_r, Forall2_same_length_lookup. split; [done|]. intros k i j Hi Hj. simplify_eq.
  apply list_elem_of_lookup_2 in Hi. rewrite Hp in Hi. apply elem_of_seq in Hi. destruct (lookup_lt_is_Some_2 l i) as [x Hx]; [lia|].
  rewrite Hx. f_equal. symmetry. by apply nth_lookup_Some.
Qed.

Lemma insert_items_spec less greater `{!HeapOrder less greater} n : ∀ i s l,
  heap_wf (compare_less := less) False s l →
  ∃ s' l', insert_items greater n i s = Some s' ∧ heap_wf (compare_less := less) False s' l' ∧ l' ≡ₚ seq i n ++ l.
Proof.
  induction n as [|n IH]; intros i s l Hwf; cbn [insert_items seq]; [by exists s, l|].
  pose proof (insert_spec False true s l i Hwf ltac:(done)) as H. rewrite andb_false_r in H. destruct H as (s1 & l1 & -> & Hwf1 & Hp1). cbn [mbind option_bind].
  destruct (IH (S i) s1 l1 Hwf1) as (s' & l' & E & Hwf' & Hp). exists s', l'. split; [done|]. split; [done|].
  rewrite Hp, Hp1. symmetry. apply Permutation_middle.
Qed.

Lemma StronglySorted_sub {A} (R S : A → A → Prop) l : StronglySorted R l → (∀ x y, x ∈ l → y ∈ l → R x y → S x y) → StronglySorted S l.
Proof.
  induction 1 as [|x l _ IH Hx]; intros H; constructor.
  - apply IH. intros y z Hy Hz. apply H; by right.
  - rewrite Forall_forall in *. intros y Hy. apply H; [by left|by right|by apply Hx].
Qed.

(** ** The greedy choice *)

(** The reference: what fits goes into the bag. *)
Fixpoint greedy {P} (weight : P → Z) (free : Z) (l : list P) : Z * list P * list P :=
  match l with
  | [] => (free, [], [])
  | p :: l =>
    if weight p <? free then let '(r, i, e) := greedy weight (free - weight p) l in (r, p :: i, e)
    else let '(r, i, e) := greedy weight free l in (r, i, p :: e)
  end.
Definition total {P} (weight : P → Z) (l : list P) : Z := foldr (λ p n, weight p + n) 0 l.

Section GreedyFacts.
Context {P : Type} (weight : P → Z).

Lemma total_cons p l : total weight (p :: l) = weight p + total weight l.
Proof. done. Qed.
Lemma total_app l1 l2 : total weight (l1 ++ l2) = total weight l1 + total weight l2.
Proof. unfold total. induction l1 as [|p l1 IH]; cbn; [done|]. rewrite IH. lia. Qed.
Lemma weight_perm l1 l2 : l1 ≡ₚ l2 → total weight l1 = total weight l2.
Proof. unfold total. induction 1; cbn; lia. Qed.
Lemma total_nonneg l : (∀ p, p ∈ l → 0 <= weight p) → 0 <= total weight l.
Proof.
  induction l as [|p l IH]; intros H; [done|]. cbn. specialize (IH ltac:(intros q Hq; apply H; by right)). unfold total in IH.
  pose proof (H p ltac:(by left)). lia.
Qed.
Lemma greedy_app l1 : ∀ free l2, greedy weight free (l1 ++ l2) =
  let '(r1, i1, e1) := greedy weight free l1 in let '(r2, i2, e2) := greedy weight r1 l2 in (r2, i1 ++ i2, e1 ++ e2).
Proof.
  induction l1 as [|p l1 IH]; intros free l2; cbn [app greedy]; [by destruct (greedy weight free l2) as [[]]|].
  destruct (weight p <? free); rewrite IH; destruct (greedy weight _ l1) as [[r1 i1] e1]; by destruct (greedy weight r1 l2) as [[]].
Qed.
(** What is taken is less than the bag, nothing is lost, and what is left out is more than what is left free. *)
Lemma greedy_facts l : ∀ free r i e, greedy weight free l = (r, i, e) → (∀ p, p ∈ l → 0 <= weight p) →
  i ++ e ≡ₚ l ∧ r = free - total weight i ∧ (0 < free → 0 < r) ∧ (0 <= free → 0 <= r) ∧ r <= free ∧ (∀ p, p ∈ e → r <= weight p).
Proof.
  induction l as [|p l IH]; intros free r i e E Hw; cbn [greedy] in E.
  - injection E as <- <- <-. cbn. split_and!; try done; try lia. intros p Hp. by apply not_elem_of_nil in Hp.
  - assert (Hw' : ∀ q, q ∈ l → 0 <= weight q) by (intros q Hq; apply Hw; by right). pose proof (Hw p ltac:(by left)) as Hwp.
    destruct (Z.ltb_spec (weight p) free) as [Hlt|Hge].
    + destruct (greedy weight (free - weight p) l) as [[r1 i1] e1] eqn:E1. injection E as <- <- <-.
      destruct (IH _ _ _ _ E1 Hw') as (Hp & Hr & Hpos & Hnn & Hle & He). rewrite total_cons. split_and!; [cbn; by rewrite Hp|lia|lia|lia|lia|done].
    + destruct (greedy weight free l) as [[r1 i1] e1] eqn:E1. injection E as <- <- <-.
      destruct (IH _ _ _ _ E1 Hw') as (Hp & Hr & Hpos & Hnn & Hle & He). split_and!; [by rewrite <- Permutation_middle, Hp|lia|lia|lia|lia|].
      intros q [->|Hq]%elem_of_cons; [lia|by apply He].
Qed.
Lemma greedy_ext (weight' : P → Z) l : (∀ p, p ∈ l → weight p = weight' p) → ∀ free, greedy weight free l = greedy weight' free l.
Proof.
  induction l as [|p l IH]; intros H free; cbn [greedy]; [done|]. rewrite <- (H p) by by left.
  rewrite !IH by (intros q Hq; apply H; by right). done.
Qed.
End GreedyFacts.

Lemma int_some z : - 2 ^ 31 <= z < 2 ^ 31 → int z = Some z.
Proof. intros H. unfold int. destruct (Z.leb_spec (- 2 ^ 31) z), (Z.ltb_spec z (2 ^ 31)); (lia || done). Qed.

Section Loops.
Context {P : Type} (meta : P → option utility_info) (info : P → utility_info).
Context (marginal : utility_info → option double) (tied : utility_info → utility_info → option double) (weight : utility_info → Z).
Context (mu : P → double) (ps : list P) (p0 : P).
Hypothesis Hmeta : ∀ p, p ∈ ps → meta p = Some (info p).
Hypothesis Hmu : ∀ p, p ∈ ps → marginal (info p) = Some (mu p) ∧ is_nan (mu p) = false.
Hypothesis Htied : ∀ p q, p ∈ ps → q ∈ ps → is_Some (tied (info p) (info q)).
Hypothesis Hweight : ∀ p, p ∈ ps → 0 <= weight (info p) < 2 ^ 31.

Abbreviation items := ((λ p, (mu p, p)) <$> ps).
Abbreviation obj := (λ i, nth i ps p0).
Abbreviation wf := (heap_wf (compare_less := item_less items) False).
Abbreviation created p := (getCreateTime (info p)).

(** The order in which the bag is filled. *)
Definition better (p q : P) : Prop :=
  key_lt (key (mu q)) (key (mu p)) ∨ key (mu p) = key (mu q) ∧ tv_lt (created p) (created q) = false.
(** The second computation of a utility agrees with the first. *)
Definition exact : Prop := ∀ p q, p ∈ ps → q ∈ ps → tied (info p) (info q) = Some (mu q).

Lemma bag_loop_spec ties : ∀ free inc exc, (∀ p, p ∈ ties → p ∈ ps) → 0 <= free < 2 ^ 31 →
  bag_loop meta weight ties free inc exc =
    let '(r, i, e) := greedy (λ p, weight (info p)) free ties in Some (r, inc ++ i, exc ++ e).
Proof using Hmeta Hweight.
  induction ties as [|p ties IH]; intros free inc exc Hin Hf; cbn [bag_loop greedy]; [by rewrite !app_nil_r|].
  assert (Hp : p ∈ ps) by (apply Hin; by left). rewrite (Hmeta p Hp). cbn [mbind option_bind]. pose proof (Hweight p Hp).
  rewrite int_some by lia. cbn [mbind option_bind].
  destruct (Z.ltb_spec 0 (free - weight (info p))), (Z.ltb_spec (weight (info p)) free); try lia; rewrite IH by ((intros; apply Hin; by right) || lia);
    destruct (greedy _ _ ties) as [[]]; by rewrite <- app_assoc.
Qed.

Lemma sortList_spec l : (∀ p, p ∈ l → p ∈ ps) →
  ∃ l', sortList meta l = Some l' ∧ l' ≡ₚ l ∧ StronglySorted (λ p q, tv_lt (created p) (created q) = false) l'.
Proof using Hmeta p0.
  intros Hin. unfold sortList.
  assert (mapM meta l = Some (info <$> l)) as ->.
  { apply mapM_Some, Forall2_fmap_r, Forall2_same_length_lookup. split; [done|]. intros i x y Hx Hy. simplify_eq.
    apply Hmeta, Hin. by apply list_elem_of_lookup_2 in Hx. }
  cbn [mbind option_bind]. set (times := getCreateTime <$> (info <$> l)).
  destruct (insert_items_spec (tie_less times) (tie_greater times) (length l) 0 new_heap [] (heap_new_wf False _ _)) as (s & h & -> & Hwf & Hp).
  cbn [mbind option_bind]. rewrite app_nil_r in Hp. destruct (drain_spec False s h Hwf) as (es & s' & Ed & Hes & Hso & _).
  rewrite Hp, length_seq in Ed. rewrite Ed. cbn [mbind option_bind]. rewrite Hp in Hes. rewrite (mapM_positions l p0) by done.
  eexists. split; [done|]. split; [by rewrite Hes, map_nth_seq|].
  assert (Hr : ∀ i, i ∈ es → time_at times i = created (nth i l p0)).
  { intros i Hi. rewrite Hes in Hi. apply elem_of_seq in Hi. unfold time_at, times. rewrite !list_lookup_fmap.
    destruct (lookup_lt_is_Some_2 l i) as [x Hx]; [lia|]. rewrite Hx. cbn. by rewrite (nth_lookup_Some _ _ _ _ Hx). }
  clear -Hso Hr. induction Hso as [|i es Hso IH Hall]; cbn; constructor.
  - apply IH. intros j Hj. apply Hr. by right.
  - apply Forall_fmap, Forall_forall. intros j Hj. rewrite Forall_forall in Hall. specialize (Hall j Hj). unfold le, tie_less in Hall.
    rewrite compare_newer, !Hr in Hall by (by left || by right). done.
Qed.
Lemma items_lookup i : (i < length ps)%nat → items !! i = Some (mu (obj i), obj i) ∧ obj i ∈ ps ∧ util_at items i = mu (obj i).
Proof.
  intros Hi. destruct (lookup_lt_is_Some_2 ps i Hi) as [p Hp]. rewrite (nth_lookup_Some _ _ _ _ Hp). unfold util_at.
  rewrite !list_lookup_fmap, Hp. split; [done|]. split; [by apply list_elem_of_lookup_2 in Hp|done].
Qed.
Lemma items_ordered : HeapOrder (item_less items) (item_greater items).
Proof using Hmu. apply item_order, Forall_fmap, Forall_forall. intros p Hp. by apply Hmu. Qed.
#[local] Existing Instance items_ordered.

(** The front of the heap has the highest utility. *)
Lemma front_highest s i h : wf s (i :: h) → Forall (λ j, j < length ps)%nat (i :: h) →
  ∀ j, j ∈ h → ¬ key_lt (key (mu (obj i))) (key (mu (obj j))).
Proof using Hmu.
  intros Hwf Hh j Hj. rewrite Forall_forall in Hh. destruct (front_spec False s i h Hwf) as [_ Hle]. specialize (Hle j Hj).
  unfold le, item_less in Hle. destruct (items_lookup i) as (_ & Hi & Ei); [apply Hh; by left|]. destruct (items_lookup j) as (_ & Hj' & Ej); [apply Hh; by right|].
  rewrite Ei, Ej, dgt_false in Hle by (by apply Hmu). done.
Qed.

Lemma tie_loop_spec fuel p s : ∀ h ties, (length h < fuel)%nat → p ∈ ps → wf s h → Forall (λ j, j < length ps)%nat h →
  ∃ ts s' h', tie_loop meta tied fuel items (info p) (mu p) s ties = Some (ts ++ ties, s') ∧ wf s' h' ∧ Forall (λ j, j < length ps)%nat h' ∧
    (obj <$> h) ≡ₚ ts ++ (obj <$> h') ∧
    (exact → (∀ j, j ∈ h → ¬ key_lt (key (mu p)) (key (mu (obj j)))) →
      (∀ q, q ∈ ts → key (mu q) = key (mu p)) ∧ ∀ j, j ∈ h' → key_lt (key (mu (obj j))) (key (mu p))).
Proof using Hmeta Hmu Htied.
  revert s. induction fuel as [|fuel IH]; intros s h ties Hf Hp Hwf Hh; [lia|]. cbn [tie_loop]. unfold empty. rewrite (wf_size _ _ _ Hwf).
  destruct h as [|i h].
  { cbn [length Nat.eqb]. exists [], s, []. split; [done|]. split; [done|]. split; [done|]. split; [done|]. intros _ _. split; intros q Hq; by apply not_elem_of_nil in Hq. }
  cbn [length Nat.eqb]. destruct (front_spec False s i h Hwf) as [-> _]. cbn [mbind option_bind].
  destruct (items_lookup i) as (-> & Hi & _); [by apply Forall_cons in Hh as [? _]|]. cbn [mbind option_bind]. rewrite (Hmeta _ Hi). cbn [mbind option_bind].
  destruct (Htied p (obj i) Hp Hi) as [u2 E2]. rewrite E2. cbn [mbind option_bind]. destruct (SFeqb (mu p) u2) eqn:Eq; cbn [negb].
  - destruct (extractFirst_cons False (compare_greater := item_greater items) s i h Hwf) as (s1 & h1 & -> & Hwf1 & Hp1). cbn [mbind option_bind].
    apply Forall_cons in Hh as [Hhi Hh]. rewrite <- Hp1 in Hh.
    destruct (IH s1 h1 (obj i :: ties)) as (ts & s' & h' & E & Hwf' & Hh' & Hperm & Hex); [rewrite Hp1; cbn in Hf; lia|done|done|done|].
    exists (ts ++ [obj i]), s', h'. rewrite <- app_assoc. split; [exact E|]. split; [done|]. split; [done|]. split.
    + cbn [fmap list_fmap]. rewrite <- Hp1, Hperm, <- app_assoc. apply Permutation_middle.
    + intros He Hle. destruct (Hex He) as [Hts Hh2]; [intros j Hj; apply Hle; right; by rewrite <- Hp1|]. split; [|done].
      intros q [Hq|Hq]%elem_of_app; [by apply Hts|]. apply list_elem_of_singleton in Hq as ->.
      assert (u2 = mu (obj i)) as -> by (rewrite (He p (obj i) Hp Hi) in E2; congruence). symmetry. apply deq_key in Eq; [done|by apply Hmu|by apply Hmu].
  - exists [], s, (i :: h). split; [done|]. split; [done|]. split; [done|]. split; [done|]. intros He Hle. split; [intros q Hq; by apply not_elem_of_nil in Hq|].
    assert (u2 = mu (obj i)) as -> by (rewrite (He p (obj i) Hp Hi) in E2; congruence).
    assert (Hlt : key_lt (key (mu (obj i))) (key (mu p))).
    { destruct (key_lt_cases (key (mu (obj i))) (key (mu p))) as [?|[Ek|Hk]]; [done| |exfalso; apply (Hle i); [by left|done]].
      apply not_true_iff_false in Eq. exfalso. apply Eq, deq_key; [by apply Hmu|by apply Hmu|done]. }
    intros j [->|Hj]%elem_of_cons; [done|]. pose proof (front_highest s i h Hwf Hh j Hj).
    destruct (key_lt_cases (key (mu (obj j))) (key (mu (obj i)))) as [Hk|[Ek|Hk]]; [by apply (key_lt_trans _ _ _ Hk)|by rewrite Ek|done].
Qed.

Lemma solve_loop_spec fuel : ∀ s h free inc exc,
  (length h < fuel)%nat → wf s h → Forall (λ j, j < length ps)%nat h → 0 <= free < 2 ^ 31 →
  ∃ order r i e, solve_loop meta marginal tied weight fuel items s free inc exc = Some (inc ++ i, exc ++ e) ∧
    order ≡ₚ obj <$> h ∧ greedy (λ p, weight (info p)) free order = (r, i, e) ∧ (exact → StronglySorted better order).
Proof using Hmeta Hmu Htied Hweight.
  induction fuel as [|fuel IH]; intros s h free inc exc Hf Hwf Hh Hfree; [lia|]. cbn [solve_loop]. unfold empty. rewrite (wf_size _ _ _ Hwf).
  destruct h as [|i h].
  { cbn [length Nat.eqb]. exists [], free, [], []. rewrite !app_nil_r. split_and!; try done. intros _. constructor. }
  cbn [length Nat.eqb]. pose proof (front_highest s i h Hwf Hh) as Hhigh.
  destruct (extractFirst_cons False (compare_greater := item_greater items) s i h Hwf) as (s1 & h1 & -> & Hwf1 & Hp1). cbn [mbind option_bind].
  apply Forall_cons in Hh as [Hhi Hh]. rewrite <- Hp1 in Hh. destruct (items_lookup i Hhi) as (-> & Hi & _). cbn [mbind option_bind].
  rewrite (Hmeta _ Hi). cbn [mbind option_bind]. destruct (Hmu _ Hi) as [-> _]. cbn [mbind option_bind]. rewrite (wf_size _ _ _ Hwf1).
  destruct (tie_loop_spec (S (length h1)) (obj i) s1 h1 [obj i]) as (ts & s2 & h2 & -> & Hwf2 & Hh2 & Hperm & Hex); [lia|done|done|done|]. cbn [mbind option_bind].
  assert (Hts : ∀ p, p ∈ ts ++ [obj i] → p ∈ ps).
  { intros p [Hp|Hp]%elem_of_app; [|by apply list_elem_of_singleton in Hp as ->]. assert (Hp' : p ∈ obj <$> h1) by (rewrite Hperm; apply elem_of_app; by left).
    apply list_elem_of_fmap in Hp' as (j & -> & Hj). rewrite Forall_forall in Hh. apply items_lookup. by apply Hh. }
  destruct (sortList_spec _ Hts) as (l & -> & Hl & Hsl). cbn [mbind option_bind].
  assert (Hlin : ∀ p, p ∈ l → p ∈ ps) by (intros p; rewrite Hl; apply Hts). rewrite bag_loop_spec by done.
  destruct (greedy (λ p, weight (info p)) free l) as [[r1 i1] e1] eqn:Eg. cbn [mbind option_bind].
  destruct (greedy_facts _ _ _ _ _ _ Eg) as (_ & _ & _ & Hnn & Hle & _); [intros p Hp; by apply Hweight, Hlin|].
  assert (Hr1 : 0 <= r1 < 2 ^ 31) by lia.
  assert (Hlen : (length h2 <= length h1)%nat).
  { pose proof (Permutation_length Hperm) as HL. rewrite length_app, !length_fmap in HL. lia. }
  destruct (IH s2 h2 r1 (inc ++ i1) (exc ++ e1)) as (order & r & i2 & e2 & E & Ho & Eg2 & Hso); [rewrite Hp1 in Hlen; cbn in Hf; lia|done|done|done|].
  exists (l ++ order), r, (i1 ++ i2), (e1 ++ e2). rewrite !app_assoc. split; [exact E|]. split; [|split].
  - cbn [fmap list_fmap]. rewrite Ho, <- Hp1, Hperm, Hl, <- app_assoc. symmetry. apply Permutation_middle.
  - by rewrite greedy_app, Eg, Eg2.
  - intros He. destruct (Hex He) as [Ht Hrest]; [intros j Hj; apply Hhigh; by rewrite <- Hp1|].
    assert (Hk : ∀ q, q ∈ l → key (mu q) = key (mu (obj i))).
    { intros q. rewrite Hl. intros [Hq|Hq]%elem_of_app; [by apply Ht|by apply list_elem_of_singleton in Hq as ->]. }
    apply StronglySorted_app_2; [| |by apply Hso]. 2: { apply (StronglySorted_sub _ _ l Hsl). intros p q Hpin Hqin Hpq. right. split; [|done]. by rewrite (Hk p Hpin), (Hk q Hqin). }
    intros p q Hpin Hqin. left. rewrite (Hk p Hpin). rewrite Ho in Hqin. apply list_elem_of_fmap in Hqin as (j & -> & Hj). by apply Hrest.
Qed.
End Loops.

(** Whether there is a NULL. *)
Definition has_null {P} (l : list (option P)) : bool := existsb (λ x, match x with None => true | Some _ => false end) l.

Section Solve.
Context {P : Type} (meta : P → option utility_info) (info : P → utility_info) (l : list (option P)).
Abbreviation ps := (omap id l).

(** What the optimizers need of an object: a cost that is an [int] and not negative, and a utility that is a number. *)
Definition sound_info (m : utility_info) : Prop := 0 <= getCost m < 2 ^ 31 ∧ is_nan (getUtility m) = false.
Hypothesis Hmeta : ∀ p, p ∈ ps → meta p = Some (info p) ∧ sound_info (info p).

Lemma solve_with_spec marginal tied weight mu free inc exc :
  (∀ p, p ∈ ps → marginal (info p) = Some (mu p) ∧ is_nan (mu p) = false) →
  (∀ p q, p ∈ ps → q ∈ ps → is_Some (tied (info p) (info q))) →
  (∀ p, p ∈ ps → 0 <= weight (info p) < 2 ^ 31) → 0 <= free < 2 ^ 31 →
  ∃ order r i e, solve_with meta marginal tied weight l free inc exc = Some (inc ++ i, exc ++ e) ∧
    order ≡ₚ ps ∧ greedy (λ p, weight (info p)) free order = (r, i, e) ∧ (exact info tied mu ps → StronglySorted (better info mu) order).
Proof using Hmeta.
  intros Hmu Htied Hw Hf. unfold solve_with.
  assert (make_items meta marginal l = Some ((λ p, (mu p, p)) <$> ps)) as ->.
  { clear Htied Hw. revert Hmeta Hmu. induction l as [|[p|] l' IH]; intros Hmeta Hmu; cbn; [done| |by apply IH].
    destruct (Hmeta p) as [-> _]; [by left|]. destruct (Hmu p) as [Em _]; [by left|]. cbn [mbind option_bind]. rewrite Em. cbn [mbind option_bind].
    rewrite IH by (intros q Hq; apply Hmeta || apply Hmu; by right). done. }
  cbn [mbind option_bind]. destruct ps as [|p0 ps'] eqn:Ep.
  { cbn. exists [], free, [], []. rewrite !app_nil_r. split_and!; try done. intros _. constructor. }
  rewrite <- Ep in *. assert (HH : HeapOrder (item_less ((λ p, (mu p, p)) <$> ps)) (item_greater ((λ p, (mu p, p)) <$> ps))).
  { apply item_order, Forall_fmap, Forall_forall. intros p Hp. by apply Hmu. }
  destruct (insert_items_spec _ _ (length ((λ p, (mu p, p)) <$> ps)) 0 new_heap [] (heap_new_wf False _ _)) as (s & h & -> & Hwf & Hp).
  cbn [mbind option_bind]. rewrite app_nil_r, length_fmap in Hp.
  destruct (solve_loop_spec meta info marginal tied weight mu ps p0 ltac:(intros p Hp'; by apply Hmeta) Hmu Htied Hw (S (length ((λ p, (mu p, p)) <$> ps))) s h free inc exc)
    as (order & r & i & e & E & Ho & Eg & Hso); [rewrite Hp, length_seq, length_fmap; lia|done| |done|].
  { apply Forall_forall. intros j. rewrite Hp, elem_of_seq. lia. }
  exists order, r, i, e. split; [exact E|]. split; [by rewrite Ho, Hp, map_nth_seq|done].
Qed.

Lemma positive_number d : positive_double d → is_nan d = false.
Proof. by intros (m & e & ->). Qed.
Lemma max_cost_spec b err : positive_double b →
  ∃ b', max_cost_loop meta l b err = Some (b', err || has_null l) ∧ positive_double b'.
Proof using Hmeta.
  revert b err Hmeta. induction l as [|[p|] l' IH]; intros b err Hmeta Hb; cbn [max_cost_loop].
  - exists b. split; [|done]. by rewrite orb_false_r.
  - destruct (Hmeta p) as [-> [Hc _]]; [by left|]. cbn [mbind option_bind].
    destruct (IH (if dgt b (double_of_int (getCost (info p))) then b else double_of_int (getCost (info p))) err) as (b' & -> & Hb').
    + intros q Hq. apply Hmeta. by right.
    + destruct (dgt b _) eqn:E; [done|]. destruct (decide (getCost (info p) = 0)) as [E0|]; [|apply double_of_int_pos; lia].
      destruct Hb as (m & e & ->). by rewrite E0 in E.
    + by exists b'.
  - destruct (IH b true) as (b' & -> & Hb'); [intros q Hq; by apply Hmeta|done|]. exists b'. split; [|done]. by rewrite orb_true_r.
Qed.

Context (discrete_size : Z) (Hds : 0 < discrete_size < 2 ^ 31).

Lemma discrete_cost_spec c : 0 <= c < 2 ^ 31 → ∃ d, discrete_cost discrete_size c = Some d ∧ 0 < d < 2 ^ 31 ∧ (d = 1 ∨ d <= c).
Proof using Hds.
  intros Hc. unfold discrete_cost, int_quot. destruct (Z.eqb_spec discrete_size 0); [lia|].
  rewrite Z.quot_div_nonneg by lia. pose proof (Z.mul_div_le c discrete_size ltac:(lia)) as H1. pose proof (Z.div_pos c discrete_size ltac:(lia) ltac:(lia)) as H2.
  assert (0 <= discrete_size * (c / discrete_size)) as H3 by nia. assert (c / discrete_size <= c) as H4 by (apply Z.div_le_upper_bound; nia).
  rewrite int_some by lia. cbn [mbind option_bind]. generalize dependent (discrete_size * (c / discrete_size)). intros d H1 H3. rewrite int_some by lia. cbn [mbind option_bind].
  destruct (Z.leb_spec d 0); eexists; (split; [done|]); lia.
Qed.

(** The marginal utility of an object, given the highest cost. *)
Definition cost_of (p : P) : Z := default 1 (discrete_cost discrete_size (getCost (info p))).
Definition utility_of (mem_only : bool) (util_bump : double) (p : P) : double :=
  if mem_only then getUtility (info p) else utility_per util_bump (getUtility (info p)) (cost_of p).

Lemma marginal_run mem_only b p : positive_double b → p ∈ ps →
  discrete_cost discrete_size (getCost (info p)) = Some (cost_of p) ∧
  marginal_utility discrete_size mem_only b (info p) = Some (utility_of mem_only b p) ∧ is_nan (utility_of mem_only b p) = false.
Proof using Hds Hmeta.
  intros Hb Hp. destruct (Hmeta p Hp) as [_ [Hc Hn]]. unfold marginal_utility, utility_of, cost_of. destruct (discrete_cost_spec _ Hc) as (d & -> & Hd & _).
  cbn [mbind option_bind from_option id]. split; [done|]. split; [done|]. destruct mem_only; [done|]. apply utility_per_number; [done|done|lia].
Qed.

(** *** The two optimizers *)

Lemma cache_solve_run mem_only bag exc : 0 <= bag < 2 ^ 31 →
  ∃ util_bump order r kept deleted,
    CacheKnapsackOptimizerGreedy_solve meta discrete_size (Some l) (Some exc) bag mem_only = Some (has_null l, Some (exc ++ deleted)) ∧
    max_cost_loop meta l (double_of_int 1) false = Some (util_bump, has_null l) ∧
    order ≡ₚ ps ∧ greedy (λ p, cache_weight mem_only (info p)) bag order = (r, kept, deleted) ∧
    (mem_only = true ∨ (∀ p q, p ∈ ps → q ∈ ps → cost_of p = cost_of q) → StronglySorted (better info (utility_of mem_only util_bump)) order).
Proof using Hds Hmeta.
  intros Hbag. unfold CacheKnapsackOptimizerGreedy_solve. destruct (max_cost_spec (double_of_int 1) false) as (b & -> & Hb); [by apply double_of_int_pos|]. cbn [mbind option_bind orb].
  destruct (solve_with_spec (marginal_utility discrete_size mem_only b) (cache_tied discrete_size mem_only b) (cache_weight mem_only) (utility_of mem_only b) bag [] exc)
    as (order & r & i & e & -> & Ho & Eg & Hso).
  - intros p Hp. by apply marginal_run.
  - intros p q Hp Hq. unfold cache_tied. destruct (marginal_run mem_only b p Hb Hp) as [-> _]. destruct (marginal_run mem_only b q Hb Hq) as [-> _]. by eexists.
  - intros p Hp. destruct (Hmeta p Hp) as [_ [Hc _]]. unfold cache_weight. destruct mem_only; lia.
  - done.
  - cbn [mbind option_bind]. exists b, order, r, i, e. split; [done|]. split; [done|]. split; [done|]. split; [done|]. intros He. apply Hso.
    intros p q Hp Hq. unfold cache_tied, utility_of. destruct (marginal_run mem_only b p Hb Hp) as [-> _]. destruct (marginal_run mem_only b q Hb Hq) as [-> _].
    cbn [mbind option_bind]. destruct mem_only; [done|]. destruct He as [?|He]; [done|]. by rewrite (He p q).
Qed.
End Solve.

Section Theorems.
Context {P : Type} (meta : P → option utility_info) (info : P → utility_info) (discrete_size : Z).

(** C25: the optimizer of the cache deletes what a greedy choice leaves out: whatever objects - with a cost
    from 0 to 2^31 - 1 and a utility that is a number - and whatever bag, it comes to an end, reports an
    error exactly when the list has a NULL, and its additions to the list of those to delete are the objects
    that did not fit when they were tried in some order.  The others take less than the bag, if it is not empty, and each object deleted takes at least what
    was left free.  For [mem_only], or when all objects have the same discretised
    cost, the order is that of falling marginal utility, and among equals the newest first
    ([docs/changes-ucaching.txt] has those created earlier first). *)
Theorem cache_knapsack l mem_only bag exc :
  (∀ p, p ∈ omap id l → meta p = Some (info p) ∧ sound_info (info p)) → 0 < discrete_size < 2 ^ 31 → 0 <= bag < 2 ^ 31 →
  let weight p := cache_weight mem_only (info p) in
  ∃ util_bump order kept deleted,
    CacheKnapsackOptimizerGreedy_solve meta discrete_size (Some l) (Some exc) bag mem_only = Some (has_null l, Some (exc ++ deleted)) ∧
    max_cost_loop meta l (double_of_int 1) false = Some (util_bump, has_null l) ∧
    order ≡ₚ omap id l ∧ kept ++ deleted ≡ₚ omap id l ∧
    greedy weight bag order = (bag - total weight kept, kept, deleted) ∧
    (0 < bag → total weight kept < bag) ∧ (∀ p, p ∈ deleted → bag - total weight kept <= weight p) ∧
    (mem_only = true ∨ (∀ p q, p ∈ omap id l → q ∈ omap id l → cost_of info discrete_size p = cost_of info discrete_size q) →
     StronglySorted (better info (utility_of info discrete_size mem_only util_bump)) order).
Proof.
  intros Hm Hds Hb weight. destruct (cache_solve_run meta info l Hm discrete_size Hds mem_only bag exc Hb) as (b & order & r & kept & deleted & E & Eb & Ho & Eg & Hso).
  destruct (greedy_facts weight _ _ _ _ _ Eg) as (Hp & Hr & Hpos & _ & _ & Hdel).
  { intros p Hp. rewrite Ho in Hp. destruct (Hm p Hp) as [_ [Hc _]]. unfold weight, cache_weight. destruct mem_only; lia. }
  exists b, order, kept, deleted. subst r. split_and!; try done; [by rewrite Hp|lia].
Qed.

End Theorems.

(** ** Concrete objects *)

Definition ratio (a b : Z) : double := ddiv (double_of_int a) (double_of_int b).
Definition ex_objects : list utility_info :=
  [Info 1000 (ratio 1 2) (TV 2 0); Info 10 (ratio 1 2) (TV 1 0); Info 500 (ratio 1 10) (TV 3 0)].
Definition ex_meta (i : nat) : option utility_info := ex_objects !! i.
Abbreviation ex_process := (Some <$> [0; 1; 2]%nat).

(** The object of 10 bytes has the higher marginal utility, but the cache takes the two for a tie, and the newer one first. *)
Example cache_takes_a_tie :
  CacheKnapsackOptimizerGreedy_solve ex_meta 1 (Some (take 2 ex_process)) (Some []) 1005 false = Some (false, Some [1%nat]).
Proof. vm_compute. reflexivity. Qed.
Example replication_takes_no_tie :
  ReplicationKnapsackOptimizerGreedy_solve ex_meta 1 (Some (take 2 ex_process)) [] (Some []) 1005 = Some (false, [1%nat], Some [0%nat]).
Proof. vm_compute. reflexivity. Qed.
(** An object that fits exactly is left out. *)
Example exact_fit : ReplicationKnapsackOptimizerGreedy_solve ex_meta 1 (Some [Some 1%nat]) [] (Some []) 10 = Some (false, [], Some [1%nat]).
Proof. vm_compute. reflexivity. Qed.
(** With a block size of 50000, [README-udissemination.txt] gives objects of 50000 and 20000 bytes and of the same utility the same
    value, one over one block.  The code divides by 50000 and by 1: the smaller is first, although the other is newer. *)
Example discrete_costs : (discrete_cost 50000 50000, discrete_cost 50000 20000) = (Some 50000, Some 1).
Proof. reflexivity. Qed.
Definition ex_blocks (i : nat) : option utility_info := [Info 50000 (ratio 1 1) (TV 2 0); Info 20000 (ratio 1 1) (TV 1 0)] !! i.
Example discrete_no_tie :
  ReplicationKnapsackOptimizerGreedy_solve ex_blocks 50000 (Some [Some 0%nat; Some 1%nat]) [] (Some []) 50001 = Some (false, [1%nat], Some [0%nat]).
Proof. vm_compute. reflexivity. Qed.
(** Among equals the cache keeps what was created later. *)
Example newest_first :
  CacheKnapsackOptimizerGreedy_solve (λ i, [Info 10 (ratio 1 1) (TV 1 0); Info 10 (ratio 1 1) (TV 2 0)] !! i) 1 (Some [Some 0%nat; Some 1%nat]) (Some []) 11 false = Some (false, Some [0%nat]).
Proof. vm_compute. reflexivity. Qed.
(** [onConfig] reports a discrete size of 0 but keeps it. *)
Example discrete_size_zero : CacheKnapsackOptimizerGreedy_solve ex_meta 0 (Some ex_process) (Some []) 10 false = None.
Proof. reflexivity. Qed.
Example null_list : CacheKnapsackOptimizerGreedy_solve ex_meta 1 None (Some []) 10 false = Some (true, Some []). Proof. reflexivity. Qed.

Definition ex_info (i : nat) : utility_info := nth i ex_objects (Info 0 (S754_zero false) zero).
Lemma ex_sound l : Forall (λ p, p < 3)%nat (omap id l) → ∀ p, p ∈ omap id l → ex_meta p = Some (ex_info p) ∧ sound_info (ex_info p).
Proof.
  intros H p Hp. rewrite Forall_forall in H. specialize (H p Hp). destruct p as [|[|[|p]]]; [..|lia]; (split; [reflexivity|]); split; cbn; (lia || reflexivity).
Qed.

Lemma cache_knapsack_witness :
  ∃ kept deleted, CacheKnapsackOptimizerGreedy_solve ex_meta 100 (Some (None :: ex_process)) (Some []) 1200 false = Some (true, Some deleted) ∧
    kept ++ deleted ≡ₚ [0; 1; 2]%nat ∧ total (λ p, getCost (ex_info p)) kept < 1200.
Proof.
  destruct (cache_knapsack ex_meta ex_info 100 (None :: ex_process) false 1200 []) as (b & order & kept & deleted & E & _ & _ & Hp & _ & Hlt & _).
  - apply ex_sound. by repeat constructor.
  - lia.
  - lia.
  - exists kept, deleted. split; [exact E|]. split; [exact Hp|]. apply Hlt. lia.
Defined.

