(* ===== verification/Cache.v ===== *)
(** * Cache: the cache of the kernel that keeps what is most useful ([CacheStrategyUtility.cpp]).

    The strategy has a [Map] from identifiers to pointers to [DataObjectUtilityMetadata]; a purge
    computes utilities anew, gives the objects to the optimizer of [Knapsack], and deletes what it
    says.  The metadata are in a store of their own, since two lists of the purge hold pointers to
    them while they are deleted: a pointer whose object was deleted is not in the store any more.

    The utility function and the replacement strategy for statistics are objects behind virtual
    functions: what they answer is an argument.  Of a data object, [dobj] has what the strategy
    asks.  The metadata have a reference to the object, not a copy: the managers that share the object change it
    while it is in the cache - the data store marks a second copy of what it has as a duplicate - and the strategy
    asks the object anew each time.  The objects are a function from references, which is an argument of every
    operation and which [Change] updates between two operations; within one operation it is read in one state.
    The calls of the data manager, of the data store and of the kernel are recorded as
    [effect]s.  The counters and sizes ([int], [long long]) are without overflow; the conversions
    of a length and of the capacities to [int] are written out. *)

From Stdlib Require Import SpecFloat.
From stdpp Require Import functions.
From S2P Require Import Prelude Timeval Heap CppString CppMap Knapsack.

Record dobj := DObj
  { getIdStr : string; isDuplicate : bool; isLocal : bool; isControlMessage : bool; isNodeDescription : bool;
    getOrigDataLen : Z; isPersistent : bool; getCreateTime : Timeval }.

(** What the managers do to an object that others refer to. *)
Definition setDuplicate (d : dobj) : dobj :=
  DObj (getIdStr d) true (isLocal d) (isControlMessage d) (isNodeDescription d) (getOrigDataLen d) (isPersistent d) (getCreateTime d).
Definition setControlMessage (d : dobj) : dobj :=
  DObj (getIdStr d) (isDuplicate d) (isLocal d) true (isNodeDescription d) (getOrigDataLen d) (isPersistent d) (getCreateTime d).
Definition setPersistent (b : bool) (d : dobj) : dobj :=
  DObj (getIdStr d) (isDuplicate d) (isLocal d) (isControlMessage d) (isNodeDescription d) (getOrigDataLen d) b (getCreateTime d).

(** [m_dObj] is a reference to the object. *)
Record DataObjectUtilityMetadata := UMeta
  { m_dObj : nat; m_id : string; m_cost : Z; m_utility : double; m_compute_date : Timeval; m_create_date : Timeval;
    m_enableDeletion : bool }.
Definition new_metadata (d : nat) (id : string) (cost : Z) (utility : double) (compute_date create_date : Timeval) : DataObjectUtilityMetadata :=
  UMeta d id cost utility compute_date create_date true.
Definition setUtility (m : DataObjectUtilityMetadata) (utility : double) (now : Timeval) : DataObjectUtilityMetadata :=
  UMeta (m_dObj m) (m_id m) (m_cost m) utility now (m_create_date m) (m_enableDeletion m).
Definition setEnableDeletion (m : DataObjectUtilityMetadata) (b : bool) : DataObjectUtilityMetadata :=
  UMeta (m_dObj m) (m_id m) (m_cost m) (m_utility m) (m_compute_date m) (m_create_date m) b.

Inductive effect :=
  | NotifyInsertion (d : nat) | NotifyDelete (d : nat) | NotifySendSuccess (d : nat)
  | CancelSendEvents (d : nat)
  | DeleteDataObject (id : string)
  | InsertIntoDataStore (d : nat)
  | RemoveFromBloomfilter (id : string) (delay_ms : Z)
  | StatsNewDataObject (d : nat) | PublishStats.

(** The configuration, with the members that are objects: the optimizer's [discrete_size], the
    threshold of the global optimizer, and for which objects the replacement of statistics, if
    there is one, is responsible. *)
Record config := Config
  { computePeriodMs : Z; max_capacity_kb : Z; watermark_capacity_kb : Z; purgeOnInsert : bool; discrete_size : Z;
    minThreshold : double; db_size_threshold : Z; allow_db_purging : bool; manage_only_remote_files : bool;
    manage_locally_sent_files : bool; publish_stats_dataobject : bool; stats_replacement_strat : option (dobj → bool);
    keep_in_bloomfilter : bool; handle_zero_size : bool; bloomfilter_remove_delay_ms : Z }.

(** The members that change.  [store] and [fresh] are the memory of the metadata. *)
Record strategy := Strategy
  { utilMetadata : @BasicMap string nat; store : gmap nat DataObjectUtilityMetadata; fresh : nat;
    current_num_do : Z; current_size : Z; total_do_inserted : Z; total_do_inserted_bytes : Z;
    total_do_evicted : Z; total_do_evicted_bytes : Z; total_db_evicted : Z;
    total_do_hard_evicted : Z; total_do_hard_evicted_bytes : Z; current_dupe_do_recv : Z; current_drop_on_insert : Z }.
Definition strategy_new : strategy := Strategy bm_new ∅ 0 0 0 0 0 0 0 0 0 0 0 0.

Definition set_store (st : strategy) (h : gmap nat DataObjectUtilityMetadata) : strategy :=
  Strategy (utilMetadata st) h (fresh st) (current_num_do st) (current_size st) (total_do_inserted st) (total_do_inserted_bytes st)
    (total_do_evicted st) (total_do_evicted_bytes st) (total_db_evicted st) (total_do_hard_evicted st) (total_do_hard_evicted_bytes st)
    (current_dupe_do_recv st) (current_drop_on_insert st).
Definition set_map (st : strategy) (m : @BasicMap string nat) : strategy :=
  Strategy m (store st) (fresh st) (current_num_do st) (current_size st) (total_do_inserted st) (total_do_inserted_bytes st)
    (total_do_evicted st) (total_do_evicted_bytes st) (total_db_evicted st) (total_do_hard_evicted st) (total_do_hard_evicted_bytes st)
    (current_dupe_do_recv st) (current_drop_on_insert st).

Section Strategy.
Context (cfg : config) (objs : nat → dobj).

Definition stats_responsible (d : dobj) : bool := match stats_replacement_strat cfg with Some f => f d | None => false end.
Definition isResponsibleForDataObject (d : dobj) : bool :=
  if isDuplicate d then false
  else
    let r := negb (isControlMessage d || isNodeDescription d) in
    let r := if handle_zero_size cfg then r else r && (0 <? getOrigDataLen d) in
    let r := if manage_locally_sent_files cfg then r else r && isPersistent d in
    if stats_responsible d then true else if manage_only_remote_files cfg then r && negb (isLocal d) else r.

Definition remove_from_bloomfilter (id : string) : list effect :=
  if keep_in_bloomfilter cfg then []
  else [RemoveFromBloomfilter id (if bloomfilter_remove_delay_ms cfg <=? 0 then 1000 else bloomfilter_remove_delay_ms cfg)].

Definition count_deleted (st : strategy) (mem_do : bool) (cost : Z) : strategy :=
  if mem_do then
    Strategy (utilMetadata st) (store st) (fresh st) (current_num_do st - 1) (current_size st - cost) (total_do_inserted st) (total_do_inserted_bytes st)
      (total_do_evicted st) (total_do_evicted_bytes st) (total_db_evicted st + 1) (total_do_hard_evicted st) (total_do_hard_evicted_bytes st)
      (current_dupe_do_recv st) (current_drop_on_insert st)
  else
    Strategy (utilMetadata st) (store st) (fresh st) (current_num_do st - 1) (current_size st - cost) (total_do_inserted st) (total_do_inserted_bytes st)
      (total_do_evicted st + 1) (total_do_evicted_bytes st + cost) (total_db_evicted st) (total_do_hard_evicted st) (total_do_hard_evicted_bytes st)
      (current_dupe_do_recv st) (current_drop_on_insert st).

(** The pointers in the map are not NULL. *)
Definition deleteDataObjectFromCache (st : strategy) (doid : string) (mem_do : bool) : option (bool * list effect * strategy) :=
  it ← CppMap.find string_lt string_eq (utilMetadata st) doid;
  match it with
  | None => Some (false, [], st)
  | Some _ =>
    '(_, p) ← deref (utilMetadata st) it;
    m ← erase_at (utilMetadata st) it;
    let st := set_map st m in
    u ← store st !! p;
    let st := count_deleted st mem_do (m_cost u) in
    Some (true, remove_from_bloomfilter (m_id u), set_store st (delete p (store st)))
  end.

Definition _handleDeletedDataObject (st : strategy) (d : nat) (mem_do : bool) : option (list effect * strategy) :=
  if negb (isResponsibleForDataObject (objs d)) then Some ([], st)
  else if stats_responsible (objs d) then Some ([], st)
  else
    '(b, fx, st) ← deleteDataObjectFromCache st (getIdStr (objs d)) mem_do;
    Some (if b : bool then fx ++ [NotifyDelete d] else fx, st).

Definition _handleSendSuccess (d : nat) : list effect :=
  if isResponsibleForDataObject (objs d) then [NotifySendSuccess d] else [].

(** ** The purge *)

Definition getTimeAsMilliSecondsDouble (t : Timeval) : double :=
  dplus (dmult (double_of_int (tv_sec t)) (double_of_int 1000)) (ddiv (double_of_int (tv_usec t)) (double_of_int 1000)).

(** A utility that was computed too long ago is computed again. *)
Definition refresh (compute : string → double) (now : Timeval) (m : DataObjectUtilityMetadata) : DataObjectUtilityMetadata :=
  let delta := dminus (getTimeAsMilliSecondsDouble now) (getTimeAsMilliSecondsDouble (m_compute_date m)) in
  if dgt delta (double_of_int (computePeriodMs cfg)) then setUtility m (compute (m_id m)) now else m.

(** The loop over the cache: the total size, and the objects to process and to delete. *)
Fixpoint scan_loop (compute : string → double) (clock : string → Timeval) (es : list (string * nat)) (h : gmap nat DataObjectUtilityMetadata)
    (total_size : Z) (process_dos delete_dos : list nat) : option (Z * list nat * list nat * gmap nat DataObjectUtilityMetadata) :=
  match es with
  | [] => Some (total_size, process_dos, delete_dos, h)
  | (id, p) :: es =>
    m ← h !! p;
    let m := refresh compute (clock id) m in
    let h := <[p := m]> h in
    if SFltb (m_utility m) (minThreshold cfg) then scan_loop compute clock es h (total_size + m_cost m) process_dos (p :: delete_dos)
    else scan_loop compute clock es h (total_size + m_cost m) (p :: process_dos) delete_dos
  end.

(** What the optimizer asks of the object at a pointer. *)
Definition info_of (m : DataObjectUtilityMetadata) : utility_info := Info (m_cost m) (m_utility m) (m_create_date m).
Definition solve (h : gmap nat DataObjectUtilityMetadata) (process_dos delete_dos : list nat) (bag_size : Z) (mem_only : bool) : option (list nat) :=
  '(_, r) ← CacheKnapsackOptimizerGreedy_solve (λ p, info_of <$> h !! p) (discrete_size cfg) (Some (Some <$> process_dos)) (Some delete_dos) bag_size mem_only;
  r.

(** The loop that deletes; [doid] is given when the caller wants to know whether that object was deleted. *)
Fixpoint delete_loop (delete_dos : list nat) (mem_do : bool) (doid : option string) (was_deleted : bool) (st : strategy)
    : option (bool * list effect * strategy) :=
  match delete_dos with
  | [] => Some (was_deleted, [], st)
  | p :: delete_dos =>
    m ← store st !! p;
    let was_deleted := if bool_decide (doid = Some (m_id m)) then true else was_deleted in
    let fx := if m_enableDeletion m then [DeleteDataObject (m_id m)] else [] in
    '(fx1, st) ← _handleDeletedDataObject st (m_dObj m) mem_do;
    '(was_deleted, fx2, st) ← delete_loop delete_dos mem_do doid was_deleted st;
    Some (was_deleted, fx ++ fx1 ++ fx2, st)
  end.

Definition _purgeCache (compute : string → double) (clock : string → Timeval) (doid : option string) (st : strategy)
    : option (bool * list effect * strategy) :=
  es ← entries (utilMetadata st);
  '(total_size, process_dos, delete_dos, h) ← scan_loop compute clock es (store st) 0 [] [];
  let st := set_store st h in
  if negb (total_size =? current_size st) then Some (false, [], st)
  else
    let watermark := watermark_capacity_kb cfg * 1024 in
    delete_dos ← (if watermark <? total_size then solve h process_dos delete_dos (s32 watermark) false else Some delete_dos);
    '(was_deleted, fx1, st) ← delete_loop delete_dos false doid false st;
    if watermark <? current_size st then Some (was_deleted, fx1, st)
    else
      delete_dos ← (if allow_db_purging cfg && (db_size_threshold cfg <? current_num_do st)
                    then solve (store st) process_dos [] (s32 (db_size_threshold cfg + 1)) true else Some []);
      '(was_deleted, fx2, st) ← delete_loop delete_dos true doid was_deleted st;
      Some (was_deleted, fx1 ++ fx2 ++ (if publish_stats_dataobject cfg then [PublishStats] else []), st).

(** ** A new data object *)

Definition count_drop (st : strategy) : strategy :=
  Strategy (utilMetadata st) (store st) (fresh st) (current_num_do st) (current_size st) (total_do_inserted st) (total_do_inserted_bytes st)
    (total_do_evicted st) (total_do_evicted_bytes st) (total_db_evicted st) (total_do_hard_evicted st) (total_do_hard_evicted_bytes st)
    (current_dupe_do_recv st) (current_drop_on_insert st + 1).
Definition count_dupe (st : strategy) : strategy :=
  Strategy (utilMetadata st) (store st) (fresh st) (current_num_do st) (current_size st) (total_do_inserted st) (total_do_inserted_bytes st)
    (total_do_evicted st) (total_do_evicted_bytes st) (total_db_evicted st) (total_do_hard_evicted st) (total_do_hard_evicted_bytes st)
    (current_dupe_do_recv st + 1) (current_drop_on_insert st).
Definition count_hard (st : strategy) (cost : Z) : strategy :=
  Strategy (utilMetadata st) (store st) (fresh st) (current_num_do st) (current_size st) (total_do_inserted st) (total_do_inserted_bytes st)
    (total_do_evicted st) (total_do_evicted_bytes st) (total_db_evicted st) (total_do_hard_evicted st + 1) (total_do_hard_evicted_bytes st + cost)
    (current_dupe_do_recv st) (current_drop_on_insert st).
Definition count_inserted (st : strategy) (cost : Z) : strategy :=
  Strategy (utilMetadata st) (store st) (fresh st) (current_num_do st + 1) (current_size st + cost) (total_do_inserted st + 1) (total_do_inserted_bytes st + cost)
    (total_do_evicted st) (total_do_evicted_bytes st) (total_db_evicted st) (total_do_hard_evicted st) (total_do_hard_evicted_bytes st)
    (current_dupe_do_recv st) (current_drop_on_insert st).
(** [new DataObjectUtilityMetadata]. *)
Definition allocate (st : strategy) (m : DataObjectUtilityMetadata) : nat * strategy :=
  (fresh st, Strategy (utilMetadata st) (<[fresh st := m]> (store st)) (S (fresh st)) (current_num_do st) (current_size st) (total_do_inserted st) (total_do_inserted_bytes st)
    (total_do_evicted st) (total_do_evicted_bytes st) (total_db_evicted st) (total_do_hard_evicted st) (total_do_hard_evicted_bytes st)
    (current_dupe_do_recv st) (current_drop_on_insert st)).

(** [now] is the time of the insertion, [clock] that of the purge after it. *)
Definition _handleNewDataObject (compute : string → double) (now : Timeval) (clock : string → Timeval) (d : nat) (st : strategy)
    : option (list effect * strategy) :=
  if negb (isResponsibleForDataObject (objs d)) then Some ([], st)
  else if stats_responsible (objs d) then Some ([StatsNewDataObject d], st)
  else
    let id := getIdStr (objs d) in
    it ← CppMap.find string_lt string_eq (utilMetadata st) id;
    match it with
    | Some _ => Some ([], count_dupe st)
    | None =>
      let cost := s32 (getOrigDataLen (objs d)) in
      let cost := if cost =? 0 then 1 else cost in
      let utility := compute id in
      let low := SFltb utility (minThreshold cfg) in
      let st := if low then count_drop st else st in
      let full := negb (purgeOnInsert cfg) && (max_capacity_kb cfg * 1024 <? current_size st + cost) in
      let st := if full then count_hard st cost else st in
      if low || full then Some ([NotifyInsertion d; NotifyDelete d; CancelSendEvents d] ++ remove_from_bloomfilter id, st)
      else
        let m := new_metadata d id cost utility now (getCreateTime (objs d)) in
        let m := if purgeOnInsert cfg then setEnableDeletion m false else m in
        let '(p, st) := allocate st m in
        '(_, inserted, um) ← insert_unique string_lt string_eq (utilMetadata st) (id, p);
        if negb (inserted : bool) then Some ([NotifyInsertion d], set_store st (delete p (store st)))
        else
          let st := count_inserted (set_map st um) cost in
          if negb (purgeOnInsert cfg) then Some ([NotifyInsertion d; InsertIntoDataStore d], st)
          else
            '(was_deleted, fx, st) ← _purgeCache compute clock (Some id) st;
            if was_deleted : bool then Some (NotifyInsertion d :: fx, count_drop st)
            else
              m ← store st !! p;
              Some (NotifyInsertion d :: fx ++ [InsertIntoDataStore d], set_store st (<[p := setEnableDeletion m true]> (store st)))
    end.
End Strategy.

(** ** The invariant *)

Section Invariant.
Context (cfg : config).

(** The objects that the strategy deletes when it is told to. *)
Definition managed (d : dobj) : bool := isResponsibleForDataObject cfg d && negb (stats_responsible cfg d).

Section Objects.
Context (objs : nat → dobj).

(** What the cache holds of an object. *)
Record good (id : string) (m : DataObjectUtilityMetadata) : Prop := Good
  { good_id : m_id m = id; good_ref : getIdStr (objs (m_dObj m)) = id; good_cost : 0 < m_cost m < 2 ^ 31; good_utility : is_nan (m_utility m) = false }.
Definition cost_at (h : gmap nat DataObjectUtilityMetadata) (p : nat) : Z := default 0 (m_cost <$> h !! p).
Definition managed_at (h : gmap nat DataObjectUtilityMetadata) (p : nat) : bool := default false ((λ m, managed (objs (m_dObj m))) <$> h !! p).

(** The strategy has the entries [l]: every pointer is to the metadata of its object, no two are
    the same, and the size and the number are those of the entries. *)
Record cache_wf (st : strategy) (l : list (string * nat)) : Prop := CacheWf
  { co_map : map_wf string_lt (utilMetadata st) l (list_to_map l);
    co_pointers : NoDup l.*2;
    co_meta : ∀ id p, (id, p) ∈ l → (p < fresh st)%nat ∧ ∃ m, store st !! p = Some m ∧ good id m;
    co_size : current_size st = total (cost_at (store st)) l.*2;
    co_number : current_num_do st = Z.of_nat (length l) }.
(** And the strategy is responsible for each of the objects. *)
Definition cache_ok (st : strategy) (l : list (string * nat)) : Prop := cache_wf st l ∧ ∀ p, p ∈ l.*2 → managed_at (store st) p = true.
(** The size of the entries whose object the strategy is responsible for. *)
Definition managed_size (st : strategy) (l : list (string * nat)) : Z := total (cost_at (store st)) (filter (λ p, managed_at (store st) p = true) l.*2).

Lemma cost_at_some h p m : h !! p = Some m → cost_at h p = m_cost m.
Proof. unfold cost_at. by intros ->. Qed.
Lemma total_ext {P} (f g : P → Z) l : (∀ p, p ∈ l → f p = g p) → total f l = total g l.
Proof.
  unfold total. induction l as [|p l IH]; intros H; cbn; [done|]. rewrite (H p) by by left. f_equal. apply IH. intros q Hq. apply H. by right.
Qed.
Lemma co_positive st l : cache_wf st l → ∀ p, p ∈ l.*2 → 0 < cost_at (store st) p < 2 ^ 31.
Proof.
  intros H p Hp. apply list_elem_of_fmap in Hp as ([id q] & -> & Hq). destruct (co_meta _ _ H _ _ Hq) as (_ & m & Em & Hg). cbn.
  rewrite (cost_at_some _ _ _ Em). apply Hg.
Qed.

Lemma cache_new_wf : cache_wf strategy_new [].
Proof. split; [split; [split; cbn; done || lia|constructor|constructor|done]|constructor|intros id p Hp; by apply not_elem_of_nil in Hp|done|done]. Qed.

(** Erasing the entry that [find] finds. *)
Lemma find_erase (m : @BasicMap string nat) l k v :
  map_wf string_lt m l (list_to_map l) → (k, v) ∈ l →
  ∃ i m' l', CppMap.find string_lt string_eq m k = Some (Some i) ∧ deref m (Some i) = Some (k, v) ∧ erase_at m (Some i) = Some m' ∧
    map_wf string_lt m' l' (list_to_map l') ∧ l ≡ₚ (k, v) :: l'.
Proof.
  intros Hwf Hin. destruct (find_spec string_lt string_eq m l k (mw_rep _ _ _ _ Hwf) (mw_sorted _ _ _ _ Hwf)) as (it & E & Hit). destruct it as [i|]; [|by destruct (Hit _ Hin)].
  destruct Hit as [(x & Hx & Hk) _]. assert (x = (k, v)) as ->.
  { pose proof (mw_nodup _ _ _ _ Hwf) as Hnd. apply list_elem_of_lookup in Hin as [j Hj].
    assert (i = j) as ->; [|congruence]. apply (NoDup_lookup l.*1 i j k); [done|..]; rewrite list_lookup_fmap; [rewrite Hx|rewrite Hj]; cbn; congruence. }
  destruct (erase_at_spec m l i (k, v) (mw_rep _ _ _ _ Hwf) Hx) as (m' & Em & Hr & _). pose proof (delete_Permutation l i _ Hx) as Hp.
  exists i, m', (delete i l). split; [done|]. split; [unfold deref; cbn [mbind option_bind]; by rewrite (rep_slot _ _ _ _ (mw_rep _ _ _ _ Hwf) Hx)|]. split; [done|]. split; [|done].
  split; [done| | |done].
  - unfold ksorted. pose proof (mw_sorted _ _ _ _ Hwf) as Hs. unfold ksorted in Hs. rewrite <- (take_drop_middle l i _ Hx) in Hs. rewrite delete_take_drop.
    apply StronglySorted_app in Hs as (Hc & Ht & Hd). apply StronglySorted_cons in Hd as [_ Hd]. apply StronglySorted_app. split_and!; [|done|done].
    intros a b Ha Hb. apply Hc; [done|by right].
  - pose proof (mw_nodup _ _ _ _ Hwf) as Hnd. rewrite Hp in Hnd. cbn in Hnd. by apply NoDup_cons in Hnd as [_ Hnd].
Qed.
Lemma find_absent (m : @BasicMap string nat) l k :
  map_wf string_lt m l (list_to_map l) → k ∉ l.*1 → CppMap.find string_lt string_eq m k = Some None.
Proof.
  intros Hwf Hn. destruct (find_spec string_lt string_eq m l k (mw_rep _ _ _ _ Hwf) (mw_sorted _ _ _ _ Hwf)) as (it & E & Hit). destruct it as [i|]; [|done].
  destruct Hit as [(x & Hx & <-) _]. exfalso. apply Hn. apply list_elem_of_fmap_2. by apply list_elem_of_lookup_2 in Hx.
Qed.

Lemma total_delete h p l : p ∉ l → total (cost_at (delete p h)) l = total (cost_at h) l.
Proof. intros Hn. apply total_ext. intros q Hq. unfold cost_at. rewrite lookup_delete_ne; [done|]. intros ->. done. Qed.

(** Deleting an object that is there. *)
Lemma delete_run st l id p mem_do : cache_wf st l → (id, p) ∈ l →
  ∃ st' l', deleteDataObjectFromCache cfg st id mem_do = Some (true, remove_from_bloomfilter cfg id, st') ∧
    l ≡ₚ (id, p) :: l' ∧ cache_wf st' l' ∧ store st' = delete p (store st) ∧ fresh st' = fresh st.
Proof.
  intros H Hin. destruct (co_meta _ _ H _ _ Hin) as (Hf & u & Eu & Hg). unfold deleteDataObjectFromCache.
  destruct (find_erase _ _ _ _ (co_map _ _ H) Hin) as (i & m' & l' & -> & Ed & Ee & Hwf & Hp). cbn [mbind option_bind]. rewrite Ed. cbn [mbind option_bind]. rewrite Ee. cbn [mbind option_bind].
  change (store (set_map st m')) with (store st). rewrite Eu. cbn [mbind option_bind]. rewrite (good_id _ _ Hg).
  assert (Hnd : NoDup (p :: l'.*2)) by (pose proof (co_pointers _ _ H) as Hnd; by rewrite Hp in Hnd). apply NoDup_cons in Hnd as [Hnp Hnd].
  assert (Hs : current_size st = m_cost u + total (cost_at (delete p (store st))) l'.*2).
  { rewrite (co_size _ _ H), (weight_perm _ _ ((id, p) :: l').*2) by by rewrite Hp. cbn [fmap list_fmap snd]. rewrite total_cons, (cost_at_some _ _ _ Eu), total_delete by done. done. }
  assert (Hl : length l = S (length l')) by by rewrite Hp. pose proof (co_number _ _ H).
  eexists _, l'. split; [done|]. split; [done|]. split; [|by destruct mem_do].
  destruct mem_do; (split; cbn [set_store count_deleted set_map utilMetadata store fresh current_size current_num_do]; [done|done| |lia|lia]);
    (intros id' q Hq; destruct (co_meta _ _ H id' q) as (Hf' & m & Em & Hg'); [rewrite Hp; by right|]; split; [done|]; exists m; split; [|done];
     rewrite lookup_delete_ne; [done|]; intros ->; apply Hnp; by apply (list_elem_of_fmap_2 snd) in Hq).
Qed.
Lemma delete_absent st l id mem_do : cache_wf st l → id ∉ l.*1 → deleteDataObjectFromCache cfg st id mem_do = Some (false, [], st).
Proof. intros H Hn. unfold deleteDataObjectFromCache. by rewrite (find_absent _ _ _ (co_map _ _ H) Hn). Qed.
(** An entry is determined by its pointer. *)
Lemma entry_unique st l id id' p : cache_wf st l → (id, p) ∈ l → (id', p) ∈ l → id = id'.
Proof.
  intros H Hq Hin. pose proof (co_pointers _ _ H) as Hnd. apply list_elem_of_lookup in Hq as [i Hi], Hin as [j Hj].
  assert (i = j) as ->; [|congruence]. apply (NoDup_lookup l.*2 i j p Hnd); rewrite list_lookup_fmap; [by rewrite Hi|by rewrite Hj].
Qed.
Lemma entry_key st l id p q : cache_wf st l → (id, p) ∈ l → (id, q) ∈ l → p = q.
Proof.
  intros H Hq Hin. pose proof (mw_nodup _ _ _ _ (co_map _ _ H)) as Hnd. apply list_elem_of_lookup in Hq as [i Hi], Hin as [j Hj].
  assert (i = j) as ->; [|congruence]. apply (NoDup_lookup l.*1 i j id Hnd); rewrite list_lookup_fmap; [by rewrite Hi|by rewrite Hj].
Qed.
Lemma entry_iff st l l' x : cache_wf st l → (∀ x, x ∈ l' → x ∈ l) → x ∈ l → x ∈ l' ↔ x.2 ∈ l'.*2.
Proof.
  intros H Hsub Hx. split; [by apply (list_elem_of_fmap_2 snd)|]. intros Hp. apply list_elem_of_fmap in Hp as ([id q] & Eq & Hin). cbn in Eq. destruct x as [id' p].
  cbn in Eq. subst q. by rewrite (entry_unique st l id' id p H Hx (Hsub _ Hin)).
Qed.
Lemma filter_ext_in {P} (f g : P → bool) (b : bool) (l : list P) : (∀ p, p ∈ l → f p = g p) → filter (λ p, f p = b) l = filter (λ p, g p = b) l.
Proof.
  induction l as [|p l IH]; intros H; [done|]. rewrite !filter_cons. rewrite (H p) by by left.
  rewrite IH; [done|]. intros q Hq. apply H. by right.
Qed.
Lemma managed_at_some h p m : h !! p = Some m → managed_at h p = managed (objs (m_dObj m)).
Proof. unfold managed_at. by intros ->. Qed.
Lemma managed_deleted st m mem_do : managed (objs (m_dObj m)) = false → _handleDeletedDataObject cfg objs st (m_dObj m) mem_do = Some ([], st).
Proof.
  unfold managed, _handleDeletedDataObject. destruct (isResponsibleForDataObject cfg (objs (m_dObj m))); cbn [andb negb]; [|done].
  by destruct (stats_responsible cfg (objs (m_dObj m))).
Qed.

(** The loop that deletes, for pointers of the cache: an entry goes unless the strategy is not responsible for its object any more. *)
Lemma delete_loop_run mem_do doid dels : ∀ was st l rest, cache_wf st l → dels ++ rest ≡ₚ l.*2 →
  ∃ was' fx st' l', delete_loop cfg objs dels mem_do doid was st = Some (was', fx, st') ∧ cache_wf st' l' ∧
    l'.*2 ≡ₚ filter (λ p, managed_at (store st) p = false) dels ++ rest ∧ (∀ x, x ∈ l' → x ∈ l) ∧
    (∀ q, q ∈ l'.*2 → store st' !! q = store st !! q) ∧ fresh st' = fresh st ∧ (was' = true ↔ was = true ∨ ∃ id p, (id, p) ∈ l ∧ p ∈ dels ∧ doid = Some id).
Proof.
  induction dels as [|p dels IH]; intros was st l rest H Hp; cbn [delete_loop].
  - exists was, [], st, l. split_and!; try done.
    split; [by left|]. intros [?|(? & q & _ & Hq & _)]; [done|by apply not_elem_of_nil in Hq].
  - assert (Hin : p ∈ l.*2) by (rewrite <- Hp; by left). apply list_elem_of_fmap in Hin as ([id q] & Eq & Hin). cbn in Eq. subst q.
    destruct (co_meta _ _ H _ _ Hin) as (_ & m & Em & Hg). rewrite Em. cbn [mbind option_bind]. rewrite (good_id _ _ Hg).
    set (was1 := if bool_decide (doid = Some id) then true else was).
    assert (Hwas : ∀ l1 : list (string * nat), (∀ x, x ∈ l1 → x ∈ l) → (∀ x, x ∈ l → x.2 ≠ p → x ∈ l1) →
      (was1 = true ∨ ∃ id p, (id, p) ∈ l1 ∧ p ∈ dels ∧ doid = Some id) ↔ (was = true ∨ ∃ id q, (id, q) ∈ l ∧ q ∈ p :: dels ∧ doid = Some id)).
    { intros l1 Hs1 Hs2. unfold was1. split.
      - intros [Hb|(id' & q & Hq & Hqd & E)]; [case_bool_decide; [|by left]|]; right; [exists id, p|exists id', q]; (split; [first [done|by apply Hs1]|split; [|done]]); [by left|by right].
      - intros [->|(id' & q & Hq & Hqd & E)]; [left; by case_bool_decide|]. destruct (decide (q = p)) as [->|Hne].
        + left. rewrite (entry_unique _ _ _ _ _ H Hq Hin) in E. by rewrite bool_decide_eq_true_2.
        + right. exists id', q. split; [by apply Hs2|]. apply elem_of_cons in Hqd as [->|Hqd]; [done|done]. }
    destruct (managed (objs (m_dObj m))) eqn:Emg.
    + pose proof Emg as Hm. unfold managed in Hm. apply andb_true_iff in Hm as [Hresp Hst]. apply negb_true_iff in Hst. unfold _handleDeletedDataObject.
      rewrite Hresp, Hst, (good_ref _ _ Hg). cbn [negb].
      destruct (delete_run st l id p mem_do H Hin) as (st1 & l1 & -> & Hl & H1 & Es & Ef). cbn [mbind option_bind].
      assert (Hp1 : dels ++ rest ≡ₚ l1.*2) by (apply (Permutation_cons_inv (a := p)); rewrite Hl in Hp; exact Hp).
      assert (Hnp : p ∉ l1.*2) by (pose proof (co_pointers _ _ H) as Hnd; rewrite Hl in Hnd; by apply NoDup_cons in Hnd as [? _]).
      destruct (IH was1 st1 l1 rest H1 Hp1) as (was' & fx & st' & l' & -> & H' & Hr & Hl' & Hs' & Ef' & Hw). cbn [mbind option_bind].
      assert (Hsame : ∀ q, q ∈ l1.*2 → store st1 !! q = store st !! q) by (intros q Hq; rewrite Es, lookup_delete_ne; [done|]; intros ->; done).
      eexists was', _, st', l'. split; [done|]. split; [done|]. split; [|split; [|split; [|split; [congruence|]]]].
      * rewrite Hr, filter_cons, decide_False by (rewrite (managed_at_some _ _ _ Em), Emg; done). f_equiv. apply reflexive_eq, filter_ext_in.
        intros q Hq. unfold managed_at. rewrite Hsame; [done|]. rewrite <- Hp1. apply elem_of_app. by left.
      * intros x Hx. rewrite Hl. right. by apply Hl'.
      * intros q Hq. rewrite Hs' by done. apply Hsame. apply list_elem_of_fmap in Hq as (x & -> & Hx). by apply list_elem_of_fmap_2, Hl'.
      * rewrite Hw. apply Hwas; intros x Hx; [rewrite Hl; by right|]. intros Hne. rewrite Hl in Hx. by apply elem_of_cons in Hx as [->|Hx].
    + rewrite managed_deleted by done. cbn [mbind option_bind].
      destruct (IH was1 st l (p :: rest) H) as (was' & fx & st' & l' & -> & H' & Hr & Hl' & Hs' & Ef' & Hw); [by rewrite <- Hp, <- Permutation_middle|]. cbn [mbind option_bind].
      eexists was', _, st', l'. split; [done|]. split; [done|]. split; [|split; [done|split; [done|split; [done|]]]].
      * rewrite Hr, filter_cons, decide_True by (by rewrite (managed_at_some _ _ _ Em)). by rewrite <- Permutation_middle.
      * rewrite Hw. by apply Hwas.
Qed.

Section Purge.
Context (compute : string → double) (clock : string → Timeval).
Hypothesis Hcompute : ∀ id, is_nan (compute id) = false.

Abbreviation low m := (SFltb (m_utility m) (minThreshold cfg)).
Abbreviation now_of id m := (refresh cfg compute (clock id) m).

Lemma refresh_good id m : good id m → good id (now_of id m) ∧ m_cost (now_of id m) = m_cost m ∧ m_dObj (now_of id m) = m_dObj m.
Proof using Hcompute. intros [? ? ? ?]. unfold refresh. case_match; (split; [split|]); try done. apply Hcompute. Qed.

Lemma scan_loop_run es : ∀ h tot ps ds, NoDup es.*2 → (∀ id p, (id, p) ∈ es → ∃ m, h !! p = Some m ∧ good id m) →
  ∃ ps' ds' h', scan_loop cfg compute clock es h tot ps ds = Some (tot + total (cost_at h) es.*2, ps' ++ ps, ds' ++ ds, h') ∧
    ps' ++ ds' ≡ₚ es.*2 ∧ (∀ q, q ∉ es.*2 → h' !! q = h !! q) ∧
    (∀ id p, (id, p) ∈ es → ∃ m, h !! p = Some m ∧ h' !! p = Some (now_of id m)) ∧
    (∀ p, p ∈ ps' → ∃ m, h' !! p = Some m ∧ low m = false) ∧ (∀ p, p ∈ ds' → ∃ m, h' !! p = Some m ∧ low m = true).
Proof using Hcompute.
  induction es as [|[id p] es IH]; intros h tot ps ds Hnd Hm; cbn [scan_loop].
  - exists [], [], h. cbn. rewrite Z.add_0_r. split_and!; try done; intros *; intros Hin; by apply not_elem_of_nil in Hin.
  - cbn [fmap list_fmap snd] in Hnd. apply NoDup_cons in Hnd as [Hnp Hnd]. destruct (Hm id p) as (m & Em & Hg); [by left|]. rewrite Em. cbn [mbind option_bind].
    destruct (refresh_good id m Hg) as (Hg' & Ec & _). set (m' := now_of id m) in *. set (h1 := <[p := m']> h).
    assert (Hh1 : ∀ q, q ≠ p → h1 !! q = h !! q) by (intros q Hq; unfold h1; by rewrite lookup_insert_ne).
    assert (Hcost : total (cost_at h1) es.*2 = total (cost_at h) es.*2).
    { apply total_ext. intros q Hq. unfold cost_at. rewrite Hh1; [done|]. intros ->. done. }
    assert (Hm1 : ∀ id' q, (id', q) ∈ es → q ≠ p ∧ ∃ m, h1 !! q = Some m ∧ good id' m).
    { intros id' q Hq. assert (q ≠ p) as Hne by (intros ->; apply Hnp; by apply (list_elem_of_fmap_2 snd) in Hq). split; [done|]. rewrite Hh1 by done. apply Hm. by right. }
    assert (Hcase : ∀ ps1 ds1, ∃ ps' ds' h', scan_loop cfg compute clock es h1 (tot + m_cost m') ps1 ds1 = Some (tot + total (cost_at h) (p :: es.*2), ps' ++ ps1, ds' ++ ds1, h') ∧
      ps' ++ ds' ≡ₚ es.*2 ∧ (∀ q, q ∉ p :: es.*2 → h' !! q = h !! q) ∧ h' !! p = Some m' ∧
      (∀ id p, (id, p) ∈ es → ∃ m, h !! p = Some m ∧ h' !! p = Some (now_of id m)) ∧
      (∀ p, p ∈ ps' → ∃ m, h' !! p = Some m ∧ low m = false) ∧ (∀ p, p ∈ ds' → ∃ m, h' !! p = Some m ∧ low m = true)).
    { intros ps1 ds1. destruct (IH h1 (tot + m_cost m') ps1 ds1 Hnd) as (ps' & ds' & h' & -> & Hp & Hq & Hr & Hps & Hds); [intros id' q Hin; by apply Hm1|].
      exists ps', ds', h'. rewrite total_cons, (cost_at_some _ _ _ Em), Hcost, Ec. replace (tot + m_cost m + total (cost_at h) es.*2) with (tot + (m_cost m + total (cost_at h) es.*2)) by lia.
      split; [done|]. split; [done|]. split; [|split; [|split; [|done]]].
      - intros q [Hqp Hqe]%not_elem_of_cons. rewrite Hq by done. by apply Hh1.
      - rewrite Hq by done. unfold h1. apply lookup_insert_eq.
      - intros id' q Hin. destruct (Hm1 _ _ Hin) as [Hne _]. destruct (Hr _ _ Hin) as (m2 & E1 & E2). exists m2. by rewrite <- Hh1. }
    cbn [fmap list_fmap snd]. destruct (low m') eqn:El.
    + destruct (Hcase ps (p :: ds)) as (ps' & ds' & h' & -> & Hp & Hq & Hpm & Hr & Hps & Hds). exists ps', (ds' ++ [p]), h'. rewrite <- app_assoc. split; [done|].
      split; [by rewrite app_assoc, Hp, Permutation_app_comm|]. split; [done|]. split; [|split; [done|]].
      * intros id' q [[= -> ->]|Hin]%elem_of_cons; [by exists m|by apply Hr].
      * intros q [Hin|Hin]%elem_of_app; [by apply Hds|]. apply list_elem_of_singleton in Hin as ->. by exists m'.
    + destruct (Hcase (p :: ps) ds) as (ps' & ds' & h' & -> & Hp & Hq & Hpm & Hr & Hps & Hds). exists (ps' ++ [p]), ds', h'. rewrite <- app_assoc. split; [done|].
      split; [rewrite <- app_assoc; cbn [app]; by rewrite <- Permutation_middle, Hp|]. split; [done|]. split; [|split; [|done]].
      * intros id' q [[= -> ->]|Hin]%elem_of_cons; [by exists m|by apply Hr].
      * intros q [Hin|Hin]%elem_of_app; [by apply Hps|]. apply list_elem_of_singleton in Hin as ->. by exists m'.
Qed.
Lemma omap_some {A} (l : list A) : omap id (Some <$> l) = l.
Proof. induction l as [|x l IH]; cbn; [done|]. by rewrite IH. Qed.

Hypothesis Hds : 0 < discrete_size cfg < 2 ^ 31.

Abbreviation weight mem_only h := (λ p, if mem_only : bool then 1 else cost_at h p).
(** What the optimizer adds to the list of those to delete. *)
Lemma solve_run h ps ds bag (mem_only : bool) :
  (∀ p, p ∈ ps → ∃ m, h !! p = Some m ∧ 0 < m_cost m < 2 ^ 31 ∧ is_nan (m_utility m) = false) → 0 <= bag < 2 ^ 31 →
  ∃ kept e, solve cfg h ps ds bag mem_only = Some (ds ++ e) ∧ kept ++ e ≡ₚ ps ∧
    0 <= bag - total (weight mem_only h) kept ∧ (0 < bag → total (weight mem_only h) kept < bag) ∧
    ∀ p, p ∈ e → bag - total (weight mem_only h) kept <= weight mem_only h p.
Proof using Hds.
  intros Hps Hbag. set (info := λ p, default (Info 0 (S754_zero false) zero) (info_of <$> h !! p)).
  destruct (cache_solve_run (λ p, info_of <$> h !! p) info (Some <$> ps)) with (discrete_size := discrete_size cfg) (mem_only := mem_only) (bag := bag) (exc := ds)
    as (b & order & r & kept & e & E & _ & Ho & Eg & _); [|done|done|].
  { rewrite omap_some. intros p Hp. destruct (Hps p Hp) as (m & Em & Hc & Hn). unfold info. rewrite Em. split; [done|]. split; cbn; [lia|done]. }
  rewrite omap_some in Ho. unfold solve. rewrite E. cbn [mbind option_bind].
  rewrite (greedy_ext _ (weight mem_only h)) in Eg.
  2: { intros p Hp. rewrite Ho in Hp. destruct (Hps p Hp) as (m & Em & _). unfold cache_weight, info, cost_at. by rewrite Em. }
  destruct (greedy_facts _ _ _ _ _ _ Eg) as (Hp & Hr & Hpos & Hnn & _ & He).
  { intros p Hp. rewrite Ho in Hp. destruct (Hps p Hp) as (m & Em & Hc & _). destruct mem_only; [lia|]. rewrite (cost_at_some _ _ _ Em). lia. }
  exists kept, e. split; [done|]. split; [by rewrite Hp|]. subst r. split; [by apply Hnn; lia|]. split; [intros H0%Hpos; lia|done].
Qed.

Lemma s32_of_int z : 0 <= z < 2 ^ 31 → s32 z = z.
Proof. intros H. unfold s32. rewrite u32_small by (unfold is_u32; lia). destruct (Z.ltb_spec z (2 ^ 31)); lia. Qed.

Lemma total_le {P} (f : P → Z) l1 l2 l : l1 ++ l2 ≡ₚ l → (∀ p, p ∈ l → 0 <= f p) → total f l1 <= total f l.
Proof.
  intros Hp H. rewrite <- (weight_perm _ _ _ Hp), total_app. enough (0 <= total f l2) by lia. apply total_nonneg. intros q Hq. apply H. rewrite <- Hp. apply elem_of_app. by right.
Qed.

(** The same entries, with other metadata of the same cost. *)
Lemma cache_wf_update st l h' : cache_wf st l → (∀ id p, (id, p) ∈ l → ∃ m m', store st !! p = Some m ∧ h' !! p = Some m' ∧ good id m' ∧ m_cost m' = m_cost m) →
  cache_wf (set_store st h') l.
Proof.
  intros H Hh. destruct H as [Hmap Hnd Hm Hs Hn]. split; cbn [set_store utilMetadata store fresh current_size current_num_do]; [done|done| | |done].
  - intros id p Hin. destruct (Hm _ _ Hin) as [Hf _]. split; [done|]. destruct (Hh _ _ Hin) as (_ & m' & _ & E & Hg & _). by exists m'.
  - rewrite Hs. apply total_ext. intros p Hp. apply list_elem_of_fmap in Hp as ([id q] & -> & Hin). destruct (Hh _ _ Hin) as (m & m' & E & E' & _ & Ec). cbn. by rewrite (cost_at_some _ _ _ E), (cost_at_some _ _ _ E').
Qed.
Lemma filter_nothing {P} (Q : P → Prop) `{∀ p, Decision (Q p)} (l0 : list P) : (∀ p, p ∈ l0 → ¬ Q p) → filter Q l0 = [].
Proof. induction l0 as [|p l0 IH]; intros Hn; [done|]. rewrite filter_cons, decide_False by (apply Hn; by left). apply IH. intros q Hq. apply Hn. by right. Qed.

(** Deleting what the optimizer, or the threshold, left out, where the strategy is responsible for all objects. *)
Lemma keep_run mem_do doid was st l kept e :
  cache_ok st l → e ++ kept ≡ₚ l.*2 →
  ∃ was' fx st' l', delete_loop cfg objs e mem_do doid was st = Some (was', fx, st') ∧ cache_ok st' l' ∧ l'.*2 ≡ₚ kept ∧ (∀ x, x ∈ l' ↔ x ∈ l ∧ x.2 ∈ kept) ∧
    (∀ q, q ∈ kept → store st' !! q = store st !! q) ∧ current_size st' = total (cost_at (store st)) kept ∧ current_num_do st' = Z.of_nat (length kept) ∧
    (was' = true ↔ was = true ∨ ∃ id p, (id, p) ∈ l ∧ p ∈ e ∧ doid = Some id) ∧ fresh st' = fresh st.
Proof.
  intros [H Hmg] Hp. destruct (delete_loop_run mem_do doid e was st l kept H Hp) as (was' & fx & st' & l' & E & H' & Hl & Hsub & Hs & Hf & Hw).
  rewrite filter_nothing in Hl. 2: { intros q Hq. rewrite (Hmg q); [done|]. rewrite <- Hp. apply elem_of_app. by left. }
  cbn [app] in Hl.
  assert (Hk : ∀ q, q ∈ kept → store st' !! q = store st !! q) by (intros q Hq; apply Hs; by rewrite Hl).
  exists was', fx, st', l'. split; [done|]. split; [split; [done|]|split; [done|split; [|split; [done|split; [|split; [|done]]]]]].
  - intros q Hq. rewrite Hl in Hq. unfold managed_at. rewrite Hk by done. apply Hmg. rewrite <- Hp. apply elem_of_app. by right.
  - intros x. split.
    + intros Hx. split; [by apply Hsub|]. apply (list_elem_of_fmap_2 snd) in Hx. by rewrite Hl in Hx.
    + intros [Hx Hq]. apply (entry_iff st l l' x H Hsub Hx). by rewrite Hl.
  - rewrite (co_size _ _ H'), (weight_perm _ _ _ Hl). apply total_ext. intros q Hq. unfold cost_at. by rewrite Hk.
  - rewrite (co_number _ _ H'). f_equal. rewrite <- (length_fmap snd l'). by rewrite Hl.
Qed.
Context (st : strategy) (l : list (string * nat)).
Hypothesis Hok : cache_wf st l.
Abbreviation watermark := (watermark_capacity_kb cfg * 1024).
Hypothesis Hwm : 0 <= watermark < 2 ^ 31.

(** The scan, the optimizer and the first loop that deletes.  [e] is what is to be deleted, [kept] the rest. *)
Lemma size_round doid : ∃ ps ds h e kept was fx st' l',
  scan_loop cfg compute clock l (store st) 0 [] [] = Some (current_size st, ps, ds, h) ∧
  (if watermark <? current_size st then solve cfg h ps ds (s32 watermark) false else Some ds) = Some e ∧
  delete_loop cfg objs e false doid false (set_store st h) = Some (was, fx, st') ∧ cache_wf st' l' ∧ (∀ x, x ∈ l' → x ∈ l) ∧ fresh st' = fresh st ∧
  e ++ kept ≡ₚ l.*2 ∧ l'.*2 ≡ₚ filter (λ p, managed_at (store st) p = false) e ++ kept ∧ total (cost_at (store st)) kept <= watermark ∧
  (∀ id p, (id, p) ∈ l → ∃ m, store st !! p = Some m ∧ good id m ∧ (p ∈ l'.*2 → store st' !! p = Some (now_of id m)) ∧ (p ∈ kept → low (now_of id m) = false) ∧
    (p ∈ e → low (now_of id m) = true ∨ (watermark <? current_size st) = true ∧ watermark - total (cost_at (store st)) kept <= m_cost m)) ∧
  (was = true ↔ ∃ id p, (id, p) ∈ l ∧ p ∈ e ∧ doid = Some id) ∧ (current_size st <= watermark → kept ≡ₚ ps).
Proof using Hcompute Hds Hok Hwm.
  destruct (scan_loop_run l (store st) 0 [] []) as (ps & ds & h & Escan & Hpd & _ & Hh & Hps & Hds'); [apply (co_pointers _ _ Hok)|intros id p Hp; by apply (co_meta _ _ Hok)|].
  rewrite !app_nil_r, Z.add_0_l, <- (co_size _ _ Hok) in Escan.
  assert (Hgood : ∀ id p, (id, p) ∈ l → ∃ m m', store st !! p = Some m ∧ h !! p = Some m' ∧ good id m' ∧ m_cost m' = m_cost m ∧ m_dObj m' = m_dObj m).
  { intros id p Hin. destruct (Hh _ _ Hin) as (m & E & E'). destruct (co_meta _ _ Hok _ _ Hin) as (_ & m1 & E1 & Hg). assert (m1 = m) as -> by congruence.
    exists m, (now_of id m). destruct (refresh_good id m Hg) as (? & ? & ?). done. }
  assert (Hok' : cache_wf (set_store st h) l).
  { apply cache_wf_update; [done|]. intros id p Hin. destruct (Hgood _ _ Hin) as (m & m' & ? & ? & ? & ? & _). by exists m, m'. }
  assert (Hsame : ∀ p, p ∈ l.*2 → cost_at h p = cost_at (store st) p ∧ managed_at h p = managed_at (store st) p).
  { intros p Hp. apply list_elem_of_fmap in Hp as ([id q] & -> & Hin). destruct (Hgood _ _ Hin) as (m & m' & E & E' & _ & Ec & Ed). unfold cost_at, managed_at. cbn. rewrite E, E'. cbn. by rewrite Ec, Ed. }
  assert (Hlive : ∀ p, p ∈ l.*2 → ∃ m, h !! p = Some m ∧ 0 < m_cost m < 2 ^ 31 ∧ is_nan (m_utility m) = false).
  { intros p Hp. apply list_elem_of_fmap in Hp as ([id q] & -> & Hin). destruct (Hgood _ _ Hin) as (_ & m' & _ & E & Hg & _). exists m'. split; [done|]. split; apply Hg. }
  assert (Hsel : ∃ kept e, (if watermark <? current_size st then solve cfg h ps ds (s32 watermark) false else Some ds) = Some (ds ++ e) ∧ kept ++ e ≡ₚ ps ∧
    total (cost_at h) kept <= watermark ∧ (e = [] ∨ (watermark <? current_size st) = true ∧ ∀ p, p ∈ e → watermark - total (cost_at h) kept <= cost_at h p) ∧
    (current_size st <= watermark → e = [])).
  { destruct (Z.ltb_spec watermark (current_size st)) as [Hlt|Hge].
    - destruct (solve_run h ps ds watermark false) as (kept & e & E & Hp & Hnn & _ & He); [|done|].
      { intros p Hp. apply Hlive. rewrite <- Hpd. apply elem_of_app. by left. }
      change (0 <= watermark - total (cost_at h) kept) in Hnn. exists kept, e. rewrite s32_of_int by done. split; [done|]. split; [done|]. split; [lia|]. split; [by right|lia].
    - exists ps, []. rewrite !app_nil_r. split; [done|]. split; [done|]. split; [|split; [by left|done]].
      assert (Hsz : total (cost_at h) l.*2 = current_size st) by (symmetry; apply (co_size _ _ Hok')).
      pose proof (total_le (cost_at h) ps ds _ Hpd) as Hle. rewrite Hsz in Hle. transitivity (current_size st); [|done]. apply Hle.
      intros p Hp. destruct (Hlive p Hp) as (m & E & Hc & _). rewrite (cost_at_some _ _ _ E). lia. }
  destruct Hsel as (kept & e & Esel & Hke & Hkw & He & Hnone).
  assert (Hsplit : (ds ++ e) ++ kept ≡ₚ l.*2).
  { rewrite <- Hpd, <- Hke. rewrite <- app_assoc, (Permutation_app_comm (kept ++ e) ds), (Permutation_app_comm e kept). done. }
  assert (Hin_l : ∀ p, p ∈ ds ++ e ∨ p ∈ kept → p ∈ l.*2) by (intros p Hp; rewrite <- Hsplit; by apply elem_of_app).
  rewrite (total_ext _ (cost_at (store st))) in Hkw, He by (intros p Hp; apply Hsame, Hin_l; by right).
  destruct (delete_loop_run false doid (ds ++ e) false (set_store st h) l kept Hok' Hsplit) as (was & fx & st' & l' & Edel & H' & Hl' & Hsub & Hs' & Hf & Hw).
  cbn [set_store store fresh] in *. rewrite (filter_ext_in _ (managed_at (store st))) in Hl' by (intros p Hp; apply Hsame, Hin_l; by left).
  exists ps, ds, h, (ds ++ e), kept, was, fx, st', l'. split_and!; try done.
  - intros id p Hx. destruct (Hh _ _ Hx) as (m & Em & Em'). exists m. split; [done|].
    destruct (co_meta _ _ Hok _ _ Hx) as (_ & m1 & E1 & Hg). assert (m1 = m) as -> by congruence. split; [done|]. split; [|split].
    + intros Hp. by rewrite Hs'.
    + intros Hp. destruct (Hps p) as (m2 & E2 & Hlow); [rewrite <- Hke; apply elem_of_app; by left|]. by rewrite Em' in E2; injection E2 as ->.
    + intros [Hp|Hp]%elem_of_app.
      * left. destruct (Hds' p Hp) as (m2 & E2 & Hlow). by rewrite Em' in E2; injection E2 as ->.
      * right. destruct He as [->|[-> He]]; [by apply not_elem_of_nil in Hp|]. split; [done|]. rewrite <- (cost_at_some _ _ _ Em).
        destruct (Hsame p) as [<- _]; [apply Hin_l; left; apply elem_of_app; by right|]. by apply He.
  - rewrite Hw. split; [by intros [?|?]|by right].
  - intros Hsm. rewrite <- Hke, (Hnone Hsm). by rewrite app_nil_r.
Qed.

Lemma total_filter {P} (f : P → Z) (Q : P → Prop) `{∀ p, Decision (Q p)} l0 : (∀ p, p ∈ l0 → 0 <= f p) → total f (filter Q l0) <= total f l0.
Proof using.
  induction l0 as [|p l0 IH]; intros Hf; [done|]. rewrite filter_cons, total_cons. assert (0 <= f p) by (apply Hf; by left).
  assert (total f (filter Q l0) <= total f l0) by (apply IH; intros q Hq; apply Hf; by right). case_decide; rewrite ?total_cons; lia.
Qed.

(** Whether or not the strategy is still responsible for every object: the purge returns, to a consistent state, and what is left of the objects it is responsible
    for is not above the watermark. *)
Lemma purge_weak doid : allow_db_purging cfg = false → ∃ was fx st' l',
  _purgeCache cfg objs compute clock doid st = Some (was, fx, st') ∧ cache_wf st' l' ∧ (∀ x, x ∈ l' → x ∈ l) ∧
  managed_size st' l' <= watermark ∧ current_size st' <= current_size st ∧ (∀ p, p ∈ l'.*2 → managed_at (store st') p = managed_at (store st) p) ∧
  (∀ id, doid = Some id → id ∈ l.*1 → id ∉ l'.*1 → was = true).
Proof using Hcompute Hds Hok Hwm.
  intros Hdb. destruct (size_round doid) as (ps & ds & h & e & kept & was & fx & st1 & l1 & Escan & Esel & Edel & H1 & Hsub & Hf & Hsplit & Hl1 & Hkw & Hev & Hw & _).
  assert (Hrun : ∃ fx, _purgeCache cfg objs compute clock doid st = Some (was, fx, st1)).
  { unfold _purgeCache. rewrite (entries_spec _ _ (mw_rep _ _ _ _ (co_map _ _ Hok))). cbn [mbind option_bind]. rewrite Escan. cbn [mbind option_bind].
    change (current_size (set_store st h)) with (current_size st). rewrite Z.eqb_refl. cbn [negb]. rewrite Esel. cbn [mbind option_bind]. rewrite Edel. cbn [mbind option_bind].
    rewrite Hdb. cbn [andb mbind option_bind delete_loop]. destruct (watermark <? current_size st1); by eexists. }
  destruct Hrun as [fx' Hrun]. exists was, fx', st1, l1.
  assert (Hsame : ∀ p, p ∈ l1.*2 → cost_at (store st1) p = cost_at (store st) p ∧ managed_at (store st1) p = managed_at (store st) p).
  { intros p Hp. pose proof Hp as Hp1. apply list_elem_of_fmap in Hp as ([id q] & -> & Hin). destruct (Hev _ _ (Hsub _ Hin)) as (m & E & Hg & E' & _). cbn in *. specialize (E' Hp1).
    destruct (refresh_good id m Hg) as (_ & Ec & Ed). unfold cost_at, managed_at. rewrite E, E'. cbn. by rewrite Ec, Ed. }
  pose proof (co_positive _ _ Hok) as Hpos.
  assert (Hin_l : ∀ p, p ∈ e ∨ p ∈ kept → p ∈ l.*2) by (intros p Hp; rewrite <- Hsplit; by apply elem_of_app).
  split; [done|]. split; [done|]. split; [done|]. split; [|split; [|split; [intros p Hp; by apply Hsame|]]].
  - unfold managed_size. rewrite (filter_ext_in _ (managed_at (store st))) by (intros p Hp; by apply Hsame).
    rewrite (total_ext _ (cost_at (store st))) by (intros p [_ Hp]%list_elem_of_filter; by apply Hsame).
    rewrite (weight_perm _ _ _ (filter_Permutation _ _ _ Hl1)), filter_app, filter_nothing.
    2: { intros p [Hp _]%list_elem_of_filter. by rewrite Hp. }
    cbn [app]. etransitivity; [apply total_filter|done]. intros p Hp. specialize (Hpos p (Hin_l p (or_intror Hp))). lia.
  - rewrite (co_size _ _ H1), (total_ext _ (cost_at (store st))) by (intros p Hp; by apply Hsame). rewrite (weight_perm _ _ _ Hl1), (co_size _ _ Hok), <- (weight_perm _ _ _ Hsplit), !total_app.
    enough (total (cost_at (store st)) (filter (λ p, managed_at (store st) p = false) e) <= total (cost_at (store st)) e) by lia.
    apply total_filter. intros p Hp. specialize (Hpos p (Hin_l p (or_introl Hp))). lia.
  - intros id -> Hin Hn. apply Hw. apply list_elem_of_fmap in Hin as ([id' p] & Eid & Hin). cbn in Eid. subst id'. exists id, p. split; [done|]. split; [|done].
    assert (Hp : p ∈ e ++ kept) by (rewrite Hsplit; by apply (list_elem_of_fmap_2 snd) in Hin). apply elem_of_app in Hp as [?|Hp]; [done|]. destruct Hn.
    assert ((id, p) ∈ l1) as Hx by (apply (entry_iff st l l1 _ Hok Hsub Hin); rewrite Hl1; apply elem_of_app; by right). by apply (list_elem_of_fmap_2 fst) in Hx.
Qed.

Hypothesis Hmanaged : ∀ p, p ∈ l.*2 → managed_at (store st) p = true.
(** Two rounds of the optimizer on the same list are only well defined when the first did not delete from it. *)
Hypothesis Hdb : allow_db_purging cfg = true →
  0 <= db_size_threshold cfg < 2 ^ 31 - 1 ∧ (current_num_do st <= db_size_threshold cfg ∨ current_size st <= watermark).

Lemma total_one {P} (l0 : list P) : total (λ _, 1) l0 = Z.of_nat (length l0).
Proof. induction l0 as [|x l0 IH]; [done|]. rewrite total_cons, IH. cbn [length]. lia. Qed.

(** Why an entry goes. *)
Definition evicted (st' : strategy) (m : DataObjectUtilityMetadata) : Prop :=
  low m = true ∨
  (watermark < current_size st ∧ watermark - current_size st' <= m_cost m) ∨
  (allow_db_purging cfg = true ∧ db_size_threshold cfg < current_num_do st).

(** The first round, where the strategy is responsible for every object. *)
Lemma size_round_managed doid : ∃ ps ds h e was fx st' l',
  scan_loop cfg compute clock l (store st) 0 [] [] = Some (current_size st, ps, ds, h) ∧
  (if watermark <? current_size st then solve cfg h ps ds (s32 watermark) false else Some ds) = Some e ∧
  delete_loop cfg objs e false doid false (set_store st h) = Some (was, fx, st') ∧ cache_ok st' l' ∧ (∀ x, x ∈ l' → x ∈ l) ∧
  current_size st' <= watermark ∧
  (∀ id p, (id, p) ∈ l → ∃ m, store st !! p = Some m ∧ m_cost (now_of id m) = m_cost m ∧
    (if decide ((id, p) ∈ l') then store st' !! p = Some (now_of id m) ∧ low (now_of id m) = false
     else low (now_of id m) = true ∨ (watermark <? current_size st) = true ∧ watermark - current_size st' <= m_cost m)) ∧
  current_num_do st' <= current_num_do st ∧
  (was = true ↔ ∃ id, doid = Some id ∧ id ∈ l.*1 ∧ id ∉ l'.*1) ∧ (current_size st <= watermark → l'.*2 ≡ₚ ps).
Proof using Hcompute Hds Hok Hwm Hmanaged.
  destruct (size_round doid) as (ps & ds & h & e & kept & was & fx & st' & l' & Escan & Esel & Edel & H' & Hsub & Hf & Hsplit & Hl' & Hkw & Hev & Hw & Hsmall).
  rewrite filter_nothing in Hl'. 2: { intros q Hq. rewrite (Hmanaged q); [done|]. rewrite <- Hsplit. apply elem_of_app. by left. }
  cbn [app] in Hl'.
  assert (Hsame : ∀ p, p ∈ kept → cost_at (store st') p = cost_at (store st) p ∧ managed_at (store st') p = managed_at (store st) p).
  { intros p Hp. rewrite <- Hl' in Hp. pose proof Hp as Hp1. apply list_elem_of_fmap in Hp as ([id q] & -> & Hin). destruct (Hev _ _ (Hsub _ Hin)) as (m & E & Hg & E' & _). cbn in *. specialize (E' Hp1).
    destruct (refresh_good id m Hg) as (_ & Ec & Ed). unfold cost_at, managed_at. rewrite E, E'. cbn. by rewrite Ec, Ed. }
  assert (Hsz : current_size st' = total (cost_at (store st)) kept).
  { rewrite (co_size _ _ H'), (weight_perm _ _ _ Hl'). apply total_ext. intros p Hp. by apply Hsame. }
  assert (Hdis : ∀ p, p ∈ e → p ∉ kept) by (pose proof (co_pointers _ _ Hok) as Hnd; rewrite <- Hsplit in Hnd; by apply NoDup_app in Hnd as (_ & ? & _)).
  assert (Hside : ∀ x, x ∈ l → x ∈ l' ↔ x.2 ∈ kept) by (intros x Hx; rewrite (entry_iff st l l' x Hok Hsub Hx); by rewrite Hl').
  assert (Hcase : ∀ x, x ∈ l → x.2 ∈ e ∨ x.2 ∈ kept) by (intros x Hx; apply elem_of_app; rewrite Hsplit; by apply list_elem_of_fmap_2).
  exists ps, ds, h, e, was, fx, st', l'. split; [done|]. split; [done|]. split; [done|]. split; [split; [done|]|split; [done|split; [lia|split; [|split; [|split]]]]].
  - intros p Hp. rewrite Hl' in Hp. destruct (Hsame p Hp) as [_ ->]. apply Hmanaged. rewrite <- Hsplit. apply elem_of_app. by right.
  - intros id p Hx. destruct (Hev _ _ Hx) as (m & Em & Hg & Hs & Hk & He). exists m. split; [done|]. split; [by apply refresh_good|]. destruct (decide ((id, p) ∈ l')) as [Hx'|Hx'].
    + pose proof (proj1 (Hside _ Hx) Hx') as Hp. split; [apply Hs; by rewrite Hl'|by apply Hk].
    + rewrite Hsz. apply He. destruct (Hcase _ Hx) as [?|Hp]; [done|]. by destruct Hx'; apply Hside.
  - rewrite (co_number _ _ H'), (co_number _ _ Hok). apply Nat2Z.inj_le. rewrite <- (length_fmap snd l), <- (length_fmap snd l'), Hl', <- Hsplit, length_app. lia.
  - rewrite Hw. split.
    + intros (id & p & Hx & He & ->). exists id. split; [done|]. split; [by apply (list_elem_of_fmap_2 fst) in Hx|]. intros Hx'.
      apply list_elem_of_fmap in Hx' as ([id' q] & Eq & Hx'). cbn in Eq. subst id'. assert (q = p) as -> by apply (entry_key st l id q p Hok (Hsub _ Hx') Hx).
      apply (Hdis p He). by apply (Hside (id, p)).
    + intros (id & -> & Hx & Hx'). apply list_elem_of_fmap in Hx as ([id' p] & Eq & Hx). cbn in Eq. subst id'. exists id, p. split; [done|]. split; [|done].
      destruct (Hcase _ Hx) as [?|Hp]; [done|]. exfalso. apply Hx'. apply (Hside _ Hx) in Hp. by apply (list_elem_of_fmap_2 fst) in Hp.
  - intros Hsm. rewrite Hl'. by apply Hsmall.
Qed.

Lemma purge_run doid : ∃ was fx st' l',
  _purgeCache cfg objs compute clock doid st = Some (was, fx, st') ∧ cache_ok st' l' ∧ (∀ x, x ∈ l' → x ∈ l) ∧
  current_size st' <= watermark ∧ (allow_db_purging cfg = true → current_num_do st' <= db_size_threshold cfg) ∧
  (∀ id p, (id, p) ∈ l → ∃ m, store st !! p = Some m ∧
    if decide ((id, p) ∈ l') then store st' !! p = Some (now_of id m) ∧ low (now_of id m) = false else evicted st' (now_of id m)) ∧
  (was = true ↔ ∃ id, doid = Some id ∧ id ∈ l.*1 ∧ id ∉ l'.*1).
Proof using Hcompute Hds Hok Hwm Hdb Hmanaged.
  destruct (size_round_managed doid) as (ps & ds & h & e & was & fx & st1 & l1 & Escan & Esel & Edel & H1 & Hsub & Hsz & Hpu & Hnum & Hw & Hsmall).
  unfold _purgeCache. rewrite (entries_spec _ _ (mw_rep _ _ _ _ (co_map _ _ Hok))). cbn [mbind option_bind]. rewrite Escan. cbn [mbind option_bind].
  change (current_size (set_store st h)) with (current_size st). rewrite Z.eqb_refl. cbn [negb]. rewrite Esel. cbn [mbind option_bind]. rewrite Edel. cbn [mbind option_bind].
  destruct (Z.ltb_spec watermark (current_size st1)) as [?|_]; [lia|].
  assert (Hev : ∀ id m st2, m_cost (now_of id m) = m_cost m → ((watermark <? current_size st) = true → current_size st2 = current_size st1) →
    low (now_of id m) = true ∨ (watermark <? current_size st) = true ∧ watermark - current_size st1 <= m_cost m → evicted st2 (now_of id m)).
  { intros id m st2 Ec Heq [?|[Hlt Hc]]; [by left|]. right. left. rewrite (Heq Hlt), Ec. split; [by apply Z.ltb_lt|done]. }
  destruct (allow_db_purging cfg) eqn:Ea; [destruct (Z.ltb_spec (db_size_threshold cfg) (current_num_do st1)) as [Hlt|Hge]|]; cbn [andb mbind option_bind].
  - destruct (Hdb eq_refl) as [Hthr Hor]. assert (current_size st <= watermark) as Hsm by lia. specialize (Hsmall Hsm).
    assert (Hfull : (watermark <? current_size st) = false) by (apply Z.ltb_ge; lia).
    rewrite s32_of_int by lia. destruct (solve_run (store st1) ps [] (db_size_threshold cfg + 1) true) as (kept & e2 & -> & Hke & _ & Hlen & _); [|lia|].
    { intros p Hp. rewrite <- Hsmall in Hp. apply list_elem_of_fmap in Hp as ([id q] & -> & Hin). destruct (co_meta _ _ (proj1 H1) _ _ Hin) as (_ & m & Em & Hg). exists m. split; [done|]. split; apply Hg. }
    cbn [mbind option_bind app]. change (0 < db_size_threshold cfg + 1 → total (λ _, 1) kept < db_size_threshold cfg + 1) in Hlen. rewrite total_one in Hlen.
    destruct (keep_run true doid was st1 l1 kept e2 H1) as (was2 & fx2 & st2 & l2 & -> & H2 & Hl2 & Hin2 & Hs2 & Hsz2 & Hnum2 & Hw2 & Hf2).
    { rewrite Hsmall, <- Hke. apply Permutation_app_comm. }
    cbn [mbind option_bind].
    assert (Hle2 : current_size st2 <= current_size st1).
    { rewrite Hsz2, (co_size _ _ (proj1 H1)), (weight_perm _ _ _ Hsmall). apply (total_le _ kept e2); [done|]. intros p Hp. rewrite <- Hsmall in Hp. pose proof (co_positive _ _ (proj1 H1) p Hp). lia. }
    eexists was2, _, st2, l2. split; [done|]. split; [done|]. split; [by intros x [? _]%Hin2; apply Hsub|]. split; [lia|]. split; [intros _; lia|]. split.
    + intros id p Hx. destruct (Hpu id p Hx) as (m & Em & Ec & Hm). exists m. split; [done|]. destruct (decide ((id, p) ∈ l2)) as [Hx2|Hx2].
      * apply Hin2 in Hx2 as [Hx1 Hk]. rewrite decide_True in Hm by done. by rewrite Hs2.
      * destruct (decide ((id, p) ∈ l1)) as [_|_]; [right; right; split; [done|lia]|]. apply (Hev id m); [done| |exact Hm]. by rewrite Hfull.
    + rewrite Hw2, Hw. clear -Hsub Hin2 H1 Hke Hsmall.
      assert (Hfst : ∀ (l3 l4 : list (string * nat)) id, (∀ x, x ∈ l3 → x ∈ l4) → id ∈ l3.*1 → id ∈ l4.*1).
      { intros l3 l4 id Hs Hid. apply list_elem_of_fmap in Hid as ([id' p] & -> & Hid). by apply (list_elem_of_fmap_2 fst), Hs. }
      assert (Hdis : ∀ p, p ∈ e2 → p ∉ kept).
      { pose proof (co_pointers _ _ (proj1 H1)) as Hnd. rewrite Hsmall, <- Hke in Hnd. apply NoDup_app in Hnd as (_ & Hd & _). intros p He Hk. by apply (Hd p). }
      split.
      * intros [(id & -> & Ha & Hb)|(id & p & Hx & He & ->)]; exists id; (split; [done|]).
        -- split; [done|]. intros Hn. apply Hb. apply (Hfst l2 l1); [|done]. by intros x [? _]%Hin2.
        -- split; [apply (Hfst l1 l); [done|]; by apply (list_elem_of_fmap_2 fst) in Hx|]. intros Hn. apply list_elem_of_fmap in Hn as ([id' q] & Eq & Hq). cbn in Eq. subst id'.
           apply Hin2 in Hq as [Hq Hk]. cbn in Hk. rewrite (entry_key _ _ _ _ _ (proj1 H1) Hq Hx) in Hk. by apply (Hdis p).
      * intros (id & -> & Ha & Hb). destruct (decide (id ∈ l1.*1)) as [Hid|Hid]; [right|left; by exists id].
        apply list_elem_of_fmap in Hid as ([id' p] & Eq & Hid). cbn in Eq. subst id'. exists id, p. split; [done|]. split; [|done].
        assert (p ∈ kept ++ e2) as Hp by (rewrite Hke, <- Hsmall; by apply (list_elem_of_fmap_2 snd) in Hid). apply elem_of_app in Hp as [Hk|?]; [|done].
        destruct Hb. assert ((id, p) ∈ l2) as Hx by by apply Hin2. by apply (list_elem_of_fmap_2 fst) in Hx.
  - cbn [delete_loop mbind option_bind]. eexists was, _, st1, l1. split; [done|]. split; [done|]. split; [done|]. split; [done|]. split; [done|]. split; [|done].
    intros id p Hx. destruct (Hpu id p Hx) as (m & Em & Ec & Hm). exists m. split; [done|]. destruct (decide ((id, p) ∈ l1)); [done|]. by apply (Hev id m).
  - cbn [delete_loop mbind option_bind]. eexists was, _, st1, l1. split; [done|]. split; [done|]. split; [done|]. split; [done|]. split; [done|]. split; [|done].
    intros id p Hx. destruct (Hpu id p Hx) as (m & Em & Ec & Hm). exists m. split; [done|]. destruct (decide ((id, p) ∈ l1)); [done|]. by apply (Hev id m).
Qed.
End Purge.
End Objects.

(** ** Sequences of calls *)

Inductive cache_op :=
  | NewDataObject (compute : string → double) (now : Timeval) (clock : string → Timeval) (d : nat)
  | DeletedDataObject (d : nat) (mem_do : bool)
  | Periodic (compute : string → double) (clock : string → Timeval)
  | Change (d : nat) (f : dobj → dobj).
Definition cache_step (o : cache_op) (w : (nat → dobj) * strategy) : option (list effect * ((nat → dobj) * strategy)) :=
  let '(objs, st) := w in
  match o with
  | NewDataObject compute now clock d => '(fx, st) ← _handleNewDataObject cfg objs compute now clock d st; Some (fx, (objs, st))
  | DeletedDataObject d mem_do => '(fx, st) ← _handleDeletedDataObject cfg objs st d mem_do; Some (fx, (objs, st))
  | Periodic compute clock => '(_, fx, st) ← _purgeCache cfg objs compute clock None st; Some (fx, (objs, st))
  | Change d f => Some ([], (<[d := f (objs d)]> objs, st))
  end.
Fixpoint cache_run (os : list cache_op) (w : (nat → dobj) * strategy) : option (list effect * ((nat → dobj) * strategy)) :=
  match os with
  | [] => Some ([], w)
  | o :: os => '(fx1, w) ← cache_step o w; '(fx2, w) ← cache_run os w; Some (fx1 ++ fx2, w)
  end.

(** Utilities are numbers, lengths fit an [int], and an object keeps its identifier; an object may
    become one that the strategy is not responsible for, not the other way round. *)
Definition fits (d : dobj) : Prop := 0 <= getOrigDataLen d < 2 ^ 31.
Definition sound_op (o : cache_op) : Prop :=
  match o with
  | NewDataObject compute _ _ _ => ∀ id, is_nan (compute id) = false
  | DeletedDataObject _ _ => True
  | Periodic compute _ => ∀ id, is_nan (compute id) = false
  | Change _ f => ∀ d, getIdStr (f d) = getIdStr d ∧ (fits d → fits (f d)) ∧ (managed (f d) = true → managed d = true)
  end.
(** No object is taken from the strategy's responsibility. *)
Definition keeps_op (o : cache_op) : Prop := match o with Change _ f => ∀ d, managed (f d) = managed d | _ => True end.
Record sound_config : Prop := SoundConfig
  { sc_discrete : 0 < discrete_size cfg < 2 ^ 31; sc_watermark : 0 <= watermark_capacity_kb cfg <= max_capacity_kb cfg;
    sc_max : max_capacity_kb cfg * 1024 < 2 ^ 31; sc_db : allow_db_purging cfg = false }.
Definition capacity : Z := (if purgeOnInsert cfg then watermark_capacity_kb cfg else max_capacity_kb cfg) * 1024.
(** What the strategy bounds: where the cache is purged on insertion, the size of the objects it is still responsible for; otherwise the whole size. *)
Definition bounded (objs : nat → dobj) (st : strategy) (l : list (string * nat)) : Prop :=
  (if purgeOnInsert cfg then managed_size objs st l else current_size st) <= capacity.
Definition all_managed (objs : nat → dobj) (st : strategy) (l : list (string * nat)) : Prop := ∀ p, p ∈ l.*2 → managed_at objs (store st) p = true.

Lemma all_managed_new objs : all_managed objs strategy_new [].
Proof. intros p Hp. by apply not_elem_of_nil in Hp. Qed.
Lemma cache_wf_count objs st l st' : cache_wf objs st l → utilMetadata st' = utilMetadata st → store st' = store st → fresh st' = fresh st →
  current_size st' = current_size st → current_num_do st' = current_num_do st → cache_wf objs st' l.
Proof. intros [H1 H2 H3 H4 H5] Em Es Ef Ez En. split; rewrite ?Em, ?Es, ?Ef, ?Ez, ?En; done. Qed.
Lemma managed_size_all objs st l : cache_wf objs st l → all_managed objs st l → managed_size objs st l = current_size st.
Proof.
  intros H Hall. unfold managed_size. rewrite (co_size _ _ _ H). f_equal. unfold all_managed in Hall. revert Hall. generalize l.*2. intros ps. induction ps as [|p ps IH]; intros Hall; [done|].
  rewrite filter_cons, decide_True by (apply Hall; by left). f_equal. apply IH. intros q Hq. apply Hall. by right.
Qed.
Lemma bounded_capacity objs st l : cache_wf objs st l → all_managed objs st l → bounded objs st l → current_size st <= capacity.
Proof. intros H Hall. unfold bounded. rewrite (managed_size_all objs st l H Hall). by destruct (purgeOnInsert cfg). Qed.
(** Fewer entries, the same metadata. *)
Lemma managed_size_sub objs st l st' l' rest : cache_wf objs st l → l'.*2 ++ rest ≡ₚ l.*2 → (∀ q, q ∈ l'.*2 → store st' !! q = store st !! q) →
  managed_size objs st' l' <= managed_size objs st l.
Proof.
  intros H Hp Hs. unfold managed_size. rewrite <- (weight_perm _ _ _ (filter_Permutation _ _ _ Hp)), filter_app, total_app.
  rewrite (filter_ext_in _ (managed_at objs (store st))) by (intros q Hq; unfold managed_at; by rewrite Hs).
  rewrite (total_ext _ (cost_at (store st))) by (intros q [_ Hq]%list_elem_of_filter; unfold cost_at; by rewrite Hs).
  enough (0 <= total (cost_at (store st)) (filter (λ p, managed_at objs (store st) p = true) rest)) by lia.
  apply total_nonneg. intros q [_ Hq]%list_elem_of_filter. pose proof (co_positive _ _ _ H q) as Hpos. rewrite <- Hp in Hpos. specialize (Hpos ltac:(apply elem_of_app; by right)). lia.
Qed.

(** Inserting an object that is not there. *)
Lemma insert_run objs st l id m : cache_wf objs st l → id ∉ l.*1 → good objs id m →
  ∃ it um, insert_unique string_lt string_eq (utilMetadata (allocate st m).2) (id, (allocate st m).1) = Some (it, true, um) ∧
    ∃ l', l' ≡ₚ (id, fresh st) :: l ∧ cache_wf objs (count_inserted (set_map (allocate st m).2 um) (m_cost m)) l'.
Proof.
  intros H Hn Hg. cbn [allocate fst snd utilMetadata]. pose proof (co_map _ _ _ H) as Hwf.
  destruct (insert_unique_spec string_lt string_eq (utilMetadata st) l (id, fresh st) (mw_rep _ _ _ _ Hwf) (mw_sorted _ _ _ _ Hwf)) as (i & b & um & -> & Hb).
  destruct b; [|destruct Hb as (_ & y & Hy & Ey); exfalso; apply Hn; cbn in Ey; rewrite <- Ey; apply list_elem_of_fmap_2; by apply list_elem_of_lookup_2 in Hy].
  destruct Hb as (_ & Hr & _ & Hs). exists (Some i), um. split; [done|]. exists (insert_at l i (id, fresh st)). pose proof (insert_at_perm l i (id, fresh st)) as Hp. split; [done|].
  assert (Hfr : ∀ id' q, (id', q) ∈ l → q ≠ fresh st) by (intros id' q Hin; destruct (co_meta _ _ _ H _ _ Hin) as [? _]; lia).
  assert (Hnp : fresh st ∉ l.*2) by (intros Hin; apply list_elem_of_fmap in Hin as ([id' q] & E & Hin); by apply (Hfr _ _ Hin)).
  split; cbn [count_inserted set_map utilMetadata store fresh current_size current_num_do].
  - split; [done|done| |done]. rewrite Hp. cbn. constructor; [done|]. apply (mw_nodup _ _ _ _ Hwf).
  - rewrite Hp. cbn. constructor; [done|]. apply (co_pointers _ _ _ H).
  - intros id' q Hin. rewrite Hp in Hin. apply elem_of_cons in Hin as [[= -> ->]|Hin].
    + split; [lia|]. exists m. split; [apply lookup_insert_eq|done].
    + destruct (co_meta _ _ _ H _ _ Hin) as (Hf & m' & Em & Hg'). split; [lia|]. exists m'. split; [|done]. rewrite lookup_insert_ne; [done|]. intros E. by apply (Hfr _ _ Hin).
  - rewrite (weight_perm _ _ ((id, fresh st) :: l).*2) by by rewrite Hp. cbn [fmap list_fmap snd]. rewrite total_cons. unfold cost_at at 1. rewrite lookup_insert_eq. cbn.
    rewrite (co_size _ _ _ H), Z.add_comm. f_equal. apply total_ext. intros q Hq. unfold cost_at. rewrite lookup_insert_ne; [done|]. intros <-. done.
  - rewrite (Permutation_length Hp), (co_number _ _ _ H). cbn [length]. lia.
Qed.

Section Step.
Context (objs : nat → dobj) (st : strategy) (l : list (string * nat)).
Hypothesis Hwf : cache_wf objs st l.
(** What an operation leaves. *)
Definition step_ok (st' : strategy) (l' : list (string * nat)) : Prop :=
  cache_wf objs st' l' ∧ bounded objs st' l' ∧ (all_managed objs st l → all_managed objs st' l').

Lemma deleted_run d mem_do : bounded objs st l → ∃ fx st' l', _handleDeletedDataObject cfg objs st d mem_do = Some (fx, st') ∧ step_ok st' l'.
Proof using Hwf.
  intros Hb. unfold _handleDeletedDataObject. destruct (negb _); [by exists [], st, l|]. destruct (stats_responsible cfg (objs d)); [by exists [], st, l|].
  destruct (decide (getIdStr (objs d) ∈ l.*1)) as [Hin|Hn].
  2: { rewrite (delete_absent objs st l) by done. cbn [mbind option_bind]. by exists [], st, l. }
  apply list_elem_of_fmap in Hin as ([id p] & Eid & Hin). cbn in Eid. rewrite Eid.
  destruct (delete_run objs st l id p mem_do Hwf Hin) as (st' & l' & -> & Hp & H' & Es & _). cbn [mbind option_bind]. eexists _, st', l'. split; [done|].
  assert (NoDup (p :: l'.*2)) as [Hnp _]%NoDup_cons by (pose proof (co_pointers _ _ _ Hwf) as Hnd; by rewrite Hp in Hnd).
  assert (Hsame : ∀ q, q ∈ l'.*2 → store st' !! q = store st !! q) by (intros q Hq; rewrite Es, lookup_delete_ne; [done|]; intros ->; done).
  assert (Hp2 : l'.*2 ++ [p] ≡ₚ l.*2) by (rewrite Hp, Permutation_app_comm; done).
  split; [done|]. split.
  - unfold bounded in *. destruct (purgeOnInsert cfg); [pose proof (managed_size_sub objs st l st' l' [p] Hwf Hp2 Hsame); lia|].
    rewrite (co_size _ _ _ Hwf), <- (weight_perm _ _ _ Hp2), total_app in Hb. rewrite (co_size _ _ _ H'), (total_ext _ (cost_at (store st))) by (intros q Hq; unfold cost_at; by rewrite Hsame).
    pose proof (co_positive _ _ _ Hwf p) as Hc. rewrite <- Hp2 in Hc. specialize (Hc ltac:(apply elem_of_app; right; by left)). rewrite total_cons in Hb. cbn in Hb. lia.
  - intros Hall q Hq. unfold managed_at. rewrite Hsame by done. apply Hall. rewrite <- Hp2. apply elem_of_app. by left.
Qed.

(** The metadata of the new object may be deleted from now on. *)
Lemma enable_run p m : (∃ id, (id, p) ∈ l) → store st !! p = Some m → bounded objs st l → step_ok (set_store st (<[p := setEnableDeletion m true]> (store st))) l.
Proof using Hwf.
  intros [id Hin] Em Hb. set (h := <[p := setEnableDeletion m true]> (store st)).
  assert (Hsame : ∀ q, cost_at h q = cost_at (store st) q ∧ managed_at objs h q = managed_at objs (store st) q).
  { intros q. unfold h, cost_at, managed_at. destruct (decide (q = p)) as [->|Hne]; [rewrite lookup_insert_eq, Em; done|by rewrite lookup_insert_ne]. }
  split; [|split].
  - apply cache_wf_update; [done|]. intros id' q Hq. destruct (co_meta _ _ _ Hwf _ _ Hq) as (_ & m' & Em' & Hg'). exists m'. unfold h. destruct (decide (q = p)) as [->|Hne].
    + exists (setEnableDeletion m true). rewrite lookup_insert_eq. assert (m' = m) as -> by congruence. split; [done|]. split; [done|]. split; [by destruct Hg'|done].
    + exists m'. by rewrite lookup_insert_ne.
  - unfold bounded, managed_size in *. cbn [set_store store current_size]. destruct (purgeOnInsert cfg); [|done].
    rewrite (filter_ext_in _ (managed_at objs (store st))) by (intros q _; apply Hsame). rewrite (total_ext _ (cost_at (store st))) by (intros q _; apply Hsame). done.
  - intros Hall q Hq. cbn [set_store store]. destruct (Hsame q) as [_ ->]. by apply Hall.
Qed.
End Step.

Lemma new_object_run objs compute now clock st l d : sound_config → (∀ id, is_nan (compute id) = false) → fits (objs d) → cache_wf objs st l → bounded objs st l →
  ∃ fx st' l', _handleNewDataObject cfg objs compute now clock d st = Some (fx, st') ∧ step_ok objs st l st' l'.
Proof.
  intros Hcfg Hcomp Hlen H Hcap. destruct Hcfg as [Hds Hwm Hmax Hdb]. unfold _handleNewDataObject.
  destruct (isResponsibleForDataObject cfg (objs d)) eqn:Er; cbn [negb]; [|by exists [], st, l].
  destruct (stats_responsible cfg (objs d)) eqn:Est; [by exists [StatsNewDataObject d], st, l|].
  destruct (decide (getIdStr (objs d) ∈ l.*1)) as [Hin|Hn].
  { apply list_elem_of_fmap in Hin as ([id p] & Eid & Hin). cbn in Eid. rewrite Eid. destruct (find_erase _ _ _ _ (co_map _ _ _ H) Hin) as (i & _ & _ & -> & _).
    cbn [mbind option_bind]. exists [], (count_dupe st), l. split; [done|]. split; [by apply (cache_wf_count objs st)|done]. }
  rewrite (find_absent _ _ _ (co_map _ _ _ H) Hn). cbn [mbind option_bind]. rewrite s32_of_int by done.
  set (cost := if getOrigDataLen (objs d) =? 0 then 1 else getOrigDataLen (objs d)).
  assert (Hc : 0 < cost < 2 ^ 31) by (unfold cost; unfold fits in Hlen; destruct (Z.eqb_spec (getOrigDataLen (objs d)) 0); lia).
  destruct (SFltb (compute (getIdStr (objs d))) (minThreshold cfg)); cbn [orb].
  { eexists _, _, l. split; [done|]. destruct (negb (purgeOnInsert cfg) && _); (split; [by apply (cache_wf_count objs st)|done]). }
  destruct (negb (purgeOnInsert cfg) && (max_capacity_kb cfg * 1024 <? current_size st + cost)) eqn:Efull.
  { eexists _, _, l. split; [done|]. split; [by apply (cache_wf_count objs st)|done]. }
  set (m := if purgeOnInsert cfg then setEnableDeletion _ false else _).
  assert (Hg : good objs (getIdStr (objs d)) m) by (unfold m; destruct (purgeOnInsert cfg); (split; [done|done|exact Hc|apply Hcomp])).
  assert (Em : m_cost m = cost ∧ m_dObj m = d) by (unfold m; by destruct (purgeOnInsert cfg)). destruct Em as [Ecost Ed].
  destruct (insert_run objs st l (getIdStr (objs d)) m H Hn Hg) as (it & um & Ei & l1 & Hp1 & H1). destruct (allocate st m) as [p st1] eqn:Ealloc.
  cbn [fst snd] in Ei, H1. rewrite Ei. cbn [mbind option_bind negb]. rewrite Ecost in H1. injection Ealloc as Ep Est1.
  set (st2 := count_inserted (set_map st1 um) cost) in *.
  assert (Hsz : current_size st2 = current_size st + cost) by (unfold st2; by rewrite <- Est1).
  assert (Hst2 : store st2 = <[p := m]> (store st)) by (unfold st2; by rewrite <- Est1, <- Ep).
  assert (Hall : all_managed objs st l → all_managed objs st2 l1).
  { intros Hall q Hq. rewrite Hp1 in Hq. unfold managed_at. rewrite Hst2. destruct (decide (q = p)) as [->|Hne].
    - rewrite lookup_insert_eq. cbn. unfold managed. by rewrite Ed, Er, Est.
    - rewrite lookup_insert_ne by done. apply Hall. cbn in Hq. apply elem_of_cons in Hq as [->|Hq]; [by rewrite Ep in Hne|done]. }
  unfold bounded, capacity in Hcap. destruct (purgeOnInsert cfg) eqn:Ep'; cbn [negb andb] in *.
  - destruct (purge_weak objs compute clock Hcomp Hds st2 l1 H1 ltac:(lia) (Some (getIdStr (objs d))) Hdb) as (was & fx & st3 & l3 & -> & H3 & Hsub & Hle & _ & Hmg & Hw).
    assert (Hb3 : bounded objs st3 l3) by (unfold bounded, capacity; by rewrite Ep').
    assert (Hall3 : all_managed objs st l → all_managed objs st3 l3).
    { intros Ha q Hq. rewrite (Hmg q Hq). apply (Hall Ha). apply list_elem_of_fmap in Hq as (x & -> & Hx). by apply list_elem_of_fmap_2, Hsub. }
    cbn [mbind option_bind]. destruct was.
    + eexists _, _, l3. split; [done|]. split; [by apply (cache_wf_count objs st3)|done].
    + assert (Hin3 : (getIdStr (objs d), p) ∈ l3).
      { destruct (decide (getIdStr (objs d) ∈ l3.*1)) as [Hin|Hnin].
        - apply list_elem_of_fmap in Hin as ([id' q] & Eid & Hin). cbn in Eid. subst id'. specialize (Hsub _ Hin). rewrite Hp1 in Hsub.
          apply elem_of_cons in Hsub as [[= ->]|Hsub]; [by rewrite Ep in Hin|]. exfalso. apply Hn. by apply (list_elem_of_fmap_2 fst) in Hsub.
        - assert (false = true) as Hft by (apply (Hw (getIdStr (objs d))); [done| |done]; rewrite Hp1; by left). done. }
      destruct (co_meta _ _ _ H3 _ _ Hin3) as (_ & m3 & Em3 & Hg3). rewrite Em3. cbn [mbind option_bind].
      destruct (enable_run objs st3 l3 H3 p m3 ltac:(by eexists) Em3 Hb3) as (He1 & He2 & He3). eexists _, _, l3. split; [done|]. split; [done|]. split; [done|]. by intros Ha%Hall3%He3.
  - apply Z.ltb_ge in Efull. eexists _, _, l1. split; [done|]. split; [done|]. split; [|done]. unfold bounded, capacity. rewrite Ep'. lia.
Qed.

(** An object changes. *)
Lemma change_run objs st l d f : sound_op (Change d f) → cache_wf objs st l → bounded objs st l →
  cache_wf (<[d := f (objs d)]> objs) st l ∧ bounded (<[d := f (objs d)]> objs) st l ∧
  (keeps_op (Change d f) → all_managed objs st l → all_managed (<[d := f (objs d)]> objs) st l).
Proof.
  intros Hf H Hb. set (objs' := <[d := f (objs d)]> objs).
  assert (Hobj : ∀ r, objs' r = objs r ∨ objs' r = f (objs r)).
  { intros r. unfold objs'. destruct (decide (r = d)) as [->|Hne]; [right; by rewrite fn_lookup_insert|left; by rewrite fn_lookup_insert_ne]. }
  assert (Hm : ∀ p, managed_at objs' (store st) p = true → managed_at objs (store st) p = true).
  { intros p. unfold managed_at. destruct (store st !! p) as [m|]; cbn; [|done]. destruct (Hobj (m_dObj m)) as [->| ->]; [done|]. by apply Hf. }
  split; [|split].
  - destruct H as [H1 H2 H3 H4 H5]. split; [done|done| |done|done]. intros id p Hin. destruct (H3 _ _ Hin) as (Hlt & m & Em & Hg). split; [done|]. exists m. split; [done|].
    destruct Hg as [G1 G2 G3 G4]. split; [done| |done|done]. destruct (Hobj (m_dObj m)) as [->| ->]; [done|]. rewrite <- G2. by apply Hf.
  - unfold bounded in *. destruct (purgeOnInsert cfg); [|done]. etransitivity; [|exact Hb]. unfold managed_size. pose proof (co_positive _ _ _ H) as Hpos. revert Hpos. generalize l.*2.
    intros ps. induction ps as [|p ps IH]; intros Hpos; [done|]. rewrite !filter_cons. specialize (IH ltac:(intros q Hq; apply Hpos; by right)).
    specialize (Hpos p ltac:(by left)). repeat case_decide; rewrite ?total_cons; [lia| |lia|done]. exfalso. by auto.
  - intros Hk Hall p Hp. specialize (Hall p Hp). revert Hall. unfold managed_at. destruct (store st !! p) as [m|]; cbn; [|done]. destruct (Hobj (m_dObj m)) as [->| ->]; [done|]. by rewrite (Hk (objs (m_dObj m))).
Qed.

Lemma cache_step_run o objs st l : sound_config → sound_op o → (∀ r, fits (objs r)) → cache_wf objs st l → bounded objs st l →
  ∃ fx objs' st' l', cache_step o (objs, st) = Some (fx, (objs', st')) ∧ (∀ r, fits (objs' r)) ∧ cache_wf objs' st' l' ∧ bounded objs' st' l' ∧
    (keeps_op o → all_managed objs st l → all_managed objs' st' l').
Proof.
  intros Hcfg Ho Hfit H Hb. destruct o as [compute now clock d|d mem_do|compute clock|d f]; cbn [cache_step].
  - destruct (new_object_run objs compute now clock st l d Hcfg Ho (Hfit d) H Hb) as (fx & st' & l' & -> & Hok). cbn [mbind option_bind]. exists fx, objs, st', l'. split; [done|]. split; [done|].
    destruct Hok as (? & ? & ?). done.
  - destruct (deleted_run objs st l H d mem_do Hb) as (fx & st' & l' & -> & Hok). cbn [mbind option_bind]. exists fx, objs, st', l'. split; [done|]. split; [done|]. destruct Hok as (? & ? & ?). done.
  - destruct Hcfg as [Hds Hwm Hmax Hdb]. destruct (purge_weak objs compute clock Ho Hds st l H ltac:(lia) None Hdb) as (was & fx & st' & l' & -> & H' & Hsub & Hle & Hsz & Hmg & _).
    cbn [mbind option_bind]. exists fx, objs, st', l'. split; [done|]. split; [done|]. split; [done|]. split; [unfold bounded, capacity in *; destruct (purgeOnInsert cfg); lia|].
    intros _ Ha q Hq. rewrite (Hmg q Hq). apply Ha. apply list_elem_of_fmap in Hq as (x & -> & Hx). by apply list_elem_of_fmap_2, Hsub.
  - destruct (change_run objs st l d f Ho H Hb) as (H1 & H2 & H3). eexists [], _, st, l. split; [done|]. split; [|done]. intros r.
    destruct (decide (r = d)) as [->|Hne]; [rewrite fn_lookup_insert; by apply Ho|by rewrite fn_lookup_insert_ne].
Qed.
Lemma run_ok os : ∀ objs st l, sound_config → Forall sound_op os → (∀ r, fits (objs r)) → cache_wf objs st l → bounded objs st l →
  ∃ fx objs' st' l', cache_run os (objs, st) = Some (fx, (objs', st')) ∧ cache_wf objs' st' l' ∧ bounded objs' st' l' ∧
    (Forall keeps_op os → all_managed objs st l → all_managed objs' st' l').
Proof.
  induction os as [|o os IH]; intros objs st l Hcfg Hos Hfit H Hb; cbn [cache_run]; [by exists [], objs, st, l|]. apply Forall_cons in Hos as [Ho Hos].
  destruct (cache_step_run o objs st l Hcfg Ho Hfit H Hb) as (fx1 & objs1 & st1 & l1 & -> & Hfit1 & H1 & Hb1 & Hk1). cbn [mbind option_bind].
  destruct (IH objs1 st1 l1 Hcfg Hos Hfit1 H1 Hb1) as (fx2 & objs2 & st2 & l2 & -> & H2 & Hb2 & Hk2). cbn [mbind option_bind]. exists (fx1 ++ fx2), objs2, st2, l2.
  split; [done|]. split; [done|]. split; [done|]. intros [Ho1 Hos1]%Forall_cons Ha. by apply Hk2, Hk1.
Qed.

(** C14: a purge keeps what is worth keeping: from every consistent state it ends in a consistent one whose size is
    not above the watermark, and whose number of objects is not above the threshold where that is
    enforced.  An object that stays is not below the utility threshold; one that goes was below it, or the cache was above the
    watermark and the object is larger than the space left free, or there were too many objects.  The
    caller is told exactly when its object was among those that went. *)
Theorem purge_cache_spec objs compute clock doid st l :
  sound_op (Periodic compute clock) → 0 < discrete_size cfg < 2 ^ 31 → cache_ok objs st l → 0 <= watermark_capacity_kb cfg * 1024 < 2 ^ 31 →
  (allow_db_purging cfg = true →
     0 <= db_size_threshold cfg < 2 ^ 31 - 1 ∧ (current_num_do st <= db_size_threshold cfg ∨ current_size st <= watermark_capacity_kb cfg * 1024)) →
  ∃ was fx st' l',
    _purgeCache cfg objs compute clock doid st = Some (was, fx, st') ∧ cache_ok objs st' l' ∧ (∀ x, x ∈ l' → x ∈ l) ∧
    current_size st' <= watermark_capacity_kb cfg * 1024 ∧ (allow_db_purging cfg = true → current_num_do st' <= db_size_threshold cfg) ∧
    (∀ id p, (id, p) ∈ l → ∃ m, store st !! p = Some m ∧
      let m' := refresh cfg compute (clock id) m in
      if decide ((id, p) ∈ l') then store st' !! p = Some m' ∧ SFltb (m_utility m') (minThreshold cfg) = false
      else SFltb (m_utility m') (minThreshold cfg) = true ∨
           (watermark_capacity_kb cfg * 1024 < current_size st ∧ watermark_capacity_kb cfg * 1024 - current_size st' <= m_cost m') ∨
           (allow_db_purging cfg = true ∧ db_size_threshold cfg < current_num_do st)) ∧
    (was = true ↔ ∃ id, doid = Some id ∧ id ∈ l.*1 ∧ id ∉ l'.*1).
Proof.
  intros Hc Hds [H Hmg] Hwm Hdb. destruct (purge_run objs compute clock Hc Hds st l H Hwm Hmg Hdb doid) as (was & fx & st' & l' & E & H' & Hsub & Hle & Hnum & Hev & Hw).
  by exists was, fx, st', l'.
Qed.

(** C7: the cache never holds more than it may: where the number of objects is not bounded as well ([allow_db_purging]
    is off), whatever sequence of new objects, deletions, periodic purges and changes to the objects, cached or not, that the other managers make -
    with utilities that are numbers, lengths that fit an [int] and identifiers that stay - no call fails to return or follows a
    pointer to metadata that were deleted, and afterwards every entry has its metadata and the size and the number that
    the strategy counts are those of the entries.  Without purges on insertion the size is at most the maximum.  With them, the size of the objects that the strategy is still
    responsible for is at most the watermark: an object that was marked as a duplicate or as a control message while in the cache is passed over by
    every purge.  Where no change takes an object from the strategy, it is responsible for all entries, and the
    size itself is at most the watermark. *)
Theorem cache_bounded objs os :
  sound_config → Forall sound_op os → (∀ r, fits (objs r)) →
  ∃ fx objs' st l, cache_run os (objs, strategy_new) = Some (fx, (objs', st)) ∧ cache_wf objs' st l ∧
    (if purgeOnInsert cfg then managed_size objs' st l <= watermark_capacity_kb cfg * 1024 else current_size st <= max_capacity_kb cfg * 1024) ∧
    (Forall keeps_op os → cache_ok objs' st l ∧ current_size st <= capacity).
Proof.
  intros Hcfg Hos Hfit. destruct (run_ok os objs strategy_new [] Hcfg Hos Hfit (cache_new_wf objs)) as (fx & objs' & st & l & E & H & Hb & Hk).
  { unfold bounded, capacity. destruct Hcfg. cbn. destruct (purgeOnInsert cfg); cbn; lia. }
  exists fx, objs', st, l. split; [done|]. split; [done|]. split; [unfold bounded, capacity in Hb; by destruct (purgeOnInsert cfg)|].
  intros Hks. specialize (Hk Hks (all_managed_new _)). split; [done|]. by apply (bounded_capacity objs' st l).
Qed.
End Invariant.

(** ** A cache of one kilobyte *)

Definition ex_config (watermark_kb max_kb : Z) (on_insert db : bool) (db_threshold : Z) : config :=
  Config 0 max_kb watermark_kb on_insert 1 (ratio 1 10) db_threshold db true true false None false false 0.
Definition ex_object (id : string) (len sec : Z) : dobj := DObj id false false false false len true (TV sec 0).
(** The object at a reference was created that many seconds after the first. *)
Definition ex_objects (ds : list (string * Z)) (r : nat) : dobj :=
  match ds !! r with Some (id, len) => ex_object id len (Z.of_nat r + 1) | None => ex_object "" 1 0 end.
Definition ex_new (r : nat) : cache_op := NewDataObject (λ _, ratio 1 2) (TV (Z.of_nat r + 1) 0) (λ _, TV (Z.of_nat r + 1) 0) r.
Definition ex_periodic : cache_op := Periodic (λ _, ratio 1 2) (λ _, TV 9 0).
Definition ex_ids (st : strategy) : option (list string) := l ← entries (utilMetadata st); Some l.*1.
Definition ex_letters : nat → dobj := ex_objects [("a", 300); ("b", 300); ("c", 300); ("d", 300); ("e", 300)].
Definition ex_five : list cache_op := [ex_new 0; ex_new 1; ex_new 2; ex_new 3; ex_new 4].

(** The newest three stay. *)
Example periodic_purge :
  ('(_, (_, st)) ← cache_run (ex_config 1 4 false false 0) (ex_five ++ [ex_periodic]) (ex_letters, strategy_new); ids ← ex_ids st; Some (ids, current_size st)) = Some (["c"; "d"; "e"], 900).
Proof. vm_compute. reflexivity. Qed.
Example hard_eviction :
  ('(_, (_, st)) ← cache_run (ex_config 1 1 false false 0) ex_five (ex_letters, strategy_new); ids ← ex_ids st; Some (ids, total_do_hard_evicted st)) = Some (["a"; "b"; "c"], 2).
Proof. vm_compute. reflexivity. Qed.
(** Two that are marked as duplicates in the cache are passed over: the cache is above its watermark from then on, and each
    purge has the data store delete them once more. *)
Definition ex_duplicates : list cache_op := [ex_new 0; ex_new 1; ex_new 2; Change 0 setDuplicate; Change 1 setDuplicate; ex_new 3; ex_new 4; ex_periodic].
Example duplicates_stay :
  ('(fx, (_, st)) ← cache_run (ex_config 1 4 true false 0) ex_duplicates (ex_letters, strategy_new); ids ← ex_ids st;
   Some (ids, current_size st, length (List.filter (λ e, match e with DeleteDataObject id => string_eq id "a" | _ => false end) fx))) = Some (["a"; "b"; "c"; "d"; "e"], 1500, 3%nat).
Proof. vm_compute. reflexivity. Qed.
(** With a threshold on the number as well, the second round goes over objects that the first deleted. *)
Example second_round_dangles :
  option_map (λ _, ()) (cache_run (ex_config 1 4 false true 2) (ex_five ++ [ex_periodic]) (ex_letters, strategy_new)) = None.
Proof. vm_compute. reflexivity. Qed.
(** A watermark of 2 GB is negative as the size of the bag. *)
Example large_watermark :
  option_map (λ _, ()) (cache_run (ex_config 2097152 4194304 false false 0) [ex_new 0; ex_new 1; ex_periodic] (ex_objects [("a", 2 ^ 30 + 1); ("b", 2 ^ 30)], strategy_new)) = None.
Proof. vm_compute. reflexivity. Qed.
(** A file of 2 GB has a negative cost. *)
Example large_file_cost :
  ('(_, (_, st)) ← cache_run (ex_config 1 4 false false 0) [ex_new 0] (ex_objects [("a", 2 ^ 31)], strategy_new); Some (current_size st)) = Some (-2147483648).
Proof. vm_compute. reflexivity. Qed.

Lemma ex_sound_config on_insert : sound_config (ex_config 1 4 on_insert false 0).
Proof. split; cbn; lia || done. Qed.
Lemma ex_sound_ops on_insert : Forall (sound_op (ex_config 1 4 on_insert false 0)) (ex_five ++ [ex_periodic]).
Proof. cbn. repeat (apply Forall_cons; split; [intros id; reflexivity|]). apply Forall_nil_2. Qed.
Lemma ex_sound_duplicates on_insert : Forall (sound_op (ex_config 1 4 on_insert false 0)) ex_duplicates.
Proof. unfold ex_duplicates. repeat (apply Forall_cons; split; [first [intros id; reflexivity|done]|]). apply Forall_nil_2. Qed.
Lemma ex_letters_fit r : fits (ex_letters r).
Proof. unfold ex_letters, ex_objects. destruct r as [|[|[|[|[|r]]]]]; vm_compute; split; congruence. Qed.

Lemma cache_bounded_witness :
  ∃ fx objs st l, cache_run (ex_config 1 4 true false 0) ex_duplicates (ex_letters, strategy_new) = Some (fx, (objs, st)) ∧
    managed_size (ex_config 1 4 true false 0) objs st l <= 1024.
Proof.
  destruct (cache_bounded (ex_config 1 4 true false 0) ex_letters ex_duplicates (ex_sound_config true) (ex_sound_duplicates true) ex_letters_fit) as (fx & objs & st & l & E & _ & Hb & _).
  exists fx, objs, st, l. split; [exact E|exact Hb].
Defined.

Lemma purge_cache_spec_witness :
  ∃ fx0 objs st was fx st', cache_run (ex_config 1 4 false false 0) ex_five (ex_letters, strategy_new) = Some (fx0, (objs, st)) ∧
    _purgeCache (ex_config 1 4 false false 0) objs (λ _, ratio 1 2) (λ _, TV 9 0) (Some "a") st = Some (was, fx, st') ∧ current_size st' <= 1024.
Proof.
  assert (Forall (keeps_op (ex_config 1 4 false false 0)) ex_five) as Hk by (by repeat (apply Forall_cons; split; [done|])).
  destruct (run_ok (ex_config 1 4 false false 0) ex_five ex_letters strategy_new [] (ex_sound_config false)) as (fx0 & objs & st & l & E & H & _ & Hall).
  - apply (Forall_app _ _ [ex_periodic]). exact (ex_sound_ops false).
  - exact ex_letters_fit.
  - apply cache_new_wf.
  - vm_compute. intros Hgt. discriminate Hgt.
  - specialize (Hall Hk (all_managed_new _ _)).
    destruct (purge_cache_spec (ex_config 1 4 false false 0) objs (λ _, ratio 1 2) (λ _, TV 9 0) (Some "a") st l) as (was & fx & st' & l' & Ep & _ & _ & Hle & _).
    + intros id. reflexivity.
    + cbn. lia.
    + exact (conj H Hall).
    + cbn. lia.
    + intros Hf. discriminate Hf.
    + exists fx0, objs, st, was, fx, st'. split; [exact E|]. split; [exact Ep|exact Hle].
Defined.
